(* ===== verification/_CoqProject ===== *)
-Q . S2P
Prelude.v
Traces.v
GoLib.v
Json.v
Sha256.v
JsonValue.v
GoText.v
GoPath.v
Regex.v
GoFormat.v
Control.v
Bus.v
LabelCheck.v
IssueLocks.v
AgentStream.v
AgentResume.v
Supervisor.v
SupervisorSpec.v
HookConfig.v
Hooks.v
HooksSpec.v
Types.v
Liveness.v
DB.v
TaskQueue.v
TaskQueueSpec.v
IssueClaim.v
IssueClaimSpec.v
StoreIssue.v
StoreAdmin.v
StoreAdminSpec.v
World.v
Security.v
Dependency.v
Poller.v
Workflow.v
WorkflowSpec.v
StateMachine.v
Frames.v
Demo.v
StateMachineSpec.v
SMBehaviour.v
SMDispatch.v
Cycles.v
DependencySpec.v
PollerSpec.v
Config.v
Router.v
Registration.v
WorkerClient.v
Worker.v
WorkerSpec.v
ReportFormat.v
Notifier.v
NotifierSpec.v
Tunnel.v
TunnelFrames.v
TunnelSpec.v
ClaimVerify.v
Reporter.v
ReporterSpec.v
RepoRuntime.v
RepoRuntimeSpec.v
Coordinator.v
CoordinatorSpec.v
ConfigReload.v
GoUrl.v
GoTime.v
SessionAudit.v
SessionProxy.v
SessionProxySpec.v
Diagnose.v
DiagnoseSpec.v
Sha1.v
Operator.v
OperatorSpec.v
RestartIssue.v
