(* ===== verification/Prelude.v ===== *)
(** * Workbuddy: a verification library of the orchestration core

    Workbuddy runs coding agents on GitHub issues.  A coordinator polls a
    repository, turns label changes into events, moves each issue through the
    states of a workflow, and queues a task for an agent whenever an issue enters
    a state; workers claim tasks under a lease and report their completion.  This
    library models that loop, from the listing of issues to the result a worker
    submits, with the services around it, and proves what makes it correct.

    ** The program and how its parts interact

    - [internal/poller] lists issues and pull requests, compares them with the
      issue cache and emits change events;
    - [internal/dependency] reads the dependency block of each open issue and
      records a verdict (ready, blocked, needs_human, override) that gates
      dispatch;
    - [internal/statemachine] consumes the events and the completions of agents:
      it selects the workflow, records the transition ([internal/workflow]), applies
      the caps on cycles, takes the per-issue claim, builds a dispatch group and
      sends one request per agent or rollout; a completion closes a slot of the
      group, and the join of the state decides the group;
    - [internal/router] with [internal/taskprep] checks the gate again and inserts
      the row of the task;
    - [internal/store] keeps everything that is shared, on SQLite: the task queue
      with its leases, the issue claims, counters, instances, caches, verdicts;
    - [internal/config] normalizes and validates the workflows all of them read;
    - [internal/app] assembles these parts: [PollerManager] runs one state machine per
      registered repository over the shared store, lets events through the author
      allowlist ([internal/security]) and the dependency pass, recovers orphaned
      issues and reaps dead tasks; [FullCoordinatorServer] is the HTTP control plane
      through which repositories are registered, workers register and authenticate
      ([internal/registry], worker tokens), poll for tasks and submit results;
    - [internal/alertbus] and [internal/tasknotify] fan alerts and completions out to
      subscribers, [internal/hooks] to declared webhooks and commands;
    - a worker ([internal/worker]) takes a task through its client
      ([internal/workerclient]), executes it under a lock per issue, heartbeats and
      submits the result or releases the task; [internal/control] decides whether an
      agent is resumed, [internal/labelcheck] classifies a run by its labels, and
      [internal/liveness] with [internal/staleinference] cancels agents that have
      gone silent;
    - [internal/supervisor] starts the agents of a host in a process that outlives the
      workers, follows their output, and lets a worker that comes back resume them;
    - [internal/reporter] checks what an agent claims to have done and writes the
      comments on the issue, which [internal/taskprep] reads back into the next prompt;
    - [internal/wstunnel] carries HTTP requests of the coordinator to workers behind a
      NAT, over one WebSocket per worker; [internal/sessionproxy] asks all workers for
      their sessions ([internal/auditapi]), through tunnels, at addresses or in the
      process itself, and merges the answers;
    - [internal/notifier] delivers alerts to chat channels, deduplicated and in batches;
      [internal/app/config_reload.go] replaces the configuration of a running
      coordinator;
    - [internal/operator] scans the coordinator's state for anomalies and raises alerts;
      [internal/diagnose] looks for stuck issues and repairs them on demand, and
      [cmd/admin_restart_issue.go] forces one issue back through the poller.

    ** Files

    Foundation:
    - [Prelude]: Go results ([res], [error]), the state monad [St] with [bindE]
      ([x ←! m; k], a call whose error is returned), loops, a weakest-precondition
      reading ([wp]), frame reasoning ([keeps], the hint database [frame] and the
      tactic [keep_auto]), stable sorting; [Traces]: what an operation adds to a trace;
    - [GoLib], [Json], [JsonValue], [Sha256], [Sha1], [GoText], [GoPath], [Regex],
      [GoFormat], [GoTime], [GoUrl]: what the sources use of [strings], [strconv],
      [sort], [encoding/json], [crypto], [filepath], [regexp], [path.Match],
      [time.Format], [time.Parse] and [net/url], executable; [JsonValue] has the whole
      JSON grammar with its round trip, [GoTime] that of RFC 3339 times, [Regex] a
      backtracking matcher with its relation;
    - [Types]: rows, configuration, events and requests ([store/types.go],
      [config/types.go]);
    - [DB]: the database as a record of tables, statements and transactions with
      a fault oracle; [World]: the database with the state machine's memory, the
      events logged, alerts published, requests sent and comments reported.

    Components (definitions keep the sources' names):
    - [TaskQueue]: the [task_queue] operations of [store.go] and [queries.go];
    - [IssueClaim]: the [issue_claim] operations of [store.go];
    - [StoreIssue]: counters, cycle state, workflow rows, hazards, issue cache with
      root trace ids ([root_trace.go]), dependency tables, workers;
    - [Dependency]: [dependency.go] and [gate.go], with [RedactTokens] and
      [IsRateLimit] of [ghutil];
    - [Poller]: [poller.go], a cycle as a collect phase and a commit phase, and the
      ticks of [Run];
    - [Workflow]: [workflow.go]; [Config]: [loader.go] after decoding;
    - [StateMachine]: [statemachine.go], every operation that changes state:
      [HandleEvent], [MarkAgentCompleted] and its variants, [DispatchAgent],
      [CheckAllStuck], [ClearInflight], [ResetDedup] and what they call;
    - [Router]: [router.go] and the coordinator side of [taskprep.go];
    - [StoreAdmin]: events, sessions and their routes, repository registrations, the
      reporting queries, worker tokens, and the registry ([Module Registry]);
    - [Control], [Liveness], [Bus], [LabelCheck]: the packages of those names, with
      [staleinference], [tasknotify] and the watch handler of [app/task_hub.go];
    - [HookConfig], [Hooks]: [internal/hooks], its configuration and actions, and the
      dispatcher with one step per goroutine receive;
    - [Security]: the allowlist; [Registration]: the record of a repository and the
      normalization of its agents; [RepoRuntime]: [PollerManager], the recovery sweep
      and the reaper; [Coordinator]: the HTTP handlers and authentication;
    - [IssueLocks], [Worker]: [executor.go] with its locks, [distributed.go] and the
      label check of [reporting_helpers.go]; [WorkerClient]: the HTTP client with its
      retries;
    - [Supervisor]: the agents, their rows and processes; [AgentStream]: the stream of
      an agent's output, interleaved with the agent; [AgentResume]: its encoding and
      decoding, and the resumption of a task ([resume.go]);
    - [ReportFormat], [Reporter], [ClaimVerify]: [format.go], [reporter.go], [verify.go]
      and the prompt's reading of comments; [Tunnel]: [tunnel.go] and the handler that
      registers connections;
    - [Notifier]: [notifier.go], its channels and one step per goroutine action;
      [ConfigReload]: [config_reload.go] with its rollback;
    - [SessionAudit]: the session listing of [auditapi/handler.go]; [SessionProxy]:
      [resolver.go] and [handler.go] of [sessionproxy];
    - [Diagnose]: [diagnose.go] and the repairs of [cmd/diagnose.go]; [Operator]:
      [detector.go]; [RestartIssue]: [admin_restart_issue.go] and [destructive.go].

    Proofs: [TaskQueueSpec], [IssueClaimSpec], [WorkflowSpec], [DependencySpec],
    [Cycles], [PollerSpec], [StateMachineSpec], [SMBehaviour], [SMDispatch],
    [StoreAdminSpec], [HooksSpec], [RepoRuntimeSpec], [CoordinatorSpec],
    [SupervisorSpec], [WorkerSpec], [ReporterSpec], [TunnelFrames], [TunnelSpec],
    [NotifierSpec], [SessionProxySpec], [DiagnoseSpec], [OperatorSpec]; the smaller
    components hold theirs.  [Frames] holds the frame reasoning for the state
    machine and [Demo] the repository's default workflow and small worlds on which the
    model is evaluated.

    ** What the theorems show

    - Task queue: a terminal task is final under any interleaving of operations;
      a live lease is exclusive; a claim takes the oldest eligible row; completion
      needs live ownership; the failure counter, rollout counts and the reaper
      compute what they are meant to.
    - Issue claims: the table implements an abstract lease lock (a forward
      simulation over runs with a moving clock); the outcome of an acquisition on
      every branch; the exact lease window; the start-up sweep.
    - State machine: a gated issue and an issue claimed by another coordinator are
      never dispatched; issues are isolated; events are deduplicated; a resync does
      not dispatch twice; rollouts, joins, caps and counters; entering an open state
      sends exactly its requests.
    - Dependencies: parsed references are well formed; cycle detection terminates
      and is sound and complete for cycles; the pass over the open issues records
      the verdict an abstract function of the dependencies gives.
    - Poller: a complete cycle reports exactly the changes and leaves the cache equal
      to the listing; a failed or repeated one reports none; branch names lead back
      to their issue.
    - Workflow, configuration, router: the record of an instance is consistent;
      loaded workflows are well formed and triggers unambiguous; a request becomes
      one task.
    - Store administration: the worker tokens that are accepted are the live ones of
      an abstract table; session routes are stable; an event is recorded at most once;
      the registry finds the workers that are fresh.
    - Services: the control loop ends; the watchdog cancels exactly the idle agents;
      the buses deliver in order; runs are classified by their labels alone; the ring
      of invocations is the list of the last hundred, and no event of a hook is lost
      from the books.
    - Coordinator: events pass the allowlist and one dependency pass per cycle before
      the state machine sees them; recovery dispatches orphans only; registration is
      a round trip and all or nothing; only requests with a live token are served; a
      poll claims the oldest eligible task for its worker; over every operation of
      the process ([server_step]) a result is accepted once.
    - Worker: tasks of one issue never run at the same time; an execution gives back
      what it takes, a panic included; a task is settled, released or reported before
      the worker lets go of it; calls of the client end; the label check is that of
      the workflow.
    - Supervisor: its knowledge survives restarts, failing writes and reused pids; the
      stream follows the agent's output and ends; encoding and decoding are inverse;
      a resumed event file continues where it ended, and a resumption reports what is
      known and no more.
    - Reporter: a comment is posted at most four times over and only after rate limits;
      repeated launcher errors edit one comment; a run is partial exactly when a claim
      of its last message is not confirmed; a verdict reaches the next prompt.
    - Tunnel: frames survive their encoding; a response belongs to the request of its
      caller whatever the interleaving, and no caller waits on a stream that is gone;
      requests go to the running connection of a worker.
    - Notifier and reload: accepted alerts of one issue and kind are spaced by the
      window whatever the interleaving; a reload applies everywhere or nowhere.
    - Sessions: a page of the merged listing is the page of all workers' sessions
      together, and a repeated request is answered from the cache.
    - Operators' tools: a repair by diagnose touches the stuck tasks only and the
      third run finds nothing left to repair; the detector does not repeat an alert within the
      window; a restarted issue is reported as new by the next poll.
    - Some theorems show behaviour the sources do not intend: a released task keeps
      its lease ([released_task_waits_for_lease]), the reaper reports an error after a
      retry that succeeded, cycle detection can miss a node, a group whose requests
      are not queued yet is dispatched twice, a cancelled commit loses a change, a
      publication races with an unsubscription, a watcher misses a completion,
      malformed hook payloads leave no trace, a reload discards waiting events, the
      poll interval of a registration is dropped, recovery ignores the allowlist, a
      late result settles another worker's task, an unknown task is a server error,
      the login redirect can leave the site, a failed update leaves no runtime, a
      stream splits a line written in two parts and misses one written last, a
      cancellation can reach another process, two state labels are resolved twice, a
      run that did not start is judged by labels nobody read, a task with its own
      agent panics a worker without configuration, a partial run is reported as
      successful, a deleted comment silences repeated errors, an edited one exceeds the
      limit, a verdict that quotes a report is hidden, a denial counts as a claim, closing
      a tunnel can panic the worker, a worker that reconnects can stay offline, a success
      does not reset the notifier's count of failures, a reload duplicates and drops
      alerts, a success does not end a series of failures for diagnose, a merging task
      counts as overtaken and a short timeout as missed, an offset without a limit skips
      sessions, a bad parameter reads as offline workers, an unescaped name changes the
      query of a worker, cache keys collide, a lifetime of zero is the default, an alert
      whose inbox file cannot be written is never delivered, and one error ends the
      operator's detector.

    ** How the code is read

    - State: [St S A] is a function from a state to a value and a state.  One [Env]
      is one operation: its clock, its fault oracle and its random values.  A
      theorem quantified over [Env] covers every pattern of failing statements; one
      over a sequence of steps gives each step its own.
    - Concurrency: a statement or transaction is atomic, as in SQLite; operations
      of several processes are interleaved by step relations ([queue_step],
      [intruder_step], [claim_step], [store_step], [bus_step], [server_step], ...).
      An operation of the state machine (an event, a completion) is one step: two of
      them running at the same time on one issue are not interleaved inside.  The
      buses and the hook dispatcher are modelled channel operation by channel
      operation, and so are the endpoints of a tunnel and the notifier.  A handler is one
      step, but [HandleTaskResult] is also given in its two halves, and the attempts of a
      long poll have arbitrary steps between them.
    - Integers: Go's 64-bit [int] is [Z]; [strconv.Atoi] checks the range.  Times are
      nanoseconds in [Z], stored with the resolution the store writes.  Counters
      that are bounded by the number of events are not wrapped.
    - Worker and reporter: what the environment answers is a function of what was asked
      before ([w_trace], the trace of the reporter), so that theorems hold for any
      behaviour of GitHub, git, the agents and the coordinator.
    - Maps the sources range over are association lists, whose order is any order.
    - Fuel: [visit] of the cycle search gets one unit more than the number of nodes
      and is proved never to use it up; the scan for fenced blocks and the token
      redaction get the length of the text, which every step shortens; the JSON
      decoder and validator and [path.Match] get the length of their input; the rounds
      of the control loop get the limit the controller enforces, which is proved to
      be enough; the JSON parser gets the length of its text ([need_length]) and the
      search for all matches of a pattern the length of the message
      ([find_all_enough]); the search for the root of a worktree gets the length of the
      path, the blocks of SHA-1 the number of words, and the text of a decoded value the
      height of the value.

    ** What is not modelled

    The MySQL backend and schema migration; tracing spans and log lines; the text of
    wrapped errors beyond their context (event payloads carry an empty error text);
    Unicode case folding outside ASCII; fault injection hooks.  Parameters: YAML
    decoding ([YamlLib] and the decoded form of hook files), the GitHub clients
    ([GHReader], the dependency reader, the observer of the control loop), the JSON
    codec of registrations, [time.ParseDuration], [url.Parse] of audit URLs, the
    environment and file lookups.  Left out: the embedded worker's prompt context and
    the GitHub reads of a synthesis context; worker processes, terminals and git
    worktrees; the watcher of configuration files; the transport of notifications (HTTP
    and SMTP, whose outcome the environment decides); the process table that diagnose and
    the detector read; the other endpoints of the audit API, which only present modelled
    queries, and the web interface; of the command line the parsing of flags, the
    deployment, recovery, validation, status and log commands; the adapters of GitHub and
    Gitea, which call external programs.  Of the Unicode tables only lower case is used
    outside of ASCII and is a parameter ([unicode_lower]). *)

From stdpp Require Export base gmap sets list strings option sorting.
From Stdlib Require Export ZArith Lia.

Global Open Scope Z_scope.

(** ** Go results

    A Go function that returns [(T, error)] is a computation whose value is a
    [res T]: [Ok v] when the error is nil, [Err e] otherwise.  The sentinel
    errors of the sources are constructors; [EWrap] is [fmt.Errorf] with the
    [%w] verb and [EMsg] an error built from a message. *)

Inductive error :=
  | ErrTaskNotFound
  | ErrTaskClaimConflict
  | ErrTaskAlreadyCompleted
  | ErrTaskNotClaimedByWorker
  | ErrWorkerNotFound
  | ErrWorkerHasRunningTask
  | ErrIssueClaimHeldByOther
  | ErrTaskStatusTerminal
  | ErrWorkflowInstanceNotFound
  | ErrContext
  | ErrSQL (busy : bool)
  | EMsg (msg : string)
  | EWrap (ctx : string) (e : error).

#[export] Instance error_eq_dec : EqDecision error.
Proof. solve_decision. Defined.

Inductive res (A : Type) :=
  | Ok (a : A)
  | Err (e : error).
Arguments Ok {_} _.
Arguments Err {_} _.

#[export] Instance res_eq_dec `{EqDecision A} : EqDecision (res A).
Proof. solve_decision. Defined.

(** [errors.Is(e, target)] for a sentinel [target]: unwrap until it is met. *)
Fixpoint errors_Is (e target : error) : bool :=
  bool_decide (e = target) ||
  match e with EWrap _ e' => errors_Is e' target | _ => false end.

Definition is_err {A} (r : res A) : bool :=
  match r with Ok _ => false | Err _ => true end.

Definition res_wrap {A} (ctx : string) (r : res A) : res A :=
  match r with Ok a => Ok a | Err e => Err (EWrap ctx e) end.

(** ** A state monad

    Stateful Go code is a function of the state it reads and writes.  The
    stdpp operations [mret] and [mbind] carry the do-notation; [x ←! m; k]
    is the idiom [x, err := m; if err != nil { return err }]. *)

Definition St (S A : Type) : Type := S → A * S.

#[export] Instance St_ret S : MRet (St S) := λ A a s, (a, s).
#[export] Instance St_bind S : MBind (St S) :=
  λ A B k m s, k (m s).1 (m s).2.

Definition bindE {S A B} (m : St S (res A)) (k : A → St S (res B)) : St S (res B) :=
  r ← m; match r with Ok a => k a | Err e => mret (Err e) end.

Notation "x ←! y ; z" := (bindE y (λ x : _, z))
  (at level 20, y at level 100, z at level 200, only parsing) : stdpp_scope.
Notation "' x ←! y ; z" := (bindE y (λ x : _, z))
  (at level 20, x pattern, y at level 100, z at level 200, only parsing) : stdpp_scope.

Definition wrapE {S A} (ctx : string) (m : St S (res A)) : St S (res A) :=
  r ← m; mret (res_wrap ctx r).

Definition getS {S} : St S S := λ s, (s, s).
Definition modS {S} (f : S → S) : St S unit := λ s, (tt, f s).
Definition getsS {S A} (f : S → A) : St S A := λ s, (f s, s).

(** [for _, x := range xs { body }] without an early exit. *)
Fixpoint forS {S A} (xs : list A) (body : A → St S unit) : St S unit :=
  match xs with
  | [] => mret tt
  | x :: xs => body x;; forS xs body
  end.

(** The same loop whose body may return an error, which leaves the function. *)
Fixpoint forE {S A} (xs : list A) (body : A → St S (res unit)) : St S (res unit) :=
  match xs with
  | [] => mret (Ok tt)
  | x :: xs => _ ←! body x; forE xs body
  end.

(** ** A program logic for the monad

    [wp m Q s]: running [m] from [s] ends with a value and a state in [Q].
    Every computation here is total, so this is total correctness. *)

Definition wp {S A} (m : St S A) (Q : A → S → Prop) (s : S) : Prop :=
  Q (m s).1 (m s).2.

Lemma wp_ret {S A} (a : A) (Q : A → S → Prop) s : Q a s → wp (mret a) Q s.
Proof. done. Qed.

Lemma wp_bind {S A B} (m : St S A) (k : A → St S B) Q s :
  wp m (λ a, wp (k a) Q) s → wp (m ≫= k) Q s.
Proof. done. Qed.

Lemma wp_bindE {S A B} (m : St S (res A)) (k : A → St S (res B)) Q s :
  wp m (λ r s', match r with
                | Ok a => wp (k a) Q s'
                | Err e => Q (Err e) s'
                end) s →
  wp (bindE m k) Q s.
Proof. unfold wp, bindE, mbind, St_bind. by destruct (m s) as [[a|e] s']. Qed.

(** Steps whose value is known. *)
Lemma wp_bind_val {S A B} (m : St S A) (k : A → St S B) Q s a :
  (m s).1 = a → wp (k a) Q (m s).2 → wp (m ≫= k) Q s.
Proof. by intros <-. Qed.

Lemma wp_bindE_ok {S A B} (m : St S (res A)) (k : A → St S (res B)) Q s a :
  (m s).1 = Ok a → wp (k a) Q (m s).2 → wp (bindE m k) Q s.
Proof. intros Ha Hk. unfold bindE. eapply wp_bind_val; [exact Ha|exact Hk]. Qed.

(** Running a sequence. *)
Lemma run_bind {S A B} (m : St S A) (k : A → St S B) s : (m ≫= k) s = k (m s).1 (m s).2.
Proof. done. Qed.
Lemma run_bindE_ok {S A B} (m : St S (res A)) (k : A → St S (res B)) s a s' :
  m s = (Ok a, s') → bindE m k s = k a s'.
Proof. intros Hm. unfold bindE. rewrite run_bind, Hm. done. Qed.
Lemma run_wrap_ok {S A} ctx (m : St S (res A)) s a s' : m s = (Ok a, s') → wrapE ctx m s = (Ok a, s').
Proof. intros Hm. unfold wrapE. by rewrite run_bind, Hm. Qed.

Lemma wp_mono {S A} (m : St S A) (Q Q' : A → S → Prop) s :
  wp m Q s → (∀ a s', Q a s' → Q' a s') → wp m Q' s.
Proof. unfold wp. auto. Qed.

Lemma wp_conj {S A} (m : St S A) (Q Q' : A → S → Prop) s :
  wp m Q s → wp m Q' s → wp m (λ a s', Q a s' ∧ Q' a s') s.
Proof. done. Qed.

Lemma wp_wrapE {S A} ctx (m : St S (res A)) Q s :
  wp m (λ r, Q (res_wrap ctx r)) s → wp (wrapE ctx m) Q s.
Proof. done. Qed.

Lemma wp_modS {S} (f : S → S) Q s : Q tt (f s) → wp (modS f) Q s.
Proof. done. Qed.

Lemma wp_getsS {S A} (f : S → A) (Q : A → S → Prop) s : Q (f s) s → wp (getsS f) Q s.
Proof. done. Qed.

(** [keeps R m]: every run of [m] takes a state to one related by [R].  With a
    preorder [R] this is compositional, so frame conditions ("this component
    leaves that table alone") are proved by following the program text. *)

Definition keeps {S A} (R : relation S) (m : St S A) : Prop := ∀ s, R s (m s).2.

Section keeps.
Context {S : Type} (R : relation S) `{!PreOrder R}.

Lemma keeps_ret {A} (a : A) : keeps R (mret a).
Proof. intros s. reflexivity. Qed.

Lemma keeps_bind {A B} (m : St S A) (k : A → St S B) :
  keeps R m → (∀ a, keeps R (k a)) → keeps R (m ≫= k).
Proof. intros Hm Hk s. etrans; [apply Hm | apply Hk]. Qed.

Lemma keeps_bindE {A B} (m : St S (res A)) (k : A → St S (res B)) :
  keeps R m → (∀ a, keeps R (k a)) → keeps R (bindE m k).
Proof.
  intros Hm Hk. apply keeps_bind; [done|]. intros [a|e]; [apply Hk|apply keeps_ret].
Qed.

Lemma keeps_wrapE {A} ctx (m : St S (res A)) : keeps R m → keeps R (wrapE ctx m).
Proof. intros Hm. apply keeps_bind; [done|]. intros ?. apply keeps_ret. Qed.

Lemma keeps_getsS {A} (f : S → A) : keeps R (getsS f).
Proof. intros s. reflexivity. Qed.

Lemma keeps_getS : keeps R getS.
Proof. intros s. reflexivity. Qed.

Lemma keeps_modS f : (∀ s, R s (f s)) → keeps R (modS f).
Proof. intros H s. apply H. Qed.

Lemma keeps_forS {A} (xs : list A) body :
  (∀ x, keeps R (body x)) → keeps R (forS xs body).
Proof.
  intros Hb. induction xs as [|x xs IH]; simpl; [apply keeps_ret|].
  apply keeps_bind; auto.
Qed.

Lemma keeps_forE {A} (xs : list A) body :
  (∀ x, keeps R (body x)) → keeps R (forE xs body).
Proof.
  intros Hb. induction xs as [|x xs IH]; simpl; [apply keeps_ret|].
  apply keeps_bindE; auto.
Qed.

Lemma keeps_wp {A} (m : St S A) s : keeps R m → wp m (λ _ s', R s s') s.
Proof. intros H. apply H. Qed.
End keeps.

(** [returns P m]: whatever the state, the value of [m] is in [P]. *)
Definition returns {S A} (P : A → Prop) (m : St S A) : Prop := ∀ s, P (m s).1.

Lemma returns_ret {S A} (P : A → Prop) (a : A) : P a → returns P (mret a : St S A).
Proof. intros H s. exact H. Qed.

Lemma returns_bind {S A B} (P : B → Prop) (m : St S A) (k : A → St S B) :
  (∀ a, returns P (k a)) → returns P (m ≫= k).
Proof. intros H s. apply H. Qed.

Definition on_ok {A} (P : A → Prop) (r : res A) : Prop := match r with Ok a => P a | Err _ => True end.

Lemma returns_bindE {S A B} (P : B → Prop) (m : St S (res A)) (k : A → St S (res B)) :
  (∀ a, returns (on_ok P) (k a)) → returns (on_ok P) (bindE m k).
Proof. intros H. apply returns_bind. intros [a|e]; [apply H|by apply returns_ret]. Qed.

Lemma keeps_bindE_returns {S A B} (R : relation S) `{!PreOrder R} (P : A → Prop)
    (m : St S (res A)) (k : A → St S (res B)) :
  keeps R m → returns (on_ok P) m → (∀ a, P a → keeps R (k a)) → keeps R (bindE m k).
Proof.
  intros Hm Hr Hk s. unfold bindE, mbind, St_bind. specialize (Hr s). specialize (Hm s).
  destruct (m s) as [[a|e] s'] eqn:Em; simpl in *; [|done]. etrans; [done|]. by apply Hk.
Qed.

Lemma keeps_forE_Forall {S A} (R : relation S) `{!PreOrder R} (P : A → Prop) (xs : list A) body :
  Forall P xs → (∀ x, P x → keeps R (body x)) → keeps R (forE (S:=S) xs body).
Proof.
  intros HP Hb. induction HP as [|x xs Hx _ IH]; simpl; [apply keeps_ret; apply _|].
  apply keeps_bindE; auto.
Qed.

(** Frame goals are closed by walking through the program; the hint database
    [frame] holds what is known of the operations that are called. *)
Create HintDb frame.

Ltac keep_step :=
  match goal with
  | |- keeps _ (mret _) => apply keeps_ret; tc_solve
  | |- keeps _ (mbind _ _) => apply keeps_bind; [tc_solve| |intros ?]
  | |- keeps _ (bindE _ _) => apply keeps_bindE; [tc_solve| |intros ?]
  | |- keeps _ (wrapE _ _) => apply keeps_wrapE; [tc_solve|]
  | |- keeps _ (getsS _) => apply keeps_getsS; tc_solve
  | |- keeps _ getS => apply keeps_getS; tc_solve
  | |- keeps _ (forS _ _) => apply keeps_forS; [tc_solve|intros ?]
  | |- keeps _ (forE _ _) => apply keeps_forE; [tc_solve|intros ?]
  | |- keeps _ (let _ := _ in _) => cbv zeta
  | |- keeps _ (match ?x with _ => _ end) => destruct x eqn:?
  | |- keeps _ (if ?x then _ else _) => destruct x eqn:?
  end.

Ltac keep_auto := repeat (first [solve [auto with frame nocore] | keep_step]).

(** The relation "a view of the state is unchanged" is a preorder. *)
Definition same {S V} (f : S → V) : relation S := λ s s', f s' = f s.

#[export] Instance same_preorder {S V} (f : S → V) : PreOrder (same f).
Proof. split; [done|]. intros x y z H1 H2. unfold same in *. congruence. Qed.

(** ** List and option lemmas the components share *)

Lemma find_None_forall {A} (f : A → bool) (l : list A) :
  List.find f l = None ↔ Forall (λ x, f x = false) l.
Proof.
  induction l as [|x l IH]; simpl; [split; auto|].
  rewrite Forall_cons, <-IH. destruct (f x); naive_solver.
Qed.

Lemma existsb_elem {A} (f : A → bool) (l : list A) :
  existsb f l = true ↔ ∃ x, x ∈ l ∧ f x = true.
Proof.
  rewrite existsb_exists. split; intros (x & Hx & Hf); exists x;
    split; auto; by apply list_elem_of_In.
Qed.

(** Sorting by a boolean comparison.  The sort is stable: elements that compare
    equal keep their order. *)
Fixpoint insert_by {A} (le : A → A → bool) (x : A) (l : list A) : list A :=
  match l with
  | [] => [x]
  | y :: l' => if le x y then x :: l else y :: insert_by le x l'
  end.
Definition sort_by {A} (le : A → A → bool) (l : list A) : list A := foldr (insert_by le) [] l.

Lemma insert_by_perm {A} (le : A → A → bool) x l : insert_by le x l ≡ₚ x :: l.
Proof.
  induction l as [|y l IH]; simpl; [done|]. destruct (le x y); [done|]. rewrite IH. constructor.
Qed.

Lemma sort_by_perm {A} (le : A → A → bool) l : sort_by le l ≡ₚ l.
Proof. induction l as [|x l IH]; simpl; [done|]. by rewrite insert_by_perm, IH. Qed.

(** A list that is sorted already is left as it is. *)
Lemma sort_by_sorted {A} (le : A → A → bool) l : StronglySorted (λ x y, le x y = true) l → sort_by le l = l.
Proof.
  induction 1 as [|x l _ IH Hx]; simpl; [done|]. rewrite IH.
  destruct l as [|y l]; simpl; [done|]. apply Forall_cons in Hx as [-> _]. done.
Qed.

Lemma foldl_ext {A B} (f g : A → B → A) (a : A) (l : list B) :
  (∀ a b, f a b = g a b) → foldl f a l = foldl g a l.
Proof. intros H. revert a. induction l as [|b l IH]; intros a; simpl; [done|]. by rewrite H, IH. Qed.
