(* ===== verification/Traces.v ===== *)
(** * Reasoning about traces

    A component that calls the outside keeps the list of its calls in its state; the
    answers are functions of that list.  [adds tr P m]: the computation [m] only
    appends calls, and [P] relates its value to them. *)

From S2P Require Import Prelude.

Section traces.
Context {S C : Type} (tr : S → list C).

Definition adds {A} (P : A → list C → Prop) (m : St S A) : Prop :=
  ∀ s, ∃ cs, tr (m s).2 = tr s ++ cs ∧ P (m s).1 cs.

Lemma adds_ret {A} (P : A → list C → Prop) a : P a [] → adds P (mret a).
Proof. intros H s. exists []. by rewrite app_nil_r. Qed.
Lemma adds_bind {A B} (P : A → list C → Prop) (Q : B → list C → Prop) (m : St S A) (k : A → St S B) :
  adds P m → (∀ a, adds (λ b cs, ∀ cs0, P a cs0 → Q b (cs0 ++ cs)) (k a)) → adds Q (m ≫= k).
Proof.
  intros Hm Hk s. destruct (Hm s) as (cs0 & H0 & HP). destruct (Hk (m s).1 (m s).2) as (cs & H1 & HQ).
  exists (cs0 ++ cs). unfold mbind, St_bind. split; [by rewrite H1, H0, app_assoc|auto].
Qed.
Lemma adds_mono {A} (P Q : A → list C → Prop) (m : St S A) : adds P m → (∀ a cs, P a cs → Q a cs) → adds Q m.
Proof. intros H HPQ s. destruct (H s) as (cs & ? & ?). eauto. Qed.
Lemma adds_quiet {A} (m : St S A) : (∀ s, tr (m s).2 = tr s) → adds (λ _ cs, cs = []) m.
Proof. intros H s. exists []. by rewrite H, app_nil_r. Qed.
(** A step without calls in front. *)
Lemma adds_skip {A B} (Q : B → list C → Prop) (m : St S A) (k : A → St S B) :
  (∀ s, tr (m s).2 = tr s) → (∀ a, adds Q (k a)) → adds Q (m ≫= k).
Proof. intros Hm Hk. eapply adds_bind; [by apply adds_quiet|]. intros a. eapply adds_mono; [apply Hk|]. by intros b cs H cs0 ->. Qed.
(** A property of every call. *)
Lemma adds_Forall_bind {A B} (P : C → Prop) (m : St S A) (k : A → St S B) :
  adds (λ _, Forall P) m → (∀ a, adds (λ _, Forall P) (k a)) → adds (λ _, Forall P) (m ≫= k).
Proof. intros Hm Hk. eapply adds_bind; [exact Hm|]. intros a. eapply adds_mono; [apply Hk|]. intros b cs H cs0 H0. by apply Forall_app. Qed.
Lemma adds_and {A} (P Q : A → list C → Prop) (m : St S A) : adds P m → adds Q m → adds (λ a cs, P a cs ∧ Q a cs) m.
Proof.
  intros HP HQ w. destruct (HP w) as (cs & H1 & ?), (HQ w) as (cs' & H2 & ?). exists cs. rewrite H1 in H2.
  apply app_inv_head in H2 as <-. auto.
Qed.
Lemma adds_returns {A} (P : A → Prop) (Q : A → list C → Prop) (m : St S A) :
  returns P m → adds Q m → adds (λ a cs, P a ∧ Q a cs) m.
Proof. intros HP HQ w. destruct (HQ w) as (cs & ? & ?). exists cs. split; [done|]. split; [apply HP|done]. Qed.
End traces.

#[global] Arguments adds_ret {S C tr A} P a.
#[global] Arguments adds_bind {S C tr A B} P Q m k.
#[global] Arguments adds_mono {S C tr A} P Q m.
#[global] Arguments adds_quiet {S C tr A} m.
#[global] Arguments adds_skip {S C tr A B} Q m k.
#[global] Arguments adds_Forall_bind {S C tr A B} P m k.
#[global] Arguments adds_and {S C tr A} P Q m.
#[global] Arguments adds_returns {S C tr A} P Q m.
