(* ===== verification/GoLib.v ===== *)
(** * The Go string, number and sorting functions the sources use

    Go strings are byte strings; they are modelled by [string], one [ascii]
    per byte.  [strings.TrimSpace] trims every Unicode space in its UTF-8
    form; [strings.ToLower] is modelled on its ASCII range (the sources apply
    it to state names and agent names).  [%d] and [strconv.Atoi] are decimal
    with an optional sign and the 64-bit range check. *)

From S2P Require Import Prelude.
From Stdlib Require Import Ascii DecimalString DecimalZ Decimal.
From Stdlib Require String.

(** ** Prefixes, suffixes, search *)

Fixpoint HasPrefix (s p : string) : bool :=
  match p, s with
  | EmptyString, _ => true
  | String c p, String d s => Ascii.eqb c d && HasPrefix s p
  | _, EmptyString => false
  end.

Fixpoint drop_str (n : nat) (s : string) : string :=
  match n, s with
  | O, _ => s
  | S n, String _ s => drop_str n s
  | S _, EmptyString => EmptyString
  end.

Fixpoint take_str (n : nat) (s : string) : string :=
  match n, s with
  | S n, String c s => String c (take_str n s)
  | _, _ => EmptyString
  end.

Definition TrimPrefix (s p : string) : string :=
  if HasPrefix s p then drop_str (String.length p) s else s.

Fixpoint Contains (s sub : string) : bool :=
  HasPrefix s sub ||
  match s with EmptyString => false | String _ s => Contains s sub end.

Fixpoint rev_str (s acc : string) : string :=
  match s with EmptyString => acc | String c s => rev_str s (String c acc) end.

Fixpoint map_str (f : ascii → ascii) (s : string) : string :=
  match s with EmptyString => EmptyString | String c s => String (f c) (map_str f s) end.

Fixpoint all_str (f : ascii → bool) (s : string) : bool :=
  match s with EmptyString => true | String c s => f c && all_str f s end.

(** Index of the last occurrence of a byte, [-1] when there is none. *)
Fixpoint LastIndexByte (s : string) (c : ascii) : Z :=
  match s with
  | EmptyString => -1
  | String d s =>
      let i := LastIndexByte s c in
      if 0 <=? i then i + 1 else if Ascii.eqb d c then 0 else -1
  end.

Definition ToLower (s : string) : string :=
  map_str (λ c, let n := N_of_ascii c in
                if ((65 <=? n) && (n <=? 90))%N then ascii_of_N (n + 32) else c) s.

(** ** TrimSpace *)

Definition byte_in (c : ascii) (lo hi : N) : bool :=
  ((lo <=? N_of_ascii c) && (N_of_ascii c <=? hi))%N.
Definition byte_is (c : ascii) (n : N) : bool := (N_of_ascii c =? n)%N.

(** One space rune at the front of a byte string: its length, 0 for none. *)
Definition space_front (s : string) : nat :=
  match s with
  | String a r =>
      if byte_in a 9 13 || byte_is a 32 then 1 else
      match r with
      | String b r2 =>
          if byte_is a 194 && (byte_is b 133 || byte_is b 160) then 2 else
          match r2 with
          | String c _ =>
              if (byte_is a 225 && byte_is b 154 && byte_is c 128)
                 || (byte_is a 226 && byte_is b 128 &&
                     (byte_in c 128 138 || byte_is c 168 || byte_is c 169 || byte_is c 175))
                 || (byte_is a 226 && byte_is b 129 && byte_is c 159)
                 || (byte_is a 227 && byte_is b 128 && byte_is c 128)
              then 3 else 0
          | _ => 0
          end
      | _ => 0
      end
  | _ => 0
  end%nat.

(** The same at the back, on the reversed byte string. *)
Definition space_back (s : string) : nat :=
  match s with
  | String a r =>
      if byte_in a 9 13 || byte_is a 32 then 1 else
      match r with
      | String b r2 =>
          if space_front (String b (String a EmptyString)) =? 2 then 2 else
          match r2 with
          | String c _ =>
              if space_front (String c (String b (String a EmptyString))) =? 3 then 3 else 0
          | _ => 0
          end
      | _ => 0
      end
  | _ => 0
  end%nat.

Fixpoint trim_front (fuel : nat) (front : string → nat) (s : string) : string :=
  match fuel with
  | O => s
  | S fuel => match front s with
              | O => s
              | n => trim_front fuel front (drop_str n s)
              end
  end.

Definition TrimSpace (s : string) : string :=
  let l := trim_front (String.length s) space_front s in
  let r := rev_str l EmptyString in
  rev_str (trim_front (String.length r) space_back r) EmptyString.

Definition is_blank (s : string) : bool := bool_decide (TrimSpace s = EmptyString).

(** ** Decimal numbers *)

Definition itoa (z : Z) : string := NilZero.string_of_int (Z.to_int z).

Definition int64_ok (z : Z) : bool := (- 2 ^ 63 <=? z) && (z <? 2 ^ 63).

(** [strconv.Atoi]. *)
Definition atoi (s : string) : option Z :=
  let parse s := NilZero.uint_of_string s in
  let z := match s with
           | String "+" r => Z.of_uint <$> parse r
           | String "-" r => (λ u, - Z.of_uint u) <$> parse r
           | _ => Z.of_uint <$> parse s
           end in
  match z with
  | Some z => if int64_ok z then Some z else None
  | None => None
  end.

Definition is_digit (c : ascii) : bool := byte_in c 48 57.

(** ** Sorting *)

Definition str_le (a b : string) : Prop := String.leb a b = true.
#[export] Instance str_le_dec a b : Decision (str_le a b).
Proof. unfold str_le. apply _. Defined.

(** [sort.Strings]: bytewise order. *)
Definition sort_strings (l : list string) : list string := merge_sort str_le l.

Fixpoint join_str (sep : string) (l : list string) : string :=
  match l with
  | [] => EmptyString
  | [x] => x
  | x :: l => x +:+ sep +:+ join_str sep l
  end.

Example trim_ex : TrimSpace " 	 a b  " = "a b".
Proof. reflexivity. Qed.
Example atoi_ex : (atoi "042", atoi "-7", atoi "x", itoa (-12)) = (Some 42, Some (-7), None, "-12").
Proof. reflexivity. Qed.

(** ** Lemmas *)

Lemma app_str_nil s : s +:+ EmptyString = s.
Proof. induction s as [|c s IH]; [done|]. unfold String.app in *. simpl. by rewrite IH. Qed.

Lemma app_str_cons c s t : String c s +:+ t = String c (s +:+ t).
Proof. done. Qed.

Lemma length_app_str s t : String.length (s +:+ t) = (String.length s + String.length t)%nat.
Proof. induction s as [|c s IH]; [done|]. rewrite app_str_cons. simpl. by rewrite IH. Qed.

Lemma take_app_str s t : take_str (String.length s) (s +:+ t) = s.
Proof. induction s as [|c s IH]; [by destruct t|]. rewrite app_str_cons. simpl. by rewrite IH. Qed.

Lemma drop_app_str s t : drop_str (String.length s) (s +:+ t) = t.
Proof. induction s as [|c s IH]; [done|]. rewrite app_str_cons. simpl. by rewrite IH. Qed.

Lemma app_str_inj_l s t1 t2 : s +:+ t1 = s +:+ t2 → t1 = t2.
Proof. intros H. rewrite <-(drop_app_str s t1), <-(drop_app_str s t2). by rewrite H. Qed.

Lemma all_str_app f s t : all_str f (s +:+ t) = all_str f s && all_str f t.
Proof.
  induction s as [|c s IH]; [done|]. rewrite app_str_cons. simpl.
  rewrite IH. by rewrite andb_assoc.
Qed.

Lemma all_str_mono (f g : ascii → bool) s :
  (∀ c, f c = true → g c = true) → all_str f s = true → all_str g s = true.
Proof.
  intros Hfg. induction s as [|c s IH]; [done|]. simpl.
  intros [? ?]%andb_prop. apply andb_true_intro. auto.
Qed.

Lemma HasPrefix_app p t : HasPrefix (p +:+ t) p = true.
Proof.
  induction p as [|c p IH]; [by destruct t|]. rewrite app_str_cons. simpl.
  by rewrite Ascii.eqb_refl.
Qed.

Lemma TrimPrefix_app p t : TrimPrefix (p +:+ t) p = t.
Proof. unfold TrimPrefix. by rewrite HasPrefix_app, drop_app_str. Qed.

Lemma HasPrefix_inv s p : HasPrefix s p = true → ∃ t, s = p +:+ t.
Proof.
  revert s. induction p as [|c p IH]; intros s; simpl; [by exists s|].
  destruct s as [|d s]; [done|]. intros [E H]%andb_prop.
  apply Ascii.eqb_eq in E as ->. apply IH in H as [t ->]. by exists t.
Qed.

(** A byte that does not occur has no last index. *)
Lemma LastIndexByte_none s c :
  all_str (λ d, negb (Ascii.eqb d c)) s = true → LastIndexByte s c = -1.
Proof.
  induction s as [|d s IH]; [done|]. simpl.
  intros [Hd Hs]%andb_prop. rewrite (IH Hs). simpl. by destruct (Ascii.eqb d c).
Qed.

Lemma LastIndexByte_app s c t :
  all_str (λ d, negb (Ascii.eqb d c)) t = true →
  LastIndexByte (s +:+ String c t) c = Z.of_nat (String.length s).
Proof.
  intros Ht. induction s as [|d s IH].
  - change (EmptyString +:+ String c t) with (String c t). simpl.
    rewrite (LastIndexByte_none _ _ Ht). by rewrite Ascii.eqb_refl.
  - rewrite app_str_cons. cbn [LastIndexByte String.length]. rewrite IH.
    destruct (Z.leb_spec 0 (Z.of_nat (String.length s))); lia.
Qed.

Lemma string_of_uint_digits u : all_str is_digit (NilEmpty.string_of_uint u) = true.
Proof. induction u; simpl; auto. Qed.

Lemma itoa_bytes z : all_str (λ c, is_digit c || byte_is c 45) (itoa z) = true.
Proof.
  assert (∀ u, all_str (λ c, is_digit c || byte_is c 45) (NilZero.string_of_uint u) = true) as H.
  { intros u. destruct u; try done;
      apply (all_str_mono is_digit); try (by intros c ->);
      apply (string_of_uint_digits (_ _)). }
  unfold itoa. destruct (Z.to_int z) as [u|u]; simpl; apply H.
Qed.

Lemma itoa_no_hash z : all_str (λ d, negb (Ascii.eqb d "#")) (itoa z) = true.
Proof.
  eapply all_str_mono; [|apply itoa_bytes]. intros c.
  by destruct c as [[][][][][][][][]].
Qed.

Lemma to_int_not_nil z : Z.to_int z ≠ Pos Nil ∧ Z.to_int z ≠ Neg Nil.
Proof.
  destruct z as [|p|p]; simpl; (split; [|try done]); try done;
    intros H; injection H as H;
    pose proof (DecimalPos.Unsigned.to_uint_nonnil p); congruence.
Qed.

Lemma int_of_itoa z : NilZero.int_of_string (itoa z) = Some (Z.to_int z).
Proof. apply NilZero.isi; apply to_int_not_nil. Qed.

#[export] Instance itoa_inj : Inj (=) (=) itoa.
Proof.
  intros x y H. apply (f_equal NilZero.int_of_string) in H. rewrite !int_of_itoa in H.
  injection H as H. apply (f_equal Z.of_int) in H. by rewrite !DecimalZ.of_to in H.
Qed.

Lemma sort_strings_perm l : sort_strings l ≡ₚ l.
Proof. apply merge_sort_Permutation. Qed.

Lemma atoi_unsigned u :
  u ≠ Nil → int64_ok (Z.of_uint u) = true →
  atoi (NilZero.string_of_uint u) = Some (Z.of_uint u).
Proof.
  intros Hu Hok. pose proof (NilZero.usu u Hu) as Hp. unfold atoi.
  destruct u; try done; simpl in *; rewrite Hp; simpl; by rewrite Hok.
Qed.

Lemma atoi_itoa z : int64_ok z = true → atoi (itoa z) = Some z.
Proof.
  intros Hok. pose proof (DecimalZ.of_to z) as Hz. unfold itoa.
  destruct (to_int_not_nil z) as [H1 H2].
  destruct (Z.to_int z) as [u|u] eqn:E; simpl in Hz |- *.
  - rewrite <-Hz in Hok |- *. apply atoi_unsigned; congruence.
  - unfold atoi. change (String "-" (NilZero.string_of_uint u)) with
      (String "-" (NilZero.string_of_uint u)).
    rewrite NilZero.usu by congruence. simpl.
    replace (- Z.of_uint u) with z by (rewrite <-Hz; done). by rewrite Hok.
Qed.

Lemma leb_trans a b c :
  String.leb a b = true → String.leb b c = true → String.leb a c = true.
Proof.
  intros H1 H2. apply Is_true_true. assert (String.le a c) as H; [|exact H].
  trans b; by apply Is_true_true.
Qed.
