(* ===== verification/Json.v ===== *)
(** * JSON arrays of strings

    What the sources use of [encoding/json]: [json.Marshal] of a [[]string]
    and [json.Unmarshal] into one (issue labels, worker roles, worker repos).
    The encoder escapes as Go does (HTML-safe, U+2028/2029, invalid UTF-8 as
    U+FFFD); the decoder accepts what Go accepts for that type and returns
    [None] where [json.Unmarshal] returns an error, whatever its kind. *)

From S2P Require Import Prelude GoLib.
From Stdlib Require Import Ascii.
From Stdlib Require String.

Definition dquote : ascii := "034".
Definition bslash : ascii := "092".
Definition chr (n : N) : ascii := ascii_of_N n.
Definition str1 (c : ascii) : string := String c EmptyString.

(** ** UTF-8 *)

Definition utf8_cont (c : ascii) : bool := byte_in c 128 191.
Definition utf8_2 (a b : ascii) : bool := byte_in a 194 223 && utf8_cont b.
Definition utf8_3 (a b c : ascii) : bool :=
  utf8_cont c &&
  (if byte_is a 224 then byte_in b 160 191
   else if byte_is a 237 then byte_in b 128 159
   else byte_in a 225 239 && utf8_cont b).
Definition utf8_4 (a b c d : ascii) : bool :=
  utf8_cont c && utf8_cont d &&
  (if byte_is a 240 then byte_in b 144 191
   else if byte_is a 244 then byte_in b 128 143
   else byte_in a 241 243 && utf8_cont b).

(** The length of the UTF-8 sequence at the front of a string that starts with
    a byte above 127; [O] when the sequence is invalid. *)
Definition utf8_len (s : string) : nat :=
  match s with
  | String a (String b r) =>
      if utf8_2 a b then 2 else
      match r with
      | String c r =>
          if utf8_3 a b c then 3 else
          match r with String d _ => if utf8_4 a b c d then 4 else 0 | _ => 0 end
      | _ => 0
      end
  | _ => 0
  end%nat.

Definition is_ascii (c : ascii) : bool := (N_of_ascii c <? 128)%N.

Fixpoint valid_utf8_n (fuel : nat) (s : string) : bool :=
  match fuel, s with
  | _, EmptyString => true
  | O, _ => false
  | S fuel, String a r =>
      if is_ascii a then valid_utf8_n fuel r
      else match utf8_len s with O => false | n => valid_utf8_n fuel (drop_str n s) end
  end.
Definition valid_utf8 (s : string) : bool := valid_utf8_n (String.length s) s.

(** The UTF-8 bytes of a code point. *)
Definition utf8_encode (r : N) : string :=
  (if r <? 128 then str1 (chr r)
   else if r <? 2048 then String (chr (192 + r / 64)) (str1 (chr (128 + r mod 64)))
   else if r <? 65536 then
     String (chr (224 + r / 4096)) (String (chr (128 + (r / 64) mod 64)) (str1 (chr (128 + r mod 64))))
   else
     String (chr (240 + r / 262144)) (String (chr (128 + (r / 4096) mod 64))
       (String (chr (128 + (r / 64) mod 64)) (str1 (chr (128 + r mod 64))))))%N.

(** ** Encoding *)

Definition hex_digit (n : N) : ascii :=
  (if n <? 10 then chr (48 + n) else chr (87 + n))%N.

Definition esc_u00 (c : ascii) : string :=
  String bslash (String "u" (String "0" (String "0"
    (String (hex_digit (N_of_ascii c / 16)) (str1 (hex_digit (N_of_ascii c mod 16))))))).

Definition esc1 (c : ascii) : string := String bslash (str1 c).

Definition enc_ascii (c : ascii) : string :=
  let n := N_of_ascii c in
  (if n =? 34 then esc1 dquote
   else if n =? 92 then esc1 bslash
   else if n =? 8 then esc1 "b"
   else if n =? 12 then esc1 "f"
   else if n =? 10 then esc1 "n"
   else if n =? 13 then esc1 "r"
   else if n =? 9 then esc1 "t"
   else if (n <? 32) || (n =? 60) || (n =? 62) || (n =? 38) then esc_u00 c
   else str1 c)%N.

Definition esc_fffd : string := String bslash "ufffd".

(** U+2028 and U+2029 are the bytes E2 80 A8 and E2 80 A9. *)
Definition enc_multi (s : string) : string :=
  if bool_decide (s = String (chr 226) (String (chr 128) (str1 (chr 168)))) then String bslash "u2028"
  else if bool_decide (s = String (chr 226) (String (chr 128) (str1 (chr 169)))) then String bslash "u2029"
  else s.

Fixpoint enc_chars (fuel : nat) (s : string) : string :=
  match fuel, s with
  | _, EmptyString => EmptyString
  | O, _ => EmptyString
  | S fuel, String a r =>
      if is_ascii a then enc_ascii a +:+ enc_chars fuel r
      else match utf8_len s with
           | O => esc_fffd +:+ enc_chars fuel r
           | n => enc_multi (take_str n s) +:+ enc_chars fuel (drop_str n s)
           end
  end.

Definition enc_string (s : string) : string :=
  String dquote (enc_chars (String.length s) s +:+ str1 dquote).

(** [json.Marshal] of a non-nil and of a nil slice ([None]). *)
Definition marshal_list (l : list string) : string :=
  str1 "[" +:+ join_str "," (enc_string <$> l) +:+ str1 "]".
Definition marshal_strings (l : option (list string)) : string :=
  match l with None => "null" | Some l => marshal_list l end.

(** ** Decoding *)

Definition is_ws (c : ascii) : bool :=
  byte_is c 32 || byte_is c 9 || byte_is c 10 || byte_is c 13.
Fixpoint skip_ws (s : string) : string :=
  match s with String c r => if is_ws c then skip_ws r else s | _ => s end.

Definition hex_val (c : ascii) : option N :=
  (if byte_in c 48 57 then Some (N_of_ascii c - 48)
   else if byte_in c 97 102 then Some (N_of_ascii c - 87)
   else if byte_in c 65 70 then Some (N_of_ascii c - 55)
   else None)%N.

(** Four hex digits and what follows. *)
Definition get_u4 (s : string) : option (N * string) :=
  match s with
  | String a (String b (String c (String d r))) =>
      x ← hex_val a; y ← hex_val b; z ← hex_val c; w ← hex_val d;
      Some (((x * 16 + y) * 16 + z) * 16 + w, r)%N
  | _ => None
  end.

(** After [\u]: the code point, a surrogate pair joined, a lone surrogate as
    U+FFFD. *)
Definition get_rune (s : string) : option (N * string) :=
  '(u, r) ← get_u4 s;
  if ((55296 <=? u) && (u <? 57344))%N then
    match r with
    | String p (String q r2) =>
        if byte_is p 92 && byte_is q 117 then
          match get_u4 r2 with
          | Some (v, r3) =>
              if ((u <? 56320) && (56320 <=? v) && (v <? 57344))%N
              then Some (65536 + (u - 55296) * 1024 + (v - 56320), r3)%N
              else Some (65533%N, r)
          | None => None
          end
        else Some (65533%N, r)
    | _ => Some (65533%N, r)
    end
  else Some (u, r).

Definition unesc (c : ascii) : option ascii :=
  (let n := N_of_ascii c in
   if (n =? 34) || (n =? 92) || (n =? 47) then Some c
   else if n =? 98 then Some (chr 8)
   else if n =? 102 then Some (chr 12)
   else if n =? 110 then Some (chr 10)
   else if n =? 114 then Some (chr 13)
   else if n =? 116 then Some (chr 9)
   else None)%N.

(** The body of a string literal, up to and including its closing quote. *)
Fixpoint dec_chars (fuel : nat) (s : string) : option (string * string) :=
  match fuel with
  | O => None
  | S fuel =>
      match s with
      | EmptyString => None
      | String a r =>
          if byte_is a 34 then Some (EmptyString, r)
          else if byte_is a 92 then
            match r with
            | EmptyString => None
            | String e r2 =>
                if byte_is e 117 then
                  '(u, r3) ← get_rune r2;
                  '(t, rest) ← dec_chars fuel r3;
                  Some (utf8_encode u +:+ t, rest)
                else
                  c ← unesc e;
                  '(t, rest) ← dec_chars fuel r2;
                  Some (String c t, rest)
            end
          else if (N_of_ascii a <? 32)%N then None
          else if is_ascii a then
            '(t, rest) ← dec_chars fuel r; Some (String a t, rest)
          else
            match utf8_len s with
            | O => '(t, rest) ← dec_chars fuel r; Some (utf8_encode 65533 +:+ t, rest)
            | n => '(t, rest) ← dec_chars fuel (drop_str n s);
                   Some (take_str n s +:+ t, rest)
            end
      end
  end.

(** One array element: a string, or [null], which leaves the zero value. *)
Definition dec_elem (s : string) : option (string * string) :=
  match s with
  | String c r =>
      if byte_is c 34 then dec_chars (S (String.length r)) r
      else if HasPrefix s "null" then Some (EmptyString, drop_str 4 s)
      else None
  | _ => None
  end.

(** Elements after the opening bracket, up to the closing one. *)
Fixpoint dec_elems (fuel : nat) (s : string) : option (list string * string) :=
  match fuel with
  | O => None
  | S fuel =>
      '(x, r) ← dec_elem (skip_ws s);
      match skip_ws r with
      | String c r2 =>
          if byte_is c 44 then '(xs, rest) ← dec_elems fuel r2; Some (x :: xs, rest)
          else if byte_is c 93 then Some ([x], r2)
          else None
      | _ => None
      end
  end.

Definition dec_array (s : string) : option (list string * string) :=
  match skip_ws s with
  | String c r => if byte_is c 93 then Some ([], r)
                  else dec_elems (S (String.length s)) s
  | _ => None
  end.

(** [json.Unmarshal(data, &labels)]: [None] is an error, [Some None] the nil
    slice that [null] gives. *)
Definition unmarshal_strings (s : string) : option (option (list string)) :=
  let s := skip_ws s in
  match s with
  | String c r =>
      if byte_is c 91 then
        '(xs, rest) ← dec_array r;
        if bool_decide (skip_ws rest = EmptyString) then Some (Some xs) else None
      else if HasPrefix s "null" && bool_decide (skip_ws (drop_str 4 s) = EmptyString)
      then Some None else None
  | _ => None
  end.

Example json_ex1 :
  unmarshal_strings (marshal_list ["status:done"; "a<b"; String (chr 10) "x"]) =
  Some (Some ["status:done"; "a<b"; String (chr 10) "x"]).
Proof. reflexivity. Qed.
Example json_ex2 : unmarshal_strings " [ null ,1]" = None.
Proof. reflexivity. Qed.

(** ** Round trip *)

Lemma app_str_assoc s t u : (s +:+ t) +:+ u = s +:+ (t +:+ u).
Proof. induction s as [|c s IH]; [done|]. rewrite !app_str_cons. by rewrite IH. Qed.

Lemma dec_enc_ascii a f t :
  is_ascii a = true →
  dec_chars (S f) (enc_ascii a +:+ t) = '(x, rest) ← dec_chars f t; Some (String a x, rest).
Proof. destruct a as [[][][][][][][][]]; intros H; try discriminate H; reflexivity. Qed.

Lemma utf8_lead_high a :
  is_ascii a = false →
  byte_is a 34 = false ∧ byte_is a 92 = false ∧ (N_of_ascii a <? 32)%N = false.
Proof.
  unfold byte_is, is_ascii. intros H%N.ltb_ge. rewrite !N.eqb_neq, !N.ltb_ge. repeat split; lia.
Qed.

(** The decoder copies a valid multi-byte sequence. *)
Lemma dec_copy_multi a r f t :
  is_ascii a = false → (utf8_len (String a r) ≠ 0)%nat →
  let n := utf8_len (String a r) in
  dec_chars (S f) (take_str n (String a r) +:+ t) =
  '(x, rest) ← dec_chars f t; Some (take_str n (String a r) +:+ x, rest).
Proof.
  intros Ha Hn. destruct (utf8_lead_high a Ha) as (H1 & H2 & H3).
  destruct r as [|b r]; [done|]. cbn [utf8_len] in *.
  destruct (utf8_2 a b) eqn:E2.
  { cbv zeta. change (take_str 2 (String a (String b r)) +:+ t) with (String a (String b t)).
    cbn [dec_chars utf8_len]. by rewrite H1, H2, H3, Ha, E2. }
  destruct r as [|c r]; [done|]. destruct (utf8_3 a b c) eqn:E3.
  { cbv zeta. change (take_str 3 (String a (String b (String c r))) +:+ t)
      with (String a (String b (String c t))).
    cbn [dec_chars utf8_len]. by rewrite H1, H2, H3, Ha, E2, E3. }
  destruct r as [|d r]; [done|]. destruct (utf8_4 a b c d) eqn:E4; [|done].
  cbv zeta. change (take_str 4 (String a (String b (String c (String d r)))) +:+ t)
    with (String a (String b (String c (String d t)))).
  cbn [dec_chars utf8_len]. by rewrite H1, H2, H3, Ha, E2, E3, E4.
Qed.

Lemma dec_enc_multi a r f t :
  is_ascii a = false → (utf8_len (String a r) ≠ 0)%nat →
  let n := utf8_len (String a r) in
  dec_chars (S f) (enc_multi (take_str n (String a r)) +:+ t) =
  '(x, rest) ← dec_chars f t; Some (take_str n (String a r) +:+ x, rest).
Proof.
  intros Ha Hn n. unfold enc_multi. case_bool_decide as E1; [by rewrite E1|].
  case_bool_decide as E2; [by rewrite E2|]. by apply dec_copy_multi.
Qed.

Lemma take_drop_str n s : take_str n s +:+ drop_str n s = s.
Proof.
  revert s. induction n as [|n IH]; intros [|c s]; try done. simpl.
  rewrite app_str_cons. by rewrite IH.
Qed.

Lemma valid_utf8_n_multi n a r :
  is_ascii a = false → valid_utf8_n (S n) (String a r) = true →
  (utf8_len (String a r) ≠ 0)%nat ∧
  valid_utf8_n n (drop_str (utf8_len (String a r)) (String a r)) = true.
Proof. cbn [valid_utf8_n]. intros ->. by destruct (utf8_len (String a r)). Qed.

Lemma enc_chars_multi n a r :
  is_ascii a = false → (utf8_len (String a r) ≠ 0)%nat →
  enc_chars (S n) (String a r) =
  enc_multi (take_str (utf8_len (String a r)) (String a r)) +:+
  enc_chars n (drop_str (utf8_len (String a r)) (String a r)).
Proof. cbn [enc_chars]. intros ->. by destruct (utf8_len (String a r)). Qed.

Lemma dec_enc_chars n s k rest :
  valid_utf8_n n s = true → (n < k)%nat →
  dec_chars k (enc_chars n s +:+ String dquote rest) = Some (s, rest).
Proof.
  revert s k. induction n as [|n IH]; intros s k Hv Hk; (destruct k as [|k]; [lia|]).
  { destruct s; [done|]. done. }
  destruct s as [|a r]; [done|]. destruct (is_ascii a) eqn:Ha.
  - cbn [enc_chars valid_utf8_n] in *. rewrite Ha in *.
    rewrite app_str_assoc, dec_enc_ascii by done. by rewrite (IH r k) by (done || lia).
  - destruct (valid_utf8_n_multi _ _ _ Ha Hv) as [Hn Hv'].
    rewrite enc_chars_multi by done. rewrite app_str_assoc, dec_enc_multi by done.
    rewrite IH by (done || lia). cbn [mbind option_bind]. by rewrite take_drop_str.
Qed.

Lemma length_enc_ascii a : (1 ≤ String.length (enc_ascii a))%nat.
Proof. destruct a as [[][][][][][][][]]; vm_compute; lia. Qed.

Lemma length_drop_str n s : String.length (drop_str n s) = (String.length s - n)%nat.
Proof. revert s. induction n; intros [|c s]; simpl; auto. Qed.

Lemma length_enc_multi s : (String.length s ≤ String.length (enc_multi s))%nat.
Proof.
  unfold enc_multi. repeat (case_bool_decide; [subst; vm_compute; lia|]). lia.
Qed.

Lemma length_enc_chars n s :
  valid_utf8_n n s = true → (String.length s ≤ String.length (enc_chars n s))%nat.
Proof.
  revert s. induction n as [|n IH]; intros [|a r] Hv; try done; try (simpl; lia).
  destruct (is_ascii a) eqn:Ha.
  - cbn [enc_chars valid_utf8_n] in *. rewrite Ha in *. rewrite length_app_str.
    pose proof (length_enc_ascii a). specialize (IH r Hv). cbn [String.length]. lia.
  - destruct (valid_utf8_n_multi _ _ _ Ha Hv) as [Hn Hv'].
    rewrite enc_chars_multi by done. rewrite length_app_str.
    pose proof (length_enc_multi (take_str (utf8_len (String a r)) (String a r))).
    specialize (IH _ Hv'). set (w := String a r) in *. set (m := utf8_len w) in *.
    pose proof (f_equal String.length (take_drop_str m w)) as HL.
    rewrite length_app_str in HL. lia.
Qed.

Lemma dec_elem_enc s rest :
  valid_utf8 s = true → dec_elem (enc_string s +:+ rest) = Some (s, rest).
Proof.
  intros Hv. unfold enc_string, dec_elem. rewrite app_str_cons, app_str_assoc.
  change (byte_is dquote 34) with true. cbv iota. apply dec_enc_chars; [done|].
  rewrite length_app_str. pose proof (length_enc_chars _ _ Hv). lia.
Qed.

Lemma skip_ws_enc s rest : skip_ws (enc_string s +:+ rest) = enc_string s +:+ rest.
Proof. done. Qed.

Lemma dec_elems_enc l k rest :
  l ≠ [] → Forall (λ s, valid_utf8 s = true) l → (length l ≤ k)%nat →
  dec_elems k (join_str "," (enc_string <$> l) +:+ str1 "]" +:+ rest) = Some (l, rest).
Proof.
  revert k. induction l as [|x l IH]; intros k Hne Hf Hk; [done|].
  destruct k as [|k]; [simpl in Hk; lia|]. apply Forall_cons in Hf as [Hx Hf].
  destruct l as [|y l].
  - cbn [join_str fmap list_fmap dec_elems]. rewrite skip_ws_enc, dec_elem_enc by done. done.
  - specialize (IH k ltac:(done) Hf ltac:(simpl in *; lia)).
    change (join_str "," (enc_string <$> x :: y :: l)) with
      (enc_string x +:+ str1 "," +:+ join_str "," (enc_string <$> y :: l)).
    rewrite !app_str_assoc. cbn [dec_elems]. rewrite skip_ws_enc, dec_elem_enc by done.
    cbn [mbind option_bind]. change (str1 "," +:+ ?z) with (String "," z).
    cbn [skip_ws]. change (is_ws ",") with false. cbv iota.
    change (byte_is "," 44) with true. cbv iota. by rewrite IH.
Qed.

(** [json.Unmarshal] of what [json.Marshal] wrote gives the labels back, for
    labels that are valid UTF-8. *)
Lemma unmarshal_marshal l :
  Forall (λ s, valid_utf8 s = true) l → unmarshal_strings (marshal_list l) = Some (Some l).
Proof.
  intros Hf. destruct l as [|x l]; [done|]. unfold unmarshal_strings, marshal_list.
  change (str1 "[" +:+ ?z) with (String "[" z). cbn [skip_ws].
  change (is_ws "[") with false. cbv iota. change (byte_is "[" 91) with true. cbv iota.
  set (body := join_str "," (enc_string <$> x :: l)).
  assert (dec_array (body +:+ str1 "]") = Some (x :: l, EmptyString)) as ->; [|done].
  unfold dec_array.
  assert (∃ r, body = String dquote r) as [r Hr].
  { unfold body. destruct l; cbn; eauto. }
  rewrite Hr, app_str_cons. cbn [skip_ws]. change (is_ws dquote) with false. cbv iota.
  change (byte_is dquote 93) with false. cbv iota. rewrite <-app_str_cons, <-Hr.
  rewrite <-(app_str_nil (str1 "]")) at 2. apply dec_elems_enc; [done|done|].
  assert (∀ l', length l' ≤ String.length (join_str "," (enc_string <$> l')))%nat as Hlen.
  { induction l' as [|a [|b l'] IHl]; [done|simpl; lia|].
    change (join_str "," (enc_string <$> a :: b :: l')) with
      (enc_string a +:+ str1 "," +:+ join_str "," (enc_string <$> b :: l')).
    rewrite !length_app_str. simpl in *. lia. }
  specialize (Hlen (x :: l)). fold body in Hlen. rewrite length_app_str. lia.
Qed.
