(* ===== verification/Sha256.v ===== *)
(** * SHA-256

    [crypto/sha256] and [encoding/hex], which the fingerprints of pipeline
    hazards and dependency verdicts use.  Words are 32-bit integers in [Z]. *)

From S2P Require Import Prelude GoLib.
From Stdlib Require Import Ascii.
From Stdlib Require String.

Definition w32 (x : Z) : Z := Z.land x (Z.ones 32).
Definition add32 (x y : Z) : Z := w32 (x + y).
Definition rotr (n x : Z) : Z := w32 (Z.lor (Z.shiftr x n) (Z.shiftl x (32 - n))).
Definition not32 (x : Z) : Z := Z.lxor x (Z.ones 32).

Definition ch (x y z : Z) : Z := Z.lxor (Z.land x y) (Z.land (not32 x) z).
Definition maj (x y z : Z) : Z :=
  Z.lxor (Z.lxor (Z.land x y) (Z.land x z)) (Z.land y z).
Definition bsig0 (x : Z) : Z := Z.lxor (Z.lxor (rotr 2 x) (rotr 13 x)) (rotr 22 x).
Definition bsig1 (x : Z) : Z := Z.lxor (Z.lxor (rotr 6 x) (rotr 11 x)) (rotr 25 x).
Definition ssig0 (x : Z) : Z := Z.lxor (Z.lxor (rotr 7 x) (rotr 18 x)) (Z.shiftr x 3).
Definition ssig1 (x : Z) : Z := Z.lxor (Z.lxor (rotr 17 x) (rotr 19 x)) (Z.shiftr x 10).

Definition sha_k : list Z :=
  [1116352408; 1899447441; 3049323471; 3921009573; 961987163; 1508970993; 2453635748; 2870763221;
   3624381080; 310598401; 607225278; 1426881987; 1925078388; 2162078206; 2614888103; 3248222580;
   3835390401; 4022224774; 264347078; 604807628; 770255983; 1249150122; 1555081692; 1996064986;
   2554220882; 2821834349; 2952996808; 3210313671; 3336571891; 3584528711; 113926993; 338241895;
   666307205; 773529912; 1294757372; 1396182291; 1695183700; 1986661051; 2177026350; 2456956037;
   2730485921; 2820302411; 3259730800; 3345764771; 3516065817; 3600352804; 4094571909; 275423344;
   430227734; 506948616; 659060556; 883997877; 958139571; 1322822218; 1537002063; 1747873779;
   1955562222; 2024104815; 2227730452; 2361852424; 2428436474; 2756734187; 3204031479; 3329325298].
Definition sha_h0 : list Z := [1779033703; 3144134277; 1013904242; 2773480762; 1359893119; 2600822924; 528734635; 1541459225].

Definition bytes_of (s : string) : list Z :=
  (λ c, Z.of_N (N_of_ascii c)) <$> String.list_ascii_of_string s.

Definition pad (m : list Z) : list Z :=
  let l := Z.of_nat (length m) in
  let zeros := Z.to_nat ((55 - l) mod 64) in
  m ++ [128] ++ replicate zeros 0 ++
  ((λ i, Z.land (Z.shiftr (l * 8) (56 - 8 * Z.of_nat i)) 255) <$> seq 0 8).

Fixpoint words (m : list Z) : list Z :=
  match m with
  | a :: b :: c :: d :: m => (((a * 256 + b) * 256 + c) * 256 + d) :: words m
  | _ => []
  end.

(** The message schedule, newest word first. *)
Fixpoint schedule (n : nat) (w : list Z) : list Z :=
  match n with
  | O => w
  | S n =>
      let t (i : nat) := nth (i - 1) w 0%Z in
      schedule n (add32 (add32 (ssig1 (t 2)) (t 7)) (add32 (ssig0 (t 15)) (t 16)) :: w)
  end%nat.

Definition round (st : list Z) (kw : Z * Z) : list Z :=
  match st with
  | [a; b; c; d; e; f; g; h] =>
      let t1 := add32 (add32 h (bsig1 e)) (add32 (ch e f g) (add32 kw.1 kw.2)) in
      let t2 := add32 (bsig0 a) (maj a b c) in
      [add32 t1 t2; a; b; c; add32 d t1; e; f; g]
  | _ => st
  end.

Definition compress (st block : list Z) : list Z :=
  let w := reverse (schedule 48 (reverse block)) in
  zip_with add32 st (foldl round st (zip sha_k w)).

Fixpoint blocks (fuel : nat) (st ws : list Z) : list Z :=
  match fuel with
  | O => st
  | S fuel => match ws with
              | [] => st
              | _ => blocks fuel (compress st (take 16 ws)) (drop 16 ws)
              end
  end.

Definition hex_char (n : Z) : ascii :=
  ascii_of_N (Z.to_N (if n <? 10 then 48 + n else 87 + n)).
Definition hex_word (w : Z) : list ascii :=
  (λ i, hex_char (Z.land (Z.shiftr w (28 - 4 * Z.of_nat i)) 15)) <$> seq 0 8.

(** [hex.EncodeToString] of the SHA-256 digest of a byte string. *)
Definition sha256_hex (s : string) : string :=
  let ws := words (pad (bytes_of s)) in
  String.string_of_list_ascii (mjoin (hex_word <$> blocks (length ws) sha_h0 ws)).

(** The digest of the parts, each followed by a zero byte. *)
Definition hash_parts (parts : list string) : string :=
  sha256_hex (foldr (λ p acc, p +:+ String (ascii_of_N 0) acc) EmptyString parts).

Example sha256_abc :
  sha256_hex "abc" = "ba7816bf8f01cfea414140de5dae2223b00361a396177a9cb410ff61f20015ad".
Proof. vm_compute. reflexivity. Qed.
Example sha256_two_blocks :
  sha256_hex "abcdbcdecdefdefgefghfghighijhijkijkljklmklmnlmnomnopnopq" =
  "248d6a61d20638b8e5c026930c3e6039a33ce45964ff2167f6ecedd419db06c1".
Proof. vm_compute. reflexivity. Qed.
