(* ===== verification/JsonValue.v ===== *)
(** * JSON values

    The whole of [json.Unmarshal] before it looks at Go types: the grammar of RFC 8259
    as the scanner of [encoding/json] accepts it, and the compact text that
    [json.Marshal] writes.  A number keeps its literal, as the decoder does until the
    type of the target is known.  The round trip is [parse_print]. *)

From S2P Require Import Prelude GoLib Json.
From Stdlib Require Import Ascii Decimal DecimalString DecimalFacts DecimalPos DecimalN DecimalZ.

#[local] Unset Elimination Schemes.
Inductive json :=
  | JNull
  | JBool (b : bool)
  | JNum (lit : string)
  | JStr (s : string)
  | JArr (l : list json)
  | JObj (l : list (string * json)).
#[local] Set Elimination Schemes.

Section induction.
Context (P : json → Prop).
Context (Hnull : P JNull) (Hbool : ∀ b, P (JBool b)) (Hnum : ∀ x, P (JNum x)) (Hstr : ∀ s, P (JStr s)).
Context (Harr : ∀ l, Forall P l → P (JArr l)) (Hobj : ∀ l, Forall (λ kv, P kv.2) l → P (JObj l)).
Fixpoint json_ind (v : json) : P v :=
  match v with
  | JNull => Hnull
  | JBool b => Hbool b
  | JNum x => Hnum x
  | JStr s => Hstr s
  | JArr l => Harr l ((fix all l : Forall P l := match l with [] => Forall_nil_2 _ | x :: l => Forall_cons_2 _ _ _ (json_ind x) (all l) end) l)
  | JObj l => Hobj l ((fix all l : Forall (λ kv, P kv.2) l := match l with [] => Forall_nil_2 _ | x :: l => Forall_cons_2 _ _ _ (json_ind x.2) (all l) end) l)
  end.
End induction.

(** ** Printing *)

Fixpoint print_json (v : json) : string :=
  match v with
  | JNull => "null"
  | JBool b => if b then "true" else "false"
  | JNum x => x
  | JStr s => enc_string s
  | JArr l => str1 "[" +:+ join_str "," (map print_json l) +:+ str1 "]"
  | JObj l => str1 "{" +:+ join_str "," (map (λ kv, enc_string kv.1 +:+ str1 ":" +:+ print_json kv.2) l) +:+ str1 "}"
  end.
Definition print_member (kv : string * json) : string := enc_string kv.1 +:+ str1 ":" +:+ print_json kv.2.

(** ** Parsing *)

Fixpoint span_digits (s : string) : string * string :=
  match s with
  | String c r => if is_digit c then let '(d, r) := span_digits r in (String c d, r) else (EmptyString, s)
  | EmptyString => (EmptyString, EmptyString)
  end.
Definition digits1 (s : string) : option (string * string) :=
  match span_digits s with (EmptyString, _) => None | x => Some x end.
Definition scan_int (s : string) : option (string * string) :=
  match s with
  | String c r => if byte_is c 48 then Some (str1 c, r) else digits1 s
  | EmptyString => None
  end.
Definition scan_frac (s : string) : option (string * string) :=
  match s with
  | String c r => if byte_is c 46 then '(d, r) ← digits1 r; Some (String c d, r) else Some (EmptyString, s)
  | EmptyString => Some (EmptyString, s)
  end.
Definition is_sign (c : ascii) : bool := byte_is c 43 || byte_is c 45.
Definition scan_exp (s : string) : option (string * string) :=
  match s with
  | String c r =>
      if byte_is c 101 || byte_is c 69 then
        match r with
        | String c' r' =>
            if is_sign c' then '(d, r) ← digits1 r'; Some (String c (String c' d), r)
            else '(d, r) ← digits1 r; Some (String c d, r)
        | EmptyString => None
        end
      else Some (EmptyString, s)
  | EmptyString => Some (EmptyString, s)
  end.
Definition scan_unsigned (s : string) : option (string * string) :=
  '(a, r) ← scan_int s; '(b, r) ← scan_frac r; '(c, r) ← scan_exp r; Some (a +:+ b +:+ c, r).
Definition scan_number (s : string) : option (string * string) :=
  match s with
  | String c r => if byte_is c 45 then '(x, r) ← scan_unsigned r; Some (String c x, r) else scan_unsigned s
  | EmptyString => None
  end.

Definition maxNestingDepth : N := 10000.

Fixpoint parse_val (fuel : nat) (d : N) (s : string) : option (json * string) :=
  match fuel with
  | O => None
  | S fuel =>
      let s := skip_ws s in
      match s with
      | EmptyString => None
      | String c r =>
          if byte_is c 34 then '(x, r) ← dec_chars (S (String.length r)) r; Some (JStr x, r)
          else if byte_is c 91 then
            if (maxNestingDepth <? d + 1)%N then None
            else match skip_ws r with
                 | String c' r' => if byte_is c' 93 then Some (JArr [], r')
                                   else '(l, r) ← parse_elems fuel (d + 1)%N r; Some (JArr l, r)
                 | EmptyString => None
                 end
          else if byte_is c 123 then
            if (maxNestingDepth <? d + 1)%N then None
            else match skip_ws r with
                 | String c' r' => if byte_is c' 125 then Some (JObj [], r')
                                   else '(l, r) ← parse_members fuel (d + 1)%N r; Some (JObj l, r)
                 | EmptyString => None
                 end
          else if HasPrefix s "null" then Some (JNull, drop_str 4 s)
          else if HasPrefix s "true" then Some (JBool true, drop_str 4 s)
          else if HasPrefix s "false" then Some (JBool false, drop_str 5 s)
          else '(x, r) ← scan_number s; Some (JNum x, r)
      end
  end
with parse_elems (fuel : nat) (d : N) (s : string) : option (list json * string) :=
  match fuel with
  | O => None
  | S fuel =>
      '(v, r) ← parse_val fuel d s;
      match skip_ws r with
      | String c r => if byte_is c 44 then '(l, r) ← parse_elems fuel d r; Some (v :: l, r)
                      else if byte_is c 93 then Some ([v], r) else None
      | EmptyString => None
      end
  end
with parse_members (fuel : nat) (d : N) (s : string) : option (list (string * json) * string) :=
  match fuel with
  | O => None
  | S fuel =>
      match skip_ws s with
      | String q r =>
          if byte_is q 34 then
            '(k, r) ← dec_chars (S (String.length r)) r;
            match skip_ws r with
            | String c r =>
                if byte_is c 58 then
                  '(v, r) ← parse_val fuel d r;
                  match skip_ws r with
                  | String c r => if byte_is c 44 then '(l, r) ← parse_members fuel d r; Some ((k, v) :: l, r)
                                  else if byte_is c 125 then Some ([(k, v)], r) else None
                  | EmptyString => None
                  end
                else None
            | EmptyString => None
            end
          else None
      | EmptyString => None
      end
  end.

Definition parse_json (s : string) : option json :=
  '(v, r) ← parse_val (S (String.length s)) 0 s;
  if bool_decide (skip_ws r = EmptyString) then Some v else None.

(** Texts in the examples are written with single quotes. *)
Fixpoint requote (s : string) : string :=
  match s with String c s => String (if byte_is c 39 then dquote else c) (requote s) | EmptyString => EmptyString end.
Example parse_ex1 :
  parse_json (requote " {'a' : [1, -2.5e+3,true ,null], 'b':{}, 'a':[]} ") =
  Some (JObj [("a", JArr [JNum "1"; JNum "-2.5e+3"; JBool true; JNull]); ("b", JObj []); ("a", JArr [])]).
Proof. reflexivity. Qed.
Example parse_ex2 : parse_json "[1,]" = None ∧ parse_json "01" = None ∧ parse_json (requote "{'a':1}x") = None.
Proof. done. Qed.

(** ** Round trip *)

(** What may follow a number: not a byte that would continue it. *)
Definition stops (rest : string) : bool :=
  match rest with
  | String c _ => negb (is_digit c || byte_is c 46 || byte_is c 101 || byte_is c 69)
  | EmptyString => true
  end.

(** Values whose text is the one [json.Marshal] writes: numbers are literals and
    strings valid UTF-8. *)
Fixpoint json_ok (v : json) : bool :=
  match v with
  | JNull | JBool _ => true
  | JNum x => bool_decide (scan_number x = Some (x, EmptyString))
  | JStr s => valid_utf8 s
  | JArr l => forallb json_ok l
  | JObj l => forallb (λ kv, valid_utf8 kv.1 && json_ok kv.2) l
  end.
Fixpoint height (v : json) : N :=
  match v with
  | JArr l => 1 + foldr (λ v n, N.max (height v) n) 0 l
  | JObj l => 1 + foldr (λ kv n, N.max (height kv.2) n) 0 l
  | _ => 0
  end%N.
(** The fuel the parser needs. *)
Fixpoint need (v : json) : nat :=
  match v with
  | JArr l => S (foldr (λ v n, S (need v + n)) 0 l)%nat
  | JObj l => S (foldr (λ kv n, S (need kv.2 + n)) 0 l)%nat
  | _ => 1%nat
  end.

Lemma span_digits_app s rest d r :
  span_digits s = (d, r) → stops rest = true → span_digits (s +:+ rest) = (d, r +:+ rest).
Proof.
  revert d r. induction s as [|c s IH]; intros d r H Hs.
  - cbn in H. injection H as <- <-. destruct rest as [|c rest]; [done|].
    change (EmptyString +:+ ?t) with t. cbn [span_digits stops] in *. by destruct (is_digit c).
  - rewrite app_str_cons. cbn [span_digits] in *. destruct (is_digit c).
    + destruct (span_digits s) as [d' r'] eqn:E. injection H as <- <-. by rewrite (IH d' r').
    + by injection H as <- <-.
Qed.
Lemma digits1_app s rest x r :
  digits1 s = Some (x, r) → stops rest = true → digits1 (s +:+ rest) = Some (x, r +:+ rest).
Proof.
  unfold digits1. intros H Hs. destruct (span_digits s) as [d r'] eqn:E.
  rewrite (span_digits_app _ _ _ _ E Hs). destruct d; [done|]. by injection H as <- <-.
Qed.
Lemma scan_int_app s rest x r :
  scan_int s = Some (x, r) → stops rest = true → scan_int (s +:+ rest) = Some (x, r +:+ rest).
Proof.
  destruct s as [|c s]; [done|]. rewrite app_str_cons. unfold scan_int. intros H Hs.
  destruct (byte_is c 48); [by injection H as <- <-|]. rewrite <-app_str_cons. by apply digits1_app.
Qed.
Lemma scan_frac_app s rest x r :
  scan_frac s = Some (x, r) → stops rest = true → scan_frac (s +:+ rest) = Some (x, r +:+ rest).
Proof.
  unfold scan_frac. destruct s as [|c s].
  - intros [= <- <-] Hs. destruct rest as [|c rest]; [done|]. change (EmptyString +:+ ?t) with t. cbn [stops] in *.
    destruct (byte_is c 46); [|done]. by rewrite orb_true_r in Hs.
  - rewrite app_str_cons. intros H Hs. destruct (byte_is c 46); [|by injection H as <- <-].
    destruct (digits1 s) as [[d r']|] eqn:E; [|done]. injection H as <- <-. by rewrite (digits1_app _ _ _ _ E Hs).
Qed.
Lemma scan_exp_app s rest x r :
  scan_exp s = Some (x, r) → stops rest = true → scan_exp (s +:+ rest) = Some (x, r +:+ rest).
Proof.
  unfold scan_exp. destruct s as [|c s].
  - intros [= <- <-] Hs. destruct rest as [|c rest]; [done|]. change (EmptyString +:+ ?t) with t. cbn [stops] in *.
    destruct (byte_is c 101), (byte_is c 69); rewrite ?orb_true_r in Hs; done.
  - rewrite app_str_cons. intros H Hs. destruct (byte_is c 101 || byte_is c 69); [|by injection H as <- <-].
    destruct s as [|c' s]; [done|]. rewrite app_str_cons. destruct (is_sign c').
    + destruct (digits1 s) as [[d r']|] eqn:E; [|done]. injection H as <- <-. by rewrite (digits1_app _ _ _ _ E Hs).
    + destruct (digits1 (String c' s)) as [[d r']|] eqn:E; [|done]. injection H as <- <-.
      rewrite <-app_str_cons. by rewrite (digits1_app _ _ _ _ E Hs).
Qed.
Lemma scan_unsigned_app s rest x r :
  scan_unsigned s = Some (x, r) → stops rest = true → scan_unsigned (s +:+ rest) = Some (x, r +:+ rest).
Proof.
  unfold scan_unsigned. intros H Hs.
  destruct (scan_int s) as [[a r1]|] eqn:E1; [|done]. cbn in H. destruct (scan_frac r1) as [[b r2]|] eqn:E2; [|done].
  cbn in H. destruct (scan_exp r2) as [[e r3]|] eqn:E3; [|done]. injection H as <- <-.
  by rewrite (scan_int_app _ _ _ _ E1 Hs); cbn; rewrite (scan_frac_app _ _ _ _ E2 Hs); cbn; rewrite (scan_exp_app _ _ _ _ E3 Hs).
Qed.
Lemma scan_number_app s rest x r :
  scan_number s = Some (x, r) → stops rest = true → scan_number (s +:+ rest) = Some (x, r +:+ rest).
Proof.
  destruct s as [|c s]; [done|]. rewrite app_str_cons. unfold scan_number. intros H Hs. destruct (byte_is c 45).
  - destruct (scan_unsigned s) as [[y r']|] eqn:E; [|done]. injection H as <- <-. by rewrite (scan_unsigned_app _ _ _ _ E Hs).
  - rewrite <-app_str_cons. by apply scan_unsigned_app.
Qed.
(** A number starts with a digit or a minus sign. *)
Lemma scan_number_first s x : scan_number s = Some x → ∃ c r, s = String c r ∧ (is_digit c || byte_is c 45) = true.
Proof.
  destruct s as [|c r]; [done|]. intros H. exists c, r. split; [done|]. unfold scan_number in H.
  destruct (byte_is c 45) eqn:E; [by rewrite orb_true_r|]. rewrite orb_false_r.
  unfold scan_unsigned, scan_int in H. destruct (byte_is c 48) eqn:E0.
  { clear -E0. by destruct c as [[][][][][][][][]]. }
  unfold digits1 in H. cbn [span_digits] in H. by destruct (is_digit c).
Qed.

Lemma str1_app c t : str1 c +:+ t = String c t.
Proof. done. Qed.
Lemma dec_body s rest :
  valid_utf8 s = true →
  dec_chars (S (String.length (enc_chars (String.length s) s +:+ String dquote rest))) (enc_chars (String.length s) s +:+ String dquote rest) = Some (s, rest).
Proof.
  intros Hv. apply dec_enc_chars; [done|]. rewrite length_app_str. pose proof (length_enc_chars _ _ Hv). lia.
Qed.
Lemma enc_string_app s rest : enc_string s +:+ rest = String dquote (enc_chars (String.length s) s +:+ String dquote rest).
Proof. unfold enc_string. by rewrite app_str_cons, app_str_assoc. Qed.

(** The first byte of a printed value. *)
Lemma print_first v :
  json_ok v = true → ∃ c r, print_json v = String c r ∧ is_ws c = false ∧ byte_is c 93 = false ∧ byte_is c 125 = false.
Proof.
  destruct v as [|[]|x|s|l|l]; intros Hok; try (do 2 eexists; by split_and!).
  apply bool_decide_eq_true in Hok. destruct (scan_number_first _ _ Hok) as (c & r & -> & Hc).
  exists c, r. split; [done|]. clear -Hc. by destruct c as [[][][][][][][][]].
Qed.
Lemma skip_ws_print v rest : json_ok v = true → skip_ws (print_json v +:+ rest) = print_json v +:+ rest.
Proof.
  intros Hok. destruct (print_first v Hok) as (c & r & -> & Hw & _). rewrite app_str_cons. cbn [skip_ws]. by rewrite Hw.
Qed.

Lemma join_cons {A} (f : A → string) x y l t :
  join_str "," (map f (x :: y :: l)) +:+ t = f x +:+ String "," (join_str "," (map f (y :: l)) +:+ t).
Proof. cbn [map join_str]. by rewrite !app_str_assoc. Qed.
Lemma join_one {A} (f : A → string) x t : join_str "," (map f [x]) +:+ t = f x +:+ t.
Proof. done. Qed.

Lemma parse_elems_join k d l rest :
  (∀ j v rest, (j < k)%nat → v ∈ l → (need v ≤ j)%nat → stops rest = true → parse_val j d (print_json v +:+ rest) = Some (v, rest)) →
  l ≠ [] → (foldr (λ v n, S (need v + n)) 0 l ≤ k)%nat →
  parse_elems k d (join_str "," (map print_json l) +:+ String "]" rest) = Some (l, rest).
Proof.
  revert k. induction l as [|v l IH]; intros k Hv Hne Hk; [done|]. destruct k as [|k]; [simpl in Hk; lia|].
  cbn [foldr] in Hk. cbn [parse_elems]. destruct l as [|w l].
  - rewrite join_one, Hv by first [lia | by left | done]. done.
  - rewrite join_cons, Hv by first [lia | by left | done]. cbn [mbind option_bind skip_ws].
    change (is_ws ",") with false. cbv iota. change (byte_is "," 44) with true. cbv iota.
    rewrite IH; [done| |done|lia]. intros j u r Hj Hu. apply Hv; [lia|by right].
Qed.
Lemma parse_members_join k d l rest :
  (∀ j kv rest, (j < k)%nat → kv ∈ l → (need kv.2 ≤ j)%nat → stops rest = true → parse_val j d (print_json kv.2 +:+ rest) = Some (kv.2, rest)) →
  forallb (λ kv, valid_utf8 kv.1) l = true → l ≠ [] → (foldr (λ kv n, S (need kv.2 + n)) 0 l ≤ k)%nat →
  parse_members k d (join_str "," (map print_member l) +:+ String "}" rest) = Some (l, rest).
Proof.
  revert k. induction l as [|[x v] l IH]; intros k Hv Hu Hne Hk; [done|]. destruct k as [|k]; [simpl in Hk; lia|].
  cbn [foldr fst snd] in Hk. cbn [forallb fst] in Hu. apply andb_true_iff in Hu as [Hx Hu].
  pose proof (λ rest, Hv k (x, v) rest) as H0. cbn [snd] in H0.
  assert (∀ t, parse_members (S k) d (print_member (x, v) +:+ t) =
    '(v, r) ← parse_val k d (print_json v +:+ t);
    match skip_ws r with
    | String c r => if byte_is c 44 then '(l, r) ← parse_members k d r; Some ((x, v) :: l, r)
                    else if byte_is c 125 then Some ([(x, v)], r) else None
    | EmptyString => None
    end) as Heq.
  { intros t. unfold print_member. cbn [fst snd]. rewrite !app_str_assoc, enc_string_app. cbn [parse_members skip_ws].
    change (is_ws dquote) with false. cbv iota. change (byte_is dquote 34) with true. cbv iota.
    rewrite dec_body by done. done. }
  destruct l as [|w l].
  - rewrite join_one, Heq, H0 by first [lia | by left | done]. done.
  - rewrite join_cons, Heq, H0 by first [lia | by left | done]. cbn [mbind option_bind skip_ws].
    change (is_ws ",") with false. cbv iota. change (byte_is "," 44) with true. cbv iota.
    rewrite IH; [done| |done|done|lia]. intros j u r Hj Hin. apply Hv; [lia|by right].
Qed.

Lemma elems_height {A} (h : A → N) (x : A) l : x ∈ l → (h x ≤ foldr (λ v n, N.max (h v) n) 0 l)%N.
Proof. induction 1; simpl; lia. Qed.
Lemma elems_need {A} (h : A → nat) (x : A) l : x ∈ l → (h x < foldr (λ v n, S (h v + n)) 0 l)%nat.
Proof. induction 1; simpl; lia. Qed.

Lemma parse_print_n k v d rest :
  json_ok v = true → (need v ≤ k)%nat → (d + height v ≤ maxNestingDepth)%N → stops rest = true →
  parse_val k d (print_json v +:+ rest) = Some (v, rest).
Proof.
  revert v d rest. induction k as [k IH] using lt_wf_ind. intros v d rest Hok Hk Hd Hs.
  destruct k as [|k]; [destruct v; simpl in Hk; lia|].
  cbn [parse_val]. rewrite skip_ws_print by done. destruct v as [|[]|x|s|l|l]; [by destruct rest..| | | |].
  - apply bool_decide_eq_true in Hok. destruct (scan_number_first _ _ Hok) as (c & r & -> & Hc).
    pose proof (scan_number_app _ rest _ _ Hok Hs) as Hn. cbn [print_json]. rewrite app_str_cons in Hn |- *.
    assert (byte_is c 34 = false ∧ byte_is c 91 = false ∧ byte_is c 123 = false ∧ HasPrefix (String c (r +:+ rest)) "null" = false ∧
      HasPrefix (String c (r +:+ rest)) "true" = false ∧ HasPrefix (String c (r +:+ rest)) "false" = false) as (-> & -> & -> & -> & -> & ->).
    { clear -Hc. destruct c as [[][][][][][][][]]; try done; by split_and!. }
    by rewrite Hn.
  - cbn [print_json json_ok] in *. rewrite enc_string_app. change (byte_is dquote 34) with true. cbv iota. by rewrite dec_body.
  - cbn [print_json json_ok height need] in *. rewrite !app_str_assoc, !str1_app. cbv iota beta.
    change (byte_is "[" 34) with false. change (byte_is "[" 91) with true. cbv iota.
    rewrite (proj2 (N.ltb_ge _ _)) by lia. destruct l as [|v l]; [done|].
    assert (∃ c r, join_str "," (map print_json (v :: l)) = String c r ∧ is_ws c = false ∧ byte_is c 93 = false) as (c & r & Hj & Hw & Hb).
    { cbn [forallb] in Hok. apply andb_true_iff in Hok as [Hv _]. destruct (print_first v Hv) as (c & r & He & Hw & Hb & _).
      destruct l; cbn [map join_str]; rewrite He; rewrite ?app_str_cons; eauto. }
    rewrite Hj, app_str_cons. cbn [skip_ws]. rewrite Hw, Hb. rewrite <-app_str_cons, <-Hj.
    rewrite parse_elems_join; [done| |done|lia]. intros j w t Hlt Hin Hn Ht. apply IH; [lia| |lia| |done].
    + apply list_elem_of_In in Hin. by apply (proj1 (forallb_forall _ _) Hok).
    + pose proof (elems_height height w _ Hin). lia.
  - cbn [print_json json_ok height need] in *. rewrite !app_str_assoc, !str1_app. cbv iota beta.
    change (byte_is "{" 34) with false. change (byte_is "{" 91) with false. change (byte_is "{" 123) with true. cbv iota.
    rewrite (proj2 (N.ltb_ge _ _)) by lia. destruct l as [|[x v] l]; [done|]. change (map _ ?l) with (map print_member l).
    assert (∃ r, join_str "," (map print_member ((x, v) :: l)) = String dquote r) as [r Hj].
    { destruct l; cbn [map join_str]; unfold print_member; cbn [fst snd]; rewrite ?app_str_assoc, enc_string_app; eauto. }
    rewrite Hj, app_str_cons. cbn [skip_ws]. change (is_ws dquote) with false. change (byte_is dquote 125) with false. cbv iota.
    rewrite <-app_str_cons, <-Hj.
    pose proof (proj1 (forallb_forall _ _) Hok) as Hall.
    rewrite parse_members_join; [done| | |done|lia].
    + intros j w t Hlt Hin Hn Ht. apply IH; [lia| |lia| |done].
      * apply list_elem_of_In in Hin. by apply Hall, andb_true_iff in Hin as [_ ?].
      * pose proof (elems_height (λ kv, height kv.2) w _ Hin). lia.
    + apply forallb_forall. intros w Hin. by apply Hall, andb_true_iff in Hin as [? _].
Qed.

Lemma need_join {A} (f : A → string) (n : A → nat) l :
  Forall (λ x, n x ≤ String.length (f x))%nat l →
  (foldr (λ x m, S (n x + m)) 0 l ≤ S (String.length (join_str "," (map f l))))%nat.
Proof.
  induction 1 as [|x l Hx Hl IH]; [simpl; lia|]. destruct l as [|y l]; [simpl; lia|].
  cbn [foldr] in *. cbn [map join_str] in *. rewrite !length_app_str. simpl in *. lia.
Qed.
Lemma need_length v : json_ok v = true → (need v ≤ String.length (print_json v))%nat.
Proof.
  induction v as [|b|x|s|l IH|l IH] using json_ind; intros Hok; cbn [need print_json json_ok] in *.
  - simpl. lia.
  - destruct b; simpl; lia.
  - apply bool_decide_eq_true in Hok. destruct (scan_number_first _ _ Hok) as (c & r & -> & _). simpl. lia.
  - unfold enc_string. simpl. lia.
  - rewrite !length_app_str. cbn. apply le_n_S. rewrite Nat.add_1_r. apply need_join.
    rewrite forallb_forall in Hok. rewrite Forall_forall in IH |- *. intros x Hx. apply IH; [done|]. by apply Hok, list_elem_of_In.
  - change (map _ l) with (map print_member l).
    rewrite !length_app_str. cbn. apply le_n_S. rewrite Nat.add_1_r. apply (need_join _ (λ kv, need kv.2)).
    rewrite forallb_forall in Hok. rewrite Forall_forall in IH |- *. intros x Hx. unfold print_member. rewrite !length_app_str.
    specialize (IH x Hx). destruct (andb_prop _ _ (Hok x ltac:(by apply list_elem_of_In))) as [_ Hv]. specialize (IH Hv). lia.
Qed.

(** Parsing what was printed gives the value back. *)
Lemma parse_print v :
  json_ok v = true → (height v ≤ maxNestingDepth)%N → parse_json (print_json v) = Some v.
Proof.
  intros Hok Hh. unfold parse_json. pose proof (need_length v Hok).
  rewrite <-(app_str_nil (print_json v)) at 2. rewrite parse_print_n by (done || lia). done.
Qed.

(** An integer is a number literal. *)
Lemma span_all_digits s : all_str is_digit s = true → span_digits s = (s, EmptyString).
Proof.
  induction s as [|c s IH]; [done|]. cbn. intros [Hc Hs]%andb_true_iff. change (is_digit c) with (is_digit c). rewrite Hc.
  by rewrite IH.
Qed.

Lemma to_uint_no_zero p u : Pos.to_uint p ≠ Decimal.D0 u.
Proof.
  intros H. pose proof (DecimalPos.Unsigned.of_to p) as Hp. pose proof (DecimalN.Unsigned.to_of (Pos.to_uint p)) as Hn.
  unfold N.of_uint in Hn. rewrite Hp in Hn. cbn [N.to_uint] in Hn. rewrite H in Hn. unfold Decimal.unorm in Hn.
  destruct (Decimal.nzhead (Decimal.D0 u)) eqn:E; try congruence.
  - injection Hn as ->. rewrite H in Hp. done.
  - by apply DecimalFacts.nzhead_nonzero in E.
Qed.
Lemma scan_pos_uint p : scan_unsigned (NilZero.string_of_uint (Pos.to_uint p)) = Some (NilZero.string_of_uint (Pos.to_uint p), EmptyString).
Proof.
  assert (∀ c s, is_digit c = true → byte_is c 48 = false → all_str is_digit s = true →
    scan_unsigned (String c s) = Some (String c s, EmptyString)) as Hs.
  { intros c s Hc H0 Hs. unfold scan_unsigned, scan_int, digits1. rewrite H0. cbn [span_digits]. rewrite Hc, span_all_digits by done.
    cbn. by rewrite app_str_nil. }
  pose proof (to_uint_no_zero p) as Hz. pose proof (DecimalPos.Unsigned.to_uint_nonnil p).
  destruct (Pos.to_uint p); try done; [by destruct (Hz u)|..]; apply Hs; try done; apply string_of_uint_digits.
Qed.
Lemma itoa_number z : scan_number (itoa z) = Some (itoa z, EmptyString).
Proof.
  unfold itoa. destruct z as [|p|p]; [done|..]; cbn [Z.to_int NilZero.string_of_int].
  - pose proof (scan_pos_uint p) as H. unfold scan_number. destruct (NilZero.string_of_uint (Pos.to_uint p)) as [|c s] eqn:E; [done|].
    destruct (byte_is c 45) eqn:Hc; [|done]. exfalso. unfold scan_unsigned, scan_int, digits1 in H.
    clear -H Hc. by destruct c as [[][][][][][][][]].
  - unfold scan_number. change (byte_is "-" 45) with true. cbv iota. by rewrite scan_pos_uint.
Qed.
