(* ===== verification/GoText.v ===== *)
(** * More of Go's text functions

    [strconv.Quote] (the [%q] verb), the suffix and cutset functions of
    [strings], and [strings.Split] on one byte, which the HTTP paths use.
    Runes outside ASCII are taken for printable ones in [Quote]. *)

From S2P Require Import Prelude GoLib Json.
From Stdlib Require Import Ascii.

Definition hex2 (c : ascii) : string :=
  String bslash (String "x" (String (hex_digit (N_of_ascii c / 16)) (str1 (hex_digit (N_of_ascii c mod 16))))).

Definition quote_ascii (c : ascii) : string :=
  let n := N_of_ascii c in
  if (n =? 34)%N || (n =? 92)%N then String bslash (str1 c)
  else if (32 <=? n)%N && (n <? 127)%N then str1 c
  else if (n =? 7)%N then esc1 "a"
  else if (n =? 8)%N then esc1 "b"
  else if (n =? 12)%N then esc1 "f"
  else if (n =? 10)%N then esc1 "n"
  else if (n =? 13)%N then esc1 "r"
  else if (n =? 9)%N then esc1 "t"
  else if (n =? 11)%N then esc1 "v"
  else hex2 c.

Fixpoint quote_chars (fuel : nat) (s : string) : string :=
  match fuel, s with
  | S fuel, String c s' =>
      if is_ascii c then quote_ascii c +:+ quote_chars fuel s'
      else match utf8_len s with
           | O => hex2 c +:+ quote_chars fuel s'
           | n => take_str n s +:+ quote_chars fuel (drop_str n s)
           end
  | _, _ => EmptyString
  end.
Definition Quote (s : string) : string :=
  String dquote (quote_chars (String.length s) s +:+ str1 dquote).

Definition HasSuffix (s p : string) : bool := HasPrefix (rev_str s EmptyString) (rev_str p EmptyString).
Definition TrimSuffix (s p : string) : string :=
  if HasSuffix s p then take_str (String.length s - String.length p) s else s.

(** [strings.Trim], [TrimLeft] and [TrimRight] with a cutset of one byte. *)
Fixpoint TrimLeftByte (c : ascii) (s : string) : string :=
  match s with
  | String d s' => if Ascii.eqb c d then TrimLeftByte c s' else s
  | EmptyString => EmptyString
  end.
Definition TrimRightByte (c : ascii) (s : string) : string :=
  rev_str (TrimLeftByte c (rev_str s EmptyString)) EmptyString.
Definition TrimByte (c : ascii) (s : string) : string := TrimRightByte c (TrimLeftByte c s).

(** [strings.Split] on one byte: never empty. *)
Fixpoint split_byte (c : ascii) (s acc : string) : list string :=
  match s with
  | EmptyString => [rev_str acc EmptyString]
  | String d s' => if Ascii.eqb c d then rev_str acc EmptyString :: split_byte c s' EmptyString
                   else split_byte c s' (String d acc)
  end.
Definition Split (c : ascii) (s : string) : list string := split_byte c s EmptyString.

Example quote_ex : Quote (String "a" (String dquote (String (chr 10) (String (chr 1) "b")))) =
  String dquote (String "a" (esc1 dquote +:+ esc1 "n" +:+ hex2 (chr 1) +:+ "b" +:+ str1 dquote)).
Proof. reflexivity. Qed.

Example split_ex : Split "/" "a//b" = ["a"; EmptyString; "b"].
Proof. reflexivity. Qed.

(** ** Lemmas *)

Lemma rev_str_app s acc : rev_str s acc = rev_str s EmptyString +:+ acc.
Proof.
  revert acc. induction s as [|c s IH]; intros acc; simpl; [done|].
  rewrite IH, (IH (String c EmptyString)). rewrite app_str_assoc. done.
Qed.

Lemma rev_str_cons c s : rev_str (String c s) EmptyString = rev_str s EmptyString +:+ str1 c.
Proof. simpl. apply rev_str_app. Qed.

Lemma rev_str_snoc s c acc : rev_str (s +:+ str1 c) acc = String c (rev_str s acc).
Proof. revert acc. induction s as [|d s IH]; intros acc; simpl; [done|]. apply IH. Qed.

Lemma rev_str_involutive s : rev_str (rev_str s EmptyString) EmptyString = s.
Proof. induction s as [|c s IH]; [done|]. rewrite rev_str_cons, rev_str_snoc. by rewrite IH. Qed.

Lemma rev_str_app_str s t : rev_str (s +:+ t) EmptyString = rev_str t EmptyString +:+ rev_str s EmptyString.
Proof.
  induction s as [|c s IH]; simpl.
  - by rewrite app_str_nil.
  - rewrite (rev_str_app (s +:+ t)), IH, app_str_assoc. by rewrite (rev_str_app s (String c EmptyString)).
Qed.

Lemma HasSuffix_app s p : HasSuffix (s +:+ p) p = true.
Proof. unfold HasSuffix. rewrite rev_str_app_str. apply HasPrefix_app. Qed.

Lemma TrimSuffix_app s p : TrimSuffix (s +:+ p) p = s.
Proof.
  unfold TrimSuffix. rewrite HasSuffix_app, length_app_str.
  replace (String.length s + String.length p - String.length p)%nat with (String.length s) by lia.
  apply take_app_str.
Qed.

Lemma split_byte_none c s acc :
  all_str (λ d, negb (Ascii.eqb c d)) s = true → split_byte c s acc = [rev_str acc EmptyString +:+ s].
Proof.
  revert acc. induction s as [|d s IH]; intros acc; simpl; [by rewrite app_str_nil|].
  intros [Hd Hs]%andb_prop. destruct (Ascii.eqb c d); [done|]. rewrite IH by done. simpl.
  rewrite (rev_str_app acc). by rewrite app_str_assoc.
Qed.

(** A field without the separator, then the separator, is the first part. *)
Lemma Split_app c a s :
  all_str (λ d, negb (Ascii.eqb c d)) a = true → Split c (a +:+ String c s) = a :: Split c s.
Proof.
  unfold Split. assert (∀ acc, all_str (λ d, negb (Ascii.eqb c d)) a = true →
    split_byte c (a +:+ String c s) acc = (rev_str acc EmptyString +:+ a) :: split_byte c s EmptyString) as H.
  { induction a as [|d a IH]; intros acc; simpl.
    - by rewrite Ascii.eqb_refl, app_str_nil.
    - intros [Hd Ha]%andb_prop. destruct (Ascii.eqb c d); [done|]. rewrite IH by done. simpl.
      rewrite (rev_str_app acc). by rewrite app_str_assoc. }
  intros Ha. by rewrite H.
Qed.

Lemma Split_last c a : all_str (λ d, negb (Ascii.eqb c d)) a = true → Split c a = [a].
Proof. intros Ha. unfold Split. by rewrite split_byte_none. Qed.

(** ** Text without blanks *)

Definition graphic (c : ascii) : bool := byte_in c 33 126.

Lemma graphic_not_is c n : graphic c = true → (n <= 32 ∨ 127 <= n)%N → byte_is c n = false.
Proof. unfold graphic, byte_in, byte_is. rewrite andb_true_iff, !N.leb_le, N.eqb_neq. lia. Qed.
Lemma graphic_not_in c lo hi : graphic c = true → (hi <= 32 ∨ 127 <= lo)%N → byte_in c lo hi = false.
Proof. unfold graphic, byte_in. rewrite andb_true_iff, !N.leb_le, andb_false_iff, !N.leb_gt. lia. Qed.

Lemma space_front_graphic c s : graphic c = true → space_front (String c s) = O.
Proof.
  intros Hc. unfold space_front. rewrite (graphic_not_in c 9 13), !(graphic_not_is c) by (done || lia). cbn.
  by destruct s as [|b [|d s]].
Qed.
Lemma space_back_graphic c s : graphic c = true → space_back (String c s) = O.
Proof.
  intros Hc. unfold space_back. rewrite (graphic_not_in c 9 13), !(graphic_not_is c) by (done || lia). cbn [orb].
  assert (Hf : ∀ b, (space_front (String b (str1 c)) =? 2)%nat = false).
  { intros b. unfold space_front, str1. cbv beta iota. rewrite !(graphic_not_is c) by (done || lia).
    rewrite !orb_false_r, andb_false_r. by destruct (_ || _). }
  destruct s as [|b s]; [done|]. change (String b (String c EmptyString)) with (String b (str1 c)). rewrite Hf.
  destruct s as [|d s]; [done|]. unfold space_front, str1. cbv beta iota. rewrite !(graphic_not_is c), !(graphic_not_in c) by (done || lia).
  rewrite !andb_false_r, !orb_false_r. cbn. destruct (_ || _); [done|]. by destruct (_ && _).
Qed.

Lemma trim_front_graphic (front : string → nat) fuel s :
  (∀ c s, graphic c = true → front (String c s) = O) → front EmptyString = O → all_str graphic s = true → trim_front fuel front s = s.
Proof.
  intros Hf He. destruct fuel as [|fuel]; [done|]. destruct s as [|c s]; cbn; [by rewrite He|].
  intros [Hc _]%andb_true_iff. by rewrite (Hf c s Hc).
Qed.

Lemma all_str_rev f s : all_str f (rev_str s EmptyString) = all_str f s.
Proof. induction s as [|c s IH]; [done|]. rewrite rev_str_cons, all_str_app, IH. cbn. by rewrite andb_true_r, andb_comm. Qed.

Lemma TrimSpace_graphic s : all_str graphic s = true → TrimSpace s = s.
Proof.
  intros Hs. unfold TrimSpace. rewrite (trim_front_graphic space_front); [|apply space_front_graphic|done|done].
  rewrite (trim_front_graphic space_back); [apply rev_str_involutive|apply space_back_graphic|done|by rewrite all_str_rev].
Qed.

(** ** Trimming twice is trimming once *)

Lemma trim_front_suffix fuel front s : ∃ p, s = p +:+ trim_front fuel front s.
Proof.
  revert s. induction fuel as [|fuel IH]; intros s; cbn [trim_front]; [by exists EmptyString|].
  destruct (front s) as [|n]; [by exists EmptyString|]. destruct (IH (drop_str (S n) s)) as [p Hp].
  exists (take_str (S n) s +:+ p). rewrite app_str_assoc, <-Hp. by rewrite take_drop_str.
Qed.

Lemma trim_front_done fuel front s :
  front EmptyString = O → (String.length s <= fuel)%nat → front (trim_front fuel front s) = O.
Proof.
  intros He. revert s. induction fuel as [|fuel IH]; intros s Hs; cbn [trim_front].
  - by destruct s; [|simpl in Hs; lia].
  - destruct (front s) as [|n] eqn:Hf; [done|]. apply IH. rewrite length_drop_str.
    destruct s as [|c s]; [by rewrite He in Hf|]. simpl in *. lia.
Qed.

Lemma trim_front_id fuel front s : front s = O → trim_front fuel front s = s.
Proof. intros Hf. destruct fuel; [done|]. simpl. by rewrite Hf. Qed.

(** A space at the front of a prefix is one of the whole. *)
Lemma space_front_prefix s t : space_front (s +:+ t) = O → space_front s = O.
Proof.
  destruct s as [|a [|b [|c s]]]; [done| | |done]; simpl.
  - by destruct (_ || _).
  - destruct (_ || _); [done|]. by destruct (_ && _).
Qed.

Lemma TrimSpace_idem s : TrimSpace (TrimSpace s) = TrimSpace s.
Proof.
  unfold TrimSpace at 2 3. set (l := trim_front (String.length s) space_front s).
  set (r := rev_str l EmptyString). set (b := trim_front (String.length r) space_back r).
  assert (space_front l = O) as Hl by (by apply trim_front_done).
  assert (space_back b = O) as Hb by (by apply trim_front_done).
  destruct (trim_front_suffix (String.length r) space_back r) as [p Hp]. fold b in Hp.
  assert (l = rev_str b EmptyString +:+ rev_str p EmptyString) as Hlb.
  { rewrite <-rev_str_app_str, <-Hp. unfold r. by rewrite rev_str_involutive. }
  rewrite Hlb in Hl. apply space_front_prefix in Hl. unfold TrimSpace. rewrite (trim_front_id _ _ _ Hl), rev_str_involutive.
  by rewrite (trim_front_id _ _ _ Hb).
Qed.
