(* ===== verification/GoPath.v ===== *)
(** * Slash-separated paths

    What the sources use of [path/filepath] on Unix: [Clean], [Dir], [Base], [Join] and
    [Rel].  A path is a string; its elements are the names between the slashes. *)

From S2P Require Import Prelude GoLib Json GoText.
From Stdlib Require Import Ascii.

Definition slash : ascii := "/".
Definition rooted (path : string) : bool := HasPrefix path "/".
(** The elements that [Clean] looks at, and the ones it keeps: [stack] is reversed. *)
Definition path_elements (path : string) : list string :=
  List.filter (λ e, negb (bool_decide (e = EmptyString)) && negb (bool_decide (e = "."))) (Split slash path).
Fixpoint clean_elements (abs : bool) (stack es : list string) : list string :=
  match es with
  | [] => reverse stack
  | e :: es =>
      if bool_decide (e = "..") then
        match stack with
        | x :: stack' => if bool_decide (x = "..") then clean_elements abs (".." :: stack) es else clean_elements abs stack' es
        | [] => clean_elements abs (if abs then [] else [".."]) es
        end
      else clean_elements abs (e :: stack) es
  end.
Definition cleaned (path : string) : list string := clean_elements (rooted path) [] (path_elements path).
Definition render (abs : bool) (es : list string) : string :=
  if abs then "/" +:+ join_str "/" es else match es with [] => "." | _ => join_str "/" es end.
Definition Clean (path : string) : string := render (rooted path) (cleaned path).

(** Everything up to the last slash, cleaned. *)
Definition before_last (l : list string) : list string := take (length l - 1) l.
Definition Dir (path : string) : string :=
  match before_last (Split slash path) with
  | [] => "."
  | es => Clean (join_str "/" (es ++ [EmptyString]))
  end.
(** The last element that is not empty. *)
Definition Base (path : string) : string :=
  if bool_decide (path = EmptyString) then "."
  else match List.filter (λ e, negb (bool_decide (e = EmptyString))) (Split slash path) with
       | [] => "/"
       | es => default "/" (last es)
       end.
Fixpoint Join (es : list string) : string :=
  match es with
  | [] => EmptyString
  | e :: es' => if bool_decide (e = EmptyString) then Join es' else Clean (join_str "/" es)
  end.

(** [Rel] for a target other than the current directory; [None] is the error that it
    cannot be made relative. *)
Fixpoint strip_common (a b : list string) : list string * list string :=
  match a, b with
  | x :: a', y :: b' => if bool_decide (x = y) then strip_common a' b' else (a, b)
  | _, _ => (a, b)
  end.
Definition Rel (base targ : string) : option string :=
  if bool_decide (Clean base = Clean targ) then Some "."
  else if negb (Bool.eqb (rooted base) (rooted targ)) then None
  else
    let '(b, t) := strip_common (cleaned base) (cleaned targ) in
    if match b with x :: _ => bool_decide (x = "..") | [] => false end then None
    else Some (join_str "/" (replicate (length b) ".." ++ t)).

Example clean_ex : map Clean [EmptyString; "/"; "a//b/./c/.."; "/../a/"; "../../x"; "a/../.."] = ["."; "/"; "a/b"; "/a"; "../../x"; ".."].
Proof. reflexivity. Qed.
Example dir_ex : map Dir [EmptyString; "a"; "/a"; "/a/b"; "a/b/"] = ["."; "."; "/"; "/a"; "a/b"].
Proof. reflexivity. Qed.
Example base_ex : map Base [EmptyString; "/"; "/a/b/"; "a"] = ["."; "/"; "b"; "a"].
Proof. reflexivity. Qed.
Example rel_ex : Rel "/a" "/a/b/c" = Some "b/c" ∧ Rel "/a" "/b/c" = Some "../b/c" ∧ Rel "/a" "./b/c" = None ∧ Rel "/a/" "/a" = Some ".".
Proof. repeat split; reflexivity. Qed.

(** ** Absolute clean paths

    A name is an element that [Clean] keeps; an absolute clean path is [render true es] for
    a list [es] of names. *)

Definition name (e : string) : bool :=
  negb (bool_decide (e = EmptyString)) && negb (bool_decide (e = ".")) && negb (bool_decide (e = "..")) && all_str (λ d, negb (Ascii.eqb slash d)) e.
Definition abs (es : list string) : string := render true es.

Lemma rooted_abs es : rooted (abs es) = true.
Proof. unfold rooted, abs, render. by apply (HasPrefix_app "/"). Qed.
Lemma join_snoc es e : join_str "/" (es ++ [e]) = match es with [] => e | _ => join_str "/" es +:+ "/" +:+ e end.
Proof.
  induction es as [|x es IH]; [done|]. destruct es as [|y es]; [done|]. cbn [app] in *.
  change (x +:+ "/" +:+ join_str "/" (y :: es ++ [e]) = (x +:+ "/" +:+ join_str "/" (y :: es)) +:+ "/" +:+ e). rewrite IH. by rewrite !app_str_assoc.
Qed.
Lemma split_join es : forallb (λ e, all_str (λ d, negb (Ascii.eqb slash d)) e) es = true → es ≠ [] → Split slash (join_str "/" es) = es.
Proof.
  induction es as [|x es IH]; [done|]. cbn [forallb]. intros [Hx Hes]%andb_prop _. destruct es as [|y es]; [by apply Split_last|].
  change (Split slash (x +:+ String slash (join_str "/" (y :: es))) = x :: y :: es). rewrite Split_app by done. by rewrite IH.
Qed.
Lemma names_split es : forallb name es = true → forallb (λ e, all_str (λ d, negb (Ascii.eqb slash d)) e) es = true.
Proof. rewrite !forallb_forall. intros H e He. specialize (H e He). by apply andb_prop in H as [_ ?]. Qed.
Lemma split_abs es : forallb name es = true → Split slash (abs es) = EmptyString :: match es with [] => [EmptyString] | _ => es end.
Proof.
  intros H. unfold abs, render. change ("/" +:+ join_str "/" es) with (EmptyString +:+ String slash (join_str "/" es)). rewrite Split_app by done.
  destruct es; [done|]. by rewrite split_join by (try done; by apply names_split).
Qed.
Lemma elements_abs es : forallb name es = true → path_elements (abs es) = es.
Proof.
  intros H. unfold path_elements. rewrite split_abs by done. destruct es as [|x es]; [done|].
  change (List.filter (λ e, negb (bool_decide (e = EmptyString)) && negb (bool_decide (e = "."))) (x :: es) = x :: es).
  revert H. generalize (x :: es) as l. induction l as [|e l IH]; [done|]. cbn [forallb]. intros [He Hl]%andb_prop.
  cbn [List.filter]. unfold name in He. apply andb_prop in He as [He _]. apply andb_prop in He as [He _]. rewrite He. by rewrite IH.
Qed.
Lemma clean_names b acc es : forallb name es = true → clean_elements b acc es = reverse acc ++ es.
Proof.
  revert acc. induction es as [|e es IH]; intros acc; cbn [forallb clean_elements]; [by rewrite app_nil_r|]. intros [He Hes]%andb_prop.
  rewrite bool_decide_false. { rewrite IH by done. by rewrite reverse_cons, <-app_assoc. }
  unfold name in He. apply andb_prop in He as [He _]. apply andb_prop in He as [_ He]. by apply negb_true_iff, bool_decide_eq_false in He.
Qed.
Lemma cleaned_abs es : forallb name es = true → cleaned (abs es) = es.
Proof. intros H. unfold cleaned. rewrite elements_abs by done. by rewrite clean_names. Qed.
Lemma Clean_abs es : forallb name es = true → Clean (abs es) = abs es.
Proof. intros H. unfold Clean. by rewrite rooted_abs, cleaned_abs. Qed.
Lemma Base_abs es e : forallb name (es ++ [e]) = true → Base (abs (es ++ [e])) = e.
Proof.
  intros H. unfold Base. rewrite bool_decide_false by done. rewrite split_abs by done.
  assert (∀ l, forallb name l = true → List.filter (λ e, negb (bool_decide (e = EmptyString))) l = l) as Hf.
  { induction l as [|y l IH]; [done|]. cbn [forallb List.filter]. intros [Hy Hl]%andb_prop.
    unfold name in Hy. apply andb_prop in Hy as [Hy _]. apply andb_prop in Hy as [Hy _]. apply andb_prop in Hy as [Hy _]. rewrite Hy. by rewrite IH. }
  destruct (es ++ [e]) as [|x l] eqn:Hl; [by destruct es|].
  change (match List.filter (λ e, negb (bool_decide (e = EmptyString))) (x :: l) with [] => "/" | es0 => default "/" (last es0) end = e).
  rewrite Hf by done. rewrite <-Hl, last_snoc. by destruct es.
Qed.
Lemma before_last_snoc (l : list string) x : before_last (l ++ [x]) = l.
Proof. unfold before_last. rewrite length_app. cbn [length]. replace (length l + 1 - 1)%nat with (length l) by lia. apply take_app_length. Qed.
Lemma elements_slash s : path_elements (s +:+ "/") = path_elements s.
Proof.
  unfold path_elements. assert (∀ acc, split_byte slash (s +:+ "/") acc = split_byte slash s acc ++ [EmptyString]) as Hs.
  { induction s as [|c s IH]; intros acc; [done|]. cbn [split_byte]. rewrite app_str_cons. cbn [split_byte]. destruct (Ascii.eqb slash c); [|apply IH]. by rewrite IH. }
  unfold Split. rewrite Hs, List.filter_app. cbn. by rewrite app_nil_r.
Qed.
Lemma Dir_abs es e : forallb name (es ++ [e]) = true → Dir (abs (es ++ [e])) = abs es.
Proof.
  intros H. assert (forallb name es = true) as Hes by (rewrite forallb_app in H; by apply andb_prop in H as [? _]).
  unfold Dir. rewrite split_abs by done.
  replace (EmptyString :: match es ++ [e] with [] => [EmptyString] | _ => es ++ [e] end) with ((EmptyString :: es) ++ [e]) by by destruct es.
  rewrite before_last_snoc. cbv iota.
  assert (join_str "/" ((EmptyString :: es) ++ [EmptyString]) = match es with [] => "/" | _ => abs es +:+ "/" end) as ->.
  { rewrite join_snoc. destruct es; [done|]. by rewrite app_str_nil. }
  destruct es as [|y es]; [done|]. unfold Clean, cleaned. rewrite elements_slash, elements_abs by done.
  assert (rooted (abs (y :: es) +:+ "/") = true) as -> by (unfold rooted, abs, render; rewrite app_str_assoc; apply HasPrefix_app). by rewrite clean_names.
Qed.

(** [Rel] on absolute clean paths. *)
Lemma strip_common_app (a b : list string) : strip_common a (a ++ b) = ([], b).
Proof. induction a as [|x a IH]; [by destruct b|]. cbn. by rewrite bool_decide_true. Qed.
Lemma strip_common_inv (a b : list string) : (strip_common a b).1 = [] → ∃ c, b = a ++ c ∧ (strip_common a b).2 = c.
Proof.
  revert b. induction a as [|x a IH]; intros b; [by exists b; destruct b|]. destruct b as [|y b]; [done|]. cbn. case_bool_decide as Hxy; [|done]. subst y.
  intros (c & -> & Hc)%IH. by exists c.
Qed.
Lemma abs_inj es fs : forallb name es = true → forallb name fs = true → abs es = abs fs → es = fs.
Proof. intros H1 H2 Heq. rewrite <-(elements_abs es), <-(elements_abs fs) by done. by rewrite Heq. Qed.
