(* ===== verification/Regex.v ===== *)
(** * Regular expressions

    What the sources use of Go's [regexp] (RE2 syntax, leftmost-first): classes,
    greedy and lazy repetition of a class, alternation, options, word boundaries and
    capture groups.  The matcher backtracks in the order of preference, which gives the
    match Go's automaton gives; it works on bytes, which makes no difference for these
    expressions: what may follow a repetition starts with an ASCII byte, or the
    repetition takes all it can.  Letters are folded in ASCII only.

    The language of an expression is [matches]; the matcher finds a match exactly when
    there is one. *)

From S2P Require Import Prelude GoLib Json.
From Stdlib Require Import Ascii.

Inductive re :=
  | RByte (f : ascii → bool)
  | RStar (greedy : bool) (f : ascii → bool)
  | RSeq (a b : re)
  | RAlt (a b : re)
  | ROpt (a : re)
  | RBound
  | RCap (n : nat) (a : re)
  | REps.

Definition word_byte (c : ascii) : bool := byte_in c 48 57 || byte_in c 65 90 || byte_in c 97 122 || byte_is c 95.
Definition word_at (o : option ascii) : bool := match o with Some c => word_byte c | None => false end.
Definition head_str (s : string) : option ascii := match s with String c _ => Some c | EmptyString => None end.

Definition captures : Type := list (nat * string).

Section matcher.
Context {R : Type}.

(** Repetition of a class; [p] is the byte in front. *)
Fixpoint star_match (greedy : bool) (f : ascii → bool) (p : option ascii) (s : string) (k : option ascii → string → option R) : option R :=
  let more := match s with
              | String c s' => if f c then star_match greedy f (Some c) s' k else None
              | EmptyString => None
              end in
  if greedy then match more with Some r => Some r | None => k p s end
  else match k p s with Some r => Some r | None => more end.

Fixpoint match_re (r : re) (p : option ascii) (s : string) (caps : captures) (k : option ascii → string → captures → option R) : option R :=
  match r with
  | RByte f => match s with String c s' => if f c then k (Some c) s' caps else None | EmptyString => None end
  | RStar greedy f => star_match greedy f p s (λ p s, k p s caps)
  | RSeq a b => match_re a p s caps (λ p s caps, match_re b p s caps k)
  | RAlt a b => match match_re a p s caps k with Some x => Some x | None => match_re b p s caps k end
  | ROpt a => match match_re a p s caps k with Some x => Some x | None => k p s caps end
  | RBound => if xorb (word_at p) (word_at (head_str s)) then k p s caps else None
  | RCap n a => match_re a p s caps (λ p' s' caps', k p' s' ((n, take_str (String.length s - String.length s') s) :: caps'))
  | REps => k p s caps
  end.
End matcher.

(** ** The language *)

Inductive matches : re → option ascii * string → option ascii * string → Prop :=
  | ma_byte f p c s : f c = true → matches (RByte f) (p, String c s) (Some c, s)
  | ma_star_nil g f p s : matches (RStar g f) (p, s) (p, s)
  | ma_star_cons g f p c s x : f c = true → matches (RStar g f) (Some c, s) x → matches (RStar g f) (p, String c s) x
  | ma_seq a b x y z : matches a x y → matches b y z → matches (RSeq a b) x z
  | ma_alt_l a b x y : matches a x y → matches (RAlt a b) x y
  | ma_alt_r a b x y : matches b x y → matches (RAlt a b) x y
  | ma_opt_some a x y : matches a x y → matches (ROpt a) x y
  | ma_opt_none a x : matches (ROpt a) x x
  | ma_bound p s : xorb (word_at p) (word_at (head_str s)) = true → matches RBound (p, s) (p, s)
  | ma_cap n a x y : matches a x y → matches (RCap n a) x y
  | ma_eps x : matches REps x x.
#[export] Hint Constructors matches : core.

Lemma star_sound {R} g f p s (k : option ascii → string → option R) x :
  star_match g f p s k = Some x → ∃ p' s', matches (RStar g f) (p, s) (p', s') ∧ k p' s' = Some x.
Proof.
  revert p. induction s as [|c s IH]; intros p; cbn [star_match].
  - destruct g; destruct (k p EmptyString) eqn:E; intros [= <-]; eauto.
  - destruct (f c) eqn:Hf.
    + assert (star_match g f (Some c) s k = Some x → ∃ p' s', matches (RStar g f) (p, String c s) (p', s') ∧ k p' s' = Some x) as Hm.
      { intros (p' & s' & Hm & Hk)%IH. exists p', s'. eauto. }
      destruct g.
      * destruct (star_match true f (Some c) s k) eqn:E; [intros [= ->]; auto|eauto].
      * destruct (k p (String c s)) eqn:E; [intros [= ->]; eauto|auto].
    + destruct g; [eauto|]. destruct (k p (String c s)) eqn:E; [intros [= ->]; eauto|done].
Qed.
Lemma match_sound {R} r p s caps (k : option ascii → string → captures → option R) x :
  match_re r p s caps k = Some x → ∃ p' s' caps', matches r (p, s) (p', s') ∧ k p' s' caps' = Some x.
Proof.
  revert p s caps k. induction r as [f|g f|a IHa b IHb|a IHa b IHb|a IHa| |n a IHa|]; intros p s caps k; cbn [match_re].
  - destruct s as [|c s]; [done|]. destruct (f c) eqn:Hf; [|done]. eauto 10.
  - intros (p' & s' & ? & ?)%star_sound. eauto.
  - intros (p1 & s1 & c1 & H1 & (p2 & s2 & c2 & H2 & Hk)%IHb)%IHa. eauto 10.
  - destruct (match_re a p s caps k) eqn:E.
    + intros [= ->]. apply IHa in E as (? & ? & ? & ? & ?). eauto 10.
    + intros (? & ? & ? & ? & ?)%IHb. eauto 10.
  - destruct (match_re a p s caps k) eqn:E; [|eauto 10]. intros [= ->]. apply IHa in E as (? & ? & ? & ? & ?). eauto 10.
  - destruct (xorb _ _) eqn:E; [|done]. eauto 10.
  - intros (? & ? & ? & ? & ?)%IHa. eauto 10.
  - eauto 10.
Qed.

Lemma star_complete {R} g f p s p' s' (k : option ascii → string → option R) :
  matches (RStar g f) (p, s) (p', s') → k p' s' ≠ None → star_match g f p s k ≠ None.
Proof.
  intros H. remember (RStar g f) as r eqn:Hr. remember (p, s) as x eqn:Hx. remember (p', s') as y eqn:Hy.
  revert p s Hr Hx Hy. induction H; intros p0 s0 Hr Hx Hy Hk; simplify_eq/=.
  - destruct s0 as [|c s0]; cbn [star_match]; destruct g; try (destruct (f c)); try (destruct (star_match _ _ _ _ _)); destruct (k p0 _); done.
  - rewrite H. specialize (IHmatches _ _ eq_refl eq_refl eq_refl Hk).
    destruct g; destruct (star_match _ f (Some c) s k), (k p0 (String c s)); done.
Qed.
Lemma match_complete {R} r p s p' s' caps (k : option ascii → string → captures → option R) :
  matches r (p, s) (p', s') → (∀ caps', k p' s' caps' ≠ None) → match_re r p s caps k ≠ None.
Proof.
  revert p s p' s' caps k. induction r as [f|g f|a IHa b IHb|a IHa b IHb|a IHa| |n a IHa|]; intros p s p' s' caps k Hm Hk; cbn [match_re].
  - inversion Hm; subst. match goal with H : f _ = true |- _ => rewrite H end. apply Hk.
  - eapply star_complete; [exact Hm|apply Hk].
  - inversion Hm as [| | |? ? ? [p1 s1] ? H1 H2| | | | | | |]; subst. eapply IHa; [exact H1|]. intros caps'. eapply IHb; [exact H2|exact Hk].
  - inversion Hm; subst.
    + match goal with H : matches a _ _ |- _ => specialize (IHa _ _ _ _ caps k H Hk) end. by destruct (match_re a p s caps k).
    + destruct (match_re a p s caps k); [done|]. by eapply IHb.
  - inversion Hm; subst.
    + match goal with H : matches a _ _ |- _ => specialize (IHa _ _ _ _ caps k H Hk) end. by destruct (match_re a p s caps k).
    + destruct (match_re a p' s' caps k); [done|apply Hk].
  - inversion Hm as [| | | | | | | |? ? Hb| |]; subst. rewrite Hb. apply Hk.
  - inversion Hm; subst. eapply IHa; [done|]. intros caps'. apply Hk.
  - inversion Hm; subst. apply Hk.
Qed.

(** ** Searching *)

Definition match_at (r : re) (p : option ascii) (s : string) : option (option ascii * string * captures) :=
  match_re r p s [] (λ p s caps, Some (p, s, caps)).
Fixpoint find_re (r : re) (p : option ascii) (s : string) : option (option ascii * string * captures) :=
  match match_at r p s with
  | Some x => Some x
  | None => match s with String c s' => find_re r (Some c) s' | EmptyString => None end
  end.
(** [FindAllStringSubmatch], for an expression that does not match the empty string. *)
Fixpoint find_all (fuel : nat) (r : re) (p : option ascii) (s : string) : list captures :=
  match fuel with
  | O => []
  | S fuel => match find_re r p s with
              | Some (p', s', caps) => caps :: find_all fuel r p' s'
              | None => []
              end
  end.
Definition FindAll (r : re) (s : string) : list captures := find_all (S (String.length s)) r None s.
Definition MatchString (r : re) (s : string) : bool := bool_decide (is_Some (find_re r None s)).
(** The text of a group, empty when it took no part. *)
Definition group (n : nat) (caps : captures) : string :=
  match find (λ x, (x.1 =? n)%nat) caps with Some (_, t) => t | None => EmptyString end.

(** The positions of a text. *)
Inductive position (p : option ascii) (s : string) : option ascii → string → Prop :=
  | po_here : position p s p s
  | po_next p1 c s1 : position p s p1 (String c s1) → position p s (Some c) s1.

Lemma position_cons p c s p1 s1 : position (Some c) s p1 s1 → position p (String c s) p1 s1.
Proof. induction 1; [by eapply po_next, po_here|by eapply po_next]. Qed.
Lemma position_inv p s p1 s1 : position p s p1 s1 → (p1 = p ∧ s1 = s) ∨ ∃ c s0, s = String c s0 ∧ position (Some c) s0 p1 s1.
Proof.
  induction 1 as [|p1 c s1 H [[-> <-]|(c0 & s0 & -> & IH)]]; [by left|right; exists c, s1; split; [done|constructor]|].
  right. exists c0, s0. split; [done|]. by eapply po_next.
Qed.
Definition occurs (r : re) (p : option ascii) (s : string) : Prop := ∃ p1 s1 y, position p s p1 s1 ∧ matches r (p1, s1) y.

Lemma match_at_iff r p s : is_Some (match_at r p s) ↔ ∃ y, matches r (p, s) y.
Proof.
  unfold match_at. split.
  - intros [x Hx]. apply match_sound in Hx as (p' & s' & ? & Hm & _). eauto.
  - intros [[p' s'] Hm]. apply not_eq_None_Some. by eapply match_complete.
Qed.
Lemma find_iff r p s : is_Some (find_re r p s) ↔ occurs r p s.
Proof.
  revert p. induction s as [|c s IH]; intros p; cbn [find_re]; pose proof (match_at_iff r p) as Hm.
  - specialize (Hm EmptyString). destruct (match_at r p EmptyString) as [x|].
    + split; [intros _|by eauto]. destruct Hm as [[y Hy] _]; [eauto|]. exists p, EmptyString, y. split; [constructor|done].
    + split; [by intros []|]. intros (p1 & s1 & y & [[-> ->]|(? & ? & ? & _)]%position_inv & Hy); [|done]. apply Hm. eauto.
  - specialize (Hm (String c s)). destruct (match_at r p (String c s)) as [x|].
    + split; [intros _|by eauto]. destruct Hm as [[y Hy] _]; [eauto|]. exists p, (String c s), y. split; [constructor|done].
    + rewrite IH. split.
      * intros (p1 & s1 & y & Hp & Hy). exists p1, s1, y. split; [by apply position_cons|done].
      * intros (p1 & s1 & y & [[-> ->]|(c0 & s0 & [= <- <-] & Hp)]%position_inv & Hy); [|by exists p1, s1, y].
        destruct Hm as [_ Hm]. destruct Hm as [x Hx]; [eauto|done].
Qed.
(** Something is found exactly when the expression occurs. *)
Lemma FindAll_iff r s : FindAll r s ≠ [] ↔ occurs r None s.
Proof.
  rewrite <-find_iff. unfold FindAll. cbn [find_all]. destruct (find_re r None s) as [[[p' s'] caps]|]; split; [eauto|done|done|by intros []].
Qed.
Lemma MatchString_iff r s : MatchString r s = true ↔ occurs r None s.
Proof. unfold MatchString. by rewrite bool_decide_eq_true, find_iff. Qed.

(** The fuel is enough: a match that is not empty shortens the text. *)
Fixpoint consumes (r : re) : bool :=
  match r with
  | RByte _ => true
  | RSeq a b => consumes a || consumes b
  | RAlt a b => consumes a && consumes b
  | RCap _ a => consumes a
  | _ => false
  end.
Lemma matches_shortens r x y : matches r x y → (String.length y.2 ≤ String.length x.2)%nat ∧ (consumes r = true → String.length y.2 < String.length x.2)%nat.
Proof.
  induction 1; cbn in *; split; try lia; try done.
  - intros [?|?]%orb_true_iff; intuition lia.
  - intros [? ?]%andb_true_iff. intuition.
  - intros [? ?]%andb_true_iff. intuition.
  - intuition.
Qed.
Lemma find_shortens r p s p' s' caps : consumes r = true → find_re r p s = Some (p', s', caps) → (String.length s' < String.length s)%nat.
Proof.
  intros Hc. revert p. induction s as [|c s IH]; intros p; cbn [find_re].
  all: destruct (match_at r p _) as [x|] eqn:E.
  1, 3: intros [= ->]; unfold match_at in E; apply match_sound in E as (p1 & s1 & c1 & Hm & [= -> -> ->]);
    apply matches_shortens in Hm as [_ Hm]; by apply Hm.
  - done.
  - intros H%IH. cbn. lia.
Qed.
Lemma find_all_enough r n p s : consumes r = true → (String.length s < n)%nat → find_all (S n) r p s = find_all n r p s.
Proof.
  intros Hc. revert p s. induction n as [|n IH]; intros p s Hn; [lia|]. cbn [find_all]. destruct (find_re r p s) as [[[p' s'] caps]|] eqn:E; [|done].
  f_equal. apply find_shortens in E; [|done]. apply IH. lia.
Qed.

(** ** Every match

    [outs]: the ways to match at a place, in the order of preference; the first is the
    match.  [found]: the matches of a text from left to right, each at the first place at
    or after the end of the one before where there is one. *)

Fixpoint star_outs (greedy : bool) (f : ascii → bool) (p : option ascii) (s : string) : list (option ascii * string) :=
  let more := match s with String c s' => if f c then star_outs greedy f (Some c) s' else [] | EmptyString => [] end in
  if greedy then more ++ [(p, s)] else (p, s) :: more.
Fixpoint outs (r : re) (p : option ascii) (s : string) (caps : captures) : list (option ascii * string * captures) :=
  match r with
  | RByte f => match s with String c s' => if f c then [(Some c, s', caps)] else [] | EmptyString => [] end
  | RStar greedy f => (λ x, (x.1, x.2, caps)) <$> star_outs greedy f p s
  | RSeq a b => x ← outs a p s caps; outs b x.1.1 x.1.2 x.2
  | RAlt a b => outs a p s caps ++ outs b p s caps
  | ROpt a => outs a p s caps ++ [(p, s, caps)]
  | RBound => if xorb (word_at p) (word_at (head_str s)) then [(p, s, caps)] else []
  | RCap n a => (λ x, (x.1, (n, take_str (String.length s - String.length x.1.2) s) :: x.2)) <$> outs a p s caps
  | REps => [(p, s, caps)]
  end.
Inductive found (r : re) : option ascii → string → list captures → Prop :=
  | fo_match p s p' s' caps others ms :
      outs r p s [] = (p', s', caps) :: others → found r p' s' ms → found r p s (caps :: ms)
  | fo_skip p c s ms : outs r p (String c s) [] = [] → found r (Some c) s ms → found r p (String c s) ms
  | fo_end p : outs r p EmptyString [] = [] → found r p EmptyString [].

Lemma found_unique r p s ms ms' : found r p s ms → found r p s ms' → ms = ms'.
Proof.
  intros H. revert ms'. induction H as [p s p' s' caps others ms Ho _ IH|p c s ms Ho _ IH|p Ho]; intros ms' H'; inversion H'; subst; try congruence.
  - assert (p'0 = p' ∧ s'0 = s' ∧ caps0 = caps) as (-> & -> & ->) by (by split_and!; congruence). f_equal. auto.
  - auto.
Qed.

Definition first_some {A B} (k : A → option B) (l : list A) : option B := head (omap k l).
Lemma first_some_app {A B} (k : A → option B) l1 l2 :
  first_some k (l1 ++ l2) = match first_some k l1 with Some x => Some x | None => first_some k l2 end.
Proof. unfold first_some. rewrite omap_app. by destruct (omap k l1). Qed.
Lemma first_some_cons {A B} (k : A → option B) x l :
  first_some k (x :: l) = match k x with Some y => Some y | None => first_some k l end.
Proof. unfold first_some. cbn. by destruct (k x). Qed.
Lemma first_some_fmap {A B C} (g : C → A) (k : A → option B) l : first_some k (g <$> l) = first_some (k ∘ g) l.
Proof. induction l as [|x l IH]; [done|]. rewrite fmap_cons, !first_some_cons, IH. done. Qed.
Lemma first_some_bind {A B C} (g : C → list A) (k : A → option B) l : first_some k (l ≫= g) = first_some (λ x, first_some k (g x)) l.
Proof. induction l as [|x l IH]; [done|]. rewrite bind_cons, first_some_app, first_some_cons, IH. done. Qed.
Lemma first_some_ext {A B} (k k' : A → option B) l : (∀ x, k x = k' x) → first_some k l = first_some k' l.
Proof. intros H. induction l as [|x l IH]; [done|]. by rewrite !first_some_cons, H, IH. Qed.

Lemma star_outs_spec {R} g f p s (k : option ascii → string → option R) :
  star_match g f p s k = first_some (λ x, k x.1 x.2) (star_outs g f p s).
Proof.
  revert p. induction s as [|c s IH]; intros p; cbn [star_match star_outs]; destruct g.
  all: rewrite ?first_some_app, !first_some_cons; cbn; try destruct (f c); cbn; rewrite ?IH; try done; try by destruct (k p _).
Qed.
(** The matcher takes the first way that its continuation accepts. *)
Lemma match_outs {R} r p s caps (k : option ascii → string → captures → option R) :
  match_re r p s caps k = first_some (λ x, k x.1.1 x.1.2 x.2) (outs r p s caps).
Proof.
  revert p s caps k. induction r as [f|g f|a IHa b IHb|a IHa b IHb|a IHa| |n a IHa|]; intros p s caps k; cbn [match_re outs].
  - destruct s as [|c s]; [done|]. destruct (f c); [|done]. rewrite first_some_cons. cbn. by destruct (k _ _ _).
  - rewrite star_outs_spec, first_some_fmap. done.
  - rewrite first_some_bind, IHa. apply first_some_ext. intros x. by rewrite IHb.
  - by rewrite first_some_app, IHa, IHb.
  - rewrite first_some_app, IHa, first_some_cons. cbn. by destruct (first_some _ _), (k p s caps).
  - destruct (xorb _ _); [|done]. rewrite first_some_cons. cbn. by destruct (k p s caps).
  - rewrite first_some_fmap, IHa. done.
  - rewrite first_some_cons. cbn. by destruct (k p s caps).
Qed.
Lemma match_at_head r p s : match_at r p s = head (outs r p s []).
Proof.
  unfold match_at. rewrite match_outs. destruct (outs r p s []) as [|[[p' s'] caps] l]; [done|]. by rewrite first_some_cons.
Qed.

Lemma find_all_step r n p s x :
  match_at r p s = Some x → find_all (S n) r p s = x.2 :: find_all n r x.1.1 x.1.2.
Proof. intros H. destruct x as [[p' s'] caps]. cbn [find_all]. destruct s; cbn [find_re]; by rewrite H. Qed.
Lemma find_all_skip r n p c s : match_at r p (String c s) = None → find_all n r p (String c s) = find_all n r (Some c) s.
Proof. intros H. destruct n as [|n]; [done|]. cbn [find_all find_re]. by rewrite H. Qed.
Lemma match_at_shortens r p s x : consumes r = true → match_at r p s = Some x → (String.length x.1.2 < String.length s)%nat.
Proof.
  intros Hc Hx. destruct x as [[p' s'] caps]. apply (find_shortens r p s p' s' caps Hc). destruct s; cbn [find_re]; by rewrite Hx.
Qed.
Lemma outs_some r p s x : match_at r p s = Some x → ∃ others, outs r p s [] = (x.1.1, x.1.2, x.2) :: others.
Proof. rewrite match_at_head. destruct (outs r p s []) as [|[[p' s'] caps] l]; [done|]. intros [= <-]. eauto. Qed.
Lemma outs_none r p s : match_at r p s = None → outs r p s [] = [].
Proof. rewrite match_at_head. by destruct (outs r p s []). Qed.
(** All matches are found. *)
Lemma find_all_found r n p s : consumes r = true → (String.length s < n)%nat → found r p s (find_all n r p s).
Proof.
  intros Hc. revert p s. induction n as [|n IHn]; intros p s Hn; [lia|].
  assert (Hm : ∀ p s x, (String.length s < S n)%nat → match_at r p s = Some x → found r p s (find_all (S n) r p s)).
  { clear p s Hn. intros p s x Hn Hx. rewrite (find_all_step r n p s x Hx). destruct (outs_some r p s x Hx) as [others Ho].
    eapply fo_match; [exact Ho|]. apply IHn. pose proof (match_at_shortens r p s x Hc Hx). lia. }
  revert p Hn. induction s as [|c s IHs]; intros p Hn.
  - destruct (match_at r p EmptyString) as [x|] eqn:E; [by eapply Hm|].
    cbn [find_all find_re]. rewrite E. by apply fo_end, outs_none.
  - destruct (match_at r p (String c s)) as [x|] eqn:E; [by eapply Hm|].
    rewrite find_all_skip by done. apply fo_skip; [by apply outs_none|]. apply IHs. cbn in Hn. lia.
Qed.
Lemma FindAll_found r s : consumes r = true → found r None s (FindAll r s).
Proof. intros Hc. apply find_all_found; [done|lia]. Qed.
