(* ===== verification/GoFormat.v ===== *)
(** * Patterns, documents and timestamps

    What the hook system uses of the standard library: [path.Match], [json.Valid]
    with the compaction of a raw message, [strings.ToUpper] and [EqualFold] on ASCII,
    and the RFC 3339 rendering of a UTC time. *)

From S2P Require Import Prelude GoLib Json.
From Stdlib Require Import Ascii.

Definition ToUpper (s : string) : string :=
  map_str (λ c, let n := N_of_ascii c in
                if ((97 <=? n) && (n <=? 122))%N then ascii_of_N (n - 32) else c) s.
Definition EqualFold (a b : string) : bool := bool_decide (ToLower a = ToLower b).

(** [strings.ContainsAny] for a set of bytes. *)
Fixpoint ContainsAny (s : string) (set : list ascii) : bool :=
  match s with
  | EmptyString => false
  | String c s => bool_decide (c ∈ set) || ContainsAny s set
  end.
Fixpoint contains_byte (c : ascii) (s : string) : bool :=
  match s with EmptyString => false | String d s => Ascii.eqb c d || contains_byte c s end.

(** ** [path.Match] *)

(** [utf8.DecodeRuneInString]: the rune and its width. *)
Definition decode_rune (s : string) : N * nat :=
  match s with
  | EmptyString => (65533%N, O)
  | String a r =>
      if is_ascii a then (N_of_ascii a, 1%nat)
      else let low c := (N_of_ascii c - 128)%N in
           match utf8_len s, r with
           | 2%nat, String b _ => (((N_of_ascii a - 192) * 64 + low b)%N, 2%nat)
           | 3%nat, String b (String c _) => ((((N_of_ascii a - 224) * 64 + low b) * 64 + low c)%N, 3%nat)
           | 4%nat, String b (String c (String d _)) =>
               (((((N_of_ascii a - 240) * 64 + low b) * 64 + low c) * 64 + low d)%N, 4%nat)
           | _, _ => (65533%N, 1%nat)
           end
  end.

Fixpoint skip_stars (p : string) : bool * string :=
  match p with
  | String "*" p' => (true, (skip_stars p').2)
  | _ => (false, p)
  end.
(** The chunk up to the next star that is not in a character class. *)
Fixpoint scan_to_star (inrange : bool) (p : string) : string * string :=
  match p with
  | EmptyString => (EmptyString, EmptyString)
  | String c p' =>
      if Ascii.eqb c bslash then
        match p' with
        | String d p'' => let '(a, b) := scan_to_star inrange p'' in (String c (String d a), b)
        | EmptyString => (str1 c, EmptyString)
        end
      else if Ascii.eqb c "*" && negb inrange then (EmptyString, p)
      else
        let inrange := if Ascii.eqb c "[" then true else if Ascii.eqb c "]" then false else inrange in
        let '(a, b) := scan_to_star inrange p' in (String c a, b)
  end.
Definition scanChunk (p : string) : bool * string * string :=
  let '(star, p) := skip_stars p in
  let '(chunk, rest) := scan_to_star false p in (star, chunk, rest).

(** [None] is [ErrBadPattern]. *)
Definition getEsc (chunk : string) : option (N * string) :=
  match chunk with
  | EmptyString => None
  | String c r =>
      if Ascii.eqb c "-" || Ascii.eqb c "]" then None
      else
        let chunk := if Ascii.eqb c bslash then r else chunk in
        if bool_decide (chunk = EmptyString) then None
        else let '(rn, n) := decode_rune chunk in
             let nchunk := drop_str n chunk in
             if ((rn =? 65533)%N && (n =? 1)%nat) || bool_decide (nchunk = EmptyString) then None
             else Some (rn, nchunk)
  end.

(** The ranges of a class against a rune: whether one matched, and the rest of the
    chunk behind the bracket. *)
Fixpoint match_ranges (fuel : nat) (r : N) (first matched : bool) (chunk : string) : option (bool * string) :=
  match fuel with
  | O => None
  | S fuel =>
      match chunk, first with
      | String "]" chunk', false => Some (matched, chunk')
      | _, _ =>
          '(lo, chunk) ← getEsc chunk;
          '(hi, chunk) ← match chunk with String "-" chunk' => getEsc chunk' | _ => Some (lo, chunk) end;
          match_ranges fuel r false (matched || ((lo <=? r)%N && (r <=? hi)%N)) chunk
      end
  end.

(** [s] is [None] once the match has failed and the chunk is only checked. *)
Fixpoint matchChunk (fuel : nat) (chunk : string) (s : option string) : option (option string) :=
  match fuel, chunk with
  | _, EmptyString => Some s
  | O, _ => None
  | S fuel, String c chunk' =>
      let s := match s with Some EmptyString => None | _ => s end in
      let lit (d : ascii) (rest : string) :=
        matchChunk fuel rest
          (match s with Some (String x s') => if Ascii.eqb x d then Some s' else None | _ => None end) in
      if Ascii.eqb c "[" then
        let '(r, n) := match s with Some s => decode_rune s | None => (0%N, O) end in
        let '(neg, body) := match chunk' with String "^" b => (true, b) | _ => (false, chunk') end in
        '(m, rest) ← match_ranges (S (String.length body)) r true false body;
        matchChunk fuel rest (if Bool.eqb m neg then None else drop_str n <$> s)
      else if Ascii.eqb c "?" then
        matchChunk fuel chunk'
          (match s with Some s => if HasPrefix s "/" then None else Some (drop_str (decode_rune s).2 s) | None => None end)
      else if Ascii.eqb c bslash then
        match chunk' with EmptyString => None | String d rest => lit d rest end
      else lit c chunk'
  end.
Definition match_chunk (chunk : string) (s : option string) : option (option string) :=
  matchChunk (String.length chunk) chunk s.

(** Skipping bytes of the name, at most up to a slash, until the chunk matches. *)
Fixpoint match_skip (last : bool) (chunk name : string) : option (option string) :=
  match name with
  | EmptyString => Some None
  | String c name' =>
      if Ascii.eqb c "/" then Some None
      else match match_chunk chunk (Some name') with
           | None => None
           | Some (Some t) => if last && negb (bool_decide (t = EmptyString)) then match_skip last chunk name' else Some (Some t)
           | Some None => match_skip last chunk name'
           end
  end.
(** The rest of a pattern that has not matched: only its syntax is checked. *)
Fixpoint check_rest (fuel : nat) (p : string) : option bool :=
  match fuel, p with
  | _, EmptyString => Some false
  | O, _ => None
  | S fuel, _ => let '(_, chunk, rest) := scanChunk p in _ ← match_chunk chunk None; check_rest fuel rest
  end.
Fixpoint match_loop (fuel : nat) (p name : string) : option bool :=
  match fuel, p with
  | _, EmptyString => Some (bool_decide (name = EmptyString))
  | O, _ => None
  | S fuel, _ =>
      let '(star, chunk, rest) := scanChunk p in
      let last := bool_decide (rest = EmptyString) in
      if star && bool_decide (chunk = EmptyString) then Some (negb (contains_byte "/" name))
      else
        t ← match_chunk chunk (Some name);
        match t with
        | Some t =>
            if bool_decide (t = EmptyString) || negb last then match_loop fuel rest t
            else if star then
              t ← match_skip last chunk name;
              match t with Some t => match_loop fuel rest t | None => check_rest fuel rest end
            else check_rest fuel rest
        | None =>
            if star then
              t ← match_skip last chunk name;
              match t with Some t => match_loop fuel rest t | None => check_rest fuel rest end
            else check_rest fuel rest
        end
  end.
(** [path.Match]; every chunk takes at least one byte of the pattern, so its length
    is fuel enough. *)
Definition path_Match (pattern name : string) : option bool := match_loop (String.length pattern) pattern name.

(** ** [json.Valid] *)

Fixpoint json_digits (s : string) : string :=
  match s with String c r => if is_digit c then json_digits r else s | _ => s end.
Definition json_digits1 (s : string) : option string :=
  match s with String c r => if is_digit c then Some (json_digits r) else None | _ => None end.
Definition json_number (s : string) : option string :=
  let s := match s with String "-" r => r | _ => s end in
  s ← match s with String "0" r => Some r | _ => json_digits1 s end;
  s ← match s with String "." r => json_digits1 r | _ => Some s end;
  match s with
  | String c r =>
      if Ascii.eqb c "e" || Ascii.eqb c "E"
      then json_digits1 (match r with String d r' => if Ascii.eqb d "+" || Ascii.eqb d "-" then r' else r | _ => r end)
      else Some s
  | _ => Some s
  end.
(** A string behind its opening quote. *)
Fixpoint json_string (fuel : nat) (s : string) : option string :=
  match fuel, s with
  | S fuel, String c r =>
      if Ascii.eqb c dquote then Some r
      else if Ascii.eqb c bslash then
        match r with
        | String "u" r => '(_, r) ← get_u4 r; json_string fuel r
        | String d r => match unesc d with Some _ => json_string fuel r | None => None end
        | EmptyString => None
        end
      else if (N_of_ascii c <? 32)%N then None else json_string fuel r
  | _, _ => None
  end.
(** [depth] is the number of arrays and objects that may still be opened (the
    scanner allows ten thousand). *)
Fixpoint json_value (fuel : nat) (depth : N) (s : string) : option string :=
  match fuel with
  | O => None
  | S fuel =>
      let s := skip_ws s in
      match s with
      | EmptyString => None
      | String c r =>
          if Ascii.eqb c dquote then json_string fuel r
          else if Ascii.eqb c "[" then
            if (depth =? 0)%N then None
            else match skip_ws r with String "]" r' => Some r' | _ => json_elems fuel (depth - 1) r end
          else if Ascii.eqb c "{" then
            if (depth =? 0)%N then None
            else match skip_ws r with String "}" r' => Some r' | _ => json_members fuel (depth - 1) r end
          else if HasPrefix s "true" then Some (drop_str 4 s)
          else if HasPrefix s "false" then Some (drop_str 5 s)
          else if HasPrefix s "null" then Some (drop_str 4 s)
          else json_number s
      end
  end
with json_elems (fuel : nat) (depth : N) (s : string) : option string :=
  match fuel with
  | O => None
  | S fuel =>
      s ← json_value fuel depth s;
      match skip_ws s with
      | String "," r => json_elems fuel depth r
      | String "]" r => Some r
      | _ => None
      end
  end
with json_members (fuel : nat) (depth : N) (s : string) : option string :=
  match fuel with
  | O => None
  | S fuel =>
      match skip_ws s with
      | String q r =>
          if Ascii.eqb q dquote then
            r ← json_string fuel r;
            match skip_ws r with
            | String ":" r =>
                r ← json_value fuel depth r;
                match skip_ws r with
                | String "," r => json_members fuel depth r
                | String "}" r => Some r
                | _ => None
                end
            | _ => None
            end
          else None
      | _ => None
      end
  end.
(** Every recursive call, but the one from a value to its list of elements or
    members, is on a shorter text. *)
Definition json_Valid (s : string) : bool :=
  match json_value (S (S (2 * String.length s))) 10000 s with
  | Some r => bool_decide (skip_ws r = EmptyString)
  | None => false
  end.

(** The compaction of a valid document: blanks outside strings go, and the
    characters HTML could read are escaped. *)
Fixpoint json_compact (fuel : nat) (instr : bool) (s : string) : string :=
  match fuel, s with
  | S fuel, String c r =>
      if instr && Ascii.eqb c bslash then
        match r with String d r' => String c (String d (json_compact fuel instr r')) | _ => str1 c end
      else if negb instr && is_ws c then json_compact fuel instr r
      else if byte_is c 60 || byte_is c 62 || byte_is c 38 then esc_u00 c +:+ json_compact fuel instr r
      else if HasPrefix s (String (chr 226) (String (chr 128) (str1 (chr 168)))) then
        String bslash "u2028" +:+ json_compact fuel instr (drop_str 3 s)
      else if HasPrefix s (String (chr 226) (String (chr 128) (str1 (chr 169)))) then
        String bslash "u2029" +:+ json_compact fuel instr (drop_str 3 s)
      else String c (json_compact fuel (xorb instr (Ascii.eqb c dquote)) r)
  | _, _ => EmptyString
  end.
Definition json_Compact (s : string) : string := json_compact (String.length s) false s.

(** ** RFC 3339 *)

(** The civil date of a day counted from 1970-01-01. *)
Definition civil (days : Z) : Z * Z * Z :=
  let z := days + 719468 in
  let era := z / 146097 in
  let doe := z - era * 146097 in
  let yoe := (doe - doe / 1460 + doe / 36524 - doe / 146096) / 365 in
  let doy := doe - (365 * yoe + yoe / 4 - yoe / 100) in
  let mp := (5 * doy + 2) / 153 in
  let d := doy - (153 * mp + 2) / 5 + 1 in
  let m := if mp <? 10 then mp + 3 else mp - 9 in
  (yoe + era * 400 + (if m <=? 2 then 1 else 0), m, d).
Fixpoint zeros (n : nat) : string := match n with O => EmptyString | S n => String "0" (zeros n) end.
Definition pad (w : nat) (z : Z) : string := zeros (w - String.length (itoa z)) +:+ itoa z.
Fixpoint trim_zeros (s : string) : string :=
  match s with String "0" r => trim_zeros r | _ => s end.
(** Whole seconds, and the fraction without its trailing zeros. *)
Definition rfc3339 (ns : Z) : string :=
  let sec := ns / 1000000000 in
  let '(y, m, d) := civil (sec / 86400) in
  let t := sec mod 86400 in
  pad 4 y +:+ "-" +:+ pad 2 m +:+ "-" +:+ pad 2 d +:+ "T" +:+ pad 2 (t / 3600) +:+ ":" +:+ pad 2 (t / 60 mod 60) +:+ ":" +:+ pad 2 (t mod 60).
Definition RFC3339 (ns : Z) : string := rfc3339 ns +:+ "Z".
Definition RFC3339Nano (ns : Z) : string :=
  let frac := ns mod 1000000000 in
  rfc3339 ns
  +:+ (if frac =? 0 then EmptyString
       else String "." (rev_str (trim_zeros (rev_str (pad 9 frac) EmptyString)) EmptyString))
  +:+ "Z".

(** ** Evaluated samples *)

Example match_samples :
  (λ '(p, s), path_Match p s) <$>
    [("*", "owner"); ("*", "owner/repo"); ("owner/*", "owner/repo"); ("o*r/r?p[m-p]", "owner/repo");
     ("task_*", "task_claimed"); ("a*b*c", "aXbYbZc"); ("a*b", "a/b"); ("[^a]x", "bx"); ("[", "x"); ("[a-", "x"); ("a[", "b");
     ("a\*b", "a*b"); ("*.go", "x.go.go"); ("", "")]
  = [Some true; Some false; Some true; Some true; Some true; Some true; Some false; Some true; None; None; None;
     Some true; Some true; Some true].
Proof. by vm_compute. Qed.

Example rfc3339_samples :
  RFC3339Nano 0 = "1970-01-01T00:00:00Z" ∧ RFC3339Nano 1714521599120000000 = "2024-04-30T23:59:59.12Z" ∧
  RFC3339 951782400000000000 = "2000-02-29T00:00:00Z".
Proof. by vm_compute. Qed.

Definition quoted (s : string) : string := String dquote (s +:+ str1 dquote).
Example json_samples :
  json_Valid ("{" +:+ quoted "a" +:+ ": [1, -2.5e+3, true], " +:+ quoted "b" +:+ " : {}}") = true ∧
  json_Valid "[[[[]]]]" = true ∧ json_Valid "[1 2]" = false ∧ json_Valid "01" = false ∧ json_Valid "nul" = false ∧
  json_Compact ("{" +:+ quoted "a b" +:+ " : 1 }") = "{" +:+ quoted "a b" +:+ ":1}".
Proof. by vm_compute. Qed.
