(* ===== verification/Control.v ===== *)
(** * The agent control loop

    [internal/control]: after each run of an agent the world is observed and
    compared with the objective of the workflow state; the controller completes,
    blocks, or resumes the agent's session with the gap as feedback.

    The agent and the observer (the [gh] command line) are parameters that act on
    a state of their own. *)

From S2P Require Import Prelude GoLib Json GoText.

Inductive Action := ActionResume | ActionBlock | ActionComplete.
#[export] Instance Action_eq_dec : EqDecision Action.
Proof. solve_decision. Defined.

Record Objective := mkObjective {
  ob_BranchPushed : bool;
  ob_PROpen : bool;
  ob_LabelTarget : string;
  ob_LabelNotEqual : string;
  ob_IssueCommented : bool
}.
Definition DevObjective : Objective := mkObjective true true "status:reviewing" EmptyString true.
Definition ReviewObjective : Objective := mkObjective false false EmptyString "status:reviewing" true.
Definition MergeObjective : Objective := mkObjective false false "status:merged" EmptyString false.

Record Observation := mkObservation {
  os_BranchPushed : bool;
  os_PROpen : bool;
  os_PRNumber : Z;
  os_LabelCurrent : string;
  os_IssueCommented : bool
}.

Record Delta := mkDelta {
  dl_Missing : list string;
  dl_Met : list string;
  dl_AllMet : bool
}.

(** One condition of the objective: its text when it is met or missing. *)
Definition condition (wanted met : bool) (ok ko : string) : list string * list string :=
  if wanted then if met then ([], [ok]) else ([ko], []) else ([], []).

Definition is_empty (s : string) : bool := bool_decide (s = EmptyString).
Definition label_is (a b : string) : bool := bool_decide (a = b).

Definition Feedback (obj : Objective) (obs : Observation) : Delta :=
  let label := os_LabelCurrent obs in
  let cs :=
    [condition (ob_BranchPushed obj) (os_BranchPushed obs) "branch pushed" "branch not pushed";
     condition (ob_PROpen obj) (os_PROpen obs) ("PR open (#" +:+ itoa (os_PRNumber obs) +:+ ")") "PR not open";
     condition (negb (is_empty (ob_LabelTarget obj))) (label_is label (ob_LabelTarget obj))
       ("label is " +:+ label) ("label is " +:+ Quote label +:+ ", want " +:+ Quote (ob_LabelTarget obj));
     condition (negb (is_empty (ob_LabelNotEqual obj)))
       (negb (label_is label (ob_LabelNotEqual obj)) && negb (is_empty label))
       ("label moved from " +:+ ob_LabelNotEqual obj +:+ " to " +:+ label)
       ("label is still " +:+ Quote label +:+ ", want any other status");
     condition (ob_IssueCommented obj) (os_IssueCommented obs) "issue commented" "no comment posted on issue"] in
  let missing := mjoin cs.*1 in
  mkDelta missing (mjoin cs.*2) (bool_decide (missing = [])).

Definition newline_str : string := str1 (chr 10).
Definition Message (d : Delta) (repo : string) (issueNum : Z) (branch : string) : string :=
  "Post-condition check for " +:+ repo +:+ "#" +:+ itoa issueNum +:+ " (branch " +:+ branch +:+ "):" +:+ newline_str
  +:+ join_str EmptyString ((λ m, "  [ok] " +:+ m +:+ newline_str) <$> dl_Met d)
  +:+ join_str EmptyString ((λ m, "  [MISSING] " +:+ m +:+ newline_str) <$> dl_Missing d)
  +:+ (if bool_decide (dl_Missing d = []) then EmptyString
       else newline_str +:+ "Please address the missing conditions above.").

Record CtlDecision := mkCtlDecision {
  cd_Action : Action;
  cd_Message : string;
  cd_Round : Z
}.

Definition sameUnmet (a b : Delta) : bool :=
  (length (dl_Missing a) =? length (dl_Missing b))%nat
  && bool_decide (sort_strings (dl_Missing a) = sort_strings (dl_Missing b)).

(** [Controller.MaxRounds] with its default. *)
Definition max_rounds (maxRounds : Z) : Z := if maxRounds <=? 0 then 5 else maxRounds.

Definition Decide (maxRounds : Z) (delta : Delta) (round : Z) (prevDelta : option Delta) : CtlDecision :=
  if dl_AllMet delta then mkCtlDecision ActionComplete EmptyString round
  else if max_rounds maxRounds <=? round then
    mkCtlDecision ActionBlock ("exhausted " +:+ itoa round +:+ " control rounds; unmet: "
                               +:+ join_str ", " (dl_Missing delta)) round
  else if match prevDelta with Some p => sameUnmet delta p | None => false end && (3 <=? round) then
    mkCtlDecision ActionBlock ("stuck: same conditions unmet for " +:+ itoa round +:+ " rounds: "
                               +:+ join_str ", " (dl_Missing delta)) round
  else mkCtlDecision ActionResume EmptyString round.

Record LoopConfig := mkLoop {
  lc_MaxRounds : Z;
  lc_Repo : string;
  lc_IssueNum : Z;
  lc_Branch : string;
  lc_Objective : Objective
}.

(** The final message is the controller's, or the text of an error. *)
Record LoopResult := mkLoopResult {
  lr_Action : Action;
  lr_Rounds : Z;
  lr_Message : string + error;
  lr_Deltas : list Delta
}.

Section loop.
Context {S : Type} (runAgent : string → string → St S (res string)) (Observe : St S (res Observation)).
Context (cfg : LoopConfig).

(** The loop from [round] on; [None] when the fuel is used up. *)
Fixpoint run_rounds (fuel : nat) (round : Z) (prevDelta : option Delta) (sessionID : string) (deltas : list Delta) :
    St S (option (LoopResult * option error)) :=
  match fuel with
  | O => mret None
  | Datatypes.S fuel =>
      let prompt := match prevDelta with
                    | Some d => if 0 <? round then Message d (lc_Repo cfg) (lc_IssueNum cfg) (lc_Branch cfg) else EmptyString
                    | None => EmptyString
                    end in
      let fail e := mret (Some (mkLoopResult ActionBlock (round + 1) (inr e) deltas, Some e)) in
      r ← (if round =? 0 then runAgent EmptyString EmptyString else runAgent prompt sessionID);
      match r with
      | Err e => fail e
      | Ok sessionID =>
          o ← Observe;
          match o with
          | Err e => fail e
          | Ok obs =>
              let delta := Feedback (lc_Objective cfg) obs in
              let deltas := deltas ++ [delta] in
              let decision := Decide (lc_MaxRounds cfg) delta (round + 1) prevDelta in
              if bool_decide (cd_Action decision = ActionResume)
              then run_rounds fuel (round + 1) (Some delta) sessionID deltas
              else mret (Some (mkLoopResult (cd_Action decision) (round + 1) (inl (cd_Message decision)) deltas, None))
          end
      end
  end.

(** The controller never resumes after its last round. *)
Definition Run : St S (option (LoopResult * option error)) :=
  run_rounds (Z.to_nat (max_rounds (lc_MaxRounds cfg))) 0 None EmptyString [].
End loop.

(** ** What the feedback says *)

(** The objective holds of an observation. *)
Definition satisfied (obj : Objective) (obs : Observation) : Prop :=
  (ob_BranchPushed obj = true → os_BranchPushed obs = true) ∧
  (ob_PROpen obj = true → os_PROpen obs = true) ∧
  (ob_LabelTarget obj ≠ EmptyString → os_LabelCurrent obs = ob_LabelTarget obj) ∧
  (ob_LabelNotEqual obj ≠ EmptyString → os_LabelCurrent obs ≠ ob_LabelNotEqual obj ∧ os_LabelCurrent obs ≠ EmptyString) ∧
  (ob_IssueCommented obj = true → os_IssueCommented obs = true).

Lemma condition_missing w m ok ko : (condition w m ok ko).1 = [] ↔ (w = true → m = true).
Proof. unfold condition. destruct w, m; simpl; split; intros; try done; exfalso; by eapply diff_false_true; auto. Qed.

Lemma feedback_all_met obj obs : dl_AllMet (Feedback obj obs) = true ↔ satisfied obj obs.
Proof.
  unfold Feedback, satisfied. cbn [dl_AllMet]. rewrite bool_decide_eq_true. cbn [fmap list_fmap mjoin list_join].
  rewrite !app_nil, !condition_missing. unfold is_empty, label_is.
  rewrite !andb_true_iff, !negb_true_iff, !bool_decide_eq_false, !bool_decide_eq_true. tauto.
Qed.

#[export] Instance str_le_trans : Transitive str_le.
Proof. intros a b c. apply leb_trans. Qed.
#[export] Instance str_le_total : Total str_le.
Proof. intros a b. apply String.leb_total. Qed.
#[export] Instance str_le_antisym : AntiSymm (=) str_le.
Proof. intros a b. apply String.leb_antisym. Qed.

Lemma sort_strings_unique a b : sort_strings a = sort_strings b ↔ a ≡ₚ b.
Proof.
  split; intros H.
  - rewrite <-(sort_strings_perm a), <-(sort_strings_perm b). by rewrite H.
  - unfold sort_strings. apply (Sorted_unique str_le); [apply Sorted_merge_sort, _..|].
    by rewrite !merge_sort_Permutation.
Qed.

(** [sameUnmet] compares the unmet conditions as multisets. *)
Lemma same_unmet_perm a b : sameUnmet a b = true ↔ dl_Missing a ≡ₚ dl_Missing b.
Proof.
  unfold sameUnmet. rewrite andb_true_iff, bool_decide_eq_true, sort_strings_unique. split; [by intros [_ ?]|].
  intros H. split; [|done]. apply Nat.eqb_eq. by apply Permutation_length.
Qed.

(** ** The loop ends *)

Lemma max_rounds_pos m : 1 ≤ max_rounds m.
Proof. unfold max_rounds. destruct (Z.leb_spec m 0); lia. Qed.

(** What the controller decides, by case. *)
Lemma decide_cases m obj obs round ds :
  let d := Feedback obj obs in
  match cd_Action (Decide m d round (last ds)) with
  | ActionResume => dl_AllMet d = false ∧ round < max_rounds m
  | ActionComplete => satisfied obj obs
  | ActionBlock => ¬ satisfied obj obs ∧
      (max_rounds m ≤ round ∨ 3 ≤ round ∧ ∃ p, last ds = Some p ∧ dl_Missing d ≡ₚ dl_Missing p)
  end.
Proof.
  cbv zeta. unfold Decide. destruct (dl_AllMet (Feedback obj obs)) eqn:Hm; cbn [cd_Action].
  { by apply feedback_all_met. }
  assert (¬ satisfied obj obs) as Hn by (rewrite <-feedback_all_met; congruence).
  destruct (Z.leb_spec (max_rounds m) round); cbn [cd_Action]; [by split; [|left]|].
  destruct (last ds) as [p|] eqn:Hl; cbn [andb]; [|done].
  destruct (sameUnmet _ p) eqn:Hs; cbn [andb]; [|done].
  destruct (Z.leb_spec 3 round); cbn [cd_Action]; [|done].
  apply same_unmet_perm in Hs. split; [done|]. right. eauto.
Qed.

Section rounds.
Context {S : Type} (runAgent : string → string → St S (res string)) (Observe : St S (res Observation)) (cfg : LoopConfig).
#[local] Abbreviation obj := (lc_Objective cfg).

(** What the agent is told after the observations [h]. *)
Definition prompt_after (h : list Observation) : string :=
  match last h with
  | Some obs => Message (Feedback obj obs) (lc_Repo cfg) (lc_IssueNum cfg) (lc_Branch cfg)
  | None => EmptyString
  end.
(** Rounds in which the agent and the observer answered: the observations that were made,
    and the session that is resumed next. *)
Inductive played (s : S) : list Observation → string → S → Prop :=
  | pl_start : played s [] EmptyString s
  | pl_round h sid s1 sid' s2 obs s3 :
      played s h sid s1 → runAgent (prompt_after h) sid s1 = (Ok sid', s2) → Observe s2 = (Ok obs, s3) → played s (h ++ [obs]) sid' s3.
(** A round in which one of them returned an error. *)
Definition failed_round (h : list Observation) (sid : string) (s1 : S) (e : error) (s' : S) : Prop :=
  runAgent (prompt_after h) sid s1 = (Err e, s') ∨
  ∃ sid' s2, runAgent (prompt_after h) sid s1 = (Ok sid', s2) ∧ Observe s2 = (Err e, s').

(** How a run of the loop ends: with the error of the agent or the observer, or
    with a decision on the last observation. *)
Definition loop_end (s : S) (res : LoopResult) (err : option error) (s' : S) : Prop :=
  let M := max_rounds (lc_MaxRounds cfg) in
  (1 ≤ lr_Rounds res ≤ M) ∧
  ∃ h sid s1, played s h sid s1 ∧ lr_Deltas res = Feedback obj <$> h ∧
  match err with
  | Some e => failed_round h sid s1 e s' ∧ lr_Action res = ActionBlock ∧ lr_Message res = inr e ∧
      Z.of_nat (length h) = lr_Rounds res - 1 ∧ Forall (λ o, ¬ satisfied obj o) h
  | None => s' = s1 ∧ ∃ h0 obs, h = h0 ++ [obs] ∧ Z.of_nat (length h) = lr_Rounds res ∧ Forall (λ o, ¬ satisfied obj o) h0 ∧
      match lr_Action res with
      | ActionResume => False
      | ActionComplete => satisfied obj obs
      | ActionBlock => ¬ satisfied obj obs ∧
          (lr_Rounds res = M ∨
           3 ≤ lr_Rounds res ∧ ∃ p, last h0 = Some p ∧ dl_Missing (Feedback obj obs) ≡ₚ dl_Missing (Feedback obj p))
      end
  end.

Lemma last_feedback h : last (Feedback obj <$> h) = Feedback obj <$> last h.
Proof. induction h as [|o h _] using rev_ind; [done|]. rewrite last_snoc, fmap_app. apply last_snoc. Qed.
Lemma unmet obs : dl_AllMet (Feedback obj obs) = false → ¬ satisfied obj obs.
Proof. rewrite <-feedback_all_met. congruence. Qed.

(** The agent is called with the prompt of the round. *)
Lemma round_call s h sid s1 : played s h sid s1 →
  (if Z.of_nat (length h) =? 0 then runAgent EmptyString EmptyString
   else runAgent (match last (Feedback obj <$> h) with
                  | Some d => if 0 <? Z.of_nat (length h) then Message d (lc_Repo cfg) (lc_IssueNum cfg) (lc_Branch cfg) else EmptyString
                  | None => EmptyString
                  end) sid) = runAgent (prompt_after h) sid.
Proof.
  intros Hp. rewrite last_feedback. unfold prompt_after. destruct h as [|o h].
  { inversion Hp; subst; [done|]. match goal with H : _ ++ [_] = [] |- _ => by apply app_nil in H as [_ ?] end. }
  destruct (Z.eqb_spec (Z.of_nat (length (o :: h))) 0) as [H0|_]; [cbn in H0; lia|].
  destruct (Z.ltb_spec 0 (Z.of_nat (length (o :: h)))) as [_|H0]; [|cbn in H0; lia]. by destruct (last (o :: h)).
Qed.

Lemma run_rounds_end s fuel h sid s1 :
  Z.of_nat fuel = max_rounds (lc_MaxRounds cfg) - Z.of_nat (length h) → Z.of_nat (length h) < max_rounds (lc_MaxRounds cfg) →
  played s h sid s1 → Forall (λ o, ¬ satisfied obj o) h →
  ∃ res err s',
    run_rounds runAgent Observe cfg fuel (Z.of_nat (length h)) (last (Feedback obj <$> h)) sid (Feedback obj <$> h) s1 = (Some (res, err), s') ∧
    loop_end s res err s'.
Proof.
  revert h sid s1. induction fuel as [|fuel IH]; intros h sid s1 Hf Hr Hp Hh; [lia|].
  cbn [run_rounds]. rewrite (round_call _ _ _ _ Hp). unfold mbind, St_bind.
  destruct (runAgent (prompt_after h) sid s1) as [[sid'|e] s2] eqn:Ha; cbn [fst snd].
  2: { eexists _, _, _. split; [done|]. split; cbn; [lia|]. exists h, sid, s1. split_and!; [done|done|by left|done|done|lia|done]. }
  destruct (Observe s2) as [[obs|e] s3] eqn:Ho; cbn [fst snd].
  2: { eexists _, _, _. split; [done|]. split; cbn; [lia|]. exists h, sid, s1. split_and!; [done|done|right; eauto|done|done|lia|done]. }
  assert (played s (h ++ [obs]) sid' s3) as Hp' by by econstructor.
  assert (Z.of_nat (length h) + 1 = Z.of_nat (length (h ++ [obs]))) as Hlen by (rewrite length_app; simpl; lia).
  assert ((Feedback obj <$> h) ++ [Feedback obj obs] = Feedback obj <$> h ++ [obs]) as Hds by by rewrite fmap_app.
  pose proof (decide_cases (lc_MaxRounds cfg) obj obs (Z.of_nat (length h) + 1) (Feedback obj <$> h)) as Hd. cbv zeta in Hd. rewrite Hds.
  destruct (cd_Action (Decide _ (Feedback obj obs) _ _)) eqn:Hact; [rewrite bool_decide_eq_true_2 by done|rewrite bool_decide_eq_false_2 by done..].
  - destruct Hd as [Hm Hlt]. rewrite Hlen. destruct (IH (h ++ [obs]) sid' s3) as (res & err & s' & Hrun & Hend); [lia|lia|done| |].
    + apply Forall_app. split; [done|]. apply Forall_singleton. by apply unmet.
    + rewrite last_feedback, last_snoc in Hrun. eauto 10.
  - eexists _, _, _. split; [done|]. split; cbn; [lia|]. exists (h ++ [obs]), sid', s3. split_and!; [done|done|done|].
    exists h, obs. split_and!; [done|lia|done|apply Hd|]. destruct Hd as [_ [?|(H3 & p & Hl & Hs)]]; [left; lia|right]. split; [done|].
    rewrite last_feedback in Hl. apply fmap_Some in Hl as (o & Hl & ->). by exists o.
  - eexists _, _, _. split; [done|]. split; cbn; [lia|]. exists (h ++ [obs]), sid', s3. split_and!; [done|done|done|].
    exists h, obs. by split_and!; [done|lia|done|].
Qed.
End rounds.

(** C37: The control loop always ends, whatever the agent and the observer do: after
    between one and [MaxRounds] rounds (five by default) it returns.  The rounds follow one
    another: each runs the agent, the first without a prompt and every other in the session
    it returned with the gap of the last observation, and then observes.  It stops blocked
    with an error exactly when the agent or the observer returned that error in the last
    round; otherwise complete exactly when the last observation satisfies the objective,
    or blocked because the rounds are used up or because two observations in a row, the
    third or later, left the same conditions unmet; no earlier observation satisfied it. *)
Theorem control_loop_terminates {S} (runAgent : string → string → St S (res string)) Observe cfg s :
  ∃ res err s', Run runAgent Observe cfg s = (Some (res, err), s') ∧ loop_end runAgent Observe cfg s res err s'.
Proof.
  pose proof (max_rounds_pos (lc_MaxRounds cfg)). unfold Run.
  apply (run_rounds_end runAgent Observe cfg s _ [] EmptyString s); [cbn; lia|cbn; lia|constructor|constructor].
Qed.
