(* ===== verification/Bus.v ===== *)
(** * The alert bus and the task notification hub

    [internal/alertbus] and [internal/tasknotify] are one design: subscribers with
    a buffered channel each, and a publisher that never blocks.  They differ in the
    event type and the buffer size, which are parameters here.  [app/task_hub.go]
    is the consumer of the hub.

    [Publish] and [Unsubscribe] hold the lock only while they read or change the
    table of subscribers; sends and the closing of a channel come after.  The step
    relation keeps the two halves apart, as goroutines interleave them. *)

From S2P Require Import Prelude GoLib.

(** A channel; [ch_received] is what its consumer has taken, [ch_offered] every
    event [Publish] tried to put into it, in order. *)
Record Chan (A : Type) := mkChan {
  ch_buf : list A;
  ch_closed : bool;
  ch_received : list A;
  ch_offered : list A
}.
Arguments mkChan {A}.
Arguments ch_buf {A}.
Arguments ch_closed {A}.
Arguments ch_received {A}.
Arguments ch_offered {A}.

(** The bus, the channels by subscription id, the publishers that have taken
    their snapshot ([bs_sending]: the event and the ids still to serve) and the
    unsubscriptions that have left the table and not yet closed their channel. *)
Record Bus (A : Type) := mkBus {
  bs_nextID : Z;
  bs_subscribers : gset Z;
  bs_chans : gmap Z (Chan A);
  bs_sending : list (A * list Z);
  bs_closing : list Z;
  bs_panicked : bool
}.
Arguments mkBus {A}.
Arguments bs_nextID {A}.
Arguments bs_subscribers {A}.
Arguments bs_chans {A}.
Arguments bs_sending {A}.
Arguments bs_closing {A}.
Arguments bs_panicked {A}.

(** The sizes of [NewBus] and [NewHub]. *)
Definition NewBus_buffer (buffer : Z) : nat := Z.to_nat (if buffer <=? 0 then 64 else buffer).
Definition NewHub_buffer : nat := 1.

Section bus.
Context {A : Type} (cap : nat).

Definition NewBus : Bus A := mkBus 0 ∅ ∅ [] [] false.

Definition Subscribe (b : Bus A) : Z * Bus A :=
  let id := bs_nextID b + 1 in
  (id, mkBus id ({[id]} ∪ bs_subscribers b) (<[id := mkChan [] false [] []]> (bs_chans b))
         (bs_sending b) (bs_closing b) (bs_panicked b)).

(** [Unsubscribe]: the part under the lock, and the closing of the channel. *)
Definition unsubscribe_remove (id : Z) (b : Bus A) : Bus A :=
  if bool_decide (id ∈ bs_subscribers b)
  then mkBus (bs_nextID b) (bs_subscribers b ∖ {[id]}) (bs_chans b) (bs_sending b) (bs_closing b ++ [id]) (bs_panicked b)
  else b.
Definition close_chan (id : Z) (b : Bus A) : Bus A :=
  mkBus (bs_nextID b) (bs_subscribers b)
    (alter (λ c, mkChan (ch_buf c) true (ch_received c) (ch_offered c)) id (bs_chans b))
    (bs_sending b) (List.filter (λ i, negb (i =? id)) (bs_closing b)) (bs_panicked b).

(** [Publish]: the snapshot, in any order, and one send. *)
Definition publish_snapshot (ev : A) (ids : list Z) (b : Bus A) : Bus A :=
  mkBus (bs_nextID b) (bs_subscribers b) (bs_chans b) (bs_sending b ++ [(ev, ids)]) (bs_closing b) (bs_panicked b).
Definition offer (ev : A) (c : Chan A) : Chan A :=
  mkChan (if (length (ch_buf c) <? cap)%nat then ch_buf c ++ [ev] else ch_buf c) (ch_closed c) (ch_received c)
    (ch_offered c ++ [ev]).
(** [select { case ch <- event: default: }]; a send on a closed channel panics. *)
Definition send_one (ev : A) (id : Z) (b : Bus A) : Bus A :=
  match bs_chans b !! id with
  | Some c =>
      if ch_closed c then mkBus (bs_nextID b) (bs_subscribers b) (bs_chans b) (bs_sending b) (bs_closing b) true
      else mkBus (bs_nextID b) (bs_subscribers b) (<[id := offer ev c]> (bs_chans b)) (bs_sending b) (bs_closing b) (bs_panicked b)
  | None => b
  end.
Definition set_sending (l : list (A * list Z)) (b : Bus A) : Bus A :=
  mkBus (bs_nextID b) (bs_subscribers b) (bs_chans b) l (bs_closing b) (bs_panicked b).

(** The consumer takes an event. *)
Definition receive (id : Z) (b : Bus A) : Bus A :=
  mkBus (bs_nextID b) (bs_subscribers b)
    (alter (λ c, match ch_buf c with
                 | [] => c
                 | ev :: buf => mkChan buf (ch_closed c) (ch_received c ++ [ev]) (ch_offered c)
                 end) id (bs_chans b))
    (bs_sending b) (bs_closing b) (bs_panicked b).

Inductive bus_step (b : Bus A) : Bus A → Prop :=
  | bu_subscribe : bus_step b (Subscribe b).2
  | bu_unsubscribe id : bus_step b (unsubscribe_remove id b)
  | bu_close id : id ∈ bs_closing b → bus_step b (close_chan id b)
  | bu_publish ev ids : ids ≡ₚ elements (bs_subscribers b) → bus_step b (publish_snapshot ev ids b)
  | bu_send l1 ev id ids l2 :
      bs_sending b = l1 ++ (ev, id :: ids) :: l2 → bus_step b (set_sending (l1 ++ (ev, ids) :: l2) (send_one ev id b))
  | bu_sent l1 ev l2 : bs_sending b = l1 ++ (ev, []) :: l2 → bus_step b (set_sending (l1 ++ l2) b)
  | bu_receive id : bus_step b (receive id b).

(** The whole of [Publish], when nothing happens in between. *)
Definition Publish (ev : A) (ids : list Z) (b : Bus A) : Bus A := foldl (λ b id, send_one ev id b) b ids.
End bus.

(** ** What a subscriber sees *)

(** A channel holds what was offered, in order, less what found it full. *)
Record chan_ok {A} (cap : nat) (c : Chan A) : Prop := {
  cc_bound : (length (ch_buf c) ≤ cap)%nat;
  cc_fifo : (ch_received c ++ ch_buf c) `sublist_of` ch_offered c
}.

Record bus_ok {A} (cap : nat) (b : Bus A) : Prop := {
  bo_chans : map_Forall (λ _ c, chan_ok cap c) (bs_chans b);
  bo_ids : ∀ id, id ∈ bs_subscribers b ∨ is_Some (bs_chans b !! id) → id ≤ bs_nextID b;
  bo_subs : ∀ id, id ∈ bs_subscribers b → ∃ c, bs_chans b !! id = Some c ∧ ch_closed c = false;
  bo_closing : ∀ id, id ∈ bs_closing b → id ∉ bs_subscribers b ∧ is_Some (bs_chans b !! id)
}.

Section delivery.
Context {A : Type} (cap : nat).
Implicit Types (b : Bus A) (c : Chan A).

Lemma offer_ok ev c : chan_ok cap c → chan_ok cap (offer cap ev c).
Proof.
  intros [Hb Hf]. unfold offer. destruct (Nat.ltb_spec (length (ch_buf c)) cap); split; cbn.
  - rewrite length_app. simpl. lia.
  - rewrite app_assoc. by apply sublist_app.
  - done.
  - by apply sublist_inserts_r.
Qed.

Lemma take_ok c :
  chan_ok cap c →
  chan_ok cap (match ch_buf c with [] => c | ev :: buf => mkChan buf (ch_closed c) (ch_received c ++ [ev]) (ch_offered c) end).
Proof.
  intros [Hb Hf]. destruct (ch_buf c) as [|ev buf] eqn:E; [by split; rewrite E|]. split; cbn.
  - simpl in Hb. lia.
  - by rewrite <-app_assoc.
Qed.
Lemma close_ok c : chan_ok cap c → chan_ok cap (mkChan (ch_buf c) true (ch_received c) (ch_offered c)).
Proof. by intros [Hb Hf]. Qed.

Lemma alter_ok (f : Chan A → Chan A) id (m : gmap Z (Chan A)) :
  (∀ c, chan_ok cap c → chan_ok cap (f c)) →
  map_Forall (λ _ c, chan_ok cap c) m → map_Forall (λ _ c, chan_ok cap c) (alter f id m).
Proof.
  intros Hf Hm i c. destruct (decide (id = i)) as [<-|Hne].
  - rewrite lookup_alter_eq. intros (c' & Hc & ->)%fmap_Some. apply Hf. by eapply Hm.
  - rewrite lookup_alter_ne by done. apply Hm.
Qed.

(** Changing one channel and no table entry. *)
Lemma bus_ok_alter b b' (f : Chan A → Chan A) id :
  bus_ok cap b → bs_nextID b' = bs_nextID b → bs_subscribers b' = bs_subscribers b →
  (∀ i, i ∈ bs_closing b' → i ∈ bs_closing b) → bs_chans b' = alter f id (bs_chans b) →
  (∀ c, chan_ok cap c → chan_ok cap (f c)) →
  (id ∈ bs_subscribers b → ∀ c, ch_closed c = false → ch_closed (f c) = false) → bus_ok cap b'.
Proof.
  intros [Hc Hi Hs Hcl] Hn Hsub Hclo Hch Hf Hopen. split.
  - rewrite Hch. by apply alter_ok.
  - intros i. rewrite Hn, Hsub, Hch, lookup_alter_is_Some. apply Hi.
  - intros i Hi'. rewrite Hsub in Hi'. destruct (Hs i Hi') as (c & Hci & Ho). rewrite Hch.
    destruct (decide (id = i)) as [<-|Hne].
    + rewrite lookup_alter_eq, Hci. simpl. eauto.
    + rewrite lookup_alter_ne by done. eauto.
  - intros i Hin. rewrite Hsub, Hch, lookup_alter_is_Some. by apply Hcl, Hclo.
Qed.

Lemma bus_ok_same b b' :
  bus_ok cap b → bs_nextID b' = bs_nextID b → bs_subscribers b' = bs_subscribers b →
  bs_closing b' = bs_closing b → bs_chans b' = bs_chans b → bus_ok cap b'.
Proof. intros [Hc Hi Hs Hcl] H1 H2 H3 H4. split; rewrite ?H1, ?H2, ?H3, ?H4; done. Qed.

Lemma send_ok ev id b l : bus_ok cap b → bus_ok cap (set_sending l (send_one cap ev id b)).
Proof.
  intros Hb. unfold send_one. destruct (bs_chans b !! id) as [c|] eqn:E; [|by eapply bus_ok_same].
  destruct (ch_closed c) eqn:Ec; [by eapply bus_ok_same|].
  eapply (bus_ok_alter b _ (offer cap ev) id); try done; cbn.
  - symmetry. by apply alter_alt_Some.
  - intros c'. apply offer_ok.
Qed.
Lemma bus_step_ok b b' : bus_step cap b b' → bus_ok cap b → bus_ok cap b'.
Proof.
  intros [|id|id Hid|ev ids Hids|l1 ev id ids l2 Hl|l1 ev l2 Hl|id] Hb.
  - destruct Hb as [Hc Hi Hs Hcl]. unfold Subscribe. split; cbn.
    + apply map_Forall_insert_2; [|done]. split; cbn; [lia|constructor].
    + intros i Hin. destruct (decide (i = bs_nextID b + 1)) as [->|Hne]; [lia|].
      rewrite lookup_insert_ne in Hin by done. assert (i ≤ bs_nextID b); [|lia]. apply Hi. set_solver.
    + intros i Hin. destruct (decide (i = bs_nextID b + 1)) as [->|Hne]; [rewrite lookup_insert_eq; eauto|].
      rewrite lookup_insert_ne by done. apply Hs. set_solver.
    + intros i Hin. destruct (Hcl i Hin) as [H1 H2]. assert (i ≤ bs_nextID b) by auto.
      split; [set_solver by lia|]. by apply lookup_insert_is_Some'; right.
  - unfold unsubscribe_remove. case_bool_decide as Hid; [|done]. destruct Hb as [Hc Hi Hs Hcl]. split; cbn.
    + done.
    + intros i Hin. apply Hi. set_solver.
    + intros i Hin. apply Hs. set_solver.
    + intros i [Hin|Hin%list_elem_of_singleton]%elem_of_app.
      * destruct (Hcl i Hin). set_solver.
      * subst i. destruct (Hs id Hid) as (c & -> & _). split; [set_solver|eauto].
  - destruct (bo_closing _ _ Hb id Hid) as [Hns _]. eapply (bus_ok_alter b _ _ id); try done; cbn.
    + intros i. rewrite list_elem_of_In. intros [H _]%filter_In. by apply list_elem_of_In.
    + apply close_ok.
  - by eapply bus_ok_same.
  - by apply send_ok.
  - by eapply bus_ok_same.
  - eapply (bus_ok_alter b _ _ id); try done; cbn; [apply take_ok|]. intros _ c Hcl. by destruct (ch_buf c).
Qed.

Lemma bus_run_ok b : rtc (bus_step cap) NewBus b → bus_ok cap b.
Proof.
  intros H. assert (bus_ok cap (NewBus (A:=A))) as H0.
  { split; cbn; [apply map_Forall_empty|intros id [?|[? ?]]; [set_solver|done]|set_solver|].
    intros id ?%not_elem_of_nil. done. }
  revert H0. induction H as [|b1 b2 b3 Hs _ IH]; [done|]. intros H0. by eapply IH, bus_step_ok.
Qed.

(** A [Publish] that is not interrupted offers the event to every listed channel. *)
Lemma publish_offers ev ids b :
  NoDup ids → (∀ id, id ∈ ids → ∃ c, bs_chans b !! id = Some c ∧ ch_closed c = false) →
  bs_panicked (Publish cap ev ids b) = bs_panicked b ∧
  ∀ id, bs_chans (Publish cap ev ids b) !! id =
        if bool_decide (id ∈ ids) then offer cap ev <$> bs_chans b !! id else bs_chans b !! id.
Proof.
  revert b. induction ids as [|i ids IH]; intros b Hnd Hopen; [done|]. apply NoDup_cons in Hnd as [Hi Hnd].
  destruct (Hopen i) as (c & Hc & Ho); [by left|]. cbn [Publish foldl].
  assert (send_one cap ev i b = mkBus (bs_nextID b) (bs_subscribers b) (<[i := offer cap ev c]> (bs_chans b))
            (bs_sending b) (bs_closing b) (bs_panicked b)) as Hs by (unfold send_one; by rewrite Hc, Ho).
  destruct (IH (send_one cap ev i b)) as [Hp Hl]; [done| |].
  { intros j Hj. rewrite Hs. cbn. rewrite lookup_insert_ne by set_solver. apply Hopen. by right. }
  unfold Publish in *. split; [by rewrite Hp, Hs|]. intros j. rewrite Hl, Hs. cbn.
  destruct (decide (j = i)) as [->|Hne].
  - rewrite lookup_insert_eq, bool_decide_eq_false_2 by done. rewrite bool_decide_eq_true_2 by set_solver. by rewrite Hc.
  - rewrite lookup_insert_ne by done. by rewrite (bool_decide_ext (j ∈ i :: ids) (j ∈ ids)) by set_solver.
Qed.
End delivery.

(** Delivery: under any interleaving of subscribing, unsubscribing, publishing
    and receiving, each subscriber has received, and has waiting, a part of the
    events that were published while it was subscribed, in their order, with at
    most the buffer's size waiting; and a [Publish] that no unsubscription overlaps
    reaches every subscriber whose buffer has room, and panics for none. *)
Theorem bus_delivers_in_order {A} (cap : nat) (b : Bus A) :
  rtc (bus_step cap) NewBus b →
  (∀ id c, bs_chans b !! id = Some c →
     (length (ch_buf c) ≤ cap)%nat ∧ (ch_received c ++ ch_buf c) `sublist_of` ch_offered c) ∧
  (∀ ev ids, ids ≡ₚ elements (bs_subscribers b) →
     bs_panicked (Publish cap ev ids b) = bs_panicked b ∧
     ∀ id, id ∈ bs_subscribers b → ∃ c c', bs_chans b !! id = Some c ∧ bs_chans (Publish cap ev ids b) !! id = Some c' ∧
       ((length (ch_buf c) < cap)%nat → ch_buf c' = ch_buf c ++ [ev])).
Proof.
  intros Hr. pose proof (bus_run_ok cap b Hr) as Hb. split.
  - intros id c Hc. destruct (bo_chans _ _ Hb id c Hc). auto.
  - intros ev ids Hids. destruct (publish_offers cap ev ids b) as [Hp Hl].
    { rewrite Hids. apply NoDup_elements. }
    { intros id Hin. apply (bo_subs _ _ Hb). rewrite Hids in Hin. by apply elem_of_elements. }
    split; [done|]. intros id Hin. destruct (bo_subs _ _ Hb id Hin) as (c & Hc & _).
    exists c, (offer cap ev c). split; [done|]. split.
    + rewrite Hl, bool_decide_eq_true_2, Hc; [done|]. rewrite Hids. by apply elem_of_elements.
    + intros Hlt. unfold offer. cbn [ch_buf]. apply Nat.ltb_lt in Hlt. by rewrite Hlt.
Qed.

Lemma bus_delivers_in_order_witness :
  let b := (Subscribe (NewBus (A:=Z))).2 in
  rtc (bus_step 1) NewBus b ∧ bs_panicked (Publish 1 7 [1] b) = false.
Proof.
  assert (rtc (bus_step 1) NewBus (Subscribe (NewBus (A:=Z))).2) as H by apply rtc_once, bu_subscribe.
  split; [exact H|]. apply (bus_delivers_in_order 1 _ H). by vm_compute.
Defined.

(** The race: a channel closed between the snapshot and the send. *)
Theorem publish_races_with_unsubscribe (cap : nat) :
  ∃ b : Bus Z, rtc (bus_step cap) NewBus b ∧ bs_panicked b = true.
Proof.
  eexists. split.
  - eapply rtc_l; [apply bu_subscribe|].
    eapply rtc_l; [apply (bu_publish _ _ 7 [1]); by vm_compute|].
    eapply rtc_l; [apply (bu_unsubscribe _ _ 1)|].
    eapply rtc_l; [apply (bu_close _ _ 1); vm_compute; left|].
    eapply rtc_l; [apply (bu_send _ _ [] 7 1 [] []); by vm_compute|]. reflexivity.
  - by vm_compute.
Qed.

(** ** The watch handler of [app/task_hub.go] *)

Record TaskEvent := mkTaskEvent {
  te_TaskID : string;
  te_Repo : string;
  te_IssueNum : Z;
  te_AgentName : string;
  te_Status : string;
  te_ExitCode : Z
}.

(** The filter of the query; [None] when [issue] is not a positive number. *)
Definition watch_issue (raw : string) : option Z :=
  let raw := TrimSpace raw in
  if bool_decide (raw = EmptyString) then Some 0
  else match atoi raw with Some n => if n <=? 0 then None else Some n | None => None end.
Definition watch_match (repo : string) (issue : Z) (ev : TaskEvent) : bool :=
  negb (negb (bool_decide (repo = EmptyString)) && negb (bool_decide (te_Repo ev = repo)))
  && negb ((0 <? issue) && negb (te_IssueNum ev =? issue)).
(** The event that is written to the client, of those that are received. *)
Definition watch_events (repo : string) (issue : Z) (received : list TaskEvent) : option TaskEvent :=
  List.find (watch_match repo issue) received.

(** With room for one event, the completion a client waits for is dropped when it
    follows another one before the client has taken that: the client is left
    waiting. *)
Theorem watch_misses_a_completion :
  ∃ (b : Bus TaskEvent) ev,
    let b1 := Publish NewHub_buffer (mkTaskEvent "t1" "o/r" 1 "dev-agent" "completed" 0) [1] b in
    let b2 := receive 1 (receive 1 (Publish NewHub_buffer ev [1] b1)) in
    bs_subscribers b = {[1]} ∧ watch_match "o/r" 2 ev = true ∧
    watch_events "o/r" 2 (default [] (ch_received <$> bs_chans b2 !! 1)) = None.
Proof.
  exists (Subscribe NewBus).2, (mkTaskEvent "t2" "o/r" 2 "dev-agent" "completed" 0). by vm_compute.
Qed.
