(* ===== verification/LabelCheck.v ===== *)
(** * Post-run label checks

    [internal/labelcheck/labelcheck.go]: after a run, the labels of the issue before
    and after it are compared with the states of the workflow, and the run is
    classified by the transition the agent made. *)

From S2P Require Import Prelude GoLib.

Record State := mkState { st_Name : string; st_Label : string }.
#[export] Instance State_eq_dec : EqDecision State.
Proof. solve_decision. Defined.
Definition no_state : State := mkState EmptyString EmptyString.

Record Input := mkInput {
  in_Pre : list string;
  in_Post : list string;
  in_ExitCode : Z;
  in_Current : State;
  in_AllowedTransitions : list State;
  in_KnownStates : list State
}.

Inductive Classification :=
  | ClassificationOK
  | ClassificationNoTransitionAfterSuccess
  | ClassificationNoTransitionAfterFailure
  | ClassificationUnexpectedTransition
  | ClassificationFailed.
#[export] Instance Classification_eq_dec : EqDecision Classification.
Proof. solve_decision. Defined.

Record Result := mkResult { rs_Classification : Classification; rs_From : State; rs_To : State }.

Definition noTransitionClassification (exitCode : Z) : Classification :=
  if exitCode =? 0 then ClassificationNoTransitionAfterSuccess else ClassificationNoTransitionAfterFailure.

Fixpoint matchStates (labels : list string) (known : list State) : list State :=
  match known with
  | [] => []
  | s :: known =>
      if bool_decide (st_Label s = EmptyString) then matchStates labels known
      else if bool_decide (st_Label s ∈ labels) then s :: matchStates labels known
      else matchStates labels known
  end.

Fixpoint containsState (states : list State) (want : State) : bool :=
  match states with
  | [] => false
  | s :: states =>
      (bool_decide (st_Label s = st_Label want) && bool_decide (st_Name s = st_Name want))
      || containsState states want
  end.

Fixpoint primary_loop (states : list State) (current : State) : option State :=
  match states with
  | [] => None
  | s :: states =>
      if negb (bool_decide (st_Label current = EmptyString)) && negb (bool_decide (st_Label s = st_Label current))
      then Some s else primary_loop states current
  end.
Definition selectPrimaryState (states : list State) (current : State) : State :=
  match primary_loop states current with
  | Some s => s
  | None => match states with [] => no_state | s :: _ => s end
  end.

Fixpoint stateNamed (states : list State) (name : string) : option State :=
  match states with
  | [] => None
  | s :: states => if bool_decide (st_Name s = name) then Some s else stateNamed states name
  end.

Definition displayState (s : State) : string :=
  if negb (bool_decide (st_Name s = EmptyString)) then st_Name s
  else if negb (bool_decide (st_Label s = EmptyString)) then st_Label s else "none".

Definition ResolveCurrent (pre : list string) (fallback : State) (known : list State) : State :=
  let preState := selectPrimaryState (matchStates pre known) fallback in
  if negb (bool_decide (st_Label preState = EmptyString)) then preState else fallback.

Definition Classify (input : Input) : Result :=
  let current := ResolveCurrent (in_Pre input) (in_Current input) (in_KnownStates input) in
  let postStates := matchStates (in_Post input) (in_KnownStates input) in
  match stateNamed postStates "failed" with
  | Some failed => mkResult ClassificationFailed current failed
  | None =>
      match postStates with
      | [] =>
          if bool_decide (st_Label current = EmptyString)
          then mkResult (noTransitionClassification (in_ExitCode input)) current no_state
          else mkResult ClassificationUnexpectedTransition current no_state
      | [s] =>
          if negb (bool_decide (st_Label current = EmptyString)) && bool_decide (st_Label s = st_Label current)
          then mkResult (noTransitionClassification (in_ExitCode input)) current s
          else if containsState (in_AllowedTransitions input) s
          then mkResult ClassificationOK current s
          else mkResult ClassificationUnexpectedTransition current (selectPrimaryState postStates current)
      | _ => mkResult ClassificationUnexpectedTransition current (selectPrimaryState postStates current)
      end
  end.

Definition Summary (r : Result) : string :=
  let from := displayState (rs_From r) in
  let to := displayState (rs_To r) in
  match rs_Classification r with
  | ClassificationOK => "Label transition: " +:+ from +:+ " -> " +:+ to +:+ " (OK)"
  | ClassificationNoTransitionAfterSuccess => "Label transition: none - needs human review"
  | ClassificationNoTransitionAfterFailure => "Label transition: none - retry path"
  | ClassificationFailed => "Label transition: " +:+ from +:+ " -> " +:+ to +:+ " (failed)"
  | ClassificationUnexpectedTransition => "Label transition: " +:+ from +:+ " -> " +:+ to +:+ " (unexpected)"
  end.

Definition NeedsHumanRecommendation (r : Result) : bool :=
  bool_decide (rs_Classification r = ClassificationNoTransitionAfterSuccess).

(** ** What the classification says *)

Lemma elem_of_matchStates labels known s :
  s ∈ matchStates labels known ↔ s ∈ known ∧ st_Label s ≠ EmptyString ∧ st_Label s ∈ labels.
Proof.
  induction known as [|k known IH]; cbn; [set_solver|].
  repeat case_bool_decide; rewrite ?elem_of_cons, IH; naive_solver.
Qed.

Lemma matchStates_sublist labels known : matchStates labels known `sublist_of` known.
Proof.
  induction known as [|k known IH]; cbn; [done|]. repeat case_bool_decide; by constructor.
Qed.

Lemma matchStates_ext l1 l2 known : (∀ x, x ∈ l1 ↔ x ∈ l2) → matchStates l1 known = matchStates l2 known.
Proof.
  intros Hl. induction known as [|k known IH]; cbn; [done|]. rewrite IH.
  by rewrite (bool_decide_ext _ _ (Hl (st_Label k))).
Qed.

Lemma containsState_spec states s : containsState states s = true ↔ s ∈ states.
Proof.
  induction states as [|[n l] states IH]; cbn; [set_solver|].
  rewrite orb_true_iff, IH, andb_true_iff, !bool_decide_eq_true, elem_of_cons.
  destruct s; naive_solver.
Qed.

Lemma stateNamed_spec states name :
  match stateNamed states name with
  | Some s => s ∈ states ∧ st_Name s = name
  | None => ∀ s, s ∈ states → st_Name s ≠ name
  end.
Proof.
  induction states as [|s states IH]; cbn; [set_solver|].
  case_bool_decide; [set_solver|]. destruct (stateNamed states name); set_solver.
Qed.

(** The labels after the run show exactly one state of the workflow. *)
Definition lands_on (input : Input) (s : State) : Prop :=
  matchStates (in_Post input) (in_KnownStates input) = [s].

Lemma Classify_ok_iff (input : Input) :
  let current := ResolveCurrent (in_Pre input) (in_Current input) (in_KnownStates input) in
  rs_Classification (Classify input) = ClassificationOK ↔
  ∃ s, lands_on input s ∧ st_Name s ≠ "failed" ∧ st_Label s ≠ st_Label current ∧ s ∈ in_AllowedTransitions input.
Proof.
  unfold lands_on, Classify. cbn zeta.
  set (cur := ResolveCurrent _ _ _). set (post := matchStates _ _).
  assert (Hne : ∀ s, s ∈ post → st_Label s ≠ EmptyString) by (intros s; unfold post; rewrite elem_of_matchStates; tauto).
  pose proof (stateNamed_spec post "failed") as Hn. destruct (stateNamed post "failed") as [f|].
  { split; [done|]. intros (s & Hs & Hf & _). rewrite Hs in Hn. set_solver. }
  destruct post as [|s [|s' post]]; [case_bool_decide; cbn; unfold noTransitionClassification; try case_match; naive_solver| |naive_solver].
  assert (st_Label s ≠ EmptyString) by set_solver. assert (st_Name s ≠ "failed") by set_solver.
  destruct (decide (st_Label s = st_Label cur)) as [Hl|Hl].
  - rewrite (bool_decide_eq_false_2 (st_Label cur = EmptyString)) by congruence.
    rewrite (bool_decide_eq_true_2 _ Hl). cbn. unfold noTransitionClassification. case_match; naive_solver.
  - rewrite (bool_decide_eq_false_2 _ Hl), andb_false_r. pose proof (containsState_spec (in_AllowedTransitions input) s) as Hc.
    destruct (containsState _ s); cbn; naive_solver.
Qed.

Lemma Classify_failed_iff (input : Input) :
  rs_Classification (Classify input) = ClassificationFailed ↔
  ∃ s, s ∈ in_KnownStates input ∧ st_Name s = "failed" ∧ st_Label s ≠ EmptyString ∧ st_Label s ∈ in_Post input.
Proof.
  unfold Classify. cbn zeta. pose proof (stateNamed_spec (matchStates (in_Post input) (in_KnownStates input)) "failed") as Hn.
  destruct (stateNamed _ "failed") as [f|].
  - rewrite elem_of_matchStates in Hn. naive_solver.
  - split.
    + unfold noTransitionClassification. repeat case_match; done.
    + intros (s & Hk & Hf & Hl & Hp). destruct (Hn s); [by rewrite elem_of_matchStates|done].
Qed.

(** The classification of a run is the one its labels call for: it is OK exactly
    when the labels afterwards show one state of the workflow, other than the
    current one and than "failed", and allowed from it; it is failed exactly when the
    label of the state "failed" is present; a human is asked for only after a
    successful exit that left the issue where it was; and the order and the
    repetition of the labels do not matter. *)
Theorem classification_matches_labels (input : Input) :
  let current := ResolveCurrent (in_Pre input) (in_Current input) (in_KnownStates input) in
  let r := Classify input in
  (rs_Classification r = ClassificationOK ↔
     ∃ s, lands_on input s ∧ st_Name s ≠ "failed" ∧ st_Label s ≠ st_Label current ∧ s ∈ in_AllowedTransitions input) ∧
  (rs_Classification r = ClassificationFailed ↔
     ∃ s, s ∈ in_KnownStates input ∧ st_Name s = "failed" ∧ st_Label s ≠ EmptyString ∧ st_Label s ∈ in_Post input) ∧
  (NeedsHumanRecommendation r = true → in_ExitCode input = 0 ∧ st_Label (rs_To r) = st_Label current) ∧
  (∀ pre post, (∀ x, x ∈ pre ↔ x ∈ in_Pre input) → (∀ x, x ∈ post ↔ x ∈ in_Post input) →
     Classify (mkInput pre post (in_ExitCode input) (in_Current input) (in_AllowedTransitions input) (in_KnownStates input)) = r).
Proof.
  cbn zeta. split_and!.
  - apply Classify_ok_iff.
  - apply Classify_failed_iff.
  - unfold NeedsHumanRecommendation. rewrite bool_decide_eq_true. unfold Classify. cbn zeta.
    unfold noTransitionClassification. repeat case_match; cbn; try done; intros _.
    all: repeat match goal with
         | H : (_ =? _) = true |- _ => apply Z.eqb_eq in H
         | H : _ && _ = true |- _ => apply andb_true_iff in H as [_ H]
         | H : bool_decide _ = true |- _ => apply bool_decide_eq_true in H end; done.
  - intros pre post Hpre Hpost. unfold Classify, ResolveCurrent. cbn.
    by rewrite (matchStates_ext pre _ _ Hpre), (matchStates_ext post _ _ Hpost).
Qed.
