(* ===== verification/IssueLocks.v ===== *)
(** * The locks of the executor

    [issueTaskLocks] of [internal/worker/executor.go]: one mutex per issue, created
    when the first task of the issue asks for it and dropped with the last.

    A lock object is named by its place in a heap, as Go's pointers are compared.
    What happens under the mutex of the table is one step; waiting for the mutex of
    an issue, unlocking it and leaving the table are steps of their own, and a
    thread is a goroutine that runs [Execute] for one task. *)

From S2P Require Import Prelude GoLib.
From Stdlib Require Import Ascii.

Definition lock_key (repo : string) (issue : Z) : string := repo +:+ "#" +:+ itoa issue.

(** [lk_holder]: the thread that holds the mutex of the lock. *)
Record issueTaskLock := mkLock {
  lk_key : string;
  lk_refs : Z;
  lk_holder : option nat
}.

(** A thread waits for the mutex, holds it, or has unlocked it in [Release] and
    not yet left the table. *)
Inductive Phase := Waiting | Holding | Leaving.
#[export] Instance Phase_eq_dec : EqDecision Phase.
Proof. solve_decision. Defined.
Record Thread := mkThread {
  th_repo : string;
  th_issue : Z;
  th_lock : nat;
  th_phase : Phase
}.

Record issueTaskLocks := mkLocks {
  ls_locks : gmap string nat;
  ls_heap : gmap nat issueTaskLock;
  ls_threads : gmap nat Thread
}.
Definition no_locks : issueTaskLocks := mkLocks ∅ ∅ ∅.

Definition set_phase (t : nat) (th : Thread) (ph : Phase) (l : issueTaskLocks) : gmap nat Thread :=
  <[t := mkThread (th_repo th) (th_issue th) (th_lock th) ph]> (ls_threads l).

(** [Acquire], up to the mutex of the lock; [fresh] names a new object. *)
Definition acquire_enter (t : nat) (repo : string) (issue : Z) (l : issueTaskLocks) : issueTaskLocks :=
  let key := lock_key repo issue in
  let id := match ls_locks l !! key with Some id => id | None => fresh (dom (ls_heap l)) end in
  let lk := match ls_locks l !! key with
            | Some id => match ls_heap l !! id with Some lk => lk | None => mkLock key 0 None end
            | None => mkLock key 0 None
            end in
  mkLocks (<[key := id]> (ls_locks l)) (<[id := mkLock (lk_key lk) (lk_refs lk + 1) (lk_holder lk)]> (ls_heap l))
    (<[t := mkThread repo issue id Waiting]> (ls_threads l)).

(** [lk.mu.Lock()] returns: the mutex is free. *)
Definition acquire_lock (t : nat) (th : Thread) (lk : issueTaskLock) (l : issueTaskLocks) : issueTaskLocks :=
  mkLocks (ls_locks l) (<[th_lock th := mkLock (lk_key lk) (lk_refs lk) (Some t)]> (ls_heap l)) (set_phase t th Holding l).

(** [Release]: [l.mu.Unlock()], then the part under the mutex of the table. *)
Definition release_unlock (t : nat) (th : Thread) (lk : issueTaskLock) (l : issueTaskLocks) : issueTaskLocks :=
  mkLocks (ls_locks l) (<[th_lock th := mkLock (lk_key lk) (lk_refs lk) None]> (ls_heap l)) (set_phase t th Leaving l).
Definition release_leave (t : nat) (th : Thread) (lk : issueTaskLock) (l : issueTaskLocks) : issueTaskLocks :=
  let refs := lk_refs lk - 1 in
  let locks :=
    if refs =? 0
    then if bool_decide (ls_locks l !! lk_key lk = Some (th_lock th)) then delete (lk_key lk) (ls_locks l) else ls_locks l
    else ls_locks l in
  mkLocks locks (<[th_lock th := mkLock (lk_key lk) refs (lk_holder lk)]> (ls_heap l)) (delete t (ls_threads l)).

Inductive lock_step (l : issueTaskLocks) : issueTaskLocks → Prop :=
  | lo_enter t repo issue : ls_threads l !! t = None → lock_step l (acquire_enter t repo issue l)
  | lo_lock t th lk :
      ls_threads l !! t = Some th → th_phase th = Waiting → ls_heap l !! th_lock th = Some lk → lk_holder lk = None →
      lock_step l (acquire_lock t th lk l)
  | lo_unlock t th lk :
      ls_threads l !! t = Some th → th_phase th = Holding → ls_heap l !! th_lock th = Some lk →
      lock_step l (release_unlock t th lk l)
  | lo_leave t th lk :
      ls_threads l !! t = Some th → th_phase th = Leaving → ls_heap l !! th_lock th = Some lk →
      lock_step l (release_leave t th lk l).

(** ** The invariant *)

(** The threads between entering the table and leaving it with one lock. *)
Definition users (id : nat) (ts : gmap nat Thread) : gmap nat Thread := filter (λ p, th_lock p.2 = id) ts.

Record locks_ok (l : issueTaskLocks) : Prop := {
  lo_locks : ∀ key id, ls_locks l !! key = Some id →
    ∃ lk, ls_heap l !! id = Some lk ∧ lk_key lk = key ∧ 0 < lk_refs lk;
  lo_threads : ∀ t th, ls_threads l !! t = Some th →
    ls_locks l !! lock_key (th_repo th) (th_issue th) = Some (th_lock th) ∧ is_Some (ls_heap l !! th_lock th) ∧
    (th_phase th = Holding ↔ ls_heap l !! th_lock th ≫= lk_holder = Some t);
  lo_heap : ∀ id lk, ls_heap l !! id = Some lk →
    lk_refs lk = Z.of_nat (size (users id (ls_threads l))) ∧
    match lk_holder lk with
    | Some t => ∃ th, ls_threads l !! t = Some th ∧ th_lock th = id ∧ th_phase th = Holding
    | None => True
    end
}.

Lemma lock_key_inj r1 i1 r2 i2 : lock_key r1 i1 = lock_key r2 i2 → r1 = r2 ∧ i1 = i2.
Proof.
  unfold lock_key. change ("#" +:+ itoa i1) with (String "#" (itoa i1)). change ("#" +:+ itoa i2) with (String "#" (itoa i2)).
  intros H. pose proof (f_equal (λ s, LastIndexByte s "#") H) as Hl. cbn beta in Hl.
  rewrite !LastIndexByte_app in Hl by apply itoa_no_hash. apply Nat2Z.inj in Hl.
  pose proof (f_equal (take_str (String.length r1)) H) as Ht. rewrite take_app_str, Hl, take_app_str in Ht. subst r2.
  split; [done|]. pose proof (f_equal (drop_str (String.length r1)) H) as Hd. rewrite !drop_app_str in Hd.
  injection Hd as Hd. by apply itoa_inj.
Qed.

Section users.
Implicit Types (ts : gmap nat Thread) (th : Thread).

Lemma users_insert id t th ts :
  ts !! t = None → size (users id (<[t := th]> ts)) = (size (users id ts) + if decide (th_lock th = id) then 1 else 0)%nat.
Proof.
  intros Ht. unfold users. rewrite map_filter_insert. cbn. destruct (decide (th_lock th = id)).
  - rewrite map_size_insert_None; [lia|]. by rewrite map_lookup_filter, Ht.
  - rewrite delete_id by done. lia.
Qed.

Lemma users_update id t th th' ts :
  ts !! t = Some th → th_lock th' = th_lock th → size (users id (<[t := th']> ts)) = size (users id ts).
Proof.
  intros Ht Hl. rewrite <-(insert_delete_eq ts), users_insert by apply lookup_delete_eq.
  rewrite Hl, <-(users_insert id t th) by apply lookup_delete_eq. by rewrite insert_delete_id.
Qed.

Lemma users_delete id t th ts :
  ts !! t = Some th → size (users id ts) = (size (users id (delete t ts)) + if decide (th_lock th = id) then 1 else 0)%nat.
Proof.
  intros Ht. rewrite <-(users_insert id t th) by apply lookup_delete_eq. by rewrite insert_delete_id.
Qed.

Lemma users_elem id t th ts : ts !! t = Some th → th_lock th = id → (0 < size (users id ts))%nat.
Proof. intros Ht Hl. rewrite (users_delete id t th ts Ht). rewrite decide_True by done. lia. Qed.
End users.

Lemma no_locks_ok : locks_ok no_locks.
Proof. split; intros *; cbn; by rewrite lookup_empty. Qed.

(** The lock a new thread gets: the one of the table, or a new one nobody uses. *)
Lemma enter_lock key l :
  locks_ok l →
  let id := match ls_locks l !! key with Some id => id | None => fresh (dom (ls_heap l)) end in
  let lk := match ls_locks l !! key with
            | Some id => match ls_heap l !! id with Some lk => lk | None => mkLock key 0 None end
            | None => mkLock key 0 None
            end in
  lk_key lk = key ∧ lk_refs lk = Z.of_nat (size (users id (ls_threads l))) ∧
  ls_heap l !! id ≫= lk_holder = lk_holder lk ∧
  (∀ key', ls_locks l !! key' = Some id → key' = key) ∧
  (∀ t th, ls_threads l !! t = Some th → th_lock th = id → is_Some (ls_heap l !! id)).
Proof.
  intros [Hl Ht Hh]. destruct (ls_locks l !! key) as [id|] eqn:Hk; cbv zeta.
  - destruct (Hl _ _ Hk) as (lk & Hlk & Hkey & _). rewrite Hlk. split_and!; [done|by apply Hh|done| |done].
    intros key' Hk'. destruct (Hl _ _ Hk') as (lk' & Hlk' & Hkey' & _). congruence.
  - set (id := fresh _). assert (ls_heap l !! id = None) as Hid by (apply not_elem_of_dom, is_fresh).
    assert (∀ t th, ls_threads l !! t = Some th → th_lock th = id → False) as Hno.
    { intros t th Hth <-. destruct (Ht _ _ Hth) as (_ & [? Hs] & _). congruence. }
    split_and!; [done| |by rewrite Hid| |].
    + unfold users. rewrite map_empty_filter_2; [done|]. intros t th Hth Heq. by eapply Hno.
    + intros key' Hk'. destruct (Hl _ _ Hk') as (lk' & Hlk' & _). congruence.
    + intros t th Hth Heq. by destruct (Hno _ _ Hth Heq).
Qed.

Lemma acquire_enter_ok t repo issue l :
  ls_threads l !! t = None → locks_ok l → locks_ok (acquire_enter t repo issue l).
Proof.
  intros Hn Hok. destruct (enter_lock (lock_key repo issue) l Hok) as (Hkey & Hrefs & Hho & Huniq & Hused).
  unfold acquire_enter. set (key := lock_key repo issue) in *. revert Hkey Hrefs Hho Huniq Hused.
  generalize (match ls_locks l !! key with Some id => match ls_heap l !! id with Some lk => lk | None => mkLock key 0 None end | None => mkLock key 0 None end).
  assert (∀ id', ls_locks l !! key = Some id' → match ls_locks l !! key with Some id => id | None => fresh (dom (ls_heap l)) end = id') as Hsame.
  { by intros id' ->. }
  revert Hsame. generalize (match ls_locks l !! key with Some id => id | None => fresh (dom (ls_heap l)) end).
  intros id Hsame lk Hkey Hrefs Hho Huniq Hused. destruct Hok as [Hl Ht Hh]. split; cbn.
  - intros key' id'. rewrite lookup_insert_Some. intros [[<- <-]|[Hne Hk]].
    + eexists. rewrite lookup_insert_eq. split; [done|]. cbn. split; [done|lia].
    + destruct (Hl _ _ Hk) as (lk' & Hlk' & Hkey' & Hr). exists lk'.
      rewrite lookup_insert_ne by (intros ->; by apply Hne, eq_sym, Huniq). auto.
  - intros t' th. rewrite lookup_insert_Some. intros [[<- <-]|[Hne Hth]]; cbn.
    + rewrite !lookup_insert_eq. split_and!; [done|by eexists|]. cbn. split; [done|]. rewrite <-Hho. intros Ho.
      destruct (ls_heap l !! id) as [lk'|] eqn:Hid; [|done]. cbn in Ho. destruct (Hh _ _ Hid) as [_ Hx]. rewrite Ho in Hx.
      destruct Hx as (th & Hth & _). congruence.
    + destruct (Ht _ _ Hth) as (Hk & Hs & Hp). split_and!.
      * destruct (decide (lock_key (th_repo th) (th_issue th) = key)) as [He|He]; [|by rewrite lookup_insert_ne].
        rewrite He in *. rewrite lookup_insert_eq. by rewrite (Hsame _ Hk).
      * destruct (decide (th_lock th = id)) as [->|He]; [by rewrite lookup_insert_eq|by rewrite lookup_insert_ne].
      * rewrite Hp. destruct (decide (th_lock th = id)) as [->|He]; [|by rewrite lookup_insert_ne].
        rewrite lookup_insert_eq. cbn. by rewrite Hho.
  - intros id' lk'. rewrite lookup_insert_Some. intros [[<- <-]|[Hne Hlk]]; cbn.
    + rewrite users_insert by done. cbn. rewrite decide_True by done. split; [lia|].
      destruct (lk_holder lk) as [t'|] eqn:Ho; [|done]. destruct (ls_heap l !! id) as [lk'|] eqn:Hid; [|done]. cbn in Hho.
      destruct (Hh _ _ Hid) as [_ Hx]. rewrite Hho in Hx. destruct Hx as (th & Hth & ? & ?). exists th.
      rewrite lookup_insert_ne by congruence. auto.
    + rewrite users_insert by done. cbn. rewrite decide_False by done. destruct (Hh _ _ Hlk) as [-> Hx]. split; [lia|].
      destruct (lk_holder lk') as [t'|]; [|done]. destruct Hx as (th & Hth & ? & ?). exists th.
      rewrite lookup_insert_ne by congruence. auto.
Qed.

(** Steps that change the holder of one lock and the phase of the thread. *)
Lemma holder_step_ok t th lk h ph l :
  locks_ok l → ls_threads l !! t = Some th → ls_heap l !! th_lock th = Some lk →
  (lk_holder lk = None ∨ lk_holder lk = Some t) →
  (ph = Holding ↔ h = Some t) → (h = None ∨ h = Some t) →
  locks_ok (mkLocks (ls_locks l) (<[th_lock th := mkLock (lk_key lk) (lk_refs lk) h]> (ls_heap l)) (set_phase t th ph l)).
Proof.
  intros [Hl Ht Hh] Hth Hlk Hold Hph Hnew. unfold set_phase. split; cbn.
  - intros key id Hk. destruct (Hl _ _ Hk) as (lk' & Hlk' & Hkey & Hr).
    destruct (decide (th_lock th = id)) as [<-|He]; [|exists lk'; by rewrite lookup_insert_ne].
    rewrite Hlk in Hlk'. injection Hlk' as <-. eexists. by rewrite lookup_insert_eq.
  - intros t' th'. rewrite lookup_insert_Some. intros [[<- <-]|[Hne Hth']]; cbn.
    + destruct (Ht _ _ Hth) as (Hk & _ & _). rewrite lookup_insert_eq. cbn. split_and!; [done|by eexists|done].
    + destruct (Ht _ _ Hth') as (Hk & Hs & Hp). split; [done|].
      destruct (decide (th_lock th = th_lock th')) as [He|He]; [|by rewrite lookup_insert_ne].
      rewrite <-He in *. rewrite lookup_insert_eq. split; [by eexists|]. rewrite Hp, Hlk. cbn.
      destruct Hold as [->| ->], Hnew as [->| ->]; naive_solver.
  - intros id lk'. rewrite lookup_insert_Some. rewrite (users_update id t th) by done.
    intros [[<- <-]|[Hne Hlk']]; cbn.
    + split; [by apply Hh|]. destruct h as [t'|]; [|done]. destruct Hnew as [|Hnew]; [done|]. injection Hnew as ->.
      eexists. rewrite lookup_insert_eq. cbn. split_and!; [done..|]. by apply Hph.
    + destruct (Hh _ _ Hlk') as [Hr Hx]. split; [done|]. destruct (lk_holder lk') as [t'|]; [|done].
      destruct Hx as (th' & Hth' & Hid & Hp). exists th'. rewrite lookup_insert_ne by congruence. auto.
Qed.

Lemma release_leave_ok t th lk l :
  locks_ok l → ls_threads l !! t = Some th → th_phase th = Leaving → ls_heap l !! th_lock th = Some lk →
  locks_ok (release_leave t th lk l).
Proof.
  intros [Hl Ht Hh] Hth Hph Hlk. unfold release_leave. destruct (Ht _ _ Hth) as (Hk & _ & Hp).
  destruct (Hl _ _ Hk) as (lk' & Hlk' & Hkey & _). rewrite Hlk in Hlk'. injection Hlk' as <-.
  rewrite <-Hkey in Hk. rewrite (bool_decide_eq_true_2 _ Hk).
  destruct (Hh _ _ Hlk) as [Hr Hx]. rewrite (users_delete _ t th) in Hr by done. rewrite decide_True in Hr by done.
  assert (Hno : lk_holder lk ≠ Some t).
  { rewrite Hlk in Hp. cbn in Hp. rewrite <-Hp. by rewrite Hph. }
  assert (Huniq : ∀ key, ls_locks l !! key = Some (th_lock th) → key = lk_key lk).
  { intros key Hkk. destruct (Hl _ _ Hkk) as (? & ? & ? & _). congruence. }
  split; cbn.
  - intros key id Hkk. assert (ls_locks l !! key = Some id ∧ (lk_refs lk - 1 = 0 → key ≠ lk_key lk)) as [Hkk' Hz].
    { destruct (Z.eqb_spec (lk_refs lk - 1) 0); [|done]. apply lookup_delete_Some in Hkk as [? ?]. auto. }
    destruct (Hl _ _ Hkk') as (lk' & Hlk' & Hkey' & Hr').
    destruct (decide (th_lock th = id)) as [<-|He]; [|exists lk'; by rewrite lookup_insert_ne].
    eexists. rewrite lookup_insert_eq. split; [done|]. cbn. split; [by rewrite (Huniq _ Hkk')|].
    rewrite Hlk in Hlk'. injection Hlk' as <-. specialize (Huniq _ Hkk'). destruct (decide (lk_refs lk - 1 = 0)) as [Hx0|]; [by destruct (Hz Hx0)|lia].
  - intros t' th'. rewrite lookup_delete_Some. intros [Hne Hth']. destruct (Ht _ _ Hth') as (Hk' & Hs & Hp').
    destruct (decide (th_lock th = th_lock th')) as [He|He].
    + pose proof (users_elem (th_lock th) t' th' (delete t (ls_threads l))) as Hu.
      rewrite lookup_delete_ne in Hu by done. specialize (Hu Hth' (eq_sym He)).
      destruct (Z.eqb_spec (lk_refs lk - 1) 0); [lia|]. rewrite <-He in *. rewrite lookup_insert_eq. cbn.
      split_and!; [done|by eexists|]. rewrite Hp', Hlk. done.
    + rewrite lookup_insert_ne by done. split; [|done]. destruct (_ =? 0); [|done].
      rewrite lookup_delete_ne; [done|]. intros Heq. rewrite <-Heq in Hk'. congruence.
  - intros id lk'. rewrite lookup_insert_Some. intros [[<- <-]|[Hne Hlk']]; cbn.
    + split; [lia|]. destruct (lk_holder lk) as [t'|]; [|done]. destruct Hx as (th' & Hth' & Hrest). exists th'.
      rewrite lookup_delete_ne by congruence. auto.
    + destruct (Hh _ _ Hlk') as [Hr' Hx']. rewrite (users_delete _ t th) in Hr' by done. rewrite decide_False in Hr' by done.
      split; [lia|]. destruct (lk_holder lk') as [t'|]; [|done]. destruct Hx' as (th' & Hth' & Hid & Hp'). exists th'.
      rewrite lookup_delete_ne by congruence. auto.
Qed.

Lemma lock_step_ok l l' : locks_ok l → lock_step l l' → locks_ok l'.
Proof.
  intros Hok Hs. destruct Hs as [t repo issue Hn|t th lk Hth Hp Hlk Ho|t th lk Hth Hp Hlk|t th lk Hth Hp Hlk].
  - by apply acquire_enter_ok.
  - apply holder_step_ok; auto. split; done.
  - apply holder_step_ok; auto; [|by split]. right. destruct (lo_threads l Hok _ _ Hth) as (_ & _ & Hx).
    rewrite Hlk in Hx. by apply Hx.
  - by apply release_leave_ok.
Qed.

Lemma locks_reachable_ok l : rtc lock_step no_locks l → locks_ok l.
Proof.
  intros H. remember no_locks as l0 eqn:E. assert (locks_ok l0) as Hok by (subst; apply no_locks_ok). clear E.
  induction H as [|l1 l2 l3 Hs _ IH]; [done|]. by apply IH, (lock_step_ok l1).
Qed.

(** C20: Whatever the interleaving of the tasks a worker runs, at most one of them runs
    on an issue at a time; tasks share a lock exactly when they are about the same
    issue; a mutex is held by a task that will release it; and the table holds
    exactly the issues that have a task, so that it is empty again when the last
    one has left. *)
Theorem executor_serializes_issues l :
  rtc lock_step no_locks l →
  (∀ t1 t2 th1 th2, ls_threads l !! t1 = Some th1 → ls_threads l !! t2 = Some th2 →
     (th_lock th1 = th_lock th2 ↔ th_repo th1 = th_repo th2 ∧ th_issue th1 = th_issue th2) ∧
     (th_phase th1 = Holding → th_phase th2 = Holding → th_repo th1 = th_repo th2 → th_issue th1 = th_issue th2 → t1 = t2)) ∧
  (∀ t th, ls_threads l !! t = Some th → th_phase th = Waiting →
     (∃ l', lock_step l l' ∧ th_phase <$> ls_threads l' !! t = Some Holding) ∨
     (∃ t' th', t' ≠ t ∧ ls_threads l !! t' = Some th' ∧ th_lock th' = th_lock th ∧ th_phase th' = Holding)) ∧
  (∀ key, is_Some (ls_locks l !! key) ↔ ∃ t th, ls_threads l !! t = Some th ∧ key = lock_key (th_repo th) (th_issue th)).
Proof.
  intros Hok%locks_reachable_ok. pose proof Hok as [Hl Ht Hh]. split_and!.
  - intros t1 t2 th1 th2 H1 H2. destruct (Ht _ _ H1) as (Hk1 & _ & Hp1), (Ht _ _ H2) as (Hk2 & _ & Hp2).
    assert (th_repo th1 = th_repo th2 → th_issue th1 = th_issue th2 → th_lock th1 = th_lock th2) as Hsame by congruence.
    split; [split|].
    + intros He. apply lock_key_inj. destruct (Hl _ _ Hk1) as (? & ? & ? & _), (Hl _ _ Hk2) as (? & ? & ? & _). congruence.
    + intros [? ?]. auto.
    + intros Hh1%Hp1 Hh2%Hp2 Hr Hi. rewrite <-(Hsame Hr Hi) in Hh2. congruence.
  - intros t th Hth Hw. destruct (Ht _ _ Hth) as (_ & [lk Hlk] & Hp). destruct (lk_holder lk) as [t'|] eqn:Ho.
    + right. destruct (Hh _ _ Hlk) as [_ Hx]. rewrite Ho in Hx. destruct Hx as (th' & Hth' & Hid & Hph).
      exists t', th'. split_and!; [|done..]. intros ->. congruence.
    + left. exists (acquire_lock t th lk l). split; [by constructor|]. unfold acquire_lock, set_phase. cbn. by rewrite lookup_insert_eq.
  - intros key. split.
    + intros [id Hk]. destruct (Hl _ _ Hk) as (lk & Hlk & Hkey & Hr). destruct (Hh _ _ Hlk) as [Hs _].
      assert (users id (ls_threads l) ≠ ∅) as Hne by (intros He; rewrite He in Hs; unfold size, map_size in Hs; rewrite map_fold_empty in Hs; lia).
      apply map_choose in Hne as (t & th & Hu). apply map_lookup_filter_Some in Hu as [Hth Hid]. cbn in Hid.
      exists t, th. split; [done|]. destruct (Ht _ _ Hth) as (Hk' & _). rewrite Hid in Hk'.
      destruct (Hl _ _ Hk') as (lk' & Hlk' & Hkey' & _). congruence.
    + intros (t & th & Hth & ->). destruct (Ht _ _ Hth) as (-> & _). by eexists.
Qed.

(** Two tasks of one issue and one of another, in the table together. *)
Definition demo_locks : issueTaskLocks :=
  acquire_enter 3 "o/r" 8 (acquire_enter 2 "o/r" 7 (acquire_enter 1 "o/r" 7 no_locks)).

Lemma executor_serializes_issues_witness :
  rtc lock_step no_locks demo_locks ∧ length (map_to_list (ls_locks demo_locks)) = 2%nat ∧
  (∀ key, is_Some (ls_locks demo_locks !! key) ↔
     ∃ t th, ls_threads demo_locks !! t = Some th ∧ key = lock_key (th_repo th) (th_issue th)).
Proof.
  assert (rtc lock_step no_locks demo_locks) as H.
  { unfold demo_locks. do 3 (eapply rtc_r; [|apply lo_enter; vm_compute; reflexivity]). apply rtc_refl. }
  split; [exact H|]. split; [vm_compute; reflexivity|]. apply (executor_serializes_issues demo_locks H).
Defined.
