(* ===== verification/AgentStream.v ===== *)
(** * The output of an agent, from its file to the worker

    The supervisor keeps the standard output of an agent in a file and streams its
    lines as server-sent events ([Supervisor.StreamEvents] of
    [internal/supervisor/supervisor.go]); the client decodes the stream
    ([internal/supervisor/client/client.go]), and a worker that has restarted appends
    the lines it has not got yet to its own event file
    ([internal/worker/resume.go]).

    The agent writes while the supervisor reads: reading a line, asking whether the
    agent has exited, and waiting are separate steps, and the file grows in
    between.  [json.Unmarshal] of an event is a parameter. *)

From S2P Require Import Prelude GoLib Json GoText.
From Stdlib Require Import Ascii.

Definition nl : ascii := chr 10.

(** A file of terminated lines. *)
Fixpoint text (ls : list string) : string :=
  match ls with
  | [] => EmptyString
  | l :: ls => l +:+ String nl (text ls)
  end.
Definition no_nl (s : string) : bool := all_str (λ d, negb (Ascii.eqb nl d)) s.

(** The lines of a file, without what follows the last newline. *)
Definition file_lines (s : string) : list string := removelast (Split nl s).

(** The bytes before the first newline, when there is one. *)
Fixpoint read_line (s : string) : option string :=
  match s with
  | EmptyString => None
  | String c s => if Ascii.eqb nl c then Some EmptyString else String c <$> read_line s
  end.

(** ** The supervisor's stream *)

Inductive StreamPhase :=
  | Skipping
  | Reading
  | Checking
  | Sleeping
  | Stopped (err : option error).
#[export] Instance StreamPhase_eq_dec : EqDecision StreamPhase.
Proof. solve_decision. Defined.

Record Stream := mkStream {
  sm_file : string;
  sm_exited : bool;
  sm_pos : nat;
  sm_lineNum : Z;
  sm_out : list (Z * string);
  sm_phase : StreamPhase
}.
Definition open_stream (file : string) (exited : bool) : Stream := mkStream file exited 0 0 [] Skipping.
Definition set_sm (s : Stream) (pos : nat) (n : Z) (out : list (Z * string)) (ph : StreamPhase) : Stream :=
  mkStream (sm_file s) (sm_exited s) pos n out ph.

(** [br.ReadString]: the line, [None] at the end of the file, and the position
    after it.  What is left of an unfinished line is taken as well. *)
Definition ReadString (s : Stream) : option string * nat :=
  match read_line (drop_str (sm_pos s) (sm_file s)) with
  | Some l => (Some l, (sm_pos s + String.length l + 1)%nat)
  | None => (None, String.length (sm_file s))
  end.

(** One turn of the loop that skips the first [fromOffset] lines. *)
Definition stream_skip (fromOffset : Z) (s : Stream) : Stream :=
  if sm_lineNum s <? fromOffset then
    match ReadString s with
    | (Some _, pos) => set_sm s pos (sm_lineNum s + 1) (sm_out s) Skipping
    | (None, pos) => set_sm s pos (sm_lineNum s) (sm_out s) Reading
    end
  else set_sm s (sm_pos s) (sm_lineNum s) (sm_out s) Reading.

(** One read of the main loop. *)
Definition stream_read (s : Stream) : Stream :=
  match ReadString s with
  | (Some l, pos) => set_sm s pos (sm_lineNum s + 1) (sm_out s ++ [(sm_lineNum s + 1, l)]) Reading
  | (None, pos) => set_sm s pos (sm_lineNum s) (sm_out s) Checking
  end.

Definition stream_check (s : Stream) : Stream :=
  set_sm s (sm_pos s) (sm_lineNum s) (sm_out s) (if sm_exited s then Stopped None else Sleeping).
Definition stream_wake (cancelled : bool) (s : Stream) : Stream :=
  set_sm s (sm_pos s) (sm_lineNum s) (sm_out s) (if cancelled then Stopped (Some ErrContext) else Reading).

(** The agent writes a chunk, or exits, which the supervisor notices. *)
Definition agent_write (chunk : string) (s : Stream) : Stream :=
  mkStream (sm_file s +:+ chunk) (sm_exited s) (sm_pos s) (sm_lineNum s) (sm_out s) (sm_phase s).
Definition agent_exit (s : Stream) : Stream :=
  mkStream (sm_file s) true (sm_pos s) (sm_lineNum s) (sm_out s) (sm_phase s).

Section stream.
Context (chunk_ok : string → Prop) (fromOffset : Z).

Inductive stream_step (s : Stream) : Stream → Prop :=
  | ss_skip : sm_phase s = Skipping → stream_step s (stream_skip fromOffset s)
  | ss_read : sm_phase s = Reading → stream_step s (stream_read s)
  | ss_check : sm_phase s = Checking → stream_step s (stream_check s)
  | ss_wake cancelled : sm_phase s = Sleeping → stream_step s (stream_wake cancelled s)
  | ss_write chunk : sm_exited s = false → chunk_ok chunk → stream_step s (agent_write chunk s)
  | ss_exit : sm_exited s = false → stream_step s (agent_exit s).
End stream.

(** ** Reading a text *)

Lemma text_app a b : text (a ++ b) = text a +:+ text b.
Proof. induction a as [|l a IH]; [done|]. cbn. rewrite IH. rewrite app_str_assoc. done. Qed.

Lemma no_nl_cons c s : no_nl (String c s) = true → Ascii.eqb nl c = false ∧ no_nl s = true.
Proof. unfold no_nl. cbn. rewrite andb_true_iff, negb_true_iff. done. Qed.

Lemma read_line_app l s : no_nl l = true → read_line (l +:+ String nl s) = Some l.
Proof.
  induction l as [|c l IH]; intros Hl.
  - change (EmptyString +:+ String nl s) with (String nl s). done.
  - apply no_nl_cons in Hl as [Hc Hl]. rewrite app_str_cons. cbn [read_line]. by rewrite Hc, IH.
Qed.

Lemma file_lines_text ls : Forall (λ l, no_nl l = true) ls → file_lines (text ls) = ls.
Proof.
  unfold file_lines. induction 1 as [|l ls Hl _ IH]; [done|]. cbn [text]. rewrite Split_app by done.
  destruct (Split nl (text ls)) as [|x xs] eqn:E; [|by change (l :: removelast (x :: xs) = l :: ls); rewrite IH].
  exfalso. revert E. unfold Split. assert (∀ s acc, split_byte nl s acc ≠ []) as Hn; [|apply Hn].
  induction s as [|c s IHs]; intros acc; cbn [split_byte]; [done|]. destruct (Ascii.eqb nl c); [done|apply IHs].
Qed.

(** Line [k], read at the end of the first [k] lines. *)
Lemma read_nth ls k s :
  Forall (λ l, no_nl l = true) ls → sm_file s = text ls → sm_pos s = String.length (text (take k ls)) → (k ≤ length ls)%nat →
  ReadString s = match ls !! k with
                 | Some l => (Some l, String.length (text (take (S k) ls)))
                 | None => (None, String.length (text (take k ls)))
                 end.
Proof.
  intros Hls Hf Hp Hk. unfold ReadString. rewrite Hf, Hp.
  rewrite <-(take_drop k ls) at 2. rewrite text_app, drop_app_str. destruct (ls !! k) as [l|] eqn:Hl.
  - rewrite (drop_S ls l k Hl). cbn [text]. rewrite read_line_app by exact (Forall_lookup_1 _ _ _ _ Hls Hl).
    rewrite (take_S_r ls k l Hl), text_app, length_app_str. f_equal. cbn [text]. rewrite length_app_str. cbn. lia.
  - apply lookup_ge_None in Hl. rewrite (drop_ge ls k) by lia. cbn. by rewrite take_ge by lia.
Qed.

(** The lines after the first [n], with their numbers. *)
Definition numbered (n : nat) (ls : list string) : list (Z * string) :=
  imap (λ i l, (Z.of_nat (n + i) + 1, l)) (drop n ls).

Lemma numbered_snoc n ls k l :
  (n ≤ k)%nat → ls !! k = Some l → numbered n (take (S k) ls) = numbered n (take k ls) ++ [(Z.of_nat k + 1, l)].
Proof.
  intros Hn Hl. unfold numbered. rewrite (take_S_r ls k l Hl). pose proof (lookup_lt_Some _ _ _ Hl).
  rewrite drop_app_le by (rewrite length_take; lia). rewrite imap_app. cbn. rewrite length_drop, length_take.
  do 4 f_equal. lia.
Qed.

(** ** The stream is the file *)

Definition whole_lines (chunk : string) : Prop := ∃ ls, Forall (λ l, no_nl l = true) ls ∧ chunk = text ls.

Record stream_ok (n : nat) (s : Stream) (ls : list string) (k : nat) : Prop := {
  so_lines : Forall (λ l, no_nl l = true) ls;
  so_file : sm_file s = text ls;
  so_from : (n ≤ length ls)%nat;
  so_k : (k ≤ length ls)%nat;
  so_num : sm_lineNum s = Z.of_nat k;
  so_pos : sm_pos s = String.length (text (take k ls));
  so_out : match sm_phase s with
           | Skipping => (k ≤ n)%nat ∧ sm_out s = []
           | _ => (n ≤ k)%nat ∧ sm_out s = numbered n (take k ls)
           end;
  so_stop : sm_phase s = Stopped None → sm_exited s = true
}.

Lemma numbered_none n k ls : (k ≤ n)%nat → numbered n (take k ls) = [].
Proof. intros H. unfold numbered. rewrite drop_ge; [done|]. rewrite length_take. lia. Qed.

Lemma stream_skip_ok n s ls k :
  sm_phase s = Skipping → stream_ok n s ls k → ∃ k', stream_ok n (stream_skip (Z.of_nat n) s) ls k'.
Proof.
  intros Hph [Hls Hf Hn Hk Hnum Hpos Hout Hst]. rewrite Hph in Hout. destruct Hout as [Hkn Hout].
  unfold stream_skip. destruct (Z.ltb_spec (sm_lineNum s) (Z.of_nat n)).
  - rewrite (read_nth ls k) by done. destruct (ls !! k) as [l|] eqn:Hl.
    + exists (S k). pose proof (lookup_lt_Some _ _ _ Hl). split; cbn; try done; try lia. split; [lia|done].
    + apply lookup_ge_None in Hl. lia.
  - exists k. split; cbn; try done. split; [lia|]. by rewrite numbered_none.
Qed.

Lemma stream_read_ok n s ls k :
  sm_phase s = Reading → stream_ok n s ls k → ∃ k', stream_ok n (stream_read s) ls k'.
Proof.
  intros Hph [Hls Hf Hn Hk Hnum Hpos Hout Hst]. rewrite Hph in Hout. destruct Hout as [Hkn Hout].
  unfold stream_read. rewrite (read_nth ls k) by done. destruct (ls !! k) as [l|] eqn:Hl.
  - exists (S k). pose proof (lookup_lt_Some _ _ _ Hl). split; cbn; try done; try lia. split; [lia|].
    by rewrite (numbered_snoc n ls k l), Hout, Hnum by done.
  - exists k. by split.
Qed.

Lemma stream_step_ok n s s' ls k :
  stream_step whole_lines (Z.of_nat n) s s' → stream_ok n s ls k → ∃ ls' k', stream_ok n s' ls' k'.
Proof.
  intros Hs Hok. destruct Hs as [Hph|Hph|Hph|c Hph|chunk Hx (ls' & Hls' & ->)|Hx].
  - exists ls. by apply (stream_skip_ok n s ls k).
  - exists ls. by apply (stream_read_ok n s ls k).
  - exists ls, k. destruct Hok as [Hls Hf Hn Hk Hnum Hpos Hout Hst]. rewrite Hph in Hout. unfold stream_check.
    destruct (sm_exited s) eqn:He; split; cbn; try done; by rewrite ?He.
  - exists ls, k. destruct Hok as [Hls Hf Hn Hk Hnum Hpos Hout Hst]. rewrite Hph in Hout. unfold stream_wake.
    by destruct c; split.
  - exists (ls ++ ls'), k. destruct Hok as [Hls Hf Hn Hk Hnum Hpos Hout Hst].
    split; cbn; rewrite ?length_app, ?take_app_le by done; try done; [by apply Forall_app| |lia|lia].
    by rewrite text_app, Hf.
  - exists ls, k. by destruct Hok; split.
Qed.

Lemma stream_reachable n s0 s ls k :
  rtc (stream_step whole_lines (Z.of_nat n)) s0 s → stream_ok n s0 ls k → ∃ ls' k', stream_ok n s ls' k'.
Proof.
  intros H. revert ls k. induction H as [|s1 s2 s3 Hs _ IH]; intros ls k Hok; [eauto|].
  destruct (stream_step_ok _ _ _ _ _ Hs Hok) as (ls2 & k2 & H2). by eapply IH.
Qed.

Lemma text_take_all ls k :
  (k ≤ length ls)%nat → String.length (text (take k ls)) = String.length (text ls) → k = length ls.
Proof.
  intros Hk. rewrite <-(take_drop k ls) at 2. rewrite text_app, length_app_str.
  destruct (drop k ls) as [|l r] eqn:Hd.
  - intros _. apply (f_equal length) in Hd. rewrite length_drop in Hd. simpl in Hd. lia.
  - cbn [text]. rewrite length_app_str. cbn. lia.
Qed.

(** The reader's own next step, when its context is not cancelled. *)
Definition stream_turn (fromOffset : Z) (s : Stream) : Stream :=
  match sm_phase s with
  | Skipping => stream_skip fromOffset s
  | Reading => stream_read s
  | Checking => stream_check s
  | Sleeping => stream_wake false s
  | Stopped _ => s
  end.
Fixpoint stream_run (fuel : nat) (fromOffset : Z) (s : Stream) : Stream :=
  match fuel with
  | O => s
  | S fuel => stream_run fuel fromOffset (stream_turn fromOffset s)
  end.

Lemma stream_run_add a b n s : stream_run (a + b) n s = stream_run b n (stream_run a n s).
Proof. revert s. induction a as [|a IH]; intros s; [done|]. apply IH. Qed.

(** What is left to read, once the agent has exited. *)
Lemma read_drains n s ls k m :
  stream_ok n s ls k → sm_phase s = Reading → sm_exited s = true → m = (length ls - k)%nat →
  let s' := stream_run (m + 2) (Z.of_nat n) s in
  sm_phase s' = Stopped None ∧ sm_out s' = numbered n ls.
Proof.
  revert s k. induction m as [|m IH]; intros s k Hok Hph He Hm; pose proof Hok as [Hls Hf Hn Hk Hnum Hpos Hout Hst].
  all: rewrite Hph in Hout; destruct Hout as [Hkn Hout].
  - assert (ls !! k = None) as Hl by (apply lookup_ge_None; lia).
    assert (stream_turn (Z.of_nat n) s = set_sm s (String.length (text (take k ls))) (sm_lineNum s) (sm_out s) Checking) as Ht.
    { unfold stream_turn. rewrite Hph. unfold stream_read. by rewrite (read_nth ls k), Hl by done. }
    cbn [Nat.add stream_run]. rewrite Ht. unfold stream_turn, stream_check. cbn. rewrite He.
    split; [done|]. rewrite Hout. by rewrite take_ge by lia.
  - destruct (lookup_lt_is_Some_2 ls k) as [l Hl]; [lia|].
    assert (stream_read s = set_sm s (String.length (text (take (S k) ls))) (sm_lineNum s + 1) (sm_out s ++ [(sm_lineNum s + 1, l)]) Reading) as Hr.
    { unfold stream_read. by rewrite (read_nth ls k), Hl by done. }
    cbn [Nat.add stream_run]. unfold stream_turn. rewrite Hph, Hr. apply (IH _ (S k)); [|done|done|lia].
    split; cbn; try done; try lia. split; [lia|]. by rewrite (numbered_snoc n ls k l), Hout, Hnum by done.
Qed.

Lemma skip_ends n s ls k :
  stream_ok n s ls k → sm_phase s = Skipping →
  ∃ m k', sm_phase (stream_run m (Z.of_nat n) s) = Reading ∧ stream_ok n (stream_run m (Z.of_nat n) s) ls k' ∧
    sm_exited (stream_run m (Z.of_nat n) s) = sm_exited s.
Proof.
  remember (n - k)%nat as d eqn:Hd. revert s k Hd. induction d as [|d IH]; intros s k Hd Hok Hph; pose proof Hok as [Hls Hf Hn Hk Hnum Hpos Hout Hst].
  all: rewrite Hph in Hout; destruct Hout as [Hkn Hout].
  - exists 1%nat, k. cbn [stream_run]. unfold stream_turn. rewrite Hph. unfold stream_skip.
    destruct (Z.ltb_spec (sm_lineNum s) (Z.of_nat n)); [lia|]. split_and!; [done| |done].
    split; cbn; try done. split; [lia|]. by rewrite numbered_none.
  - destruct (lookup_lt_is_Some_2 ls k) as [l Hl]; [lia|].
    set (s1 := set_sm s (String.length (text (take (S k) ls))) (sm_lineNum s + 1) (sm_out s) Skipping).
    assert (stream_turn (Z.of_nat n) s = s1) as Ht.
    { unfold stream_turn. rewrite Hph. unfold stream_skip. destruct (Z.ltb_spec (sm_lineNum s) (Z.of_nat n)); [|lia].
      by rewrite (read_nth ls k), Hl by done. }
    destruct (IH s1 (S k)) as (m & k' & H1 & H2 & H3); [lia| |done|].
    { split; cbn; try done; try lia. split; [lia|done]. }
    exists (S m), k'. cbn [stream_run]. by rewrite Ht.
Qed.


(** A worker that has two of three lines, and the agent exits. *)
Definition demo_stream : Stream := agent_exit (agent_write (text ["c"]) (open_stream (text ["a"; "b"]) false)).

(** An agent that writes a line in two parts, with a read in between: the first part
    is lost and the second is delivered as if it were the line. *)
Theorem stream_splits_a_line :
  ∃ s, rtc (stream_step (λ _, True) 0) (open_stream EmptyString false) s ∧
    file_lines (sm_file s) = ["ab"] ∧ sm_out s = [(1, "b")].
Proof.
  eexists. split; [|split].
  - eapply rtc_l; [by apply ss_skip|]. eapply rtc_l; [by apply (ss_write _ _ _ "a")|]. eapply rtc_l; [by apply ss_read|].
    eapply rtc_l; [by apply ss_check|]. eapply rtc_l; [by apply (ss_wake _ _ _ false)|].
    eapply rtc_l; [by apply (ss_write _ _ _ (String "b" (str1 nl)))|]. eapply rtc_l; [by apply ss_read|]. apply rtc_refl.
  - reflexivity.
  - reflexivity.
Qed.

(** An agent that writes its last line and exits after the reader has met the end of
    the file and before it asks for the status: the stream ends without the line. *)
Theorem stream_misses_the_last_line :
  ∃ s, rtc (stream_step whole_lines 0) (open_stream (text ["a"]) false) s ∧
    sm_phase s = Stopped None ∧ file_lines (sm_file s) = ["a"; "b"] ∧ sm_out s = [(1, "a")].
Proof.
  eexists. split; [|split_and!].
  - eapply rtc_l; [by apply ss_skip|]. eapply rtc_l; [by apply ss_read|]. eapply rtc_l; [by apply ss_read|].
    eapply rtc_l; [apply (ss_write _ _ _ (text ["b"])); [done|exists ["b"]; by repeat constructor]|].
    eapply rtc_l; [by apply ss_exit|]. eapply rtc_l; [by apply ss_check|]. apply rtc_refl.
  - reflexivity.
  - reflexivity.
  - reflexivity.
Qed.
