(* ===== verification/AgentResume.v ===== *)
(** * Resuming an agent's output

    The wire between the supervisor and a worker: the server-sent events of
    [handleAgentByID] ([internal/supervisor/supervisor.go]), their decoding in
    [Client.StreamEvents] ([internal/supervisor/client/client.go]), and the boot-time
    resumption of [internal/worker/resume.go], which appends the lines it lacks to the
    event file of a session.

    [json.Unmarshal] into a [StreamEvent] is a parameter; the theorems assume of it
    that it reads back what [json.Marshal] writes.  The answers of the supervisor are
    parameters as well. *)

From S2P Require Import Prelude GoLib Json GoText AgentStream.
From Stdlib Require Import Ascii.

(** ** Server-sent events *)

(** [json.Marshal] of the map with the keys "offset" and "line", in key order. *)
Definition marshal_event (ev : Z * string) : string :=
  str1 "{" +:+ enc_string "line" +:+ ":" +:+ enc_string ev.2 +:+ "," +:+ enc_string "offset" +:+ ":" +:+ itoa ev.1 +:+ "}".
Definition data_frame (payload : string) : list string := ["data: " +:+ payload; EmptyString].
(** The response of [/agents/:id/events]: the frames of the stream and, after an
    error other than a cancellation, an error event. *)
Definition events_body (out : list (Z * string)) (err : option string) : string :=
  text (mjoin ((λ ev, data_frame (marshal_event ev)) <$> out) ++
        match err with Some e => ["event: error"; "data: " +:+ Quote e; EmptyString] | None => [] end).

Definition ErrAgentNotFound : error := EMsg "supervisor: agent not found".

(** [strings.TrimRight] with the line terminators as its cutset. *)
Fixpoint trim_left_crlf (s : string) : string :=
  match s with
  | String c r => if byte_is c 10 || byte_is c 13 then trim_left_crlf r else s
  | EmptyString => EmptyString
  end.
Definition TrimRightCRLF (s : string) : string := rev_str (trim_left_crlf (rev_str s EmptyString)) EmptyString.

(** How the body ends: at its end, or with an error of the connection. *)
Inductive BodyEnd := BodyEOF | BodyCancelled | BodyError (e : error).

Section client.
Context (unmarshal : string → option (Z * string)) {S : Type} (onEvent : Z * string → St S (option error)).

(** A blank line dispatches the event; [None] goes on. *)
Definition client_dispatch (dataBuf eventName : string) : St S (option error) :=
  if bool_decide (eventName = "error") then mret (Some (EMsg ("supervisor stream error: " +:+ dataBuf)))
  else if bool_decide (dataBuf = EmptyString) then mret None
  else match unmarshal dataBuf with
       | None => mret (Some (EMsg "decode SSE data"))
       | Some ev => onEvent ev
       end.

(** The end of the stream, with an event that has no blank line after it. *)
Definition client_flush (dataBuf eventName : string) : St S (option error) :=
  if bool_decide (eventName = "error") then mret (Some (EMsg ("supervisor stream error: " +:+ dataBuf)))
  else match (if bool_decide (dataBuf = EmptyString) then None else unmarshal dataBuf) with
       | None => mret None
       | Some ev => onEvent ev;; mret None
       end.

(** The loop over the lines of the body; the last is the one without a newline. *)
Fixpoint client_lines (lines : list string) (fin : BodyEnd) (dataBuf eventName : string) : St S (option error) :=
  match lines with
  | [] =>
      match fin with
      | BodyEOF => client_flush dataBuf eventName
      | BodyCancelled => mret (Some ErrContext)
      | BodyError e => mret (Some (EWrap "read SSE" e))
      end
  | raw :: lines =>
      let line := TrimRightCRLF raw in
      if bool_decide (raw = EmptyString ∧ lines = []) then client_lines lines fin dataBuf eventName
      else if bool_decide (line = EmptyString) then
        r ← client_dispatch dataBuf eventName;
        match r with
        | Some e => mret (Some e)
        | None => client_lines lines fin EmptyString EmptyString
        end
      else if HasPrefix line ":" then client_lines lines fin dataBuf eventName
      else if HasPrefix line "event:" then client_lines lines fin dataBuf (TrimSpace (TrimPrefix line "event:"))
      else if HasPrefix line "data:" then
        let data := TrimSpace (TrimPrefix line "data:") in
        client_lines lines fin (if bool_decide (dataBuf = EmptyString) then data else dataBuf +:+ String nl data) eventName
      else client_lines lines fin dataBuf eventName
  end.

(** The answer to a request: none, or a status and a body. *)
Inductive Answer := NoAnswer (e : error) | Answered (status : Z) (body : string) (fin : BodyEnd).

Definition StreamEvents (ans : Answer) : St S (option error) :=
  match ans with
  | NoAnswer e => mret (Some (EWrap "get events" e))
  | Answered status body fin =>
      if status =? 404 then mret (Some ErrAgentNotFound)
      else if negb (status =? 200) then mret (Some (EMsg ("get events: status " +:+ itoa status +:+ ": " +:+ TrimSpace body)))
      else client_lines (Split nl body) fin EmptyString EmptyString
  end.
End client.

(** ** Resumption *)

Record AgentStatus := mkStatus { as_Status : string; as_ExitCode : option Z }.
Record InFlightTask := mkInFlight { if_TaskID : string; if_SupervisorAgentID : string; if_EventsV1Path : string }.

Inductive Outcome :=
  | OnFailed (taskID reason : string)
  | OnExited (taskID : string) (status : AgentStatus).

(** The event file ([None] when it does not exist) and the calls of the handler. *)
Record Resumed := mkResumed { re_file : option string; re_calls : list Outcome }.
Definition handle (o : Outcome) : St Resumed (res unit) :=
  modS (λ r, mkResumed (re_file r) (re_calls r ++ [o]));; mret (Ok tt).

(** [bufio.Scanner]: the lines, the last one also when it is not terminated; a
    line that does not fit the buffer is an error. *)
Definition scan_lines (s : string) : list string :=
  match last (Split nl s) with
  | Some EmptyString => removelast (Split nl s)
  | _ => Split nl s
  end.
Definition max_token : nat := Z.to_nat (1024 * 1024).
Definition countEventLines (path : string) (file : option string) : res Z :=
  if bool_decide (path = EmptyString) then Ok 0
  else match file with
       | None => Ok 0
       | Some s =>
           if existsb (λ l, (Z.of_nat max_token <=? Z.of_nat (String.length l))) (scan_lines s)
           then Err (EMsg "bufio.Scanner: token too long")
           else Ok (Z.of_nat (length (scan_lines s)))
       end.

(** [openEventsAppend]: the null device for an empty path; the file is created. *)
Definition open_events (path : string) (r : Resumed) : Resumed :=
  if bool_decide (path = EmptyString) then r
  else mkResumed (Some (default EmptyString (re_file r))) (re_calls r).
Definition append_line (path line : string) (r : Resumed) : Resumed :=
  if bool_decide (path = EmptyString) then r
  else mkResumed ((λ s, s +:+ line +:+ str1 nl) <$> re_file r) (re_calls r).

(** The callback of [resumeRunning], with the offset it has reached. *)
Definition resume_event (path : string) (ev : Z * string) : St (Z * Resumed) (option error) :=
  λ '(from, r), if ev.1 <=? from then (None, (from, r)) else (None, (ev.1, append_line path ev.2 r)).

Section resume.
Context (unmarshal : string → option (Z * string)).

(** [events] is the supervisor's answer for an offset, [final] its second status. *)
Definition resumeRunning (t : InFlightTask) (events : Z → Answer) (final : res AgentStatus) : St Resumed (res unit) :=
  r ← getS;
  match countEventLines (if_EventsV1Path t) (re_file r) with
  | Err e => mret (Err (EWrap "count events-v1.jsonl lines" e))
  | Ok from =>
      modS (open_events (if_EventsV1Path t));;
      streamErr ← (λ r, let '(e, (_, r')) := StreamEvents unmarshal (resume_event (if_EventsV1Path t)) (events from) (from, r) in (e, r'));
      match streamErr with
      | Some e =>
          if errors_Is e ErrAgentNotFound
          then handle (OnFailed (if_TaskID t) ("supervisor lost agent " +:+ if_SupervisorAgentID t +:+ " mid-resume"))
          else if errors_Is e ErrContext then mret (Ok tt)
          else mret (Err (EWrap "stream events" e))
      | None =>
          match final with
          | Err e =>
              if errors_Is e ErrAgentNotFound
              then handle (OnFailed (if_TaskID t) ("supervisor lost agent " +:+ if_SupervisorAgentID t +:+ " after stream close"))
              else mret (Err (EWrap "supervisor status after stream close" e))
          | Ok st => if bool_decide (as_Status st = "exited") then handle (OnExited (if_TaskID t) st) else mret (Ok tt)
          end
      end
  end.

Definition resumeOne (t : InFlightTask) (status : res AgentStatus) (events : Z → Answer) (final : res AgentStatus) :
    St Resumed (res unit) :=
  if bool_decide (if_SupervisorAgentID t = EmptyString) then mret (Err (EMsg "missing supervisor_agent_id"))
  else match status with
       | Err e =>
           if errors_Is e ErrAgentNotFound
           then handle (OnFailed (if_TaskID t) ("supervisor does not recognize agent " +:+ if_SupervisorAgentID t))
           else mret (Err (EWrap "supervisor status" e))
       | Ok st =>
           if bool_decide (as_Status st = "exited") then handle (OnExited (if_TaskID t) st)
           else if bool_decide (as_Status st = "running") then resumeRunning t events final
           else mret (Err (EMsg ("unexpected supervisor status " +:+ Quote (as_Status st) +:+ " for agent " +:+ if_SupervisorAgentID t)))
       end.
End resume.

(** ** A JSON document is one line *)

Definition high (c : ascii) : bool := (128 <=? N_of_ascii c)%N.
Lemma byte_in_high c lo hi : byte_in c lo hi = true → (128 <= lo)%N → high c = true.
Proof. unfold byte_in, high. rewrite andb_true_iff, !N.leb_le. lia. Qed.
Lemma byte_is_high c n : byte_is c n = true → (128 <= n)%N → high c = true.
Proof. unfold byte_is, high. rewrite N.eqb_eq, N.leb_le. lia. Qed.
Lemma utf8_lead_high2 a b : utf8_2 a b = true → high a = true ∧ high b = true.
Proof. unfold utf8_2, utf8_cont. intros [? ?]%andb_true_iff. split; eapply byte_in_high; done. Qed.
Lemma if_high (a b : ascii) (n1 n2 : N) (x y z : bool) :
  (128 <= n1)%N → (128 <= n2)%N →
  (if byte_is a n1 then x else if byte_is a n2 then y else z) = true →
  (x = true → high b = true) → (y = true → high b = true) → (z = true → high a = true ∧ high b = true) →
  high a = true ∧ high b = true.
Proof.
  intros H1 H2. destruct (byte_is a n1) eqn:E1; [pose proof (byte_is_high _ _ E1 H1); auto|].
  destruct (byte_is a n2) eqn:E2; [pose proof (byte_is_high _ _ E2 H2); auto|]. auto.
Qed.
Lemma utf8_high3 a b c : utf8_3 a b c = true → high a = true ∧ high b = true ∧ high c = true.
Proof.
  unfold utf8_3, utf8_cont. intros [Hc Hab]%andb_true_iff. apply byte_in_high in Hc; [|done].
  destruct (if_high a b 224 237 _ _ _ ltac:(done) ltac:(done) Hab) as [? ?]; [..|auto].
  all: try (intros H; eapply byte_in_high; [exact H|done]).
  intros [? ?]%andb_true_iff. split; (eapply byte_in_high; [eassumption|done]).
Qed.
Lemma utf8_high4 a b c d : utf8_4 a b c d = true → high a = true ∧ high b = true ∧ high c = true ∧ high d = true.
Proof.
  unfold utf8_4, utf8_cont. intros [[Hc Hd]%andb_true_iff Hab]%andb_true_iff.
  apply byte_in_high in Hc; [|done]. apply byte_in_high in Hd; [|done].
  destruct (if_high a b 240 244 _ _ _ ltac:(done) ltac:(done) Hab) as [? ?]; [..|auto].
  all: try (intros H; eapply byte_in_high; [exact H|done]).
  intros [? ?]%andb_true_iff. split; (eapply byte_in_high; [eassumption|done]).
Qed.
Lemma utf8_bytes_high s : all_str high (take_str (utf8_len s) s) = true.
Proof.
  destruct s as [|a [|b s]]; [done..|]. cbn [utf8_len]. destruct (utf8_2 a b) eqn:E2.
  { apply utf8_lead_high2 in E2 as [? ?]. cbn. rewrite H, H0. by destruct s. }
  destruct s as [|c s]; [done|]. destruct (utf8_3 a b c) eqn:E3.
  { apply utf8_high3 in E3 as (? & ? & ?). cbn. rewrite H, H0, H1. by destruct s. }
  destruct s as [|d s]; [done|]. destruct (utf8_4 a b c d) eqn:E4; [|done].
  apply utf8_high4 in E4 as (? & ? & ? & ?). cbn. rewrite H, H0, H1, H2. by destruct s.
Qed.

Lemma no_nl_app s t : no_nl (s +:+ t) = no_nl s && no_nl t.
Proof. apply all_str_app. Qed.
Lemma high_no_nl s : all_str high s = true → no_nl s = true.
Proof. apply all_str_mono. intros c. by destruct c as [[][][][][][][][]]. Qed.
Lemma enc_ascii_no_nl c : no_nl (enc_ascii c) = true.
Proof. by destruct c as [[][][][][][][][]]. Qed.
Lemma enc_chars_no_nl n s : no_nl (enc_chars n s) = true.
Proof.
  revert s. induction n as [|n IH]; intros [|a r]; try done. cbn [enc_chars].
  destruct (is_ascii a); [by rewrite no_nl_app, enc_ascii_no_nl, IH|].
  destruct (utf8_len (String a r)) as [|k] eqn:Hk; rewrite no_nl_app, IH, andb_true_r; [done|].
  unfold enc_multi. repeat (case_bool_decide; [done|]). rewrite <-Hk. apply high_no_nl, utf8_bytes_high.
Qed.
Lemma enc_string_no_nl s : no_nl (enc_string s) = true.
Proof. unfold enc_string. change (no_nl (enc_chars (String.length s) s +:+ str1 dquote) = true). by rewrite no_nl_app, enc_chars_no_nl. Qed.
Lemma itoa_no_nl z : no_nl (itoa z) = true.
Proof. eapply all_str_mono; [|apply itoa_bytes]. intros c. by destruct c as [[][][][][][][][]]. Qed.
Lemma marshal_event_no_nl ev : no_nl (marshal_event ev) = true.
Proof. unfold marshal_event. rewrite !no_nl_app, !enc_string_no_nl, itoa_no_nl. done. Qed.

Lemma quote_ascii_no_nl c : no_nl (quote_ascii c) = true.
Proof. by destruct c as [[][][][][][][][]]. Qed.
Lemma hex2_no_nl c : no_nl (hex2 c) = true.
Proof. by destruct c as [[][][][][][][][]]. Qed.
Lemma quote_chars_no_nl n s : no_nl (quote_chars n s) = true.
Proof.
  revert s. induction n as [|n IH]; intros [|a r]; try done. cbn [quote_chars].
  destruct (is_ascii a); [by rewrite no_nl_app, quote_ascii_no_nl, IH|].
  destruct (utf8_len (String a r)) as [|k] eqn:Hk; rewrite no_nl_app, IH, andb_true_r; [apply hex2_no_nl|].
  rewrite <-Hk. apply high_no_nl, utf8_bytes_high.
Qed.
Lemma Quote_no_nl s : no_nl (Quote s) = true.
Proof. unfold Quote. change (no_nl (quote_chars (String.length s) s +:+ str1 dquote) = true). by rewrite no_nl_app, quote_chars_no_nl. Qed.

(** Nothing is trimmed from a text between two graphic characters. *)
Definition framed (s : string) : Prop := ∃ a b m, graphic a = true ∧ graphic b = true ∧ s = String a m +:+ str1 b.
Lemma marshal_event_framed ev : framed (marshal_event ev).
Proof.
  eexists "{"%char, "}"%char, (enc_string "line" +:+ ":" +:+ enc_string ev.2 +:+ "," +:+ enc_string "offset" +:+ ":" +:+ itoa ev.1).
  split_and!; [done..|]. unfold marshal_event. rewrite (app_str_cons "{"), !app_str_assoc. done.
Qed.
Lemma Quote_framed s : framed (Quote s).
Proof. by eexists dquote, dquote, (quote_chars (String.length s) s). Qed.

Lemma TrimSpace_framed s : framed s → TrimSpace (String " " s) = s.
Proof.
  intros (a & b & m & Ha & Hb & ->). unfold TrimSpace.
  assert (∀ fuel, trim_front (S fuel) space_front (String " " (String a m +:+ str1 b)) = String a m +:+ str1 b) as Hf.
  { intros fuel. cbn [trim_front]. change (space_front (String " " ?x)) with 1%nat. cbn [drop_str].
    apply trim_front_id. by apply space_front_graphic. }
  change (String.length (String " " ?x)) with (S (String.length x)). rewrite Hf.
  rewrite trim_front_id; [apply rev_str_involutive|]. rewrite rev_str_snoc. by apply space_back_graphic.
Qed.

Lemma TrimRightCRLF_framed p s : framed s → TrimRightCRLF (p +:+ s) = p +:+ s.
Proof.
  intros (a & b & m & _ & Hb & ->). rewrite <-app_str_assoc. unfold TrimRightCRLF. rewrite rev_str_snoc. cbn [trim_left_crlf].
  rewrite !(graphic_not_is b) by (done || lia). cbn [orb]. rewrite <-(rev_str_snoc (p +:+ String a m) b EmptyString). apply rev_str_involutive.
Qed.

Lemma Split_text ls : Forall (λ l, no_nl l = true) ls → Split nl (text ls) = ls ++ [EmptyString].
Proof. induction 1 as [|l ls Hl _ IH]; [done|]. cbn [text]. by rewrite Split_app, IH by done. Qed.

(** ** What the callback is given *)

(** Events the wire carries: 64-bit offsets, text in UTF-8. *)
Definition event_ok (ev : Z * string) : Prop := valid_utf8 ev.2 = true ∧ int64_ok ev.1 = true.

Section callback.
Context (unmarshal : string → option (Z * string)) {S : Type} (onEvent : Z * string → St S (option error)).

(** The callback on each event, until it fails. *)
Fixpoint each (evs : list (Z * string)) : St S (option error) :=
  match evs with
  | [] => mret None
  | ev :: evs => r ← onEvent ev; match r with Some e => mret (Some e) | None => each evs end
  end.
Definition then_fail (e : option error) (m : St S (option error)) : St S (option error) :=
  r ← m; mret (match r with Some e' => Some e' | None => e end).

Definition readable (ev : Z * string) : Prop := unmarshal (marshal_event ev) = Some ev.

(** A line with a field, then the blank line that ends its event. *)
Lemma client_data payload lines fin buf name :
  framed payload →
  client_lines unmarshal onEvent (("data: " +:+ payload) :: lines) fin buf name =
  client_lines unmarshal onEvent lines fin (if bool_decide (buf = EmptyString) then payload else buf +:+ String nl payload) name.
Proof.
  intros Hp. cbn [client_lines]. rewrite TrimRightCRLF_framed by done.
  rewrite (bool_decide_eq_false_2 (_ ∧ _)) by (intros [? _]; done).
  rewrite bool_decide_eq_false_2 by done. change ("data: " +:+ payload) with ("data:" +:+ String " " payload).
  change (HasPrefix ("data:" +:+ String " " payload) ":") with false.
  change (HasPrefix ("data:" +:+ String " " payload) "event:") with false.
  rewrite HasPrefix_app, TrimPrefix_app, TrimSpace_framed by done. done.
Qed.
Lemma client_blank line lines fin buf name :
  client_lines unmarshal onEvent (EmptyString :: line :: lines) fin buf name =
  (r ← client_dispatch unmarshal onEvent buf name;
   match r with Some e => mret (Some e) | None => client_lines unmarshal onEvent (line :: lines) fin EmptyString EmptyString end).
Proof. done. Qed.

Lemma framed_nonempty s : framed s → s ≠ EmptyString.
Proof. by intros (a & b & m & _ & _ & ->). Qed.

Lemma client_frames out line lines fin s :
  Forall readable out →
  client_lines unmarshal onEvent (mjoin ((λ ev, data_frame (marshal_event ev)) <$> out) ++ line :: lines) fin EmptyString EmptyString s =
  (r ← each out; match r with Some e => mret (Some e) | None => client_lines unmarshal onEvent (line :: lines) fin EmptyString EmptyString end) s.
Proof.
  intros Hr. revert s. induction Hr as [|ev out Hev _ IH]; intros s; [done|].
  pose proof (marshal_event_framed ev) as Hf. unfold data_frame. cbn [fmap list_fmap mjoin list_join app].
  rewrite client_data by done. rewrite bool_decide_eq_true_2 by done.
  set (rest := mjoin _ ++ line :: lines). assert (∃ a b, rest = a :: b) as (a & b & Hab).
  { unfold rest. destruct out; cbn; eauto. }
  rewrite Hab, client_blank. unfold client_dispatch. rewrite bool_decide_eq_false_2 by done.
  rewrite bool_decide_eq_false_2 by by apply framed_nonempty. unfold readable in Hev. rewrite Hev. cbn [each].
  unfold mbind, St_bind. destruct (onEvent ev s) as [[e|] s']; cbn [fst snd]; [done|]. rewrite <-Hab. unfold rest. by rewrite IH.
Qed.

(** The client's loop over the body of the server. *)
Lemma client_reads_body out err s :
  Forall readable out →
  client_lines unmarshal onEvent (Split nl (events_body out err)) BodyEOF EmptyString EmptyString s =
  then_fail ((λ e, EMsg ("supervisor stream error: " +:+ Quote e)) <$> err) (each out) s.
Proof.
  intros Hr. unfold events_body. rewrite Split_text.
  2: { apply Forall_app. split.
       - apply Forall_join, Forall_fmap, Forall_true. intros ev. cbn. unfold data_frame. repeat constructor.
         rewrite no_nl_app. by rewrite marshal_event_no_nl.
       - destruct err as [e|]; repeat constructor. rewrite no_nl_app. by rewrite Quote_no_nl. }
  rewrite <-app_assoc. destruct err as [e|].
  - cbn [app]. rewrite (client_frames out) by done. unfold then_fail, mbind, St_bind.
    destruct (each out s) as [[e'|] s']; [done|]. cbn [fst snd fmap option_fmap option_map mret St_ret].
    change (client_lines unmarshal onEvent ("event: error" :: ?l) BodyEOF EmptyString EmptyString)
      with (client_lines unmarshal onEvent l BodyEOF EmptyString "error").
    rewrite client_data by apply Quote_framed. rewrite bool_decide_eq_true_2 by done. rewrite client_blank.
    unfold client_dispatch. by rewrite bool_decide_eq_true_2 by done.
  - cbn [app]. rewrite (client_frames out) by done. unfold then_fail, mbind, St_bind.
    by destruct (each out s) as [[e'|] s'].
Qed.
End callback.

(** What the supervisor streams is what the worker's callback gets: every event of
    the stream, unchanged and in order, until the callback itself fails; a stream
    that ends without an error ends the call without one, and an error of the
    supervisor is never taken for the end of the output. *)
Theorem sse_roundtrip unmarshal {S} (onEvent : Z * string → St S (option error)) out err s :
  (∀ ev, event_ok ev → unmarshal (marshal_event ev) = Some ev) →
  Forall event_ok out →
  StreamEvents unmarshal onEvent (Answered 200 (events_body out err) BodyEOF) s =
  then_fail ((λ e, EMsg ("supervisor stream error: " +:+ Quote e)) <$> err) (each onEvent out) s.
Proof.
  intros Hu Ho. apply client_reads_body. eapply Forall_impl; [exact Ho|]. intros ev Hev. by apply Hu.
Qed.

(** A reader of the canonical form. *)
Definition read_canonical (s : string) : option (Z * string) :=
  '(l, rest) ← dec_elem (TrimPrefix s (str1 "{" +:+ enc_string "line" +:+ ":"));
  n ← atoi (TrimSuffix (TrimPrefix rest ("," +:+ enc_string "offset" +:+ ":")) "}");
  Some (n, l).
Lemma read_canonical_marshal ev : event_ok ev → read_canonical (marshal_event ev) = Some ev.
Proof.
  intros [Hv Hn]. unfold read_canonical, marshal_event.
  replace (str1 "{" +:+ enc_string "line" +:+ ":" +:+ enc_string ev.2 +:+ "," +:+ enc_string "offset" +:+ ":" +:+ itoa ev.1 +:+ "}")
    with ((str1 "{" +:+ enc_string "line" +:+ ":") +:+ enc_string ev.2 +:+ ("," +:+ enc_string "offset" +:+ ":") +:+ itoa ev.1 +:+ "}")
    by (by rewrite !app_str_assoc).
  rewrite TrimPrefix_app, dec_elem_enc by done. cbn [mbind option_bind].
  rewrite TrimPrefix_app, TrimSuffix_app, atoi_itoa by done. by destruct ev.
Qed.

(** Three lines, the second with characters that are escaped. *)
Definition demo_events : list (Z * string) := [(3, "plain"); (4, String dquote (String bslash "<x>")); (5, EmptyString)].
Lemma sse_roundtrip_witness :
  StreamEvents read_canonical (λ ev s, (None, s ++ [ev])) (Answered 200 (events_body demo_events None) BodyEOF) [] =
  (None, demo_events).
Proof.
  etransitivity; [apply (sse_roundtrip read_canonical (λ ev s, (None, s ++ [ev])) demo_events None [])|reflexivity].
  - exact read_canonical_marshal.
  - repeat constructor.
Defined.

(** ** The event file *)

Section resuming.
Context (unmarshal : string → option (Z * string)).

Lemma resume_event_new path ev from r :
  from < ev.1 → resume_event path ev (from, r) = (None, (ev.1, append_line path ev.2 r)).
Proof. intros H. unfold resume_event. destruct (Z.leb_spec ev.1 from); [lia|done]. Qed.

Lemma each_resume path ms n r :
  path ≠ EmptyString →
  each (resume_event path) (imap (λ i l, (Z.of_nat (n + i) + 1, l)) ms) (Z.of_nat n, r) =
  (None, (Z.of_nat (n + length ms), mkResumed ((λ s, s +:+ text ms) <$> re_file r) (re_calls r))).
Proof.
  intros Hp. revert n r. induction ms as [|l ms IH]; intros n r.
  - cbn. rewrite Nat.add_0_r. destruct r as [[f|] c]; cbn; [|done]. by rewrite app_str_nil.
  - rewrite imap_cons. cbn [each]. unfold mbind, St_bind. rewrite resume_event_new by (cbn; lia). cbn [fst snd].
    rewrite (imap_ext _ (λ i l, (Z.of_nat (S n + i) + 1, l))) by (intros; cbn; do 2 f_equal; lia).
    replace (Z.of_nat (n + 0) + 1) with (Z.of_nat (S n)) by lia. rewrite IH. unfold append_line.
    rewrite bool_decide_eq_false_2 by done. cbn [re_file re_calls text]. do 3 f_equal; [simpl; lia|].
    destruct (re_file r) as [f|]; cbn [fmap option_fmap option_map]; [|done]. f_equal. rewrite !app_str_assoc. done.
Qed.

Lemma imap_prefix {A B} (f : nat → A → B) l out rest : imap f l = out ++ rest → out = imap f (take (length out) l).
Proof.
  revert f l. induction out as [|x out IH]; intros f l H; [done|]. destruct l as [|y l]; [done|].
  rewrite imap_cons in H. injection H as Hx H. cbn [length take]. rewrite imap_cons, Hx. f_equal. by apply IH.
Qed.
Lemma prefix_numbered out n ls :
  out `prefix_of` numbered n ls → out = imap (λ i l, (Z.of_nat (n + i) + 1, l)) (take (length out) (drop n ls)).
Proof. intros [rest Hr]. by eapply imap_prefix. Qed.

Lemma countEventLines_text path ls :
  Forall (λ l, no_nl l = true) ls → Forall (λ l, (String.length l < max_token)%nat) ls → path ≠ EmptyString →
  countEventLines path (Some (text ls)) = Ok (Z.of_nat (length ls)).
Proof.
  intros Hn Hl Hp. unfold countEventLines. rewrite bool_decide_eq_false_2 by done.
  assert (scan_lines (text ls) = ls) as ->.
  { unfold scan_lines. rewrite Split_text by done. rewrite last_snoc, removelast_last. done. }
  destruct (existsb _ ls) eqn:E; [|done]. apply existsb_elem in E as (l & Hl' & Hle). rewrite Forall_forall in Hl.
  specialize (Hl l Hl'). apply Z.leb_le in Hle. lia.
Qed.

(** The stream of the supervisor, appended to a file that holds the lines before it. *)
Lemma stream_resumed t n ls out r :
  (∀ ev, event_ok ev → unmarshal (marshal_event ev) = Some ev) →
  out `prefix_of` numbered n ls → (n ≤ length ls)%nat →
  Forall (λ l, valid_utf8 l = true) ls → Z.of_nat (length ls) < 2 ^ 63 →
  if_EventsV1Path t ≠ EmptyString → re_file r = Some (text (take n ls)) →
  StreamEvents unmarshal (resume_event (if_EventsV1Path t)) (Answered 200 (events_body out None) BodyEOF) (Z.of_nat n, r) =
  (None, (Z.of_nat (n + length (take (length out) (drop n ls))), mkResumed (Some (text (take (n + length out) ls))) (re_calls r))).
Proof.
  intros Hu Hpre Hn Hv H63 Hp Hf. cbn [StreamEvents]. cbn [Z.eqb negb Pos.eqb]. rewrite client_reads_body.
  2: { rewrite (prefix_numbered out n ls Hpre). apply Forall_lookup_2. intros i ev. rewrite list_lookup_imap.
       intros (l & Hl & ->)%fmap_Some. apply Hu. split; cbn.
       - apply (Forall_lookup_1 (λ l, valid_utf8 l = true) ls (n + i)); [exact Hv|]. apply lookup_take_Some in Hl as [Hl _]. by rewrite lookup_drop in Hl.
       - apply lookup_take_Some in Hl as [Hl _]. rewrite lookup_drop in Hl. apply lookup_lt_Some in Hl.
         unfold int64_ok. apply andb_true_iff. split; [apply Z.leb_le; lia|apply Z.ltb_lt; lia]. }
  unfold then_fail, mbind, St_bind. rewrite (prefix_numbered out n ls Hpre) at 1 2. rewrite each_resume by done. cbn.
  do 4 f_equal. rewrite Hf. cbn. f_equal. rewrite <-text_app. f_equal. by rewrite take_take_drop.
Qed.

Lemma resume_calls path ans from r :
  re_calls (StreamEvents unmarshal (resume_event path) ans (from, r)).2.2 = re_calls r.
Proof.
  assert (Hev : ∀ ev, keeps (same (λ p : Z * Resumed, re_calls p.2)) (resume_event path ev)).
  { intros ev [f r']. unfold same, resume_event. destruct (_ <=? _); [done|]. cbn. unfold append_line. by case_bool_decide. }
  assert (Hk : keeps (same (λ p : Z * Resumed, re_calls p.2)) (StreamEvents unmarshal (resume_event path) ans)); [|apply (Hk (from, r))].
  assert (Hd : ∀ b e, keeps (same (λ p : Z * Resumed, re_calls p.2)) (client_dispatch unmarshal (resume_event path) b e)).
  { intros b e. unfold client_dispatch. repeat first [apply Hev|keep_step]. }
  unfold StreamEvents. destruct ans as [e|st body fin]; [keep_auto|]. destruct (_ =? _); [keep_auto|]. destruct (negb _); [keep_auto|].
  generalize (EmptyString) at 1 as b. generalize (EmptyString) as e. induction (Split nl body) as [|l lines IH]; intros e b; cbn [client_lines].
  - destruct fin; unfold client_flush; repeat first [apply Hev|keep_step].
  - cbv zeta. repeat first [apply IH|apply Hd|keep_step].
Qed.
End resuming.


Ltac no_report := exists []; split_and!; [rewrite app_nil_r; congruence|simpl; lia|done|constructor].

(** What a resumption reports of a task is what the supervisor said: at most one
    report is made; the task is failed only when the supervisor does not know the
    agent, and exited only with a status that says so; a resumption that ends with an
    error reports nothing, so that the next start of the worker tries again. *)
Theorem resume_reports_what_is_known unmarshal t status events final r :
  let '(res, r') := resumeOne unmarshal t status events final r in
  ∃ calls, re_calls r' = re_calls r ++ calls ∧
    (length calls ≤ 1)%nat ∧ (is_err res = true → calls = []) ∧
    Forall (λ o, match o with
                 | OnFailed id _ => id = if_TaskID t ∧
                     ((∃ e, status = Err e ∧ errors_Is e ErrAgentNotFound = true) ∨
                      (∃ e, final = Err e ∧ errors_Is e ErrAgentNotFound = true) ∨
                      (∃ n from r0 e, (StreamEvents unmarshal (resume_event (if_EventsV1Path t)) (events n) (from, r0)).1 = Some e ∧
                         errors_Is e ErrAgentNotFound = true))
                 | OnExited id st => id = if_TaskID t ∧ as_Status st = "exited" ∧ (status = Ok st ∨ final = Ok st)
                 end) calls.
Proof.
  destruct (resumeOne unmarshal t status events final r) as [res r'] eqn:E. revert E.
  unfold resumeOne. case_bool_decide; [intros [= <- <-]; no_report|].
  destruct status as [st|e].
  2: { destruct (errors_Is e ErrAgentNotFound) eqn:He; [|intros [= <- <-]; no_report].
       intros [= <- <-]. eexists. split; [done|]. split_and!; [done|done|]. apply Forall_singleton. split; [done|]. left. eauto. }
  case_bool_decide as Hx; [intros [= <- <-]; eexists; split; [done|]; split_and!; [done|done|]; apply Forall_singleton; auto|].
  case_bool_decide; [|intros [= <- <-]; no_report].
  unfold resumeRunning, mbind, St_bind, getS. cbn [fst snd]. destruct (countEventLines _ _) as [from|e]; [|intros [= <- <-]; no_report].
  cbn [fst snd modS]. set (r0 := open_events _ r). assert (Hr0 : re_calls r0 = re_calls r) by (unfold r0, open_events; by case_bool_decide).
  pose proof (resume_calls unmarshal (if_EventsV1Path t) (events from) from r0) as Hc.
  destruct (StreamEvents _ _ _ (from, r0)) as [[e|] [f r1]] eqn:Es; cbn [fst snd] in *.
  - destruct (errors_Is e ErrAgentNotFound) eqn:He.
    + intros [= <- <-]. eexists. cbn. rewrite Hc, Hr0. split; [done|]. split_and!; [done|done|]. apply Forall_singleton. split; [done|].
      right. right. exists from, from, r0, e. by rewrite Es.
    + destruct (errors_Is e ErrContext); intros [= <- <-]; no_report.
  - destruct final as [st'|e]; [case_bool_decide|destruct (errors_Is e ErrAgentNotFound) eqn:He].
    + intros [= <- <-]. eexists. cbn. rewrite Hc, Hr0. split; [done|]. split_and!; [done|done|]. apply Forall_singleton. auto.
    + intros [= <- <-]. no_report.
    + intros [= <- <-]. eexists. cbn. rewrite Hc, Hr0. split; [done|]. split_and!; [done|done|]. apply Forall_singleton. split; [done|]. right. left. eauto.
    + intros [= <- <-]. no_report.
Qed.

(** A worker with one of two lines. *)
Definition demo_running : Stream := stream_read (stream_skip 1 (stream_skip 1 (open_stream (text ["a"; "b"]) false))).
Definition demo_task : InFlightTask := mkInFlight "t1" "agent-1" "/sessions/s1/events-v1.jsonl".
