(* ===== verification/Supervisor.v ===== *)
(** * The agent supervisor

    [internal/supervisor]: a process of its own that starts the agents of a host and
    outlives the workers.  It keeps an agent per subprocess in memory, a row per agent
    in SQLite ([store.go]), and rebuilds the first from the second when it restarts
    ([recoverFromDB]), telling its own processes from strangers that got the same pid
    by the start time the kernel reports ([proc.go]).

    The state holds the processes of the host as well: their start times by pid, and
    the identities that have been used.  A step is one operation of the supervisor or
    an event of the host.  Streaming is in [AgentStream]. *)

From S2P Require Import Prelude GoLib Json GoText AgentStream.
From Stdlib Require Import Ascii.

(** ** /proc/<pid>/stat *)

Definition is_field_sep (c : ascii) : bool := byte_in c 9 13 || byte_is c 32.
(** [strings.Fields] on ASCII text. *)
Fixpoint fields_acc (s acc : string) : list string :=
  match s with
  | EmptyString => if bool_decide (acc = EmptyString) then [] else [rev_str acc EmptyString]
  | String c s =>
      if is_field_sep c
      then if bool_decide (acc = EmptyString) then fields_acc s EmptyString else rev_str acc EmptyString :: fields_acc s EmptyString
      else fields_acc s (String c acc)
  end.
Definition Fields (s : string) : list string := fields_acc s EmptyString.

(** [strconv.ParseUint] in base 10. *)
Definition ParseUint (s : string) : option Z :=
  match DecimalString.NilZero.uint_of_string s with
  | Some u => let z := Z.of_uint u in if z <? 2 ^ 64 then Some z else None
  | None => None
  end.

Definition readProcStarttime (data : option string) : res Z :=
  match data with
  | None => Err (EMsg "read stat")
  | Some s =>
      let rp := LastIndexByte s ")" in
      if (rp <? 0) || (Z.of_nat (String.length s) <=? rp + 2) then Err (EMsg "malformed stat")
      else let rest := Fields (drop_str (Z.to_nat (rp + 2)) s) in
           if (length rest <? 20)%nat then Err (EMsg "too few fields")
           else match ParseUint (default EmptyString (rest !! 19%nat)) with
                | Some n => Ok n
                | None => Err (EMsg "parse starttime")
                end
  end.

(** ** Rows and agents *)

(** [start_ticks] is a signed column: the unsigned value is converted both ways. *)
Definition int64 (z : Z) : Z := (z + 2 ^ 63) mod 2 ^ 64 - 2 ^ 63.
Definition uint64 (z : Z) : Z := z mod 2 ^ 64.

Record agentRow := mkRow {
  rw_AgentID : string; rw_PID : Z; rw_StartTicks : Z; rw_StartedAt : Z; rw_Status : string; rw_ExitCode : option Z;
  rw_SessionID : string; rw_Runtime : string; rw_Workdir : string; rw_StdoutPath : string; rw_StderrPath : string
}.

(** The command, the mutexes and the process handle are left out; [ag_doneCh] says
    whether the channel exists and whether it is closed. *)
Record Agent := mkAgent {
  ag_ID : string; ag_Runtime : string; ag_Workdir : string; ag_SessionID : string; ag_StartedAt : Z;
  ag_StdoutPath : string; ag_StderrPath : string;
  ag_pid : Z; ag_startTicks : Z; ag_exited : bool; ag_exitCode : Z; ag_doneCh : option bool; ag_recovered : bool;
  ag_stdoutLines : Z
}.

Inductive Signal := SIGTERM | SIGKILL.

(** [sv_procs]: the live processes, pid to start time; [sv_used]: every identity a
    process has had; [sv_signals]: the signals sent, with the identity of the process
    that got them, if there was one. *)
Record Sup := mkSup {
  sv_agents : gmap string Agent;
  sv_rows : list agentRow;
  sv_files : gmap string string;
  sv_procs : gmap Z Z;
  sv_used : gset (Z * Z);
  sv_signals : list (Signal * Z * option Z)
}.
Definition upd_agents (f : gmap string Agent → gmap string Agent) (s : Sup) : Sup :=
  mkSup (f (sv_agents s)) (sv_rows s) (sv_files s) (sv_procs s) (sv_used s) (sv_signals s).
Definition upd_rows (f : list agentRow → list agentRow) (s : Sup) : Sup :=
  mkSup (sv_agents s) (f (sv_rows s)) (sv_files s) (sv_procs s) (sv_used s) (sv_signals s).
Definition upd_procs (f : gmap Z Z → gmap Z Z) (s : Sup) : Sup :=
  mkSup (sv_agents s) (sv_rows s) (sv_files s) (f (sv_procs s)) (sv_used s) (sv_signals s).

(** *** store.go; [ok] is whether the statement succeeds. *)

Definition insertAgent (ok : bool) (r : agentRow) : St Sup (res unit) :=
  λ s, if ok && negb (existsb (λ x, bool_decide (rw_AgentID x = rw_AgentID r)) (sv_rows s))
       then (Ok tt, upd_rows (λ l, l ++ [mkRow (rw_AgentID r) (rw_PID r) (int64 (rw_StartTicks r)) (rw_StartedAt r) (rw_Status r) None
                                           (rw_SessionID r) (rw_Runtime r) (rw_Workdir r) (rw_StdoutPath r) (rw_StderrPath r)]) s)
       else (Err (ErrSQL false), s).
Definition exit_row (code : Z) (r : agentRow) : agentRow :=
  mkRow (rw_AgentID r) (rw_PID r) (rw_StartTicks r) (rw_StartedAt r) "exited" (Some code) (rw_SessionID r) (rw_Runtime r)
    (rw_Workdir r) (rw_StdoutPath r) (rw_StderrPath r).
Definition updateAgentExit (ok : bool) (id : string) (code : Z) : Sup → Sup :=
  upd_rows (λ l, if ok then (λ r, if bool_decide (rw_AgentID r = id) then exit_row code r else r) <$> l else l).
Definition scan_row (r : agentRow) : agentRow :=
  mkRow (rw_AgentID r) (rw_PID r) (uint64 (rw_StartTicks r)) (rw_StartedAt r) (rw_Status r) (rw_ExitCode r)
    (rw_SessionID r) (rw_Runtime r) (rw_Workdir r) (rw_StdoutPath r) (rw_StderrPath r).
Definition loadAgents (s : Sup) : list agentRow := scan_row <$> sv_rows s.

(** *** agent.go *)

Definition snapshotStatus (a : Agent) : string * option Z :=
  if ag_exited a then ("exited", Some (ag_exitCode a)) else ("running", None).
Definition markExited (code : Z) (a : Agent) : Agent :=
  if ag_exited a then a
  else mkAgent (ag_ID a) (ag_Runtime a) (ag_Workdir a) (ag_SessionID a) (ag_StartedAt a) (ag_StdoutPath a) (ag_StderrPath a)
         (ag_pid a) (ag_startTicks a) true code (match ag_doneCh a with Some _ => Some true | None => None end) (ag_recovered a)
         (ag_stdoutLines a).

(** [signal]: nothing is sent to an agent that has exited; [os.FindProcess] succeeds
    on Unix, and the signal goes to whatever process has the pid. *)
Definition signal (sig : Signal) (a : Agent) : St Sup (res unit) :=
  λ s, if ag_exited a then (Ok tt, s)
       else if ag_pid a <=? 0 then (Err (EMsg "agent has no pid"), s)
       else let target := sv_procs s !! ag_pid a in
            (match target with Some _ => Ok tt | None => Err (EMsg "os: process already finished") end,
             mkSup (sv_agents s) (sv_rows s) (sv_files s) (sv_procs s) (sv_used s) (sv_signals s ++ [(sig, ag_pid a, target)])).
(** The two halves of [cancel]: SIGTERM at once, SIGKILL when the grace period ends
    with the agent still running. *)
Definition cancel_term (a : Agent) : St Sup (res unit) := wrapE "sigterm" (signal SIGTERM a).
Definition cancel_kill (id : string) : St Sup unit :=
  λ s, match sv_agents s !! id with
       | Some a => match ag_doneCh a with Some _ => (tt, (signal SIGKILL a s).2) | None => (tt, s) end
       | None => (tt, s)
       end.

(** *** supervisor.go *)

Definition pidIsAlive (s : Sup) (pid wantTicks : Z) : bool := bool_decide (sv_procs s !! pid = Some wantTicks).
Fixpoint count_nl (s : string) : Z :=
  match s with EmptyString => 0 | String c s => (if Ascii.eqb nl c then 1 else 0) + count_nl s end.
Definition countFileLines (s : Sup) (path : string) : Z :=
  if bool_decide (path = EmptyString) then 0 else match sv_files s !! path with Some f => count_nl f | None => 0 end.

(** One row of [recoverFromDB]: the agent, and the row when the process is gone. *)
Definition gone (s : Sup) (r : agentRow) : bool :=
  negb (bool_decide (rw_Status r = "exited")) && negb (pidIsAlive s (rw_PID r) (rw_StartTicks r)).
Definition recovered_agent (s : Sup) (r : agentRow) : Agent :=
  let was_exited := bool_decide (rw_Status r = "exited") in
  let exited := was_exited || gone s r in
  mkAgent (rw_AgentID r) (rw_Runtime r) (rw_Workdir r) (rw_SessionID r) (rw_StartedAt r) (rw_StdoutPath r) (rw_StderrPath r)
    (rw_PID r) (rw_StartTicks r) exited (if was_exited then default 0 (rw_ExitCode r) else if gone s r then -1 else 0)
    (if exited then None else Some false) true (countFileLines s (rw_StdoutPath r)).
Definition recover_row (ok : string → bool) (r : agentRow) (s : Sup) : Sup :=
  upd_agents (<[rw_AgentID r := recovered_agent s r]>)
    (if gone s r then updateAgentExit (ok (rw_AgentID r)) (rw_AgentID r) (-1) s else s).
(** [New] on the state a previous supervisor left: its memory is gone. *)
Definition recoverFromDB (ok : string → bool) (s : Sup) : Sup :=
  foldl (λ s r, recover_row ok r s) (upd_agents (λ _, ∅) s) (loadAgents s).

(** A tick of [watchRecovered], and the goroutine that waits for an owned process. *)
Definition watch_tick (ok : bool) (id : string) (s : Sup) : Sup :=
  match sv_agents s !! id with
  | Some a => if pidIsAlive s (ag_pid a) (ag_startTicks a) then s
              else upd_agents (alter (markExited (-1)) id) (updateAgentExit ok id (-1) s)
  | None => s
  end.
Definition wait_done (ok : bool) (id : string) (code : Z) (s : Sup) : Sup :=
  upd_agents (alter (markExited code) id) (updateAgentExit ok id code s).

Record StartAgentRequest := mkStart { sq_Runtime : string; sq_Workdir : string; sq_SessionID : string }.
(** What the host answers to one start: the new id, the files, the process (pid and
    start time), whether its start time could be read, the clock, the insert. *)
Record StartEnv := mkStartEnv {
  se_id : string; se_stdout : bool; se_stderr : bool; se_spawn : option (Z * Z); se_stat : bool; se_now : Z; se_db : bool
}.
Definition agent_file (id suffix : string) : string := "agents/" +:+ id +:+ suffix.

Definition StartAgent (E : StartEnv) (req : StartAgentRequest) : St Sup (res Agent) :=
  λ s,
  if bool_decide (sq_Runtime req = EmptyString) then (Err (EMsg "runtime is required"), s)
  else
    let out := agent_file (se_id E) ".stdout" in
    let err := agent_file (se_id E) ".stderr" in
    let create p s := mkSup (sv_agents s) (sv_rows s) (<[p := EmptyString]> (sv_files s)) (sv_procs s) (sv_used s) (sv_signals s) in
    if negb (se_stdout E) then (Err (EMsg "create stdout file"), s)
    else if negb (se_stderr E) then (Err (EMsg "create stderr file"), create out s)
    else
      let s := create err (create out s) in
      match se_spawn E with
      | None => (Err (EMsg "start"), s)
      | Some (pid, started) =>
          let s := mkSup (sv_agents s) (sv_rows s) (sv_files s) (<[pid := started]> (sv_procs s)) ({[(pid, started)]} ∪ sv_used s) (sv_signals s) in
          let ticks := if se_stat E then started else 0 in
          let a := mkAgent (se_id E) (sq_Runtime req) (sq_Workdir req) (sq_SessionID req) (se_now E) out err pid ticks false 0
                     (Some false) false 0 in
          match insertAgent (se_db E) (mkRow (se_id E) pid ticks (se_now E) "running" None (sq_SessionID req) (sq_Runtime req)
                                         (sq_Workdir req) out err) s with
          | (Err e, s) => (Err (EWrap "persist agent" e), upd_procs (delete pid) s)
          | (Ok _, s) => (Ok a, upd_agents (<[se_id E := a]>) s)
          end
      end.

Record AgentInfo := mkInfo {
  ai_AgentID : string; ai_Status : string; ai_ExitCode : option Z; ai_SessionID : string; ai_PID : Z;
  ai_Runtime : string; ai_Workdir : string; ai_StartedAt : Z; ai_StdoutPath : string; ai_StderrPath : string
}.
Definition Status (s : Sup) (id : string) : option AgentInfo :=
  match sv_agents s !! id with
  | None => None
  | Some a => let '(status, code) := snapshotStatus a in
              Some (mkInfo (ag_ID a) status code (ag_SessionID a) (ag_pid a) (ag_Runtime a) (ag_Workdir a) (ag_StartedAt a)
                      (ag_StdoutPath a) (ag_StderrPath a))
  end.
Definition errAgentNotFound : error := EMsg "agent not found".
Definition CancelAgent (id : string) : St Sup (res unit) :=
  λ s, match sv_agents s !! id with None => (Err errAgentNotFound, s) | Some a => cancel_term a s end.

(** *** The HTTP interface *)

Inductive Reply := RStatus (code : Z) | RInfo (code : Z) (i : AgentInfo) | RStream (id : string) (fromOffset : Z).
Definition ParseInt64 (s : string) : option Z := atoi s.
Definition handleAgentByID (method path from_offset : string) : St Sup Reply :=
  λ s,
  let rest := TrimPrefix path "/agents/" in
  if bool_decide (rest = EmptyString) then (RStatus 404, s)
  else
    let '(id, sub) := match Split "/" rest with
                      | [] => (EmptyString, EmptyString)
                      | p :: ps => (p, join_str "/" ps)
                      end in
    if bool_decide (sub = EmptyString) then
      if negb (bool_decide (method = "GET")) then (RStatus 405, s)
      else match Status s id with None => (RStatus 404, s) | Some i => (RInfo 200 i, s) end
    else if bool_decide (sub = "cancel") then
      if negb (bool_decide (method = "POST")) then (RStatus 405, s)
      else match CancelAgent id s with
           | (Err e, s) => (RStatus (if errors_Is e errAgentNotFound then 404 else 500), s)
           | (Ok _, s) => (RStatus 204, s)
           end
    else if bool_decide (sub = "events") then
      if negb (bool_decide (method = "GET")) then (RStatus 405, s)
      else match (if bool_decide (from_offset = EmptyString) then Some 0 else ParseInt64 from_offset) with
           | None => (RStatus 400, s)
           | Some n => if n <? 0 then (RStatus 400, s)
                       else match Status s id with None => (RStatus 404, s) | Some _ => (RStream id n, s) end
           end
    else (RStatus 404, s).
