(* ===== verification/SupervisorSpec.v ===== *)
(** * What the supervisor promises

    The invariant between the agents in memory, their rows and the processes of the
    host, over every interleaving of the operations of [Supervisor] with exits,
    foreign processes, failing writes and restarts; recovery; the start time parser. *)

From S2P Require Import Prelude GoLib Json GoText AgentStream Supervisor.
From Stdlib Require Import Ascii.

(** A process identity that no process can have any more. *)
Definition dead (s : Sup) (pid t : Z) : Prop := sv_procs s !! pid ≠ Some t ∧ ((pid, t) ∈ sv_used s ∨ t = 0).

(** A pid and a start time that are new to the host. *)
Definition new_identity (s : Sup) (pid t : Z) : Prop :=
  0 < pid ∧ 0 < t < 2 ^ 64 ∧ (pid, t) ∉ sv_used s ∧ sv_procs s !! pid = None.
Definition spawn (pid t : Z) (s : Sup) : Sup :=
  mkSup (sv_agents s) (sv_rows s) (sv_files s) (<[pid := t]> (sv_procs s)) ({[(pid, t)]} ∪ sv_used s) (sv_signals s).
Definition set_file (path content : string) (s : Sup) : Sup :=
  mkSup (sv_agents s) (sv_rows s) (<[path := content]> (sv_files s)) (sv_procs s) (sv_used s) (sv_signals s).

Inductive sup_step (s : Sup) : Sup → Prop :=
  | su_start E req :
      sv_agents s !! se_id E = None →
      match se_spawn E with Some (pid, t) => new_identity s pid t | None => True end →
      sup_step s (StartAgent E req s).2
  | su_wait ok id code a :
      sv_agents s !! id = Some a → ag_recovered a = false → ag_exited a = false →
      sv_procs s !! ag_pid a ≠ Some (ag_startTicks a) → sup_step s (wait_done ok id code s)
  | su_watch ok id a :
      sv_agents s !! id = Some a → ag_recovered a = true → ag_exited a = false → sup_step s (watch_tick ok id s)
  | su_cancel id : sup_step s (CancelAgent id s).2
  | su_kill id : sup_step s (cancel_kill id s).2
  | su_restart ok : sup_step s (recoverFromDB ok s)
  | su_die pid : sup_step s (upd_procs (delete pid) s)
  | su_stranger pid t : new_identity s pid t → sup_step s (spawn pid t s)
  | su_output path content : sup_step s (set_file path content s).

(** The supervisor of a host that has other processes. *)
Definition fresh_sup (procs : gmap Z Z) : Sup :=
  mkSup ∅ [] ∅ procs (list_to_set (map_to_list procs)) [].

(** An agent agrees with its row, up to a write that failed. *)
Definition agrees (s : Sup) (a : Agent) (r : agentRow) : Prop :=
  rw_PID r = ag_pid a ∧ uint64 (rw_StartTicks r) = ag_startTicks a ∧
  (ag_exited a = true → dead s (ag_pid a) (ag_startTicks a)) ∧
  (rw_Status r = "exited" → ag_exited a = true ∧ rw_ExitCode r = Some (ag_exitCode a)).

Record sup_ok (s : Sup) : Prop := {
  sk_nodup : NoDup (rw_AgentID <$> sv_rows s);
  sk_rows : ∀ r, r ∈ sv_rows s → is_Some (sv_agents s !! rw_AgentID r) ∧
    (uint64 (rw_StartTicks r) = 0 ∨ (rw_PID r, uint64 (rw_StartTicks r)) ∈ sv_used s);
  sk_agents : ∀ id a, sv_agents s !! id = Some a → ag_ID a = id ∧ ∃ r, r ∈ sv_rows s ∧ rw_AgentID r = id ∧ agrees s a r;
  sk_procs : ∀ pid t, sv_procs s !! pid = Some t → (pid, t) ∈ sv_used s ∧ 0 < t
}.

(** ** Identities *)

Lemma uint64_int64 z : 0 ≤ z < 2 ^ 64 → uint64 (int64 z) = z.
Proof.
  intros Hz. unfold uint64, int64. rewrite Zminus_mod_idemp_l. replace (z + 2 ^ 63 - 2 ^ 63) with z by lia. by apply Z.mod_small.
Qed.

(** A step of the host: nothing used is forgotten, and nothing dead comes back. *)
Definition host_mono (s s' : Sup) : Prop :=
  sv_used s ⊆ sv_used s' ∧ (∀ pid t, dead s pid t → dead s' pid t).
#[export] Instance host_mono_preorder : PreOrder host_mono.
Proof. split; [done|]. intros x y z [H1 H2] [H3 H4]. split; [set_solver|auto]. Qed.

Lemma host_same s s' : sv_procs s' = sv_procs s → sv_used s' = sv_used s → host_mono s s'.
Proof. intros Hp Hu. split; [by rewrite Hu|]. intros pid t. unfold dead. by rewrite Hp, Hu. Qed.
Lemma host_die s pid : host_mono s (upd_procs (delete pid) s).
Proof.
  split; [done|]. intros p t [Hd Hu]. split; [|done]. cbn. rewrite lookup_delete_Some. naive_solver.
Qed.
Lemma host_spawn s pid t : new_identity s pid t → host_mono s (spawn pid t s).
Proof.
  intros (Hp & Ht & Hn & Hf). split; [cbn; set_solver|]. intros p t' [Hd Hu]. split; cbn.
  - rewrite lookup_insert_Some. intros [[-> ->]|[_ ?]]; [|done]. destruct Hu; [done|lia].
  - destruct Hu; [left; set_solver|by right].
Qed.

Lemma agrees_mono s s' a r : host_mono s s' → agrees s a r → agrees s' a r.
Proof. intros [_ Hd] (H1 & H2 & H3 & H4). split_and!; auto. Qed.

(** Steps that leave memory and rows alone. *)
Lemma sup_ok_host s s' :
  sv_agents s' = sv_agents s → sv_rows s' = sv_rows s → host_mono s s' →
  (∀ pid t, sv_procs s' !! pid = Some t → (pid, t) ∈ sv_used s' ∧ 0 < t) → sup_ok s → sup_ok s'.
Proof.
  intros Ha Hr Hm Hp [H1 H2 H3 H4]. split; [by rewrite Hr| | |done].
  - intros r. rewrite Hr, Ha. intros [Hs Hu]%H2. split; [done|]. destruct Hu; [by left|right]. by apply Hm.
  - intros id a. rewrite Ha, Hr. intros [Hid (r & Hin & Hrid & Hg)]%H3. split; [done|]. exists r. split_and!; [done..|]. by eapply agrees_mono.
Qed.

(** ** Exits *)

Lemma elem_of_update ok id code s r' :
  r' ∈ sv_rows (updateAgentExit ok id code s) ↔
  ∃ r, r ∈ sv_rows s ∧ r' = (if ok && bool_decide (rw_AgentID r = id) then exit_row code r else r).
Proof.
  unfold updateAgentExit, upd_rows. cbn. destruct ok; cbn.
  - rewrite list_elem_of_fmap. split; intros (r & H1 & H2); exists r; auto.
  - split; [by exists r'|]. by intros (r & Hr & ->).
Qed.
Lemma update_ids ok id code s : rw_AgentID <$> sv_rows (updateAgentExit ok id code s) = rw_AgentID <$> sv_rows s.
Proof.
  unfold updateAgentExit. cbn. destruct ok; [|done]. rewrite <-list_fmap_compose. apply list_fmap_ext. intros i r _. cbn.
  by case_bool_decide.
Qed.

(** A running agent whose process is gone is marked, in memory and in its row. *)
Lemma mark_ok ok id code a s :
  sup_ok s → sv_agents s !! id = Some a → ag_exited a = false → sv_procs s !! ag_pid a ≠ Some (ag_startTicks a) →
  sup_ok (upd_agents (alter (markExited code) id) (updateAgentExit ok id code s)).
Proof.
  intros [Hnd Hrows Hag Hpr] Ha Hx Hgone. set (s' := upd_agents _ _).
  assert (Hm : host_mono s s') by by apply host_same.
  split; [by change (sv_rows s') with (sv_rows (updateAgentExit ok id code s)); rewrite update_ids| | |done].
  - intros r' Hr'. apply (elem_of_update ok id code s) in Hr' as (r & Hr & ->). destruct (Hrows r Hr) as [[a' Hs] Hu].
    assert (is_Some (sv_agents s' !! rw_AgentID r)).
    { unfold s'. cbn. destruct (decide (rw_AgentID r = id)) as [->|]; [rewrite lookup_alter_eq, Ha; by eexists|].
      rewrite lookup_alter_ne by done. by eexists. }
    destruct (ok && _); cbn; by split.
  - intros id' a'. unfold s' at 1. cbn. intros Ha'. destruct (decide (id' = id)) as [->|Hne].
    + rewrite lookup_alter_eq, Ha in Ha'. injection Ha' as <-. destruct (Hag id a Ha) as [Hid (r & Hr & Hrid & H1 & H2 & _ & H4)].
      unfold markExited. rewrite Hx. split; [done|].
      exists (if ok && bool_decide (rw_AgentID r = id) then exit_row code r else r). split; [|split].
      * apply (elem_of_update ok id code s). eauto.
      * by destruct (ok && _).
      * destruct (Hrows r Hr) as [_ Hu]. rewrite H1, H2 in Hu.
        split_and!; cbn; [by destruct (ok && _)|by destruct (ok && _)|intros _; split; [done|destruct Hu; auto]|].
        destruct (ok && _); cbn; [done|]. intros Hs. destruct (H4 Hs). congruence.
    + rewrite lookup_alter_ne in Ha' by done. destruct (Hag id' a' Ha') as [Hid (r & Hr & Hrid & Hg)]. split; [done|].
      exists r. split_and!; [|done|by eapply agrees_mono]. apply (elem_of_update ok id code s). exists r. split; [done|].
      rewrite bool_decide_eq_false_2 by congruence. by rewrite andb_false_r.
Qed.

(** ** Start *)

Lemma start_ok E req s :
  sup_ok s → sv_agents s !! se_id E = None →
  match se_spawn E with Some (pid, t) => new_identity s pid t | None => True end →
  sup_ok (StartAgent E req s).2 ∧ host_mono s (StartAgent E req s).2 ∧
  ∀ id a, sv_agents s !! id = Some a → sv_agents (StartAgent E req s).2 !! id = Some a.
Proof.
  intros Hok Hid Hnew. unfold StartAgent. case_bool_decide; [done|]. cbv zeta.
  assert (Hfile : ∀ p s, sup_ok s → let s' := mkSup (sv_agents s) (sv_rows s) (<[p := EmptyString]> (sv_files s)) (sv_procs s) (sv_used s) (sv_signals s) in
    sup_ok s' ∧ host_mono s s').
  { intros p s0 H0. split; [|by apply host_same]. apply (sup_ok_host s0); [done|done|by apply host_same|apply (sk_procs s0 H0)|done]. }
  destruct (negb (se_stdout E)); [done|]. destruct (negb (se_stderr E)); [cbn; split_and!; [by apply Hfile|by apply Hfile|done]|].
  set (s1 := mkSup _ _ _ _ _ _). destruct (Hfile (agent_file (se_id E) ".stdout") s Hok) as [Ho1 Hm1].
  destruct (Hfile (agent_file (se_id E) ".stderr") _ Ho1) as [Ho2 Hm2]. fold s1 in Ho2, Hm2. cbn [sv_agents sv_rows sv_files sv_procs sv_used sv_signals] in *.
  assert (host_mono s s1) as Hm by (etrans; [exact Hm1|exact Hm2]).
  destruct (se_spawn E) as [[pid t]|]; [|split_and!; done].
  assert (new_identity s1 pid t) as Hnew1 by done.
  pose proof (host_spawn s1 pid t Hnew1) as Hsp. set (s2 := mkSup (sv_agents s1) (sv_rows s1) (sv_files s1) _ _ _).
  change (spawn pid t s1) with s2 in Hsp.
  assert (sup_ok s2) as Ho3.
  { apply (sup_ok_host s1); [done|done|done| |done]. intros p t' Hp. unfold s2 in *. cbn in *. apply lookup_insert_Some in Hp as [[-> ->]|[_ Hp]].
    - split; [set_solver|]. apply Hnew.
    - apply (sk_procs s1 Ho2) in Hp as [? ?]. split; [set_solver|done]. }
  destruct (insertAgent _ _ s2) as [[[]|e] s3] eqn:Ei; unfold insertAgent in Ei.
  - destruct (se_db E && _) eqn:Hc; [|done]. injection Ei as <-. apply andb_true_iff in Hc as [_ Hc].
    apply negb_true_iff in Hc. destruct Ho3 as [Hnd Hrows Hag Hpr]. cbn [fst snd]. split_and!.
    2: { etrans; [exact Hm|]. etrans; [exact Hsp|]. by apply host_same. }
    2: { intros id a Ha. cbn. rewrite lookup_insert_ne; [done|]. intros Heq. rewrite Heq in Hid. congruence. }
    set (tk := if se_stat E then t else 0). assert (0 ≤ tk < 2 ^ 64) as Htk by (unfold tk; destruct (se_stat E); [destruct Hnew as (_ & ? & _)|]; lia).
    split; cbn.
    + rewrite fmap_app. cbn. apply NoDup_app. split_and!; [done| |apply NoDup_singleton].
      intros x Hx. rewrite list_elem_of_singleton. intros ->. apply list_elem_of_fmap in Hx as (r & Hr & Hin).
      assert (existsb (λ x, bool_decide (rw_AgentID x = se_id E)) (sv_rows s2) = true); [|cbn in *; congruence].
      apply existsb_elem. exists r. split; [done|]. by apply bool_decide_eq_true.
    + intros r. rewrite elem_of_app, list_elem_of_singleton. intros [Hr| ->]; cbn.
      * destruct (Hrows r Hr) as [Hs Hu]. split; [|done]. destruct (decide (rw_AgentID r = se_id E)) as [->|]; [by rewrite lookup_insert_eq|].
        by rewrite lookup_insert_ne.
      * rewrite lookup_insert_eq. split; [by eexists|]. rewrite uint64_int64 by done. unfold tk. destruct (se_stat E); [right; set_solver|by left].
    + intros id a. rewrite lookup_insert_Some. intros [[<- <-]|[Hne Ha]]; cbn.
      * split; [done|]. eexists. rewrite elem_of_app, list_elem_of_singleton. split; [by right|]. split; [done|].
        split_and!; cbn; [done|by rewrite uint64_int64|done|done].
      * destruct (Hag id a Ha) as [Hi (r & Hr & Hrid & Hg)]. split; [done|]. exists r. rewrite elem_of_app. split; [by left|]. done.
    + done.
  - destruct (se_db E && _) eqn:Hc; [done|]. injection Ei as _ <-. cbn [fst snd]. split_and!.
    + apply (sup_ok_host s2); [done|done|apply host_die| |done]. intros p t'. cbn. rewrite lookup_delete_Some. intros [_ Hp].
      apply (sk_procs s2 Ho3) in Hp. done.
    + etrans; [exact Hm|]. etrans; [exact Hsp|]. apply host_die.
    + done.
Qed.

(** ** Recovery *)

Lemma recover_row_host ok r s :
  sv_procs (recover_row ok r s) = sv_procs s ∧ sv_used (recover_row ok r s) = sv_used s ∧ sv_files (recover_row ok r s) = sv_files s.
Proof. unfold recover_row. by destruct (gone s r). Qed.

Lemma recovered_agent_ext s s' r :
  sv_procs s' = sv_procs s → sv_files s' = sv_files s → recovered_agent s' r = recovered_agent s r ∧ gone s' r = gone s r.
Proof. intros Hp Hf. unfold recovered_agent, gone, pidIsAlive, countFileLines. by rewrite Hp, Hf. Qed.

Lemma existsb_pointwise {A} (f g : A → bool) l : (∀ x, f x = g x) → existsb f l = existsb g l.
Proof. intros H. induction l as [|x l IH]; [done|]. cbn. by rewrite H, IH. Qed.

(** The row of an agent, after the rows of [L] have been recovered. *)
Definition swept (ok : string → bool) (s : Sup) (L : list agentRow) (r : agentRow) : agentRow :=
  if existsb (λ q, bool_decide (rw_AgentID r = rw_AgentID q) && gone s q && ok (rw_AgentID q)) L then exit_row (-1) r else r.

Lemma recover_fold ok L s :
  NoDup (rw_AgentID <$> L) →
  let s' := foldl (λ s r, recover_row ok r s) s L in
  sv_procs s' = sv_procs s ∧ sv_used s' = sv_used s ∧ sv_files s' = sv_files s ∧ sv_rows s' = swept ok s L <$> sv_rows s ∧
  (∀ q, q ∈ L → sv_agents s' !! rw_AgentID q = Some (recovered_agent s q)) ∧
  (∀ id, id ∉ rw_AgentID <$> L → sv_agents s' !! id = sv_agents s !! id).
Proof.
  revert s. induction L as [|q L IH]; intros s Hnd; cbn [foldl].
  { split_and!; try done. - symmetry. apply list_fmap_id. - intros q Hq. set_solver. }
  rewrite fmap_cons in Hnd. apply NoDup_cons in Hnd as [Hq Hnd]. destruct (recover_row_host ok q s) as (Hp & Hu & Hf).
  destruct (IH (recover_row ok q s) Hnd) as (H1 & H2 & H3 & H4 & H5 & H6). cbv zeta. rewrite H1, H2, H3, Hp, Hu, Hf. split_and!; try done.
  - rewrite H4. assert (sv_rows (recover_row ok q s) = swept ok s [q] <$> sv_rows s) as ->.
    { unfold recover_row, swept, updateAgentExit. cbn. destruct (gone s q); cbn.
      - destruct (ok (rw_AgentID q)); cbn; [|symmetry; rewrite <-(list_fmap_id (sv_rows s)) at 2]; apply list_fmap_ext; intros i r _.
        + rewrite andb_true_r, orb_false_r. cbn. rewrite andb_true_r. by case_bool_decide.
        + by rewrite andb_false_r.
      - symmetry. rewrite <-(list_fmap_id (sv_rows s)) at 2. apply list_fmap_ext. intros i r _. by rewrite andb_false_r. }
    rewrite <-list_fmap_compose. apply list_fmap_ext. intros i r _. cbn. unfold swept. cbn [existsb]. rewrite orb_false_r.
    assert (∀ r0, existsb (λ q0, bool_decide (rw_AgentID r0 = rw_AgentID q0) && gone (recover_row ok q s) q0 && ok (rw_AgentID q0)) L =
      existsb (λ q0, bool_decide (rw_AgentID r0 = rw_AgentID q0) && gone s q0 && ok (rw_AgentID q0)) L) as He.
    { intros r0. apply existsb_pointwise. intros q0. by destruct (recovered_agent_ext s (recover_row ok q s) q0) as [_ ->]. }
    rewrite He. destruct (_ && gone s q && ok _); cbn; [|done]. by destruct (existsb _ L).
  - intros q' [->|Hin]%elem_of_cons.
    + rewrite H6 by done. unfold recover_row. cbn. by rewrite lookup_insert_eq.
    + rewrite H5 by done. f_equal. by apply recovered_agent_ext.
  - intros id. rewrite fmap_cons, not_elem_of_cons. intros [Hne Hid]. rewrite H6 by done. unfold recover_row. cbn.
    rewrite lookup_insert_ne by done. by destruct (gone s q).
Qed.

Lemma row_unique s r r' :
  NoDup (rw_AgentID <$> sv_rows s) → r ∈ sv_rows s → r' ∈ sv_rows s → rw_AgentID r = rw_AgentID r' → r = r'.
Proof.
  intros Hnd [i Hi]%list_elem_of_lookup [j Hj]%list_elem_of_lookup He.
  assert (i = j) as ->; [|congruence].
  eapply (NoDup_lookup (rw_AgentID <$> sv_rows s)); [done| |]; rewrite list_lookup_fmap; [by rewrite Hi|]. by rewrite Hj, He.
Qed.

Lemma swept_self ok s r :
  NoDup (rw_AgentID <$> sv_rows s) → r ∈ sv_rows s →
  swept ok s (scan_row <$> sv_rows s) r = if gone s (scan_row r) && ok (rw_AgentID r) then exit_row (-1) r else r.
Proof.
  intros Hnd Hr. unfold swept. set (f := λ q, _). assert (existsb f (scan_row <$> sv_rows s) = gone s (scan_row r) && ok (rw_AgentID r)) as ->; [|done].
  apply eq_true_iff_eq. rewrite existsb_elem. split.
  - intros (q & Hq & Hf). apply list_elem_of_fmap in Hq as (r' & -> & Hr'). unfold f in Hf.
    apply andb_true_iff in Hf as [[He Hg]%andb_true_iff Ho]. apply bool_decide_eq_true in He. cbn in He.
    rewrite (row_unique s r r') by done. by rewrite Hg.
  - intros Hg. exists (scan_row r). split; [by apply list_elem_of_fmap_2|]. unfold f. by rewrite bool_decide_eq_true_2, <-andb_assoc.
Qed.

Lemma ids_scan s : rw_AgentID <$> loadAgents s = rw_AgentID <$> sv_rows s.
Proof. unfold loadAgents. by rewrite <-list_fmap_compose. Qed.

(** The state after a restart, row by row. *)
Lemma recover_state ok s :
  NoDup (rw_AgentID <$> sv_rows s) →
  let s' := recoverFromDB ok s in
  sv_procs s' = sv_procs s ∧ sv_used s' = sv_used s ∧
  sv_rows s' = (λ r, if gone s (scan_row r) && ok (rw_AgentID r) then exit_row (-1) r else r) <$> sv_rows s ∧
  (∀ r, r ∈ sv_rows s → sv_agents s' !! rw_AgentID r = Some (recovered_agent s (scan_row r))) ∧
  (∀ id a, sv_agents s' !! id = Some a → ∃ r, r ∈ sv_rows s ∧ rw_AgentID r = id).
Proof.
  intros Hnd. set (s0 := upd_agents (λ _, ∅) s).
  destruct (recover_fold ok (loadAgents s) s0) as (H1 & H2 & H3 & H4 & H5 & H6); [by rewrite ids_scan|].
  unfold recoverFromDB. fold s0. cbv zeta. split_and!; [done|done| | |].
  - rewrite H4. apply list_fmap_ext. intros i r Hi. apply (swept_self ok s); [done|]. by apply list_elem_of_lookup_2 in Hi.
  - intros r Hr. change (rw_AgentID r) with (rw_AgentID (scan_row r)). rewrite H5; [done|]. by apply list_elem_of_fmap_2.
  - intros id a Ha. destruct (decide (id ∈ rw_AgentID <$> loadAgents s)) as [Hin|Hin].
    + rewrite ids_scan in Hin. apply list_elem_of_fmap in Hin as (r & -> & Hr). eauto.
    + rewrite H6 in Ha by done. cbn in Ha. by rewrite lookup_empty in Ha.
Qed.

(** Agents are not forgotten, their process does not change, and an exit is final;
    its code is kept or becomes -1, for "unknown". *)
Definition exits_final (s s' : Sup) : Prop :=
  ∀ id a, sv_agents s !! id = Some a →
  ∃ a', sv_agents s' !! id = Some a' ∧ ag_pid a' = ag_pid a ∧ ag_startTicks a' = ag_startTicks a ∧
    (ag_exited a = true → ag_exited a' = true ∧ (ag_exitCode a' = ag_exitCode a ∨ ag_exitCode a' = -1)).
#[export] Instance exits_final_preorder : PreOrder exits_final.
Proof.
  split; [intros s i a Ha; exists a; by eauto 10|]. intros s1 s2 s3 H12 H23 i a Ha.
  destruct (H12 i a Ha) as (a2 & Ha2 & Hp2 & Ht2 & He2). destruct (H23 i a2 Ha2) as (a3 & Ha3 & Hp3 & Ht3 & He3).
  exists a3. split_and!; [done|congruence..|]. intros He. destruct (He2 He) as [Hx2 Hc2]. destruct (He3 Hx2) as [Hx3 Hc3].
  split; [done|]. intuition congruence.
Qed.
Lemma exits_final_same s s' : sv_agents s' = sv_agents s → exits_final s s'.
Proof. intros H id a Ha. exists a. rewrite H. by eauto 10. Qed.

(** What is known of an agent from its row. *)
Lemma agent_row s id a :
  sup_ok s → sv_agents s !! id = Some a →
  ∃ r, r ∈ sv_rows s ∧ rw_AgentID r = id ∧ agrees s a r ∧ (ag_startTicks a = 0 ∨ (ag_pid a, ag_startTicks a) ∈ sv_used s).
Proof.
  intros [Hnd Hrows Hag _] Ha. destruct (Hag id a Ha) as [_ (r & Hr & Hid & Hg)]. exists r. split_and!; [done..|].
  destruct (Hrows r Hr) as [_ Hu]. destruct Hg as (<- & <- & _). done.
Qed.
Lemma row_agent s r :
  sup_ok s → r ∈ sv_rows s → ∃ a, sv_agents s !! rw_AgentID r = Some a ∧ agrees s a r.
Proof.
  intros Hok Hr. destruct (sk_rows s Hok r Hr) as [[a Ha] _]. exists a. split; [done|].
  destruct (agent_row s _ a Hok Ha) as (r' & Hr' & Hid & Hg & _). by rewrite (row_unique s r r') by (done || apply Hok).
Qed.

Lemma gone_dead s r :
  sup_ok s → r ∈ sv_rows s → ag_exited (recovered_agent s (scan_row r)) = true → dead s (rw_PID r) (uint64 (rw_StartTicks r)).
Proof.
  intros Hok Hr. destruct (row_agent s r Hok Hr) as (a & Ha & Hp & Ht & Hd & Hx). unfold recovered_agent. cbn.
  rewrite orb_true_iff, bool_decide_eq_true. intros [Hs|Hg].
  - destruct (Hx Hs) as [He _]. rewrite Hp, Ht. auto.
  - unfold gone in Hg. apply andb_true_iff in Hg as [_ Hg]. apply negb_true_iff, bool_decide_eq_false in Hg. cbn in Hg.
    split; [done|]. destruct (sk_rows s Hok r Hr) as [_ [?|?]]; auto.
Qed.

Lemma recover_ok ok s : sup_ok s → sup_ok (recoverFromDB ok s) ∧ exits_final s (recoverFromDB ok s).
Proof.
  intros Hok. pose proof Hok as [Hnd Hrows Hag Hpr].
  destruct (recover_state ok s Hnd) as (Hp & Hu & Hr' & Ha' & Hback). set (s' := recoverFromDB ok s) in *.
  assert (Hm : host_mono s s') by by apply host_same.
  assert (Hin : ∀ r, r ∈ sv_rows s → (if gone s (scan_row r) && ok (rw_AgentID r) then exit_row (-1) r else r) ∈ sv_rows s').
  { intros r Hr. rewrite Hr'. by apply (list_elem_of_fmap_2 (λ r, if gone s (scan_row r) && ok (rw_AgentID r) then exit_row (-1) r else r)). }
  split.
  - split.
    + rewrite Hr', <-list_fmap_compose. erewrite list_fmap_ext; [exact Hnd|]. intros i r _. cbn. by destruct (_ && _).
    + intros r0 Hr0. rewrite Hr' in Hr0. apply list_elem_of_fmap in Hr0 as (r & -> & Hr). rewrite Hu.
      destruct (Hrows r Hr) as [_ Hus]. pose proof (Ha' r Hr) as Hs. destruct (_ && _); cbn; (split; [by rewrite Hs|done]).
    + intros id a Ha. destruct (Hback id a Ha) as (r & Hr & <-). rewrite (Ha' r Hr) in Ha. injection Ha as <-. split; [done|].
      eexists. split; [by apply Hin|]. split; [by destruct (_ && _)|]. split_and!.
      * by destruct (_ && _).
      * by destruct (_ && _).
      * intros Hx. apply Hm. exact (gone_dead s r Hok Hr Hx).
      * destruct (row_agent s r Hok Hr) as (a & _ & _ & _ & _ & Hx).
        destruct (gone s (scan_row r) && ok (rw_AgentID r)) eqn:Hg; cbn.
        -- intros _. apply andb_true_iff in Hg as [Hg _]. rewrite Hg, orb_true_r. split; [done|].
           unfold gone in Hg. apply andb_true_iff in Hg as [Hs _]. apply negb_true_iff in Hs. cbn in Hs. by rewrite Hs.
        -- intros Hs. rewrite (bool_decide_eq_true_2 _ Hs). split; [done|]. destruct (Hx Hs) as [_ ->]. done.
    + intros pid t. rewrite Hp, Hu. apply Hpr.
  - intros id a Ha. destruct (agent_row s id a Hok Ha) as (r & Hr & <- & (Hp1 & Ht1 & Hd & Hx) & _).
    exists (recovered_agent s (scan_row r)). split_and!; [by apply Ha'|done|done|]. intros He. cbn.
    case_bool_decide as Hs.
    + destruct (Hx Hs) as [_ ->]. auto.
    + assert (gone s (scan_row r) = true) as ->; [|auto]. unfold gone. cbn. rewrite bool_decide_eq_false_2 by done. cbn.
      apply negb_true_iff, bool_decide_eq_false. rewrite Hp1, Ht1. by apply Hd.
Qed.

(** ** Every step *)

Lemma signal_keeps sig a s :
  let s' := (signal sig a s).2 in
  sv_agents s' = sv_agents s ∧ sv_rows s' = sv_rows s ∧ sv_procs s' = sv_procs s ∧ sv_used s' = sv_used s.
Proof. unfold signal. destruct (ag_exited a); [done|]. by destruct (_ <=? 0). Qed.

Lemma quiet_ok s s' :
  sv_agents s' = sv_agents s → sv_rows s' = sv_rows s → sv_procs s' = sv_procs s → sv_used s' = sv_used s →
  sup_ok s → sup_ok s' ∧ exits_final s s'.
Proof.
  intros Ha Hr Hp Hu Hok. split; [|by apply exits_final_same].
  apply (sup_ok_host s); [done|done|by apply host_same| |done]. intros pid t. rewrite Hp, Hu. apply Hok.
Qed.

Lemma mark_final code id s s' :
  sv_agents s' = alter (markExited code) id (sv_agents s) → exits_final s s'.
Proof.
  intros H i a Ha. rewrite H. destruct (decide (i = id)) as [->|Hne].
  - rewrite lookup_alter_eq, Ha. exists (markExited code a). split; [done|]. unfold markExited. destruct (ag_exited a) eqn:E.
    + rewrite E. by eauto 10.
    + by split_and!.
  - rewrite lookup_alter_ne by done. exists a. by eauto 10.
Qed.

Lemma sup_step_ok s s' : sup_ok s → sup_step s s' → sup_ok s' ∧ exits_final s s'.
Proof.
  intros Hok Hs. destruct Hs as [E req Hid Hnew|ok id code a Ha Hr Hx Hg|ok id a Ha Hr Hx|id|id|ok|pid|pid t Hnew|path c].
  - destruct (start_ok E req s Hok Hid Hnew) as (H1 & _ & H3). split; [done|]. intros i a Ha. exists a. rewrite (H3 i a Ha). by eauto 10.
  - split; [by eapply mark_ok|]. by apply (mark_final code id).
  - unfold watch_tick. rewrite Ha. unfold pidIsAlive. case_bool_decide as Hp; [by split|].
    split; [by eapply mark_ok|]. by apply (mark_final (-1) id).
  - unfold CancelAgent. destruct (sv_agents s !! id) as [a|]; [|by split]. destruct (signal_keeps SIGTERM a s) as (? & ? & ? & ?). by apply quiet_ok.
  - unfold cancel_kill. destruct (sv_agents s !! id) as [a|]; [|by split]. destruct (ag_doneCh a); [|by split].
    destruct (signal_keeps SIGKILL a s) as (? & ? & ? & ?). by apply quiet_ok.
  - by apply recover_ok.
  - split; [|by apply exits_final_same]. apply (sup_ok_host s); [done|done|apply host_die| |done].
    intros p t. cbn. rewrite lookup_delete_Some. intros [_ Hp]. by apply (sk_procs s Hok).
  - split; [|by apply exits_final_same]. apply (sup_ok_host s); [done|done|by apply host_spawn| |done].
    intros p t'. cbn. rewrite lookup_insert_Some. intros [[-> ->]|[_ Hp]]; [split; [set_solver|apply Hnew]|].
    apply (sk_procs s Hok) in Hp as [? ?]. split; [set_solver|done].
  - by apply quiet_ok.
Qed.

Lemma fresh_sup_ok procs : map_Forall (λ _ t, 0 < t) procs → sup_ok (fresh_sup procs).
Proof.
  intros Hp. split; cbn; [constructor|by intros r ?%elem_of_nil| |].
  - intros id a. by rewrite lookup_empty.
  - intros pid t Ht. split; [|by apply (Hp pid)]. apply elem_of_list_to_set. by apply elem_of_map_to_list.
Qed.

Lemma sup_reachable s0 s : rtc sup_step s0 s → sup_ok s0 → sup_ok s ∧ exits_final s0 s.
Proof.
  induction 1 as [s|s1 s2 s3 Hs _ IH]; intros Hok; [by split|]. destruct (sup_step_ok _ _ Hok Hs) as [H2 Hf].
  destruct (IH H2) as [H3 Hf']. split; [done|]. by trans s2.
Qed.

Definition status_is (s : Sup) (id status : string) : Prop := ∃ i, Status s id = Some i ∧ ai_Status i = status.
Lemma status_exited s id : status_is s id "exited" ↔ ∃ a, sv_agents s !! id = Some a ∧ ag_exited a = true.
Proof.
  unfold status_is, Status. destruct (sv_agents s !! id) as [a|]; [|by split; intros (? & ? & _)]. unfold snapshotStatus.
  destruct (ag_exited a) eqn:E; (split; [intros (i & [= <-] & Hi)|intros (a' & [= <-] & Hx)]); cbn in *; try congruence; by eauto.
Qed.
Lemma status_running s id : status_is s id "running" ↔ ∃ a, sv_agents s !! id = Some a ∧ ag_exited a = false.
Proof.
  unfold status_is, Status. destruct (sv_agents s !! id) as [a|]; [|by split; intros (? & ? & _)]. unfold snapshotStatus.
  destruct (ag_exited a) eqn:E; (split; [intros (i & [= <-] & Hi)|intros (a' & [= <-] & Hx)]); cbn in *; try congruence; by eauto.
Qed.

(** Restarted, an agent runs when its process does. *)
Lemma running_after_restart ok s id :
  sup_ok s →
  (status_is (recoverFromDB ok s) id "running" ↔
     ∃ a, sv_agents s !! id = Some a ∧ sv_procs s !! ag_pid a = Some (ag_startTicks a)).
Proof.
  intros Hok.
  rewrite status_running. destruct (recover_state ok s (sk_nodup s Hok)) as (_ & _ & _ & Hrec & Hback). split.
  - intros (a & Ha & Hx). destruct (Hback id a Ha) as (r & Hr & <-). rewrite (Hrec r Hr) in Ha. injection Ha as <-.
    destruct (row_agent s r Hok Hr) as (a & Ha & Hpid & Htk & _). exists a. split; [done|]. cbn in Hx.
    apply orb_false_iff in Hx as [Hs Hg]. unfold gone in Hg. cbn in Hg. rewrite Hs in Hg. cbn in Hg.
    apply negb_false_iff, bool_decide_eq_true in Hg. congruence.
  - intros (a & Ha & Halive). destruct (agent_row s id a Hok Ha) as (r & Hr & <- & (Hpid & Htk & Hd & Hx) & _).
    exists (recovered_agent s (scan_row r)). split; [by apply Hrec|]. cbn. apply orb_false_iff.
    rewrite bool_decide_eq_false. split; [intros Hs; by apply (Hd (proj1 (Hx Hs)))|].
    unfold gone, pidIsAlive. cbn. by rewrite (bool_decide_eq_true_2 (sv_procs s !! _ = _)), andb_false_r by congruence.
Qed.
Lemma known_after_restart ok s id :
  sup_ok s → is_Some (sv_agents s !! id) → ¬ status_is (recoverFromDB ok s) id "running" → status_is (recoverFromDB ok s) id "exited".
Proof.
  intros Hok [a Ha]. destruct (agent_row s id a Hok Ha) as (r & Hr & <- & _).
  destruct (recover_state ok s (sk_nodup s Hok)) as (_ & _ & _ & Hrec & _). specialize (Hrec r Hr).
  rewrite status_running, status_exited. intros Hn. eexists. split; [exact Hrec|].
  destruct (ag_exited (recovered_agent s (scan_row r))) eqn:He; [done|]. destruct Hn. by eauto.
Qed.


(** ** A run *)

Definition demo_start : StartEnv := mkStartEnv "a1" true true (Some (7, 100)) true 0 true.
Definition demo_req : StartAgentRequest := mkStart "claude" "/w" "s1".
Definition demo_started : Sup := (StartAgent demo_start demo_req (fresh_sup {[1 := 5]})).2.
(** Restarted; then the agent exits and another process gets its pid. *)
Definition demo_reused : Sup := spawn 7 200 (upd_procs (delete 7) (recoverFromDB (λ _, true) demo_started)).

Lemma demo_reused_reachable : rtc sup_step (fresh_sup {[1 := 5]}) demo_reused.
Proof.
  eapply rtc_l; [apply (su_start _ demo_start demo_req); [reflexivity|]|].
  { cbn. split_and!; [lia|lia|lia|vm_compute; set_solver|reflexivity]. }
  eapply rtc_l; [apply (su_restart _ (λ _, true))|]. eapply rtc_l; [apply (su_die _ 7)|].
  eapply rtc_l; [apply (su_stranger _ 7 200)|apply rtc_refl].
  split_and!; [lia|lia|lia| |reflexivity]. intros H. by apply (bool_decide_eq_true_2 _) in H; vm_compute in H.
Qed.


(** A start time that cannot be read is no error: the agent is recorded with start time
    0, which no process has, and the next restart reports it as exited, with a row that
    says so, while its process runs on. *)
Theorem unread_start_time_loses_the_agent :
  let E := mkStartEnv "a1" true true (Some (7, 100)) false 0 true in
  let s := (StartAgent E demo_req (fresh_sup {[1 := 5]})).2 in
  let s' := recoverFromDB (λ _, true) s in
  (ai_Status <$> Status s "a1") = Some "running" ∧ sv_procs s' !! 7 = Some 100 ∧
  (ai_Status <$> Status s' "a1") = Some "exited" ∧ (rw_Status <$> sv_rows s') = ["exited"].
Proof. by vm_compute. Qed.

(** A signal goes to the pid alone: cancelling a recovered agent whose process is gone,
    before the next look at /proc, hits the process that has its pid now. *)
Theorem cancel_can_signal_a_stranger :
  ∃ s a, rtc sup_step (fresh_sup {[1 := 5]}) s ∧ sv_agents s !! "a1" = Some a ∧ ag_startTicks a = 100 ∧
    (CancelAgent "a1" s).1 = Ok tt ∧ sv_signals (CancelAgent "a1" s).2 = [(SIGTERM, 7, Some 200)].
Proof.
  exists demo_reused, (recovered_agent demo_started (scan_row (mkRow "a1" 7 100 0 "running" None "s1" "claude" "/w" "agents/a1.stdout" "agents/a1.stderr"))).
  split; [exact demo_reused_reachable|]. by split_and!.
Qed.

(** ** The start time *)

Definition field_ok (f : string) : bool := all_str (λ c, negb (is_field_sep c) && negb (Ascii.eqb c ")")) f && negb (bool_decide (f = EmptyString)).

Lemma fields_acc_cons f c s acc :
  all_str (λ c, negb (is_field_sep c)) f = true → is_field_sep c = true → f ≠ EmptyString ∨ acc ≠ EmptyString →
  fields_acc (f +:+ String c s) acc = (rev_str acc EmptyString +:+ f) :: fields_acc s EmptyString.
Proof.
  intros Hf Hc. revert acc. induction f as [|d f IH]; intros acc Hne.
  - change (EmptyString +:+ String c s) with (String c s). cbn [fields_acc]. rewrite Hc, app_str_nil.
    by rewrite bool_decide_eq_false_2 by (destruct Hne; done).
  - cbn [all_str] in Hf. apply andb_true_iff in Hf as [Hd Hf]. rewrite app_str_cons. cbn [fields_acc].
    apply negb_true_iff in Hd. rewrite Hd, IH by (done || by right). f_equal. rewrite rev_str_cons, app_str_assoc. done.
Qed.

Lemma Fields_join fs :
  Forall (λ f, field_ok f = true) fs → fs ≠ [] → Fields (join_str " " fs +:+ str1 nl) = fs.
Proof.
  assert (Hfok : ∀ f, field_ok f = true → all_str (λ c, negb (is_field_sep c)) f = true ∧ f ≠ EmptyString).
  { intros f [Ha Hn]%andb_true_iff. split; [|by apply negb_true_iff, bool_decide_eq_false in Hn].
    eapply all_str_mono; [|exact Ha]. intros c [? _]%andb_true_iff. done. }
  induction 1 as [|f fs Hf _ IH]; intros Hne; [done|]. apply Hfok in Hf as [Hf Hn]. unfold Fields. destruct fs as [|g fs].
  - cbn [join_str]. unfold str1. rewrite fields_acc_cons by (done || by left). done.
  - change (join_str " " (f :: g :: fs)) with (f +:+ " " +:+ join_str " " (g :: fs)). rewrite !app_str_assoc.
    change (" " +:+ ?x) with (String " " x). rewrite fields_acc_cons by (done || by left). f_equal. by apply IH.
Qed.

Lemma ParseUint_itoa n : 0 ≤ n < 2 ^ 64 → ParseUint (itoa n) = Some n.
Proof.
  intros Hn. pose proof (DecimalZ.of_to n) as Hz. destruct (to_int_not_nil n) as [H1 H2]. unfold ParseUint, itoa.
  destruct (Z.to_int n) as [u|u] eqn:E; cbn [DecimalString.NilZero.string_of_int] in *.
  - rewrite DecimalString.NilZero.usu by congruence. cbn in Hz. rewrite Hz. destruct (Z.ltb_spec n (2 ^ 64)); [done|lia].
  - exfalso. destruct n; try done. lia.
Qed.

Lemma join_no_paren fs : Forall (λ f, field_ok f = true) fs → all_str (λ d, negb (Ascii.eqb d ")")) (join_str " " fs +:+ str1 nl) = true.
Proof.
  intros H. rewrite all_str_app. apply andb_true_iff. split; [|done]. induction H as [|f fs Hf _ IH]; [done|].
  assert (all_str (λ d, negb (Ascii.eqb d ")")) f = true) as Hp.
  { apply andb_true_iff in Hf as [Hf _]. eapply all_str_mono; [|exact Hf]. by intros c [_ ?]%andb_true_iff. }
  destruct fs as [|g fs]; [done|]. change (join_str " " (f :: g :: fs)) with (f +:+ " " +:+ join_str " " (g :: fs)).
  rewrite !all_str_app, Hp, IH. done.
Qed.

(** The start time of a process is read from its stat line whatever its name is: spaces,
    parentheses and digits in the name of the command change nothing. *)
Theorem proc_stat_parses pid comm fs n :
  Forall (λ f, field_ok f = true) fs → fs !! 19%nat = Some (itoa n) → 0 ≤ n < 2 ^ 64 →
  readProcStarttime (Some (itoa pid +:+ " (" +:+ comm +:+ ") " +:+ join_str " " fs +:+ str1 nl)) = Ok n.
Proof.
  intros Hf Hn Hr. unfold readProcStarttime.
  set (pre := itoa pid +:+ " (" +:+ comm). set (rest := join_str " " fs +:+ str1 nl).
  replace (itoa pid +:+ " (" +:+ comm +:+ ") " +:+ rest) with (pre +:+ String ")" (String " " rest)) by (unfold pre; by rewrite !app_str_assoc).
  assert (Hl : LastIndexByte (pre +:+ String ")" (String " " rest)) ")" = Z.of_nat (String.length pre)).
  { apply LastIndexByte_app. cbn. by apply join_no_paren. }
  rewrite Hl. pose proof (lookup_lt_Some _ _ _ Hn) as Hlen.
  rewrite length_app_str. cbn [String.length].
  assert (1 ≤ String.length rest)%nat by (unfold rest; rewrite length_app_str; cbn; lia).
  destruct (Z.ltb_spec (Z.of_nat (String.length pre)) 0); [lia|]. cbn [orb].
  destruct (Z.leb_spec (Z.of_nat (String.length pre + S (S (String.length rest)))) (Z.of_nat (String.length pre) + 2)); [lia|].
  replace (drop_str (Z.to_nat (Z.of_nat (String.length pre) + 2)) (pre +:+ String ")" (String " " rest))) with rest.
  2: { change (pre +:+ String ")" (String " " rest)) with (pre +:+ ") " +:+ rest). rewrite <-app_str_assoc.
       replace (Z.to_nat (Z.of_nat (String.length pre) + 2)) with (String.length (pre +:+ ") ")) by (rewrite length_app_str; cbn; lia).
       by rewrite drop_app_str. }
  unfold rest. rewrite Fields_join by (done || by intros ->). destruct (Nat.ltb_spec (length fs) 20); [lia|].
  rewrite Hn. change (default EmptyString (Some (itoa n))) with (itoa n). by rewrite ParseUint_itoa.
Qed.
