(* ===== verification/HookConfig.v ===== *)
(** * Hook configuration and actions

    [internal/hooks]: [config.go], [action.go], [webhook.go], [command.go] and
    [eventpayload.go].  The decoding of the YAML text, [time.ParseDuration] (its
    fractions go through floating point) and the process environment are
    parameters; what an action does outside the process (the HTTP exchange, the
    child process) is given by its outcome. *)

From S2P Require Import Prelude GoLib Json GoText GoFormat.
From Stdlib Require Import Ascii.

(** ** [eventpayload.go] *)

Definition PayloadSchemaVersion : Z := 1.
Definition HookEventPrefix : string := "hook_".

(** A zero [Timestamp] is [None]. *)
Record Event := mkEvent {
  ev_Type : string;
  ev_Repo : string;
  ev_IssueNum : Z;
  ev_Payload : string;
  ev_Timestamp : option Z
}.
#[export] Instance Event_eq_dec : EqDecision Event.
Proof. solve_decision. Defined.

Definition IsHookSelfEvent (eventType : string) : bool := HasPrefix eventType HookEventPrefix.

Record Envelope := mkEnvelope {
  en_SchemaVersion : Z;
  en_EventType : string;
  en_Timestamp : string;
  en_Repo : string;
  en_IssueNum : Z;
  en_Data : string
}.
Definition BuildEnvelope (now : Z) (ev : Event) : Envelope :=
  mkEnvelope PayloadSchemaVersion (ev_Type ev) (RFC3339Nano (default now (ev_Timestamp ev))) (ev_Repo ev) (ev_IssueNum ev)
    (if bool_decide (ev_Payload ev = EmptyString) then "null" else ev_Payload ev).

Definition json_field (k v : string) : string := enc_string k +:+ ":" +:+ v.
(** A raw message that is not a JSON document makes [json.Marshal] fail. *)
Definition MarshalEnvelope (env : Envelope) : option string :=
  if json_Valid (en_Data env) then
    Some ("{" +:+ join_str ","
      [json_field "schema_version" (itoa (en_SchemaVersion env)); json_field "event_type" (enc_string (en_EventType env));
       json_field "ts" (enc_string (en_Timestamp env)); json_field "repo" (enc_string (en_Repo env));
       json_field "issue_num" (itoa (en_IssueNum env)); json_field "data" (json_Compact (en_Data env))] +:+ "}")
  else None.

(** ** [config.go] *)

Definition ConfigSchemaVersion : Z := 1.

Record MatchFilter := mkMatchFilter { mf_Severity : list string; mf_Repo : string }.
Record ActionConfig := mkActionConfig {
  ac_Type : string;
  ac_URL : string;
  ac_Headers : list (string * string);
  ac_Method : string;
  ac_Cmd : list string;
  ac_Cwd : string
}.
Record Hook := mkHook {
  hk_Name : string;
  hk_Enabled : option bool;
  hk_Events : list string;
  hk_Match : option MatchFilter;
  hk_Timeout : Z;
  hk_RawTimeout : string;
  hk_Action : ActionConfig
}.
Record HookConfig := mkHookConfig { hc_SchemaVersion : Z; hc_Hooks : list Hook }.

Definition set_Timeout (d : Z) (h : Hook) : Hook :=
  mkHook (hk_Name h) (hk_Enabled h) (hk_Events h) (hk_Match h) d (hk_RawTimeout h) (hk_Action h).

Definition IsEnabled (h : Hook) : bool := default true (hk_Enabled h).

Definition hook_err (h : Hook) (msg : string) : error := EMsg ("hooks: hook " +:+ Quote (hk_Name h) +:+ ": " +:+ msg).

Definition hook_name_char (c : ascii) : bool :=
  byte_in c 97 122 || byte_in c 65 90 || byte_in c 48 57 || Ascii.eqb c "." || Ascii.eqb c "_" || Ascii.eqb c "-".
Definition hookNamePattern (s : string) : bool :=
  negb (bool_decide (s = EmptyString)) && all_str hook_name_char s.

(** [seen] is the set of names so far. *)
Definition validateHook (h : Hook) (seen : gset string) : res (gset string) :=
  if is_blank (hk_Name h) then Err (EMsg "hooks: hook missing name")
  else if negb (hookNamePattern (hk_Name h)) then Err (hook_err h "name must match ^[a-zA-Z0-9._-]+$")
  else if bool_decide (hk_Name h ∈ seen) then Err (EMsg ("hooks: duplicate hook name " +:+ Quote (hk_Name h)))
  else if bool_decide (hk_Events h = []) then Err (hook_err h "events is required")
  else if existsb is_blank (hk_Events h) then Err (hook_err h "empty event entry")
  else if is_blank (ac_Type (hk_Action h)) then Err (hook_err h "action.type is required")
  else Ok ({[hk_Name h]} ∪ seen).

Definition validateMatchFilter (h : Hook) : res (list string) :=
  match hk_Match h with
  | None => Ok []
  | Some m =>
      let nonAlert := existsb (λ ev, negb (bool_decide (ev = "alert"))) (hk_Events h) in
      let warnings :=
        if (0 <? length (mf_Severity m))%nat && nonAlert
        then ["hook " +:+ Quote (hk_Name h) +:+ ": match.severity only applies to event_type=alert; ignored for other events"]
        else [] in
      if negb (is_blank (mf_Repo m)) && negb (bool_decide (is_Some (path_Match (mf_Repo m) "owner/repo")))
      then Err (hook_err h ("invalid match.repo glob " +:+ Quote (mf_Repo m)))
      else Ok warnings
  end.

(** The leftmost match of [severityFieldPattern]: the quoted key, a colon between
    blanks, and a quoted value. *)
Definition re_space (c : ascii) : bool := byte_is c 9 || byte_is c 10 || byte_is c 12 || byte_is c 13 || byte_is c 32.
Fixpoint skip_re_space (s : string) : string :=
  match s with String c r => if re_space c then skip_re_space r else s | _ => s end.
Fixpoint until_quote (s : string) : option string :=
  match s with
  | EmptyString => None
  | String c r => if Ascii.eqb c dquote then Some EmptyString else String c <$> until_quote r
  end.
Definition severity_here (s : string) : option string :=
  if HasPrefix s (quoted "severity") then
    match skip_re_space (drop_str 10 s) with
    | String ":" r => match skip_re_space r with
                      | String q r' => if Ascii.eqb q dquote then until_quote r' else None
                      | _ => None
                      end
    | _ => None
    end
  else None.
Fixpoint extractSeverity (payload : string) : string :=
  match payload with
  | EmptyString => EmptyString
  | String _ r => match severity_here payload with Some v => v | None => extractSeverity r end
  end.

Definition MatchesFilter (h : Hook) (ev : Event) : bool :=
  match hk_Match h with
  | None => true
  | Some m =>
      if negb (bool_decide (mf_Repo m = EmptyString)) && negb (default false (path_Match (mf_Repo m) (ev_Repo ev))) then false
      else if (0 <? length (mf_Severity m))%nat && bool_decide (ev_Type ev = "alert") then
        let sev := extractSeverity (ev_Payload ev) in
        if bool_decide (sev = EmptyString) then false
        else existsb (λ allowed, EqualFold (TrimSpace allowed) sev) (mf_Severity m)
      else true
  end.

Definition MatchesEvent (h : Hook) (eventType : string) : bool :=
  existsb (λ ev, bool_decide (ev = "*") || bool_decide (ev = eventType)
                 || (ContainsAny ev ["*"; "?"; "["]%char && default false (path_Match ev eventType))) (hk_Events h).

(** ** [webhook.go] *)

Definition env_name_start (c : ascii) : bool := byte_in c 65 90 || byte_in c 97 122 || Ascii.eqb c "_".
Definition env_name_char (c : ascii) : bool := env_name_start c || is_digit c.
Fixpoint env_name (s : string) : string * string :=
  match s with
  | String c r => if env_name_char c then let '(a, b) := env_name r in (String c a, b) else (EmptyString, s)
  | EmptyString => (EmptyString, EmptyString)
  end.
(** A placeholder at the front of the text: its name and what follows. *)
Definition placeholder (s : string) : option (string * string) :=
  match s with
  | String "$" (String "{" (String c r)) =>
      if env_name_start c then
        match env_name r with (a, String "}" rest) => Some (String c a, rest) | _ => None end
      else None
  | _ => None
  end.

Section Env.
Context (LookupEnv : string → option string).

(** [ReplaceAllStringFunc]: the value, and the names that are unset or empty. *)
Fixpoint expand (fuel : nat) (s : string) : string * list string :=
  match fuel, s with
  | S fuel, String c r =>
      match placeholder s with
      | Some (name, rest) =>
          let val := default EmptyString (LookupEnv name) in
          let '(v, miss) := expand fuel rest in
          (val +:+ v, if bool_decide (val = EmptyString) then name :: miss else miss)
      | None => let '(v, miss) := expand fuel r in (String c v, miss)
      end
  | _, _ => (EmptyString, [])
  end.
Definition resolveHeaders (hookName : string) (raw : list (string * string)) : list (string * string) * list string :=
  ((λ kv, (kv.1, (expand (String.length kv.2) kv.2).1)) <$> raw,
   mjoin ((λ kv, (λ name, "hook " +:+ Quote hookName +:+ ": header " +:+ Quote kv.1 +:+ " references unset env var " +:+ name)
                   <$> (expand (String.length kv.2) kv.2).2) <$> raw)).

Record WebhookAction := mkWebhookAction { wa_url : string; wa_method : string; wa_headers : list (string * string) }.
Record CommandAction := mkCommandAction { ca_name : string; ca_argv : list string; ca_cwd : string }.
Inductive HookAction := Webhook (w : WebhookAction) | Command (c : CommandAction).
Definition ActionTypeWebhook : string := "webhook".
Definition ActionTypeCommand : string := "command".
Definition action_Type (a : HookAction) : string :=
  match a with Webhook _ => ActionTypeWebhook | Command _ => ActionTypeCommand end.

Definition webhook_method_ok (m : string) : bool := bool_decide (m = "POST") || bool_decide (m = "PUT").
Definition buildWebhookAction (h : Hook) : res (HookAction * list string) :=
  let a := hk_Action h in
  if is_blank (ac_URL a) then Err (hook_err h "webhook.url is required")
  else
    let method := ToUpper (TrimSpace (ac_Method a)) in
    let method := if bool_decide (method = EmptyString) then "POST" else method in
    if negb (webhook_method_ok method) then Err (hook_err h "webhook.method must be POST or PUT")
    else let '(resolved, warnings) := resolveHeaders (hk_Name h) (ac_Headers a) in
         Ok (Webhook (mkWebhookAction (ac_URL a) method resolved), warnings).
Definition finalizeWebhookAction (h : Hook) : res (list string) :=
  let a := hk_Action h in
  if is_blank (ac_URL a) then Err (hook_err h "webhook.url is required")
  else
    let method := ToUpper (TrimSpace (ac_Method a)) in
    if negb (bool_decide (method = EmptyString)) && negb (webhook_method_ok method)
    then Err (hook_err h "webhook.method must be POST or PUT")
    else Ok (resolveHeaders (hk_Name h) (ac_Headers a)).2.

(** ** [command.go] *)

Definition BuildCommandAction (h : Hook) : res CommandAction :=
  let a := hk_Action h in
  match ac_Cmd a with
  | [] => Err (hook_err h "command.cmd must be a non-empty argv")
  | prog :: _ =>
      if is_blank prog then Err (hook_err h "command.cmd[0] (program) is empty")
      else Ok (mkCommandAction (hk_Name h) (ac_Cmd a) (ac_Cwd a))
  end.
Definition buildCommandAction (h : Hook) : res (HookAction * list string) :=
  match BuildCommandAction h with Ok a => Ok (Command a, []) | Err e => Err e end.
Definition finalizeCommandAction (h : Hook) : res (list string) :=
  match BuildCommandAction h with Ok _ => Ok [] | Err e => Err e end.
Definition commandEnv (base : list string) (hookName eventType repo : string) (issueNum : Z) : list string :=
  base ++ ["WORKBUDDY_EVENT_TYPE=" +:+ eventType; "WORKBUDDY_REPO=" +:+ repo;
           "WORKBUDDY_ISSUE_NUM=" +:+ itoa issueNum; "WORKBUDDY_HOOK_NAME=" +:+ hookName].

(** ** [action.go]: the registry is a map from action types to builders *)

Definition ActionBuilder : Type := Hook → res (HookAction * list string).
Definition ActionRegistry : Type := gmap string ActionBuilder.
Definition NewActionRegistry : ActionRegistry := ∅.
Definition Register (r : ActionRegistry) (actionType : string) (b : ActionBuilder) : ActionRegistry := <[actionType := b]> r.
Definition Build (r : ActionRegistry) (h : Hook) : res (HookAction * list string) :=
  match r !! ac_Type (hk_Action h) with
  | None => Err (EMsg ("hooks: no builder registered for action type " +:+ Quote (ac_Type (hk_Action h))))
  | Some b => b h
  end.
Definition DefaultActionRegistry : ActionRegistry :=
  Register (Register NewActionRegistry ActionTypeWebhook buildWebhookAction) ActionTypeCommand buildCommandAction.

Definition finalizeAction (h : Hook) : res (list string) :=
  let t := ac_Type (hk_Action h) in
  if bool_decide (t = ActionTypeWebhook) then finalizeWebhookAction h
  else if bool_decide (t = ActionTypeCommand) then finalizeCommandAction h
  else Err (hook_err h ("unknown action type " +:+ Quote t)).

(** ** Loading: [decode] and [ParseDuration] are parameters *)

Context (ParseDuration : string → option Z).

Definition hook_timeout (h : Hook) : res Hook :=
  if is_blank (hk_RawTimeout h) then Ok h
  else match ParseDuration (hk_RawTimeout h) with
       | Some d => Ok (set_Timeout d h)
       | None => Err (hook_err h ("invalid timeout " +:+ Quote (hk_RawTimeout h)))
       end.
Fixpoint parse_hooks (hs : list Hook) (seen : gset string) : res (list Hook * list string) :=
  match hs with
  | [] => Ok ([], [])
  | h :: hs =>
      match validateHook h seen with
      | Err e => Err e
      | Ok seen =>
          match hook_timeout h with
          | Err e => Err e
          | Ok h =>
              match finalizeAction h with
              | Err e => Err e
              | Ok w =>
                  match validateMatchFilter h with
                  | Err e => Err e
                  | Ok mw =>
                      match parse_hooks hs seen with
                      | Err e => Err e
                      | Ok (hs, ws) => Ok (h :: hs, w ++ mw ++ ws)
                      end
                  end
              end
          end
      end
  end.
Definition ParseConfig (decoded : option HookConfig) : res (HookConfig * list string) :=
  match decoded with
  | None => Err (EMsg "hooks: parse yaml")
  | Some cfg =>
      let v := if hc_SchemaVersion cfg =? 0 then ConfigSchemaVersion else hc_SchemaVersion cfg in
      if negb (v =? ConfigSchemaVersion)
      then Err (EMsg ("hooks: unsupported schema_version " +:+ itoa v +:+ " (want " +:+ itoa ConfigSchemaVersion +:+ ")"))
      else match parse_hooks (hc_Hooks cfg) ∅ with
           | Ok (hs, ws) => Ok (mkHookConfig v hs, ws)
           | Err e => Err e
           end
  end.
(** [read]: the file, [Err] for a failure, [Ok None] when it does not exist. *)
Definition LoadConfig (decode : string → option HookConfig) (path : string) (read : res (option string)) :
    res (option HookConfig * list string) :=
  if is_blank path then Ok (None, [])
  else match read with
       | Err e => Err (EWrap ("hooks: read " +:+ path) e)
       | Ok None => Ok (None, [])
       | Ok (Some raw) => match ParseConfig (decode raw) with Ok (cfg, ws) => Ok (Some cfg, ws) | Err e => Err e end
       end.

(** ** A loaded configuration can be bound *)

Lemma finalize_build (h : Hook) :
  is_err (finalizeAction h) = false → is_err (Build DefaultActionRegistry h) = false.
Proof.
  unfold finalizeAction, Build, DefaultActionRegistry, Register. case_bool_decide as Ht.
  { rewrite Ht. change (<[_ := _]> (<[_ := _]> _) !! ActionTypeWebhook) with (Some buildWebhookAction). cbn match.
    unfold finalizeWebhookAction, buildWebhookAction. destruct (is_blank _); [done|].
    case_bool_decide as Hm; [by rewrite Hm|]. cbn. destruct (webhook_method_ok _); done. }
  case_bool_decide as Hc; [|done].
  rewrite Hc. change (<[_ := _]> _ !! ActionTypeCommand) with (Some buildCommandAction). cbn match. unfold finalizeCommandAction, buildCommandAction. by destruct (BuildCommandAction h).
Qed.

Lemma validateHook_ok h seen seen' :
  validateHook h seen = Ok seen' →
  seen' = {[hk_Name h]} ∪ seen ∧ hk_Name h ∉ seen ∧ hookNamePattern (hk_Name h) = true ∧ hk_Events h ≠ [].
Proof.
  unfold validateHook. destruct (is_blank (hk_Name h)); [done|]. destruct (hookNamePattern _); [|done]. cbn.
  case_bool_decide; [done|]. case_bool_decide; [done|]. repeat case_match; intros; naive_solver.
Qed.

Lemma hook_timeout_name h h' : hook_timeout h = Ok h' → hk_Name h' = hk_Name h ∧ hk_Events h' = hk_Events h.
Proof. unfold hook_timeout. repeat case_match; intros; simplify_eq; done. Qed.

Definition hook_wf (h : Hook) : Prop :=
  hookNamePattern (hk_Name h) = true ∧ hk_Events h ≠ [] ∧ is_err (finalizeAction h) = false ∧ is_err (validateMatchFilter h) = false.

Lemma parse_hooks_ok hs seen hs' ws :
  parse_hooks hs seen = Ok (hs', ws) →
  NoDup (hk_Name <$> hs') ∧ (∀ n, n ∈ hk_Name <$> hs' → n ∉ seen) ∧ Forall hook_wf hs' ∧ (hk_Name <$> hs') = hk_Name <$> hs.
Proof.
  revert seen hs' ws. induction hs as [|h hs IH]; intros seen hs' ws; cbn [parse_hooks].
  { intros [= <- <-]. cbn. split_and!; [constructor|set_solver|constructor|done]. }
  destruct (validateHook h seen) as [seen'|] eqn:Hv; [|done].
  destruct (hook_timeout h) as [h'|] eqn:Ht; [|done].
  destruct (finalizeAction h') as [w|] eqn:Hf; [|done].
  destruct (validateMatchFilter h') as [mw|] eqn:Hm; [|done].
  destruct (parse_hooks hs seen') as [[hs0 ws0]|] eqn:Hp; [|done]. intros [= <- <-].
  apply validateHook_ok in Hv as (-> & Hns & Hpat & Hev). apply hook_timeout_name in Ht as [Hn He].
  destruct (IH _ _ _ Hp) as (Hnd & Hseen & Hwf & Heq). cbn. rewrite Hn. split_and!.
  - constructor; [|done]. intros Hin%Hseen. set_solver.
  - intros n [->|Hin]%elem_of_cons; [done|]. apply Hseen in Hin. set_solver.
  - constructor; [|done]. unfold hook_wf. by rewrite Hn, He, Hf, Hm.
  - by rewrite Heq.
Qed.
End Env.
