(* ===== verification/Hooks.v ===== *)
(** * The hook dispatcher

    [internal/hooks/dispatcher.go]: a bounded central channel, a slot of one event
    per hook, one worker per hook, auto-disable after five failures in a row, and a
    ring of the last hundred invocations.

    A goroutine's turn is a step: [Publish] by any caller, [fanOut] by the fan-in
    loop, the receive and the end of [executeOne] by a worker.  A worker that has
    taken an event holds it in [di_running] until the action returns; the outcome
    of the action and the two clock readings are given to that step.  The counters,
    of 64 bits, count events and are not wrapped. *)

From S2P Require Import Prelude GoLib Json GoText GoFormat HookConfig.

Definition channelCapacity : nat := 1024.
Definition DefaultHookTimeout : Z := 5000000000.
Definition invocationBufferSize : nat := 100.
Definition invocationPreviewLimit : nat := 4096.
Definition AutoDisableThreshold : Z := 5.
Definition HookDisabledEvent : string := HookEventPrefix +:+ "disabled".
Definition InvocationResultSuccess : string := "success".
Definition InvocationResultFailure : string := "failure".
Definition InvocationResultOverflow : string := "overflow".

(** In nanoseconds. *)
Definition hookDurationBuckets : list Z :=
  (λ us, us * 1000) <$> [5000; 10000; 25000; 50000; 100000; 250000; 500000; 1000000; 2500000; 5000000; 10000000].

(** The zero [Invocation] fills a fresh ring. *)
Record Invocation := mkInvocation {
  iv_StartedAt : option Z;
  iv_FinishedAt : option Z;
  iv_DurationNs : Z;
  iv_Result : string;
  iv_Error : string;
  iv_EventType : string;
  iv_Repo : string;
  iv_IssueNum : Z;
  iv_Stdout : string;
  iv_Stderr : string
}.
Definition zero_invocation : Invocation :=
  mkInvocation None None 0 EmptyString EmptyString EmptyString EmptyString 0 EmptyString EmptyString.

(** ** The ring of invocations *)

(** [rg_slots] is the slice, [None] when nil. *)
Record Ring (A : Type) := mkRing { rg_slots : option (list A); rg_len : nat; rg_idx : nat }.
Arguments mkRing {_} _ _ _.
Arguments rg_slots {_} _.
Arguments rg_len {_} _.
Arguments rg_idx {_} _.
Definition empty_ring {A} : Ring A := mkRing None 0 0.

Definition appendInvocationLocked {A} (zero inv : A) (r : Ring A) : Ring A :=
  let slots := default (replicate invocationBufferSize zero) (rg_slots r) in
  mkRing (Some (<[rg_idx r := inv]> slots))
    (if (rg_len r <? invocationBufferSize)%nat then S (rg_len r) else rg_len r)
    ((rg_idx r + 1) mod invocationBufferSize).

Definition snapshotInvocationsLocked {A} (zero : A) (r : Ring A) : list A :=
  if (rg_len r =? 0)%nat then []
  else
    let start := ((rg_idx r + invocationBufferSize - rg_len r) mod invocationBufferSize)%nat in
    (λ i, default zero (default [] (rg_slots r) !! ((start + i) mod invocationBufferSize)%nat)) <$> seq 0 (rg_len r).

(** ** Hooks and the dispatcher *)

Record boundHook := mkBoundHook {
  bh_hook : Hook;
  bh_action : HookAction;
  bh_failures : Z;
  bh_disabled : bool;
  bh_lastErr : string;
  bh_lastFailureAt : option Z;
  bh_successCount : Z;
  bh_failureCount : Z;
  bh_filteredCount : Z;
  bh_disabledDrops : Z;
  bh_overflowCount : Z;
  bh_durationSumNs : Z;
  bh_durationCount : Z;
  bh_durationBuckets : list Z;
  bh_lastInvokedAt : option Z;
  bh_invocations : Ring Invocation
}.
Definition fresh_hook (h : Hook) (a : HookAction) : boundHook :=
  mkBoundHook h a 0 false EmptyString None 0 0 0 0 0 0 0 (replicate 11 0) None empty_ring.
Definition bh_failures_upd (g : Z → Z) (x : boundHook) : boundHook :=
  mkBoundHook (bh_hook x) (bh_action x) (g (bh_failures x)) (bh_disabled x) (bh_lastErr x) (bh_lastFailureAt x) (bh_successCount x) (bh_failureCount x) (bh_filteredCount x) (bh_disabledDrops x) (bh_overflowCount x) (bh_durationSumNs x) (bh_durationCount x) (bh_durationBuckets x) (bh_lastInvokedAt x) (bh_invocations x).
Definition bh_disabled_upd (g : bool → bool) (x : boundHook) : boundHook :=
  mkBoundHook (bh_hook x) (bh_action x) (bh_failures x) (g (bh_disabled x)) (bh_lastErr x) (bh_lastFailureAt x) (bh_successCount x) (bh_failureCount x) (bh_filteredCount x) (bh_disabledDrops x) (bh_overflowCount x) (bh_durationSumNs x) (bh_durationCount x) (bh_durationBuckets x) (bh_lastInvokedAt x) (bh_invocations x).
Definition bh_lastErr_upd (g : string → string) (x : boundHook) : boundHook :=
  mkBoundHook (bh_hook x) (bh_action x) (bh_failures x) (bh_disabled x) (g (bh_lastErr x)) (bh_lastFailureAt x) (bh_successCount x) (bh_failureCount x) (bh_filteredCount x) (bh_disabledDrops x) (bh_overflowCount x) (bh_durationSumNs x) (bh_durationCount x) (bh_durationBuckets x) (bh_lastInvokedAt x) (bh_invocations x).
Definition bh_lastFailureAt_upd (g : option Z → option Z) (x : boundHook) : boundHook :=
  mkBoundHook (bh_hook x) (bh_action x) (bh_failures x) (bh_disabled x) (bh_lastErr x) (g (bh_lastFailureAt x)) (bh_successCount x) (bh_failureCount x) (bh_filteredCount x) (bh_disabledDrops x) (bh_overflowCount x) (bh_durationSumNs x) (bh_durationCount x) (bh_durationBuckets x) (bh_lastInvokedAt x) (bh_invocations x).
Definition bh_successCount_upd (g : Z → Z) (x : boundHook) : boundHook :=
  mkBoundHook (bh_hook x) (bh_action x) (bh_failures x) (bh_disabled x) (bh_lastErr x) (bh_lastFailureAt x) (g (bh_successCount x)) (bh_failureCount x) (bh_filteredCount x) (bh_disabledDrops x) (bh_overflowCount x) (bh_durationSumNs x) (bh_durationCount x) (bh_durationBuckets x) (bh_lastInvokedAt x) (bh_invocations x).
Definition bh_failureCount_upd (g : Z → Z) (x : boundHook) : boundHook :=
  mkBoundHook (bh_hook x) (bh_action x) (bh_failures x) (bh_disabled x) (bh_lastErr x) (bh_lastFailureAt x) (bh_successCount x) (g (bh_failureCount x)) (bh_filteredCount x) (bh_disabledDrops x) (bh_overflowCount x) (bh_durationSumNs x) (bh_durationCount x) (bh_durationBuckets x) (bh_lastInvokedAt x) (bh_invocations x).
Definition bh_filteredCount_upd (g : Z → Z) (x : boundHook) : boundHook :=
  mkBoundHook (bh_hook x) (bh_action x) (bh_failures x) (bh_disabled x) (bh_lastErr x) (bh_lastFailureAt x) (bh_successCount x) (bh_failureCount x) (g (bh_filteredCount x)) (bh_disabledDrops x) (bh_overflowCount x) (bh_durationSumNs x) (bh_durationCount x) (bh_durationBuckets x) (bh_lastInvokedAt x) (bh_invocations x).
Definition bh_disabledDrops_upd (g : Z → Z) (x : boundHook) : boundHook :=
  mkBoundHook (bh_hook x) (bh_action x) (bh_failures x) (bh_disabled x) (bh_lastErr x) (bh_lastFailureAt x) (bh_successCount x) (bh_failureCount x) (bh_filteredCount x) (g (bh_disabledDrops x)) (bh_overflowCount x) (bh_durationSumNs x) (bh_durationCount x) (bh_durationBuckets x) (bh_lastInvokedAt x) (bh_invocations x).
Definition bh_overflowCount_upd (g : Z → Z) (x : boundHook) : boundHook :=
  mkBoundHook (bh_hook x) (bh_action x) (bh_failures x) (bh_disabled x) (bh_lastErr x) (bh_lastFailureAt x) (bh_successCount x) (bh_failureCount x) (bh_filteredCount x) (bh_disabledDrops x) (g (bh_overflowCount x)) (bh_durationSumNs x) (bh_durationCount x) (bh_durationBuckets x) (bh_lastInvokedAt x) (bh_invocations x).
Definition bh_durationSumNs_upd (g : Z → Z) (x : boundHook) : boundHook :=
  mkBoundHook (bh_hook x) (bh_action x) (bh_failures x) (bh_disabled x) (bh_lastErr x) (bh_lastFailureAt x) (bh_successCount x) (bh_failureCount x) (bh_filteredCount x) (bh_disabledDrops x) (bh_overflowCount x) (g (bh_durationSumNs x)) (bh_durationCount x) (bh_durationBuckets x) (bh_lastInvokedAt x) (bh_invocations x).
Definition bh_durationCount_upd (g : Z → Z) (x : boundHook) : boundHook :=
  mkBoundHook (bh_hook x) (bh_action x) (bh_failures x) (bh_disabled x) (bh_lastErr x) (bh_lastFailureAt x) (bh_successCount x) (bh_failureCount x) (bh_filteredCount x) (bh_disabledDrops x) (bh_overflowCount x) (bh_durationSumNs x) (g (bh_durationCount x)) (bh_durationBuckets x) (bh_lastInvokedAt x) (bh_invocations x).
Definition bh_durationBuckets_upd (g : list Z → list Z) (x : boundHook) : boundHook :=
  mkBoundHook (bh_hook x) (bh_action x) (bh_failures x) (bh_disabled x) (bh_lastErr x) (bh_lastFailureAt x) (bh_successCount x) (bh_failureCount x) (bh_filteredCount x) (bh_disabledDrops x) (bh_overflowCount x) (bh_durationSumNs x) (bh_durationCount x) (g (bh_durationBuckets x)) (bh_lastInvokedAt x) (bh_invocations x).
Definition bh_lastInvokedAt_upd (g : option Z → option Z) (x : boundHook) : boundHook :=
  mkBoundHook (bh_hook x) (bh_action x) (bh_failures x) (bh_disabled x) (bh_lastErr x) (bh_lastFailureAt x) (bh_successCount x) (bh_failureCount x) (bh_filteredCount x) (bh_disabledDrops x) (bh_overflowCount x) (bh_durationSumNs x) (bh_durationCount x) (bh_durationBuckets x) (g (bh_lastInvokedAt x)) (bh_invocations x).
Definition bh_invocations_upd (g : Ring Invocation → Ring Invocation) (x : boundHook) : boundHook :=
  mkBoundHook (bh_hook x) (bh_action x) (bh_failures x) (bh_disabled x) (bh_lastErr x) (bh_lastFailureAt x) (bh_successCount x) (bh_failureCount x) (bh_filteredCount x) (bh_disabledDrops x) (bh_overflowCount x) (bh_durationSumNs x) (bh_durationCount x) (bh_durationBuckets x) (bh_lastInvokedAt x) (g (bh_invocations x)).

(** [di_emitted]: what the emitter was called with, hook name and last error. *)
Record Dispatcher := mkDispatcher {
  di_hooks : list boundHook;
  di_in : list Event;
  di_overflow : Z;
  di_dropped : Z;
  di_started : bool;
  di_stopped : bool;
  di_subQueue : gmap string (list Event);
  di_running : gmap string Event;
  di_emitted : list (string * string)
}.
Definition di_hooks_upd (g : list boundHook → list boundHook) (x : Dispatcher) : Dispatcher :=
  mkDispatcher (g (di_hooks x)) (di_in x) (di_overflow x) (di_dropped x) (di_started x) (di_stopped x) (di_subQueue x) (di_running x) (di_emitted x).
Definition di_in_upd (g : list Event → list Event) (x : Dispatcher) : Dispatcher :=
  mkDispatcher (di_hooks x) (g (di_in x)) (di_overflow x) (di_dropped x) (di_started x) (di_stopped x) (di_subQueue x) (di_running x) (di_emitted x).
Definition di_overflow_upd (g : Z → Z) (x : Dispatcher) : Dispatcher :=
  mkDispatcher (di_hooks x) (di_in x) (g (di_overflow x)) (di_dropped x) (di_started x) (di_stopped x) (di_subQueue x) (di_running x) (di_emitted x).
Definition di_dropped_upd (g : Z → Z) (x : Dispatcher) : Dispatcher :=
  mkDispatcher (di_hooks x) (di_in x) (di_overflow x) (g (di_dropped x)) (di_started x) (di_stopped x) (di_subQueue x) (di_running x) (di_emitted x).
Definition di_started_upd (g : bool → bool) (x : Dispatcher) : Dispatcher :=
  mkDispatcher (di_hooks x) (di_in x) (di_overflow x) (di_dropped x) (g (di_started x)) (di_stopped x) (di_subQueue x) (di_running x) (di_emitted x).
Definition di_stopped_upd (g : bool → bool) (x : Dispatcher) : Dispatcher :=
  mkDispatcher (di_hooks x) (di_in x) (di_overflow x) (di_dropped x) (di_started x) (g (di_stopped x)) (di_subQueue x) (di_running x) (di_emitted x).
Definition di_subQueue_upd (g : gmap string (list Event) → gmap string (list Event)) (x : Dispatcher) : Dispatcher :=
  mkDispatcher (di_hooks x) (di_in x) (di_overflow x) (di_dropped x) (di_started x) (di_stopped x) (g (di_subQueue x)) (di_running x) (di_emitted x).
Definition di_running_upd (g : gmap string Event → gmap string Event) (x : Dispatcher) : Dispatcher :=
  mkDispatcher (di_hooks x) (di_in x) (di_overflow x) (di_dropped x) (di_started x) (di_stopped x) (di_subQueue x) (g (di_running x)) (di_emitted x).
Definition di_emitted_upd (g : list (string * string) → list (string * string)) (x : Dispatcher) : Dispatcher :=
  mkDispatcher (di_hooks x) (di_in x) (di_overflow x) (di_dropped x) (di_started x) (di_stopped x) (di_subQueue x) (di_running x) (g (di_emitted x)).

(** [bind_hooks]: the loop of [NewDispatcher] and of [Reload] over the enabled hooks. *)
Fixpoint bind_hooks (registry : ActionRegistry) (hs : list Hook) : res (list boundHook * list string) :=
  match hs with
  | [] => Ok ([], [])
  | h :: hs =>
      if negb (IsEnabled h) then bind_hooks registry hs
      else match Build registry h with
           | Err e => Err e
           | Ok (a, w) =>
               match bind_hooks registry hs with
               | Err e => Err e
               | Ok (bs, ws) => Ok (fresh_hook h a :: bs, w ++ ws)
               end
           end
  end.
Definition NewDispatcher (cfg : option HookConfig) (registry : ActionRegistry) : res (Dispatcher * list string) :=
  match bind_hooks registry (match cfg with Some c => hc_Hooks c | None => [] end) with
  | Err e => Err e
  | Ok (bs, ws) => Ok (mkDispatcher bs [] 0 0 false false ∅ ∅ [], ws)
  end.

Record HookSummary := mkHookSummary { hs_Name : string; hs_Events : list string; hs_ActionType : string; hs_Enabled : bool }.
Definition Hooks (d : Dispatcher) : list HookSummary :=
  (λ b, mkHookSummary (hk_Name (bh_hook b)) (hk_Events (bh_hook b)) (ac_Type (hk_Action (bh_hook b)))
          (IsEnabled (bh_hook b) && negb (bh_disabled b))) <$> di_hooks d.

Definition start_queues (bs : list boundHook) (m : gmap string (list Event)) : gmap string (list Event) :=
  foldl (λ m b, <[hk_Name (bh_hook b) := []]> m) m bs.
Definition Start (d : Dispatcher) : Dispatcher :=
  if di_started d then d
  else di_subQueue_upd (start_queues (di_hooks d)) (di_started_upd (λ _, true) d).
(** The workers have left when [Stop] returns; what they had not taken stays in
    the channels. *)
Definition Stop (d : Dispatcher) : Dispatcher := di_stopped_upd (λ _, true) d.

Definition Publish (ev : Event) (d : Dispatcher) : Dispatcher :=
  if IsHookSelfEvent (ev_Type ev) then d
  else if (length (di_in d) <? channelCapacity)%nat then di_in_upd (λ l, l ++ [ev]) d
  else di_overflow_upd (Z.add 1) d.
Definition PublishFromRaw (eventType repo : string) (issueNum : Z) (payloadJSON : string) (d : Dispatcher) : Dispatcher :=
  Publish (mkEvent eventType repo issueNum payloadJSON None) d.

Definition IsDisabled (d : Dispatcher) (hookName : string) : bool :=
  match List.find (λ b, bool_decide (hk_Name (bh_hook b) = hookName)) (di_hooks d) with
  | Some b => bh_disabled b
  | None => false
  end.

Definition overflow_invocation (now : Z) (ev : Event) : Invocation :=
  mkInvocation (Some now) (Some now) 0 InvocationResultOverflow "per-hook queue full; event dropped"
    (ev_Type ev) (ev_Repo ev) (ev_IssueNum ev) EmptyString EmptyString.

(** One round of the loop of [fanOut]: the hook, its queue and the number of drops. *)
Definition fan_one (now : Z) (ev : Event) (b : boundHook) (q : option (list Event)) : boundHook * option (list Event) * Z :=
  if negb (MatchesEvent (bh_hook b) (ev_Type ev)) then (b, q, 0)
  else if bh_disabled b then (bh_disabledDrops_upd (Z.add 1) b, q, 0)
  else if negb (MatchesFilter (bh_hook b) ev) then (bh_filteredCount_upd (Z.add 1) b, q, 0)
  else match q with
       | None => (b, q, 0)
       | Some q =>
           if (length q <? 1)%nat then (b, Some (q ++ [ev]), 0)
           else (bh_invocations_upd (appendInvocationLocked zero_invocation (overflow_invocation now ev))
                   (bh_overflowCount_upd (Z.add 1) b), Some q, 1)
       end.
Fixpoint fan_loop (now : Z) (ev : Event) (bs : list boundHook) (m : gmap string (list Event)) :
    list boundHook * gmap string (list Event) * Z :=
  match bs with
  | [] => ([], m, 0)
  | b :: bs =>
      let n := hk_Name (bh_hook b) in
      let '(b, q, k) := fan_one now ev b (m !! n) in
      let '(bs, m, k') := fan_loop now ev bs (match q with Some q => <[n := q]> m | None => m end) in
      (b :: bs, m, k + k')
  end.
Definition fanOut (now : Z) (ev : Event) (d : Dispatcher) : Dispatcher :=
  let '(bs, m, k) := fan_loop now ev (di_hooks d) (di_subQueue d) in
  di_dropped_upd (Z.add k) (di_subQueue_upd (λ _, m) (di_hooks_upd (λ _, bs) d)).

Definition truncateBytes (src : string) (limit : nat) : string :=
  if (limit <? String.length src)%nat then take_str limit src else src.

Definition observeDurationLocked (d : Z) (b : boundHook) : boundHook :=
  bh_durationBuckets_upd (λ c, zip_with (λ n upper, if d <=? upper then n + 1 else n) c hookDurationBuckets)
    (bh_durationSumNs_upd (Z.add d) (bh_durationCount_upd (Z.add 1) b)).

(** What running an action gives: its output and its error. *)
Record ActionCapture := mkActionCapture { cp_Stdout : string; cp_Stderr : string; cp_Err : option string }.

(** [WebhookAction.Capture], given the exchange: the status code and line with the
    body, or the error of building or sending the request. *)
Definition webhookCaptureLimit : nat := 4096.
Definition webhook_Capture (w : WebhookAction) (resp : res (Z * string * string)) : ActionCapture :=
  match resp with
  | Err _ => mkActionCapture EmptyString EmptyString (Some ("hooks: webhook " +:+ wa_url w))
  | Ok (code, status, body) =>
      let truncated := (webhookCaptureLimit <? String.length body)%nat in
      let stdout := "HTTP " +:+ itoa code +:+ " " +:+ status +:+ str1 (chr 10) +:+ truncateBytes body webhookCaptureLimit
                    +:+ (if truncated then str1 (chr 10) +:+ "... (truncated)" else EmptyString) in
      mkActionCapture stdout EmptyString
        (if (code <? 200) || (300 <=? code)
         then Some ("hooks: webhook " +:+ wa_url w +:+ ": status " +:+ itoa code) else None)
  end.

Definition emitDisabled (hookName lastErr : string) (d : Dispatcher) : Dispatcher :=
  di_emitted_upd (λ l, l ++ [(hookName, lastErr)]) d.

(** [executeOne] on the hook: its new state and whether it tripped. *)
Definition execute_hook (start finish : Z) (cap : ActionCapture) (ev : Event) (b : boundHook) : boundHook * bool :=
  match MarshalEnvelope (BuildEnvelope start ev) with
  | None => (b, false)
  | Some _ =>
      let inv result err :=
        mkInvocation (Some start) (Some finish) (finish - start) result err (ev_Type ev) (ev_Repo ev) (ev_IssueNum ev)
          (truncateBytes (cp_Stdout cap) invocationPreviewLimit) (truncateBytes (cp_Stderr cap) invocationPreviewLimit) in
      match cp_Err cap with
      | None =>
          (bh_invocations_upd (appendInvocationLocked zero_invocation (inv InvocationResultSuccess EmptyString))
             (observeDurationLocked (finish - start)
               (bh_lastInvokedAt_upd (λ _, Some finish)
                 (bh_successCount_upd (Z.add 1)
                   (bh_lastErr_upd (λ _, EmptyString) (bh_failures_upd (λ _, 0) b))))), false)
      | Some e =>
          let b :=
            bh_invocations_upd (appendInvocationLocked zero_invocation (inv InvocationResultFailure e))
              (observeDurationLocked (finish - start)
                (bh_lastInvokedAt_upd (λ _, Some finish)
                  (bh_lastFailureAt_upd (λ _, Some finish)
                    (bh_failureCount_upd (Z.add 1)
                      (bh_lastErr_upd (λ _, e) (bh_failures_upd (Z.add 1) b)))))) in
          let tripped := negb (bh_disabled b) && (AutoDisableThreshold <=? bh_failures b) in
          (if tripped then bh_disabled_upd (λ _, true) b else b, tripped)
      end
  end.

(** The worker of the [i]th hook returns from the action it was running. *)
Definition executeOne (start finish : Z) (cap : ActionCapture) (i : nat) (d : Dispatcher) : Dispatcher :=
  match di_hooks d !! i with
  | None => d
  | Some b =>
      match di_running d !! hk_Name (bh_hook b) with
      | None => d
      | Some ev =>
          let '(b', tripped) := execute_hook start finish cap ev b in
          let d := di_running_upd (delete (hk_Name (bh_hook b))) (di_hooks_upd (<[i := b']>) d) in
          if tripped then emitDisabled (hk_Name (bh_hook b)) (bh_lastErr b') d else d
      end
  end.

(** The worker of the [i]th hook receives from its channel. *)
Definition worker_receive (i : nat) (d : Dispatcher) : Dispatcher :=
  match di_hooks d !! i with
  | None => d
  | Some b =>
      let n := hk_Name (bh_hook b) in
      match di_running d !! n, di_subQueue d !! n with
      | None, Some (ev :: q) => di_running_upd <[n := ev]> (di_subQueue_upd <[n := q]> d)
      | _, _ => d
      end
  end.
(** The fan-in loop receives from the central channel. *)
Definition fan_in (now : Z) (d : Dispatcher) : Dispatcher :=
  match di_in d with
  | [] => d
  | ev :: q => fanOut now ev (di_in_upd (λ _, q) d)
  end.

Record HookStats := mkHookStats {
  ht_Name : string; ht_Events : list string; ht_ActionType : string; ht_Enabled : bool; ht_Disabled : bool;
  ht_Successes : Z; ht_Failures : Z; ht_Filtered : Z; ht_DisabledDrops : Z; ht_Overflow : Z;
  ht_ConsecutiveFail : Z; ht_LastError : string; ht_LastFailureAt : option Z; ht_LastInvokedAt : option Z;
  ht_DurationCount : Z; ht_DurationSumNs : Z; ht_DurationBuckets : list Z
}.
Definition Stats (d : Dispatcher) : list HookStats :=
  (λ b, mkHookStats (hk_Name (bh_hook b)) (hk_Events (bh_hook b)) (ac_Type (hk_Action (bh_hook b)))
          (IsEnabled (bh_hook b) && negb (bh_disabled b)) (bh_disabled b)
          (bh_successCount b) (bh_failureCount b) (bh_filteredCount b) (bh_disabledDrops b) (bh_overflowCount b)
          (bh_failures b) (bh_lastErr b) (bh_lastFailureAt b) (bh_lastInvokedAt b)
          (bh_durationCount b) (bh_durationSumNs b) (bh_durationBuckets b)) <$> di_hooks d.

Definition Invocations (d : Dispatcher) (hookName : string) (limit : Z) : list Invocation * bool :=
  match List.find (λ b, bool_decide (hk_Name (bh_hook b) = hookName)) (di_hooks d) with
  | None => ([], false)
  | Some b =>
      let snap := reverse (snapshotInvocationsLocked zero_invocation (bh_invocations b)) in
      (if (0 <? limit) && (limit <? Z.of_nat (length snap)) then take (Z.to_nat limit) snap else snap, true)
  end.

(** [Reload] builds the new bindings, waits for the workers (so that nothing is
    running), and starts a fresh pool on the same central channel. *)
Definition Reload (cfg : option HookConfig) (registry : ActionRegistry) (d : Dispatcher) : res (list string) * Dispatcher :=
  match bind_hooks registry (match cfg with Some c => hc_Hooks c | None => [] end) with
  | Err e => (Err e, d)
  | Ok (bs, ws) =>
      let wasStarted := di_started d in
      let d := mkDispatcher bs (di_in d) (di_overflow d) (di_dropped d) false false ∅
                 (di_running d) (di_emitted d) in
      (Ok ws, if wasStarted then Start d else d)
  end.
