(* ===== verification/HooksSpec.v ===== *)
(** * What the hook dispatcher guarantees

    The ring of invocations against the list it stands for, and the accounting of
    the events by a step relation over the goroutines of the dispatcher. *)

From S2P Require Import Prelude GoLib Json GoText GoFormat HookConfig Hooks.

(** ** The ring is the last hundred invocations *)

Section RingSpec.
Context {A : Type} (zero : A).
#[local] Abbreviation N := invocationBufferSize.

Definition append_all (xs : list A) : Ring A :=
  foldl (λ r x, appendInvocationLocked zero x r) empty_ring xs.

(** The history a ring stands for: its last [N] entries, at their places. *)
Definition ring_of (xs : list A) (r : Ring A) : Prop :=
  rg_idx r = (length xs mod N)%nat ∧ rg_len r = Nat.min (length xs) N ∧
  length (default (replicate N zero) (rg_slots r)) = N ∧
  (xs ≠ [] → is_Some (rg_slots r)) ∧
  ∀ k x, (length xs - N ≤ k)%nat → xs !! k = Some x → default [] (rg_slots r) !! (k mod N)%nat = Some x.

Lemma N_pos : N ≠ 0%nat.
Proof. done. Qed.

Lemma mod_window (a b : nat) : (a < b)%nat → (b - N ≤ a)%nat → (a mod N ≠ b mod N)%nat ∨ b = (a + N)%nat.
Proof.
  intros Hab Hw. destruct (decide (b = a + N)%nat) as [->|Hne]; [by right|]. left. intros He.
  pose proof (Nat.div_mod a N N_pos) as Ha. pose proof (Nat.div_mod b N N_pos) as Hb.
  assert (b - a = N * (b / N - a / N))%nat by nia.
  assert (b - a < N)%nat by lia. destruct (b / N - a / N)%nat; nia.
Qed.

Lemma ring_append xs r x : ring_of xs r → ring_of (xs ++ [x]) (appendInvocationLocked zero x r).
Proof.
  intros (Hi & Hl & Hlen & Hs & Hx). unfold ring_of, appendInvocationLocked. cbn [rg_slots rg_len rg_idx from_option id].
  rewrite length_app. cbn [length]. split_and!.
  - rewrite Hi. by rewrite Nat.Div0.add_mod_idemp_l.
  - rewrite Hl. destruct (Nat.ltb_spec (Nat.min (length xs) N) N); lia.
  - by rewrite length_insert.
  - by eauto.
  - intros k y Hk Hy. rewrite Hi. apply lookup_app_Some in Hy as [Hy|[Hge Hy]].
    + assert (k < length xs)%nat by by eapply lookup_lt_Some.
      destruct (mod_window k (length xs)) as [Hne|Heq]; [lia|lia| |lia].
      rewrite list_lookup_insert_ne by done.
      destruct Hs as [sl Hsl]; [by intros ->|]. rewrite Hsl. rewrite Hsl in Hx. cbn in *. apply Hx; [lia|done].
    + apply list_lookup_singleton_Some in Hy as [Hk0 <-]. assert (k = length xs) as -> by lia.
      apply list_lookup_insert_eq. rewrite Hlen. apply Nat.mod_upper_bound, N_pos.
Qed.

Lemma append_all_ring xs : ring_of xs (append_all xs).
Proof.
  induction xs as [|x xs IH] using rev_ind.
  - unfold ring_of. cbn. split_and!; try done.
  - unfold append_all in *. rewrite foldl_app. cbn. by apply ring_append.
Qed.

Lemma ring_start (n : nat) :
  ((n mod N + N - Nat.min n N) mod N = (n - N) mod N)%nat.
Proof.
  destruct (Nat.le_gt_cases n N) as [Hle|Hgt].
  - rewrite Nat.min_l by lia. replace (n - N)%nat with 0%nat by lia.
    destruct (decide (n = N)) as [->|]; [by vm_compute|].
    rewrite (Nat.mod_small n N) by lia. replace (n + N - n)%nat with N by lia. by vm_compute.
  - rewrite Nat.min_r by lia. replace (n mod N + N - N)%nat with (n mod N)%nat by lia.
    rewrite Nat.Div0.mod_mod. replace n with (n - N + 1 * N)%nat at 1 by lia. apply Nat.Div0.mod_add.
Qed.

(** The circular buffer of invocations is equivalent to the list of all
    invocations cut to its last hundred: after any sequence of appends, a snapshot
    is that list, oldest first. *)
Theorem ring_is_last_hundred (xs : list A) :
  snapshotInvocationsLocked zero (append_all xs) = drop (length xs - N) xs.
Proof.
  destruct (append_all_ring xs) as (Hi & Hl & _ & Hs & Hx).
  unfold snapshotInvocationsLocked. rewrite Hi, Hl, ring_start. destruct (decide (xs = [])) as [->|Hne]; [done|].
  assert (0 < length xs)%nat by (destruct xs; cbn; [done|lia]).
  destruct (Nat.eqb_spec (Nat.min (length xs) N) 0) as [He|_]; [unfold invocationBufferSize in *; lia|].
  apply list_eq. intros i. rewrite list_lookup_fmap, lookup_drop.
  destruct (decide (i < Nat.min (length xs) N)%nat) as [Hlt|Hge].
  - rewrite lookup_seq_lt by done. change (0 + i)%nat with i. cbn [fmap option_fmap option_map]. rewrite Nat.Div0.add_mod_idemp_l.
    destruct (lookup_lt_is_Some_2 xs (length xs - N + i)) as [x Hxs]; [lia|]. rewrite Hxs.
    rewrite (Hx (length xs - N + i)%nat x); [done|lia|done].
  - rewrite lookup_seq_ge by lia. symmetry. cbn. apply lookup_ge_None. lia.
Qed.
End RingSpec.

(** ** The steps of the dispatcher

    The ghost state remembers what was taken from the central channel since the
    hooks were bound, how many self-events had been emitted by then, and the outcomes of
    the actions that were run since, with the name of their hook. *)

Section Accounting.
Context (LookupEnv : string → option string) (ParseDuration : string → option Z).
#[local] Abbreviation registry := (DefaultActionRegistry LookupEnv).

Record Run := mkRun { rn_d : Dispatcher; rn_fanned : list Event; rn_base : nat; rn_log : list (string * bool) }.

(** The outcome of the action that the worker of the [i]th hook returns from. *)
Definition outcome (start : Z) (cap : ActionCapture) (i : nat) (d : Dispatcher) : list (string * bool) :=
  match di_hooks d !! i with
  | None => []
  | Some b =>
      match di_running d !! hk_Name (bh_hook b) with
      | None => []
      | Some ev => if bool_decide (is_Some (MarshalEnvelope (BuildEnvelope start ev))) then [(hk_Name (bh_hook b), bool_decide (cp_Err cap = None))] else []
      end
  end.

Inductive hook_step : Run → Run → Prop :=
  | hk_publish d g n l ev : hook_step (mkRun d g n l) (mkRun (Publish ev d) g n l)
  | hk_fan_in d g n l now ev q :
      di_in d = ev :: q → hook_step (mkRun d g n l) (mkRun (fan_in now d) (g ++ [ev]) n l)
  | hk_receive d g n l i : hook_step (mkRun d g n l) (mkRun (worker_receive i d) g n l)
  | hk_execute d g n l i start finish cap :
      hook_step (mkRun d g n l) (mkRun (executeOne start finish cap i d) g n (l ++ outcome start cap i d))
  | hk_reload d g n l decoded cfg ws :
      di_running d = ∅ → ParseConfig LookupEnv ParseDuration decoded = Ok (cfg, ws) →
      hook_step (mkRun d g n l) (mkRun (Reload (Some cfg) registry d).2 [] (length (di_emitted d)) []).

(** A payload that survives [MarshalEnvelope]. *)
Definition deliverable (ev : Event) : Prop := is_Some (MarshalEnvelope (BuildEnvelope 0 ev)).
Definition external (ev : Event) : Prop := IsHookSelfEvent (ev_Type ev) = false.

Lemma deliverable_at now ev : deliverable ev → is_Some (MarshalEnvelope (BuildEnvelope now ev)).
Proof. unfold deliverable, MarshalEnvelope. cbn. case_match; [by eauto|by intros [? ?]]. Qed.

Definition matched (h : Hook) (evs : list Event) : Z :=
  Z.of_nat (length (List.filter (λ ev, MatchesEvent h (ev_Type ev)) evs)).
Definition emissions (name : string) (em : list (string * string)) : nat :=
  length (List.filter (λ e, bool_decide (e.1 = name)) em).

(** The outcomes of one hook, the failures at their end, and five failures in a row. *)
Definition results (name : string) (log : list (string * bool)) : list bool := (List.filter (λ e, bool_decide (e.1 = name)) log).*2.
Definition streak (l : list bool) : nat := foldl (λ n ok, if (ok : bool) then O else S n) O l.
Definition five_in_a_row (l : list bool) : Prop := ∃ l1 l2, l = l1 ++ replicate 5 false ++ l2.
Definition count (v : bool) (l : list bool) : Z := Z.of_nat (length (List.filter (Bool.eqb v) l)).

Lemma streak_snoc l ok : streak (l ++ [ok]) = if ok then O else S (streak l).
Proof. unfold streak. by rewrite foldl_app. Qed.
Lemma count_snoc v l ok : count v (l ++ [ok]) = count v l + (if Bool.eqb v ok then 1 else 0).
Proof. unfold count. rewrite List.filter_app, length_app. cbn. destruct (Bool.eqb v ok); cbn; lia. Qed.
Lemma results_snoc n log e : results n (log ++ [e]) = results n log ++ (if bool_decide (e.1 = n) then [e.2] else []).
Proof. unfold results. rewrite List.filter_app, fmap_app. cbn. by case_bool_decide. Qed.
Lemma streak_suffix n l : (n ≤ streak l)%nat ↔ replicate n false `suffix_of` l.
Proof.
  revert n. induction l as [|ok l IH] using rev_ind; intros n.
  - cbn. split; [intros; assert (n = 0%nat) as -> by lia; by exists []|]. intros [k Hk]. symmetry in Hk. apply app_nil in Hk as [_ Hk]. by destruct n.
  - rewrite streak_snoc. destruct n as [|n]; [split; [intros _; by exists (l ++ [ok]); rewrite app_nil_r|lia]|].
    rewrite replicate_S_end. destruct ok.
    + split; [lia|]. intros [k Hk]. rewrite app_assoc in Hk. apply app_inj_tail in Hk as [_ ?]. done.
    + rewrite <-Nat.succ_le_mono, IH. split.
      * intros [k ->]. exists k. by rewrite app_assoc.
      * intros [k Hk]. rewrite app_assoc in Hk. apply app_inj_tail in Hk as [-> _]. by exists k.
Qed.
Lemma five_snoc l ok : five_in_a_row (l ++ [ok]) ↔ five_in_a_row l ∨ ok = false ∧ (4 ≤ streak l)%nat.
Proof.
  assert (five_in_a_row (l ++ [ok]) ↔ five_in_a_row l ∨ replicate 5 false `suffix_of` l ++ [ok]) as ->.
  { split.
    - intros (l1 & l2 & Hl). destruct l2 as [|x l2 _] using rev_ind; [right; exists l1; by rewrite Hl, app_nil_r|left].
      rewrite !app_assoc in Hl. apply app_inj_tail in Hl as [-> _]. exists l1, l2. by rewrite app_assoc.
    - intros [(l1 & l2 & ->)|[k Hk]]; [exists l1, (l2 ++ [ok]); by rewrite <-!app_assoc|]. exists k, []. by rewrite app_nil_r. }
  rewrite <-streak_suffix, streak_snoc. destruct ok; split; intros [?|?]; (try by left); try lia; right; lia.
Qed.

(** Where the events that match a hook are. *)
Record hook_ok (fanned : list Event) (em : list (string * string)) (log : list (string * bool)) (b : boundHook)
    (q : option (list Event)) (r : option Event) : Prop := mkHookOk {
  ho_queue : ∃ l, q = Some l ∧ (length l ≤ 1)%nat ∧ Forall (λ e, e ∈ fanned) l;
  ho_running : ∀ e, r = Some e → e ∈ fanned;
  ho_failures : bh_failures b = Z.of_nat (streak (results (hk_Name (bh_hook b)) log));
  ho_disabled : bh_disabled b = true ↔ five_in_a_row (results (hk_Name (bh_hook b)) log);
  ho_successes : bh_successCount b = count true (results (hk_Name (bh_hook b)) log);
  ho_failed : bh_failureCount b = count false (results (hk_Name (bh_hook b)) log);
  ho_emitted : emissions (hk_Name (bh_hook b)) em = if bh_disabled b then 1%nat else 0%nat;
  ho_durations : bh_durationCount b = bh_successCount b + bh_failureCount b;
  ho_accounted : Forall deliverable fanned →
    matched (bh_hook b) fanned =
      bh_successCount b + bh_failureCount b + bh_filteredCount b + bh_disabledDrops b + bh_overflowCount b
      + Z.of_nat (length (default [] q)) + (match r with Some _ => 1 | None => 0 end)
}.

Definition names (d : Dispatcher) : list string := (λ b, hk_Name (bh_hook b)) <$> di_hooks d.

Record run_ok (s : Run) : Prop := mkRunOk {
  ro_started : di_started (rn_d s) = true;
  ro_names : NoDup (names (rn_d s));
  ro_hooks : ∀ i b, di_hooks (rn_d s) !! i = Some b →
    hook_ok (rn_fanned s) (drop (rn_base s) (di_emitted (rn_d s))) (rn_log s) b
      (di_subQueue (rn_d s) !! hk_Name (bh_hook b)) (di_running (rn_d s) !! hk_Name (bh_hook b));
  ro_in : (length (di_in (rn_d s)) ≤ channelCapacity)%nat;
  ro_external : Forall external (di_in (rn_d s) ++ rn_fanned s);
  ro_base : (rn_base s ≤ length (di_emitted (rn_d s)))%nat
}.

Lemma matched_snoc h evs ev :
  matched h (evs ++ [ev]) = matched h evs + (if MatchesEvent h (ev_Type ev) then 1 else 0).
Proof. unfold matched. rewrite List.filter_app, length_app. cbn. case_match; cbn; lia. Qed.

(** The obligations of a hook whose counters changed. *)
Ltac fan_case Hsum :=
  constructor; cbn; eauto;
  try (match goal with H : bh_disabled _ = _ |- _ => rewrite ?H; done end);
  try (match goal with H : bh_disabled _ = _ |- _ => rewrite ?H; eauto end);
  try (intros HF; rewrite (Hsum HF); cbn; rewrite ?length_app; cbn; lia).

(** One hook in one round of [fanOut]. *)
Lemma fan_one_ok now ev fanned em log b q r :
  hook_ok fanned em log b q r →
  let '(b', q', _) := fan_one now ev b q in
  bh_hook b' = bh_hook b ∧ hook_ok (fanned ++ [ev]) em log b' q' r.
Proof.
  intros [(l & -> & Hl & Hin) Hr Hf Hd Hok Hfc He Hdur Hacc]. unfold fan_one.
  assert (Hin' : Forall (λ e, e ∈ fanned ++ [ev]) l) by (eapply Forall_impl; [done|]; set_solver).
  assert (Hr' : ∀ e, r = Some e → e ∈ fanned ++ [ev]) by set_solver.
  assert (Hdel : Forall deliverable (fanned ++ [ev]) → Forall deliverable fanned) by (rewrite Forall_app; tauto).
  assert (Hsum : Forall deliverable (fanned ++ [ev]) → matched (bh_hook b) (fanned ++ [ev]) =
    bh_successCount b + bh_failureCount b + bh_filteredCount b + bh_disabledDrops b + bh_overflowCount b
    + Z.of_nat (length l) + (match r with Some _ => 1 | None => 0 end) + (if MatchesEvent (bh_hook b) (ev_Type ev) then 1 else 0)).
  { intros HF. by rewrite matched_snoc, (Hacc (Hdel HF)). }
  clear Hacc Hdel Hin Hr.
  destruct (MatchesEvent (bh_hook b) (ev_Type ev)); cbn [negb]; [|split; [done|fan_case Hsum]].
  destruct (bh_disabled b) eqn:HD; [split; [done|fan_case Hsum]|].
  destruct (MatchesFilter (bh_hook b) ev); cbn [negb]; [|split; [done|fan_case Hsum]].
  destruct (Nat.ltb_spec (length l) 1); (split; [done|]); fan_case Hsum.
  eexists. split; [done|]. rewrite length_app. cbn. split; [lia|]. apply Forall_app. split; [done|]. constructor; [set_solver|constructor].
Qed.

Lemma fan_loop_ok now ev bs m :
  NoDup ((λ b, hk_Name (bh_hook b)) <$> bs) →
  let '(bs', m', _) := fan_loop now ev bs m in
  length bs' = length bs ∧
  (∀ n, n ∉ (λ b, hk_Name (bh_hook b)) <$> bs → m' !! n = m !! n) ∧
  ∀ i b, bs !! i = Some b →
    let '(b', q', _) := fan_one now ev b (m !! hk_Name (bh_hook b)) in
    bs' !! i = Some b' ∧ m' !! hk_Name (bh_hook b) = q'.
Proof.
  revert m. induction bs as [|b bs IH]; intros m; cbn.
  { intros _. split; [done|]. split; [done|]. by intros [|i] b. }
  intros [Hn Hnd]%NoDup_cons. destruct (fan_one now ev b (m !! hk_Name (bh_hook b))) as [[b' q'] k] eqn:Hf.
  set (m1 := match q' with Some q => _ | None => _ end). specialize (IH m1 Hnd).
  destruct (fan_loop now ev bs m1) as [[bs' m'] k']. destruct IH as (Hlen & Hout & Hall).
  assert (Hm1 : ∀ n, n ≠ hk_Name (bh_hook b) → m1 !! n = m !! n).
  { intros n Hne. unfold m1. destruct q'; [by rewrite lookup_insert_ne|done]. }
  split_and!; [by f_equal/=| |].
  - intros n [Hne Hni]%not_elem_of_cons. by rewrite Hout, Hm1.
  - intros [|i] c Hc; cbn in Hc; simplify_eq.
    + rewrite Hf. split; [done|]. rewrite Hout by done. unfold m1. destruct q' as [q'|]; [apply lookup_insert_eq|].
      unfold fan_one in Hf. repeat case_match; simplify_eq; done.
    + specialize (Hall i c Hc). rewrite Hm1 in Hall; [done|].
      intros He. apply Hn. apply list_elem_of_fmap. exists c. split; [done|]. by eapply list_elem_of_lookup_2.
Qed.

Lemma fanOut_ok now ev d g n lg q :
  di_in d = ev :: q → run_ok (mkRun d g n lg) → run_ok (mkRun (fan_in now d) (g ++ [ev]) n lg).
Proof.
  intros Hq [Hst Hnd Hh Hin Hext Hb]. cbn in *. unfold fan_in, fanOut. rewrite Hq. cbn.
  pose proof (fan_loop_ok now ev (di_hooks d) (di_subQueue d) Hnd) as Hf.
  destruct (fan_loop now ev (di_hooks d) (di_subQueue d)) as [[bs' m'] k]. destruct Hf as (Hlen & _ & Hall).
  assert (Hone : ∀ i b, di_hooks d !! i = Some b → ∃ b', bs' !! i = Some b' ∧ bh_hook b' = bh_hook b ∧
    hook_ok (g ++ [ev]) (drop n (di_emitted d)) lg b' (m' !! hk_Name (bh_hook b)) (di_running d !! hk_Name (bh_hook b))).
  { intros i b Hi. specialize (Hall i b Hi). pose proof (fan_one_ok now ev _ _ _ _ _ _ (Hh i b Hi)) as Ho.
    destruct (fan_one now ev b _) as [[b' q'] k']. destruct Hall as [Hb' <-], Ho. by eauto. }
  constructor; cbn; try done.
  - unfold names in *. cbn. replace ((λ b, hk_Name (bh_hook b)) <$> bs') with ((λ b, hk_Name (bh_hook b)) <$> di_hooks d); [done|].
    apply list_eq_same_length with (n := length (di_hooks d)); [by rewrite !length_fmap|by rewrite length_fmap|].
    intros i x y _ Hx Hy. rewrite list_lookup_fmap in Hx, Hy. destruct (di_hooks d !! i) as [b|] eqn:Hi; [|done].
    destruct (Hone i b Hi) as (b' & Hb' & He & _). rewrite Hb' in Hy. simplify_eq/=. by rewrite He.
  - intros i b' Hi. destruct (lookup_lt_is_Some_2 (di_hooks d) i) as [b Hb'].
    { rewrite <- Hlen. by eapply lookup_lt_Some. }
    destruct (Hone i b Hb') as (b2 & H2 & He & Hok). simplify_eq. by rewrite He.
  - rewrite Hq in Hin. cbn in Hin. lia.
  - rewrite Hq in Hext. rewrite Forall_app, Forall_cons in Hext. rewrite !Forall_app, Forall_singleton. tauto.
Qed.

(** A step of a worker changes one hook, its queue and its running event. *)
Lemma worker_step_ok d d' g n lg lg' i b b' :
  run_ok (mkRun d g n lg) → di_hooks d !! i = Some b → bh_hook b' = bh_hook b →
  di_started d' = di_started d → di_in d' = di_in d → di_hooks d' = <[i := b']> (di_hooks d) →
  (∀ m, m ≠ hk_Name (bh_hook b) → di_subQueue d' !! m = di_subQueue d !! m ∧ di_running d' !! m = di_running d !! m ∧
     emissions m (drop n (di_emitted d')) = emissions m (drop n (di_emitted d)) ∧ results m lg' = results m lg) →
  (length (di_emitted d) ≤ length (di_emitted d'))%nat →
  hook_ok g (drop n (di_emitted d')) lg' b' (di_subQueue d' !! hk_Name (bh_hook b)) (di_running d' !! hk_Name (bh_hook b)) →
  run_ok (mkRun d' g n lg').
Proof.
  intros [Hst Hnd Hh Hin Hext Hb] Hi Hhk Hs' Hin' Hb' Hother Hlen Hok. cbn in *.
  constructor; cbn; rewrite ?Hs', ?Hin'; try done; [| |lia].
  - unfold names in *. rewrite Hb', list_fmap_insert, Hhk. rewrite list_insert_id; [done|]. by rewrite list_lookup_fmap, Hi.
  - intros j c Hj. rewrite Hb' in Hj. destruct (decide (i = j)) as [<-|Hne].
    + rewrite list_lookup_insert_eq in Hj by by eapply lookup_lt_Some. simplify_eq. by rewrite Hhk.
    + rewrite list_lookup_insert_ne in Hj by done.
      assert (Hn : hk_Name (bh_hook c) ≠ hk_Name (bh_hook b)).
      { intros He. apply Hne. eapply (NoDup_lookup (names d)); [done| |]; unfold names; rewrite list_lookup_fmap; [by rewrite Hi|by rewrite Hj, <- He]. }
      destruct (Hother _ Hn) as (-> & -> & Hem & Hres). destruct (Hh j c Hj). constructor; try done; by rewrite ?Hem, ?Hres.
Qed.

Lemma receive_ok d g n lg i : run_ok (mkRun d g n lg) → run_ok (mkRun (worker_receive i d) g n lg).
Proof.
  intros H. unfold worker_receive. destruct (di_hooks d !! i) as [b|] eqn:Hi; [|done]. cbn zeta.
  destruct (di_running d !! hk_Name (bh_hook b)) eqn:Hr; [done|].
  destruct (di_subQueue d !! hk_Name (bh_hook b)) as [[|ev q]|] eqn:Hq; [done| |done].
  eapply (worker_step_ok d _ g n lg lg i b b); try done; cbn.
  - by rewrite list_insert_id.
  - intros m Hm. by rewrite !lookup_insert_ne.
  - destruct (ro_hooks _ H i b Hi) as [(l & Hl & Hlen & Hall) Hrun Hf Hd Hok Hfc He Hdur Hacc]. cbn in *.
    rewrite Hq in Hl, Hacc. rewrite Hr in Hacc. simplify_eq. cbn in *. inversion Hall as [|?? Hev Hall']; subst.
    rewrite !lookup_insert_eq. constructor; try done.
    + eexists. split; [done|]. split; [cbn in Hlen; lia|done].
    + by intros e [= <-].
    + intros HF. rewrite (Hacc HF). cbn [from_option id length]. lia.
Qed.

Lemma emissions_snoc m em e :
  emissions m (em ++ [e]) = (emissions m em + if bool_decide (e.1 = m) then 1 else 0)%nat.
Proof. unfold emissions. rewrite List.filter_app, length_app. cbn. by case_bool_decide. Qed.

(** What the end of a run does to the record of the hook. *)
Lemma execute_hook_ok start finish cap g em log b q ev :
  hook_ok g em log b q (Some ev) →
  let '(b', tripped) := execute_hook start finish cap ev b in
  bh_hook b' = bh_hook b ∧
  hook_ok g (if tripped then em ++ [(hk_Name (bh_hook b), bh_lastErr b')] else em)
    (log ++ if bool_decide (is_Some (MarshalEnvelope (BuildEnvelope start ev))) then [(hk_Name (bh_hook b), bool_decide (cp_Err cap = None))] else []) b' q None.
Proof.
  intros [Hq Hr Hf Hd Hok Hfc He Hdur Hacc]. unfold execute_hook.
  assert (Hin : ev ∈ g) by by apply Hr.
  assert (Hdel : MarshalEnvelope (BuildEnvelope start ev) = None → ¬ Forall deliverable g).
  { intros Hm HF. rewrite Forall_forall in HF. destruct (deliverable_at start ev (HF ev Hin)). congruence. }
  destruct (MarshalEnvelope _) as [env|]; [clear Hdel|].
  2: { split; [done|]. rewrite bool_decide_false, app_nil_r by (by intros [? ?]). constructor; try done. by intros HF%Hdel. }
  rewrite bool_decide_true by by eexists. set (n := hk_Name (bh_hook b)) in *.
  assert (∀ v, results n (log ++ [(n, v)]) = results n log ++ [v]) as Hres by (intros v; rewrite results_snoc; cbn; by rewrite bool_decide_true).
  destruct (cp_Err cap) as [e|].
  - rewrite (bool_decide_false (Some e = None)) by done. cbn zeta. cbn. specialize (Hres false).
    assert (bh_disabled b = true ∨ 4 ≤ bh_failures b ↔ five_in_a_row (results n (log ++ [(n, false)]))) as Hfive.
    { rewrite Hres, five_snoc, Hd, Hf. split; intros [?|?]; [by left|right; split; [done|lia]|by left|right; lia]. }
    assert (1 + bh_failures b = Z.of_nat (streak (results n (log ++ [(n, false)])))) as Hf' by (rewrite Hres, streak_snoc, Hf; lia).
    assert (bh_successCount b = count true (results n (log ++ [(n, false)]))) as Hok' by (rewrite Hres, count_snoc, Hok; cbn; lia).
    assert (1 + bh_failureCount b = count false (results n (log ++ [(n, false)]))) as Hfc' by (rewrite Hres, count_snoc, Hfc; cbn; lia).
    destruct (bh_disabled b) eqn:HD; cbn.
    + split; [done|]. constructor; cbn; rewrite ?HD; try done; try lia; [|intros HF; rewrite (Hacc HF); lia]. fold n. rewrite <-Hfive. naive_solver.
    + destruct (Z.leb_spec AutoDisableThreshold (1 + bh_failures b)) as [Ht|Ht]; unfold AutoDisableThreshold in Ht; (split; [done|]);
        constructor; cbn; rewrite ?HD; try done; try lia; try (intros HF; rewrite (Hacc HF); lia).
      * fold n. rewrite <-Hfive. split; [intros _; right; lia|done].
      * fold n. rewrite emissions_snoc, He. cbn. by rewrite bool_decide_eq_true_2.
      * fold n. rewrite <-Hfive. split; [done|]. intros [?|?]; [done|lia].
  - rewrite (bool_decide_true (None = None)) by done. specialize (Hres true). split; [done|].
    constructor; cbn; try done; try lia; fold n; rewrite ?Hres, ?streak_snoc, ?count_snoc, ?five_snoc, ?Hok, ?Hfc; cbn; try lia; try done.
    + rewrite Hd. naive_solver.
    + intros HF. rewrite (Hacc HF). lia.
Qed.

Lemma execute_ok d g n lg i start finish cap :
  run_ok (mkRun d g n lg) → run_ok (mkRun (executeOne start finish cap i d) g n (lg ++ outcome start cap i d)).
Proof.
  intros H. unfold executeOne, outcome. destruct (di_hooks d !! i) as [b|] eqn:Hi; [|by rewrite app_nil_r].
  destruct (di_running d !! hk_Name (bh_hook b)) as [ev|] eqn:Hr; [|by rewrite app_nil_r].
  pose proof (ro_hooks _ H i b Hi) as Hb. cbn in Hb. rewrite Hr in Hb.
  pose proof (execute_hook_ok start finish cap _ _ _ _ _ _ Hb) as He.
  destruct (execute_hook start finish cap ev b) as [b' tr]. destruct He as [Hhk Hok].
  pose proof (ro_base _ H) as Hbase. cbn in Hbase.
  set (o := if bool_decide _ then _ else _) in *.
  assert (∀ m, m ≠ hk_Name (bh_hook b) → results m (lg ++ o) = results m lg) as Hres.
  { intros m Hm. unfold o. case_bool_decide; [|by rewrite app_nil_r]. rewrite results_snoc. cbn. by rewrite bool_decide_false, app_nil_r by done. }
  destruct tr; eapply (worker_step_ok d _ g n lg (lg ++ o) i b b'); try done; cbn.
  - intros m Hm. rewrite lookup_delete_ne, drop_app_le by done. split; [done|]. split; [done|]. split; [|by apply Hres].
    rewrite emissions_snoc. cbn. by rewrite bool_decide_eq_false_2.
  - rewrite length_app. lia.
  - by rewrite lookup_delete_eq, drop_app_le.
  - intros m Hm. rewrite lookup_delete_ne by done. split_and!; [done..|by apply Hres].
  - by rewrite lookup_delete_eq.
Qed.

Lemma publish_ok d g n lg ev : run_ok (mkRun d g n lg) → run_ok (mkRun (Publish ev d) g n lg).
Proof.
  intros [Hst Hnd Hh Hin Hext Hb]. cbn in *. unfold Publish. destruct (IsHookSelfEvent _) eqn:He; [done|].
  destruct (Nat.ltb_spec (length (di_in d)) channelCapacity); constructor; cbn; try done.
  - rewrite length_app. cbn. lia.
  - rewrite !Forall_app in *. rewrite Forall_singleton. tauto.
Qed.

Lemma bind_hooks_ok reg hs bs ws :
  bind_hooks reg hs = Ok (bs, ws) →
  ((λ b, hk_Name (bh_hook b)) <$> bs) `sublist_of` (hk_Name <$> hs) ∧ Forall (λ b, ∃ h a, b = fresh_hook h a) bs.
Proof.
  revert bs ws. induction hs as [|h hs IH]; intros bs ws; cbn.
  { intros [= <- <-]. split; constructor. }
  destruct (IsEnabled h); cbn; [|intros [? ?]%IH; split; [by constructor|done]].
  destruct (Build reg h) as [[a w]|]; [|done]. destruct (bind_hooks reg hs) as [[bs0 ws0]|]; [|done].
  intros [= <- <-]. destruct (IH _ _ eq_refl). split; constructor; eauto.
Qed.

Lemma bind_hooks_total hs : Forall (hook_wf LookupEnv) hs → is_err (bind_hooks registry hs) = false.
Proof.
  induction 1 as [|h hs (_ & _ & Hf & _) _ IH]; [done|]. cbn [bind_hooks]. destruct (IsEnabled h); [|done]. cbn [negb].
  apply finalize_build in Hf. destruct (Build _ h) as [[a w]|]; [|done]. destruct (bind_hooks _ hs) as [[? ?]|]; done.
Qed.

#[local] Arguments start_queues : simpl never.
Lemma start_queues_lookup bs m n :
  start_queues bs m !! n = if bool_decide (n ∈ (λ b, hk_Name (bh_hook b)) <$> bs) then Some [] else m !! n.
Proof.
  unfold start_queues. revert m. induction bs as [|b bs IH]; intros m; cbn; [done|]. rewrite IH.
  destruct (decide (n ∈ (λ b, hk_Name (bh_hook b)) <$> bs)) as [Hin|Hin].
  - rewrite !bool_decide_eq_true_2; [done|set_solver|done].
  - rewrite (bool_decide_eq_false_2 _ Hin). destruct (decide (n = hk_Name (bh_hook b))) as [->|Hne].
    + rewrite bool_decide_eq_true_2, lookup_insert_eq; [done|set_solver].
    + rewrite bool_decide_eq_false_2, lookup_insert_ne; [done|done|set_solver].
Qed.

(** Fresh bindings start with nothing to account for. *)
Lemma started_ok bs inq ov dr run em :
  NoDup ((λ b, hk_Name (bh_hook b)) <$> bs) → Forall (λ b, ∃ h a, b = fresh_hook h a) bs →
  run = ∅ → (length inq ≤ channelCapacity)%nat → Forall external inq →
  run_ok (mkRun (Start (mkDispatcher bs inq ov dr false false ∅ run em)) [] (length em) []).
Proof.
  intros Hnd Hfr -> Hlen Hext. constructor; cbn; try done.
  - intros i b Hi. rewrite start_queues_lookup, bool_decide_eq_true_2.
    2: { apply list_elem_of_fmap. exists b. split; [done|]. by eapply list_elem_of_lookup_2. }
    rewrite Forall_lookup in Hfr. destruct (Hfr i b Hi) as (h & a & ->). rewrite drop_all, lookup_empty.
    constructor; cbn; try done.
    + eexists. split; [done|]. split; [cbn; lia|constructor].
    + split; [done|]. by intros ([|] & l2 & [=]).
  - by rewrite app_nil_r.
Qed.

Lemma parsed_names decoded cfg ws :
  ParseConfig LookupEnv ParseDuration decoded = Ok (cfg, ws) →
  NoDup (hk_Name <$> hc_Hooks cfg) ∧ Forall (hook_wf LookupEnv) (hc_Hooks cfg).
Proof.
  unfold ParseConfig. destruct decoded as [c|]; [|done]. destruct (negb _); [done|].
  destruct (parse_hooks _ _ (hc_Hooks c) ∅) as [[hs ws']|] eqn:Hp; [|done]. intros [= <- <-]. cbn.
  apply parse_hooks_ok in Hp. tauto.
Qed.

Lemma reload_ok d g n lg decoded cfg ws :
  run_ok (mkRun d g n lg) → di_running d = ∅ → ParseConfig LookupEnv ParseDuration decoded = Ok (cfg, ws) →
  run_ok (mkRun (Reload (Some cfg) registry d).2 [] (length (di_emitted d)) []).
Proof.
  intros [Hst Hnd Hh Hin Hext Hb] Hr [Hn Hwf]%parsed_names. unfold Reload. cbn in *.
  pose proof (bind_hooks_total _ Hwf) as Ht. destruct (bind_hooks _ _) as [[bs ws']|] eqn:Hbind; [|done].
  rewrite Hst. cbn [snd]. apply bind_hooks_ok in Hbind as [Hsub Hfr]. apply started_ok; try done.
  - by eapply sublist_NoDup.
  - by apply Forall_app in Hext as [? _].
Qed.

Lemma run_invariant s s' : rtc hook_step s s' → run_ok s → run_ok s'.
Proof.
  induction 1 as [|s s1 s' Hstep _ IH]; [done|]. intros Hs. apply IH. clear IH. destruct Hstep.
  - by apply publish_ok.
  - by eapply fanOut_ok.
  - by apply receive_ok.
  - by apply execute_ok.
  - by eapply reload_ok.
Qed.

Definition new_run (d : Dispatcher) : Run := mkRun (Start d) [] 0 [].

End Accounting.

(** ** Samples *)

Definition sample_hook : Hook :=
  mkHook "notify" None ["*"] None 0 EmptyString (mkActionConfig "command" EmptyString [] EmptyString ["/bin/true"] EmptyString).
Definition sample_config : HookConfig := mkHookConfig 1 [sample_hook].
Definition sample_dispatcher : Dispatcher :=
  Start (mkDispatcher [fresh_hook sample_hook (Command (mkCommandAction "notify" ["/bin/true"] EmptyString))] [] 0 0 false false ∅ ∅ []).
Definition sample_event (payload : string) : Event := mkEvent "task_claimed" "o/r" 7 payload None.
(** Published, fanned out, taken by the worker and executed. *)
Definition through (cap : ActionCapture) (ev : Event) (d : Dispatcher) : Dispatcher :=
  executeOne 0 1000 cap 0 (worker_receive 0 (fan_in 0 (Publish ev d))).


(** Five failures in a row disable a hook; a later success does not enable it. *)
Example disabled_stays :
  let fail := through (mkActionCapture EmptyString EmptyString (Some "exit status 1")) (sample_event "{}") in
  let ok := through (mkActionCapture EmptyString EmptyString None) (sample_event "{}") in
  let d4 := fail (fail (fail (fail sample_dispatcher))) in
  IsDisabled d4 "notify" = false ∧ IsDisabled (fail d4) "notify" = true ∧ IsDisabled (ok (fail d4)) "notify" = true ∧
  di_emitted (fail (fail d4)) = [("notify", "exit status 1")] ∧ ht_DisabledDrops <$> Stats (ok (fail d4)) = [1].
Proof. by vm_compute. Qed.

(** An event whose payload is not a JSON document is dropped without a trace: no
    counter moves, no invocation is recorded and the action is not run. *)
Theorem malformed_payload_leaves_no_trace (cap : ActionCapture) :
  let d := through cap (sample_event "not json") sample_dispatcher in
  di_hooks d = di_hooks sample_dispatcher ∧ di_in d = [] ∧ di_running d = ∅ ∧
  di_subQueue d = di_subQueue sample_dispatcher ∧ di_dropped d = 0 ∧ di_overflow d = 0 ∧ di_emitted d = [].
Proof. by vm_compute. Qed.

(** A reload discards the event that waits in the slot of a hook. *)
Theorem reload_discards_the_waiting_event :
  let d := fan_in 0 (Publish (sample_event "{}") sample_dispatcher) in
  default [] (di_subQueue d !! "notify") = [sample_event "{}"] ∧
  let d' := (Reload (Some sample_config) (DefaultActionRegistry (λ _, None)) d).2 in
  di_in d' = [] ∧ di_subQueue d' = di_subQueue sample_dispatcher ∧ di_dropped d' = 0 ∧ ht_Overflow <$> Stats d' = [0].
Proof. by vm_compute. Qed.
