(* ===== verification/Types.v ===== *)
(** * Data

    The configuration types of [internal/config], the rows of the store
    ([internal/store/types.go]), and the values that cross component
    boundaries.

    A Go map that the sources range over is an association list: its order
    stands for one iteration order, and Go leaves that order unspecified, so
    theorems hold for every order.  A nullable column or a [time.Time] that
    may be zero is an [option]; times are nanoseconds since the epoch. *)

From S2P Require Import Prelude GoLib.

(** Lookup in a Go map, [m[k]] with the [ok] of the comma-ok form. *)
Fixpoint assoc {V} (m : list (string * V)) (k : string) : option V :=
  match m with
  | [] => None
  | (k', v) :: m => if bool_decide (k = k') then Some v else assoc m k
  end.

(** The keys of a Go map are distinct. *)
Definition wf_map {V} (m : list (string * V)) : Prop := NoDup m.*1.

(** ** Configuration *)

Record JoinConfig := mkJoin {
  jc_Strategy : string;
  jc_MinSuccesses : Z
}.

Record State := mkState {
  s_EnterLabel : string;
  s_Agent : string;
  s_Agents : list string;
  s_Mode : string;
  s_Join : JoinConfig;
  s_Rollouts : Z;
  s_Transitions : list (string * string)
}.

(** [wf_IssueLabel] is [Trigger.IssueLabel]. *)
Record WorkflowConfig := mkWorkflow {
  wf_Name : string;
  wf_IssueLabel : string;
  wf_MaxRetries : Z;
  wf_MaxReviewCycles : Z;
  wf_States : list (string * State)
}.

Definition JoinAllPassed : string := "all_passed".
Definition JoinAnyPassed : string := "any_passed".
Definition JoinRollouts : string := "rollouts".
Definition StateModeReview : string := "review".
Definition StateModeSynth : string := "synthesize".
Definition StateNameFailed : string := "failed".
Definition LabelFailed : string := "status:failed".

(** ** Store rows *)

Definition TaskStatusPending : string := "pending".
Definition TaskStatusRunning : string := "running".
Definition TaskStatusCompleted : string := "completed".
Definition TaskStatusFailed : string := "failed".
Definition TaskStatusTimeout : string := "timeout".

(** A row of [task_queue]; [t_Labels] is filled from the joined issue cache. *)
Record TaskRecord := mkTask {
  t_ID : string;
  t_Repo : string;
  t_IssueNum : Z;
  t_AgentName : string;
  t_Labels : string;
  t_Role : string;
  t_Runtime : string;
  t_Workflow : string;
  t_State : string;
  t_WorkerID : option string;
  t_ClaimToken : option string;
  t_Status : string;
  t_LeaseExpiresAt : option Z;
  t_AckedAt : option Z;
  t_HeartbeatAt : option Z;
  t_CompletedAt : option Z;
  t_ExitCode : Z;
  t_SessionRefs : string;
  t_RolloutIndex : Z;
  t_RolloutsTotal : Z;
  t_RolloutGroupID : string;
  t_SupervisorAgentID : string;
  t_CreatedAt : option Z;
  t_UpdatedAt : option Z
}.

Definition upd_t_Labels (g : string → string) (x : TaskRecord) : TaskRecord :=
  mkTask (t_ID x) (t_Repo x) (t_IssueNum x) (t_AgentName x) (g (t_Labels x)) (t_Role x) (t_Runtime x) (t_Workflow x) (t_State x) (t_WorkerID x) (t_ClaimToken x) (t_Status x) (t_LeaseExpiresAt x) (t_AckedAt x) (t_HeartbeatAt x) (t_CompletedAt x) (t_ExitCode x) (t_SessionRefs x) (t_RolloutIndex x) (t_RolloutsTotal x) (t_RolloutGroupID x) (t_SupervisorAgentID x) (t_CreatedAt x) (t_UpdatedAt x).
Definition upd_t_WorkerID (g : option string → option string) (x : TaskRecord) : TaskRecord :=
  mkTask (t_ID x) (t_Repo x) (t_IssueNum x) (t_AgentName x) (t_Labels x) (t_Role x) (t_Runtime x) (t_Workflow x) (t_State x) (g (t_WorkerID x)) (t_ClaimToken x) (t_Status x) (t_LeaseExpiresAt x) (t_AckedAt x) (t_HeartbeatAt x) (t_CompletedAt x) (t_ExitCode x) (t_SessionRefs x) (t_RolloutIndex x) (t_RolloutsTotal x) (t_RolloutGroupID x) (t_SupervisorAgentID x) (t_CreatedAt x) (t_UpdatedAt x).
Definition upd_t_ClaimToken (g : option string → option string) (x : TaskRecord) : TaskRecord :=
  mkTask (t_ID x) (t_Repo x) (t_IssueNum x) (t_AgentName x) (t_Labels x) (t_Role x) (t_Runtime x) (t_Workflow x) (t_State x) (t_WorkerID x) (g (t_ClaimToken x)) (t_Status x) (t_LeaseExpiresAt x) (t_AckedAt x) (t_HeartbeatAt x) (t_CompletedAt x) (t_ExitCode x) (t_SessionRefs x) (t_RolloutIndex x) (t_RolloutsTotal x) (t_RolloutGroupID x) (t_SupervisorAgentID x) (t_CreatedAt x) (t_UpdatedAt x).
Definition upd_t_Status (g : string → string) (x : TaskRecord) : TaskRecord :=
  mkTask (t_ID x) (t_Repo x) (t_IssueNum x) (t_AgentName x) (t_Labels x) (t_Role x) (t_Runtime x) (t_Workflow x) (t_State x) (t_WorkerID x) (t_ClaimToken x) (g (t_Status x)) (t_LeaseExpiresAt x) (t_AckedAt x) (t_HeartbeatAt x) (t_CompletedAt x) (t_ExitCode x) (t_SessionRefs x) (t_RolloutIndex x) (t_RolloutsTotal x) (t_RolloutGroupID x) (t_SupervisorAgentID x) (t_CreatedAt x) (t_UpdatedAt x).
Definition upd_t_LeaseExpiresAt (g : option Z → option Z) (x : TaskRecord) : TaskRecord :=
  mkTask (t_ID x) (t_Repo x) (t_IssueNum x) (t_AgentName x) (t_Labels x) (t_Role x) (t_Runtime x) (t_Workflow x) (t_State x) (t_WorkerID x) (t_ClaimToken x) (t_Status x) (g (t_LeaseExpiresAt x)) (t_AckedAt x) (t_HeartbeatAt x) (t_CompletedAt x) (t_ExitCode x) (t_SessionRefs x) (t_RolloutIndex x) (t_RolloutsTotal x) (t_RolloutGroupID x) (t_SupervisorAgentID x) (t_CreatedAt x) (t_UpdatedAt x).
Definition upd_t_AckedAt (g : option Z → option Z) (x : TaskRecord) : TaskRecord :=
  mkTask (t_ID x) (t_Repo x) (t_IssueNum x) (t_AgentName x) (t_Labels x) (t_Role x) (t_Runtime x) (t_Workflow x) (t_State x) (t_WorkerID x) (t_ClaimToken x) (t_Status x) (t_LeaseExpiresAt x) (g (t_AckedAt x)) (t_HeartbeatAt x) (t_CompletedAt x) (t_ExitCode x) (t_SessionRefs x) (t_RolloutIndex x) (t_RolloutsTotal x) (t_RolloutGroupID x) (t_SupervisorAgentID x) (t_CreatedAt x) (t_UpdatedAt x).
Definition upd_t_HeartbeatAt (g : option Z → option Z) (x : TaskRecord) : TaskRecord :=
  mkTask (t_ID x) (t_Repo x) (t_IssueNum x) (t_AgentName x) (t_Labels x) (t_Role x) (t_Runtime x) (t_Workflow x) (t_State x) (t_WorkerID x) (t_ClaimToken x) (t_Status x) (t_LeaseExpiresAt x) (t_AckedAt x) (g (t_HeartbeatAt x)) (t_CompletedAt x) (t_ExitCode x) (t_SessionRefs x) (t_RolloutIndex x) (t_RolloutsTotal x) (t_RolloutGroupID x) (t_SupervisorAgentID x) (t_CreatedAt x) (t_UpdatedAt x).
Definition upd_t_CompletedAt (g : option Z → option Z) (x : TaskRecord) : TaskRecord :=
  mkTask (t_ID x) (t_Repo x) (t_IssueNum x) (t_AgentName x) (t_Labels x) (t_Role x) (t_Runtime x) (t_Workflow x) (t_State x) (t_WorkerID x) (t_ClaimToken x) (t_Status x) (t_LeaseExpiresAt x) (t_AckedAt x) (t_HeartbeatAt x) (g (t_CompletedAt x)) (t_ExitCode x) (t_SessionRefs x) (t_RolloutIndex x) (t_RolloutsTotal x) (t_RolloutGroupID x) (t_SupervisorAgentID x) (t_CreatedAt x) (t_UpdatedAt x).
Definition upd_t_ExitCode (g : Z → Z) (x : TaskRecord) : TaskRecord :=
  mkTask (t_ID x) (t_Repo x) (t_IssueNum x) (t_AgentName x) (t_Labels x) (t_Role x) (t_Runtime x) (t_Workflow x) (t_State x) (t_WorkerID x) (t_ClaimToken x) (t_Status x) (t_LeaseExpiresAt x) (t_AckedAt x) (t_HeartbeatAt x) (t_CompletedAt x) (g (t_ExitCode x)) (t_SessionRefs x) (t_RolloutIndex x) (t_RolloutsTotal x) (t_RolloutGroupID x) (t_SupervisorAgentID x) (t_CreatedAt x) (t_UpdatedAt x).
Definition upd_t_SessionRefs (g : string → string) (x : TaskRecord) : TaskRecord :=
  mkTask (t_ID x) (t_Repo x) (t_IssueNum x) (t_AgentName x) (t_Labels x) (t_Role x) (t_Runtime x) (t_Workflow x) (t_State x) (t_WorkerID x) (t_ClaimToken x) (t_Status x) (t_LeaseExpiresAt x) (t_AckedAt x) (t_HeartbeatAt x) (t_CompletedAt x) (t_ExitCode x) (g (t_SessionRefs x)) (t_RolloutIndex x) (t_RolloutsTotal x) (t_RolloutGroupID x) (t_SupervisorAgentID x) (t_CreatedAt x) (t_UpdatedAt x).
Definition upd_t_RolloutsTotal (g : Z → Z) (x : TaskRecord) : TaskRecord :=
  mkTask (t_ID x) (t_Repo x) (t_IssueNum x) (t_AgentName x) (t_Labels x) (t_Role x) (t_Runtime x) (t_Workflow x) (t_State x) (t_WorkerID x) (t_ClaimToken x) (t_Status x) (t_LeaseExpiresAt x) (t_AckedAt x) (t_HeartbeatAt x) (t_CompletedAt x) (t_ExitCode x) (t_SessionRefs x) (t_RolloutIndex x) (g (t_RolloutsTotal x)) (t_RolloutGroupID x) (t_SupervisorAgentID x) (t_CreatedAt x) (t_UpdatedAt x).
Definition upd_t_SupervisorAgentID (g : string → string) (x : TaskRecord) : TaskRecord :=
  mkTask (t_ID x) (t_Repo x) (t_IssueNum x) (t_AgentName x) (t_Labels x) (t_Role x) (t_Runtime x) (t_Workflow x) (t_State x) (t_WorkerID x) (t_ClaimToken x) (t_Status x) (t_LeaseExpiresAt x) (t_AckedAt x) (t_HeartbeatAt x) (t_CompletedAt x) (t_ExitCode x) (t_SessionRefs x) (t_RolloutIndex x) (t_RolloutsTotal x) (t_RolloutGroupID x) (g (t_SupervisorAgentID x)) (t_CreatedAt x) (t_UpdatedAt x).
Definition upd_t_UpdatedAt (g : option Z → option Z) (x : TaskRecord) : TaskRecord :=
  mkTask (t_ID x) (t_Repo x) (t_IssueNum x) (t_AgentName x) (t_Labels x) (t_Role x) (t_Runtime x) (t_Workflow x) (t_State x) (t_WorkerID x) (t_ClaimToken x) (t_Status x) (t_LeaseExpiresAt x) (t_AckedAt x) (t_HeartbeatAt x) (t_CompletedAt x) (t_ExitCode x) (t_SessionRefs x) (t_RolloutIndex x) (t_RolloutsTotal x) (t_RolloutGroupID x) (t_SupervisorAgentID x) (t_CreatedAt x) (g (t_UpdatedAt x)).

(** A row of [issue_cache]; [ic_RootTraceID] is the column the store keeps itself. *)
Record IssueCache := mkCache {
  ic_Repo : string;
  ic_IssueNum : Z;
  ic_Labels : string;
  ic_Body : string;
  ic_State : string;
  ic_UpdatedAt : option Z;
  ic_ParentIssueNum : Z;
  ic_RootTraceID : string
}.

Record WorkerRecord := mkWorker {
  w_ID : string;
  w_Repo : string;
  w_ReposJSON : string;
  w_Roles : string;
  w_Runtime : string;
  w_Hostname : string;
  w_MgmtBaseURL : string;
  w_AuditURL : string;
  w_Tunnel : bool;
  w_Status : string;
  w_LastHeartbeat : option Z;
  w_RegisteredAt : option Z
}.
Definition upd_w_Status (g : string → string) (x : WorkerRecord) : WorkerRecord :=
  mkWorker (w_ID x) (w_Repo x) (w_ReposJSON x) (w_Roles x) (w_Runtime x) (w_Hostname x) (w_MgmtBaseURL x) (w_AuditURL x) (w_Tunnel x) (g (w_Status x)) (w_LastHeartbeat x) (w_RegisteredAt x).
Definition upd_w_LastHeartbeat (g : option Z → option Z) (x : WorkerRecord) : WorkerRecord :=
  mkWorker (w_ID x) (w_Repo x) (w_ReposJSON x) (w_Roles x) (w_Runtime x) (w_Hostname x) (w_MgmtBaseURL x) (w_AuditURL x) (w_Tunnel x) (w_Status x) (g (w_LastHeartbeat x)) (w_RegisteredAt x).
Definition upd_w_RegisteredAt (g : option Z → option Z) (x : WorkerRecord) : WorkerRecord :=
  mkWorker (w_ID x) (w_Repo x) (w_ReposJSON x) (w_Roles x) (w_Runtime x) (w_Hostname x) (w_MgmtBaseURL x) (w_AuditURL x) (w_Tunnel x) (w_Status x) (w_LastHeartbeat x) (g (w_RegisteredAt x)).
Definition upd_w_ReposJSON (g : string → string) (x : WorkerRecord) : WorkerRecord :=
  mkWorker (w_ID x) (w_Repo x) (g (w_ReposJSON x)) (w_Roles x) (w_Runtime x) (w_Hostname x) (w_MgmtBaseURL x) (w_AuditURL x) (w_Tunnel x) (w_Status x) (w_LastHeartbeat x) (w_RegisteredAt x).

(** A row of [issue_cycle_state], keyed by repo and issue. *)
Record IssueCycleState := mkCycle {
  cy_DevReviewCycleCount : Z;
  cy_SynthCycleCount : Z;
  cy_TotalTransitions : Z;
  cy_FirstDispatchAt : option Z;
  cy_CapHitAt : option Z;
  cy_SynthCapHitAt : option Z;
  cy_UpdatedAt : option Z
}.
Definition upd_cy_DevReviewCycleCount (g : Z → Z) (x : IssueCycleState) : IssueCycleState :=
  mkCycle (g (cy_DevReviewCycleCount x)) (cy_SynthCycleCount x) (cy_TotalTransitions x) (cy_FirstDispatchAt x) (cy_CapHitAt x) (cy_SynthCapHitAt x) (cy_UpdatedAt x).
Definition upd_cy_SynthCycleCount (g : Z → Z) (x : IssueCycleState) : IssueCycleState :=
  mkCycle (cy_DevReviewCycleCount x) (g (cy_SynthCycleCount x)) (cy_TotalTransitions x) (cy_FirstDispatchAt x) (cy_CapHitAt x) (cy_SynthCapHitAt x) (cy_UpdatedAt x).
Definition upd_cy_TotalTransitions (g : Z → Z) (x : IssueCycleState) : IssueCycleState :=
  mkCycle (cy_DevReviewCycleCount x) (cy_SynthCycleCount x) (g (cy_TotalTransitions x)) (cy_FirstDispatchAt x) (cy_CapHitAt x) (cy_SynthCapHitAt x) (cy_UpdatedAt x).
Definition upd_cy_FirstDispatchAt (g : option Z → option Z) (x : IssueCycleState) : IssueCycleState :=
  mkCycle (cy_DevReviewCycleCount x) (cy_SynthCycleCount x) (cy_TotalTransitions x) (g (cy_FirstDispatchAt x)) (cy_CapHitAt x) (cy_SynthCapHitAt x) (cy_UpdatedAt x).
Definition upd_cy_CapHitAt (g : option Z → option Z) (x : IssueCycleState) : IssueCycleState :=
  mkCycle (cy_DevReviewCycleCount x) (cy_SynthCycleCount x) (cy_TotalTransitions x) (cy_FirstDispatchAt x) (g (cy_CapHitAt x)) (cy_SynthCapHitAt x) (cy_UpdatedAt x).
Definition upd_cy_SynthCapHitAt (g : option Z → option Z) (x : IssueCycleState) : IssueCycleState :=
  mkCycle (cy_DevReviewCycleCount x) (cy_SynthCycleCount x) (cy_TotalTransitions x) (cy_FirstDispatchAt x) (cy_CapHitAt x) (g (cy_SynthCapHitAt x)) (cy_UpdatedAt x).
Definition upd_cy_UpdatedAt (g : option Z → option Z) (x : IssueCycleState) : IssueCycleState :=
  mkCycle (cy_DevReviewCycleCount x) (cy_SynthCycleCount x) (cy_TotalTransitions x) (cy_FirstDispatchAt x) (cy_CapHitAt x) (cy_SynthCapHitAt x) (g (cy_UpdatedAt x)).

(** A row of [issue_dependencies], keyed by issue and target. *)
Record IssueDependency := mkDep {
  dep_SourceHash : string;
  dep_Status : string
}.
Record IssueDependencyState := mkDepState {
  ds_Repo : string;
  ds_IssueNum : Z;
  ds_Verdict : string;
  ds_ResumeLabel : string;
  ds_BlockedReasonHash : string;
  ds_OverrideActive : bool;
  ds_GraphVersion : Z;
  ds_LastReactionBlocked : bool;
  ds_LastEvaluatedAt : option Z
}.
Definition upd_ds_ResumeLabel (g : string → string) (x : IssueDependencyState) : IssueDependencyState :=
  mkDepState (ds_Repo x) (ds_IssueNum x) (ds_Verdict x) (g (ds_ResumeLabel x)) (ds_BlockedReasonHash x) (ds_OverrideActive x) (ds_GraphVersion x) (ds_LastReactionBlocked x) (ds_LastEvaluatedAt x).
Definition upd_ds_LastReactionBlocked (g : bool → bool) (x : IssueDependencyState) : IssueDependencyState :=
  mkDepState (ds_Repo x) (ds_IssueNum x) (ds_Verdict x) (ds_ResumeLabel x) (ds_BlockedReasonHash x) (ds_OverrideActive x) (ds_GraphVersion x) (g (ds_LastReactionBlocked x)) (ds_LastEvaluatedAt x).
Definition upd_ds_LastEvaluatedAt (g : option Z → option Z) (x : IssueDependencyState) : IssueDependencyState :=
  mkDepState (ds_Repo x) (ds_IssueNum x) (ds_Verdict x) (ds_ResumeLabel x) (ds_BlockedReasonHash x) (ds_OverrideActive x) (ds_GraphVersion x) (ds_LastReactionBlocked x) (g (ds_LastEvaluatedAt x)).

Definition DependencyStatusActive : string := "active".
Definition DependencyStatusUnsupportedCrossRepo : string := "unsupported_cross_repo".
Definition DependencyStatusInvalid : string := "invalid".
Definition DependencyStatusRemoved : string := "removed".
Definition DependencyVerdictReady : string := "ready".
Definition DependencyVerdictBlocked : string := "blocked".
Definition DependencyVerdictOverride : string := "override".
Definition DependencyVerdictNeedsHuman : string := "needs_human".

(** A row of [issue_claim], keyed by repo and issue. *)
Record IssueClaimRecord := mkClaim {
  cl_WorkerID : string;
  cl_ClaimToken : string;
  cl_AcquiredAt : Z;
  cl_ExpiresAt : Z
}.
Record AcquireIssueClaimResult := mkAcquire {
  ar_ClaimToken : string;
  ar_Extended : bool;
  ar_OverwrotePrior : bool;
  ar_PriorWorkerID : string
}.
(** A row of [issue_pipeline_hazards], keyed by repo and issue. *)
Record PipelineHazard := mkHazard {
  hz_Kind : string;
  hz_Fingerprint : string;
  hz_DetectedAt : Z
}.

Definition HazardKindNoWorkflowMatch : string := "no-workflow-match".
Definition HazardKindAwaitingStatusLabel : string := "awaiting-status-label".
Definition HazardKindMalformedDependencyRef : string := "malformed-dependency-ref".

Record WorkflowInstanceRow := mkInst {
  wi_ID : string;
  wi_WorkflowName : string;
  wi_Repo : string;
  wi_IssueNum : Z;
  wi_CurrentState : string;
  wi_CreatedAt : Z;
  wi_UpdatedAt : Z
}.
Definition upd_wi_CurrentState (g : string → string) (x : WorkflowInstanceRow) : WorkflowInstanceRow :=
  mkInst (wi_ID x) (wi_WorkflowName x) (wi_Repo x) (wi_IssueNum x) (g (wi_CurrentState x)) (wi_CreatedAt x) (wi_UpdatedAt x).
Definition upd_wi_UpdatedAt (g : Z → Z) (x : WorkflowInstanceRow) : WorkflowInstanceRow :=
  mkInst (wi_ID x) (wi_WorkflowName x) (wi_Repo x) (wi_IssueNum x) (wi_CurrentState x) (wi_CreatedAt x) (g (wi_UpdatedAt x)).
Record WorkflowTransitionRow := mkWTrans {
  wt_InstanceID : string;
  wt_FromState : string;
  wt_ToState : string;
  wt_TriggerAgent : string;
  wt_CreatedAt : Z
}.
Record RolloutGroupSummary := mkSummary {
  rg_RolloutGroupID : string;
  rg_RolloutsTotal : Z;
  rg_SuccessCount : Z;
  rg_FailedCount : Z;
  rg_TerminalCount : Z;
  rg_PendingCount : Z;
  rg_Tasks : list TaskRecord
}.

(** ** Events, alerts and dispatch requests *)

(** The values of an event payload. *)
Inductive jval :=
  | JS (s : string)
  | JI (z : Z)
  | JB (b : bool)
  | JL (l : list string)
  | JZs (l : list Z)
  | JM (fields : list (string * string))
  | JT (t : option Z)
  | JO (objs : list (list (string * jval))).

Record EventEntry := mkEvent {
  ev_Type : string;
  ev_Repo : string;
  ev_IssueNum : Z;
  ev_Payload : list (string * jval)
}.
Record AlertEvent := mkAlert {
  al_Kind : string;
  al_Severity : string;
  al_Repo : string;
  al_IssueNum : Z;
  al_AgentName : string;
  al_Timestamp : Z;
  al_Payload : list (string * jval)
}.
Record ChangeEvent := mkChange {
  ce_Type : string;
  ce_Repo : string;
  ce_IssueNum : Z;
  ce_Labels : list string;
  ce_Detail : string;
  ce_Author : string
}.
Record DispatchRequest := mkDispatch {
  dr_Repo : string;
  dr_IssueNum : Z;
  dr_AgentName : string;
  dr_Workflow : string;
  dr_State : string;
  dr_SourceState : string;
  dr_RolloutIndex : Z;
  dr_RolloutsTotal : Z;
  dr_RolloutGroupID : string
}.

(** ** GitHub objects as the poller reads them *)

Record Issue := mkIssue {
  is_Number : Z;
  is_Title : string;
  is_State : string;
  is_Labels : list string;
  is_Body : string;
  is_Author : string
}.
Record PR := mkPR {
  pr_Number : Z;
  pr_URL : string;
  pr_Branch : string;
  pr_State : string
}.
Record IssueDetails := mkDetails {
  id_Number : Z;
  id_State : string;
  id_StateReason : string;
  id_Body : string;
  id_Labels : list string;
  id_ClosedByLinkedPR : bool
}.

#[export] Instance JoinConfig_eq_dec : EqDecision JoinConfig.
Proof. solve_decision. Defined.
#[export] Instance State_eq_dec : EqDecision State.
Proof. solve_decision. Defined.
#[export] Instance TaskRecord_eq_dec : EqDecision TaskRecord.
Proof. solve_decision. Defined.
#[export] Instance IssueClaimRecord_eq_dec : EqDecision IssueClaimRecord.
Proof. solve_decision. Defined.
#[export] Instance DispatchRequest_eq_dec : EqDecision DispatchRequest.
Proof. solve_decision. Defined.

(** ** Rows of the event, session, registration and token tables *)

Record EventRow := mkEventRow {
  er_ID : Z;
  er_TS : Z;
  er_Type : string;
  er_Repo : string;
  er_IssueNum : Z;
  er_Payload : string
}.

Record RepoRegistrationRecord := mkRepoReg {
  rg_Repo : string;
  rg_Environment : string;
  rg_Status : string;
  rg_ConfigJSON : string;
  rg_RegisteredAt : option Z;
  rg_UpdatedAt : option Z
}.

Record SessionRoute := mkRoute {
  sr_SessionID : string;
  sr_WorkerID : string;
  sr_Repo : string;
  sr_IssueNum : Z;
  sr_CreatedAt : option Z
}.

Record SessionRecord := mkSession {
  ss_ID : Z;
  ss_SessionID : string;
  ss_TaskID : string;
  ss_Repo : string;
  ss_IssueNum : Z;
  ss_AgentName : string;
  ss_Runtime : string;
  ss_WorkerID : string;
  ss_Attempt : Z;
  ss_Status : string;
  ss_Dir : string;
  ss_StdoutPath : string;
  ss_StderrPath : string;
  ss_ToolCallsPath : string;
  ss_MetadataPath : string;
  ss_Summary : string;
  ss_RawPath : string;
  ss_CreatedAt : option Z;
  ss_ClosedAt : option Z
}.
Definition upd_ss_Status (g : string → string) (x : SessionRecord) : SessionRecord :=
  mkSession (ss_ID x) (ss_SessionID x) (ss_TaskID x) (ss_Repo x) (ss_IssueNum x) (ss_AgentName x) (ss_Runtime x) (ss_WorkerID x) (ss_Attempt x) (g (ss_Status x)) (ss_Dir x) (ss_StdoutPath x) (ss_StderrPath x) (ss_ToolCallsPath x) (ss_MetadataPath x) (ss_Summary x) (ss_RawPath x) (ss_CreatedAt x) (ss_ClosedAt x).
Definition upd_ss_Summary (g : string → string) (x : SessionRecord) : SessionRecord :=
  mkSession (ss_ID x) (ss_SessionID x) (ss_TaskID x) (ss_Repo x) (ss_IssueNum x) (ss_AgentName x) (ss_Runtime x) (ss_WorkerID x) (ss_Attempt x) (ss_Status x) (ss_Dir x) (ss_StdoutPath x) (ss_StderrPath x) (ss_ToolCallsPath x) (ss_MetadataPath x) (g (ss_Summary x)) (ss_RawPath x) (ss_CreatedAt x) (ss_ClosedAt x).
Definition upd_ss_RawPath (g : string → string) (x : SessionRecord) : SessionRecord :=
  mkSession (ss_ID x) (ss_SessionID x) (ss_TaskID x) (ss_Repo x) (ss_IssueNum x) (ss_AgentName x) (ss_Runtime x) (ss_WorkerID x) (ss_Attempt x) (ss_Status x) (ss_Dir x) (ss_StdoutPath x) (ss_StderrPath x) (ss_ToolCallsPath x) (ss_MetadataPath x) (ss_Summary x) (g (ss_RawPath x)) (ss_CreatedAt x) (ss_ClosedAt x).

(** The token columns of a row of [workers]; a row without a token has none. *)
Record WorkerToken := mkWorkerToken {
  wt_kid : string;
  wt_hash : option string;
  wt_revoked_at : option Z
}.

#[export] Instance EventRow_eq_dec : EqDecision EventRow.
Proof. solve_decision. Defined.
#[export] Instance RepoRegistrationRecord_eq_dec : EqDecision RepoRegistrationRecord.
Proof. solve_decision. Defined.
#[export] Instance SessionRoute_eq_dec : EqDecision SessionRoute.
Proof. solve_decision. Defined.
#[export] Instance SessionRecord_eq_dec : EqDecision SessionRecord.
Proof. solve_decision. Defined.
#[export] Instance WorkerToken_eq_dec : EqDecision WorkerToken.
Proof. solve_decision. Defined.

(** ** Time *)

Definition second : Z := 1000000000.
Definition minute : Z := 60 * second.

(** A timestamp written with one-second resolution ([CURRENT_TIMESTAMP] and
    the RFC 3339 layout both drop the fraction). *)
Definition trunc_sec (t : Z) : Z := t - t mod second.

Lemma trunc_sec_bounds t : trunc_sec t <= t < trunc_sec t + second.
Proof. unfold trunc_sec, second. pose proof (Z.mod_pos_bound t 1000000000). lia. Qed.

Lemma trunc_sec_mono t u : t <= u → trunc_sec t <= trunc_sec u.
Proof.
  intros H. unfold trunc_sec. assert (second > 0) as Hs by (unfold second; lia).
  rewrite (Z.div_mod t second), (Z.div_mod u second) at 1 by lia.
  pose proof (Z.div_le_mono t u second). nia.
Qed.

Lemma trunc_sec_idem t : trunc_sec (trunc_sec t) = trunc_sec t.
Proof.
  unfold trunc_sec at 1. replace (trunc_sec t mod second) with 0; [lia|].
  unfold trunc_sec. assert (second ≠ 0) by (unfold second; lia).
  rewrite Zminus_mod, Z.mod_mod, Z.sub_diag by lia. done.
Qed.

(** ** Association lists *)

Lemma concat_perm {A} (gs gs' : list (list A)) : gs ≡ₚ gs' → concat gs ≡ₚ concat gs'.
Proof. induction 1 as [|x l l' Hp IH|x y l|l1 l2 l3 H1 IH1 H2 IH2]; cbn; [done|by f_equiv| |by etrans]. by rewrite !app_assoc, (Permutation_app_comm x y). Qed.

Lemma assoc_elem {V} (m : list (string * V)) k v : assoc m k = Some v → (k, v) ∈ m.
Proof.
  induction m as [|[k' v'] m IH]; [done|]. simpl. case_bool_decide; simplify_eq/=.
  - intros [= ->]. left.
  - intros H'. right. auto.
Qed.

Lemma assoc_perm {V} (m m' : list (string * V)) k :
  wf_map m → m ≡ₚ m' → assoc m k = assoc m' k.
Proof.
  intros Hnd Hp. induction Hp as [|[a x] m m' Hp IH|[a x] [b y] m|m1 m2 m3 H12 IH1 H23 IH2];
    simpl in *; auto.
  - case_bool_decide; [done|]. apply IH. by inversion Hnd.
  - inversion Hnd as [|? ? Hn ?]; subst. repeat case_bool_decide; try done. subst.
    exfalso. apply Hn. left.
  - rewrite IH1 by done. apply IH2. unfold wf_map in *. by rewrite <-H12.
Qed.
