(* ===== verification/Liveness.v ===== *)
(** * Liveness thresholds and the stale-inference watchdog

    [internal/liveness], the durations the stuck detectors share, and
    [internal/staleinference], which cancels an agent that has produced no output
    for too long.  The watchdog is run on a timeline: the agent's events as the
    tracker records them, and the ticks of the watchdog. *)

From S2P Require Import Prelude GoLib Types.

Definition hour : Z := 60 * minute.

Record Defaults := mkDefaults {
  lv_IdleKill : Z;
  lv_IdleCheckInterval : Z;
  lv_CompletedGracePeriod : Z;
  lv_OrphanReaperGrace : Z;
  lv_ReaperInterval : Z;
  lv_AlertCheckInterval : Z;
  lv_LeaseExpiredGrace : Z;
  lv_PendingTaskStuckAfter : Z;
  lv_MissingLabelAfter : Z;
  lv_AgentTimeout : Z;
  lv_ForensicOrphanFactor : Z;
  lv_StuckIssueThreshold : Z;
  lv_NoChildGracePeriod : Z;
  lv_WorkerHeartbeatStaleFactor : Z
}.

Definition Default : Defaults :=
  mkDefaults (10 * minute) (30 * second) minute (5 * minute) (60 * second) (60 * second) (30 * second)
    (10 * minute) (5 * minute) (60 * minute) 2 hour (2 * minute) 3.

Definition ForensicOrphanedAfterFor (d : Defaults) (agentTimeout : Z) : Z :=
  let agentTimeout := if agentTimeout <=? 0 then lv_AgentTimeout d else agentTimeout in
  let factor := if lv_ForensicOrphanFactor d <=? 0 then 1 else lv_ForensicOrphanFactor d in
  factor * agentTimeout.

Definition WorkerHeartbeatStaleAfter (d : Defaults) (heartbeatInterval : Z) : Z :=
  (if lv_WorkerHeartbeatStaleFactor d <=? 0 then 1 else lv_WorkerHeartbeatStaleFactor d) * heartbeatInterval.

Definition Validate (d : Defaults) : res unit :=
  if (lv_IdleKill d <=? 0) || (lv_OrphanReaperGrace d <=? 0) || (lv_AgentTimeout d <=? 0) then
    Err (EMsg "liveness: durations must be positive")
  else if lv_AgentTimeout d <? lv_IdleKill d then
    Err (EMsg "liveness: ordering invariant violated: idle_kill must be <= agent_timeout")
  else if ForensicOrphanedAfterFor d (lv_AgentTimeout d) <? lv_OrphanReaperGrace d then
    Err (EMsg "liveness: ordering invariant violated: orphan_reaper_grace must be <= forensic_orphaned_after")
  else Ok tt.

Example default_validates : Validate Default = Ok tt.
Proof. reflexivity. Qed.

(** ** The watchdog *)

Record WatchConfig := mkWatch {
  wc_IdleThreshold : Z;
  wc_CheckInterval : Z;
  wc_CompletedGracePeriod : Z
}.

Definition withDefaults (cfg : WatchConfig) : WatchConfig :=
  mkWatch (if wc_IdleThreshold cfg <=? 0 then lv_IdleKill Default else wc_IdleThreshold cfg)
    (if wc_CheckInterval cfg <=? 0 then lv_IdleCheckInterval Default else wc_CheckInterval cfg)
    (if wc_CompletedGracePeriod cfg <=? 0 then lv_CompletedGracePeriod Default else wc_CompletedGracePeriod cfg).

(** What an [ActivityChecker] answers; [None] is an error, and the completion
    time is present when the checker knows of one. *)
Record Checker := mkChecker {
  ck_SessionFileModTime : option Z;
  ck_CompletionObservedAt : option Z;
  ck_HasChildProcesses : option bool
}.

Definition isStale (cfg : WatchConfig) (now : Z) (checker : Checker) : bool :=
  match ck_SessionFileModTime checker with
  | None => false
  | Some mtime =>
      let '(threshold, mtime) :=
        match ck_CompletionObservedAt checker with
        | Some completedAt => (wc_CompletedGracePeriod cfg, if mtime <? completedAt then completedAt else mtime)
        | None => (wc_IdleThreshold cfg, mtime)
        end in
      if now - mtime <? threshold then false
      else match ck_HasChildProcesses checker with
           | None => false
           | Some hasChildren => negb hasChildren
           end
  end.

(** Zero stands for "never". *)
Record EventTracker := mkTracker {
  et_lastActivity : Z;
  et_completedAt : Z
}.
Definition RecordActivity (now : Z) (t : EventTracker) : EventTracker := mkTracker now (et_completedAt t).
Definition RecordCompletion (now : Z) (t : EventTracker) : EventTracker := mkTracker now now.
Definition NewEventTracker (now : Z) : EventTracker := RecordActivity now (mkTracker 0 0).
Definition tracker_checker (t : EventTracker) : Checker :=
  mkChecker (if et_lastActivity t =? 0 then None else Some (et_lastActivity t))
    (if et_completedAt t =? 0 then None else Some (et_completedAt t)) (Some false).

(** A moment in the life of an agent run. *)
Inductive moment :=
  | Output (t : Z)
  | Completion (t : Z)
  | Tick (t : Z).
Definition at_time (m : moment) : Z := match m with Output t | Completion t | Tick t => t end.

(** [Watch]: the time of the tick that cancels the agent, if any. *)
Fixpoint watch_loop (cfg : WatchConfig) (tr : EventTracker) (l : list moment) : option Z :=
  match l with
  | [] => None
  | Output t :: l => watch_loop cfg (RecordActivity t tr) l
  | Completion t :: l => watch_loop cfg (RecordCompletion t tr) l
  | Tick t :: l => if isStale cfg t (tracker_checker tr) then Some t else watch_loop cfg tr l
  end.
Definition Watch (cfg : WatchConfig) (start : Z) (l : list moment) : option Z :=
  watch_loop (withDefaults cfg) (NewEventTracker start) l.

(** ** When an agent is cancelled *)

Definition completed (pre : list moment) : bool :=
  existsb (λ m, match m with Completion _ => true | _ => false end) pre.

(** Nothing was heard of the agent in the last [w] of time. *)
Definition silent_for (w : Z) (pre : list moment) (t : Z) : Prop :=
  Forall (λ m, match m with Output a | Completion a => a + w ≤ t | Tick _ => True end) pre.

(** The agent is idle at [t]: it has not completed and was silent for the idle
    threshold, or has completed and was silent for the grace period. *)
Definition idle_at (cfg : WatchConfig) (start : Z) (pre : list moment) (t : Z) : Prop :=
  let cfg := withDefaults cfg in
  if completed pre then silent_for (wc_CompletedGracePeriod cfg) pre t
  else start + wc_IdleThreshold cfg ≤ t ∧ silent_for (wc_IdleThreshold cfg) pre t.

(** The tracker after a part of the timeline. *)
Definition track (m : moment) (tr : EventTracker) : EventTracker :=
  match m with Output t => RecordActivity t tr | Completion t => RecordCompletion t tr | Tick _ => tr end.
Definition tracked (tr : EventTracker) (pre : list moment) : EventTracker := foldl (λ tr m, track m tr) tr pre.

Record tracks (start : Z) (pre : list moment) (tr : EventTracker) : Prop := {
  tk_pos : 0 < start ≤ et_lastActivity tr;
  tk_last : et_lastActivity tr = start ∨ Output (et_lastActivity tr) ∈ pre ∨ Completion (et_lastActivity tr) ∈ pre;
  tk_all : Forall (λ m, match m with Output a | Completion a => a ≤ et_lastActivity tr | Tick _ => True end) pre;
  tk_completed : completed pre = negb (et_completedAt tr =? 0);
  tk_order : et_completedAt tr ≤ et_lastActivity tr;
  tk_after : Forall (λ m, start ≤ at_time m) pre
}.

Lemma completed_snoc pre m :
  completed (pre ++ [m]) = completed pre || match m with Completion _ => true | _ => false end.
Proof. unfold completed. rewrite existsb_app. simpl. by rewrite orb_false_r. Qed.

Lemma tracks_step start pre m tr :
  tracks start pre tr → start ≤ at_time m →
  Forall (λ m', at_time m' ≤ at_time m) pre → tracks start (pre ++ [m]) (track m tr).
Proof.
  intros [Hp Hl Ha Hc Ho Hst] Hs Hle.
  assert (et_lastActivity tr ≤ at_time m) as Hlast.
  { rewrite Forall_forall in Hle. destruct Hl as [->|[H|H]]; [done|by apply (Hle _ H)..]. }
  assert (Forall (λ m', start ≤ at_time m') (pre ++ [m])) as Hst'.
  { rewrite Forall_app, Forall_singleton. done. }
  assert (∀ a, et_lastActivity tr ≤ a →
    Forall (λ m, match m with Output b | Completion b => b ≤ a | Tick _ => True end) pre) as Hall.
  { intros a Hla. eapply Forall_impl; [exact Ha|]. intros []; simpl; lia. }
  destruct m as [a|a|a]; simpl in *;
    (split; simpl; [lia| |rewrite Forall_app, Forall_singleton; split; [apply Hall; lia|done || lia]
                   |rewrite completed_snoc, Hc, ?orb_false_r, ?orb_true_r|lia|done]).
  - right. left. set_solver.
  - done.
  - right. right. set_solver.
  - destruct (Z.eqb_spec a 0); [lia|done].
  - destruct Hl as [?|[?|?]]; [by left|right; left; set_solver|right; right; set_solver].
  - done.
Qed.

Lemma stale_iff_idle cfg start pre tr t :
  tracks start pre tr → isStale (withDefaults cfg) t (tracker_checker tr) = true ↔ idle_at cfg start pre t.
Proof.
  intros [Hp Hl Ha Hc Ho Hst]. unfold isStale, tracker_checker, idle_at, silent_for.
  generalize (withDefaults cfg). clear cfg. intros cfg. cbv zeta. cbn.
  destruct (Z.eqb_spec (et_lastActivity tr) 0); [lia|]. rewrite Hc.
  set (g := wc_CompletedGracePeriod cfg). set (i := wc_IdleThreshold cfg).
  destruct (Z.eqb_spec (et_completedAt tr) 0) as [E0|E0]; cbn.
  - destruct (Z.ltb_spec (t - et_lastActivity tr) i) as [Hlt|Hge]; cbn; split; intros H; try done.
    + destruct H as [H1 H2]. exfalso. rewrite Forall_forall in H2. destruct Hl as [H|[H|H]]; [lia|apply H2 in H; lia..].
    + split; [lia|]. eapply Forall_impl; [exact Ha|]. intros []; simpl; lia.
  - destruct (Z.ltb_spec (et_lastActivity tr) (et_completedAt tr)); [lia|].
    destruct (Z.ltb_spec (t - et_lastActivity tr) g) as [Hlt|Hge]; cbn; split; intros H'; try done.
    + exfalso. unfold completed in Hc. apply existsb_elem in Hc as (m & Hm & Hk). destruct m as [|c|]; try done.
      rewrite Forall_forall in H', Hst. pose proof (H' _ Hm). pose proof (Hst _ Hm). simpl in *.
      destruct Hl as [Hl|[Hl|Hl]]; [lia|apply H' in Hl; lia..].
    + eapply Forall_impl; [exact Ha|]. intros []; simpl; lia.
Qed.

(** [t] is the first tick of [l], which follows [pre], that finds the agent idle. *)
Definition first_idle (cfg : WatchConfig) (start : Z) (pre l : list moment) (t : Z) : Prop :=
  ∃ l1 l2, l = l1 ++ Tick t :: l2 ∧ idle_at cfg start (pre ++ l1) t ∧
    ∀ l3 t' l4, l1 = l3 ++ Tick t' :: l4 → ¬ idle_at cfg start (pre ++ l3) t'.

Lemma first_idle_cons cfg start pre m l t :
  first_idle cfg start pre (m :: l) t ↔
  (m = Tick t ∧ idle_at cfg start pre t) ∨
  ((∀ t', m = Tick t' → ¬ idle_at cfg start pre t') ∧ first_idle cfg start (pre ++ [m]) l t).
Proof.
  split.
  - intros (l1 & l2 & Hl & Hi & Hn). destruct l1 as [|m' l1]; simplify_list_eq; [by left|].
    right. split; [intros t' ->|]; [specialize (Hn [] t' l1 eq_refl); by simplify_list_eq|].
    exists l1, l2. split_and!; [done|by simplify_list_eq|]. intros l3 t' l4 ->. rewrite <-app_assoc.
    by apply (Hn (_ :: l3) t' l4).
  - intros [[-> Hi]|[Hm (l1 & l2 & -> & Hi & Hn)]].
    + exists [], l. split_and!; [done|by rewrite app_nil_r|]. intros l3 t' l4. by destruct l3.
    + exists (m :: l1), l2. split_and!; [done|by simplify_list_eq|]. intros [|m' l3] t' l4 Heq; simplify_list_eq.
      * by apply Hm.
      * specialize (Hn l3 t' l4 eq_refl). by simplify_list_eq.
Qed.

Lemma watch_loop_spec cfg start pre tr l t :
  tracks start pre tr → StronglySorted (λ a b, at_time a ≤ at_time b) (pre ++ l) → Forall (λ m, start ≤ at_time m) l →
  watch_loop (withDefaults cfg) tr l = Some t ↔ first_idle cfg start pre l t.
Proof.
  revert pre tr. induction l as [|m l IH]; intros pre tr Htr Hs Hst.
  { simpl. split; [done|]. intros (l1 & l2 & H & _). by destruct l1. }
  apply Forall_cons in Hst as [Hm Hst].
  assert (tracks start (pre ++ [m]) (track m tr)) as Htr'.
  { apply tracks_step; [done..|]. apply Forall_forall. intros m' Hm'.
    apply (StronglySorted_app_1_elem_of (λ a b, at_time a ≤ at_time b) pre (m :: l)); [done..|]. by left. }
  assert (pre ++ m :: l = (pre ++ [m]) ++ l) as Hpre by by rewrite <-app_assoc.
  rewrite Hpre in Hs. specialize (IH _ _ Htr' Hs Hst). rewrite first_idle_cons.
  destruct m as [a|a|a]; cbn [watch_loop track] in *; [rewrite IH; naive_solver..|].
  pose proof (stale_iff_idle cfg start pre tr a Htr) as Hi.
  destruct (isStale _ a _); [|rewrite IH; naive_solver].
  assert (idle_at cfg start pre a) as Ha by by apply Hi. split; [intros [= ->]; by left|].
  intros [[[= ->] _]|[Hn _]]; [done|]. by destruct (Hn a eq_refl).
Qed.

(** C38: The watchdog cancels an agent at exactly the first check that finds it
    idle: an agent that has not completed is cancelled once it has been silent for
    the idle threshold, one that has completed once it has been silent for the
    grace period (ten minutes and one minute by default); one that keeps producing
    output is never cancelled. *)
Theorem watchdog_cancels_the_idle cfg start l t :
  0 < start → StronglySorted (λ a b, at_time a ≤ at_time b) l → Forall (λ m, start ≤ at_time m) l →
  Watch cfg start l = Some t ↔ first_idle cfg start [] l t.
Proof.
  intros Hp Hs Hst. apply watch_loop_spec; [|done..].
  split; simpl; [lia|by left|constructor|done|lia|constructor].
Qed.

Lemma watchdog_cancels_the_idle_witness :
  first_idle (mkWatch 0 0 0) 1 [] [Output (2 * minute); Tick (11 * minute); Completion (11 * minute + 1); Tick (13 * minute)]
    (13 * minute).
Proof.
  apply (watchdog_cancels_the_idle (mkWatch 0 0 0) 1); [lia| |repeat constructor; vm_compute; discriminate|vm_compute; reflexivity].
  repeat constructor; vm_compute; discriminate.
Defined.
