(* ===== verification/DB.v ===== *)
(** * The database behind [internal/store]

    [dbStore] is modelled on its SQLite backend.  A table with a primary key
    is a map from the key to the row; [task_queue], the workflow tables, events
    and sessions keep insertion (rowid) order, which queries sort by.  The token
    columns of [workers] are a map of their own, keyed like the rows.

    Every statement, or transaction, consults a fault oracle: it may fail with
    an SQL error, busy or not, and then changes nothing (a transaction that
    fails is rolled back).  [db_calls] numbers the attempts, so a theorem that
    quantifies over the oracle covers every pattern of failures.  [db_fresh]
    numbers the random values drawn (claim tokens, trace ids, UUIDs). *)

From S2P Require Import Prelude GoLib Types.

Record DB := mkDB {
  db_tasks : list TaskRecord;
  db_workers : gmap string WorkerRecord;
  db_transitions : gmap (string * Z * string * string) Z;
  db_instances : list WorkflowInstanceRow;
  db_history : list WorkflowTransitionRow;
  db_cache : gmap (string * Z) IssueCache;
  db_deps : gmap (string * Z * string * Z) IssueDependency;
  db_depstate : gmap (string * Z) IssueDependencyState;
  db_claims : gmap (string * Z) IssueClaimRecord;
  db_hazards : gmap (string * Z) PipelineHazard;
  db_cycles : gmap (string * Z) IssueCycleState;
  db_tokens : gmap string WorkerToken;
  db_events : list EventRow;
  db_sessions : list SessionRecord;
  db_routes : gmap string SessionRoute;
  db_repos : gmap string RepoRegistrationRecord;
  db_calls : nat;
  db_fresh : nat
}.

Definition upd_db_tasks (g : list TaskRecord → list TaskRecord) (x : DB) : DB :=
  mkDB (g (db_tasks x)) (db_workers x) (db_transitions x) (db_instances x) (db_history x) (db_cache x) (db_deps x) (db_depstate x) (db_claims x) (db_hazards x) (db_cycles x) (db_tokens x) (db_events x) (db_sessions x) (db_routes x) (db_repos x) (db_calls x) (db_fresh x).
Definition upd_db_workers (g : gmap string WorkerRecord → gmap string WorkerRecord) (x : DB) : DB :=
  mkDB (db_tasks x) (g (db_workers x)) (db_transitions x) (db_instances x) (db_history x) (db_cache x) (db_deps x) (db_depstate x) (db_claims x) (db_hazards x) (db_cycles x) (db_tokens x) (db_events x) (db_sessions x) (db_routes x) (db_repos x) (db_calls x) (db_fresh x).
Definition upd_db_transitions (g : gmap (string * Z * string * string) Z → gmap (string * Z * string * string) Z) (x : DB) : DB :=
  mkDB (db_tasks x) (db_workers x) (g (db_transitions x)) (db_instances x) (db_history x) (db_cache x) (db_deps x) (db_depstate x) (db_claims x) (db_hazards x) (db_cycles x) (db_tokens x) (db_events x) (db_sessions x) (db_routes x) (db_repos x) (db_calls x) (db_fresh x).
Definition upd_db_instances (g : list WorkflowInstanceRow → list WorkflowInstanceRow) (x : DB) : DB :=
  mkDB (db_tasks x) (db_workers x) (db_transitions x) (g (db_instances x)) (db_history x) (db_cache x) (db_deps x) (db_depstate x) (db_claims x) (db_hazards x) (db_cycles x) (db_tokens x) (db_events x) (db_sessions x) (db_routes x) (db_repos x) (db_calls x) (db_fresh x).
Definition upd_db_history (g : list WorkflowTransitionRow → list WorkflowTransitionRow) (x : DB) : DB :=
  mkDB (db_tasks x) (db_workers x) (db_transitions x) (db_instances x) (g (db_history x)) (db_cache x) (db_deps x) (db_depstate x) (db_claims x) (db_hazards x) (db_cycles x) (db_tokens x) (db_events x) (db_sessions x) (db_routes x) (db_repos x) (db_calls x) (db_fresh x).
Definition upd_db_cache (g : gmap (string * Z) IssueCache → gmap (string * Z) IssueCache) (x : DB) : DB :=
  mkDB (db_tasks x) (db_workers x) (db_transitions x) (db_instances x) (db_history x) (g (db_cache x)) (db_deps x) (db_depstate x) (db_claims x) (db_hazards x) (db_cycles x) (db_tokens x) (db_events x) (db_sessions x) (db_routes x) (db_repos x) (db_calls x) (db_fresh x).
Definition upd_db_deps (g : gmap (string * Z * string * Z) IssueDependency → gmap (string * Z * string * Z) IssueDependency) (x : DB) : DB :=
  mkDB (db_tasks x) (db_workers x) (db_transitions x) (db_instances x) (db_history x) (db_cache x) (g (db_deps x)) (db_depstate x) (db_claims x) (db_hazards x) (db_cycles x) (db_tokens x) (db_events x) (db_sessions x) (db_routes x) (db_repos x) (db_calls x) (db_fresh x).
Definition upd_db_depstate (g : gmap (string * Z) IssueDependencyState → gmap (string * Z) IssueDependencyState) (x : DB) : DB :=
  mkDB (db_tasks x) (db_workers x) (db_transitions x) (db_instances x) (db_history x) (db_cache x) (db_deps x) (g (db_depstate x)) (db_claims x) (db_hazards x) (db_cycles x) (db_tokens x) (db_events x) (db_sessions x) (db_routes x) (db_repos x) (db_calls x) (db_fresh x).
Definition upd_db_claims (g : gmap (string * Z) IssueClaimRecord → gmap (string * Z) IssueClaimRecord) (x : DB) : DB :=
  mkDB (db_tasks x) (db_workers x) (db_transitions x) (db_instances x) (db_history x) (db_cache x) (db_deps x) (db_depstate x) (g (db_claims x)) (db_hazards x) (db_cycles x) (db_tokens x) (db_events x) (db_sessions x) (db_routes x) (db_repos x) (db_calls x) (db_fresh x).
Definition upd_db_hazards (g : gmap (string * Z) PipelineHazard → gmap (string * Z) PipelineHazard) (x : DB) : DB :=
  mkDB (db_tasks x) (db_workers x) (db_transitions x) (db_instances x) (db_history x) (db_cache x) (db_deps x) (db_depstate x) (db_claims x) (g (db_hazards x)) (db_cycles x) (db_tokens x) (db_events x) (db_sessions x) (db_routes x) (db_repos x) (db_calls x) (db_fresh x).
Definition upd_db_cycles (g : gmap (string * Z) IssueCycleState → gmap (string * Z) IssueCycleState) (x : DB) : DB :=
  mkDB (db_tasks x) (db_workers x) (db_transitions x) (db_instances x) (db_history x) (db_cache x) (db_deps x) (db_depstate x) (db_claims x) (db_hazards x) (g (db_cycles x)) (db_tokens x) (db_events x) (db_sessions x) (db_routes x) (db_repos x) (db_calls x) (db_fresh x).
Definition upd_db_tokens (g : gmap string WorkerToken → gmap string WorkerToken) (x : DB) : DB :=
  mkDB (db_tasks x) (db_workers x) (db_transitions x) (db_instances x) (db_history x) (db_cache x) (db_deps x) (db_depstate x) (db_claims x) (db_hazards x) (db_cycles x) (g (db_tokens x)) (db_events x) (db_sessions x) (db_routes x) (db_repos x) (db_calls x) (db_fresh x).
Definition upd_db_events (g : list EventRow → list EventRow) (x : DB) : DB :=
  mkDB (db_tasks x) (db_workers x) (db_transitions x) (db_instances x) (db_history x) (db_cache x) (db_deps x) (db_depstate x) (db_claims x) (db_hazards x) (db_cycles x) (db_tokens x) (g (db_events x)) (db_sessions x) (db_routes x) (db_repos x) (db_calls x) (db_fresh x).
Definition upd_db_sessions (g : list SessionRecord → list SessionRecord) (x : DB) : DB :=
  mkDB (db_tasks x) (db_workers x) (db_transitions x) (db_instances x) (db_history x) (db_cache x) (db_deps x) (db_depstate x) (db_claims x) (db_hazards x) (db_cycles x) (db_tokens x) (db_events x) (g (db_sessions x)) (db_routes x) (db_repos x) (db_calls x) (db_fresh x).
Definition upd_db_routes (g : gmap string SessionRoute → gmap string SessionRoute) (x : DB) : DB :=
  mkDB (db_tasks x) (db_workers x) (db_transitions x) (db_instances x) (db_history x) (db_cache x) (db_deps x) (db_depstate x) (db_claims x) (db_hazards x) (db_cycles x) (db_tokens x) (db_events x) (db_sessions x) (g (db_routes x)) (db_repos x) (db_calls x) (db_fresh x).
Definition upd_db_repos (g : gmap string RepoRegistrationRecord → gmap string RepoRegistrationRecord) (x : DB) : DB :=
  mkDB (db_tasks x) (db_workers x) (db_transitions x) (db_instances x) (db_history x) (db_cache x) (db_deps x) (db_depstate x) (db_claims x) (db_hazards x) (db_cycles x) (db_tokens x) (db_events x) (db_sessions x) (db_routes x) (g (db_repos x)) (db_calls x) (db_fresh x).
Definition upd_db_calls (g : nat → nat) (x : DB) : DB :=
  mkDB (db_tasks x) (db_workers x) (db_transitions x) (db_instances x) (db_history x) (db_cache x) (db_deps x) (db_depstate x) (db_claims x) (db_hazards x) (db_cycles x) (db_tokens x) (db_events x) (db_sessions x) (db_routes x) (db_repos x) (g (db_calls x)) (db_fresh x).
Definition upd_db_fresh (g : nat → nat) (x : DB) : DB :=
  mkDB (db_tasks x) (db_workers x) (db_transitions x) (db_instances x) (db_history x) (db_cache x) (db_deps x) (db_depstate x) (db_claims x) (db_hazards x) (db_cycles x) (db_tokens x) (db_events x) (db_sessions x) (db_routes x) (db_repos x) (db_calls x) (g (db_fresh x)).

Definition empty_db : DB := mkDB [] ∅ ∅ [] [] ∅ ∅ ∅ ∅ ∅ ∅ ∅ [] [] ∅ ∅ 0 0.

(** What an operation reads of the outside: the clock, which statements fail,
    and the random values. *)
Record Env := mkEnv {
  e_now : Z;
  e_fault : nat → option error;
  e_random : nat → string
}.

(** The clock can be moved without touching the rest. *)
Definition env_at (E : Env) (t : Z) : Env := mkEnv t (e_fault E) (e_random E).

(** No statement fails. *)
Definition quiet (E : Env) : Prop := ∀ n, e_fault E n = None.

Definition upd_db_call (d : DB) : DB := upd_db_calls S d.

(** Run one statement or transaction. *)
Definition sql {A} (E : Env) (op : DB → A * DB) : St DB (res A) :=
  λ d, match e_fault E (db_calls d) with
       | Some e => (Err e, upd_db_call d)
       | None => let r := op d in (Ok r.1, upd_db_call r.2)
       end.

(** A statement that may itself end in an error, the transaction rolled back. *)
Definition sql_tx {A} (E : Env) (op : DB → res A * DB) : St DB (res A) :=
  λ d, match e_fault E (db_calls d) with
       | Some e => (Err e, upd_db_call d)
       | None => match op d with
                 | (Ok a, d') => (Ok a, upd_db_call d')
                 | (Err e, _) => (Err e, upd_db_call d)
                 end
       end.

(** A query changes nothing. *)
Definition sql_query {A} (E : Env) (q : DB → A) : St DB (res A) := sql E (λ d, (q d, d)).

(** [rand.Read] and [uuid.NewString]. *)
Definition random (E : Env) : St DB string :=
  λ d, (e_random E (db_fresh d), upd_db_fresh S d).

(** [dialect.IsBusyError]: wrapping an error keeps its text. *)
Fixpoint IsBusyError (e : error) : bool :=
  match e with
  | ErrSQL b => b
  | EWrap _ e => IsBusyError e
  | _ => false
  end.

(** ** What a statement does *)

Section sql.
Context (E : Env).

Lemma wp_sql {A} (op : DB → A * DB) Q d :
  (∀ e, e_fault E (db_calls d) = Some e → Q (Err e) (upd_db_call d)) →
  (e_fault E (db_calls d) = None → Q (Ok (op d).1) (upd_db_call (op d).2)) →
  wp (sql E op) Q d.
Proof. unfold wp, sql. destruct (e_fault E (db_calls d)); simpl; auto. Qed.

Lemma wp_sql_query {A} (q : DB → A) Q d :
  (∀ e, e_fault E (db_calls d) = Some e → Q (Err e) (upd_db_call d)) →
  (e_fault E (db_calls d) = None → Q (Ok (q d)) (upd_db_call d)) →
  wp (sql_query E q) Q d.
Proof. intros. by apply wp_sql. Qed.

Lemma sql_quiet {A} (op : DB → A * DB) d :
  quiet E → sql E op d = (Ok (op d).1, upd_db_call (op d).2).
Proof. intros H. unfold sql. by rewrite H. Qed.

Lemma sql_tx_quiet {A} (op : DB → res A * DB) d :
  quiet E →
  sql_tx E op d = match op d with
                  | (Ok a, d') => (Ok a, upd_db_call d')
                  | (Err e, _) => (Err e, upd_db_call d)
                  end.
Proof. intros H. unfold sql_tx. by rewrite H. Qed.

Lemma keeps_sql {A} (R : relation DB) (op : DB → A * DB) :
  (∀ d, R d (upd_db_call d)) → (∀ d, R d (upd_db_call (op d).2)) → keeps R (sql E op).
Proof. intros H1 H2 d. unfold sql. destruct (e_fault E (db_calls d)); simpl; auto. Qed.

Lemma keeps_sql_tx {A} (R : relation DB) (op : DB → res A * DB) :
  (∀ d, R d (upd_db_call d)) →
  (∀ d a, (op d).1 = Ok a → R d (upd_db_call (op d).2)) →
  keeps R (sql_tx E op).
Proof.
  intros H1 H2 d. unfold sql_tx. destruct (e_fault E (db_calls d)); simpl; auto.
  specialize (H2 d). destruct (op d) as [[a|e] d']; simpl in *; eauto.
Qed.

Lemma keeps_sql_query {A} (R : relation DB) (q : DB → A) :
  (∀ d, R d (upd_db_call d)) → keeps R (sql_query E q).
Proof. intros H. by apply keeps_sql. Qed.
End sql.

(** ** Computations that only read

    [reads m v]: from every database [m] ends with the value [v] has there, and only the
    count of statements has changed. *)

Definition reads {A} (m : St DB A) (v : DB → A) : Prop :=
  (∀ d, v (upd_db_call d) = v d) ∧ ∀ d, ∃ n, m d = (v d, Nat.iter n upd_db_call d).
Definition readsE {A} (m : St DB (res A)) (v : DB → A) : Prop := reads m (λ d, Ok (v d)).

Lemma iter_calls {A} (v : DB → A) n d : (∀ d, v (upd_db_call d) = v d) → v (Nat.iter n upd_db_call d) = v d.
Proof. intros Hv. induction n as [|n IH]; [done|]. cbn. by rewrite Hv. Qed.

Lemma reads_ret {A} (a : A) : reads (mret a) (λ _, a).
Proof. split; [done|]. intros d. by exists O. Qed.
Lemma reads_bind {A B} (m : St DB A) v (k : A → St DB B) w : reads m v → (∀ a, reads (k a) (w a)) → reads (m ≫= k) (λ d, w (v d) d).
Proof.
  intros [Hv Hm] Hk. split.
  - intros d. rewrite Hv. apply Hk.
  - intros d. destruct (Hm d) as [n Hn]. destruct (proj2 (Hk (v d)) (Nat.iter n upd_db_call d)) as [n' Hn'].
    exists (n' + n)%nat. unfold mbind, St_bind. rewrite Hn. cbn [fst snd]. rewrite Hn', (iter_calls (w (v d))) by apply (Hk (v d)).
    by rewrite Nat.iter_add.
Qed.
Lemma reads_bindE {A B} (m : St DB (res A)) v (k : A → St DB (res B)) w :
  readsE m v → (∀ a, readsE (k a) (w a)) → readsE (bindE m k) (λ d, w (v d) d).
Proof.
  intros Hm Hk. unfold readsE, bindE.
  apply (reads_bind m (λ d, Ok (v d)) _ (λ r d, match r with Ok a => Ok (w a d) | Err e => Err e end)); [exact Hm|].
  intros [a|e]; [apply Hk|apply reads_ret].
Qed.
Lemma readsE_ret {A} (a : A) : readsE (mret (Ok a)) (λ _, a).
Proof. exact (reads_ret (Ok a)). Qed.
Lemma readsE_bind_ret {A B} (a : A) (k : A → St DB (res B)) w : readsE (k a) w → readsE (bindE (mret (Ok a)) k) w.
Proof. done. Qed.
Lemma reads_wrap {A} ctx (m : St DB (res A)) v : readsE m v → readsE (wrapE ctx m) v.
Proof. intros Hm. unfold readsE, wrapE. exact (reads_bind m (λ d, Ok (v d)) _ (λ r _, res_wrap ctx r) Hm (λ r, reads_ret _)). Qed.
Lemma reads_query {A} E (q : DB → A) : quiet E → (∀ d, q (upd_db_call d) = q d) → readsE (sql_query E q) q.
Proof. intros HE Hq. split; [intros d; by rewrite Hq|]. intros d. exists 1%nat. unfold sql_query. by rewrite sql_quiet. Qed.
Lemma reads_ext {A} (m : St DB A) v v' : reads m v → (∀ d, v d = v' d) → reads m v'.
Proof. intros [Hv Hm] He. split; [intros d; by rewrite <-!He|]. intros d. rewrite <-He. apply Hm. Qed.
