(* ===== verification/TaskQueue.v ===== *)
(** * The task queue

    The [task_queue] operations of [internal/store/store.go] and
    [queries.go]: insertion, leases (claim, ack, heartbeat, release,
    complete), the operator paths, the failure counter, rollout summaries and
    the stale-task reaper, with the lemmas on rows and updates that their
    properties share. *)

From S2P Require Import Prelude GoLib Types DB.
From Stdlib Require Import Ascii.

(** ** SQL on the table *)

Definition status_is (s : string) (t : TaskRecord) : bool := bool_decide (t_Status t = s).
Definition status_in (l : list string) (t : TaskRecord) : bool := bool_decide (t_Status t ∈ l).

Definition active_status : list string := [TaskStatusPending; TaskStatusRunning].
Definition terminal_status : list string :=
  [TaskStatusCompleted; TaskStatusFailed; TaskStatusTimeout].

Definition row_id (id : string) (t : TaskRecord) : bool := bool_decide (t_ID t = id).
Definition row_issue (repo : string) (num : Z) (t : TaskRecord) : bool :=
  bool_decide (t_Repo t = repo) && bool_decide (t_IssueNum t = num).
Definition owned_by (w : string) (t : TaskRecord) : bool := bool_decide (t_WorkerID t = Some w).

(** [UPDATE task_queue SET f WHERE p]: the new rows and [RowsAffected]. *)
Definition update_rows (p : TaskRecord → bool) (f : TaskRecord → TaskRecord)
    (l : list TaskRecord) : list TaskRecord :=
  (λ t, if p t then f t else t) <$> l.
Definition update_where (p : TaskRecord → bool) (f : TaskRecord → TaskRecord) (d : DB) : nat * DB :=
  (length (List.filter p (db_tasks d)), upd_db_tasks (update_rows p f) d).

Definition find_task (id : string) (d : DB) : option TaskRecord :=
  List.find (row_id id) (db_tasks d).

(** [ORDER BY created_at, id]. *)
Definition time_le (a b : option Z) : bool :=
  match a, b with
  | None, _ => true
  | Some _, None => false
  | Some x, Some y => x <=? y
  end.
Definition created_le (t u : TaskRecord) : bool :=
  time_le (t_CreatedAt t) (t_CreatedAt u) &&
  (negb (time_le (t_CreatedAt u) (t_CreatedAt t)) || String.leb (t_ID t) (t_ID u)).

(** [ORDER BY le LIMIT 1]. *)
Fixpoint min_by {A} (le : A → A → bool) (l : list A) : option A :=
  match l with
  | [] => None
  | t :: l => match min_by le l with
              | None => Some t
              | Some u => if le t u then Some t else Some u
              end
  end.

(** The columns as [scanTaskRecord] gives them, the labels from the join. *)
Definition scanTaskRecord (d : DB) (t : TaskRecord) : TaskRecord :=
  upd_t_RolloutsTotal (λ n, if n =? 0 then 1 else n)
    (upd_t_Labels (λ _, from_option ic_Labels EmptyString
                          (db_cache d !! (t_Repo t, t_IssueNum t))) t).
Definition scan_nolabels (t : TaskRecord) : TaskRecord :=
  upd_t_RolloutsTotal (λ n, if n =? 0 then 1 else n) (upd_t_Labels (λ _, EmptyString) t).

(** [taskLeaseOffset]: whole seconds, at least one. *)
Definition taskLeaseOffset (lease : Z) : Z :=
  let seconds := lease ÷ second in if seconds <=? 0 then 1 else seconds.

Definition sql_now (E : Env) : Z := trunc_sec (e_now E).
Definition lease_at (E : Env) (lease : Z) : Z := sql_now E + taskLeaseOffset lease * second.

(** [lease_expires_at IS NULL OR lease_expires_at < CURRENT_TIMESTAMP]. *)
Definition lease_free (E : Env) (t : TaskRecord) : bool :=
  match t_LeaseExpiresAt t with None => true | Some x => x <? sql_now E end.

(** ** Insertion and queries *)

Definition InsertTask (E : Env) (t : TaskRecord) : St DB (res unit) :=
  let row :=
    mkTask (t_ID t) (t_Repo t) (t_IssueNum t) (t_AgentName t) EmptyString (t_Role t)
      (t_Runtime t) (t_Workflow t) (t_State t)
      (Some (default EmptyString (t_WorkerID t))) (Some (default EmptyString (t_ClaimToken t)))
      (if bool_decide (t_Status t = EmptyString) then TaskStatusPending else t_Status t)
      None None None None (t_ExitCode t)
      (if bool_decide (t_SessionRefs t = EmptyString) then "[]" else t_SessionRefs t)
      (t_RolloutIndex t)
      (if t_RolloutsTotal t <=? 0 then 1 else t_RolloutsTotal t)
      (t_RolloutGroupID t) EmptyString (Some (sql_now E)) (Some (sql_now E)) in
  wrapE "store: insert task" (sql_tx E (λ d,
    match find_task (t_ID t) d with
    | Some _ => (Err (ErrSQL false), d)
    | None => (Ok tt, upd_db_tasks (λ l, l ++ [row]) d)
    end)).

Definition GetTask (E : Env) (taskID : string) : St DB (res TaskRecord) :=
  r ← sql_query E (λ d, scanTaskRecord d <$> find_task taskID d);
  match r with
  | Ok (Some t) => mret (Ok t)
  | Ok None => mret (Err ErrTaskNotFound)
  | Err e => mret (Err (EWrap "store: get task" e))
  end.

Definition ListIssueTasks (E : Env) (repo : string) (issueNum : Z) : St DB (res (list TaskRecord)) :=
  wrapE "store: list issue tasks" (sql_query E (λ d,
    scanTaskRecord d <$>
      sort_by created_le
        (List.filter (row_issue repo issueNum) (db_tasks d)))).

Definition WorkerHasRunningTask (E : Env) (workerID : string) : St DB (res bool) :=
  wrapE "store: check worker running task" (sql_query E (λ d,
    existsb (λ t, owned_by workerID t && status_is TaskStatusRunning t) (db_tasks d))).

Definition HasActiveTask (E : Env) (repo : string) (issueNum : Z) (agentName : string) : St DB (res bool) :=
  wrapE "store: has active task" (sql_query E (λ d,
    existsb (λ t, row_issue repo issueNum t && bool_decide (t_AgentName t = agentName)
                  && status_in active_status t) (db_tasks d))).

Definition HasAnyActiveTask (E : Env) (repo : string) (issueNum : Z) : St DB (res bool) :=
  wrapE "store: has any active task" (sql_query E (λ d,
    existsb (λ t, row_issue repo issueNum t && status_in active_status t) (db_tasks d))).

(** Newest first: the failures since the last completed run. *)
Fixpoint count_until_completed (l : list TaskRecord) : Z :=
  match l with
  | [] => 0
  | t :: l => if status_is TaskStatusCompleted t then 0 else 1 + count_until_completed l
  end.

Definition agent_runs (repo : string) (issueNum : Z) (agentName : string)
    (l : list TaskRecord) : list TaskRecord :=
  List.filter (λ t, row_issue repo issueNum t && bool_decide (t_AgentName t = agentName)
                    && status_in terminal_status t) l.

Definition CountConsecutiveAgentFailures (E : Env) (repo : string) (issueNum : Z)
    (agentName : string) : St DB (res Z) :=
  wrapE "store: count consecutive agent failures" (sql_query E (λ d,
    count_until_completed (reverse (agent_runs repo issueNum agentName (db_tasks d))))).

(** ** Status changes *)

Definition UpdateTaskSupervisorAgentID (E : Env) (taskID agentID : string) : St DB (res unit) :=
  n ←! wrapE "store: update task supervisor_agent_id" (sql E
    (update_where (row_id taskID)
       (λ t, upd_t_SupervisorAgentID (λ _, agentID) (upd_t_UpdatedAt (λ _, Some (sql_now E)) t))));
  mret (if (n =? 0)%nat then Err (EMsg "store: update task supervisor_agent_id: not found") else Ok tt).

Definition UpdateTaskStatus (E : Env) (taskID status : string) : St DB (res unit) :=
  n ←! wrapE "store: update task status" (sql E
    (update_where (row_id taskID)
       (λ t, upd_t_Status (λ _, status) (upd_t_UpdatedAt (λ _, Some (sql_now E)) t))));
  mret (if (n =? 0)%nat then Err (EMsg "store: update task status: not found") else Ok tt).

(** After an update that matched no active row: why. *)
Definition explain_unmatched (E : Env) (op taskID : string) : St DB (res unit) :=
  r ←! wrapE op (sql_query E (λ d, t_Status <$> find_task taskID d));
  mret match r with
       | None => Err (EMsg (op +:+ ": task not found"))
       | Some s => if bool_decide (s ∈ terminal_status) then Err ErrTaskStatusTerminal
                   else Err (EMsg (op +:+ ": unexpected status"))
       end.

Definition TransitionTaskStatusIfRunning (E : Env) (taskID status : string) : St DB (res unit) :=
  n ←! wrapE "store: transition task status" (sql E
    (update_where (λ t, row_id taskID t && status_in active_status t)
       (λ t, upd_t_Status (λ _, status) (upd_t_UpdatedAt (λ _, Some (sql_now E)) t))));
  if (n =? 0)%nat then explain_unmatched E "store: transition task status" taskID else mret (Ok tt).

Definition FinalizeTaskForOperator (E : Env) (taskID status : string) (exitCode : Z) : St DB (res unit) :=
  if negb (bool_decide (status ∈ terminal_status)) then
    mret (Err (EMsg "store: finalize task: unsupported terminal status"))
  else
    n ←! wrapE "store: finalize task" (sql E
      (update_where (λ t, row_id taskID t && status_in active_status t)
         (λ t, upd_t_Status (λ _, status) (upd_t_ExitCode (λ _, exitCode)
               (upd_t_CompletedAt (λ _, Some (sql_now E)) (upd_t_HeartbeatAt (λ _, Some (sql_now E))
               (upd_t_LeaseExpiresAt (λ _, None) (upd_t_UpdatedAt (λ _, Some (sql_now E)) t))))))));
    if (n =? 0)%nat then explain_unmatched E "store: finalize task" taskID else mret (Ok tt).

Definition FailPendingTasksForRepo (E : Env) (repo : string) : St DB (res unit) :=
  _ ←! wrapE "store: fail pending tasks for repo" (sql E
    (update_where (λ t, bool_decide (t_Repo t = repo) && status_in active_status t)
       (λ t, upd_t_Status (λ _, TaskStatusFailed) (upd_t_ExitCode (λ _, 1)
             (upd_t_CompletedAt (λ _, Some (sql_now E)) (upd_t_UpdatedAt (λ _, Some (sql_now E)) t))))));
  mret (Ok tt).

(** ** Claims and leases *)

Definition ClaimTask (E : Env) (taskID workerID : string) : St DB (res bool) :=
  n ←! wrapE "store: claim task" (sql E
    (update_where (λ t, row_id taskID t && status_is TaskStatusPending t)
       (λ t, upd_t_WorkerID (λ _, Some workerID) (upd_t_Status (λ _, TaskStatusRunning)
             (upd_t_UpdatedAt (λ _, Some (sql_now E)) t)))));
  mret (Ok (0 <? n)%nat).

Definition ReleaseTask (E : Env) (taskID workerID : string) : St DB (res bool) :=
  n ←! wrapE "store: release task" (sql E
    (update_where (λ t, row_id taskID t && owned_by workerID t && status_is TaskStatusRunning t)
       (λ t, upd_t_WorkerID (λ _, None) (upd_t_Status (λ _, TaskStatusPending)
             (upd_t_UpdatedAt (λ _, Some (sql_now E)) t)))));
  mret (Ok (0 <? n)%nat).

(** A repeated request with the same token, before its lease expires. *)
Definition idempotent_match (E : Env) (workerID claimToken : string) (t : TaskRecord) : bool :=
  owned_by workerID t && bool_decide (t_ClaimToken t = Some claimToken)
  && status_is TaskStatusRunning t
  && match t_LeaseExpiresAt t with None => false | Some x => sql_now E <=? x end.

(** [NOT (status = 'running' AND worker_id = ?)]; a NULL owner makes the
    comparison unknown, which the WHERE clause rejects. *)
Definition not_running_self (workerID : string) (t : TaskRecord) : bool :=
  negb (status_is TaskStatusRunning t) ||
  match t_WorkerID t with None => false | Some w => negb (bool_decide (w = workerID)) end.

(** SQL's one-argument TRIM removes spaces. *)
Definition sql_blank (s : string) : bool := all_str (λ c, byte_is c 32) s.

Definition claim_eligible (E : Env) (workerID : string) (roles repos : list string)
    (runtime : string) (t : TaskRecord) : bool :=
  status_in active_status t && lease_free E t && not_running_self workerID t
  && (bool_decide (roles = []) || bool_decide (t_Role t ∈ roles))
  && (bool_decide (repos = []) || bool_decide (t_Repo t ∈ repos))
  && (sql_blank (t_Runtime t) ||
      (negb (bool_decide (runtime = EmptyString)) && bool_decide (t_Runtime t = runtime))).

(** The repos of a request, trimmed, blanks dropped. *)
Definition clean_repos (repos : list string) : list string :=
  List.filter (λ r, negb (bool_decide (r = EmptyString))) (TrimSpace <$> repos).

Definition claim_row (E : Env) (workerID claimToken : string) (lease : Z) (t : TaskRecord) : TaskRecord :=
  upd_t_WorkerID (λ _, Some workerID) (upd_t_ClaimToken (λ _, Some claimToken)
  (upd_t_Status (λ _, TaskStatusRunning) (upd_t_LeaseExpiresAt (λ _, Some (lease_at E lease))
  (upd_t_HeartbeatAt (λ _, Some (sql_now E)) (upd_t_UpdatedAt (λ _, Some (sql_now E)) t))))).

(** What the caller gets: the row read before the update, with the claim's
    fields at full clock resolution. *)
Definition claim_result (E : Env) (workerID claimToken : string) (lease : Z) (t : TaskRecord) : TaskRecord :=
  upd_t_WorkerID (λ _, Some workerID) (upd_t_ClaimToken (λ _, Some claimToken)
  (upd_t_Status (λ _, TaskStatusRunning) (upd_t_HeartbeatAt (λ _, Some (e_now E))
  (upd_t_LeaseExpiresAt (λ _, Some (e_now E + lease)) (scan_nolabels t))))).

Definition updated_desc (t u : TaskRecord) : bool := time_le (t_UpdatedAt u) (t_UpdatedAt t).

Definition claimNextTaskOnce (E : Env) (workerID : string) (roles repos : list string)
    (runtime claimToken : string) (lease : Z) : St DB (res (option TaskRecord)) :=
  sql_tx E (λ d,
    let prior :=
      if bool_decide (claimToken = EmptyString) then None
      else min_by updated_desc (List.filter (idempotent_match E workerID claimToken) (db_tasks d)) in
    match prior with
    | Some existing => (Ok (Some (scan_nolabels existing)), d)
    | None =>
        let repos' := clean_repos repos in
        if bool_decide (repos' = []) && negb (bool_decide (repos = [])) then (Ok None, d)
        else
          let cands :=
            List.filter (claim_eligible E workerID roles repos' (TrimSpace runtime)) (db_tasks d) in
          match min_by created_le cands with
          | None => (Ok None, d)
          | Some t =>
              let r := update_where (λ u, row_id (t_ID t) u && status_in active_status u && lease_free E u)
                         (claim_row E workerID claimToken lease) d in
              if (r.1 =? 0)%nat then (Err ErrTaskClaimConflict, d)
              else (Ok (Some (claim_result E workerID claimToken lease t)), r.2)
          end
    end).

(** Retry on SQLITE_BUSY, then one last attempt whose result stands. *)
Fixpoint retry_busy {A} (attempts : nat) (once : St DB (res A)) : St DB (res A) :=
  match attempts with
  | O => once
  | S n => r ← once;
           match r with
           | Err e => if IsBusyError e then retry_busy n once else mret (Err e)
           | Ok a => mret (Ok a)
           end
  end.

Definition defaultLease (lease dflt : Z) : Z := if lease <=? 0 then dflt else lease.

Definition ClaimNextTask (E : Env) (workerID : string) (roles repos : list string)
    (runtime claimToken : string) (lease : Z) : St DB (res (option TaskRecord)) :=
  retry_busy 5 (claimNextTaskOnce E workerID roles repos runtime claimToken
                  (defaultLease lease (30 * second))).

(** [ensureTaskOwnership]: inside the caller's transaction. *)
Definition ensureTaskOwnership (taskID workerID : string) (d : DB) : res TaskRecord :=
  match find_task taskID d with
  | None => Err ErrTaskNotFound
  | Some t =>
      if status_in terminal_status t then Err ErrTaskAlreadyCompleted
      else if negb (bool_decide (default EmptyString (t_WorkerID t) = workerID))
      then Err ErrTaskNotClaimedByWorker else Ok (scan_nolabels t)
  end.

(** The shared shape of ack, heartbeat and complete: check the owner, update
    the rows that match, fail with [miss] when none did. *)
Definition owned_update (E : Env) (taskID workerID : string) (p : TaskRecord → bool)
    (f : TaskRecord → TaskRecord) (miss : error) : St DB (res unit) :=
  sql_tx E (λ d,
    match ensureTaskOwnership taskID workerID d with
    | Err e => (Err e, d)
    | Ok _ =>
        let r := update_where (λ t, row_id taskID t && owned_by workerID t && p t) f d in
        if (r.1 =? 0)%nat then (Err miss, d) else (Ok tt, r.2)
    end).

Definition AckTask (E : Env) (taskID workerID : string) (lease : Z) : St DB (res unit) :=
  let lease := defaultLease lease (30 * second) in
  owned_update E taskID workerID (λ _, true)
    (λ t, upd_t_AckedAt (λ a, Some (default (sql_now E) a))
          (upd_t_HeartbeatAt (λ _, Some (sql_now E))
          (upd_t_LeaseExpiresAt (λ _, Some (lease_at E lease))
          (upd_t_UpdatedAt (λ _, Some (sql_now E)) t))))
    ErrTaskNotClaimedByWorker.

Definition heartbeatTaskOnce (E : Env) (taskID workerID : string) (lease : Z) : St DB (res unit) :=
  owned_update E taskID workerID (status_is TaskStatusRunning)
    (λ t, upd_t_HeartbeatAt (λ _, Some (sql_now E))
          (upd_t_LeaseExpiresAt (λ _, Some (lease_at E lease))
          (upd_t_UpdatedAt (λ _, Some (sql_now E)) t)))
    (EMsg "store: heartbeat task: not running or not owned").

Definition HeartbeatTask (E : Env) (taskID workerID : string) (lease : Z) : St DB (res unit) :=
  retry_busy 3 (heartbeatTaskOnce E taskID workerID (defaultLease lease (30 * second))).

(** [status NOT IN (completed, failed) AND lease_expires_at > CURRENT_TIMESTAMP]. *)
Definition complete_match (E : Env) (t : TaskRecord) : bool :=
  negb (status_in [TaskStatusCompleted; TaskStatusFailed] t)
  && match t_LeaseExpiresAt t with None => false | Some x => sql_now E <? x end.

Definition CompleteTask (E : Env) (taskID workerID : string) (exitCode : Z) (sessionRefs : string) :
    St DB (res unit) :=
  let refs := if bool_decide (sessionRefs = EmptyString) then "[]" else sessionRefs in
  let status := if exitCode =? 0 then TaskStatusCompleted else TaskStatusFailed in
  owned_update E taskID workerID (complete_match E)
    (λ t, upd_t_Status (λ _, status) (upd_t_ExitCode (λ _, exitCode)
          (upd_t_SessionRefs (λ _, refs) (upd_t_CompletedAt (λ _, Some (sql_now E))
          (upd_t_HeartbeatAt (λ _, Some (sql_now E)) (upd_t_LeaseExpiresAt (λ _, None)
          (upd_t_UpdatedAt (λ _, Some (sql_now E)) t)))))))
    (EMsg "store: complete task: task is no longer owned by worker or lease expired").

(** ** Rollout groups *)

Definition rollout_le (t u : TaskRecord) : bool :=
  (t_RolloutIndex t <? t_RolloutIndex u) ||
  ((t_RolloutIndex t =? t_RolloutIndex u) && created_le t u).

Definition ListTasksByRolloutGroup (E : Env) (groupID : string) : St DB (res (list TaskRecord)) :=
  let g := TrimSpace groupID in
  if bool_decide (g = EmptyString) then mret (Ok [])
  else wrapE "store: list rollout group tasks" (sql_query E (λ d,
         scanTaskRecord d <$>
           sort_by rollout_le
             (List.filter (λ t, bool_decide (t_RolloutGroupID t = g)) (db_tasks d)))).

(** The counting loop of [SummarizeRolloutGroup]. *)
Definition summarize_step (s : RolloutGroupSummary) (t : TaskRecord) : RolloutGroupSummary :=
  let completed := status_is TaskStatusCompleted t in
  let failed := status_is TaskStatusFailed t || status_is TaskStatusTimeout t in
  mkSummary (rg_RolloutGroupID s)
    (if rg_RolloutsTotal s <? t_RolloutsTotal t then t_RolloutsTotal t else rg_RolloutsTotal s)
    (rg_SuccessCount s + if completed then 1 else 0)
    (rg_FailedCount s + if negb completed && failed then 1 else 0)
    (rg_TerminalCount s + if completed || failed then 1 else 0)
    (rg_PendingCount s + if completed || failed then 0 else 1)
    (rg_Tasks s).

Definition summarize (groupID : string) (tasks : list TaskRecord) : option RolloutGroupSummary :=
  match tasks with
  | [] => None
  | t :: _ =>
      let s := foldl summarize_step (mkSummary groupID (t_RolloutsTotal t) 0 0 0 0 tasks) tasks in
      Some (mkSummary (rg_RolloutGroupID s)
              (if rg_RolloutsTotal s <=? 0 then Z.of_nat (length tasks) else rg_RolloutsTotal s)
              (rg_SuccessCount s) (rg_FailedCount s) (rg_TerminalCount s) (rg_PendingCount s)
              (rg_Tasks s))
  end.

Definition SummarizeRolloutGroup (E : Env) (groupID : string) : St DB (res (option RolloutGroupSummary)) :=
  tasks ←! ListTasksByRolloutGroup E groupID;
  mret (Ok (summarize groupID tasks)).

(** [ORDER BY created_at DESC, rowid DESC]: the last of the newest rows. *)
Definition newest_row (t u : TaskRecord) : bool :=
  negb (time_le (t_CreatedAt t) (t_CreatedAt u)).

Definition LatestRolloutGroupSummaryForIssueState (E : Env) (repo : string) (issueNum : Z)
    (workflow state : string) : St DB (res (option RolloutGroupSummary)) :=
  r ←! wrapE "store: latest rollout group for issue state" (sql_query E (λ d,
    min_by newest_row (List.filter (λ t,
      row_issue repo issueNum t && bool_decide (t_Workflow t = workflow)
      && bool_decide (t_State t = state)
      && negb (bool_decide (t_RolloutGroupID t = EmptyString))) (db_tasks d))));
  match r with
  | None => mret (Ok None)
  | Some t => SummarizeRolloutGroup E (t_RolloutGroupID t)
  end.

(** ** The reaper *)

Definition TaskReapedExitCode : Z := -2.

Definition reap_cutoff (E : Env) (grace : Z) : Z :=
  let seconds := grace ÷ second in
  sql_now E - (if seconds <? 1 then 1 else seconds) * second.

(** Running, and no heartbeat since the cutoff (no heartbeat at all: created
    before it). *)
Definition stale_running (E : Env) (grace : Z) (t : TaskRecord) : bool :=
  status_is TaskStatusRunning t &&
  match t_HeartbeatAt t with
  | Some h => h <? reap_cutoff E grace
  | None => match t_CreatedAt t with Some c => c <? reap_cutoff E grace | None => false end
  end.

Definition reap_row (E : Env) (t : TaskRecord) : TaskRecord :=
  upd_t_Status (λ _, TaskStatusFailed) (upd_t_ExitCode (λ _, TaskReapedExitCode)
  (upd_t_CompletedAt (λ _, Some (sql_now E)) (upd_t_LeaseExpiresAt (λ _, None)
  (upd_t_WorkerID (λ _, None) (upd_t_ClaimToken (λ _, None)
  (upd_t_UpdatedAt (λ _, Some (sql_now E)) t)))))).

Definition reap_update (E : Env) (id : string) : St DB (res nat) :=
  sql E (update_where (λ u, row_id id u && status_is TaskStatusRunning u) (reap_row E)).

(** The attempts at one row's UPDATE: [lastErr] and [updated] when the loop is
    left.  [lastErr] keeps the error of an earlier attempt. *)
Fixpoint reap_attempts (E : Env) (n : nat) (id : string) (lastErr : option error) :
    St DB (option error * bool) :=
  match n with
  | O => mret (lastErr, false)
  | S n =>
      r ← reap_update E id;
      match r with
      | Ok k => mret (lastErr, (0 <? k)%nat)
      | Err e => if IsBusyError e then reap_attempts E n id (Some e) else mret (Some e, false)
      end
  end.

Fixpoint reap_loop (E : Env) (cands reaped : list TaskRecord) :
    St DB (list TaskRecord * option error) :=
  match cands with
  | [] => mret (reaped, None)
  | t :: cands =>
      p ← reap_attempts E 4 (t_ID t) None;
      match p.1 with
      | Some e => mret (reaped, Some (EWrap "store: reap update task" e))
      | None => reap_loop E cands (if (p.2 : bool) then reaped ++ [t] else reaped)
      end
  end.

Definition ReapStaleRunningTasks (E : Env) (grace : Z) : St DB (list TaskRecord * option error) :=
  if grace <=? 0 then mret ([], Some (EMsg "store: ReapStaleRunningTasks: graceTimeout must be positive"))
  else
    r ← sql_query E (λ d, scanTaskRecord d <$> List.filter (stale_running E grace) (db_tasks d));
    match r with
    | Err e => mret ([], Some (EWrap "store: reap query stale tasks" e))
    | Ok cands => reap_loop E cands []
    end.

(** ** Lifecycle

    Rows are never deleted; an operation either appends rows or rewrites rows
    in place.  [task_evolves] is what any rewrite respects: identity columns
    are constant and a terminal row keeps its outcome. *)

Definition terminal (t : TaskRecord) : Prop := t_Status t ∈ terminal_status.

Record task_evolves (t t' : TaskRecord) : Prop := {
  te_id : t_ID t' = t_ID t;
  te_issue : t_Repo t' = t_Repo t ∧ t_IssueNum t' = t_IssueNum t;
  te_agent : t_AgentName t' = t_AgentName t ∧ t_Role t' = t_Role t;
  te_state : t_Workflow t' = t_Workflow t ∧ t_State t' = t_State t;
  te_rollout : t_RolloutIndex t' = t_RolloutIndex t ∧ t_RolloutGroupID t' = t_RolloutGroupID t;
  te_created : t_CreatedAt t' = t_CreatedAt t;
  te_terminal : terminal t → t_Status t' = t_Status t ∧ t_ExitCode t' = t_ExitCode t
                             ∧ t_CompletedAt t' = t_CompletedAt t
}.

#[export] Instance task_evolves_preorder : PreOrder task_evolves.
Proof.
  split.
  - intros t. split; auto.
  - intros t u v [] []. split; try (intuition congruence).
    intros Ht. destruct (te_terminal0 Ht) as (Hs & ? & ?).
    assert (terminal u) as Hu by (unfold terminal; by rewrite Hs).
    destruct (te_terminal1 Hu) as (? & ? & ?). intuition congruence.
Qed.

(** The primary key of the table. *)
Definition tasks_wf (d : DB) : Prop := NoDup (t_ID <$> db_tasks d).

Definition tasks_evolve (d d' : DB) : Prop :=
  ∃ l ext, db_tasks d' = l ++ ext ∧ Forall2 task_evolves (db_tasks d) l.

Definition lifecycle : relation DB := λ d d', tasks_wf d → tasks_wf d' ∧ tasks_evolve d d'.

#[export] Instance lifecycle_preorder : PreOrder lifecycle.
Proof.
  split.
  - intros d Hwf. split; [done|]. exists (db_tasks d), []. split; [by rewrite app_nil_r|].
    reflexivity.
  - intros d1 d2 d3 H12 H23 Hwf. destruct (H12 Hwf) as (Hwf2 & l & ext & Hl & Hev).
    destruct (H23 Hwf2) as (Hwf3 & l' & ext' & Hl' & Hev'). split; [done|].
    rewrite Hl in Hev'. apply Forall2_app_inv_l in Hev' as (m1 & m2 & Hm1 & Hm2 & ->).
    exists m1, (m2 ++ ext'). split; [by rewrite Hl', app_assoc|]. by trans l.
Qed.

Lemma lifecycle_same d d' : db_tasks d' = db_tasks d → lifecycle d d'.
Proof.
  intros H Hwf. unfold tasks_wf, tasks_evolve. rewrite H. split; [done|].
  exists (db_tasks d), []. split; [by rewrite app_nil_r|]. reflexivity.
Qed.

Lemma lifecycle_update p f d :
  (∀ t, t ∈ db_tasks d → p t = true → tasks_wf d → task_evolves t (f t)) →
  lifecycle d (upd_db_call (update_where p f d).2).
Proof.
  intros Hf Hwf. unfold tasks_wf, tasks_evolve. simpl.
  set (g := λ t, if p t then f t else t).
  assert (∀ t, t ∈ db_tasks d → task_evolves t (g t)) as Hg.
  { intros t Ht. unfold g. destruct (p t) eqn:E; [by apply Hf|reflexivity]. }
  unfold update_rows. fold g. split.
  - rewrite <-list_fmap_compose. erewrite list_fmap_ext; [exact Hwf|].
    intros i t Hi. simpl. apply te_id, Hg. by eapply list_elem_of_lookup_2.
  - exists (g <$> db_tasks d), []. split; [by rewrite app_nil_r|].
    clear Hwf Hf. induction (db_tasks d) as [|t l IH]; simpl; constructor.
    + apply Hg. left.
    + apply IH. intros t' Ht'. apply Hg. by right.
Qed.

Lemma find_task_elem id d t : find_task id d = Some t → t ∈ db_tasks d ∧ t_ID t = id.
Proof.
  unfold find_task. intros H. apply List.find_some in H as [Hin Hid].
  split; [by apply list_elem_of_In|]. unfold row_id in Hid. by apply bool_decide_eq_true in Hid.
Qed.

Lemma find_task_unique d t : tasks_wf d → t ∈ db_tasks d → find_task (t_ID t) d = Some t.
Proof.
  unfold tasks_wf, find_task. induction (db_tasks d) as [|u l IH]; simpl; [by intros ? ?%elem_of_nil|].
  intros [Hn Hnd]%NoDup_cons [->|Hin]%elem_of_cons; unfold row_id at 1.
  - by rewrite bool_decide_true.
  - rewrite bool_decide_false; [by apply IH|]. intros Heq. apply Hn. rewrite Heq.
    by apply list_elem_of_fmap_2.
Qed.

Lemma find_task_None id d : find_task id d = None ↔ ∀ t, t ∈ db_tasks d → t_ID t ≠ id.
Proof.
  unfold find_task. rewrite find_None_forall, Forall_forall. split.
  - intros H t Ht Hid. specialize (H t Ht). unfold row_id in H.
    by rewrite bool_decide_true in H.
  - intros H t Ht. unfold row_id. by rewrite bool_decide_false by auto.
Qed.

Ltac split_andb :=
  repeat match goal with H : _ && _ = true |- _ => apply andb_prop in H as [? ?] end.

Lemma active_not_terminal t : status_in active_status t = true → ¬ terminal t.
Proof.
  unfold status_in, terminal. intros H%bool_decide_eq_true Ht.
  repeat (apply elem_of_cons in H as [H|H]); [..|by apply elem_of_nil in H];
    rewrite H in Ht; set_solver.
Qed.

Lemma status_is_not_terminal s t :
  s ∈ active_status → status_is s t = true → ¬ terminal t.
Proof.
  intros Hs H. apply active_not_terminal. unfold status_is, status_in in *.
  apply bool_decide_eq_true in H as ->. by apply bool_decide_eq_true.
Qed.

(** A rewrite of a non-terminal row that leaves the identity columns alone. *)
Lemma evolves_open t t' :
  ¬ terminal t → t_ID t' = t_ID t → t_Repo t' = t_Repo t → t_IssueNum t' = t_IssueNum t →
  t_AgentName t' = t_AgentName t → t_Role t' = t_Role t → t_Workflow t' = t_Workflow t →
  t_State t' = t_State t → t_RolloutIndex t' = t_RolloutIndex t →
  t_RolloutGroupID t' = t_RolloutGroupID t → t_CreatedAt t' = t_CreatedAt t → task_evolves t t'.
Proof. by split. Qed.

Section lifecycle.
Context (E : Env).

Lemma lifecycle_call d : lifecycle d (upd_db_call d).
Proof. by apply lifecycle_same. Qed.

Lemma keeps_update_open (p : TaskRecord → bool) f :
  (∀ t, p t = true → ¬ terminal t → task_evolves t (f t)) →
  (∀ t, p t = true → ¬ terminal t) →
  keeps lifecycle (sql E (update_where p f)).
Proof.
  intros Hf Hp. apply keeps_sql; [apply lifecycle_call|].
  intros d. apply lifecycle_update. intros t _ Ht _. auto.
Qed.

Lemma keeps_owned_update id w p f miss :
  (∀ t, p t = true → terminal t ∨ task_evolves t (f t)) →
  keeps lifecycle (owned_update E id w p f miss).
Proof.
  intros Hf. apply keeps_sql_tx; [apply lifecycle_call|]. intros d [].
  destruct (ensureTaskOwnership id w d) as [t0|] eqn:Eo; [|done].
  cbv zeta. case_match; [done|]. intros _. cbn [snd].
  apply lifecycle_update. intros t Hin Hp Hwf. split_andb.
  destruct (Hf t) as [Ht|]; [done| |done]. exfalso.
  unfold row_id in *. case_bool_decide as Hid; [|done]. subst.
  unfold ensureTaskOwnership in Eo. rewrite find_task_unique in Eo by done.
  unfold status_in in Eo. by rewrite bool_decide_true in Eo.
Qed.

Lemma keeps_retry {A} (R : relation DB) `{!PreOrder R} n (once : St DB (res A)) :
  keeps R once → keeps R (retry_busy n once).
Proof.
  intros H. induction n as [|n IH]; simpl; [done|]. keep_auto. all: done.
Qed.
End lifecycle.

(** ** Order and selection *)

Section min_by.
Context {A : Type} (le : A → A → bool).
Context (le_total : ∀ x y, le x y = true ∨ le y x = true).
Context (le_trans : ∀ x y z, le x y = true → le y z = true → le x z = true).

Lemma min_by_None l : min_by le l = None → l = [].
Proof.
  destruct l as [|x l]; simpl; [done|].
  destruct (min_by le l) as [m|]; [destruct (le x m)|]; discriminate.
Qed.

(** [ORDER BY .. LIMIT 1] picks a minimal row, and one whenever there is any. *)
Lemma min_by_Some l t :
  min_by le l = Some t → t ∈ l ∧ ∀ u, u ∈ l → le t u = true.
Proof.
  assert (∀ x, le x x = true) as Hrefl by (intros x; destruct (le_total x x); done).
  revert t. induction l as [|x l IH]; simpl; intros t; [done|].
  destruct (min_by le l) as [m|] eqn:Em; simpl.
  - destruct (IH m eq_refl) as [Hm Hle].
    destruct (le x m) eqn:Exm; intros [= <-].
    + split; [left|]. intros u [->|Hu]%elem_of_cons; eauto.
    + split; [by right|]. intros u [->|Hu]%elem_of_cons; [|auto].
      destruct (le_total m x); congruence.
  - apply min_by_None in Em as ->. intros [= <-]. split; [left|].
    intros u [->|Hu]%elem_of_cons; [done|]. by apply elem_of_nil in Hu.
Qed.
End min_by.

Lemma time_le_total a b : time_le a b = true ∨ time_le b a = true.
Proof.
  destruct a as [x|], b as [y|]; simpl; auto.
  destruct (Z.leb_spec x y); [by left|right]. apply Z.leb_le. lia.
Qed.

Lemma time_le_trans a b c : time_le a b = true → time_le b c = true → time_le a c = true.
Proof.
  destruct a as [x|], b as [y|], c as [z|]; simpl; try done.
  intros ?%Z.leb_le ?%Z.leb_le. apply Z.leb_le. lia.
Qed.

Lemma created_le_total t u : created_le t u = true ∨ created_le u t = true.
Proof.
  unfold created_le. pose proof (time_le_total (t_CreatedAt t) (t_CreatedAt u)) as H.
  destruct (time_le (t_CreatedAt t) (t_CreatedAt u)), (time_le (t_CreatedAt u) (t_CreatedAt t));
    simpl; auto. apply String.leb_total.
Qed.

Lemma created_le_trans t u v :
  created_le t u = true → created_le u v = true → created_le t v = true.
Proof.
  unfold created_le. intros [H1 H2]%andb_prop [H3 H4]%andb_prop.
  apply andb_true_intro. split; [by eapply time_le_trans|].
  apply orb_true_iff. destruct (time_le (t_CreatedAt v) (t_CreatedAt t)) eqn:E; simpl; [|by left].
  right.
  rewrite (time_le_trans (t_CreatedAt u) (t_CreatedAt v) (t_CreatedAt t)) in H2 by done.
  rewrite (time_le_trans (t_CreatedAt v) (t_CreatedAt t) (t_CreatedAt u)) in H4 by done.
  simpl in H2, H4. by eapply leb_trans.
Qed.

(** ** Lookups through updates *)

Lemma find_update p f d id :
  (∀ t, t_ID (f t) = t_ID t) →
  find_task id (update_where p f d).2 = (λ t, if p t then f t else t) <$> find_task id d.
Proof.
  intros Hf. unfold find_task, update_where, update_rows. simpl.
  induction (db_tasks d) as [|t l IH]; simpl; [done|].
  assert (row_id id (if p t then f t else t) = row_id id t) as ->.
  { unfold row_id. destruct (p t); by rewrite ?Hf. }
  by destruct (row_id id t).
Qed.

Lemma find_call id d : find_task id (upd_db_call d) = find_task id d.
Proof. done. Qed.

(** A row no predicate matches is left as it is. *)
Definition row_kept (t : TaskRecord) : relation DB :=
  λ d d', find_task (t_ID t) d = Some t → find_task (t_ID t) d' = Some t.

#[export] Instance row_kept_preorder t : PreOrder (row_kept t).
Proof. split; [by intros d H|]. intros d1 d2 d3 H1 H2 H. apply H2, H1, H. Qed.

Lemma row_kept_call t d : row_kept t d (upd_db_call d).
Proof. by intros H. Qed.

Lemma row_kept_update p f d t :
  (∀ u, t_ID (f u) = t_ID u) → p t = false → row_kept t d (upd_db_call (update_where p f d).2).
Proof. intros Hf Hp H. rewrite find_call, find_update, H by done. simpl. by rewrite Hp. Qed.

Lemma row_kept_owned E id w p f miss t :
  (∀ u, t_ID (f u) = t_ID u) → owned_by w t = false →
  keeps (row_kept t) (owned_update E id w p f miss).
Proof.
  intros Hf Hw. apply keeps_sql_tx; [apply row_kept_call|]. intros d [].
  destruct (ensureTaskOwnership id w d); [|done]. cbv zeta. case_match; [done|]. intros _.
  cbn [snd]. apply row_kept_update; [done|]. rewrite Hw. by destruct (row_id id t).
Qed.

Lemma row_kept_claim_once E w roles repos rt tok lease t :
  lease_free E t = false →
  keeps (row_kept t) (claimNextTaskOnce E w roles repos rt tok lease).
Proof.
  intros Ht. apply keeps_sql_tx; [apply row_kept_call|]. intros d a. cbv zeta.
  repeat case_match; intros Hok; try done; try (by intros H').
  all: cbn [snd]; apply row_kept_update; [done|]; by rewrite Ht, !andb_false_r.
Qed.
