(* ===== verification/TaskQueueSpec.v ===== *)
(** * Properties of the task queue

    Lifecycle of a row under any interleaving of operations, exclusivity of a
    leased task, what a claim returns, ownership of completion, the failure
    counter, rollout counts, and the reaper. *)

From S2P Require Import Prelude GoLib Types DB TaskQueue.

(** ** Lifecycle *)

(** One operation of a worker, of the coordinator or of the operator on the
    queue, with its own clock and its own failing statements.  The recovery at the start of
    a process fails the rows it finds running, before anything else runs in the process. *)
Inductive queue_step (d : DB) : DB → Prop :=
  | qs_insert E t : queue_step d (InsertTask E t d).2
  | qs_supervisor E id a : queue_step d (UpdateTaskSupervisorAgentID E id a d).2
  | qs_transition E id s : queue_step d (TransitionTaskStatusIfRunning E id s d).2
  | qs_finalize E id s c : queue_step d (FinalizeTaskForOperator E id s c d).2
  | qs_fail_repo E r : queue_step d (FailPendingTasksForRepo E r d).2
  | qs_claim E id w : queue_step d (ClaimTask E id w d).2
  | qs_release E id w : queue_step d (ReleaseTask E id w d).2
  | qs_claim_next E w roles repos rt tok lease :
      queue_step d (ClaimNextTask E w roles repos rt tok lease d).2
  | qs_ack E id w lease : queue_step d (AckTask E id w lease d).2
  | qs_heartbeat E id w lease : queue_step d (HeartbeatTask E id w lease d).2
  | qs_complete E id w c refs : queue_step d (CompleteTask E id w c refs d).2
  | qs_reap E grace : queue_step d (ReapStaleRunningTasks E grace d).2
  | qs_recover E t : find_task (t_ID t) d = Some t → status_is TaskStatusRunning t = true →
      queue_step d (UpdateTaskStatus E (t_ID t) TaskStatusFailed d).2.

Section steps.
Context (E : Env).

Ltac open_row :=
  intros t Ht; split_andb;
  first [ eapply active_not_terminal; eassumption
        | eapply status_is_not_terminal; [|eassumption]; set_solver ].
Ltac evolves := intros t Ht Hopen; by apply evolves_open.

Lemma keeps_insert t : keeps lifecycle (InsertTask E t).
Proof.
  unfold InsertTask. keep_auto. apply keeps_sql_tx; [apply lifecycle_call|].
  intros d []. destruct (find_task (t_ID t) d) eqn:Ef; [done|]. intros _ Hwf. simpl.
  split.
  - unfold tasks_wf. simpl. rewrite fmap_app. apply NoDup_app. split; [done|]. split.
    + intros x Hx Hin. apply list_elem_of_singleton in Hin. subst.
      apply list_elem_of_fmap in Hx as (u & Hu & Hin). simpl in Hu.
      by eapply (proj1 (find_task_None _ _) Ef).
    + apply NoDup_singleton.
  - eexists _, _. split; [reflexivity|]. reflexivity.
Qed.

Lemma keeps_supervisor id a : keeps lifecycle (UpdateTaskSupervisorAgentID E id a).
Proof.
  unfold UpdateTaskSupervisorAgentID. keep_auto. apply keeps_sql; [apply lifecycle_call|].
  intros d. apply lifecycle_update. intros. by split.
Qed.

Lemma keeps_explain op id : keeps lifecycle (explain_unmatched E op id).
Proof. unfold explain_unmatched. keep_auto. apply keeps_sql_query, lifecycle_call. Qed.

Lemma keeps_transition id s : keeps lifecycle (TransitionTaskStatusIfRunning E id s).
Proof.
  unfold TransitionTaskStatusIfRunning. keep_auto; [|apply keeps_explain].
  apply keeps_update_open; [evolves|open_row].
Qed.

Lemma keeps_finalize id s c : keeps lifecycle (FinalizeTaskForOperator E id s c).
Proof.
  unfold FinalizeTaskForOperator. keep_auto; [|apply keeps_explain].
  apply keeps_update_open; [evolves|open_row].
Qed.

Lemma keeps_fail_repo r : keeps lifecycle (FailPendingTasksForRepo E r).
Proof.
  unfold FailPendingTasksForRepo. keep_auto. apply keeps_update_open; [evolves|open_row].
Qed.

Lemma keeps_claim id w : keeps lifecycle (ClaimTask E id w).
Proof. unfold ClaimTask. keep_auto. apply keeps_update_open; [evolves|open_row]. Qed.

Lemma keeps_release id w : keeps lifecycle (ReleaseTask E id w).
Proof. unfold ReleaseTask. keep_auto. apply keeps_update_open; [evolves|open_row]. Qed.

Lemma keeps_claim_once w roles repos rt tok lease :
  keeps lifecycle (claimNextTaskOnce E w roles repos rt tok lease).
Proof.
  apply keeps_sql_tx; [apply lifecycle_call|]. intros d a. cbv zeta.
  repeat case_match; intros Hok; try (by apply lifecycle_same); try done.
  all: cbn [snd]; apply lifecycle_update; intros u _ Hu _; split_andb;
    apply evolves_open; try done; by apply active_not_terminal.
Qed.

Lemma keeps_claim_next w roles repos rt tok lease :
  keeps lifecycle (ClaimNextTask E w roles repos rt tok lease).
Proof. apply keeps_retry; [apply _|]. apply keeps_claim_once. Qed.

Lemma keeps_ack id w lease : keeps lifecycle (AckTask E id w lease).
Proof. apply keeps_owned_update. intros t _. right. by split. Qed.

Lemma keeps_heartbeat id w lease : keeps lifecycle (HeartbeatTask E id w lease).
Proof.
  apply keeps_retry; [apply _|]. apply keeps_owned_update. intros t Ht. right. by split.
Qed.

Lemma keeps_complete id w c refs : keeps lifecycle (CompleteTask E id w c refs).
Proof.
  apply keeps_owned_update. intros t _.
  destruct (decide (terminal t)); [by left|right]. by apply evolves_open.
Qed.

Lemma keeps_reap_update id : keeps lifecycle (reap_update E id).
Proof. apply keeps_update_open; [evolves|open_row]. Qed.

Lemma keeps_reap_attempts n id err : keeps lifecycle (reap_attempts E n id err).
Proof.
  revert err. induction n as [|n IH]; intros err; simpl; keep_auto; apply keeps_reap_update.
Qed.

Lemma keeps_reap_loop cands reaped : keeps lifecycle (reap_loop E cands reaped).
Proof.
  revert reaped. induction cands as [|t l IH]; intros reaped; cbn [reap_loop]; [keep_auto|].
  apply keeps_bind; [apply _|apply keeps_reap_attempts|].
  intros [[e|] u]; simpl; keep_auto.
Qed.

Lemma keeps_reap grace : keeps lifecycle (ReapStaleRunningTasks E grace).
Proof.
  unfold ReapStaleRunningTasks. keep_auto; [|apply keeps_reap_loop].
  apply keeps_sql_query, lifecycle_call.
Qed.

Lemma recover_lifecycle t d :
  find_task (t_ID t) d = Some t → status_is TaskStatusRunning t = true → lifecycle d (UpdateTaskStatus E (t_ID t) TaskStatusFailed d).2.
Proof.
  intros Hf Hs Hwf. unfold UpdateTaskStatus, bindE, wrapE, mbind, St_bind, sql.
  destruct (e_fault E (db_calls d)); cbn [fst snd res_wrap mret St_ret]; [by apply (lifecycle_call d)|].
  revert Hwf. apply (lifecycle_update (row_id (t_ID t)) (λ t, upd_t_Status (λ _, TaskStatusFailed) (upd_t_UpdatedAt (λ _, Some (sql_now E)) t))).
  intros u Hu Hid Hwf. apply bool_decide_eq_true in Hid. pose proof (find_task_unique _ _ Hwf Hu) as Hu'.
  rewrite Hid, Hf in Hu'. injection Hu' as <-. apply evolves_open; [|done..].
  eapply status_is_not_terminal; [|exact Hs]. set_solver.
Qed.
End steps.

Lemma queue_step_lifecycle d d' : queue_step d d' → lifecycle d d'.
Proof.
  intros []; [apply keeps_insert|apply keeps_supervisor|apply keeps_transition|apply keeps_finalize
    |apply keeps_fail_repo|apply keeps_claim|apply keeps_release|apply keeps_claim_next
    |apply keeps_ack|apply keeps_heartbeat|apply keeps_complete|apply keeps_reap|by apply recover_lifecycle].
Qed.

Lemma queue_steps_lifecycle d d' : rtc queue_step d d' → lifecycle d d'.
Proof. induction 1 as [|??? H _ IH]; [reflexivity|]. etrans; [by apply queue_step_lifecycle|done]. Qed.

Lemma evolve_lookup d d' t :
  lifecycle d d' → tasks_wf d → t ∈ db_tasks d →
  ∃ t', find_task (t_ID t) d' = Some t' ∧ task_evolves t t'.
Proof.
  intros H Hwf Ht. destruct (H Hwf) as (Hwf' & l & ext & Hl & Hev).
  apply list_elem_of_lookup in Ht as [i Hi].
  destruct (Forall2_lookup_l _ _ _ _ _ Hev Hi) as (t' & Hi' & He).
  exists t'. split; [|done]. rewrite <-(te_id _ _ He). apply find_task_unique; [done|].
  rewrite Hl. apply list_elem_of_lookup. exists i. by apply lookup_app_l_Some.
Qed.

(** C1: Once a task is completed, failed or timed out, no later sequence of
    queue operations (inserts, claims, acks, heartbeats, completions,
    releases, operator transitions, repo-wide failing, reaper passes, the recovery of
    running rows at a start), with any statements failing, removes the row or changes its status, exit code
    or completion time; and task ids stay unique. *)
Theorem terminal_task_is_final d d' t :
  tasks_wf d → t ∈ db_tasks d → terminal t → rtc queue_step d d' →
  tasks_wf d' ∧ ∃ t', find_task (t_ID t) d' = Some t' ∧ t_Status t' = t_Status t
                      ∧ t_ExitCode t' = t_ExitCode t ∧ t_CompletedAt t' = t_CompletedAt t.
Proof.
  intros Hwf Ht Hterm Hsteps. pose proof (queue_steps_lifecycle _ _ Hsteps) as HL.
  split; [by destruct (HL Hwf)|]. destruct (evolve_lookup _ _ _ HL Hwf Ht) as (t' & Hf & He).
  exists t'. destruct (te_terminal _ _ He Hterm) as (? & ? & ?). auto.
Qed.

(** ** Exclusivity of a lease *)

(** A step of anyone but the owner [w] of a task while the lease that ends at [x] is live:
    claims by any worker, and acks, heartbeats, completions, releases and results by other
    workers.  A result is taken in two steps, the check that the worker holds the task and
    the transition by the id alone; the set holds the tasks for which a result of another
    worker has passed its check.  A worker notes the agent of a task it holds. *)
Inductive intruder_step (w : string) (x : Z) : DB * gset string → DB * gset string → Prop :=
  | is_insert d c E t : intruder_step w x (d, c) ((InsertTask E t d).2, c)
  | is_claim d c E id v : intruder_step w x (d, c) ((ClaimTask E id v d).2, c)
  | is_claim_next d c E v roles repos rt tok lease :
      sql_now E <= x → intruder_step w x (d, c) ((ClaimNextTask E v roles repos rt tok lease d).2, c)
  | is_ack d c E id v lease : v ≠ w → intruder_step w x (d, c) ((AckTask E id v lease d).2, c)
  | is_heartbeat d c E id v lease : v ≠ w → intruder_step w x (d, c) ((HeartbeatTask E id v lease d).2, c)
  | is_complete d c E id v code refs : v ≠ w → intruder_step w x (d, c) ((CompleteTask E id v code refs d).2, c)
  | is_release d c E id v : v ≠ w → intruder_step w x (d, c) ((ReleaseTask E id v d).2, c)
  | is_check d c id v t : v ≠ w → find_task id d = Some t → t_WorkerID t = Some v → intruder_step w x (d, c) (d, {[id]} ∪ c)
  | is_settle d c E id s : id ∈ c → intruder_step w x (d, c) ((TransitionTaskStatusIfRunning E id s d).2, c)
  | is_agent d c E id v t a : v ≠ w → find_task id d = Some t → t_WorkerID t = Some v →
      intruder_step w x (d, c) ((UpdateTaskSupervisorAgentID E id a d).2, c).

Lemma row_kept_insert E u t : keeps (row_kept t) (InsertTask E u).
Proof.
  unfold InsertTask. keep_auto. apply keeps_sql_tx; [apply row_kept_call|]. intros d [].
  destruct (find_task (t_ID u) d); [done|]. intros _ H. rewrite find_call. simpl.
  unfold find_task in *. simpl. revert H. generalize (db_tasks d) as l.
  induction l as [|v l IH]; simpl; [done|]. by destruct (row_id (t_ID t) v).
Qed.

Lemma row_kept_sql_update E p f t :
  (∀ u, t_ID (f u) = t_ID u) → p t = false →
  keeps (row_kept t) (sql E (update_where p f)).
Proof.
  intros. apply keeps_sql; [apply row_kept_call|]. intros d. by apply row_kept_update.
Qed.

Lemma lease_live_not_free E x t :
  t_LeaseExpiresAt t = Some x → sql_now E <= x → lease_free E t = false.
Proof. intros H Hx. unfold lease_free. rewrite H. apply Z.ltb_ge. lia. Qed.

Lemma other_not_owner v w t : t_WorkerID t = Some w → v ≠ w → owned_by v t = false.
Proof. intros H Hv. unfold owned_by. rewrite H. apply bool_decide_false. congruence. Qed.

Section intruders.
Context (t : TaskRecord) (w : string) (x : Z).
Context (Hst : t_Status t = TaskStatusRunning) (Hw : t_WorkerID t = Some w).
Context (Hx : t_LeaseExpiresAt t = Some x).

Lemma row_kept_claim E id v : keeps (row_kept t) (ClaimTask E id v).
Proof.
  unfold ClaimTask. keep_auto. apply row_kept_sql_update; [done|].
  unfold status_is. rewrite Hst. apply andb_false_r.
Qed.

Lemma row_kept_release E id v : v ≠ w → keeps (row_kept t) (ReleaseTask E id v).
Proof.
  intros Hv. unfold ReleaseTask. keep_auto. apply row_kept_sql_update; [done|].
  by rewrite (other_not_owner v w t), andb_false_r.
Qed.

Lemma row_kept_claim_next E v roles repos rt tok lease :
  sql_now E <= x → keeps (row_kept t) (ClaimNextTask E v roles repos rt tok lease).
Proof.
  intros H. apply keeps_retry; [apply _|]. apply row_kept_claim_once.
  by eapply lease_live_not_free.
Qed.

Lemma row_kept_heartbeat E id v lease : v ≠ w → keeps (row_kept t) (HeartbeatTask E id v lease).
Proof.
  intros H. apply keeps_retry; [apply _|]. apply row_kept_owned; [done|].
  by eapply other_not_owner.
Qed.

Lemma row_kept_transition E id s : id ≠ t_ID t → keeps (row_kept t) (TransitionTaskStatusIfRunning E id s).
Proof.
  intros Hid. unfold TransitionTaskStatusIfRunning, explain_unmatched. keep_auto.
  - apply row_kept_sql_update; [done|]. unfold row_id. by rewrite bool_decide_false.
  - apply keeps_sql_query, row_kept_call.
Qed.

Lemma row_kept_agent E id a : id ≠ t_ID t → keeps (row_kept t) (UpdateTaskSupervisorAgentID E id a).
Proof.
  intros Hid. unfold UpdateTaskSupervisorAgentID. keep_auto. apply row_kept_sql_update; [done|]. unfold row_id. by rewrite bool_decide_false.
Qed.

Lemma intruder_keeps p p' : intruder_step w x p p' →
  find_task (t_ID t) p.1 = Some t ∧ t_ID t ∉ p.2 → find_task (t_ID t) p'.1 = Some t ∧ t_ID t ∉ p'.2.
Proof.
  intros Hs [Hf Hc].
  assert (∀ id v u d, v ≠ w → find_task id d = Some u → t_WorkerID u = Some v → find_task (t_ID t) d = Some t → id ≠ t_ID t) as Hne.
  { intros id v u d Hv Hu Huw Ht ->. rewrite Hu in Ht. congruence. }
  destruct Hs; cbn [fst snd] in *; split; try done.
  - by apply row_kept_insert.
  - by apply row_kept_claim.
  - by apply row_kept_claim_next.
  - apply row_kept_owned; [done|by eapply other_not_owner|done].
  - by apply row_kept_heartbeat.
  - apply row_kept_owned; [done|by eapply other_not_owner|done].
  - by apply row_kept_release.
  - set_solver.
  - apply row_kept_transition; [set_solver|done].
  - apply row_kept_agent; [by eapply Hne|done].
Qed.
End intruders.


(** ** What a claim returns *)

Definition claim_post (E : Env) (w : string) (roles repos : list string) (rt tok : string) (lease : Z)
    (d : DB) (r : res (option TaskRecord)) (d' : DB) : Prop :=
  let elig := claim_eligible E w roles (clean_repos repos) (TrimSpace rt) in
  match r with
  | Err _ => db_tasks d' = db_tasks d
  | Ok None => db_tasks d' = db_tasks d ∧
      ((repos ≠ [] ∧ clean_repos repos = []) ∨ ∀ t, t ∈ db_tasks d → elig t = false)
  | Ok (Some res) =>
      (tok ≠ EmptyString ∧ db_tasks d' = db_tasks d ∧
       ∃ t, t ∈ db_tasks d ∧ idempotent_match E w tok t = true ∧ res = scan_nolabels t) ∨
      (∃ t, t ∈ db_tasks d ∧ elig t = true ∧
            (∀ u, u ∈ db_tasks d → elig u = true → created_le t u = true) ∧
            res = claim_result E w tok lease t ∧
            find_task (t_ID t) d' = Some (claim_row E w tok lease t) ∧
            ∀ id, id ≠ t_ID t → find_task id d' = find_task id d)
  end.

Lemma elem_of_filter_bool {A} (p : A → bool) l x : x ∈ List.filter p l ↔ x ∈ l ∧ p x = true.
Proof. by rewrite !list_elem_of_In, List.filter_In. Qed.

Lemma claim_once_post E w roles repos rt tok lease d :
  tasks_wf d →
  wp (claimNextTaskOnce E w roles repos rt tok lease)
     (claim_post E w roles repos rt tok lease d) d.
Proof.
  intros Hwf. unfold wp, claimNextTaskOnce, sql_tx, claim_post.
  destruct (e_fault E (db_calls d)); [done|]. cbv zeta.
  destruct (if bool_decide (tok = EmptyString) then None else _) as [t|] eqn:Ep.
  { case_bool_decide; [done|]. left. split; [done|]. split; [done|]. exists t.
    apply min_by_Some in Ep as [Hin _]; [by apply elem_of_filter_bool in Hin as [? ?]| |].
    - intros a b. apply time_le_total.
    - intros a b c H1 H2. by eapply time_le_trans. }
  destruct (bool_decide (clean_repos repos = []) && _) eqn:Er.
  { apply andb_prop in Er as [H1%bool_decide_eq_true H2%negb_true_iff].
    apply bool_decide_eq_false in H2. simpl. auto. }
  destruct (min_by created_le _) as [t|] eqn:Em.
  - apply min_by_Some in Em as [Hin Hmin]; [|apply created_le_total|apply created_le_trans].
    apply elem_of_filter_bool in Hin as [Hin Hel].
    destruct (_ =? 0)%nat; [done|]. right. exists t. split; [done|]. split; [done|].
    split; [intros u Hu He; apply Hmin, elem_of_filter_bool; done|]. split; [done|].
    pose proof (find_task_unique _ _ Hwf Hin) as Hft.
    unfold claim_eligible in Hel. split_andb. split.
    + etrans; [apply find_update; done|]. rewrite Hft. simpl. unfold row_id.
      rewrite bool_decide_true by done. by repeat match goal with H : _ = true |- _ => rewrite H; clear H end.
    + intros id Hid. etrans; [apply find_update; done|].
      destruct (find_task id d) as [u|] eqn:Eu; [|done]. simpl. unfold row_id.
      apply find_task_elem in Eu as [_ <-]. by rewrite bool_decide_false.
  - apply min_by_None in Em. split; [done|]. right. intros t Ht.
    destruct (claim_eligible E w roles _ _ t) eqn:Et; [|done].
    assert (t ∈ List.filter (claim_eligible E w roles (clean_repos repos) (TrimSpace rt)) (db_tasks d))
      as H by by apply elem_of_filter_bool.
    rewrite Em in H. by apply elem_of_nil in H.
Qed.

(** The post-condition reads the starting state only through its rows. *)
Lemma claim_post_rows E w roles repos rt tok lease d1 d2 r d' :
  db_tasks d1 = db_tasks d2 →
  claim_post E w roles repos rt tok lease d1 r d' → claim_post E w roles repos rt tok lease d2 r d'.
Proof. unfold claim_post, find_task. intros ->. done. Qed.

(** Attempts that fail leave the rows as they were, so a retried operation
    meets the post-condition of one attempt. *)
Lemma wp_retry {A} n (once : St DB (res A)) (Q : DB → res A → DB → Prop) d :
  (∀ d d' e, Q d (Err e) d' → db_tasks d' = db_tasks d) →
  (∀ d1 d2 r d', db_tasks d1 = db_tasks d2 → Q d1 r d' → Q d2 r d') →
  (∀ d', db_tasks d' = db_tasks d → wp once (Q d') d') →
  wp (retry_busy n once) (Q d) d.
Proof.
  intros Herr Hext. revert d. induction n as [|n IH]; simpl; intros d Honce; [by apply Honce|].
  apply wp_bind. pose proof (Honce d eq_refl) as H. unfold wp in *.
  destruct (once d) as [[a|e] d1]; simpl in *; [done|].
  destruct (IsBusyError e); [|done]. pose proof (Herr _ _ _ H) as Hd.
  apply (Hext d1); [done|]. apply IH. intros d' Hd'. apply Honce. congruence.
Qed.

(** A failed attempt changes nothing, so retries meet the post-condition of one. *)
Lemma claim_next_post E w roles repos rt tok lease d :
  tasks_wf d →
  wp (ClaimNextTask E w roles repos rt tok lease)
     (claim_post E w roles repos rt tok (defaultLease lease (30 * second)) d) d.
Proof.
  intros Hwf. apply (wp_retry _ _ (claim_post E w roles repos rt tok _)).
  - intros d1 d2 e H. exact H.
  - intros d1 d2 r d'. apply claim_post_rows.
  - intros d' Hd'. apply claim_once_post. unfold tasks_wf. by rewrite Hd'.
Qed.


(** ** Completion *)

Lemma filter_ids_nonempty p d t :
  t ∈ db_tasks d → p t = true → (length (List.filter p (db_tasks d)) =? 0)%nat = false.
Proof.
  intros Hin Hp. assert (t ∈ List.filter p (db_tasks d)) as H by by apply elem_of_filter_bool.
  destruct (List.filter p (db_tasks d)); [by apply elem_of_nil in H|done].
Qed.

(** What ack, heartbeat and complete have in common. *)
Lemma owned_update_spec E id w p f miss d :
  tasks_wf d → (∀ t, t_ID (f t) = t_ID t) →
  wp (owned_update E id w p f miss) (λ r d',
    match r with
    | Err _ => db_tasks d' = db_tasks d
    | Ok _ => ∃ t, find_task id d = Some t ∧ ¬ terminal t ∧ t_WorkerID t = Some w ∧ p t = true ∧
                   find_task id d' = Some (f t) ∧
                   ∀ id', id' ≠ id → find_task id' d' = find_task id' d
    end) d.
Proof.
  intros Hwf Hf. unfold wp, owned_update, sql_tx, ensureTaskOwnership.
  destruct (e_fault E (db_calls d)); [done|].
  destruct (find_task id d) as [t|] eqn:Et; [|done].
  destruct (status_in terminal_status t) eqn:Est; [done|].
  case_bool_decide as Hown; [|done]. cbn [negb]. cbv zeta.
  destruct (_ =? 0)%nat eqn:En; [done|]. simpl.
  pose proof (find_task_elem _ _ _ Et) as [Hin <-].
  apply Nat.eqb_neq in En. unfold update_where in En. cbn [fst] in En.
  destruct (List.filter _ (db_tasks d)) as [|u l] eqn:El; [by simpl in En|].
  assert (u ∈ u :: l) as Hu by left. rewrite <-El in Hu.
  apply elem_of_filter_bool in Hu as [Hud Hup]. split_andb.
  assert (u = t) as ->.
  { pose proof (find_task_unique _ _ Hwf Hud) as Hfu. unfold row_id in *.
    case_bool_decide as Hid; [|done]. rewrite Hid in Hfu. congruence. }
  exists t. split; [done|]. split.
  { intros Hterm. unfold status_in in Est. by rewrite bool_decide_true in Est. }
  split; [by eapply bool_decide_eq_true_1|]. split; [done|]. split.
  - etrans; [apply find_update; done|]. rewrite Et. simpl.
    by repeat match goal with H : _ = true |- _ => rewrite H; clear H end.
  - intros id' Hid. etrans; [apply find_update; done|].
    destruct (find_task id' d) as [v|] eqn:Ev; [|done]. simpl. unfold row_id.
    apply find_task_elem in Ev as [_ <-]. by rewrite bool_decide_false.
Qed.

Lemma complete_match_live E t :
  complete_match E t = true → ∃ x, t_LeaseExpiresAt t = Some x ∧ sql_now E < x.
Proof.
  unfold complete_match. intros [_ H]%andb_prop. destruct (t_LeaseExpiresAt t) as [x|]; [|done].
  exists x. split; [done|]. by apply Z.ltb_lt.
Qed.

(** [CompleteTask] succeeds only for the worker that holds the task, on a
    task that is not terminal and whose lease has not expired; it then
    records the exit code, the status the exit code stands for and clears the
    lease, and no other row changes.  When it fails nothing changes. *)
Theorem complete_requires_live_ownership E id w c refs d :
  tasks_wf d →
  wp (CompleteTask E id w c refs) (λ r d',
    match r with
    | Err _ => db_tasks d' = db_tasks d
    | Ok _ =>
        ∃ t x, find_task id d = Some t ∧ ¬ terminal t ∧ t_WorkerID t = Some w ∧
               t_LeaseExpiresAt t = Some x ∧ sql_now E < x ∧
        ∃ t', find_task id d' = Some t' ∧ terminal t' ∧ t_ExitCode t' = c ∧
              (t_Status t' = TaskStatusCompleted ↔ c = 0) ∧
              t_LeaseExpiresAt t' = None ∧ t_CompletedAt t' = Some (sql_now E) ∧
              ∀ id', id' ≠ id → find_task id' d' = find_task id' d
    end) d.
Proof.
  intros Hwf. eapply wp_mono; [by apply owned_update_spec|]. intros [[]|e] d'; [|done].
  intros (t & Ht & Hterm & Hw & Hm & Ht' & Hother).
  apply complete_match_live in Hm as (x & Hx & Hlive).
  exists t, x. repeat (split; [done|]). eexists. split; [exact Ht'|]. simpl.
  destruct (Z.eqb_spec c 0) as [->|Hc]; (split; [unfold terminal; simpl; set_solver|]); naive_solver.
Qed.

(** ** The failure counter *)

Lemma count_until_split l :
  ∃ run rest, l = run ++ rest ∧ Forall (λ t, status_is TaskStatusCompleted t = false) run ∧
    (rest = [] ∨ ∃ t rest', rest = t :: rest' ∧ t_Status t = TaskStatusCompleted) ∧
    count_until_completed l = Z.of_nat (length run).
Proof.
  induction l as [|t l (run & rest & -> & Hrun & Hrest & Hc)]; [by exists [], []; auto|].
  destruct (status_is TaskStatusCompleted t) eqn:Es; simpl; rewrite Es.
  - exists [], (t :: run ++ rest). split_and!; auto. right. exists t, (run ++ rest).
    split; [done|]. by apply bool_decide_eq_true in Es.
  - exists (t :: run), rest. split_and!; auto. rewrite Hc. simpl. lia.
Qed.

(** [CountConsecutiveAgentFailures] is the length of the longest run of
    failed or timed-out tasks of that agent on that issue at the newest end of
    the queue: every older terminal task of the agent is cut off by a
    completed one. *)
Theorem failure_count_is_newest_run E repo num agent d :
  quiet E →
  wp (CountConsecutiveAgentFailures E repo num agent) (λ r d',
    db_tasks d' = db_tasks d ∧
    ∃ old run, agent_runs repo num agent (db_tasks d) = old ++ run ∧
      Forall (λ t, t_Status t = TaskStatusFailed ∨ t_Status t = TaskStatusTimeout) run ∧
      (old = [] ∨ ∃ old' t, old = old' ++ [t] ∧ t_Status t = TaskStatusCompleted) ∧
      r = Ok (Z.of_nat (length run))) d.
Proof.
  intros HE. apply wp_wrapE. unfold wp, sql_query. rewrite sql_quiet by done. simpl.
  split; [done|]. set (runs := agent_runs repo num agent (db_tasks d)).
  destruct (count_until_split (reverse runs)) as (run & rest & Heq & Hrun & Hrest & ->).
  exists (reverse rest), (reverse run).
  assert (runs = reverse rest ++ reverse run) as Hruns.
  { rewrite <-(reverse_involutive runs), Heq. apply reverse_app. }
  split; [done|]. split; [|split].
  - apply Forall_forall. intros t Ht. rewrite elem_of_reverse in Ht.
    rewrite Forall_forall in Hrun. specialize (Hrun t Ht).
    assert (t ∈ runs) as Hin by (rewrite Hruns; apply elem_of_app; right; by rewrite elem_of_reverse).
    apply elem_of_filter_bool in Hin as [_ Hin]. split_andb. unfold status_in, status_is in *.
    case_bool_decide as Hs; [|done]. apply bool_decide_eq_false in Hrun. set_solver.
  - destruct Hrest as [->|(t & rest' & -> & Hst)]; [by left|right].
    exists (reverse rest'), t. split; [apply reverse_cons|done].
  - by rewrite length_reverse.
Qed.

(** ** Rollout groups *)

Definition is_failed (t : TaskRecord) : bool :=
  status_is TaskStatusFailed t || status_is TaskStatusTimeout t.

Definition count (p : TaskRecord → bool) (l : list TaskRecord) : Z := Z.of_nat (length (List.filter p l)).

Lemma count_cons p t l : count p (t :: l) = (if p t then 1 else 0) + count p l.
Proof. unfold count. simpl. destruct (p t); simpl; lia. Qed.

Lemma failed_not_completed t : is_failed t = true → status_is TaskStatusCompleted t = false.
Proof.
  unfold is_failed, status_is. intros [H|H]%orb_true_iff; apply bool_decide_eq_true in H as ->;
    by apply bool_decide_false.
Qed.

Lemma summarize_fold s l :
  let s' := foldl summarize_step s l in
  rg_Tasks s' = rg_Tasks s ∧
  rg_RolloutsTotal s <= rg_RolloutsTotal s' ∧
  Forall (λ t, t_RolloutsTotal t <= rg_RolloutsTotal s') l ∧
  rg_SuccessCount s' = rg_SuccessCount s + count (status_is TaskStatusCompleted) l ∧
  rg_FailedCount s' = rg_FailedCount s + count is_failed l ∧
  rg_TerminalCount s' = rg_TerminalCount s + count (status_is TaskStatusCompleted) l + count is_failed l ∧
  rg_PendingCount s' = rg_PendingCount s +
    (Z.of_nat (length l) - count (status_is TaskStatusCompleted) l - count is_failed l).
Proof.
  revert s. induction l as [|t l IH]; intros s; cbv zeta; cbn [foldl].
  { unfold count. simpl. split_and!; auto; lia. }
  destruct (IH (summarize_step s t)) as (H1 & H2 & H3 & H4 & H5 & H6 & H7).
  rewrite H1, H4, H5, H6, H7, !count_cons.
  pose proof (failed_not_completed t) as Hfc. fold (is_failed t) in *.
  unfold summarize_step in *. cbn [rg_Tasks rg_RolloutsTotal rg_SuccessCount rg_FailedCount
    rg_TerminalCount rg_PendingCount length] in *. fold (is_failed t) in *.
  destruct (Z.ltb_spec (rg_RolloutsTotal s) (t_RolloutsTotal t)).
  all: split_and!; [done|lia|constructor; [lia|done]|..].
  all: destruct (is_failed t); [rewrite (Hfc eq_refl)|destruct (status_is TaskStatusCompleted t)];
    simpl; lia.
Qed.

Lemma summarize_spec g tasks :
  match summarize g tasks with
  | None => tasks = []
  | Some s =>
      tasks ≠ [] ∧ rg_Tasks s = tasks ∧
      rg_SuccessCount s = count (status_is TaskStatusCompleted) tasks ∧
      rg_FailedCount s = count is_failed tasks ∧
      rg_TerminalCount s = rg_SuccessCount s + rg_FailedCount s ∧
      rg_TerminalCount s + rg_PendingCount s = Z.of_nat (length tasks) ∧
      0 < rg_RolloutsTotal s ∧ Forall (λ t, t_RolloutsTotal t <= rg_RolloutsTotal s) tasks
  end.
Proof.
  unfold summarize. destruct tasks as [|t l]; [done|]. set (tasks := t :: l).
  pose proof (summarize_fold (mkSummary g (t_RolloutsTotal t) 0 0 0 0 tasks) tasks) as Hs.
  cbv zeta in *. destruct Hs as (H1 & H2 & H3 & H4 & H5 & H6 & H7).
  set (s := foldl summarize_step _ tasks) in *. clearbody s.
  cbn [rg_Tasks rg_RolloutsTotal rg_SuccessCount rg_FailedCount rg_TerminalCount rg_PendingCount] in *.
  split; [done|]. split_and!; [done|lia..| |];
    destruct (Z.leb_spec (rg_RolloutsTotal s) 0); [subst tasks; simpl; lia|lia| |done].
  eapply Forall_impl; [exact H3|]. intros u Hu. simpl in *. lia.
Qed.

(** The summary of a rollout group: absent exactly when the group has no
    task; otherwise successes are the completed tasks, failures the failed
    and timed-out ones, the two make up the terminal count, terminal and
    pending make up the group, and the total is positive and at least every
    member's. *)
Theorem rollout_summary_counts E g d :
  quiet E → TrimSpace g ≠ EmptyString →
  wp (SummarizeRolloutGroup E g) (λ r d',
    let members := List.filter (λ t, bool_decide (t_RolloutGroupID t = TrimSpace g)) (db_tasks d) in
    db_tasks d' = db_tasks d ∧
    match r with
    | Err _ => False
    | Ok None => members = []
    | Ok (Some s) =>
        members ≠ [] ∧ length (rg_Tasks s) = length members ∧
        rg_SuccessCount s = count (status_is TaskStatusCompleted) (rg_Tasks s) ∧
        rg_FailedCount s = count is_failed (rg_Tasks s) ∧
        rg_TerminalCount s = rg_SuccessCount s + rg_FailedCount s ∧
        rg_TerminalCount s + rg_PendingCount s = Z.of_nat (length members) ∧
        0 < rg_RolloutsTotal s ∧
        Forall (λ t, t_RolloutsTotal t <= rg_RolloutsTotal s) (rg_Tasks s)
    end) d.
Proof.
  intros HE Hg. apply wp_bindE. unfold ListTasksByRolloutGroup. rewrite bool_decide_false by done.
  apply wp_wrapE. unfold wp, sql_query. rewrite sql_quiet by done. cbv zeta. simpl.
  split; [done|]. set (members := List.filter _ (db_tasks d)).
  assert (length (scanTaskRecord d <$> sort_by rollout_le members) = length members) as Hlen.
  { rewrite length_fmap. apply Permutation_length, sort_by_perm. }
  pose proof (summarize_spec g (scanTaskRecord d <$> sort_by rollout_le members)) as Hs.
  destruct (summarize g _) as [s|].
  - destruct Hs as (H1 & H2 & H3 & H4 & H5 & H6 & H7 & H8). rewrite H2, <-Hlen.
    split_and!; try done. intros Hm. rewrite Hm in H1. by destruct H1.
  - rewrite Hs in Hlen. by destruct members.
Qed.

(** ** The reaper *)

Definition running_among (ids : list string) (u : TaskRecord) : bool :=
  bool_decide (t_ID u ∈ ids) && status_is TaskStatusRunning u.

Lemma update_rows_reap E id ids l :
  id ∉ ids →
  update_rows (running_among ids) (reap_row E)
    (update_rows (λ u, row_id id u && status_is TaskStatusRunning u) (reap_row E) l) =
  update_rows (running_among (id :: ids)) (reap_row E) l.
Proof.
  intros Hid. unfold update_rows. rewrite <-list_fmap_compose. apply list_fmap_ext.
  intros _ u _. simpl. unfold running_among, row_id.
  destruct (bool_decide (t_ID u = id)) eqn:Eid; simpl.
  - apply bool_decide_eq_true in Eid. subst id.
    rewrite (bool_decide_true (t_ID u ∈ _ :: _)) by left. simpl.
    destruct (status_is TaskStatusRunning u) eqn:Es; simpl.
    + by rewrite (bool_decide_false (t_ID u ∈ ids)).
    + by rewrite Es, andb_false_r.
  - apply bool_decide_eq_false in Eid.
    rewrite (bool_decide_ext (t_ID u ∈ id :: ids) (t_ID u ∈ ids)); [done|]. set_solver.
Qed.

Lemma reap_attempts_quiet E n id err d :
  quiet E →
  reap_attempts E (S n) id err d =
  ((err, (0 <? (update_where (λ u, row_id id u && status_is TaskStatusRunning u) (reap_row E) d).1)%nat),
   upd_db_call (update_where (λ u, row_id id u && status_is TaskStatusRunning u) (reap_row E) d).2).
Proof.
  intros HE. cbn [reap_attempts]. unfold mbind, St_bind, reap_update. by rewrite sql_quiet.
Qed.

Lemma reap_loop_quiet E cands reaped d :
  quiet E → NoDup (t_ID <$> cands) →
  Forall (λ c, ∃ u, u ∈ db_tasks d ∧ t_ID u = t_ID c ∧ status_is TaskStatusRunning u = true) cands →
  (reap_loop E cands reaped d).1 = (reaped ++ cands, None) ∧
  db_tasks (reap_loop E cands reaped d).2 =
    update_rows (running_among (t_ID <$> cands)) (reap_row E) (db_tasks d).
Proof.
  intros HE. revert reaped d. induction cands as [|c cands IH]; intros reaped d Hnd Hall.
  { simpl. rewrite app_nil_r. split; [done|]. unfold update_rows, running_among.
    rewrite <-(list_fmap_id (db_tasks d)) at 1. apply list_fmap_ext. done. }
  simpl in Hnd. apply NoDup_cons in Hnd as [Hc Hnd]. apply Forall_cons in Hall as [(u & Hu & Hid & Hrun) Hall].
  cbn [reap_loop]. unfold mbind, St_bind. rewrite reap_attempts_quiet by done. cbn [fst snd].
  assert ((0 <? (update_where (λ u, row_id (t_ID c) u && status_is TaskStatusRunning u)
                   (reap_row E) d).1)%nat = true) as ->.
  { apply Nat.ltb_lt, Nat.neq_0_lt_0, Nat.eqb_neq, (filter_ids_nonempty _ _ u Hu).
    unfold row_id. by rewrite Hrun, bool_decide_true. }
  match goal with |- context [reap_loop E cands ?r ?d1] => destruct (IH r d1) as [Hr Hd] end; [done| |].
  - apply Forall_forall. intros x Hx. rewrite Forall_forall in Hall.
    destruct (Hall x Hx) as (v & Hv & Hvid & Hvrun). exists v. split; [|done]. simpl.
    apply list_elem_of_fmap. exists v. split; [|done]. unfold row_id.
    rewrite bool_decide_false; [done|]. intros Heq. apply Hc. rewrite <-Heq, Hvid.
    by apply list_elem_of_fmap_2.
  - split; [etrans; [exact Hr|by rewrite <-app_assoc]|]. etrans; [exact Hd|].
    cbn [fmap list_fmap]. by rewrite <-update_rows_reap.
Qed.

Lemma tasks_wf_filter p d : tasks_wf d → NoDup (t_ID <$> List.filter p (db_tasks d)).
Proof.
  unfold tasks_wf. generalize (db_tasks d) as l.
  induction l as [|t l IH]; [done|]. simpl. intros [Hn Hnd]%NoDup_cons.
  destruct (p t); [|auto]. simpl. apply NoDup_cons. split; [|auto].
  intros (u & Hu & Hin)%list_elem_of_fmap. apply elem_of_filter_bool in Hin as [Hin _].
  apply Hn. rewrite Hu. by apply list_elem_of_fmap_2.
Qed.

(** With unique ids, the rows whose id is among the stale ones are the stale rows. *)
Lemma running_among_stale E grace d :
  tasks_wf d →
  update_rows (running_among (t_ID <$> List.filter (stale_running E grace) (db_tasks d)))
    (reap_row E) (db_tasks d) =
  update_rows (stale_running E grace) (reap_row E) (db_tasks d).
Proof.
  intros Hwf. apply list_fmap_ext. intros i t Hi.
  apply list_elem_of_lookup_2 in Hi. simpl in Hi. unfold running_among.
  destruct (stale_running E grace t) eqn:Es.
  - rewrite bool_decide_true; [|apply list_elem_of_fmap_2; by apply elem_of_filter_bool].
    unfold stale_running in Es. by apply andb_prop in Es as [-> _].
  - rewrite bool_decide_false; [done|]. intros (u & Hu & Hin)%list_elem_of_fmap.
    apply elem_of_filter_bool in Hin as [Hin Hus].
    pose proof (find_task_unique _ _ Hwf Hin) as Hf. rewrite <-Hu, find_task_unique in Hf by done.
    congruence.
Qed.

(** When no statement fails, a reaper pass returns exactly the stale
    running tasks (in table order) and no error; each of them is failed with
    exit code -2 and without owner, token or lease, every other row is as
    before, and none is left stale. *)
Theorem reaper_fails_all_stale E grace d :
  quiet E → tasks_wf d → 0 < grace →
  let stale := List.filter (stale_running E grace) (db_tasks d) in
  let r := ReapStaleRunningTasks E grace d in
  r.1 = (scanTaskRecord d <$> stale, None) ∧
  db_tasks r.2 = update_rows (stale_running E grace) (reap_row E) (db_tasks d) ∧
  Forall (λ t, stale_running E grace t = false) (db_tasks r.2).
Proof.
  intros HE Hwf Hg stale r. subst r. unfold ReapStaleRunningTasks.
  destruct (Z.leb_spec grace 0); [lia|]. unfold mbind, St_bind, sql_query.
  rewrite sql_quiet by done. cbn [fst snd]. fold stale.
  assert (t_ID <$> (scanTaskRecord d <$> stale) = t_ID <$> stale) as Hids.
  { rewrite <-list_fmap_compose. by apply list_fmap_ext. }
  pose proof (tasks_wf_filter (stale_running E grace) _ Hwf) as Hnd.
  destruct (reap_loop_quiet E (scanTaskRecord d <$> stale) [] (upd_db_call d)) as [Hr Hd];
    [done|by rewrite Hids| |].
  { apply Forall_fmap, Forall_forall. intros t Ht. apply elem_of_filter_bool in Ht as [Ht Hs].
    exists t. split; [done|]. split; [done|]. unfold stale_running in Hs. by split_andb. }
  split; [exact Hr|].
  assert (db_tasks (reap_loop E (scanTaskRecord d <$> stale) [] (upd_db_call d)).2 =
          update_rows (stale_running E grace) (reap_row E) (db_tasks d)) as Htab.
  { etrans; [exact Hd|]. rewrite Hids. exact (running_among_stale E grace d Hwf). }
  split; [exact Htab|]. rewrite Htab. apply Forall_fmap, Forall_forall. intros t _. simpl.
  destruct (stale_running E grace t) eqn:Es; [|done]. done.
Qed.

Lemma reap_attempts_busy_once E n id d :
  e_fault E (db_calls d) = Some (ErrSQL true) → e_fault E (S (db_calls d)) = None →
  (reap_attempts E (S (S n)) id None d).1.1 = Some (ErrSQL true) ∧
  db_tasks (reap_attempts E (S (S n)) id None d).2 =
    update_rows (λ u, row_id id u && status_is TaskStatusRunning u) (reap_row E) (db_tasks d).
Proof.
  intros H1 H2. cbn [reap_attempts]. unfold mbind, St_bind, reap_update, sql.
  rewrite H1. simpl. by rewrite H2.
Qed.

(** A reaper pass whose first update is refused once as busy and then goes
    through reports an error and an empty result although the stale task has
    been failed: the error of the earlier attempt is not cleared. *)
Theorem reaper_reports_error_after_busy_retry E grace d t rest :
  0 < grace → e_fault E (db_calls d) = None →
  e_fault E (S (db_calls d)) = Some (ErrSQL true) → e_fault E (S (S (db_calls d))) = None →
  List.filter (stale_running E grace) (db_tasks d) = t :: rest →
  let r := ReapStaleRunningTasks E grace d in
  r.1 = ([], Some (EWrap "store: reap update task" (ErrSQL true))) ∧
  db_tasks r.2 =
    update_rows (λ u, row_id (t_ID t) u && status_is TaskStatusRunning u) (reap_row E) (db_tasks d).
Proof.
  intros Hg H0 H1 H2 Hst r. subst r. unfold ReapStaleRunningTasks.
  destruct (Z.leb_spec grace 0); [lia|]. unfold mbind, St_bind, sql_query, sql. rewrite H0.
  cbn [fst snd]. rewrite Hst. cbn [fmap list_fmap reap_loop]. unfold mbind, St_bind.
  destruct (reap_attempts_busy_once E 2 (t_ID (scanTaskRecord d t)) (upd_db_call d) H1 H2) as [Hr Hd].
  rewrite Hr. split; [done|]. exact Hd.
Qed.

(** ** Release *)

(** A released task keeps the lease of its former owner: until that lease
    has expired no [ClaimNextTask], of any worker, takes it. *)
Theorem released_task_waits_for_lease E E' id w v roles repos rt tok lease d t x :
  tasks_wf d → find_task id d = Some t → t_LeaseExpiresAt t = Some x →
  (ReleaseTask E id w d).1 = Ok true →
  let d1 := (ReleaseTask E id w d).2 in
  ∃ t', find_task id d1 = Some t' ∧ t_Status t' = TaskStatusPending ∧ t_WorkerID t' = None ∧
    (sql_now E' <= x →
     find_task id (ClaimNextTask E' v roles repos rt tok lease d1).2 = Some t').
Proof.
  intros Hwf Ht Hx Hok d1. subst d1.
  pose proof (find_task_elem _ _ _ Ht) as [Hin <-].
  revert Hok. unfold ReleaseTask, bindE, wrapE, mbind, St_bind, sql.
  destruct (e_fault E (db_calls d)); [done|]. cbn [fst snd res_wrap mret St_ret].
  intros [= Hn]. apply Nat.ltb_lt in Hn. unfold update_where in Hn. cbn [fst] in Hn.
  destruct (List.filter _ (db_tasks d)) as [|u l] eqn:El; [simpl in Hn; lia|].
  assert (u ∈ u :: l) as Hu by left. rewrite <-El in Hu.
  apply elem_of_filter_bool in Hu as [Hud Hup]. split_andb.
  assert (u = t) as ->.
  { pose proof (find_task_unique _ _ Hwf Hud) as Hfu. unfold row_id in *.
    case_bool_decide as Hid; [|done]. rewrite Hid in Hfu. congruence. }
  eexists. split.
  { etrans; [apply find_update; done|]. rewrite Ht. simpl.
    repeat match goal with H : _ = true |- _ => rewrite H; clear H end. reflexivity. }
  split; [done|]. split; [done|]. intros Hlive.
  match goal with |- find_task _ (_ ?d1).2 = Some ?t' =>
    apply (keeps_retry (row_kept t') 5 _ (row_kept_claim_once E' v roles repos rt tok _ t'
             (lease_live_not_free E' x t' Hx Hlive)) d1) end.
  etrans; [apply find_update; done|]. simpl. rewrite Ht. simpl.
  by repeat match goal with H : _ = true |- _ => rewrite H; clear H end.
Qed.

(** ** The properties at concrete inputs *)

Definition demo_task (id status : string) (w : option string) (lease hb : option Z) : TaskRecord :=
  mkTask id "o/r" 7 "dev" EmptyString "dev" EmptyString "default" "developing" w (Some EmptyString)
    status lease None hb None 0 "[]" 0 1 "g" EmptyString (Some 0) (Some 0).

Definition demo_env (now : Z) : Env := mkEnv now (λ _, None) (λ _, "r").

Definition demo_queue : DB :=
  upd_db_tasks (λ _,
    [ demo_task "a" TaskStatusFailed (Some "w1") None None;
      demo_task "b" TaskStatusRunning (Some "w1") (Some (90 * second)) (Some (10 * second));
      demo_task "c" TaskStatusPending (Some EmptyString) None None ]) empty_db.

Lemma demo_wf : tasks_wf demo_queue.
Proof. apply (bool_decide_unpack (NoDup (t_ID <$> db_tasks demo_queue))). vm_compute. exact I. Qed.

Lemma terminal_task_is_final_witness :
  tasks_wf (InsertTask (demo_env 0) (demo_task "z" EmptyString None None None) demo_queue).2 ∧
  ∃ t', find_task "a" (InsertTask (demo_env 0) (demo_task "z" EmptyString None None None) demo_queue).2 = Some t'
        ∧ t_Status t' = TaskStatusFailed ∧ t_ExitCode t' = 0 ∧ t_CompletedAt t' = None.
Proof.
  apply (terminal_task_is_final demo_queue _ (demo_task "a" TaskStatusFailed (Some "w1") None None)).
  - apply demo_wf.
  - left.
  - unfold terminal. simpl. set_solver.
  - apply rtc_once, qs_insert.
Defined.



Lemma complete_requires_live_ownership_witness :
  (CompleteTask (demo_env (80 * second)) "b" "w1" 0 EmptyString demo_queue).1 = Ok tt ∧
  ∃ t x, find_task "b" demo_queue = Some t ∧ ¬ terminal t ∧ t_WorkerID t = Some "w1" ∧
         t_LeaseExpiresAt t = Some x ∧ sql_now (demo_env (80 * second)) < x.
Proof.
  split; [vm_compute; reflexivity|].
  pose proof (complete_requires_live_ownership (demo_env (80 * second)) "b" "w1" 0 EmptyString
    demo_queue demo_wf) as H.
  unfold wp in H.
  assert ((CompleteTask (demo_env (80 * second)) "b" "w1" 0 EmptyString demo_queue).1 = Ok tt)
    as Hok by (vm_compute; reflexivity).
  rewrite Hok in H. destruct H as (t & x & H1 & H2 & H3 & H4 & H5 & _). eauto 10.
Defined.

Lemma failure_count_is_newest_run_witness :
  (CountConsecutiveAgentFailures (demo_env 0) "o/r" 7 "dev" demo_queue).1 = Ok 1 ∧
  ∃ old run, agent_runs "o/r" 7 "dev" (db_tasks demo_queue) = old ++ run ∧ length run = 1%nat.
Proof.
  split; [vm_compute; reflexivity|].
  destruct (failure_count_is_newest_run (demo_env 0) "o/r" 7 "dev" demo_queue (λ _, eq_refl))
    as (_ & old & run & H1 & _ & _ & H2).
  exists old, run. split; [done|].
  assert ((CountConsecutiveAgentFailures (demo_env 0) "o/r" 7 "dev" demo_queue).1 = Ok 1)
    as Hok by (vm_compute; reflexivity).
  rewrite Hok in H2. injection H2 as H2. lia.
Defined.

Lemma rollout_summary_counts_witness :
  ∃ s, (SummarizeRolloutGroup (demo_env 0) "g" demo_queue).1 = Ok (Some s) ∧
       rg_TerminalCount s + rg_PendingCount s = 3.
Proof.
  pose proof (rollout_summary_counts (demo_env 0) "g" demo_queue (λ _, eq_refl)) as H.
  destruct (SummarizeRolloutGroup (demo_env 0) "g" demo_queue) as [[[s|]|] d'] eqn:E.
  - exists s. split; [done|]. unfold wp in H. rewrite E in H.
    destruct H as (_ & _ & _ & _ & _ & _ & H & _); [vm_compute; discriminate|]. exact H.
  - vm_compute in E. discriminate.
  - vm_compute in E. discriminate.
Defined.

Lemma reaper_fails_all_stale_witness :
  (ReapStaleRunningTasks (demo_env (200 * second)) (60 * second) demo_queue).1.2 = None ∧
  length (ReapStaleRunningTasks (demo_env (200 * second)) (60 * second) demo_queue).1.1 = 1%nat.
Proof.
  destruct (reaper_fails_all_stale (demo_env (200 * second)) (60 * second) demo_queue)
    as (H & _ & _); [done|apply demo_wf|done|].
  rewrite H. split; [reflexivity|vm_compute; reflexivity].
Defined.

(** A clock and a store whose second statement is refused once as busy. *)
Definition busy_env : Env :=
  mkEnv (200 * second) (λ n, if (n =? 1)%nat then Some (ErrSQL true) else None) (λ _, "r").

Lemma reaper_reports_error_after_busy_retry_witness :
  (ReapStaleRunningTasks busy_env (60 * second) demo_queue).1 =
    ([], Some (EWrap "store: reap update task" (ErrSQL true))) ∧
  t_Status <$> find_task "b" (ReapStaleRunningTasks busy_env (60 * second) demo_queue).2 =
    Some TaskStatusFailed.
Proof.
  destruct (reaper_reports_error_after_busy_retry busy_env (60 * second) demo_queue
    (demo_task "b" TaskStatusRunning (Some "w1") (Some (90 * second)) (Some (10 * second))) [])
    as [H1 H2]; try (vm_compute; reflexivity).
  split; [exact H1|vm_compute; reflexivity].
Defined.

Lemma released_task_waits_for_lease_witness :
  ∃ t', find_task "b" (ReleaseTask (demo_env (20 * second)) "b" "w1" demo_queue).2 = Some t' ∧
    t_Status t' = TaskStatusPending ∧
    find_task "b" (ClaimNextTask (demo_env (80 * second)) "w2" [] [] EmptyString EmptyString 0
                     (ReleaseTask (demo_env (20 * second)) "b" "w1" demo_queue).2).2 = Some t'.
Proof.
  destruct (released_task_waits_for_lease (demo_env (20 * second)) (demo_env (80 * second)) "b" "w1"
    "w2" [] [] EmptyString EmptyString 0 demo_queue
    (demo_task "b" TaskStatusRunning (Some "w1") (Some (90 * second)) (Some (10 * second)))
    (90 * second)) as (t' & H1 & H2 & _ & H3);
    [apply demo_wf|vm_compute; reflexivity..|].
  exists t'. split; [exact H1|]. split; [exact H2|]. apply H3. vm_compute. discriminate.
Defined.
