(* ===== verification/IssueClaim.v ===== *)
(** * The per-issue dispatch lease

    The [issue_claim] operations of [internal/store/store.go]: acquire
    (insert, extend, overwrite an expired holder), release, refresh, the
    operator's delete, and the sweep of claims left by dead coordinators.

    A transaction is atomic here, so the branch of [acquireIssueClaimOnce]
    that re-reads the row after a UNIQUE conflict (another process inserting
    between its SELECT and its INSERT) has no counterpart: the row it would
    read is the one the transaction already sees.  Timestamps are written with
    [FormatTimestamp], which keeps whole seconds. *)

From S2P Require Import Prelude GoLib Types DB TaskQueue.
From Stdlib Require Import Ascii.

Definition claim_lease (lease : Z) : Z := defaultLease lease (30 * minute).

(** [expired := holderExp.IsZero() || !holderExp.After(now)]. *)
Definition claim_expired (E : Env) (c : IssueClaimRecord) : bool := negb (e_now E <? cl_ExpiresAt c).

Definition acquireIssueClaimOnce (E : Env) (repo : string) (issueNum : Z) (workerID : string)
    (lease : Z) : St DB (res AcquireIssueClaimResult) :=
  sql_tx E (λ d,
    let now := trunc_sec (e_now E) in
    let expiresAt := trunc_sec (e_now E + lease) in
    let token := e_random E (db_fresh d) in
    let put c := upd_db_claims (<[(repo, issueNum) := c]>) in
    match db_claims d !! (repo, issueNum) with
    | None =>
        (Ok (mkAcquire token false false EmptyString),
         put (mkClaim workerID token now expiresAt) (upd_db_fresh S d))
    | Some c =>
        if bool_decide (cl_WorkerID c = workerID) && negb (claim_expired E c) then
          (Ok (mkAcquire (cl_ClaimToken c) true false EmptyString),
           put (mkClaim workerID (cl_ClaimToken c) (cl_AcquiredAt c) expiresAt) d)
        else if negb (claim_expired E c) then (Err ErrIssueClaimHeldByOther, d)
        else
          (Ok (mkAcquire token false true (cl_WorkerID c)),
           put (mkClaim workerID token now expiresAt) (upd_db_fresh S d))
    end).

Definition AcquireIssueClaim (E : Env) (repo : string) (issueNum : Z) (workerID : string)
    (lease : Z) : St DB (res AcquireIssueClaimResult) :=
  if bool_decide (TrimSpace workerID = EmptyString) then
    mret (Err (EMsg "store: acquire issue claim: worker_id is required"))
  else retry_busy 5 (acquireIssueClaimOnce E repo issueNum workerID (claim_lease lease)).

(** [worker_id = ? AND claim_token = ?]. *)
Definition held_as (workerID claimToken : string) (c : IssueClaimRecord) : bool :=
  bool_decide (cl_WorkerID c = workerID) && bool_decide (cl_ClaimToken c = claimToken).

Definition ReleaseIssueClaim (E : Env) (repo : string) (issueNum : Z) (workerID claimToken : string) :
    St DB (res bool) :=
  wrapE "store: release issue claim" (sql E (λ d,
    match db_claims d !! (repo, issueNum) with
    | Some c => if held_as workerID claimToken c
                then (true, upd_db_claims (base.delete (repo, issueNum)) d) else (false, d)
    | None => (false, d)
    end)).

Definition DeleteIssueClaim (E : Env) (repo : string) (issueNum : Z) : St DB (res bool) :=
  wrapE "store: delete issue claim" (sql E (λ d,
    (bool_decide (is_Some (db_claims d !! (repo, issueNum))),
     upd_db_claims (base.delete (repo, issueNum)) d))).

(** The cutoff is the clock in whole seconds. *)
Definition RefreshIssueClaim (E : Env) (repo : string) (issueNum : Z) (workerID claimToken : string)
    (lease : Z) : St DB (res bool) :=
  let expiresAt := trunc_sec (e_now E + claim_lease lease) in
  wrapE "store: refresh issue claim" (sql E (λ d,
    match db_claims d !! (repo, issueNum) with
    | Some c =>
        if held_as workerID claimToken c && (trunc_sec (e_now E) <? cl_ExpiresAt c)
        then (true, upd_db_claims (<[(repo, issueNum) :=
                      mkClaim (cl_WorkerID c) (cl_ClaimToken c) (cl_AcquiredAt c) expiresAt]>) d)
        else (false, d)
    | None => (false, d)
    end)).

Definition QueryIssueClaim (E : Env) (repo : string) (issueNum : Z) :
    St DB (res (option IssueClaimRecord)) :=
  wrapE "store: query issue claim" (sql_query E (λ d, db_claims d !! (repo, issueNum))).

(** [^coordinator-.*-pid-(\d+)$]: the digits at the end are maximal because
    the byte before them is a dash, and [.] is any byte but a newline. *)
Fixpoint span_digits (s : string) : string * string :=
  match s with
  | EmptyString => (EmptyString, EmptyString)
  | String c s' => if is_digit c then let p := span_digits s' in (String c p.1, p.2)
                   else (EmptyString, s)
  end.
Definition coordinator_pid (workerID : string) : option string :=
  let p := span_digits (rev_str (TrimSpace workerID) EmptyString) in
  if bool_decide (p.1 = EmptyString) then None
  else if negb (HasPrefix p.2 (rev_str "-pid-" EmptyString)) then None
  else
    let head := rev_str (TrimPrefix p.2 (rev_str "-pid-" EmptyString)) EmptyString in
    if HasPrefix head "coordinator-"
       && all_str (λ c, negb (byte_is c 10)) (TrimPrefix head "coordinator-")
    then Some (rev_str p.1 EmptyString) else None.

(** A claim of a coordinator process other than [currentPID]. *)
Definition stale_coordinator (currentPID : Z) (c : IssueClaimRecord) : bool :=
  match coordinator_pid (cl_WorkerID c) with
  | None => false
  | Some digits => match atoi digits with
                   | None => false
                   | Some pid => negb (pid =? currentPID)
                   end
  end.

Definition stale_claims (currentPID : Z) (d : DB) : list (string * Z * IssueClaimRecord) :=
  List.filter (λ p, stale_coordinator currentPID p.2) (map_to_list (db_claims d)).

Definition DeleteStaleCoordinatorIssueClaims (E : Env) (currentPID : Z) :
    St DB (res (list (string * Z * IssueClaimRecord))) :=
  stale ←! wrapE "store: list issue claims for stale coordinator sweep"
             (sql_query E (stale_claims currentPID));
  _ ←! forE stale (λ p, _ ←! DeleteIssueClaim E p.1.1 p.1.2; mret (Ok tt));
  mret (Ok stale).

(** ** Frame: what a claim operation leaves alone *)

(** The claim of the issue [k] stays as it is. *)
Definition claim_kept (k : string * Z) (c : IssueClaimRecord) : relation DB :=
  λ d d', db_claims d !! k = Some c → db_claims d' !! k = Some c.

#[export] Instance claim_kept_preorder k c : PreOrder (claim_kept k c).
Proof. split; [by intros d H|]. intros d1 d2 d3 H1 H2 H. apply H2, H1, H. Qed.

Lemma claim_kept_call k c d : claim_kept k c d (upd_db_call d).
Proof. by intros H. Qed.

Section kept.
Context (E : Env).

Lemma acquire_kept k c repo num v lease :
  v ≠ cl_WorkerID c → e_now E < cl_ExpiresAt c →
  keeps (claim_kept k c) (AcquireIssueClaim E repo num v lease).
Proof.
  intros Hv Hx. unfold AcquireIssueClaim. case_bool_decide; [keep_auto|].
  apply keeps_retry; [apply _|]. apply keeps_sql_tx; [apply claim_kept_call|].
  intros d a. cbv zeta. destruct (decide (k = (repo, num))) as [->|Hk].
  - destruct (db_claims d !! (repo, num)) as [c'|] eqn:Ec; [|by intros _ Hd; congruence].
    intros Hok Hd. rewrite Ec in Hd. injection Hd as ->. revert Hok.
    rewrite bool_decide_false by done. simpl. unfold claim_expired.
    destruct (Z.ltb_spec (e_now E) (cl_ExpiresAt c)); [done|lia].
  - intros _ Hd. repeat case_match; simpl; rewrite ?lookup_insert_ne by done; done.
Qed.

Lemma release_kept k c repo num v tok :
  (repo, num) ≠ k ∨ held_as v tok c = false →
  keeps (claim_kept k c) (ReleaseIssueClaim E repo num v tok).
Proof.
  intros Hd. unfold ReleaseIssueClaim. keep_auto. apply keeps_sql; [apply claim_kept_call|].
  intros d Hc. destruct (decide ((repo, num) = k)) as [<-|Hk].
  - rewrite Hc. destruct Hd as [?|Hh]; [done|by rewrite Hh].
  - repeat case_match; simpl; rewrite ?lookup_delete_ne by done; done.
Qed.

Lemma refresh_kept k c repo num v tok lease :
  (repo, num) ≠ k ∨ held_as v tok c = false →
  keeps (claim_kept k c) (RefreshIssueClaim E repo num v tok lease).
Proof.
  intros Hd. unfold RefreshIssueClaim. keep_auto. apply keeps_sql; [apply claim_kept_call|].
  intros d Hc. destruct (decide ((repo, num) = k)) as [<-|Hk].
  - rewrite Hc. destruct Hd as [?|Hh]; [done|by rewrite Hh].
  - repeat case_match; simpl; rewrite ?lookup_insert_ne by done; done.
Qed.
End kept.

(** ** Mutual exclusion *)

(** What others may do while the claim [c] on issue [k] is live. *)
Inductive claim_step (k : string * Z) (c : IssueClaimRecord) (d : DB) : DB → Prop :=
  | cs_acquire E repo num v lease :
      v ≠ cl_WorkerID c → e_now E < cl_ExpiresAt c →
      claim_step k c d (AcquireIssueClaim E repo num v lease d).2
  | cs_release E repo num v tok :
      (repo, num) ≠ k ∨ held_as v tok c = false →
      claim_step k c d (ReleaseIssueClaim E repo num v tok d).2
  | cs_refresh E repo num v tok lease :
      (repo, num) ≠ k ∨ held_as v tok c = false →
      claim_step k c d (RefreshIssueClaim E repo num v tok lease d).2.

Lemma claim_step_kept k c d d' : claim_step k c d d' → claim_kept k c d d'.
Proof. intros []; [by apply acquire_kept|by apply release_kept|by apply refresh_kept]. Qed.

(** While another worker's claim is live an acquisition ends in an error. *)
Lemma acquire_refused E repo num v lease c d :
  db_claims d !! (repo, num) = Some c → v ≠ cl_WorkerID c → e_now E < cl_ExpiresAt c →
  is_err (AcquireIssueClaim E repo num v lease d).1 = true.
Proof.
  intros Hc Hv Hx. unfold AcquireIssueClaim. case_bool_decide; [done|].
  assert (∀ n d, db_claims d !! (repo, num) = Some c →
    is_err (retry_busy n (acquireIssueClaimOnce E repo num v (claim_lease lease)) d).1 = true) as Hr;
    [|by apply Hr].
  clear d Hc. intros n.
  assert (∀ d, db_claims d !! (repo, num) = Some c →
    ∃ e, acquireIssueClaimOnce E repo num v (claim_lease lease) d = (Err e, upd_db_call d)) as Ho.
  { intros d Hc. unfold acquireIssueClaimOnce, sql_tx. destruct (e_fault E _) as [e|]; [by exists e|].
    rewrite Hc, bool_decide_false by done. simpl. unfold claim_expired.
    destruct (Z.ltb_spec (e_now E) (cl_ExpiresAt c)); [|lia]. by eexists. }
  induction n as [|n IH]; intros d Hc; simpl; destruct (Ho d Hc) as [e He].
  - by rewrite He.
  - unfold mbind, St_bind. rewrite He. simpl. destruct (IsBusyError e); [|done]. by apply IH.
Qed.

(** Mutual exclusion of the per-issue claim: while a claim is live, no
    sequence of acquisitions by other workers and of releases or refreshes
    that do not present its worker and token changes it, and any further
    acquisition by another worker fails. *)
Theorem issue_claim_is_exclusive repo num c d d' :
  db_claims d !! (repo, num) = Some c → rtc (claim_step (repo, num) c) d d' →
  db_claims d' !! (repo, num) = Some c ∧
  ∀ E v lease, v ≠ cl_WorkerID c → e_now E < cl_ExpiresAt c →
    is_err (AcquireIssueClaim E repo num v lease d').1 = true.
Proof.
  intros Hc Hs. assert (db_claims d' !! (repo, num) = Some c) as Hc'.
  { revert Hc. induction Hs as [|d1 d2 d3 H12 _ IH]; [done|]. intros Hc.
    apply IH. by eapply claim_step_kept. }
  split; [done|]. intros E v lease Hv Hx. by eapply acquire_refused.
Qed.

(** ** What an acquisition does *)

Definition acquire_post (E : Env) (repo : string) (num : Z) (w : string) (lease : Z)
    (before : gmap (string * Z) IssueClaimRecord) (r : res AcquireIssueClaimResult) (d' : DB) : Prop :=
  match r with
  | Err e => db_claims d' = before ∧
      (e = ErrIssueClaimHeldByOther →
       (∃ c, before !! (repo, num) = Some c ∧ cl_WorkerID c ≠ w ∧ e_now E < cl_ExpiresAt c)
       ∨ ∃ n, e_fault E n = Some ErrIssueClaimHeldByOther)
  | Ok a =>
      (∃ at_, db_claims d' = <[(repo, num) :=
                mkClaim w (ar_ClaimToken a) at_ (trunc_sec (e_now E + lease))]> before) ∧
      match before !! (repo, num) with
      | None => ar_Extended a = false ∧ ar_OverwrotePrior a = false
      | Some c =>
          if e_now E <? cl_ExpiresAt c
          then cl_WorkerID c = w ∧ ar_ClaimToken a = cl_ClaimToken c ∧
               ar_Extended a = true ∧ ar_OverwrotePrior a = false
          else ar_OverwrotePrior a = true ∧ ar_PriorWorkerID a = cl_WorkerID c ∧ ar_Extended a = false
      end
  end.

Lemma acquire_once_post E repo num w lease d :
  wp (acquireIssueClaimOnce E repo num w lease) (acquire_post E repo num w lease (db_claims d)) d.
Proof.
  unfold wp, acquireIssueClaimOnce, sql_tx, acquire_post.
  destruct (e_fault E (db_calls d)) as [e|] eqn:Ef; simpl.
  { split; [done|]. intros ->. right. eauto. }
  destruct (db_claims d !! (repo, num)) as [c|]; simpl; [|by split; [eexists|]].
  unfold claim_expired. destruct (Z.ltb_spec (e_now E) (cl_ExpiresAt c)); simpl.
  - case_bool_decide as Hw; simpl; [by split; [eexists|]|]. split; [done|]. intros _. left. eauto.
  - rewrite andb_false_r. simpl. by split; [eexists|].
Qed.

Lemma acquire_post_holds E repo num w lease d :
  TrimSpace w ≠ EmptyString →
  wp (AcquireIssueClaim E repo num w lease)
     (acquire_post E repo num w (claim_lease lease) (db_claims d)) d.
Proof.
  intros Hw. unfold AcquireIssueClaim. rewrite bool_decide_false by done.
  generalize 5%nat as n. intros n. revert d. induction n as [|n IH]; intros d; simpl.
  { apply acquire_once_post. }
  apply wp_bind. pose proof (acquire_once_post E repo num w (claim_lease lease) d) as H. unfold wp in *.
  destruct (acquireIssueClaimOnce _ _ _ _ _ d) as [[a|e] d1]; simpl in *; [done|].
  destruct (IsBusyError e); [|done]. destruct H as [Hd _]. rewrite <-Hd. apply IH.
Qed.

Lemma acquired_row E repo num w lease d a d1 :
  TrimSpace w ≠ EmptyString → AcquireIssueClaim E repo num w lease d = (Ok a, d1) →
  ∃ at_, db_claims d1 !! (repo, num) =
    Some (mkClaim w (ar_ClaimToken a) at_ (trunc_sec (e_now E + claim_lease lease))).
Proof.
  intros Hw Hok. pose proof (acquire_post_holds E repo num w lease d Hw) as H. unfold wp in H.
  rewrite Hok in H. destruct H as [[at_ H] _]. exists at_. simpl in H. by rewrite H, lookup_insert_eq.
Qed.

(** [AcquireIssueClaim], with any statements failing: an error changes no
    claim, and "held by other" is reported only for a live claim of another
    worker (or when the store itself reports it); success gives the issue to the
    caller until the lease end, in whole seconds, extending its own live claim
    under the same token, and taking over only an absent or expired claim,
    which it says; no other issue's claim changes. *)
Theorem acquire_issue_claim_spec E repo num w lease d :
  TrimSpace w ≠ EmptyString →
  wp (AcquireIssueClaim E repo num w lease)
     (acquire_post E repo num w (claim_lease lease) (db_claims d)) d.
Proof. apply acquire_post_holds. Qed.

(** ** The length of a lease *)

(** A claim written with one-second timestamps is live for at least the
    requested lease less one second, in which every other worker is refused,
    and can be taken over as soon as the lease has passed. *)
Theorem claim_lease_window E E' repo num w v lease d d1 a :
  AcquireIssueClaim E repo num w lease d = (Ok a, d1) → v ≠ w → TrimSpace v ≠ EmptyString →
  (e_now E' <= e_now E + claim_lease lease - second →
     is_err (AcquireIssueClaim E' repo num v lease d1).1 = true) ∧
  (e_now E + claim_lease lease <= e_now E' → quiet E' →
     ∃ b, (AcquireIssueClaim E' repo num v lease d1).1 = Ok b ∧ ar_PriorWorkerID b = w).
Proof.
  intros Hok Hv Hvs.
  assert (TrimSpace w ≠ EmptyString) as Hws.
  { intros Hw. unfold AcquireIssueClaim in Hok. by rewrite bool_decide_true in Hok. }
  pose proof (acquired_row E repo num w lease d a d1 Hws Hok) as (at_ & Hc).
  pose proof (trunc_sec_bounds (e_now E + claim_lease lease)) as Hb.
  split.
  - intros Ht. eapply acquire_refused; [exact Hc|done|simpl; lia].
  - intros Ht HE. unfold AcquireIssueClaim. rewrite bool_decide_false by done.
    unfold retry_busy, mbind, St_bind, acquireIssueClaimOnce. rewrite sql_tx_quiet by done.
    rewrite Hc. simpl. rewrite bool_decide_false by done. unfold claim_expired. simpl.
    destruct (Z.ltb_spec (e_now E') (trunc_sec (e_now E + claim_lease lease))); [lia|].
    simpl. by eexists.
Qed.

(** ** The sweep at start-up *)

Lemma delete_loop E (l : list (string * Z * IssueClaimRecord)) d :
  quiet E →
  let r := forE l (λ p, _ ←! DeleteIssueClaim E p.1.1 p.1.2; mret (Ok tt)) d in
  r.1 = Ok tt ∧
  ∀ k, db_claims r.2 !! k = if bool_decide (k ∈ l.*1) then None else db_claims d !! k.
Proof.
  intros HE. revert d. induction l as [|[[repo num] c] l IH]; intros d.
  { split; [done|]. done. }
  cbn [forE]. unfold DeleteIssueClaim, bindE, wrapE, mbind, St_bind in *. rewrite sql_quiet by done.
  simpl. match goal with |- context [forE l ?b ?d1] => destruct (IH d1) as [Hr Hd] end.
  split; [done|]. intros k. rewrite Hd.
  cbn [db_claims upd_db_call upd_db_calls upd_db_claims fmap list_fmap fst].
  destruct (decide (k = (repo, num))) as [->|Hk].
  - rewrite lookup_delete_eq. repeat case_bool_decide; try done; set_solver.
  - rewrite lookup_delete_ne by done.
    repeat case_bool_decide; try done; set_solver.
Qed.

Lemma stale_claims_elem pid d k :
  k ∈ (stale_claims pid d).*1 ↔ ∃ c, db_claims d !! k = Some c ∧ stale_coordinator pid c = true.
Proof.
  unfold stale_claims. rewrite list_elem_of_fmap. split.
  - intros ([k' c] & -> & Hin). apply list_elem_of_In, List.filter_In in Hin as [Hin Hs].
    apply list_elem_of_In, elem_of_map_to_list in Hin. eauto.
  - intros (c & Hc & Hs). exists (k, c). split; [done|].
    apply list_elem_of_In, List.filter_In. split; [|done].
    by apply list_elem_of_In, elem_of_map_to_list.
Qed.

(** When no statement fails, the start-up sweep deletes exactly the claims
    whose worker id names a coordinator process other than this one; every
    worker's claim and this coordinator's own claims stay as they are. *)
Theorem stale_sweep_spares_workers E pid d :
  quiet E →
  let r := DeleteStaleCoordinatorIssueClaims E pid d in
  is_err r.1 = false ∧
  ∀ k, db_claims r.2 !! k =
       match db_claims d !! k with
       | Some c => if stale_coordinator pid c then None else Some c
       | None => None
       end.
Proof.
  intros HE. destruct (delete_loop E (stale_claims pid d) (upd_db_call d) HE) as [Hr Hd].
  set (loop := forE _ _ _) in *.
  assert (DeleteStaleCoordinatorIssueClaims E pid d = (Ok (stale_claims pid d), loop.2)) as ->.
  { unfold DeleteStaleCoordinatorIssueClaims, bindE at 1, wrapE, mbind, St_bind, sql_query.
    rewrite sql_quiet by done. cbn [fst snd res_wrap mret St_ret].
    unfold bindE at 1, mbind, St_bind. fold loop. by rewrite Hr. }
  split; [done|]. intros k. simpl. rewrite Hd. cbn [db_claims upd_db_call upd_db_calls].
  case_bool_decide as Hk; rewrite stale_claims_elem in Hk.
  - destruct Hk as (c & -> & ->). done.
  - destruct (db_claims d !! k) as [c|]; [|done].
    destruct (stale_coordinator pid c) eqn:Es; [|done]. destruct Hk. eauto.
Qed.

(** A worker id is classified by its shape. *)
Example coordinator_pid_examples :
  coordinator_pid "coordinator-host-pid-42" = Some "42" ∧
  coordinator_pid "worker-host-pid-42" = None ∧
  coordinator_pid "coordinator-pid-42" = None.
Proof. vm_compute. auto. Qed.

(** ** The properties at concrete inputs *)

Definition claim_env (now : Z) : Env := mkEnv now (λ _, None) (λ n, itoa (Z.of_nat n)).

Definition demo_claims : DB :=
  upd_db_claims (λ _, {[ ("o/r", 7) := mkClaim "w1" "k" 0 (60 * second) ;
                         ("o/r", 8) := mkClaim "coordinator-h-pid-3" "m" 0 (60 * second) ]}) empty_db.

Lemma issue_claim_is_exclusive_witness :
  db_claims (AcquireIssueClaim (claim_env 5) "o/r" 7 "w2" 0 demo_claims).2 !! ("o/r", 7)
    = Some (mkClaim "w1" "k" 0 (60 * second)).
Proof.
  apply (issue_claim_is_exclusive "o/r" 7 (mkClaim "w1" "k" 0 (60 * second)) demo_claims).
  - vm_compute. reflexivity.
  - apply rtc_once, cs_acquire; vm_compute; [discriminate|reflexivity].
Defined.

Lemma acquire_issue_claim_spec_witness :
  wp (AcquireIssueClaim (claim_env (70 * second)) "o/r" 7 "w2" 0)
     (acquire_post (claim_env (70 * second)) "o/r" 7 "w2" (30 * minute) (db_claims demo_claims)) demo_claims.
Proof.
  apply (acquire_issue_claim_spec (claim_env (70 * second)) "o/r" 7 "w2" 0 demo_claims).
  vm_compute. discriminate.
Defined.

Lemma claim_lease_window_witness :
  let r := AcquireIssueClaim (claim_env 5) "o/r" 9 "w1" (10 * second) demo_claims in
  is_err (AcquireIssueClaim (claim_env (9 * second)) "o/r" 9 "w2" (10 * second) r.2).1 = true ∧
  ∃ b, (AcquireIssueClaim (claim_env (11 * second)) "o/r" 9 "w2" (10 * second) r.2).1 = Ok b
       ∧ ar_PriorWorkerID b = "w1".
Proof.
  assert (AcquireIssueClaim (claim_env 5) "o/r" 9 "w1" (10 * second) demo_claims =
    (Ok (mkAcquire "0" false false EmptyString),
     (AcquireIssueClaim (claim_env 5) "o/r" 9 "w1" (10 * second) demo_claims).2)) as H
    by (vm_compute; reflexivity).
  split.
  - apply (claim_lease_window (claim_env 5) (claim_env (9 * second)) "o/r" 9 "w1" "w2" (10 * second)
      demo_claims _ _ H); vm_compute; discriminate.
  - apply (claim_lease_window (claim_env 5) (claim_env (11 * second)) "o/r" 9 "w1" "w2" (10 * second)
      demo_claims _ _ H); [vm_compute; discriminate..|done].
Defined.

Lemma stale_sweep_spares_workers_witness :
  db_claims (DeleteStaleCoordinatorIssueClaims (claim_env 5) 4 demo_claims).2 !! ("o/r", 8) = None ∧
  db_claims (DeleteStaleCoordinatorIssueClaims (claim_env 5) 4 demo_claims).2 !! ("o/r", 7)
    = Some (mkClaim "w1" "k" 0 (60 * second)).
Proof.
  destruct (stale_sweep_spares_workers (claim_env 5) 4 demo_claims) as [_ H]; [done|].
  rewrite !H. split; vm_compute; reflexivity.
Defined.
