(* ===== verification/IssueClaimSpec.v ===== *)
(** * The issue claim as a lease lock

    An abstract lock per issue with a clock: its holder is a worker with a token, its lease
    has an end and runs out exactly then.  The [issue_claim] table with its timestamps,
    retries and failing statements is proved to implement it. *)

From S2P Require Import Prelude GoLib Types DB TaskQueue IssueClaim.

(** ** The abstract lock *)

Notation issue_key := (string * Z)%type.
Notation holder := (string * string)%type.
(** The live locks: the holder and the end of its lease. *)
Notation locks := (gmap (string * Z) (string * string * Z)).

(** A grant or an extension names the time [t] at which it is made and the end [x] of the
    lease. *)
Inductive lock_event :=
  | Tick (t : Z)
  | Acquire (k : issue_key) (h : holder) (t x : Z)
  | Extend (k : issue_key) (h : holder) (t x : Z)
  | Release (k : issue_key) (h : holder)
  | Force (k : issue_key).

(** The locks whose lease has not ended at [t]. *)
Definition alive (t : Z) (s : locks) : locks := omap (λ l, if t <? l.2 then Some l else None) s.
Definition lease_to (t : Z) (k : issue_key) (h : holder) (x : Z) (s : locks) : locks :=
  if t <? x then <[k := (h, x)]> s else delete k s.

Inductive lock_step : Z * locks → lock_event → Z * locks → Prop :=
  | lk_tick t s t' : t ≤ t' → lock_step (t, s) (Tick t') (t', alive t' s)
  | lk_acquire t s k h x : s !! k = None → lock_step (t, s) (Acquire k h t x) (t, lease_to t k h x s)
  | lk_extend t s k h y x : s !! k = Some (h, y) → lock_step (t, s) (Extend k h t x) (t, lease_to t k h x s)
  | lk_release t s k h : (∀ l, s !! k = Some l → l.1 = h) → lock_step (t, s) (Release k h) (t, delete k s)
  | lk_force t s k : lock_step (t, s) (Force k) (t, delete k s).

Inductive lock_run : Z * locks → list lock_event → Z * locks → Prop :=
  | lr_nil s : lock_run s [] s
  | lr_step s e s' l s'' : lock_step s e s' → lock_run s' l s'' → lock_run s (e :: l) s''.

(** The events that end the tenure of [h] on [k] or change the end of its lease. *)
Definition touches (k : issue_key) (h : holder) (e : lock_event) : Prop :=
  match e with
  | Tick _ | Acquire _ _ _ _ => False
  | Extend k' h' _ _ | Release k' h' => k' = k ∧ h' = h
  | Force k' => k' = k
  end.

(** What a client sees: the clock is silent. *)
Definition visible (e : lock_event) : bool := match e with Tick _ => false | _ => true end.

Lemma lock_run_app s l s' l' s'' : lock_run s l s' → lock_run s' l' s'' → lock_run s (l ++ l') s''.
Proof. induction 1; [done|]. intros. econstructor; eauto. Qed.

Lemma lock_step_clock s e s' : lock_step s e s' → s.1 ≤ s'.1.
Proof. intros []; simpl; lia. Qed.
Lemma lock_run_clock s l s' : lock_run s l s' → s.1 ≤ s'.1.
Proof. induction 1 as [|? ? ? ? ? H%lock_step_clock]; lia. Qed.

Lemma lease_to_ne t k k' h x s : k ≠ k' → lease_to t k h x s !! k' = s !! k'.
Proof. intros. unfold lease_to. destruct (t <? x); [by rewrite lookup_insert_ne|by rewrite lookup_delete_ne]. Qed.

Lemma lock_step_keeps s e s' k h x :
  lock_step s e s' → s.2 !! k = Some (h, x) → s'.1 < x → ¬ touches k h e → s'.2 !! k = Some (h, x).
Proof.
  intros [t s1 t' Ht|t s1 k1 h1 x1 Hn|t s1 k1 h1 y x1 He|t s1 k1 h1 Hh|t s1 k1] Hk Hx Ht'; simpl in *.
  - unfold alive. rewrite lookup_omap, Hk. simpl. by rewrite (proj2 (Z.ltb_lt t' x) Hx).
  - rewrite lease_to_ne; [done|congruence].
  - destruct (decide (k1 = k)) as [->|]; [|by rewrite lease_to_ne]. rewrite He in Hk. injection Hk as <- _. by destruct Ht'.
  - destruct (decide (k1 = k)) as [->|]; [|by rewrite lookup_delete_ne]. destruct Ht'. split; [done|]. by rewrite <-(Hh _ Hk).
  - rewrite lookup_delete_ne by congruence. done.
Qed.

(** A holder keeps the lock until its lease ends, unless an event touches it. *)
Lemma lock_run_keeps s l s' k h x :
  lock_run s l s' → s.2 !! k = Some (h, x) → s'.1 < x → (∀ e, e ∈ l → ¬ touches k h e) → s'.2 !! k = Some (h, x).
Proof.
  induction 1 as [|s e s1 l s2 Hs Hl IH]; intros Hk Hx He; [done|]. apply IH; [|done|intros; apply He; by right].
  apply (lock_step_keeps _ _ _ _ _ _ Hs Hk); [pose proof (lock_run_clock _ _ _ Hl); lia|apply He; by left].
Qed.

Lemma foldl_delete_lookup (ks : list issue_key) (s : locks) k :
  foldl (λ m k, delete k m) s ks !! k = if bool_decide (k ∈ ks) then None else s !! k.
Proof.
  revert s. induction ks as [|k1 ks IH]; intros s; cbn [foldl]; [done|].
  rewrite IH. destruct (decide (k = k1)) as [->|Hne].
  - rewrite (bool_decide_eq_true_2 (k1 ∈ k1 :: ks)) by set_solver. case_bool_decide; [done|]. apply lookup_delete_eq.
  - rewrite lookup_delete_ne by done. by rewrite (bool_decide_ext (k ∈ k1 :: ks) (k ∈ ks)) by set_solver.
Qed.

Lemma force_run t (ks : list issue_key) s :
  lock_run (t, s) (Force <$> ks) (t, foldl (λ m k, delete k m) s ks).
Proof. revert s. induction ks as [|k ks IH]; intros s; simpl; [constructor|]. econstructor; [constructor|apply IH]. Qed.

(** ** The table seen as the lock *)

Definition live_lock (t : Z) (c : IssueClaimRecord) : option (holder * Z) :=
  if t <? cl_ExpiresAt c then Some (cl_WorkerID c, cl_ClaimToken c, cl_ExpiresAt c) else None.

Definition abs (t : Z) (d : DB) : locks := omap (live_lock t) (db_claims d).

(** Expiry times are written in whole seconds. *)
Definition claims_wf (d : DB) : Prop := map_Forall (λ _ c, trunc_sec (cl_ExpiresAt c) = cl_ExpiresAt c) (db_claims d).

(** The end of a lease that is granted now. *)
Definition lease_end (E : Env) (lease : Z) : Z := trunc_sec (e_now E + claim_lease lease).

(** One operation on the table, at a clock that does not run backwards, with
    the events its answer announces; other components leave the table alone. *)
Inductive store_step (t : Z) (d : DB) : list lock_event → Z → DB → Prop :=
  | ss_acquire E repo n w lease a d' :
      t ≤ e_now E → AcquireIssueClaim E repo n w lease d = (Ok a, d') →
      store_step t d [if ar_Extended a then Extend (repo, n) (w, ar_ClaimToken a) (e_now E) (lease_end E lease)
                      else Acquire (repo, n) (w, ar_ClaimToken a) (e_now E) (lease_end E lease)] (e_now E) d'
  | ss_refused E repo n w lease e d' :
      t ≤ e_now E → AcquireIssueClaim E repo n w lease d = (Err e, d') → store_step t d [] (e_now E) d'
  | ss_release E repo n w tok r d' :
      t ≤ e_now E → ReleaseIssueClaim E repo n w tok d = (r, d') →
      store_step t d (if bool_decide (r = Ok true) then [Release (repo, n) (w, tok)] else []) (e_now E) d'
  | ss_refresh E repo n w tok lease r d' :
      t ≤ e_now E → RefreshIssueClaim E repo n w tok lease d = (r, d') →
      store_step t d (if bool_decide (r = Ok true) then [Extend (repo, n) (w, tok) (e_now E) (lease_end E lease)] else []) (e_now E) d'
  | ss_delete E repo n r d' :
      t ≤ e_now E → DeleteIssueClaim E repo n d = (r, d') →
      store_step t d (if is_err r then [] else [Force (repo, n)]) (e_now E) d'
  | ss_sweep E pid r d' :
      t ≤ e_now E → DeleteStaleCoordinatorIssueClaims E pid d = (r, d') →
      store_step t d (Force <$> (map_to_list (db_claims d ∖ db_claims d')).*1) (e_now E) d'
  | ss_other t' d' : t ≤ t' → db_claims d' = db_claims d → store_step t d [] t' d'.

Inductive store_run : Z → DB → list lock_event → Z → DB → Prop :=
  | sr_nil t d : store_run t d [] t d
  | sr_step t d l t1 d1 l' t2 d2 :
      store_step t d l t1 d1 → store_run t1 d1 l' t2 d2 → store_run t d (l ++ l') t2 d2.

(** ** The simulation *)

Lemma abs_lookup t d k : abs t d !! k = db_claims d !! k ≫= live_lock t.
Proof. apply lookup_omap. Qed.

Lemma abs_same t d d' : db_claims d' = db_claims d → abs t d' = abs t d.
Proof. unfold abs. by intros ->. Qed.

Lemma abs_later t t' d : t ≤ t' → alive t' (abs t d) = abs t' d.
Proof.
  intros Ht. apply map_eq. intros k. unfold alive. rewrite lookup_omap, !abs_lookup.
  destruct (db_claims d !! k) as [c|]; [|done]. simpl. unfold live_lock.
  destruct (Z.ltb_spec t (cl_ExpiresAt c)), (Z.ltb_spec t' (cl_ExpiresAt c)) as [Hx|Hx]; simpl; try lia; try done.
  - by rewrite (proj2 (Z.ltb_lt _ _) Hx).
  - by rewrite (proj2 (Z.ltb_ge _ _) Hx).
Qed.

Lemma abs_put t d d' k w tok at_ x :
  db_claims d' = <[k := mkClaim w tok at_ x]> (db_claims d) → abs t d' = lease_to t k (w, tok) x (abs t d).
Proof.
  intros Hd. apply map_eq. intros k'. rewrite abs_lookup, Hd. destruct (decide (k = k')) as [<-|Hne].
  - rewrite lookup_insert_eq. simpl. unfold live_lock, lease_to. simpl. destruct (t <? x); [by rewrite lookup_insert_eq|by rewrite lookup_delete_eq].
  - rewrite lookup_insert_ne, lease_to_ne by done. by rewrite abs_lookup.
Qed.

Lemma abs_delete t d k : abs t (upd_db_claims (base.delete k) d) = base.delete k (abs t d).
Proof. apply omap_delete. Qed.

(** With whole seconds in the table, comparing with the whole second of the
    clock is comparing with the clock. *)
Lemma whole_second_live t x : trunc_sec x = x → (trunc_sec t <? x) = (t <? x).
Proof.
  intros Hx. pose proof (trunc_sec_bounds t). unfold trunc_sec, second in *.
  pose proof (Z.div_mod x 1000000000). pose proof (Z.div_mod t 1000000000).
  destruct (Z.ltb_spec t x), (Z.ltb_spec (t - t mod 1000000000) x); try done; nia.
Qed.

Lemma wf_same d d' : db_claims d' = db_claims d → claims_wf d → claims_wf d'.
Proof. unfold claims_wf. by intros ->. Qed.

Lemma wf_put d d' k w tok at_ x :
  db_claims d' = <[k := mkClaim w tok at_ (trunc_sec x)]> (db_claims d) → claims_wf d → claims_wf d'.
Proof. unfold claims_wf. intros -> H. apply map_Forall_insert_2; [apply trunc_sec_idem|done]. Qed.

Lemma wf_shrink d d' : db_claims d' ⊆ db_claims d → claims_wf d → claims_wf d'.
Proof. intros Hs H k c Hk. apply (H k). by eapply lookup_weaken. Qed.

Definition simulated (t : Z) (d : DB) (l : list lock_event) (t' : Z) (d' : DB) : Prop :=
  claims_wf d' ∧ ∃ evs, lock_run (t, abs t d) evs (t', abs t' d') ∧ List.filter visible evs = l.

Lemma simulate t d l t' d' :
  t ≤ t' → claims_wf d' → lock_run (t', abs t' d) l (t', abs t' d') → forallb visible l = true →
  simulated t d l t' d'.
Proof.
  intros Ht Hwf Hl Hv. split; [done|]. exists (Tick t' :: l). split.
  - econstructor; [by constructor|]. by rewrite abs_later.
  - simpl. clear -Hv. induction l as [|e l IH]; simpl in *; [done|]. apply andb_true_iff in Hv as [-> Hv]. by rewrite IH.
Qed.

Lemma simulate_silent t d t' d' : t ≤ t' → claims_wf d → db_claims d' = db_claims d → simulated t d [] t' d'.
Proof.
  intros Ht Hwf Hd. apply simulate; [done|by eapply wf_same| |done]. rewrite (abs_same _ d d') by done. constructor.
Qed.

Lemma simulate_event t d e t' d' s :
  t ≤ t' → claims_wf d' → lock_step (t', abs t' d) e (t', s) → abs t' d' = s → visible e = true → simulated t d [e] t' d'.
Proof.
  intros Ht Hwf Hl <- Hv. apply simulate; [done..|econstructor; [exact Hl|constructor]|]. by simpl; rewrite Hv.
Qed.

Lemma simulate_acquire t d E repo n w lease a d' :
  claims_wf d → t ≤ e_now E → AcquireIssueClaim E repo n w lease d = (Ok a, d') →
  simulated t d [if ar_Extended a then Extend (repo, n) (w, ar_ClaimToken a) (e_now E) (lease_end E lease)
                 else Acquire (repo, n) (w, ar_ClaimToken a) (e_now E) (lease_end E lease)] (e_now E) d'.
Proof.
  intros Hwf Ht Ha.
  assert (TrimSpace w ≠ EmptyString) as Hw.
  { intros Hw. unfold AcquireIssueClaim in Ha. by rewrite bool_decide_eq_true_2 in Ha. }
  pose proof (acquire_post_holds E repo n w lease d Hw) as H. unfold wp in H. rewrite Ha in H.
  destruct H as [[at_ Hd] Hb]. cbn [fst snd] in *. assert (claims_wf d') as Hwf' by by eapply wf_put.
  pose proof (abs_put (e_now E) _ _ _ _ _ _ _ Hd) as Hs. fold (lease_end E lease) in Hs.
  pose proof (abs_lookup (e_now E) d (repo, n)) as Hl. unfold live_lock in Hl.
  destruct (db_claims d !! (repo, n)) as [c|]; simpl in Hl.
  - destruct (e_now E <? cl_ExpiresAt c).
    + destruct Hb as (<- & Htok & -> & _). rewrite Htok in *. eapply simulate_event; [done|done|by econstructor|done|done].
    + destruct Hb as (_ & _ & ->). eapply simulate_event; [done|done|by constructor|done|done].
  - destruct Hb as [-> _]. eapply simulate_event; [done|done|by constructor|done|done].
Qed.

Lemma refused_keeps_table E repo n w lease d e d' :
  AcquireIssueClaim E repo n w lease d = (Err e, d') → db_claims d' = db_claims d.
Proof.
  intros Ha. destruct (decide (TrimSpace w = EmptyString)) as [Hw|Hw].
  - unfold AcquireIssueClaim in Ha. rewrite bool_decide_eq_true_2 in Ha by done. by injection Ha as _ <-.
  - pose proof (acquire_post_holds E repo n w lease d Hw) as H. unfold wp in H. rewrite Ha in H. apply H.
Qed.

Lemma held_as_true w tok c : held_as w tok c = true → cl_WorkerID c = w ∧ cl_ClaimToken c = tok.
Proof. unfold held_as. by intros [?%bool_decide_eq_true ?%bool_decide_eq_true]%andb_prop. Qed.

Lemma simulate_release t d E repo n w tok r d' :
  claims_wf d → t ≤ e_now E → ReleaseIssueClaim E repo n w tok d = (r, d') →
  simulated t d (if bool_decide (r = Ok true) then [Release (repo, n) (w, tok)] else []) (e_now E) d'.
Proof.
  intros Hwf Ht. unfold ReleaseIssueClaim, wrapE, mbind, St_bind, sql.
  destruct (e_fault E (db_calls d)). { intros [= <- <-]. by apply simulate_silent. }
  destruct (db_claims d !! (repo, n)) as [c|] eqn:Hc; [|intros [= <- <-]; by apply simulate_silent].
  destruct (held_as w tok c) eqn:Hh; [|intros [= <- <-]; by apply simulate_silent]. intros [= <- <-].
  eapply simulate_event; [done| |apply lk_release|by rewrite <-abs_delete|done].
  - eapply wf_shrink; [|exact Hwf]. apply delete_subseteq.
  - apply held_as_true in Hh as [<- <-]. intros l. rewrite abs_lookup, Hc. simpl. unfold live_lock.
    destruct (_ <? _); [|done]. by intros [= <-].
Qed.

Lemma simulate_refresh t d E repo n w tok lease r d' :
  claims_wf d → t ≤ e_now E → RefreshIssueClaim E repo n w tok lease d = (r, d') →
  simulated t d (if bool_decide (r = Ok true) then [Extend (repo, n) (w, tok) (e_now E) (lease_end E lease)] else []) (e_now E) d'.
Proof.
  intros Hwf Ht. unfold RefreshIssueClaim, wrapE, mbind, St_bind, sql.
  destruct (e_fault E (db_calls d)). { intros [= <- <-]. by apply simulate_silent. }
  destruct (db_claims d !! (repo, n)) as [c|] eqn:Hc; [|intros [= <- <-]; by apply simulate_silent].
  rewrite whole_second_live by (by eapply Hwf).
  destruct (held_as w tok c && _) eqn:Hh; [|intros [= <- <-]; by apply simulate_silent]. intros [= <- <-].
  apply andb_prop in Hh as [[<- <-]%held_as_true Hx].
  eapply simulate_event; [done|by eapply wf_put| |by eapply abs_put|done].
  eapply lk_extend. rewrite abs_lookup, Hc. simpl. unfold live_lock. by rewrite Hx.
Qed.

Lemma simulate_delete t d E repo n r d' :
  claims_wf d → t ≤ e_now E → DeleteIssueClaim E repo n d = (r, d') →
  simulated t d (if is_err r then [] else [Force (repo, n)]) (e_now E) d'.
Proof.
  intros Hwf Ht. unfold DeleteIssueClaim, wrapE, mbind, St_bind, sql.
  destruct (e_fault E (db_calls d)); intros [= <- <-]; [by apply simulate_silent|].
  eapply simulate_event; [done| |apply lk_force|by rewrite <-abs_delete|done].
  eapply wf_shrink; [|exact Hwf]. apply delete_subseteq.
Qed.

Definition shrinks : relation DB := λ d d', db_claims d' ⊆ db_claims d.

#[export] Instance shrinks_preorder : PreOrder shrinks.
Proof.
  unfold shrinks. split; [intros d; reflexivity|]. intros d1 d2 d3 H1 H2. etrans; [exact H2|exact H1].
Qed.

Lemma shrinks_call d : shrinks d (upd_db_call d).
Proof. unfold shrinks. reflexivity. Qed.

Lemma sweep_shrinks E pid : keeps shrinks (DeleteStaleCoordinatorIssueClaims E pid).
Proof.
  unfold DeleteStaleCoordinatorIssueClaims, DeleteIssueClaim. keep_auto.
  - apply keeps_sql_query, shrinks_call.
  - apply keeps_sql; [apply shrinks_call|]. intros d. apply delete_subseteq.
Qed.

Lemma simulate_sweep t d E pid r d' :
  claims_wf d → t ≤ e_now E → DeleteStaleCoordinatorIssueClaims E pid d = (r, d') →
  simulated t d (Force <$> (map_to_list (db_claims d ∖ db_claims d')).*1) (e_now E) d'.
Proof.
  intros Hwf Ht Hr. pose proof (sweep_shrinks E pid d) as Hs. rewrite Hr in Hs. unfold shrinks in Hs. simpl in Hs.
  apply simulate; [done|by eapply wf_shrink| |by apply forallb_forall; intros ? (? & <- & _)%in_map_iff].
  set (ks := (map_to_list _).*1). assert (abs (e_now E) d' = foldl (λ m k, delete k m) (abs (e_now E) d) ks) as ->; [|apply force_run].
  apply map_eq. intros k. rewrite foldl_delete_lookup, !abs_lookup.
  assert (k ∈ ks ↔ is_Some (db_claims d !! k) ∧ db_claims d' !! k = None) as Hk.
  { unfold ks. rewrite list_elem_of_fmap. split.
    - intros ((k' & c') & -> & [? ?]%elem_of_map_to_list%lookup_difference_Some). by split; [exists c'|].
    - intros [[c Hc] Hn]. exists (k, c). split; [done|]. by apply elem_of_map_to_list, lookup_difference_Some. }
  case_bool_decide as Hin.
  - apply Hk in Hin as [_ ->]. done.
  - destruct (db_claims d' !! k) as [c|] eqn:Hc; [by rewrite (lookup_weaken _ _ _ _ Hc Hs)|].
    destruct (db_claims d !! k); [|done]. by destruct Hin; apply Hk.
Qed.

Lemma store_step_simulated t d l t' d' : claims_wf d → store_step t d l t' d' → simulated t d l t' d'.
Proof.
  intros Hwf []; [by eapply simulate_acquire| |by eapply simulate_release|by eapply simulate_refresh
    |by eapply simulate_delete|by eapply simulate_sweep|by apply simulate_silent].
  apply simulate_silent; [done..|]. by eapply refused_keeps_table.
Qed.

Lemma store_run_simulated t d l t' d' : claims_wf d → store_run t d l t' d' → simulated t d l t' d'.
Proof.
  intros Hwf Hr. induction Hr as [t d|t d l t1 d1 l' t2 d2 Hs _ IH].
  - split; [done|]. exists []. split; [constructor|done].
  - destruct (store_step_simulated _ _ _ _ _ Hwf Hs) as (Hwf1 & evs & Hl & He).
    destruct (IH Hwf1) as (Hwf2 & evs' & Hl' & He'). split; [done|]. exists (evs ++ evs').
    split; [by eapply lock_run_app|]. by rewrite List.filter_app, He, He'.
Qed.

(** C3: The claim table implements a lease lock with a clock: any sequence of acquisitions,
    releases, refreshes, operator deletions and coordinator sweeps, with any statements
    failing and the clock moving forward, is a run of the abstract lock, in which a lock
    that is held is granted to nobody else before its lease ends; the visible events are
    exactly the ones the answers announce, a grant with its time and the end of its lease,
    and the rest is the clock.  So a holder whose lease has not ended still holds the lock
    with that end, unless it released or extended it or the claim was deleted by force. *)
Theorem claim_store_refines_lock t d l t' d' :
  claims_wf d → store_run t d l t' d' →
  claims_wf d' ∧
  (∃ evs, lock_run (t, abs t d) evs (t', abs t' d') ∧ List.filter visible evs = l) ∧
  ∀ k h x, abs t d !! k = Some (h, x) → t' < x → (∀ e, e ∈ l → ¬ touches k h e) → abs t' d' !! k = Some (h, x).
Proof.
  intros Hwf Hr. destruct (store_run_simulated _ _ _ _ _ Hwf Hr) as (Hwf' & evs & Hl & He).
  split_and!; [done|by exists evs|]. intros k h x Hk Hx Ht. apply (lock_run_keeps _ _ _ _ _ _ Hl Hk Hx).
  intros e Hin Hto. destruct (visible e) eqn:Hv; [|by destruct e].
  apply (Ht e); [|done]. rewrite <-He. by apply list_elem_of_In, filter_In; split; [apply list_elem_of_In|].
Qed.

Definition claimed_a : DB := (AcquireIssueClaim (claim_env 0) "o/r" 1 "worker-a" (30 * second) empty_db).2.
Definition handed_over : DB := (AcquireIssueClaim (claim_env (40 * second)) "o/r" 1 "worker-b" (30 * second) claimed_a).2.

(** A lease runs out and another worker takes the issue. *)
Lemma claim_store_refines_lock_witness :
  claims_wf handed_over ∧
  ∃ evs, lock_run (0, abs 0 empty_db) evs (40 * second, abs (40 * second) handed_over) ∧
    List.filter visible evs = [Acquire ("o/r", 1) ("worker-a", "0") 0 (30 * second);
                               Acquire ("o/r", 1) ("worker-b", "1") (40 * second) (70 * second)].
Proof.
  assert (store_run 0 empty_db [Acquire ("o/r", 1) ("worker-a", "0") 0 (30 * second);
    Acquire ("o/r", 1) ("worker-b", "1") (40 * second) (70 * second)] (40 * second) handed_over) as Hr.
  { eapply (sr_step 0 empty_db [_] 0 _ [_]).
    - apply (ss_acquire 0 _ (claim_env 0) "o/r" 1 "worker-a" (30 * second) (mkAcquire "0" false false EmptyString) claimed_a); [done|].
      vm_compute. reflexivity.
    - eapply (sr_step _ _ [_] _ _ []); [|constructor].
      apply (ss_acquire _ _ (claim_env (40 * second)) "o/r" 1 "worker-b" (30 * second) (mkAcquire "1" false true "worker-a") handed_over).
      + vm_compute. discriminate.
      + vm_compute. reflexivity. }
  destruct (claim_store_refines_lock 0 empty_db _ _ _ (map_Forall_empty _) Hr) as (Hwf & He & _).
  split; [exact Hwf|exact He].
Defined.
