(* ===== verification/StoreIssue.v ===== *)
(** * Per-issue tables of the store

    The parts of [internal/store] that keep what the orchestrator knows about
    an issue: transition and cycle counters, workflow instances and their
    history, pipeline hazards, the issue cache with its trace ids, the
    dependency tables, and the workers table. *)

From S2P Require Import Prelude GoLib Json Types DB TaskQueue.
From Stdlib Require Import Ascii.

(** ** Transition counts *)

Definition IncrementTransition (E : Env) (repo : string) (issueNum : Z) (fromState toState : string) :
    St DB (res Z) :=
  let k := (repo, issueNum, fromState, toState) in
  wrapE "store: increment transition" (sql E (λ d,
    let count := default 0 (db_transitions d !! k) + 1 in
    (count, upd_db_transitions (<[k := count]>) d))).

Definition QueryTransitionCounts (E : Env) (repo : string) (issueNum : Z) :
    St DB (res (list (string * string * Z))) :=
  wrapE "store: query transition counts" (sql_query E (λ d,
    omap (λ p : string * Z * string * string * Z,
            let '(r, n, from, to, c) := p in
            if bool_decide (r = repo) && bool_decide (n = issueNum) then Some (from, to, c) else None)
         (map_to_list (db_transitions d)))).

(** ** Cycle state *)

(** The row an upsert starts from. *)
Definition cycle_row (d : DB) (k : string * Z) : IssueCycleState :=
  default (mkCycle 0 0 0 None None None None) (db_cycles d !! k).

(** The counter columns. *)
Inductive cycle_column := dev_review_cycle_count | synth_cycle_count | total_transitions.

Definition cycle_get (c : cycle_column) (r : IssueCycleState) : Z :=
  match c with
  | dev_review_cycle_count => cy_DevReviewCycleCount r
  | synth_cycle_count => cy_SynthCycleCount r
  | total_transitions => cy_TotalTransitions r
  end.
Definition cycle_incr (c : cycle_column) (now : Z) (r : IssueCycleState) : IssueCycleState :=
  let '(mkCycle dev synth total first cap scap _) := r in
  match c with
  | dev_review_cycle_count => mkCycle (dev + 1) synth total first cap scap (Some now)
  | synth_cycle_count => mkCycle dev (synth + 1) total first cap scap (Some now)
  | total_transitions => mkCycle dev synth (total + 1) first cap scap (Some now)
  end.

Definition incrementCycleCount (E : Env) (repo : string) (issueNum : Z) (column : cycle_column) :
    St DB (res Z) :=
  wrapE "store: increment cycle count" (sql E (λ d,
    let r := cycle_incr column (sql_now E) (cycle_row d (repo, issueNum)) in
    (cycle_get column r, upd_db_cycles (<[(repo, issueNum) := r]>) d))).

Definition IncrementDevReviewCycleCount (E : Env) (repo : string) (issueNum : Z) : St DB (res Z) :=
  incrementCycleCount E repo issueNum dev_review_cycle_count.
Definition IncrementSynthCycleCount (E : Env) (repo : string) (issueNum : Z) : St DB (res Z) :=
  incrementCycleCount E repo issueNum synth_cycle_count.
Definition IncrementTotalTransitionCount (E : Env) (repo : string) (issueNum : Z) : St DB (res Z) :=
  incrementCycleCount E repo issueNum total_transitions.

(** [COALESCE(first_dispatch_at, CURRENT_TIMESTAMP)]. *)
Definition TouchIssueFirstDispatch (E : Env) (repo : string) (issueNum : Z) : St DB (res unit) :=
  wrapE "store: touch issue first_dispatch_at" (sql E (λ d,
    let '(mkCycle dev synth total first cap scap _) := cycle_row d (repo, issueNum) in
    (tt, upd_db_cycles (<[(repo, issueNum) :=
           mkCycle dev synth total (Some (default (sql_now E) first)) cap scap (Some (sql_now E))]>) d))).

(** The cap-hit columns: [false] for [cap_hit_at], [true] for [synth_cap_hit_at]. *)
Definition markIssueCapHit (E : Env) (repo : string) (issueNum : Z) (synth : bool) : St DB (res unit) :=
  let stamp (a : option Z) := Some (default (sql_now E) a) in
  wrapE "store: mark issue cap hit" (sql E (λ d,
    let '(mkCycle dev syn total first cap scap _) := cycle_row d (repo, issueNum) in
    (tt, upd_db_cycles (<[(repo, issueNum) :=
           mkCycle dev syn total first (if synth then cap else stamp cap)
             (if synth then stamp scap else scap) (Some (sql_now E))]>) d))).

Definition MarkIssueCycleCapHit (E : Env) (repo : string) (issueNum : Z) : St DB (res unit) :=
  markIssueCapHit E repo issueNum false.
Definition MarkIssueSynthCycleCapHit (E : Env) (repo : string) (issueNum : Z) : St DB (res unit) :=
  markIssueCapHit E repo issueNum true.

Definition QueryIssueCycleState (E : Env) (repo : string) (issueNum : Z) :
    St DB (res (option IssueCycleState)) :=
  wrapE "store: query issue cycle state" (sql_query E (λ d, db_cycles d !! (repo, issueNum))).

Definition ResetIssueCycleState (E : Env) (repo : string) (issueNum : Z) : St DB (res unit) :=
  wrapE "store: reset issue cycle state" (sql E (λ d,
    (tt, upd_db_cycles (base.delete (repo, issueNum)) d))).

(** ** Workflow instances *)

Definition inst_key (workflow repo : string) (issueNum : Z) (r : WorkflowInstanceRow) : bool :=
  bool_decide (wi_Repo r = repo) && bool_decide (wi_IssueNum r = issueNum)
  && bool_decide (wi_WorkflowName r = workflow).

(** [ON CONFLICT (repo, issue_num, workflow_name) DO NOTHING]; a second row with
    the same primary key is an error. *)
Definition CreateWorkflowInstanceIfMissing (E : Env) (id workflowName repo : string) (issueNum : Z)
    (currentState : string) : St DB (res unit) :=
  wrapE "store: create workflow instance" (sql_tx E (λ d,
    if existsb (inst_key workflowName repo issueNum) (db_instances d) then (Ok tt, d)
    else if existsb (λ r, bool_decide (wi_ID r = id)) (db_instances d) then (Err (ErrSQL false), d)
    else (Ok tt, upd_db_instances (λ l, l ++
            [mkInst id workflowName repo issueNum currentState (sql_now E) (sql_now E)]) d))).

(** The store is opened with [foreign_keys(1)] and a transition references its
    instance, so without one the INSERT fails and the transaction is rolled back
    before the UPDATE can match no row. *)
Definition AdvanceWorkflowInstance (E : Env) (id fromState toState triggerAgent : string) (at_ : Z) :
    St DB (res unit) :=
  let ts := trunc_sec at_ in
  sql_tx E (λ d,
    if existsb (λ r, bool_decide (wi_ID r = id)) (db_instances d) then
      (Ok tt,
       upd_db_instances (fmap (λ r, if bool_decide (wi_ID r = id)
           then mkInst (wi_ID r) (wi_WorkflowName r) (wi_Repo r) (wi_IssueNum r) toState (wi_CreatedAt r) ts
           else r))
         (upd_db_history (λ h, h ++ [mkWTrans id fromState toState triggerAgent ts]) d))
    else (Err (EWrap "store: insert workflow transition" (ErrSQL false)), d)).

Definition inst_le (a b : WorkflowInstanceRow) : bool :=
  (wi_CreatedAt a <? wi_CreatedAt b) ||
  ((wi_CreatedAt a =? wi_CreatedAt b) && String.leb (wi_ID a) (wi_ID b)).

Definition QueryWorkflowInstancesByRepoIssue (E : Env) (repo : string) (issueNum : Z) :
    St DB (res (list WorkflowInstanceRow)) :=
  wrapE "store: query workflow instances" (sql_query E (λ d,
    sort_by inst_le (List.filter (λ r, bool_decide (wi_Repo r = repo)
                                       && bool_decide (wi_IssueNum r = issueNum)) (db_instances d)))).

Definition GetWorkflowInstanceByID (E : Env) (id : string) : St DB (res WorkflowInstanceRow) :=
  r ←! wrapE "store: get workflow instance" (sql_query E (λ d,
         List.find (λ r, bool_decide (wi_ID r = id)) (db_instances d)));
  mret match r with Some i => Ok i | None => Err ErrWorkflowInstanceNotFound end.

(** [ORDER BY created_at ASC, id ASC]: rows are stored in id order and the sort is stable. *)
Definition QueryWorkflowTransitions (E : Env) (instanceID : string) :
    St DB (res (list WorkflowTransitionRow)) :=
  wrapE "store: query workflow transitions" (sql_query E (λ d,
    sort_by (λ a b, wt_CreatedAt a <=? wt_CreatedAt b)
      (List.filter (λ r, bool_decide (wt_InstanceID r = instanceID)) (db_history d)))).

(** ** Pipeline hazards *)

Definition QueryIssuePipelineHazard (E : Env) (repo : string) (issueNum : Z) :
    St DB (res (option PipelineHazard)) :=
  wrapE "store: query issue pipeline hazard" (sql_query E (λ d, db_hazards d !! (repo, issueNum))).

Definition same_hazard (kind fingerprint : string) (h : PipelineHazard) : bool :=
  bool_decide (hz_Kind h = kind) && bool_decide (hz_Fingerprint h = fingerprint).

Definition UpsertIssuePipelineHazard (E : Env) (repo : string) (issueNum : Z) (kind fingerprint : string) :
    St DB (res bool) :=
  prev ←! QueryIssuePipelineHazard E repo issueNum;
  _ ←! wrapE "store: upsert issue pipeline hazard" (sql E (λ d,
    let now := trunc_sec (e_now E) in
    let at_ := match db_hazards d !! (repo, issueNum) with
               | Some h => if same_hazard kind fingerprint h then hz_DetectedAt h else now
               | None => now
               end in
    (tt, upd_db_hazards (<[(repo, issueNum) := mkHazard kind fingerprint at_]>) d)));
  mret (Ok match prev with
           | None => true
           | Some h => negb (same_hazard kind fingerprint h)
           end).

(** [ORDER BY repo, issue_num]; each hazard with its issue. *)
Definition hazard_le (a b : (string * Z) * PipelineHazard) : bool :=
  if bool_decide (a.1.1 = b.1.1) then a.1.2 <=? b.1.2 else String.leb a.1.1 b.1.1.
Definition ListIssuePipelineHazards (E : Env) (repo : string) : St DB (res (list ((string * Z) * PipelineHazard))) :=
  wrapE "store: list issue pipeline hazards" (sql_query E (λ d,
    sort_by hazard_le
      (List.filter (λ h, bool_decide (repo = EmptyString) || bool_decide (h.1.1 = repo)) (map_to_list (db_hazards d))))).

Definition ClearIssuePipelineHazard (E : Env) (repo : string) (issueNum : Z) : St DB (res unit) :=
  wrapE "store: clear issue pipeline hazard" (sql E (λ d,
    (tt, upd_db_hazards (base.delete (repo, issueNum)) d))).

(** ** Issue cache *)

Definition getRootTraceID (E : Env) (repo : string) (num : Z) : St DB (res string) :=
  wrapE "store: get root_trace_id" (sql_query E (λ d,
    from_option ic_RootTraceID EmptyString (db_cache d !! (repo, num)))).

Definition GetPRRootTraceID (E : Env) (repo : string) (prNum : Z) : St DB (res string) :=
  tid ←! getRootTraceID E repo prNum;
  if negb (bool_decide (tid = EmptyString)) then mret (Ok tid)
  else
    r ← sql_query E (λ d, ic_ParentIssueNum <$> db_cache d !! (repo, prNum));
    match r with
    | Err _ | Ok None => mret (Ok EmptyString)
    | Ok (Some parent) =>
        if parent <=? 0 then mret (Ok EmptyString) else getRootTraceID E repo parent
    end.

(** The trace id of a new row: the parent's when it has one, else a fresh one. *)
Definition cache_trace (E : Env) (repo : string) (parent : Z) : St DB string :=
  p ← (if 0 <? parent then
         r ← getRootTraceID E repo parent;
         mret (match r with Ok t => t | Err _ => EmptyString end)
       else mret EmptyString);
  if bool_decide (p = EmptyString) then random E else mret p.

Definition UpsertIssueCache (E : Env) (ic : IssueCache) : St DB (res unit) :=
  traceID ← cache_trace E (ic_Repo ic) (ic_ParentIssueNum ic);
  wrapE "store: upsert issue cache" (sql E (λ d,
    let k := (ic_Repo ic, ic_IssueNum ic) in
    let row :=
      match db_cache d !! k with
      | None => mkCache (ic_Repo ic) (ic_IssueNum ic) (ic_Labels ic) (ic_Body ic) (ic_State ic)
                  (Some (sql_now E)) (ic_ParentIssueNum ic) traceID
      | Some old => mkCache (ic_Repo ic) (ic_IssueNum ic) (ic_Labels ic) (ic_Body ic) (ic_State ic)
                      (Some (sql_now E))
                      (if 0 <? ic_ParentIssueNum ic then ic_ParentIssueNum ic else ic_ParentIssueNum old)
                      (ic_RootTraceID old)
      end in
    (tt, upd_db_cache (<[k := row]>) d))).

(** [state LIKE 'pr:%'], which ignores the case of ASCII letters. *)
Definition is_pr_state (state : string) : bool := HasPrefix (ToLower state) "pr:".

Definition ListCachedIssueNums (E : Env) (repo : string) : St DB (res (list Z)) :=
  wrapE "store: list cached issue nums" (sql_query E (λ d,
    omap (λ p : string * Z * IssueCache,
            if bool_decide (p.1.1 = repo) && negb (is_pr_state (ic_State p.2)) then Some p.1.2 else None)
         (map_to_list (db_cache d)))).

Definition DeleteIssueCache (E : Env) (repo : string) (issueNum : Z) : St DB (res unit) :=
  wrapE "store: delete issue cache" (sql E (λ d,
    (tt, upd_db_cache (base.delete (repo, issueNum)) d))).

(** The columns the SELECT names. *)
Definition scan_cache (ic : IssueCache) : IssueCache :=
  mkCache (ic_Repo ic) (ic_IssueNum ic) (ic_Labels ic) (ic_Body ic) (ic_State ic) (ic_UpdatedAt ic)
    0 EmptyString.

Definition QueryIssueCache (E : Env) (repo : string) (issueNum : Z) : St DB (res (option IssueCache)) :=
  wrapE "store: query issue cache" (sql_query E (λ d, scan_cache <$> db_cache d !! (repo, issueNum))).

Definition cache_le (a b : IssueCache) : bool :=
  if bool_decide (ic_Repo a = ic_Repo b) then ic_IssueNum a <=? ic_IssueNum b
  else String.leb (ic_Repo a) (ic_Repo b).

Definition ListIssueCaches (E : Env) (repo : string) : St DB (res (list IssueCache)) :=
  wrapE "store: list issue caches" (sql_query E (λ d,
    sort_by cache_le
      (scan_cache <$>
         List.filter (λ ic, (bool_decide (repo = EmptyString) || bool_decide (ic_Repo ic = repo))
                            && negb (is_pr_state (ic_State ic)))
           (map_to_list (db_cache d)).*2))).

(** ** Dependencies *)

Definition dep_row : Type := string * Z * string * Z * IssueDependency.

Definition ReplaceIssueDependencies (E : Env) (repo : string) (issueNum : Z) (deps : list dep_row) :
    St DB (res unit) :=
  wrapE "store: replace issue dependencies" (sql E (λ d,
    let removed := map_imap (λ (k : string * Z * string * Z) dep,
      if bool_decide (k.1.1 = (repo, issueNum)) && negb (bool_decide (dep_Status dep = DependencyStatusRemoved))
      then Some (mkDep (dep_SourceHash dep) DependencyStatusRemoved) else Some dep) (db_deps d) in
    (tt, upd_db_deps (λ _, foldl (λ m (p : dep_row), <[p.1 := p.2]> m) removed deps) d))).

Definition dep_le (a b : dep_row) : bool :=
  if bool_decide (a.1.1.2 = b.1.1.2) then a.1.2 <=? b.1.2 else String.leb a.1.1.2 b.1.1.2.

Definition ListIssueDependencies (E : Env) (repo : string) (issueNum : Z) : St DB (res (list dep_row)) :=
  wrapE "store: list issue dependencies" (sql_query E (λ d,
    sort_by dep_le (List.filter (λ p : dep_row, bool_decide (p.1.1.1 = (repo, issueNum)))
                      (map_to_list (db_deps d))))).

(** The upsert keeps [last_reaction_blocked] of an existing row. *)
Definition UpsertIssueDependencyState (E : Env) (state : IssueDependencyState) : St DB (res unit) :=
  wrapE "store: upsert issue dependency state" (sql E (λ d,
    let k := (ds_Repo state, ds_IssueNum state) in
    let reaction := from_option ds_LastReactionBlocked (ds_LastReactionBlocked state) (db_depstate d !! k) in
    (tt, upd_db_depstate (<[k :=
           mkDepState (ds_Repo state) (ds_IssueNum state) (ds_Verdict state) (ds_ResumeLabel state)
             (ds_BlockedReasonHash state) (ds_OverrideActive state) (ds_GraphVersion state) reaction
             (Some (sql_now E))]>) d))).

Definition MarkDependencyReactionApplied (E : Env) (repo : string) (issueNum : Z) (blocked : bool) :
    St DB (res unit) :=
  wrapE "store: mark dependency reaction applied" (sql E (λ d,
    (tt, upd_db_depstate (alter (λ s,
           mkDepState (ds_Repo s) (ds_IssueNum s) (ds_Verdict s) (ds_ResumeLabel s)
             (ds_BlockedReasonHash s) (ds_OverrideActive s) (ds_GraphVersion s) blocked
             (ds_LastEvaluatedAt s)) (repo, issueNum)) d))).

Definition QueryIssueDependencyState (E : Env) (repo : string) (issueNum : Z) :
    St DB (res (option IssueDependencyState)) :=
  wrapE "store: query issue dependency state" (sql_query E (λ d, db_depstate d !! (repo, issueNum))).

Definition DeleteIssueDependencyState (E : Env) (repo : string) (issueNum : Z) : St DB (res bool) :=
  wrapE "store: delete issue dependency state" (sql E (λ d,
    (bool_decide (is_Some (db_depstate d !! (repo, issueNum))),
     upd_db_depstate (base.delete (repo, issueNum)) d))).

(** ** Workers *)

Definition InsertWorker (E : Env) (w : WorkerRecord) : St DB (res unit) :=
  let repos := if is_blank (w_ReposJSON w) then "[]" else w_ReposJSON w in
  wrapE "store: insert worker" (sql E (λ d,
    let registered := from_option w_RegisteredAt (Some (sql_now E)) (db_workers d !! w_ID w) in
    (tt, upd_db_workers (<[w_ID w :=
           mkWorker (w_ID w) (w_Repo w) repos (w_Roles w) (w_Runtime w) (w_Hostname w) (w_MgmtBaseURL w)
             (w_AuditURL w) (w_Tunnel w) (w_Status w) (Some (sql_now E)) registered]>) d))).

Definition jsonArrayContains (raw want : string) : bool :=
  if is_blank want then false
  else match unmarshal_strings raw with
       | Some (Some values) => bool_decide (want ∈ values)
       | _ => false
       end.

Definition QueryWorkers (E : Env) (repo : string) : St DB (res (list WorkerRecord)) :=
  wrapE "store: query workers" (sql_query E (λ d,
    List.filter (λ w, bool_decide (repo = EmptyString) || bool_decide (w_Repo w = repo)
                      || jsonArrayContains (w_ReposJSON w) repo)
      (sort_by (λ a b, String.leb (w_ID a) (w_ID b)) (map_to_list (db_workers d)).*2))).

Definition GetWorker (E : Env) (workerID : string) : St DB (res (option WorkerRecord)) :=
  wrapE "store: get worker" (sql_query E (λ d, db_workers d !! workerID)).

(** An UPDATE of one worker row that must exist. *)
Definition update_worker (E : Env) (op workerID : string) (f : WorkerRecord → WorkerRecord) :
    St DB (res unit) :=
  found ←! wrapE op (sql E (λ d,
             (bool_decide (is_Some (db_workers d !! workerID)),
              upd_db_workers (alter f workerID) d)));
  mret (if (found : bool) then Ok tt else Err (EWrap op ErrWorkerNotFound)).

Definition UpdateWorkerHeartbeat (E : Env) (workerID : string) : St DB (res unit) :=
  update_worker E "store: update worker heartbeat" workerID (upd_w_LastHeartbeat (λ _, Some (sql_now E))).

Definition UpdateWorkerStatus (E : Env) (workerID status : string) : St DB (res unit) :=
  update_worker E "store: update worker status" workerID (upd_w_Status (λ _, status)).

Definition DeleteWorker (E : Env) (workerID : string) : St DB (res bool) :=
  wrapE "store: delete worker" (sql E (λ d,
    (bool_decide (is_Some (db_workers d !! workerID)),
     upd_db_tokens (base.delete workerID) (upd_db_workers (base.delete workerID) d)))).
