(* ===== verification/StoreAdmin.v ===== *)
(** * Events, registrations, sessions and worker tokens

    The remaining tables of [internal/store]: the event log, repository
    registrations, sessions and their routes, worker tokens
    ([worker_tokens.go]), the queries of [queries.go] and [typed_helpers.go] over
    them, and the worker registry ([internal/registry/registry.go]) on top.

    On a coordinator the [sessions] table does not exist ([coordinatorMode]): the
    queries that know it return nothing, the other statements fail. *)

From S2P Require Import Prelude GoLib Json Sha256 GoText Types DB TaskQueue StoreIssue.
From Stdlib Require Import Ascii.

(** ** Events *)

Definition insert_event_row (E : Env) (ty repo : string) (issueNum : Z) (payload : string) (d : DB) : Z * DB :=
  let id := Z.of_nat (length (db_events d)) + 1 in
  (id, upd_db_events (λ l, l ++ [mkEventRow id (sql_now E) ty repo issueNum payload]) d).
(** A busy error is retried, at most [n] times after the first. *)
Fixpoint insert_event_loop (E : Env) (n : nat) (ty repo : string) (issueNum : Z) (payload : string) : St DB (res Z) :=
  r ← sql E (insert_event_row E ty repo issueNum payload);
  match r, n with
  | Ok id, _ => mret (Ok id)
  | Err e, S n => if IsBusyError e then insert_event_loop E n ty repo issueNum payload else mret (Err e)
  | Err e, O => mret (Err e)
  end.
Definition InsertEvent (E : Env) (ty repo : string) (issueNum : Z) (payload : string) : St DB (res Z) :=
  wrapE "store: insert event" (insert_event_loop E 3 ty repo issueNum payload).

Definition QueryEvents (E : Env) (repo : string) : St DB (res (list EventRow)) :=
  wrapE "store: query events" (sql_query E (λ d,
    List.filter (λ e, bool_decide (repo = EmptyString) || bool_decide (er_Repo e = repo)) (db_events d))).

Record EventQueryFilter := mkEventFilter {
  ef_Since : option Z;
  ef_Until : option Z;
  ef_Type : string;
  ef_Repo : string;
  ef_IssueNum : Z
}.
Definition event_matches (f : EventQueryFilter) (e : EventRow) : bool :=
  (bool_decide (ef_Repo f = EmptyString) || bool_decide (er_Repo e = ef_Repo f))
  && (bool_decide (ef_Type f = EmptyString) || bool_decide (er_Type e = ef_Type f))
  && ((ef_IssueNum f =? 0) || (er_IssueNum e =? ef_IssueNum f))
  && match ef_Since f with Some t => trunc_sec t <=? er_TS e | None => true end
  && match ef_Until f with Some t => er_TS e <=? trunc_sec t | None => true end.
Definition QueryEventsFiltered (E : Env) (f : EventQueryFilter) : St DB (res (list EventRow)) :=
  wrapE "store: query events filtered" (sql_query E (λ d, List.filter (event_matches f) (db_events d))).

(** [ORDER BY ts DESC, id DESC]. *)
Definition latest_le (a b : EventRow) : bool :=
  (er_TS b <? er_TS a) || ((er_TS b =? er_TS a) && (er_ID b <=? er_ID a)).
Definition issue_event (repo : string) (issueNum : Z) (e : EventRow) : bool :=
  bool_decide (er_Repo e = repo) && (er_IssueNum e =? issueNum).
Definition LatestEventAt (E : Env) (repo : string) (issueNum : Z) : St DB (res (option Z)) :=
  wrapE "store: latest event at" (sql_query E (λ d,
    er_TS <$> min_by latest_le (List.filter (issue_event repo issueNum) (db_events d)))).
Definition LatestIssueEvent (E : Env) (repo : string) (issueNum : Z) : St DB (res (option (string * Z))) :=
  wrapE "store: latest issue event" (sql_query E (λ d,
    (λ e, (er_Type e, er_TS e)) <$> min_by latest_le (List.filter (issue_event repo issueNum) (db_events d)))).
Definition LastEventTimestampByType (E : Env) (eventType : string) : St DB (res (option Z)) :=
  wrapE "store: last event by type" (sql_query E (λ d,
    er_TS <$> last (List.filter (λ e, bool_decide (er_Type e = eventType)) (db_events d)))).
Definition RecentAlertPayloads (E : Env) (eventType : string) (limit : Z) : St DB (res (list string)) :=
  let limit := if limit <=? 0 then 256 else limit in
  wrapE "store: query recent alerts" (sql_query E (λ d,
    er_Payload <$> take (Z.to_nat limit) (reverse (List.filter (λ e, bool_decide (er_Type e = eventType)) (db_events d))))).
Definition TokenUsageEvents (E : Env) (eventType : string) : St DB (res (list (string * string))) :=
  wrapE "store: token usage events" (sql_query E (λ d,
    (λ e, (er_Repo e, er_Payload e)) <$> List.filter (λ e, bool_decide (er_Type e = eventType)) (db_events d))).

(** [GROUP BY key]: the keys with their counts. *)
Definition group_counts {K} `{EqDecision K} (l : list K) : list (K * Z) :=
  (λ k, (k, Z.of_nat (length (List.filter (λ x, bool_decide (x = k)) l)))) <$> remove_dups l.
Definition CountEventsByRepoType (E : Env) : St DB (res (list (string * string * Z))) :=
  wrapE "store: events by repo/type" (sql_query E (λ d, group_counts ((λ e, (er_Repo e, er_Type e)) <$> db_events d))).
Definition CountTasksByRepoStatus (E : Env) : St DB (res (list (string * string * Z))) :=
  wrapE "store: task counts" (sql_query E (λ d, group_counts ((λ t, (t_Repo t, t_Status t)) <$> db_tasks d))).
Definition CountWorkersByRepo (E : Env) : St DB (res (list (string * Z * Z))) :=
  wrapE "store: worker counts" (sql_query E (λ d,
    let ws := (map_to_list (db_workers d)).*2 in
    (λ '(r, n), (r, n, Z.of_nat (length (List.filter (λ w, bool_decide (w_Repo w = r) && bool_decide (w_Status w = "online")) ws))))
      <$> group_counts (w_Repo <$> ws))).
Definition CountWorkers (E : Env) : St DB (res Z) :=
  wrapE "store: count workers" (sql_query E (λ d, Z.of_nat (size (db_workers d)))).

(** The cached issues that are open, with their last event and active tasks. *)
Definition ListOpenIssueActivity (E : Env) (pendingStatus runningStatus : string) :
    St DB (res (list (IssueCache * option Z * Z))) :=
  wrapE "store: open issue activity" (sql_query E (λ d,
    (λ ic, (ic, er_TS <$> min_by latest_le (List.filter (issue_event (ic_Repo ic) (ic_IssueNum ic)) (db_events d)),
            Z.of_nat (length (List.filter (λ t, row_issue (ic_Repo ic) (ic_IssueNum ic) t
                                                && status_in [pendingStatus; runningStatus] t) (db_tasks d)))))
      <$> List.filter (λ ic, bool_decide (ic_State ic = "open")) (map_to_list (db_cache d)).*2)).

(** ** Tasks *)

Record TaskFilter := mkTaskFilter { tf_Repo : string; tf_Status : string }.
Definition task_matches (f : TaskFilter) (t : TaskRecord) : bool :=
  (bool_decide (tf_Repo f = EmptyString) || bool_decide (t_Repo t = tf_Repo f))
  && (if bool_decide (tf_Status f = EmptyString) then negb (status_is TaskStatusCompleted t) else status_is (tf_Status f) t).
Definition QueryTasksFiltered (E : Env) (f : TaskFilter) : St DB (res (list TaskRecord)) :=
  wrapE "store: query tasks" (sql_query E (λ d,
    scanTaskRecord d <$> sort_by (λ a b, time_le (t_CreatedAt a) (t_CreatedAt b)) (List.filter (task_matches f) (db_tasks d)))).
Definition QueryTasks (E : Env) (status : string) : St DB (res (list TaskRecord)) :=
  QueryTasksFiltered E (mkTaskFilter EmptyString status).
Definition ListTasksForIssue (E : Env) (repo : string) (issueNum : Z) : St DB (res (list TaskRecord)) :=
  ListIssueTasks E repo issueNum.
Definition CountTasksByIssue (E : Env) (repo : string) (issueNum : Z) : St DB (res Z) :=
  wrapE "store: count tasks" (sql_query E (λ d, Z.of_nat (length (List.filter (row_issue repo issueNum) (db_tasks d))))).
Definition running_of (workerID : string) (t : TaskRecord) : bool :=
  owned_by workerID t && status_is TaskStatusRunning t.
Definition WorkerCurrentTaskID (E : Env) (workerID : string) : St DB (res string) :=
  wrapE "store: worker current task" (sql_query E (λ d,
    from_option t_ID EmptyString
      (min_by (λ a b, time_le (t_UpdatedAt b) (t_UpdatedAt a)) (List.filter (running_of workerID) (db_tasks d))))).

(** ** Repository registrations *)

Definition UpsertRepoRegistration (E : Env) (rec : RepoRegistrationRecord) : St DB (res unit) :=
  let status := if is_blank (rg_Status rec) then "active" else rg_Status rec in
  let cfg := if is_blank (rg_ConfigJSON rec) then "{}" else rg_ConfigJSON rec in
  wrapE "store: upsert repo registration" (sql E (λ d,
    let registered := from_option rg_RegisteredAt (Some (sql_now E)) (db_repos d !! rg_Repo rec) in
    (tt, upd_db_repos (<[rg_Repo rec :=
           mkRepoReg (rg_Repo rec) (rg_Environment rec) status cfg registered (Some (sql_now E))]>) d))).
Definition GetRepoRegistration (E : Env) (repo : string) : St DB (res (option RepoRegistrationRecord)) :=
  wrapE "store: get repo registration" (sql_query E (λ d, db_repos d !! repo)).
Definition ListRepoRegistrations (E : Env) : St DB (res (list RepoRegistrationRecord)) :=
  wrapE "store: list repo registrations" (sql_query E (λ d,
    sort_by (λ a b, String.leb (rg_Repo a) (rg_Repo b)) (map_to_list (db_repos d)).*2)).
Definition DeleteRepoRegistration (E : Env) (repo : string) : St DB (res unit) :=
  wrapE "store: delete repo registration" (sql E (λ d, (tt, upd_db_repos (base.delete repo) d))).

(** ** Sessions *)

Section Sessions.
Context (coordinatorMode : bool).

(** A statement on the sessions table. *)
Definition session_sql {A} (E : Env) (op : DB → res A * DB) : St DB (res A) :=
  sql_tx E (λ d, if coordinatorMode then (Err (ErrSQL false), d) else op d).
Definition session_query {A} (E : Env) (q : DB → A) : St DB (res A) := session_sql E (λ d, (Ok (q d), d)).

Definition CreateSession (E : Env) (s : SessionRecord) : St DB (res Z) :=
  wrapE "store: create session" (session_sql E (λ d,
    if existsb (λ x, bool_decide (ss_SessionID x = ss_SessionID s)) (db_sessions d) then (Err (ErrSQL false), d)
    else
      let id := Z.of_nat (length (db_sessions d)) + 1 in
      (Ok id, upd_db_sessions (λ l, l ++
        [mkSession id (ss_SessionID s) (ss_TaskID s) (ss_Repo s) (ss_IssueNum s) (ss_AgentName s) (ss_Runtime s)
           (ss_WorkerID s) (ss_Attempt s) (ss_Status s) (ss_Dir s) (ss_StdoutPath s) (ss_StderrPath s)
           (ss_ToolCallsPath s) (ss_MetadataPath s) (ss_Summary s) (ss_RawPath s) (Some (sql_now E)) None]) d))).

(** The row keeps its identity, repository, issue, agent and creation. *)
Definition session_set (r old : SessionRecord) : SessionRecord :=
  mkSession (ss_ID old) (ss_SessionID old) (ss_TaskID r) (ss_Repo old) (ss_IssueNum old) (ss_AgentName old) (ss_Runtime r)
    (ss_WorkerID r) (ss_Attempt r) (ss_Status r) (ss_Dir r) (ss_StdoutPath r) (ss_StderrPath r)
    (ss_ToolCallsPath r) (ss_MetadataPath r) (ss_Summary r) (ss_RawPath r) (ss_CreatedAt old) (trunc_sec <$> ss_ClosedAt r).
Definition UpdateSession (E : Env) (r : SessionRecord) : St DB (res unit) :=
  let same x := bool_decide (ss_SessionID x = ss_SessionID r) in
  n ←! wrapE "store: update session" (session_sql E (λ d,
         (Ok (length (List.filter same (db_sessions d))),
          upd_db_sessions (fmap (λ x, if same x then session_set r x else x)) d)));
  mret (if (n =? 0)%nat then Err (EMsg ("store: update session: session " +:+ Quote (ss_SessionID r) +:+ " not found")) else Ok tt).

(** [COALESCE(t.status, s.status)] of the join with the task. *)
Definition scanSessionRow (d : DB) (s : SessionRecord) : SessionRecord :=
  upd_ss_Status (λ st, from_option t_Status st (find_task (ss_TaskID s) d)) s.
Definition GetSession (E : Env) (sessionID : string) : St DB (res (option SessionRecord)) :=
  if coordinatorMode then mret (Ok None)
  else wrapE "store: get session" (session_query E (λ d,
         scanSessionRow d <$> List.find (λ s, bool_decide (ss_SessionID s = sessionID)) (db_sessions d))).

Record SessionFilter := mkSessionFilter {
  sf_Repo : string; sf_IssueNum : Z; sf_AgentName : string; sf_WorkerID : string; sf_Status : string
}.
Definition str_filter (want got : string) : bool := bool_decide (want = EmptyString) || bool_decide (got = want).
Definition session_matches (f : SessionFilter) (s : SessionRecord) : bool :=
  str_filter (sf_Repo f) (ss_Repo s) && ((sf_IssueNum f =? 0) || (ss_IssueNum s =? sf_IssueNum f))
  && str_filter (sf_AgentName f) (ss_AgentName s) && str_filter (sf_WorkerID f) (ss_WorkerID s)
  && str_filter (sf_Status f) (ss_Status s).
Definition ListSessions (E : Env) (f : SessionFilter) : St DB (res (list SessionRecord)) :=
  if coordinatorMode then mret (Ok [])
  else wrapE "store: list sessions" (session_query E (λ d,
         reverse (List.filter (session_matches f) (scanSessionRow d <$> db_sessions d)))).

Record AgentSession := mkAgentSession {
  as_ID : Z; as_SessionID : string; as_TaskID : string; as_Repo : string; as_IssueNum : Z; as_AgentName : string;
  as_Summary : string; as_RawPath : string; as_TaskStatus : string; as_CreatedAt : option Z
}.
Definition sessionRecordToAgent (r : SessionRecord) : AgentSession :=
  mkAgentSession (ss_ID r) (ss_SessionID r) (ss_TaskID r) (ss_Repo r) (ss_IssueNum r) (ss_AgentName r)
    (ss_Summary r) (ss_RawPath r) (ss_Status r) (ss_CreatedAt r).
Fixpoint firstNonEmpty (values : list string) : string :=
  match values with
  | [] => EmptyString
  | v :: values => if bool_decide (v = EmptyString) then firstNonEmpty values else v
  end.
Definition InsertAgentSession (E : Env) (s : AgentSession) : St DB (res Z) :=
  CreateSession E (mkSession 0 (as_SessionID s) (as_TaskID s) (as_Repo s) (as_IssueNum s) (as_AgentName s) EmptyString EmptyString 0
    (firstNonEmpty [as_TaskStatus s; TaskStatusPending]) EmptyString EmptyString EmptyString EmptyString EmptyString
    (as_Summary s) (as_RawPath s) None None).
Definition ListAgentSessions (E : Env) (f : SessionFilter) : St DB (res (list AgentSession)) :=
  records ←! ListSessions E f; mret (Ok (sessionRecordToAgent <$> records)).
Definition QueryAgentSessions (E : Env) (repo : string) (issueNum : Z) : St DB (res (list AgentSession)) :=
  records ←! ListSessions E (mkSessionFilter repo issueNum EmptyString EmptyString EmptyString);
  mret (Ok (sessionRecordToAgent <$> records)).
Definition UpdateAgentSession (E : Env) (sessionID summary rawPath : string) : St DB (res unit) :=
  record ←! GetSession E sessionID;
  match record with
  | None => mret (Err (EMsg ("store: update agent session: session " +:+ Quote sessionID +:+ " not found")))
  | Some r => UpdateSession E (upd_ss_RawPath (λ _, rawPath) (upd_ss_Summary (λ _, summary) r))
  end.
Definition GetAgentSession (E : Env) (sessionID : string) : St DB (res (option AgentSession)) :=
  record ←! GetSession E sessionID; mret (Ok (sessionRecordToAgent <$> record)).

Definition LatestSessionForIssue (E : Env) (repo : string) (issueNum : Z) : St DB (res (option SessionRecord)) :=
  if coordinatorMode then mret (Ok None)
  else wrapE "store: latest session for issue" (session_query E (λ d,
         scanSessionRow d <$> last (List.filter (λ s, bool_decide (ss_Repo s = repo) && (ss_IssueNum s =? issueNum)) (db_sessions d)))).
Definition CountTerminalSessionsSince (E : Env) (status : string) (since : Z) : St DB (res Z) :=
  if coordinatorMode then mret (Ok 0)
  else wrapE "store: count terminal sessions" (session_query E (λ d,
         Z.of_nat (length (List.filter (λ s, bool_decide (ss_Status s = status)
           && match ss_ClosedAt s with Some t => trunc_sec since <=? t | None => false end) (scanSessionRow d <$> db_sessions d))))).
Definition CountActiveSessions (E : Env) : St DB (res Z) :=
  if coordinatorMode then mret (Ok 0)
  else wrapE "store: count active sessions" (session_query E (λ d,
         Z.of_nat (length (List.filter (λ s, bool_decide (ss_Status s ∈ [TaskStatusPending; TaskStatusRunning]))
                             (scanSessionRow d <$> db_sessions d))))).
Definition CountSessionsByAgent (E : Env) : St DB (res (list (string * Z))) :=
  if coordinatorMode then mret (Ok [])
  else wrapE "store: sessions by agent" (session_query E (λ d,
         sort_by (λ a b, String.leb a.1 b.1) (group_counts (ss_AgentName <$> db_sessions d)))).

(** A negative [LIMIT] is none, a negative [OFFSET] is zero. *)
Record SessionListFilter := mkSessionList { sl_Repo : string; sl_AgentName : string; sl_IssueNum : Z; sl_Limit : Z; sl_Offset : Z }.
Definition ListSessionsForAPI (E : Env) (f : SessionListFilter) : St DB (res (list SessionRecord)) :=
  if coordinatorMode then mret (Ok [])
  else wrapE "store: list sessions for api" (session_query E (λ d,
         let rows := reverse (List.filter (λ s,
           str_filter (TrimSpace (sl_Repo f)) (ss_Repo s) && str_filter (TrimSpace (sl_AgentName f)) (ss_AgentName s)
           && negb ((0 <? sl_IssueNum f) && negb (ss_IssueNum s =? sl_IssueNum f))) (scanSessionRow d <$> db_sessions d)) in
         let rows := drop (Z.to_nat (sl_Offset f)) rows in
         if sl_Limit f <? 0 then rows else take (Z.to_nat (sl_Limit f)) rows)).

Record InFlightTaskForWorker := mkInFlight {
  if_TaskID : string; if_SessionID : string; if_SupervisorAgentID : string; if_EventsV1Path : string
}.
(** [filepath.Join] on a directory that is already clean. *)
Definition events_path (dir : string) : string :=
  if bool_decide (dir = EmptyString) then EmptyString else dir +:+ "/events-v1.jsonl".
Definition InFlightTasksForWorker (E : Env) (workerID : string) : St DB (res (list InFlightTaskForWorker)) :=
  wrapE "store: in-flight tasks for worker" (session_query E (λ d,
    (λ t, let s := last (List.filter (λ s, bool_decide (ss_TaskID s = t_ID t)) (db_sessions d)) in
          mkInFlight (t_ID t) (from_option ss_SessionID EmptyString s) (t_SupervisorAgentID t)
            (events_path (from_option ss_Dir EmptyString s)))
    <$> List.filter (λ t, negb (bool_decide (t_SupervisorAgentID t = EmptyString)))
          (sort_by (λ a b, time_le (t_UpdatedAt a) (t_UpdatedAt b)) (List.filter (running_of workerID) (db_tasks d))))).
End Sessions.

(** ** Session routes *)

(** [INSERT ... ON CONFLICT(session_id) DO NOTHING]. *)
Definition insert_route (E : Env) (r : SessionRoute) (m : gmap string SessionRoute) : gmap string SessionRoute :=
  match m !! sr_SessionID r with
  | Some _ => m
  | None => <[sr_SessionID r := mkRoute (sr_SessionID r) (sr_WorkerID r) (sr_Repo r) (sr_IssueNum r) (Some (sql_now E))]> m
  end.
Definition UpsertSessionRoute (E : Env) (r : SessionRoute) : St DB (res unit) :=
  if is_blank (sr_SessionID r) then mret (Err (EMsg "store: upsert session route: session_id required"))
  else if is_blank (sr_WorkerID r) then mret (Err (EMsg "store: upsert session route: worker_id required"))
  else wrapE "store: upsert session route" (sql E (λ d, (tt, upd_db_routes (insert_route E r) d))).
Definition BulkUpsertSessionRoutes (E : Env) (routes : list SessionRoute) : St DB (res unit) :=
  if bool_decide (routes = []) then mret (Ok tt)
  else wrapE "store: bulk upsert session routes" (sql E (λ d,
         (tt, upd_db_routes (λ m, foldl (λ m r, insert_route E r m) m
                (List.filter (λ r, negb (is_blank (sr_SessionID r) || is_blank (sr_WorkerID r))) routes)) d))).
Definition GetSessionRoute (E : Env) (sessionID : string) : St DB (res (option SessionRoute)) :=
  let sessionID := TrimSpace sessionID in
  if bool_decide (sessionID = EmptyString) then mret (Ok None)
  else wrapE "store: get session route" (sql_query E (λ d, db_routes d !! sessionID)).

(** ** Worker tokens *)

Definition ErrInvalidWorkerToken : error := EMsg "store: invalid worker token".

Definition hashWorkerToken (token : string) : string := sha256_hex token.
(** [strings.Cut] at the first dot. *)
Definition parseWorkerTokenKID (token : string) : option string :=
  match Split "." (TrimSpace token) with
  | kid :: _ :: _ => if bool_decide (kid = EmptyString) then None else Some kid
  | _ => None
  end.

Record IssuedWorkerToken := mkIssued { iw_WorkerID : string; iw_KID : string; iw_Token : string }.
Definition IssueWorkerToken (E : Env) (workerID repo : string) (roles : list string) (hostname : string) :
    St DB (res IssuedWorkerToken) :=
  let rolesJSON := marshal_strings (Some roles) in
  kid ← random E;
  secret ← random E;
  let token := kid +:+ "." +:+ secret in
  _ ←! wrapE "store: issue worker token" (sql E (λ d,
         let row := match db_workers d !! workerID with
                    | Some w => mkWorker workerID repo (w_ReposJSON w) rolesJSON (w_Runtime w) hostname (w_MgmtBaseURL w)
                                  (w_AuditURL w) (w_Tunnel w) "online" (w_LastHeartbeat w) (w_RegisteredAt w)
                    | None => mkWorker workerID repo "[]" rolesJSON EmptyString hostname EmptyString EmptyString false
                                "online" (Some (sql_now E)) (Some (sql_now E))
                    end in
         (tt, upd_db_tokens (<[workerID := mkWorkerToken kid (Some (hashWorkerToken token)) None]>)
                (upd_db_workers (<[workerID := row]>) d))));
  mret (Ok (mkIssued workerID kid token)).

Record WorkerTokenRecord := mkTokenRecord {
  tr_WorkerID : string; tr_Repo : string; tr_Roles : string; tr_Hostname : string; tr_Status : string;
  tr_KID : string; tr_RevokedAt : option Z; tr_RegisteredAt : option Z
}.
Definition token_record (d : DB) (w : WorkerRecord) : option WorkerTokenRecord :=
  t ← db_tokens d !! w_ID w;
  Some (mkTokenRecord (w_ID w) (w_Repo w) (w_Roles w) (w_Hostname w) (w_Status w) (wt_kid t) (wt_revoked_at t) (w_RegisteredAt w)).
Definition ListWorkerTokens (E : Env) (repo : string) : St DB (res (list WorkerTokenRecord)) :=
  wrapE "store: list worker tokens" (sql_query E (λ d,
    omap (token_record d)
      (List.filter (λ w, bool_decide (repo = EmptyString) || bool_decide (w_Repo w = repo))
         (sort_by (λ a b, String.leb (w_ID a) (w_ID b)) (map_to_list (db_workers d)).*2)))).

(** The update matches a worker without a token too, when no kid is given; such a
    row keeps no hash either way. *)
Definition RevokeWorkerToken (E : Env) (workerID kid : string) : St DB (res unit) :=
  let hit d := match db_workers d !! workerID with
               | None => false
               | Some _ => is_blank kid || match db_tokens d !! workerID with
                                           | Some t => bool_decide (wt_kid t = kid) | None => false end
               end in
  n ←! wrapE "store: revoke worker token" (sql E (λ d,
         (hit d, if hit d then upd_db_tokens (alter (λ t, mkWorkerToken (wt_kid t) None (Some (sql_now E))) workerID) d else d)));
  mret (if (n : bool) then Ok tt
        else Err (EMsg ("store: revoke worker token: worker " +:+ Quote workerID +:+ " not found"))).

Record WorkerAuthRecord := mkAuth {
  wa_WorkerID : string; wa_Repo : string; wa_Roles : string; wa_Hostname : string; wa_Status : string; wa_KID : string
}.
(** [WHERE token_kid = ? AND token_hash = ?]; a revoked row has no hash left. *)
Definition token_row (kid hash : string) (p : string * WorkerToken) : bool :=
  bool_decide (wt_kid p.2 = kid) && bool_decide (wt_hash p.2 = Some hash).
Definition AuthenticateWorkerToken (E : Env) (token : string) : St DB (res WorkerAuthRecord) :=
  match parseWorkerTokenKID token with
  | None => mret (Err ErrInvalidWorkerToken)
  | Some kid =>
      row ←! wrapE "store: authenticate worker token" (sql_query E (λ d,
               p ← List.find (token_row kid (hashWorkerToken token)) (map_to_list (db_tokens d));
               w ← db_workers d !! p.1; Some (w, p.2)));
      mret (match row with
            | None => Err ErrInvalidWorkerToken
            | Some (w, t) =>
                match wt_revoked_at t with
                | Some _ => Err ErrInvalidWorkerToken
                | None => Ok (mkAuth (w_ID w) (w_Repo w) (w_Roles w) (w_Hostname w) (w_Status w) (wt_kid t))
                end
            end)
  end.

(** ** The registry *)

(** [datetime('now', '-N seconds')]; the workers are marked one by one. *)
Definition stale_worker (E : Env) (threshold : Z) (w : WorkerRecord) : bool :=
  bool_decide (w_Status w = "online")
  && match w_LastHeartbeat w with Some t => t <? sql_now E - (threshold ÷ second) * second | None => false end.
Definition MarkStaleWorkersOffline (E : Env) (threshold : Z) : St DB (res unit) :=
  ids ←! wrapE "store: query stale workers" (sql_query E (λ d,
           w_ID <$> List.filter (stale_worker E threshold) (map_to_list (db_workers d)).*2));
  forE ids (λ id, wrapE "store: mark worker offline" (UpdateWorkerStatus E id "offline")).

Module Registry.
Definition RegisterWithReposTunnel (E : Env) (id repo : string) (repos : option (list string)) (roles : list string)
    (runtime hostname mgmtBaseURL auditURL : string) (tunnel : bool) : St DB (res unit) :=
  InsertWorker E (mkWorker id repo (marshal_strings repos) (marshal_strings (Some roles)) runtime hostname mgmtBaseURL auditURL
                    tunnel "online" None None).
Definition RegisterWithRepos (E : Env) (id repo : string) (repos : option (list string)) (roles : list string)
    (runtime hostname mgmtBaseURL auditURL : string) : St DB (res unit) :=
  RegisterWithReposTunnel E id repo repos roles runtime hostname mgmtBaseURL auditURL false.
Definition Register (E : Env) (id repo : string) (roles : list string) (runtime hostname : string) : St DB (res unit) :=
  RegisterWithRepos E id repo (Some [repo]) roles runtime hostname EmptyString EmptyString.
Definition RegisterEmbedded (E : Env) (hostname : option string) (repo : string) (roles : list string) : St DB (res string) :=
  let hostname := default "unknown" hostname in
  let id := "embedded-" +:+ hostname in
  _ ←! wrapE "registry: register embedded" (Register E id repo roles EmptyString hostname);
  mret (Ok id).
Definition Heartbeat (E : Env) (id : string) : St DB (res unit) :=
  r ← UpdateWorkerHeartbeat E id;
  mret (match r with Ok _ => Ok tt | Err e => Err (if errors_Is e ErrWorkerNotFound then ErrWorkerNotFound else e) end).
Definition MarkStaleOffline (E : Env) (pollInterval : Z) : St DB (res unit) :=
  wrapE "registry" (MarkStaleWorkersOffline E (3 * pollInterval)).
Definition has_role (role : string) (w : WorkerRecord) : bool :=
  match unmarshal_strings (w_Roles w) with
  | Some (Some roles) => bool_decide (role ∈ roles)
  | _ => false
  end.
Definition FindWorkers (E : Env) (repo role : string) : St DB (res (list WorkerRecord)) :=
  ws ←! wrapE "registry: find workers" (QueryWorkers E repo);
  mret (Ok (List.filter (λ w, bool_decide (w_Status w = "online") && has_role role w) ws)).
Definition Unregister (E : Env) (workerID : string) : St DB (res unit) :=
  hasTask ←! wrapE "registry: check worker task" (WorkerHasRunningTask E workerID);
  if (hasTask : bool) then mret (Err ErrWorkerHasRunningTask)
  else
    deleted ←! wrapE "registry: unregister worker" (DeleteWorker E workerID);
    mret (if (deleted : bool) then Ok tt else Err ErrWorkerNotFound).
End Registry.
