(* ===== verification/StoreAdminSpec.v ===== *)
(** * What the event log, the routes, the tokens and the registry guarantee *)

From S2P Require Import Prelude GoLib Json Sha256 GoText Types DB TaskQueue StoreIssue StoreAdmin.
From Stdlib Require Import Ascii.

(** ** The event log *)

(** The outcomes of the attempts of one insertion that starts at statement [n]:
    [Some k] when the [k]th attempt is the first that is not busy. *)
Fixpoint first_attempt (fault : nat → option error) (n tries : nat) : option nat :=
  match fault n with
  | None => Some O
  | Some e => match tries with
              | O => None
              | S tries => if IsBusyError e then S <$> first_attempt fault (S n) tries else None
              end
  end.

Lemma insert_loop_spec E tries ty repo num payload d :
  let r := insert_event_loop E tries ty repo num payload d in
  (db_calls r.2 ≤ db_calls d + S tries)%nat ∧
  match first_attempt (e_fault E) (db_calls d) tries with
  | Some _ => r.1 = Ok (Z.of_nat (length (db_events d)) + 1) ∧
              db_events r.2 = db_events d ++ [mkEventRow (Z.of_nat (length (db_events d)) + 1) (sql_now E) ty repo num payload]
  | None => is_err r.1 = true ∧ db_events r.2 = db_events d
  end.
Proof.
  revert d. induction tries as [|tries IH]; intros d; cbn [insert_event_loop first_attempt].
  - unfold mbind, St_bind, sql. destruct (e_fault E (db_calls d)) as [e|] eqn:Hf; cbn; (split; [lia|done]).
  - unfold mbind, St_bind, sql. destruct (e_fault E (db_calls d)) as [e|] eqn:Hf; cbn; [|split; [lia|done]].
    destruct (IsBusyError e); [|split; [cbn; lia|done]].
    destruct (IH (upd_db_call d)) as [Hc Hr]. split; [cbn in *; lia|]. cbn in Hr.
    by destruct (first_attempt (e_fault E) (S (db_calls d)) tries).
Qed.

(** Recording an event takes at most four statements and is all or nothing: when an
    attempt succeeds after busy ones only, exactly one row is appended, with the
    next id, which is returned; otherwise an error is returned and the log is what it
    was. *)
Theorem insert_event_is_atomic E ty repo num payload d :
  let r := InsertEvent E ty repo num payload d in
  (db_calls r.2 ≤ db_calls d + 4)%nat ∧
  match first_attempt (e_fault E) (db_calls d) 3 with
  | Some _ => r.1 = Ok (Z.of_nat (length (db_events d)) + 1) ∧
              db_events r.2 = db_events d ++ [mkEventRow (Z.of_nat (length (db_events d)) + 1) (sql_now E) ty repo num payload]
  | None => is_err r.1 = true ∧ db_events r.2 = db_events d
  end.
Proof.
  destruct (insert_loop_spec E 3 ty repo num payload d) as [Hc Hr].
  unfold InsertEvent, wrapE, mbind, St_bind. cbn zeta. cbn [fst snd mret St_ret]. split; [exact Hc|].
  destruct (first_attempt _ _ _).
  - destruct Hr as [-> ->]. done.
  - destruct Hr as [Hr ->]. destruct (insert_event_loop E 3 ty repo num payload d).1; done.
Qed.

(** ** Session routes *)

Definition routes_kept (d d' : DB) : Prop := ∀ s r, db_routes d !! s = Some r → db_routes d' !! s = Some r.
#[export] Instance routes_kept_preorder : PreOrder routes_kept.
Proof. split; [by intros d s r|]. intros d1 d2 d3 H1 H2 s r H. eauto. Qed.

Lemma insert_route_kept E r m s x : m !! s = Some x → insert_route E r m !! s = Some x.
Proof.
  intros H. unfold insert_route. destruct (m !! sr_SessionID r) eqn:Hr; [done|].
  rewrite lookup_insert_ne; [done|]. congruence.
Qed.
Lemma insert_routes_kept E rs m s x : m !! s = Some x → foldl (λ m r, insert_route E r m) m rs !! s = Some x.
Proof. revert m. induction rs as [|r rs IH]; intros m H; cbn; [done|]. apply IH. by apply insert_route_kept. Qed.

Lemma upsert_route_kept E r : keeps routes_kept (UpsertSessionRoute E r).
Proof.
  unfold UpsertSessionRoute. do 2 (destruct (is_blank _); [by apply keeps_ret, _|]). apply keeps_wrapE; [apply _|]. apply keeps_sql; intros d; [by intros s x|].
  intros s x Hx. by apply insert_route_kept.
Qed.
Lemma bulk_routes_kept E rs : keeps routes_kept (BulkUpsertSessionRoutes E rs).
Proof.
  unfold BulkUpsertSessionRoutes. case_bool_decide; [by apply keeps_ret, _|]. apply keeps_wrapE; [apply _|]. apply keeps_sql; intros d; [by intros s x|].
  intros s x Hx. by apply insert_routes_kept.
Qed.

Inductive route_step : DB → DB → Prop :=
  | rt_upsert E r d : route_step d (UpsertSessionRoute E r d).2
  | rt_bulk E rs d : route_step d (BulkUpsertSessionRoutes E rs d).2.

(** Once a session is routed to a worker, no later announcement, by any worker and
    with any pattern of failing statements, changes the route; a first announcement
    that is accepted is the route that is found afterwards. *)
Theorem session_route_is_stable E r d d' :
  (UpsertSessionRoute E r d).1 = Ok tt → rtc route_step (UpsertSessionRoute E r d).2 d' →
  ∃ owner, db_routes d' !! sr_SessionID r = Some owner ∧
    (db_routes d !! sr_SessionID r = None → sr_WorkerID owner = sr_WorkerID r) ∧
    (∀ old, db_routes d !! sr_SessionID r = Some old → owner = old).
Proof.
  intros Hok Hrun. assert (Hk : routes_kept (UpsertSessionRoute E r d).2 d').
  { clear Hok. induction Hrun as [|d1 d2 d3 Hs _ IH]; [done|]. etrans; [|exact IH].
    destruct Hs; [apply upsert_route_kept|apply bulk_routes_kept]. }
  unfold UpsertSessionRoute in *. destruct (is_blank _); [done|]. destruct (is_blank _); [done|].
  unfold wrapE, sql, mbind, St_bind in *. destruct (e_fault E (db_calls d)); [done|]. cbn in *.
  unfold insert_route in Hk. destruct (db_routes d !! sr_SessionID r) as [old|] eqn:Hr.
  - exists old. split; [by apply Hk; cbn; rewrite Hr|]. split; [done|]. by intros ? [= <-].
  - eexists. split; [apply Hk; cbn; rewrite Hr; apply lookup_insert_eq|]. done.
Qed.

Lemma session_route_is_stable_witness :
  let E := mkEnv 0 (λ _, None) (λ _, EmptyString) in
  let r := mkRoute "s-1" "w-1" "o/r" 7 None in
  ∃ owner, db_routes (UpsertSessionRoute E (mkRoute "s-1" "w-2" "o/r" 7 None) (UpsertSessionRoute E r empty_db).2).2 !! "s-1" = Some owner
    ∧ sr_WorkerID owner = "w-1".
Proof.
  intros E r.
  destruct (session_route_is_stable E r empty_db
              (UpsertSessionRoute E (mkRoute "s-1" "w-2" "o/r" 7 None) (UpsertSessionRoute E r empty_db).2).2)
    as (owner & H1 & H2 & _); [by vm_compute|apply rtc_once, rt_upsert|].
  exists owner. split; [exact H1|]. apply H2. by vm_compute.
Defined.

(** ** Worker tokens *)

(** [hex.EncodeToString] of random bytes. *)
Definition is_hex (c : ascii) : bool := byte_in c 48 57 || byte_in c 97 102.
Definition hex_text (s : string) : Prop := s ≠ EmptyString ∧ all_str is_hex s = true.
Definition hex_source (E : Env) : Prop := ∀ n, hex_text (e_random E n).

(** The live tokens, as whoever issues and revokes them sees it. *)
Inductive token_step : DB * gmap string string → DB * gmap string string → Prop :=
  | tk_issue E w repo roles host d d' live iss :
      hex_source E → IssueWorkerToken E w repo roles host d = (Ok iss, d') → token_step (d, live) (d', <[w := iw_Token iss]> live)
  | tk_issue_fails E w repo roles host d d' live e :
      IssueWorkerToken E w repo roles host d = (Err e, d') → token_step (d, live) (d', live)
  | tk_revoke E w kid d d' live :
      RevokeWorkerToken E w kid d = (Ok tt, d') → token_step (d, live) (d', delete w live)
  | tk_revoke_fails E w kid d d' live e :
      RevokeWorkerToken E w kid d = (Err e, d') → token_step (d, live) (d', live)
  | tk_delete E w d d' live b :
      DeleteWorker E w d = (Ok b, d') → token_step (d, live) (d', delete w live)
  | tk_delete_fails E w d d' live e :
      DeleteWorker E w d = (Err e, d') → token_step (d, live) (d', live)
  | tk_register E w d live : token_step (d, live) ((InsertWorker E w d).2, live)
  | tk_heartbeat E w d live : token_step (d, live) ((UpdateWorkerHeartbeat E w d).2, live)
  | tk_status E w st d live : token_step (d, live) ((UpdateWorkerStatus E w st d).2, live).

Record tokens_ok (d : DB) (live : gmap string string) : Prop := mkTokensOk {
  to_live : ∀ w tok, live !! w = Some tok → ∃ kid secret,
    hex_text kid ∧ hex_text secret ∧ tok = kid +:+ "." +:+ secret ∧ db_tokens d !! w = Some (mkWorkerToken kid (Some (hashWorkerToken tok)) None);
  to_hash : ∀ w t h, db_tokens d !! w = Some t → wt_hash t = Some h → is_Some (live !! w);
  to_rows : ∀ w t, db_tokens d !! w = Some t → ∃ row, db_workers d !! w = Some row ∧ w_ID row = w;
  to_ids : ∀ w row, db_workers d !! w = Some row → w_ID row = w
}.

(** A step that touches neither the tokens nor the identities of the rows. *)
Lemma tokens_ok_same d d' live :
  db_tokens d' = db_tokens d → (∀ w, is_Some (db_workers d !! w) → is_Some (db_workers d' !! w)) →
  (∀ w row, db_workers d' !! w = Some row → w_ID row = w) → tokens_ok d live → tokens_ok d' live.
Proof.
  intros Ht Hs Hid [H1 H2 H3 H4]. constructor; rewrite ?Ht; try done.
  intros w t Hw. destruct (H3 w t Hw) as (row & Hr & _). destruct (Hs w) as [row' Hr']; [by eauto|]. eauto.
Qed.

Lemma alter_keeps_rows (f : WorkerRecord → WorkerRecord) w d :
  (∀ x, w_ID (f x) = w_ID x) → (∀ w row, db_workers d !! w = Some row → w_ID row = w) →
  (∀ v, is_Some (db_workers d !! v) → is_Some (alter f w (db_workers d) !! v)) ∧
  (∀ v row, alter f w (db_workers d) !! v = Some row → w_ID row = v).
Proof.
  intros Hf Hid. split.
  - intros v [x Hx]. destruct (decide (w = v)) as [->|]; [rewrite lookup_alter_eq, Hx; by eexists|].
    rewrite lookup_alter_ne by done. by eauto.
  - intros v row. destruct (decide (w = v)) as [->|]; [rewrite lookup_alter_eq|rewrite lookup_alter_ne by done; eauto].
    intros (x & Hx & ->)%fmap_Some. rewrite Hf. eauto.
Qed.

Lemma update_worker_tokens E op w f d live :
  (∀ x, w_ID (f x) = w_ID x) → tokens_ok d live → tokens_ok (update_worker E op w f d).2 live.
Proof.
  intros Hf Hok. destruct (alter_keeps_rows f w d Hf (to_ids _ _ Hok)) as [Ha Hb].
  unfold update_worker, bindE, wrapE, sql, mbind, St_bind. destruct (e_fault E (db_calls d)); cbn;
    [by eapply tokens_ok_same; [| | |exact Hok]; try done; apply (to_ids _ _ Hok)|].
  by eapply tokens_ok_same; [| | |exact Hok].
Qed.

Lemma issue_tokens E w repo roles host d r d' live :
  hex_source E → IssueWorkerToken E w repo roles host d = (r, d') → tokens_ok d live →
  match r with
  | Ok iss => tokens_ok d' (<[w := iw_Token iss]> live)
  | Err _ => tokens_ok d' live
  end.
Proof.
  intros HE Hrun [H1 H2 H3 H4]. unfold IssueWorkerToken, random, bindE, wrapE, sql, mbind, St_bind, mret, St_ret in Hrun. cbn in Hrun.
  destruct (e_fault E (db_calls d)); cbn in Hrun; simplify_eq/=; [by constructor|].
  constructor; cbn.
  - intros v tok. destruct (decide (w = v)) as [->|Hne].
    + rewrite !lookup_insert_eq. intros [= <-]. eexists _, _. split; [apply HE|]. split; [apply HE|]. done.
    + rewrite !lookup_insert_ne by done. apply H1.
  - intros v t h. destruct (decide (w = v)) as [->|Hne]; [rewrite !lookup_insert_eq; by eauto|].
    rewrite !lookup_insert_ne by done. apply H2.
  - intros v t. destruct (decide (w = v)) as [->|Hne].
    + rewrite !lookup_insert_eq. intros _. eexists. split; [done|]. by destruct (db_workers d !! v).
    + rewrite !lookup_insert_ne by done. apply H3.
  - intros v row. destruct (decide (w = v)) as [->|Hne].
    + rewrite !lookup_insert_eq. intros [= <-]. by destruct (db_workers d !! v).
    + rewrite !lookup_insert_ne by done. apply H4.
Qed.

Lemma issue_fails_tokens E w repo roles host d e d' live :
  IssueWorkerToken E w repo roles host d = (Err e, d') → tokens_ok d live → tokens_ok d' live.
Proof.
  intros Hrun [H1 H2 H3 H4]. unfold IssueWorkerToken, random, bindE, wrapE, sql, mbind, St_bind, mret, St_ret in Hrun. cbn in Hrun.
  destruct (e_fault E (db_calls d)); cbn in Hrun; simplify_eq/=. by constructor.
Qed.

Lemma revoke_tokens E w kid d r d' live :
  RevokeWorkerToken E w kid d = (r, d') → tokens_ok d live →
  match r with Ok _ => tokens_ok d' (delete w live) | Err _ => tokens_ok d' live end.
Proof.
  intros Hrun [H1 H2 H3 H4]. unfold RevokeWorkerToken, bindE, wrapE, sql, mbind, St_bind, mret, St_ret in Hrun. cbn in Hrun.
  destruct (e_fault E (db_calls d)); cbn in Hrun; [simplify_eq/=; by constructor|].
  destruct (match db_workers d !! w with Some _ => _ | None => _ end) eqn:Hhit; simplify_eq/=; [|by constructor].
  constructor; cbn.
  - intros v tok [Hne Hl]%lookup_delete_Some. destruct (H1 v tok Hl) as (k & s & ? & ? & ? & ?).
    exists k, s. by rewrite lookup_alter_ne.
  - intros v t h. destruct (decide (w = v)) as [->|Hne].
    + rewrite lookup_alter_eq. by intros (x & Hx & ->)%fmap_Some.
    + rewrite lookup_alter_ne, lookup_delete_ne by done. apply H2.
  - intros v t. destruct (decide (w = v)) as [->|Hne].
    + rewrite lookup_alter_eq. intros (x & Hx & ->)%fmap_Some. eauto.
    + rewrite lookup_alter_ne by done. apply H3.
  - apply H4.
Qed.

Lemma delete_tokens E w d r d' live :
  DeleteWorker E w d = (r, d') → tokens_ok d live →
  match r with Ok _ => tokens_ok d' (delete w live) | Err _ => tokens_ok d' live end.
Proof.
  intros Hrun [H1 H2 H3 H4]. unfold DeleteWorker, wrapE, sql, mbind, St_bind, mret, St_ret in Hrun. cbn in Hrun.
  destruct (e_fault E (db_calls d)); cbn in Hrun; simplify_eq/=; [by constructor|]. constructor; cbn.
  - intros v tok [Hne Hl]%lookup_delete_Some. rewrite lookup_delete_ne by done. eauto.
  - intros v t h [Hne Hl]%lookup_delete_Some. rewrite lookup_delete_ne by done. eauto.
  - intros v t [Hne Hl]%lookup_delete_Some. rewrite lookup_delete_ne by done. eauto.
  - intros v row [Hne Hl]%lookup_delete_Some. eauto.
Qed.

Lemma register_tokens E w d live : tokens_ok d live → tokens_ok (InsertWorker E w d).2 live.
Proof.
  intros Hok. unfold InsertWorker, wrapE, sql, mbind, St_bind. destruct (e_fault E (db_calls d)); cbn.
  - eapply tokens_ok_same; [| | |exact Hok]; try done. apply (to_ids _ _ Hok).
  - eapply tokens_ok_same; [| | |exact Hok]; cbn; [done| |].
    + intros v Hv. rewrite lookup_insert. by case_decide; eauto.
    + intros v row. rewrite lookup_insert. case_decide; [by intros [= <-]|apply (to_ids _ _ Hok)].
Qed.

Lemma token_step_ok s s' : token_step s s' → tokens_ok s.1 s.2 → tokens_ok s'.1 s'.2.
Proof.
  intros Hs Hok. destruct Hs; cbn in *.
  - by eapply (issue_tokens _ _ _ _ _ _ (Ok iss)).
  - by eapply issue_fails_tokens.
  - by eapply (revoke_tokens _ _ _ _ (Ok tt)).
  - by eapply (revoke_tokens _ _ _ _ (Err e)).
  - by eapply (delete_tokens _ _ _ (Ok b)).
  - by eapply (delete_tokens _ _ _ (Err e)).
  - by apply register_tokens.
  - by apply update_worker_tokens.
  - by apply update_worker_tokens.
Qed.

Lemma is_hex_graphic c : is_hex c = true → graphic c = true ∧ negb (Ascii.eqb "." c) = true.
Proof.
  unfold is_hex, graphic, byte_in. rewrite orb_true_iff, !andb_true_iff, !N.leb_le, negb_true_iff, Ascii.eqb_neq. intros H.
  split; [lia|]. intros <-. vm_compute in H. naive_solver.
Qed.
Lemma hex_graphic s : hex_text s → all_str graphic s = true ∧ all_str (λ d, negb (Ascii.eqb "." d)) s = true.
Proof. intros [_ H]. split; (eapply all_str_mono; [|exact H]); intros c Hc; by apply is_hex_graphic. Qed.

Lemma parse_issued kid secret :
  hex_text kid → hex_text secret → parseWorkerTokenKID (kid +:+ "." +:+ secret) = Some kid.
Proof.
  intros Hk Hs. destruct (hex_graphic _ Hk) as [Hkg Hkd], (hex_graphic _ Hs) as [Hsg Hsd].
  unfold parseWorkerTokenKID. rewrite TrimSpace_graphic by by rewrite !all_str_app, Hkg, Hsg.
  change ("." +:+ secret) with (String "." secret). rewrite Split_app, Split_last by done.
  rewrite bool_decide_eq_false_2; [done|]. by destruct Hk.
Qed.

(** The row that [AuthenticateWorkerToken] finds. *)
Lemma token_row_live d live kid tok p :
  tokens_ok d live → p ∈ map_to_list (db_tokens d) → token_row kid (hashWorkerToken tok) p = true →
  ∃ t row, live !! p.1 = Some t ∧ hashWorkerToken t = hashWorkerToken tok ∧ db_workers d !! p.1 = Some row ∧ w_ID row = p.1
    ∧ wt_revoked_at p.2 = None.
Proof.
  intros Hok Hin Hrow. destruct p as [v t]. apply elem_of_map_to_list in Hin. unfold token_row in Hrow. cbn in *.
  apply andb_true_iff in Hrow as [_ Hh%bool_decide_eq_true].
  destruct (to_hash _ _ Hok v t _ Hin Hh) as [tok' Hl]. destruct (to_live _ _ Hok v tok' Hl) as (k & s & _ & _ & _ & Ht).
  destruct (to_rows _ _ Hok v t Hin) as (row & Hr & Hid). simplify_eq/=. eauto 10.
Qed.

Lemma tokens_ok_empty : tokens_ok empty_db ∅.
Proof. by constructor. Qed.

Lemma token_run_ok s s' : rtc token_step s s' → tokens_ok s.1 s.2 → tokens_ok s'.1 s'.2.
Proof. induction 1 as [|s1 s2 s3 Hs _ IH]; [done|]. intros Hok. apply IH. by eapply token_step_ok. Qed.

(** C10: The tokens the store accepts are the ones that are live.  After any sequence of
    issues, rotations, revocations, deletions, registrations, heartbeats and failing
    statements: a token that authenticates as a worker has the hash of the token
    last issued to that worker, which was not revoked since; and the token last
    issued to a worker authenticates as it, unless another live token has the same
    hash. *)
Theorem accepted_tokens_are_live d live :
  rtc token_step (empty_db, ∅) (d, live) →
  (∀ E tok rec, (AuthenticateWorkerToken E tok d).1 = Ok rec →
     ∃ t, live !! wa_WorkerID rec = Some t ∧ hashWorkerToken t = hashWorkerToken tok) ∧
  (∀ E w tok, quiet E → live !! w = Some tok →
     (∀ v t, live !! v = Some t → hashWorkerToken t = hashWorkerToken tok → v = w) →
     ∃ rec, (AuthenticateWorkerToken E tok d).1 = Ok rec ∧ wa_WorkerID rec = w).
Proof.
  intros Hrun. pose proof (token_run_ok _ _ Hrun) as Hok. cbn in Hok. specialize (Hok tokens_ok_empty). split.
  - intros E tok rec. unfold AuthenticateWorkerToken. destruct (parseWorkerTokenKID tok) as [kid|]; [|done].
    unfold bindE, wrapE, sql_query, sql, mbind, St_bind, mret, St_ret. destruct (e_fault E (db_calls d)); [done|]. cbn.
    destruct (List.find _ _) as [p|] eqn:Hf; cbn; [|done]. apply List.find_some in Hf as [Hin Hrow].
    destruct (token_row_live _ _ _ _ _ Hok (proj2 (list_elem_of_In _ _) Hin) Hrow) as (t & row & Hl & Hh & Hr & Hid & Hrev).
    rewrite Hr. cbn. rewrite Hrev. intros [= <-]. cbn. rewrite Hid. eauto.
  - intros E w tok HE Hl Huniq. destruct (to_live _ _ Hok w tok Hl) as (kid & secret & Hk & Hs & -> & Ht).
    set (tok := kid +:+ "." +:+ secret) in *.
    assert (Hp : parseWorkerTokenKID tok = Some kid) by by apply parse_issued.
    unfold AuthenticateWorkerToken. rewrite Hp.
    unfold bindE, wrapE, sql_query, sql, mbind, St_bind, mret, St_ret. rewrite HE. cbn.
    destruct (List.find _ _) as [p|] eqn:Hf; cbn.
    + apply List.find_some in Hf as [Hin Hrow].
      destruct (token_row_live _ _ _ _ _ Hok (proj2 (list_elem_of_In _ _) Hin) Hrow) as (t & row & Hl' & Hh & Hr & Hid & Hrev).
      rewrite Hr. cbn. rewrite Hrev. eexists. split; [done|]. cbn. rewrite Hid. eauto.
    + pose proof (List.find_none _ _ Hf (w, mkWorkerToken kid (Some (hashWorkerToken tok)) None)) as Hn.
      unfold token_row in Hn. cbn in Hn. rewrite !bool_decide_eq_true_2 in Hn by done.
      exfalso. assert (true && true = false) as ?; [|done]. apply Hn. by apply list_elem_of_In, elem_of_map_to_list.
Qed.

Definition token_env : Env := mkEnv 0 (λ _, None) (λ n, if Nat.even n then "a1b2" else "c3d4").
Lemma accepted_tokens_are_live_witness :
  let d := (IssueWorkerToken token_env "w-1" "o/r" ["dev"] "host" empty_db).2 in
  (∃ rec, (AuthenticateWorkerToken token_env "a1b2.c3d4" d).1 = Ok rec ∧ wa_WorkerID rec = "w-1").
Proof.
  intros d. assert (Hrun : rtc token_step (empty_db, ∅) (d, <["w-1" := "a1b2.c3d4"]> ∅)).
  { apply rtc_once. eapply (tk_issue token_env "w-1" "o/r" ["dev"] "host" empty_db d ∅ (mkIssued "w-1" "a1b2" "a1b2.c3d4")).
    - intros n. cbn. destruct (Nat.even n); (split; [done|by vm_compute]).
    - by vm_compute. }
  destruct (accepted_tokens_are_live _ _ Hrun) as [_ H]. apply (H token_env "w-1" "a1b2.c3d4"); [done|by vm_compute|].
  intros v t Hv _. rewrite lookup_insert in Hv. by case_decide.
Defined.

(** ** The registry *)

Definition keyed (d : DB) : Prop := ∀ k row, db_workers d !! k = Some row → w_ID row = k.
Definition mark_offline (p : string → bool) (d : DB) : gmap string WorkerRecord :=
  map_imap (λ k w, Some (if p k then upd_w_Status (λ _, "offline") w else w)) (db_workers d).

Lemma mark_offline_lookup p d k :
  mark_offline p d !! k = (λ w, if p k then upd_w_Status (λ _, "offline") w else w) <$> db_workers d !! k.
Proof. unfold mark_offline. rewrite map_lookup_imap. by destruct (db_workers d !! k). Qed.

Lemma offline_idem (a b : bool) w :
  (if b then upd_w_Status (λ _, "offline") (if a then upd_w_Status (λ _, "offline") w else w)
   else if a then upd_w_Status (λ _, "offline") w else w)
  = if a || b then upd_w_Status (λ _, "offline") w else w.
Proof. by destruct a, b. Qed.

Lemma mark_loop E ids d :
  quiet E → (∀ id, id ∈ ids → is_Some (db_workers d !! id)) →
  let r := forE ids (λ id, wrapE "store: mark worker offline" (UpdateWorkerStatus E id "offline")) d in
  r.1 = Ok tt ∧ db_workers r.2 = mark_offline (λ k, bool_decide (k ∈ ids)) d.
Proof.
  intros HE. revert d. induction ids as [|id ids IH]; intros d Hin; cbn [forE].
  { split; [done|]. cbn. apply map_eq. intros k. rewrite mark_offline_lookup. by destruct (db_workers d !! k). }
  assert (Hstep : wrapE "store: mark worker offline" (UpdateWorkerStatus E id "offline") d =
    (Ok tt, upd_db_call (upd_db_workers (alter (upd_w_Status (λ _, "offline")) id) d))).
  { unfold UpdateWorkerStatus, update_worker, bindE, wrapE, mbind, St_bind, mret, St_ret. rewrite sql_quiet by done. cbn.
    by rewrite bool_decide_eq_true_2 by (apply Hin; left). }
  cbn zeta. unfold bindE, mbind, St_bind. rewrite Hstep. cbn [fst snd]. cbv beta iota.
  destruct (IH (upd_db_call (upd_db_workers (alter (upd_w_Status (λ _, "offline")) id) d))) as [Hr Hd].
  { intros k Hk. cbn. rewrite lookup_alter_is_Some. apply Hin. by right. }
  split; [exact Hr|]. rewrite Hd. apply map_eq. intros k. rewrite !mark_offline_lookup. cbn.
  destruct (decide (id = k)) as [->|Hne].
  - rewrite lookup_alter_eq, (bool_decide_eq_true_2 (k ∈ k :: ids)) by left. destruct (db_workers d !! k); [|done]. cbn.
    by case_bool_decide.
  - rewrite lookup_alter_ne by done. destruct (db_workers d !! k); [|done]. cbn. f_equal.
    by rewrite (bool_decide_ext (k ∈ id :: ids) (k ∈ ids)) by set_solver.
Qed.

Definition of_repo (repo : string) (w : WorkerRecord) : Prop :=
  repo = EmptyString ∨ w_Repo w = repo ∨ jsonArrayContains (w_ReposJSON w) repo = true.

(** After the registry has marked stale workers, a search for a role in a
    repository finds exactly the workers of that repository with that role that were
    online with a heartbeat in the last three poll intervals. *)
Theorem registry_finds_fresh_workers E E' poll repo role d :
  quiet E → quiet E' → keyed d →
  let d' := (Registry.MarkStaleOffline E poll d).2 in
  ∃ ws, (Registry.FindWorkers E' repo role d').1 = Ok ws ∧
    ∀ w, w ∈ ws ↔ db_workers d !! w_ID w = Some w ∧ w_Status w = "online" ∧
                  stale_worker E (3 * poll) w = false ∧ of_repo repo w ∧ Registry.has_role role w = true.
Proof.
  intros HE HE' Hk. cbn zeta.
  set (ids := w_ID <$> List.filter (stale_worker E (3 * poll)) (map_to_list (db_workers d)).*2).
  assert (Hids : ∀ id, id ∈ ids ↔ ∃ w, db_workers d !! id = Some w ∧ stale_worker E (3 * poll) w = true).
  { intros id. unfold ids. rewrite list_elem_of_fmap. setoid_rewrite list_elem_of_In. setoid_rewrite List.filter_In.
    setoid_rewrite <- list_elem_of_In. setoid_rewrite list_elem_of_fmap. split.
    - intros (w & -> & ([k w'] & -> & Hin) & Hs). apply elem_of_map_to_list in Hin. cbn in *. exists w'. by rewrite (Hk _ _ Hin).
    - intros (w & Hw & Hs). exists w. split; [by rewrite (Hk _ _ Hw)|]. split; [|done]. exists (id, w). split; [done|]. by apply elem_of_map_to_list. }
  assert (Hmark : db_workers (Registry.MarkStaleOffline E poll d).2 = mark_offline (λ k, bool_decide (k ∈ ids)) d).
  { unfold Registry.MarkStaleOffline, MarkStaleWorkersOffline, bindE, wrapE, mbind, St_bind, mret, St_ret, sql_query.
    rewrite sql_quiet by done. cbn [fst snd res_wrap]. apply (mark_loop E ids (upd_db_call d)); [done|].
    intros id Hid%Hids. cbn. naive_solver. }
  generalize dependent (Registry.MarkStaleOffline E poll d).2. intros d' Hmark.
  unfold Registry.FindWorkers, QueryWorkers, bindE, wrapE, mbind, St_bind, mret, St_ret, sql_query.
  rewrite sql_quiet by done. cbn [fst snd res_wrap]. eexists. split; [done|]. intros w.
  rewrite list_elem_of_In, !List.filter_In, <- list_elem_of_In, sort_by_perm, list_elem_of_fmap, !andb_true_iff, !orb_true_iff, !bool_decide_eq_true.
  unfold of_repo. split.
  - intros ((([k w'] & -> & Hin) & Hrepo) & Hon & Hrole). apply elem_of_map_to_list in Hin. cbn in *.
    rewrite Hmark, mark_offline_lookup in Hin. destruct (db_workers d !! k) as [w0|] eqn:Hw; [|done]. cbn in Hin.
    case_bool_decide as Hid; [simplify_eq/=|]. injection Hin as ->. rewrite (Hk _ _ Hw). split_and!; [done|done| |tauto|done].
    apply not_true_iff_false. intros Hs. apply Hid, Hids. eauto.
  - intros (Hw & Hon & Hs & Hrepo & Hrole). split; [split; [|tauto]|done]. exists (w_ID w, w). split; [done|].
    apply elem_of_map_to_list. rewrite Hmark, mark_offline_lookup, Hw. cbn. rewrite bool_decide_eq_false_2; [done|].
    intros (w' & Hw' & Hs')%Hids. congruence.
Qed.

Lemma register_keyed E w d : keyed d → keyed (InsertWorker E w d).2.
Proof.
  intros Hk. unfold InsertWorker, wrapE, sql, mbind, St_bind. destruct (e_fault E (db_calls d)); [done|].
  intros k row. cbn. rewrite lookup_insert. case_decide; [by intros [= <-]|apply Hk].
Qed.

Lemma registry_finds_fresh_workers_witness :
  let E := mkEnv (100 * second) (λ _, None) (λ _, EmptyString) in
  let d := (Registry.Register (env_at E 0) "w-old" "o/r" ["dev"] "claude" "h"
             (Registry.Register E "w-new" "o/r" ["dev"] "claude" "h" empty_db).2).2 in
  ∃ ws, (Registry.FindWorkers E "o/r" "dev" (Registry.MarkStaleOffline E (30 * second) d).2).1 = Ok ws.
Proof.
  intros E d. destruct (registry_finds_fresh_workers E E (30 * second) "o/r" "dev" d) as (ws & H & _); [done|done| |by exists ws].
  by repeat apply register_keyed.
Defined.
