(* ===== verification/World.v ===== *)
(** * The world the coordinator's components act on

    The store, the state machine's in-memory maps, the events handed to the
    recorder, the alerts published, the requests sent on the dispatch channel
    and the comments handed to the GitHub reporter, in order.

    One [Env] is one instant: an operation reads one clock value.  Tracing
    spans have no effect on this state and are left out. *)

From S2P Require Import Prelude GoLib Types DB.

(** ** Dispatch groups

    A group is shared through a pointer, so it has an identity, [g_id]. *)

Record dispatchGroup := mkGroup {
  g_id : nat;
  g_workflow : string;
  g_state : string;
  g_mode : string;
  g_join : JoinConfig;
  g_slots : gmap string string;
  g_dispatched : gset string;
  g_completedTasks : gset string;
  g_completed : gset string;
  g_success : gset string;
  g_failed : gset string
}.
Definition upd_g_dispatched (g : gset string → gset string) (x : dispatchGroup) : dispatchGroup :=
  mkGroup (g_id x) (g_workflow x) (g_state x) (g_mode x) (g_join x) (g_slots x) (g (g_dispatched x)) (g_completedTasks x) (g_completed x) (g_success x) (g_failed x).
Definition upd_g_completedTasks (g : gset string → gset string) (x : dispatchGroup) : dispatchGroup :=
  mkGroup (g_id x) (g_workflow x) (g_state x) (g_mode x) (g_join x) (g_slots x) (g_dispatched x) (g (g_completedTasks x)) (g_completed x) (g_success x) (g_failed x).
Definition upd_g_completed (g : gset string → gset string) (x : dispatchGroup) : dispatchGroup :=
  mkGroup (g_id x) (g_workflow x) (g_state x) (g_mode x) (g_join x) (g_slots x) (g_dispatched x) (g_completedTasks x) (g (g_completed x)) (g_success x) (g_failed x).
Definition upd_g_success (g : gset string → gset string) (x : dispatchGroup) : dispatchGroup :=
  mkGroup (g_id x) (g_workflow x) (g_state x) (g_mode x) (g_join x) (g_slots x) (g_dispatched x) (g_completedTasks x) (g_completed x) (g (g_success x)) (g_failed x).
Definition upd_g_failed (g : gset string → gset string) (x : dispatchGroup) : dispatchGroup :=
  mkGroup (g_id x) (g_workflow x) (g_state x) (g_mode x) (g_join x) (g_slots x) (g_dispatched x) (g_completedTasks x) (g_completed x) (g_success x) (g (g_failed x)).

Record completionRecord := mkCompletion {
  cr_at : Z;
  cr_labels : string
}.

(** ** The state machine's memory *)

Record SMState := mkSM {
  sm_processed : gset string;
  sm_inflight : gmap string dispatchGroup;
  sm_completion : gmap string completionRecord;
  sm_claimTokens : gmap string string;
  sm_claimWarned : gset string;
  sm_nextGroup : nat
}.
Definition upd_sm_processed (g : gset string → gset string) (x : SMState) : SMState :=
  mkSM (g (sm_processed x)) (sm_inflight x) (sm_completion x) (sm_claimTokens x) (sm_claimWarned x) (sm_nextGroup x).
Definition upd_sm_inflight (g : gmap string dispatchGroup → gmap string dispatchGroup) (x : SMState) : SMState :=
  mkSM (sm_processed x) (g (sm_inflight x)) (sm_completion x) (sm_claimTokens x) (sm_claimWarned x) (sm_nextGroup x).
Definition upd_sm_completion (g : gmap string completionRecord → gmap string completionRecord) (x : SMState) : SMState :=
  mkSM (sm_processed x) (sm_inflight x) (g (sm_completion x)) (sm_claimTokens x) (sm_claimWarned x) (sm_nextGroup x).
Definition upd_sm_claimTokens (g : gmap string string → gmap string string) (x : SMState) : SMState :=
  mkSM (sm_processed x) (sm_inflight x) (sm_completion x) (g (sm_claimTokens x)) (sm_claimWarned x) (sm_nextGroup x).
Definition upd_sm_claimWarned (g : gset string → gset string) (x : SMState) : SMState :=
  mkSM (sm_processed x) (sm_inflight x) (sm_completion x) (sm_claimTokens x) (g (sm_claimWarned x)) (sm_nextGroup x).
Definition upd_sm_nextGroup (g : nat → nat) (x : SMState) : SMState :=
  mkSM (sm_processed x) (sm_inflight x) (sm_completion x) (sm_claimTokens x) (sm_claimWarned x) (g (sm_nextGroup x)).

Definition empty_sm : SMState := mkSM ∅ ∅ ∅ ∅ ∅ 0.

(** What is handed to the reporter callbacks. *)
Inductive Report :=
  | ReportDevReviewCycleCap (repo : string) (issueNum : Z) (workflow : string)
      (cycleCount maxReviewCycles hitAt : Z)
  | ReportSynthesisNeedsHuman (repo : string) (issueNum : Z) (reason : string)
  | SetBlockedReaction (repo : string) (issueNum : Z) (blocked : bool).

Record World := mkWorld {
  wd_db : DB;
  wd_sm : SMState;
  wd_events : list EventEntry;
  wd_alerts : list AlertEvent;
  wd_dispatch : list DispatchRequest;
  wd_reports : list Report;
  wd_sends : nat
}.
Definition upd_wd_db (g : DB → DB) (x : World) : World :=
  mkWorld (g (wd_db x)) (wd_sm x) (wd_events x) (wd_alerts x) (wd_dispatch x) (wd_reports x) (wd_sends x).
Definition upd_wd_sm (g : SMState → SMState) (x : World) : World :=
  mkWorld (wd_db x) (g (wd_sm x)) (wd_events x) (wd_alerts x) (wd_dispatch x) (wd_reports x) (wd_sends x).
Definition upd_wd_events (g : list EventEntry → list EventEntry) (x : World) : World :=
  mkWorld (wd_db x) (wd_sm x) (g (wd_events x)) (wd_alerts x) (wd_dispatch x) (wd_reports x) (wd_sends x).
Definition upd_wd_alerts (g : list AlertEvent → list AlertEvent) (x : World) : World :=
  mkWorld (wd_db x) (wd_sm x) (wd_events x) (g (wd_alerts x)) (wd_dispatch x) (wd_reports x) (wd_sends x).
Definition upd_wd_dispatch (g : list DispatchRequest → list DispatchRequest) (x : World) : World :=
  mkWorld (wd_db x) (wd_sm x) (wd_events x) (wd_alerts x) (g (wd_dispatch x)) (wd_reports x) (wd_sends x).
Definition upd_wd_reports (g : list Report → list Report) (x : World) : World :=
  mkWorld (wd_db x) (wd_sm x) (wd_events x) (wd_alerts x) (wd_dispatch x) (g (wd_reports x)) (wd_sends x).
Definition upd_wd_sends (g : nat → nat) (x : World) : World :=
  mkWorld (wd_db x) (wd_sm x) (wd_events x) (wd_alerts x) (wd_dispatch x) (wd_reports x) (g (wd_sends x)).

Definition empty_world : World := mkWorld empty_db empty_sm [] [] [] [] 0.

(** A store operation inside the world. *)
Definition lift {A} (m : St DB A) : St World A :=
  λ w, let r := m (wd_db w) in (r.1, upd_wd_db (λ _, r.2) w).

Definition getSM {A} (f : SMState → A) : St World A := getsS (λ w, f (wd_sm w)).
Definition modSM (f : SMState → SMState) : St World unit := modS (upd_wd_sm f).

(** [EventRecorder.Log]. *)
Definition Log (ty repo : string) (issueNum : Z) (payload : list (string * jval)) : St World unit :=
  modS (upd_wd_events (λ l, l ++ [mkEvent ty repo issueNum payload])).

(** [publishAlert]: nothing without a bus. *)
Definition publishAlert (E : Env) (bus : bool) (kind severity repo : string) (issueNum : Z)
    (agent : string) (payload : list (string * jval)) : St World unit :=
  if bus then modS (upd_wd_alerts (λ l, l ++
    [mkAlert kind severity repo issueNum agent (e_now E / second) payload])) else mret tt.

Definition report (r : Report) : St World unit := modS (upd_wd_reports (λ l, l ++ [r])).

(** ** Event types and alert kinds *)

Definition EventIssueCreated : string := "issue_created".
Definition EventLabelAdded : string := "label_added".
Definition EventLabelRemoved : string := "label_removed".
Definition EventPRCreated : string := "pr_created".
Definition EventPRStateChanged : string := "pr_state_changed".
Definition EventIssueClosed : string := "issue_closed".
Definition EventIssueResynced : string := "issue_resynced".
Definition EventPollCycleDone : string := "poll_cycle_done".

Definition SeverityInfo : string := "info".
Definition SeverityWarn : string := "warning".
Definition SeverityError : string := "error".

(** ** Frame rules for store operations in the world *)

(** A relation on the store, as one on the world. *)
Definition on_db (R : relation DB) : relation World := λ w w', R (wd_db w) (wd_db w').

#[export] Instance on_db_preorder R `{!PreOrder R} : PreOrder (on_db R).
Proof. split; [intros w; unfold on_db; reflexivity|]. intros w1 w2 w3 H1 H2. unfold on_db in *. by etrans. Qed.

Lemma keeps_lift {A} (R : relation DB) (m : St DB A) : keeps R m → keeps (on_db R) (lift m).
Proof. intros H w. apply H. Qed.

(** A view of the world that no store operation touches. *)
Lemma keeps_lift_same {V A} (f : World → V) (m : St DB A) :
  (∀ w d, f (upd_wd_db d w) = f w) → keeps (same f) (lift m).
Proof. intros H w. apply H. Qed.

Lemma wp_lift {A} (m : St DB A) (Q : A → World → Prop) w :
  wp m (λ a d, Q a (upd_wd_db (λ _, d) w)) (wd_db w) → wp (lift m) Q w.
Proof. done. Qed.
