(* ===== verification/Security.v ===== *)
(** * The allowlist of authors

    [internal/security/security.go] and [internal/app/security_event.go]: who may
    cause work.  The file is decoded by a parameter; the watcher's debounce is not
    modelled, a reload is one step. *)

From S2P Require Import Prelude GoLib Json GoText Types World.
From Stdlib Require Import Ascii.

Record Snapshot := mkSnapshot {
  sn_TrustedAuthors : list string;
  sn_Source : string;
  sn_index : gset string
}.
Definition SourceNone : string := "none".
Definition SourceFlag : string := "flag".
Definition SourceEnv : string := "env".
Definition SourceFile : string := "file".

Definition normalizeAuthor (author : string) : string := ToLower (TrimSpace author).

Fixpoint dedup_authors (parts : list string) (seen : gset string) : list string :=
  match parts with
  | [] => []
  | part :: parts =>
      let trimmed := TrimSpace part in
      if bool_decide (trimmed = EmptyString) then dedup_authors parts seen
      else
        let key := normalizeAuthor trimmed in
        if bool_decide (key ∈ seen) then dedup_authors parts seen
        else trimmed :: dedup_authors parts ({[key]} ∪ seen)
  end.
Definition parseAuthorList (raw : string) : list string :=
  if is_blank raw then [] else dedup_authors (Split "," raw) ∅.

Definition newSnapshot (authors : list string) (source : string) : Snapshot :=
  let normalized := parseAuthorList (join_str "," authors) in
  mkSnapshot normalized source (list_to_set (normalizeAuthor <$> normalized)).

Definition Allows (s : Snapshot) (author : string) : bool :=
  if bool_decide (sn_index s = ∅) then true else bool_decide (normalizeAuthor author ∈ sn_index s).
Definition IsRestricted (s : Snapshot) : bool := (0 <? length (sn_TrustedAuthors s))%nat.
Definition FormatAuthors (s : Snapshot) : string :=
  if bool_decide (sn_TrustedAuthors s = []) then "[]" else "[" +:+ join_str ", " (sn_TrustedAuthors s) +:+ "]".

Record Options := mkOptions { op_FlagValue : string; op_FlagSet : bool; op_EnvValue : string; op_FilePath : string }.

(** A file: [Ok None] when it does not exist, [Ok (Some l)] with the decoded
    [trusted_authors]. *)
Definition loadFileSnapshot (read : string → res (option (list string))) (path : string) : res Snapshot :=
  let path := TrimSpace path in
  if bool_decide (path = EmptyString) then Ok (newSnapshot [] SourceNone)
  else match read path with
       | Err e => Err (EWrap ("read " +:+ path) e)
       | Ok None => Ok (newSnapshot [] SourceNone)
       | Ok (Some authors) => Ok (newSnapshot authors SourceFile)
       end.
(** The second component: whether the file is to be watched. *)
Definition loadInitial (read : string → res (option (list string))) (opts : Options) : res Snapshot * bool :=
  if op_FlagSet opts then (Ok (newSnapshot (parseAuthorList (op_FlagValue opts)) SourceFlag), false)
  else if negb (is_blank (op_EnvValue opts)) then (Ok (newSnapshot (parseAuthorList (op_EnvValue opts)) SourceEnv), false)
  else (loadFileSnapshot read (op_FilePath opts), true).
Definition reloadFromFile (read : string → res (option (list string))) (path : string) (cur : Snapshot) : Snapshot :=
  match loadFileSnapshot read path with Ok next => next | Err _ => cur end.

(** [AllowSecurityEvent]; no runtime is [None]. *)
Definition AllowSecurityEvent (sec : option Snapshot) (ev : ChangeEvent) : bool :=
  match sec with
  | None => true
  | Some current =>
      if bool_decide (ce_Type ev ∈ [EventIssueCreated; EventLabelAdded; EventLabelRemoved])
      then negb (IsRestricted current) || Allows current (ce_Author ev)
      else true
  end.

(** ** Who is allowed *)

(** The authors a snapshot lets through: everyone when it names nobody, otherwise
    those it names, whatever their case and surrounding blanks. *)
Lemma allows_spec authors source a :
  let s := newSnapshot authors source in
  Allows s a = true ↔ sn_TrustedAuthors s = [] ∨ ∃ t, t ∈ sn_TrustedAuthors s ∧ normalizeAuthor t = normalizeAuthor a.
Proof.
  cbn zeta. unfold Allows, newSnapshot. cbn. case_bool_decide as He.
  - split; [|done]. intros _. left. destruct (parseAuthorList _) as [|t l]; [done|]. exfalso. cbn in He. set_solver.
  - rewrite bool_decide_eq_true, elem_of_list_to_set, list_elem_of_fmap. split; [naive_solver|].
    intros [Hn|(t & Ht & Hn)]; [|by eauto]. rewrite Hn in He. done.
Qed.

Lemma restricted_spec authors source :
  IsRestricted (newSnapshot authors source) = true ↔ sn_TrustedAuthors (newSnapshot authors source) ≠ [].
Proof. unfold IsRestricted. rewrite Nat.ltb_lt. destruct (sn_TrustedAuthors _); cbn; split; (done || lia). Qed.
