(* ===== verification/Dependency.v ===== *)
(** * Issue dependencies

    [internal/dependency]: the [workbuddy.depends_on] block of an issue body,
    reference normalization, cycle detection, the per-issue verdict, the pass
    over all open issues, and the dispatch gate.

    The YAML library is a parameter: what [yaml.Unmarshal] gives for the
    struct and for a node tree.  So is the GitHub reader.  Go ranges over a map
    of open issues; the order is an argument of the pass. *)

From S2P Require Import Prelude GoLib Json Sha256 Types DB TaskQueue StoreIssue World.
From Stdlib Require Import Ascii.

(** ** The libraries *)

(** [yaml.Node] as far as the code looks at it. *)
Inductive YKind := DocumentNode | MappingNode | SequenceNode | ScalarNode | AliasNode.
#[export] Instance YKind_eq_dec : EqDecision YKind.
Proof. solve_decision. Defined.
Inductive YNode := mkNode (kind : YKind) (value : string) (line : Z) (content : list YNode).
Definition yn_Kind (n : YNode) : YKind := let '(mkNode k _ _ _) := n in k.
Definition yn_Value (n : YNode) : string := let '(mkNode _ v _ _) := n in v.
Definition yn_Line (n : YNode) : Z := let '(mkNode _ _ l _) := n in l.
Definition yn_Content (n : YNode) : list YNode := let '(mkNode _ _ _ c) := n in c.

(** [None] is an error; [Some None] a nil [depends_on]. *)
Class YamlLib := {
  yaml_depends_on : string → option (option (list string));
  yaml_node : string → option YNode
}.

(** [IssueReader.ReadIssue]: an error is its text. *)
Definition IssueReader : Type := string → Z → string + IssueDetails.

(** ** Text helpers *)

Definition newline : ascii := "010".
Fixpoint count_newlines (s : string) : Z :=
  match s with
  | EmptyString => 0
  | String c s => (if Ascii.eqb c newline then 1 else 0) + count_newlines s
  end.

(** [\s] of the regexp package. *)
Definition re_space (c : ascii) : bool :=
  byte_is c 9 || byte_is c 10 || byte_is c 12 || byte_is c 13 || byte_is c 32.
Fixpoint span_space (s : string) : string * string :=
  match s with
  | EmptyString => (EmptyString, EmptyString)
  | String c s' => if re_space c then let p := span_space s' in (String c p.1, p.2)
                   else (EmptyString, s)
  end.
(** Split after the last newline. *)
Fixpoint after_last_newline (s : string) : option (string * string) :=
  match s with
  | EmptyString => None
  | String c s' =>
      match after_last_newline s' with
      | Some p => Some (String c p.1, p.2)
      | None => if Ascii.eqb c newline then Some (String c EmptyString, s') else None
      end
  end.
Fixpoint split_at (sep s : string) : option (string * string) :=
  if HasPrefix s sep then Some (EmptyString, TrimPrefix s sep)
  else match s with
       | EmptyString => None
       | String c s' => match split_at sep s' with
                        | Some p => Some (String c p.1, p.2)
                        | None => None
                        end
       end.

Definition fence_open : string := "```yaml".
Definition fence_close : string := "```".

(** [yamlFenceRe.FindAllStringSubmatchIndex]: every block with the number of
    newlines before it.  [\s*\n] takes the whole run of spaces up to its last
    newline; the block ends at the first closing fence. *)
Fixpoint yaml_fences (fuel : nat) (s : string) (before : Z) : list (string * Z) :=
  match fuel with
  | O => []
  | S fuel =>
      let step :=
        match s with
        | EmptyString => []
        | String c s' => yaml_fences fuel s' (before + if Ascii.eqb c newline then 1 else 0)
        end in
      if HasPrefix s fence_open then
        let p := span_space (TrimPrefix s fence_open) in
        match after_last_newline p.1 with
        | None => step
        | Some (skipped, tail) =>
            match split_at fence_close (tail +:+ p.2) with
            | None => step
            | Some (block, rest) =>
                let start := before + count_newlines skipped in
                (block, start) :: yaml_fences fuel rest (start + count_newlines block)
            end
        end
      else step
  end.

(** ** References *)

Record ParsedDependency := mkParsed {
  pd_Raw : string;
  pd_Repo : string;
  pd_IssueNum : Z;
  pd_Status : string;
  pd_Normalized : string;
  pd_ParseErrorReason : string;
  pd_Line : Z
}.

Record ParsedDeclaration := mkDecl {
  decl_Dependencies : list ParsedDependency;
  decl_SourceHash : string;
  decl_HasBlock : bool
}.

(** [[1-9][0-9]*]. *)
Definition issue_digits (s : string) : bool :=
  match s with
  | EmptyString => false
  | String c s' => byte_in c 49 57 && all_str is_digit s'
  end.
(** [[A-Za-z0-9_.-]+]. *)
Definition repo_part (s : string) : bool :=
  negb (bool_decide (s = EmptyString)) &&
  all_str (λ c, byte_in c 65 90 || byte_in c 97 122 || is_digit c
                || byte_is c 95 || byte_is c 46 || byte_is c 45) s.

Definition local_ref (s : string) : option string :=
  if HasPrefix s "#" && issue_digits (TrimPrefix s "#") then Some (TrimPrefix s "#") else None.
Definition fq_ref (s : string) : option (string * string) :=
  match split_at "/" s with
  | None => None
  | Some (owner, rest) =>
      match split_at "#" rest with
      | None => None
      | Some (name, digits) =>
          if repo_part owner && repo_part name && issue_digits digits
          then Some (owner +:+ "/" +:+ name, digits) else None
      end
  end.

(** [strings.ReplaceAll] of a backslash followed by [c] with [c]. *)
Fixpoint unescape (c : ascii) (s : string) : string :=
  match s with
  | EmptyString => EmptyString
  | String a s' =>
      match s' with
      | String b s'' => if Ascii.eqb a bslash && Ascii.eqb b c then String c (unescape c s'')
                        else String a (unescape c s')
      | EmptyString => String a EmptyString
      end
  end.

Definition squote : ascii := "039".
Definition last_byte (s : string) : option ascii :=
  match rev_str s EmptyString with String c _ => Some c | EmptyString => None end.
Definition stripMatchingQuotes (raw : string) : string :=
  let n := String.length raw in
  if (n <? 2)%nat then raw
  else
    let inner := take_str (n - 2) (drop_str 1 raw) in
    let both (q : ascii) := match raw with
                            | String a _ => Ascii.eqb a q && bool_decide (last_byte raw = Some q)
                            | EmptyString => false
                            end in
    if both dquote then inner else if both squote then inner else raw.

Definition normalizeDependencyRef (raw : string) : string :=
  TrimSpace (stripMatchingQuotes (unescape squote (unescape dquote (TrimSpace raw)))).

Definition normalizeDependency (repo raw : string) : ParsedDependency :=
  let raw := TrimSpace raw in
  let canonical := normalizeDependencyRef raw in
  let invalid reason := mkParsed raw EmptyString 0 DependencyStatusInvalid EmptyString reason 0 in
  let found r num :=
    mkParsed raw r num
      (if bool_decide (r = repo) then DependencyStatusActive else DependencyStatusUnsupportedCrossRepo)
      (if negb (bool_decide (r = EmptyString)) then r +:+ "#" +:+ itoa num else EmptyString)
      EmptyString 0 in
  match local_ref canonical with
  | Some digits =>
      match atoi digits with
      | Some num => if num <=? 0 then invalid "invalid_issue_number" else found repo num
      | None => invalid "invalid_issue_number"
      end
  | None =>
      match fq_ref canonical with
      | Some (r, digits) =>
          match atoi digits with
          | Some num => if num <=? 0 then invalid "invalid_repo_issue" else found r num
          | None => invalid "invalid_repo_issue"
          end
      | None => invalid "invalid_format"
      end
  end.

(** ** The declaration *)

(** [lookupMappingValue]: the value after the first key that matches. *)
Fixpoint mapping_value (content : list YNode) (key : string) : option YNode :=
  match content with
  | k :: v :: rest => if bool_decide (yn_Value k = key) then Some v else mapping_value rest key
  | _ => None
  end.
Definition lookupMappingValue (node : YNode) (key : string) : option YNode :=
  if bool_decide (yn_Kind node = MappingNode) then mapping_value (yn_Content node) key else None.

Definition marshal_dep (d : ParsedDependency) : string :=
  "{" +:+ enc_string "Raw" +:+ ":" +:+ enc_string (pd_Raw d)
  +:+ "," +:+ enc_string "Repo" +:+ ":" +:+ enc_string (pd_Repo d)
  +:+ "," +:+ enc_string "IssueNum" +:+ ":" +:+ itoa (pd_IssueNum d)
  +:+ "," +:+ enc_string "Status" +:+ ":" +:+ enc_string (pd_Status d)
  +:+ "," +:+ enc_string "Normalized" +:+ ":" +:+ enc_string (pd_Normalized d)
  +:+ "," +:+ enc_string "ParseErrorReason" +:+ ":" +:+ enc_string (pd_ParseErrorReason d)
  +:+ "," +:+ enc_string "Line" +:+ ":" +:+ itoa (pd_Line d) +:+ "}".

(** [json.Marshal] of the slice; a nil slice is null. *)
Definition dependenciesSignature (deps : list ParsedDependency) : string :=
  match deps with [] => "null" | _ => "[" +:+ join_str "," (marshal_dep <$> deps) +:+ "]" end.

Definition set_line (n : Z) (d : ParsedDependency) : ParsedDependency :=
  mkParsed (pd_Raw d) (pd_Repo d) (pd_IssueNum d) (pd_Status d) (pd_Normalized d)
    (pd_ParseErrorReason d) n.

Definition parsed_le (a b : ParsedDependency) : bool :=
  if negb (bool_decide (pd_Normalized a = pd_Normalized b)) then String.leb (pd_Normalized a) (pd_Normalized b)
  else if negb (bool_decide (pd_Raw a = pd_Raw b)) then String.leb (pd_Raw a) (pd_Raw b)
  else pd_Line a <=? pd_Line b.

(** The loop over the raw entries: lines are handed out in order, a normalized
    reference is kept once. *)
Fixpoint collect_deps (repo : string) (raws : list string) (lines : gmap string (list Z))
    (seen : gset string) : list ParsedDependency :=
  match raws with
  | [] => []
  | raw :: raws =>
      let parsed := normalizeDependency repo raw in
      let '(parsed, lines) :=
        match lines !! pd_Raw parsed with
        | Some (l :: rest) => (set_line l parsed, <[pd_Raw parsed := rest]> lines)
        | _ => (parsed, lines)
        end in
      if negb (bool_decide (pd_Normalized parsed = EmptyString)) then
        if bool_decide (pd_Normalized parsed ∈ seen) then collect_deps repo raws lines seen
        else parsed :: collect_deps repo raws lines ({[pd_Normalized parsed]} ∪ seen)
      else parsed :: collect_deps repo raws lines seen
  end.

Definition no_decl : ParsedDeclaration := mkDecl [] EmptyString false.

Section parse.
Context `{YamlLib}.

Definition dependencyEntryLines (block : string) (blockStartLine : Z) : gmap string (list Z) :=
  match yaml_node block with
  | None => ∅
  | Some root =>
      match yn_Content root with
      | [] => ∅
      | top :: _ =>
          match lookupMappingValue top "workbuddy" with
          | None => ∅
          | Some wb =>
              match lookupMappingValue wb "depends_on" with
              | None => ∅
              | Some seq =>
                  if negb (bool_decide (yn_Kind seq = SequenceNode)) then ∅
                  else foldl (λ m item,
                         if bool_decide (yn_Kind item = ScalarNode) then
                           <[yn_Value item := default [] (m !! yn_Value item) ++
                                              [blockStartLine + yn_Line item - 1]]> m
                         else m) ∅ (yn_Content seq)
              end
          end
      end
  end.

Definition decl_of_block (repo block : string) (startLine : Z) (raws : list string) : ParsedDeclaration :=
  let deps := sort_by parsed_le
                (collect_deps repo raws (dependencyEntryLines block startLine) ∅) in
  mkDecl deps (hash_parts [block; dependenciesSignature deps]) true.

Fixpoint first_decl (repo : string) (fences : list (string * Z)) : ParsedDeclaration :=
  match fences with
  | [] => no_decl
  | (block, before) :: fences =>
      match yaml_depends_on block with
      | Some (Some raws) => decl_of_block repo block (1 + before) raws
      | _ => first_decl repo fences
      end
  end.

Definition ParseDeclaration (repo body : string) : ParsedDeclaration :=
  first_decl repo (yaml_fences (S (String.length body)) body 0).
End parse.

(** ** Cycles *)

Inductive color := white | gray | black.
#[export] Instance color_eq_dec : EqDecision color.
Proof. solve_decision. Defined.

Record Dfs := mkDfs {
  dfs_colors : gmap Z color;
  dfs_stack : list Z;
  dfs_out : gmap Z (list string)
}.

Definition color_of (s : Dfs) (n : Z) : color := default white (dfs_colors s !! n).
Definition succs (graph : gmap Z (list Z)) (n : Z) : list Z := default [] (graph !! n).

(** From the first occurrence of [target] on; all of the stack when there is none. *)
Fixpoint drop_until (target : Z) (l : list Z) : option (list Z) :=
  match l with
  | [] => None
  | n :: l' => if n =? target then Some l else drop_until target l'
  end.
Definition extractCyclePath (stack : list Z) (target : Z) : list Z :=
  default stack (drop_until target stack) ++ [target].
Definition formatCycle (path : list Z) : list string := (λ n, "#" +:+ itoa n) <$> path.

Definition paint (n : Z) (c : color) (s : Dfs) : Dfs :=
  mkDfs (<[n := c]> (dfs_colors s)) (dfs_stack s) (dfs_out s).
Definition push (n : Z) (s : Dfs) : Dfs := mkDfs (dfs_colors s) (dfs_stack s ++ [n]) (dfs_out s).
Definition pop (s : Dfs) : Dfs :=
  mkDfs (dfs_colors s) (take (length (dfs_stack s) - 1) (dfs_stack s)) (dfs_out s).
Definition report_cycle (next : Z) (s : Dfs) : Dfs :=
  let path := extractCyclePath (dfs_stack s) next in
  mkDfs (dfs_colors s) (dfs_stack s)
    (foldl (λ m n, <[n := formatCycle path]> m) (dfs_out s) path).

(** The loop over the successors, given what a visit does.  [None] when the
    fuel runs out. *)
Fixpoint visit_loop (visit : Z → Dfs → option Dfs) (nexts : list Z) (s : Dfs) : option Dfs :=
  match nexts with
  | [] => Some s
  | next :: nexts =>
      match color_of s next with
      | white => s ← visit next s; visit_loop visit nexts s
      | gray => visit_loop visit nexts (report_cycle next s)
      | black => visit_loop visit nexts s
      end
  end.
Fixpoint visit (fuel : nat) (graph : gmap Z (list Z)) (node : Z) (s : Dfs) : option Dfs :=
  match fuel with
  | O => None
  | S fuel =>
      s ← visit_loop (visit fuel graph) (succs graph node) (push node (paint node gray s));
      Some (paint node black (pop s))
  end.

Fixpoint visit_keys (fuel : nat) (graph : gmap Z (list Z)) (keys : list Z) (s : Dfs) : option Dfs :=
  match keys with
  | [] => Some s
  | n :: keys => s ← (if decide (color_of s n = white) then visit fuel graph n s else Some s);
                 visit_keys fuel graph keys s
  end.

(** Every node that occurs. *)
Definition graph_nodes (graph : gmap Z (list Z)) : list Z :=
  (map_to_list graph).*1 ++ concat (map_to_list graph).*2.

Definition cycle_fuel (graph : gmap Z (list Z)) : nat := S (length (graph_nodes graph)).

Definition detectCycles (graph : gmap Z (list Z)) : option (gmap Z (list string)) :=
  dfs_out <$> visit_keys (cycle_fuel graph) graph
                (sort_by Z.leb (map_to_list graph).*1) (mkDfs ∅ [] ∅).

(** ** Verdicts *)

Definition OverrideLabel : string := "override:force-unblock".
Definition StatusBlocked : string := "status:blocked".
Definition StatusDone : string := "status:done".
Definition StatusFailed : string := "status:failed".

Definition hasLabel (labels : list string) (want : string) : bool := bool_decide (want ∈ labels).

Definition classifyOpenDependency (labels : list string) : string :=
  if hasLabel labels StatusDone then "done"
  else if hasLabel labels StatusFailed then "failed" else "open".

Definition findResumeLabel (labels : list string) (fallback : string) : string :=
  default fallback
    (List.find (λ l, HasPrefix l "status:" && negb (bool_decide (l = StatusBlocked))) labels).

Definition labelsFromJSON (raw : string) : list string :=
  if is_blank raw then []
  else match unmarshal_strings raw with Some (Some l) => l | _ => [] end.

(** [ghutil.IsRateLimit] on the text of the error. *)
Definition IsRateLimit (err : string) : bool := Contains (ToLower err) "rate limit".

(** [ghutil.RedactTokens]; the patterns ignore the case of ASCII letters. *)
Definition token_char (c : ascii) : bool :=
  byte_in c 65 90 || byte_in c 97 122 || is_digit c || byte_is c 95.
Fixpoint span_token (s : string) : string * string :=
  match s with
  | EmptyString => (EmptyString, EmptyString)
  | String c s' => if token_char c then let p := span_token s' in (String c p.1, p.2)
                   else (EmptyString, s)
  end.
Fixpoint redact (fuel : nat) (prefix s : string) : string :=
  match fuel with
  | O => s
  | S fuel =>
      match s with
      | EmptyString => EmptyString
      | String c s' =>
          let n := String.length prefix in
          let p := span_token (drop_str n s) in
          if bool_decide (ToLower (take_str n s) = prefix) && (20 <=? String.length p.1)%nat
          then "[REDACTED]" +:+ redact fuel prefix p.2
          else String c (redact fuel prefix s')
      end
  end.
Definition RedactTokens (raw : string) : string :=
  foldl (λ s prefix, redact (S (String.length s)) prefix s) raw ["ghp_"; "ghs_"; "github_pat_"].

Record ResolveAcc := mkAcc {
  ra_verdict : string;
  ra_reasons : list string;
  ra_closed : gmap Z IssueDetails
}.

Definition acc_human (reason : string) (a : ResolveAcc) : ResolveAcc :=
  mkAcc DependencyVerdictNeedsHuman (ra_reasons a ++ [reason]) (ra_closed a).
Definition acc_blocked (reason : string) (a : ResolveAcc) : ResolveAcc :=
  mkAcc (if bool_decide (ra_verdict a = DependencyVerdictReady) then DependencyVerdictBlocked
         else ra_verdict a)
    (ra_reasons a ++ [reason]) (ra_closed a).

(** The details of a dependency that is not among the open issues: cached, or
    read and then cached. *)
Definition read_closed (reader : IssueReader) (repo : string) (issueNum : Z) (dep : ParsedDependency)
    (a : ResolveAcc) : St World (option IssueDetails * ResolveAcc) :=
  match ra_closed a !! pd_IssueNum dep with
  | Some d => mret (Some d, a)
  | None =>
      if negb (bool_decide (pd_Repo dep = repo)) then mret (None, a)
      else match reader repo (pd_IssueNum dep) with
           | inr d => mret (Some d, mkAcc (ra_verdict a) (ra_reasons a)
                                      (<[pd_IssueNum dep := d]> (ra_closed a)))
           | inl err =>
               (if IsRateLimit err then
                  Log "rate_limit" repo issueNum
                    [("source", JS "dependency_resolver"); ("dep", JS (pd_Normalized dep));
                     ("error", JS (RedactTokens err))]
                else mret tt);;
               mret (None, a)
           end
  end.

(** What the details of such a dependency mean. *)
Definition resolve_closed (dep : ParsedDependency) (p : option IssueDetails * ResolveAcc) : ResolveAcc :=
  match p.1 with
  | Some d =>
      if bool_decide (id_State d = "closed") then
        if id_ClosedByLinkedPR d then p.2
        else acc_blocked (pd_Normalized dep +:+ ":closed-without-linked-pr") p.2
      else acc_human (pd_Normalized dep +:+ ":unreadable") p.2
  | None => acc_human (pd_Normalized dep +:+ ":unreadable") p.2
  end.

Definition resolve_dep (reader : IssueReader) (repo : string) (issueNum : Z)
    (openIssues : gmap Z Issue) (a : ResolveAcc) (dep : ParsedDependency) : St World ResolveAcc :=
  if bool_decide (pd_Status dep = DependencyStatusUnsupportedCrossRepo) then
    mret (acc_human (pd_Normalized dep +:+ ":unsupported-cross-repo") a)
  else if bool_decide (pd_Status dep = DependencyStatusInvalid) then
    mret (acc_human (pd_Raw dep +:+ ":" +:+ pd_ParseErrorReason dep) a)
  else
    match openIssues !! pd_IssueNum dep with
    | Some depIssue =>
        if bool_decide (pd_Repo dep = repo) then
          let status := classifyOpenDependency (is_Labels depIssue) in
          mret (if bool_decide (status = "done") then a
                else acc_blocked (pd_Normalized dep +:+ (if bool_decide (status = "failed") then ":failed"
                                                         else ":open")) a)
        else
          p ← read_closed reader repo issueNum dep a;
          mret (resolve_closed dep p)
    | None =>
        p ← read_closed reader repo issueNum dep a;
        mret (resolve_closed dep p)
    end.

Fixpoint resolve_deps (reader : IssueReader) (repo : string) (issueNum : Z) (openIssues : gmap Z Issue)
    (deps : list ParsedDependency) (a : ResolveAcc) : St World ResolveAcc :=
  match deps with
  | [] => mret a
  | dep :: deps =>
      a' ← resolve_dep reader repo issueNum openIssues a dep;
      resolve_deps reader repo issueNum openIssues deps a'
  end.

(** [buildResolveResult]: the state to persist and the cache of closed issues. *)
Definition buildResolveResult (E : Env) (reader : IssueReader) (repo : string) (issue : Issue)
    (decl : ParsedDeclaration) (graphVersion : Z) (cyclePath : list string)
    (openIssues : gmap Z Issue) (closedCache : gmap Z IssueDetails) :
    St World (IssueDependencyState * gmap Z IssueDetails) :=
  let start :=
    match cyclePath with
    | [] => mkAcc DependencyVerdictReady [] closedCache
    | _ => mkAcc DependencyVerdictNeedsHuman ["cycle:" +:+ join_str " -> " cyclePath] closedCache
    end in
  a ← resolve_deps reader repo (is_Number issue) openIssues (decl_Dependencies decl) start;
  let overrideActive := hasLabel (is_Labels issue) OverrideLabel in
  mret (mkDepState repo (is_Number issue)
          (if overrideActive then DependencyVerdictOverride else ra_verdict a)
          (findResumeLabel (is_Labels issue) EmptyString)
          (hash_parts (ra_reasons a)) overrideActive graphVersion false (Some (e_now E)),
        ra_closed a).

(** ** The gate *)

Definition gated (verdict : string) : bool :=
  bool_decide (verdict = DependencyVerdictBlocked) || bool_decide (verdict = DependencyVerdictNeedsHuman).

(** [IsBlocked]: whether dispatch is gated, and the verdict observed. *)
Definition IsBlocked (E : Env) (repo : string) (issueNum : Z) : St DB (res (bool * string)) :=
  depState ←! wrapE "query dependency state" (QueryIssueDependencyState E repo issueNum);
  mret (Ok match depState with
           | None => (false, EmptyString)
           | Some s => (gated (ds_Verdict s), ds_Verdict s)
           end).

(** ** The pass over the open issues *)

Definition invalidDependencies (deps : list ParsedDependency) : list ParsedDependency :=
  List.filter (λ d, bool_decide (pd_Status d = DependencyStatusInvalid)) deps.

Definition invalidDependencyPayload (invalid : list ParsedDependency) : list (list (string * jval)) :=
  (λ d, [("raw", JS (pd_Raw d)); ("parse_error_reason", JS (pd_ParseErrorReason d))]
        ++ (if 0 <? pd_Line d then [("line", JI (pd_Line d))] else [])) <$> invalid.

(** The hint is the sentence built from these two arguments. *)
Definition invalidDependencyHint (invalid : list ParsedDependency) : jval :=
  match invalid with
  | [] => JO []
  | d :: _ => JO [[("line", JI (pd_Line d)); ("raw", JS (pd_Raw d))]]
  end.

Definition clearPipelineHazardIfKind (E : Env) (repo : string) (issueNum : Z) (kind : string) :
    St World (res unit) :=
  prev ←! wrapE "dependency: query pipeline hazard" (lift (QueryIssuePipelineHazard E repo issueNum));
  match prev with
  | None => mret (Ok tt)
  | Some h => if negb (bool_decide (hz_Kind h = kind)) then mret (Ok tt)
              else wrapE "dependency: clear pipeline hazard" (lift (ClearIssuePipelineHazard E repo issueNum))
  end.

Definition syncMalformedDependencyHazard (E : Env) (repo : string) (issueNum : Z)
    (decl : ParsedDeclaration) : St World (res unit) :=
  let invalid := invalidDependencies (decl_Dependencies decl) in
  match invalid with
  | [] => clearPipelineHazardIfKind E repo issueNum HazardKindMalformedDependencyRef
  | _ =>
      let fingerprint :=
        hash_parts ["malformed_dependency_ref"; decl_SourceHash decl; dependenciesSignature invalid] in
      changed ←! wrapE "dependency: upsert malformed dependency hazard"
                   (lift (UpsertIssuePipelineHazard E repo issueNum HazardKindMalformedDependencyRef fingerprint));
      (if negb changed then mret tt
       else Log "issue_dependency_unentered" repo issueNum
              [("reason", JS "unparseable_ref"); ("depends_on", JL (pd_Raw <$> invalid));
               ("invalid_dependencies", JO (invalidDependencyPayload invalid));
               ("hint", invalidDependencyHint invalid)]);;
      mret (Ok tt)
  end.

(** The references that name an issue. *)
Definition usable_dep (d : ParsedDependency) : bool :=
  negb (bool_decide (pd_Repo d = EmptyString)) && negb (pd_IssueNum d <=? 0).
Definition dep_rows (repo : string) (num : Z) (decl : ParsedDeclaration) : list dep_row :=
  (λ d, (repo, num, pd_Repo d, pd_IssueNum d, mkDep (decl_SourceHash decl) (pd_Status d)))
    <$> List.filter usable_dep (decl_Dependencies decl).
(** The edges of the graph: active references inside the repository. *)
Definition dep_edges (repo : string) (decl : ParsedDeclaration) : list Z :=
  pd_IssueNum <$> List.filter (λ d, usable_dep d && bool_decide (pd_Status d = DependencyStatusActive)
                                    && bool_decide (pd_Repo d = repo)) (decl_Dependencies decl).

Definition open_issues (caches : list IssueCache) : gmap Z Issue :=
  foldl (λ m ic, <[ic_IssueNum ic := mkIssue (ic_IssueNum ic) EmptyString (ic_State ic)
                      (labelsFromJSON (ic_Labels ic)) (ic_Body ic) EmptyString]> m) ∅
    (List.filter (λ ic, bool_decide (ic_State ic = "open")) caches).

Section evaluate.
Context `{YamlLib} (E : Env) (reader : IssueReader) (bus : bool).
(** The order in which Go visits the map, once per loop, and whether the
    context is cancelled when an issue's turn comes. *)
Context (order1 order2 : list (Z * Issue) → list (Z * Issue)) (cancelled : Z → bool).

Definition issue_decl (repo : string) (i : Issue) : ParsedDeclaration := ParseDeclaration repo (is_Body i).

Definition issue_graph (repo : string) (issues : gmap Z Issue) : gmap Z (list Z) :=
  omap (λ i, match dep_edges repo (issue_decl repo i) with [] => None | l => Some l end) issues.

Definition sync_issue (repo : string) (p : Z * Issue) : St World (res unit) :=
  let decl := issue_decl repo p.2 in
  _ ←! syncMalformedDependencyHazard E repo p.1 decl;
  lift (ReplaceIssueDependencies E repo p.1 (dep_rows repo p.1 decl)).

(** The part of the second loop that logs; whether the issue is unblocked. *)
Definition log_verdict (repo : string) (num graphVersion : Z) (prev : option IssueDependencyState)
    (st : IssueDependencyState) (cycle : option (list string)) : St World bool :=
  let changed :=
    match prev with
    | None => true
    | Some p => negb (bool_decide (ds_Verdict p = ds_Verdict st))
                || negb (bool_decide (ds_BlockedReasonHash p = ds_BlockedReasonHash st))
                || negb (bool_decide (ds_OverrideActive p = ds_OverrideActive st))
    end in
  (if changed then
     Log "dependency_verdict_changed" repo num
       [("verdict", JS (ds_Verdict st)); ("override_active", JB (ds_OverrideActive st));
        ("graph_version", JI graphVersion)]
   else mret tt);;
  match cycle with
  | Some path =>
      Log "dependency_cycle_detected" repo num [("cycle_path", JL path)];;
      publishAlert E bus "dependency_cycle_detected" SeverityError repo num EmptyString
        [("cycle_path", JL path)]
  | None => mret tt
  end;;
  (if ds_OverrideActive st then
     Log "dependency_override_activated" repo num [("resume_label", JS (ds_ResumeLabel st))]
   else mret tt);;
  mret (changed && match prev with
                   | None => false
                   | Some p => gated (ds_Verdict p) &&
                       (bool_decide (ds_Verdict st = DependencyVerdictReady)
                        || bool_decide (ds_Verdict st = DependencyVerdictOverride))
                   end).

Definition set_resume (l : string) (s : IssueDependencyState) : IssueDependencyState :=
  mkDepState (ds_Repo s) (ds_IssueNum s) (ds_Verdict s) l (ds_BlockedReasonHash s)
    (ds_OverrideActive s) (ds_GraphVersion s) (ds_LastReactionBlocked s) (ds_LastEvaluatedAt s).

(** One turn of the second loop: the closed-issue cache and the unblocked
    issues so far are carried along. *)
Definition evaluate_issue (repo : string) (graphVersion : Z) (issues : gmap Z Issue)
    (cycles : gmap Z (list string)) (num : Z) (issue : Issue)
    (acc : gmap Z IssueDetails * list Z) : St World (res (gmap Z IssueDetails * list Z)) :=
  if cancelled num then mret (Err ErrContext)
  else
    let decl := issue_decl repo issue in
    p ← buildResolveResult E reader repo issue decl graphVersion (default [] (cycles !! num)) issues acc.1;
    prev ←! lift (QueryIssueDependencyState E repo num);
    if negb (decl_HasBlock decl) && negb (bool_decide (is_Some prev)) then mret (Ok (p.2, acc.2))
    else
      let st := match prev with
                | Some q => if negb (bool_decide (ds_ResumeLabel q = EmptyString))
                               && bool_decide (ds_ResumeLabel p.1 = EmptyString)
                            then set_resume (ds_ResumeLabel q) p.1 else p.1
                | None => p.1
                end in
      _ ←! lift (UpsertIssueDependencyState E st);
      u ← log_verdict repo num graphVersion prev st (cycles !! num);
      mret (Ok (p.2, if (u : bool) then acc.2 ++ [num] else acc.2)).

Fixpoint evaluate_loop (repo : string) (graphVersion : Z) (issues : gmap Z Issue)
    (cycles : gmap Z (list string)) (l : list (Z * Issue)) (acc : gmap Z IssueDetails * list Z) :
    St World (res (list Z)) :=
  match l with
  | [] => mret (Ok acc.2)
  | p :: l => acc ←! evaluate_issue repo graphVersion issues cycles p.1 p.2 acc;
              evaluate_loop repo graphVersion issues cycles l acc
  end.

Definition EvaluateOpenIssues (repo : string) (graphVersion : Z) : St World (res (list Z)) :=
  caches ←! lift (ListIssueCaches E repo);
  let issues := open_issues caches in
  _ ←! forE (order1 (map_to_list issues)) (sync_issue repo);
  let cycles := default ∅ (detectCycles (issue_graph repo issues)) in
  evaluate_loop repo graphVersion issues cycles (order2 (map_to_list issues)) (∅, []).
End evaluate.
