(* ===== verification/Poller.v ===== *)
(** * The poller

    [internal/poller]: one cycle lists the open issues and pull requests,
    compares them with the issue cache, and only then commits the cache
    updates and emits the events.

    The GitHub reader is a parameter.  [cancelled n] says whether the [n]-th
    look at the context finds it cancelled.  Fault injection hooks are off. *)

From S2P Require Import Prelude GoLib Json Types DB TaskQueue IssueClaim StoreIssue World Dependency.
From Stdlib Require Import Ascii.

Definition DefaultResyncInterval : Z := 5 * minute.
Definition ghListLimit : Z := 100.
Definition maxBackoff : Z := 15 * minute.

(** The poller's own state, beside the world it acts on; [po_events] is what
    has been sent on the channel. *)
Record PollState := mkPoll {
  po_world : World;
  po_backoff : Z;
  po_lastResyncAt : gmap Z Z;
  po_events : list ChangeEvent;
  po_checks : nat
}.
Definition upd_po_world (g : World → World) (x : PollState) : PollState :=
  mkPoll (g (po_world x)) (po_backoff x) (po_lastResyncAt x) (po_events x) (po_checks x).
Definition upd_po_backoff (g : Z → Z) (x : PollState) : PollState :=
  mkPoll (po_world x) (g (po_backoff x)) (po_lastResyncAt x) (po_events x) (po_checks x).
Definition upd_po_lastResyncAt (g : gmap Z Z → gmap Z Z) (x : PollState) : PollState :=
  mkPoll (po_world x) (po_backoff x) (g (po_lastResyncAt x)) (po_events x) (po_checks x).
Definition upd_po_events (g : list ChangeEvent → list ChangeEvent) (x : PollState) : PollState :=
  mkPoll (po_world x) (po_backoff x) (po_lastResyncAt x) (g (po_events x)) (po_checks x).
Definition upd_po_checks (g : nat → nat) (x : PollState) : PollState :=
  mkPoll (po_world x) (po_backoff x) (po_lastResyncAt x) (po_events x) (g (po_checks x)).

Definition on_world {A} (m : St World A) : St PollState A :=
  λ s, let r := m (po_world s) in (r.1, upd_po_world (λ _, r.2) s).

(** What the poller reads of GitHub; an error is its text. *)
Record GHReader := mkReader {
  gh_ListIssues : string + list Issue;
  gh_ListPRs : string + list PR
}.

(** ** Helpers *)

Definition labelsToJSON (labels : list string) : string := marshal_strings (Some (sort_strings labels)).

Definition labelsFromJSON (s : string) : list string :=
  if bool_decide (s = EmptyString) then []
  else match unmarshal_strings s with Some (Some l) => l | _ => [] end.

Definition diffLabels (old new : list string) : list string * list string :=
  (List.filter (λ l, negb (bool_decide (l ∈ old))) new, List.filter (λ l, negb (bool_decide (l ∈ new))) old).

(** [(?:^|/)issue-(\d+)(?:[/-]|$)]: the digits are a maximal run. *)
Definition issue_at (s : string) : option string :=
  if HasPrefix s "issue-" then
    let p := span_digits (TrimPrefix s "issue-") in
    if bool_decide (p.1 = EmptyString) then None
    else match p.2 with
         | EmptyString => Some p.1
         | String c _ => if byte_is c 47 || byte_is c 45 then Some p.1 else None
         end
  else None.
Fixpoint issue_after_slash (s : string) : option string :=
  match s with
  | EmptyString => None
  | String c s' =>
      match (if byte_is c 47 then issue_at s' else None) with
      | Some d => Some d
      | None => issue_after_slash s'
      end
  end.
Definition branchIssue (s : string) : option string :=
  match issue_at s with Some d => Some d | None => issue_after_slash s end.
Definition parentIssueFromBranch (branch : string) : Z :=
  match branchIssue branch with
  | None => 0
  | Some digits => match atoi digits with Some n => if n <=? 0 then 0 else n | None => 0 end
  end.

(** The branch a task works on ([workspace.Manager.Create]). *)
Definition branchName (issueNum rolloutIndex : Z) : string :=
  if 0 <? rolloutIndex then "workbuddy/issue-" +:+ itoa issueNum +:+ "/rollout-" +:+ itoa rolloutIndex
  else "workbuddy/issue-" +:+ itoa issueNum.

(** ** Deferred cache updates *)

Inductive cacheOp :=
  | OpUpsert (ic : IssueCache)
  | OpClosed (num : Z)
  | OpResynced (num : Z).

Section poller.
Context (E : Env) (gh : GHReader) (cancelled : nat → bool) (repo : string) (resyncInterval : Z).

(** [ctx.Err() != nil]. *)
Definition ctx_err : St PollState bool :=
  n ← getsS po_checks; modS (upd_po_checks S);; mret (cancelled n).

Definition run_op (op : cacheOp) : St PollState unit :=
  match op with
  | OpUpsert ic => _ ← on_world (lift (UpsertIssueCache E ic)); mret tt
  | OpClosed num =>
      r ← on_world (lift (DeleteIssueCache E repo num));
      match r with
      | Err _ => mret tt
      | Ok _ => _ ← on_world (lift (ClearIssuePipelineHazard E repo num));
                modS (upd_po_lastResyncAt (base.delete num))
      end
  | OpResynced num => modS (upd_po_lastResyncAt (<[num := e_now E]>))
  end.

Definition issue_event (ty : string) (iss : Issue) (detail : string) : ChangeEvent :=
  mkChange ty repo (is_Number iss) (is_Labels iss) detail (is_Author iss).

(** What changed about an issue, given its cached row. *)
Definition issue_events (cached : option IssueCache) (iss : Issue) : list ChangeEvent :=
  match cached with
  | None => [issue_event EventIssueCreated iss (is_Title iss)]
  | Some c =>
      let d := diffLabels (labelsFromJSON (ic_Labels c)) (is_Labels iss) in
      (issue_event EventLabelAdded iss <$> d.1) ++ (issue_event EventLabelRemoved iss <$> d.2)
  end.
Definition issue_row (iss : Issue) : IssueCache :=
  mkCache repo (is_Number iss) (labelsToJSON (is_Labels iss)) (is_Body iss) (ToLower (is_State iss))
    None 0 EmptyString.

(** [None] when the cache cannot be read. *)
Definition planDiffIssue (iss : Issue) : St PollState (option (list ChangeEvent * cacheOp * bool)) :=
  r ← on_world (lift (QueryIssueCache E repo (is_Number iss)));
  mret match r with
       | Err _ => None
       | Ok cached => Some (issue_events cached iss, OpUpsert (issue_row iss), bool_decide (is_Some cached))
       end.

Definition pr_state (pr : PR) : string := "pr:" +:+ ToLower (pr_State pr).
Definition pr_events (cached : option IssueCache) (pr : PR) : list ChangeEvent :=
  match cached with
  | None => [mkChange EventPRCreated repo (pr_Number pr) [] (pr_Branch pr) EmptyString]
  | Some c =>
      if negb (bool_decide (ic_State c = pr_state pr)) then
        [mkChange EventPRStateChanged repo (pr_Number pr) [] (ic_State c +:+ " -> " +:+ pr_state pr) EmptyString]
      else []
  end.
Definition pr_row (pr : PR) : IssueCache :=
  mkCache repo (pr_Number pr) EmptyString EmptyString (pr_state pr) None
    (parentIssueFromBranch (pr_Branch pr)) EmptyString.
Definition planDiffPR (pr : PR) : St PollState (option (list ChangeEvent * cacheOp)) :=
  r ← on_world (lift (QueryIssueCache E repo (pr_Number pr)));
  mret match r with
       | Err _ => None
       | Ok cached => Some (pr_events cached pr, OpUpsert (pr_row pr))
       end.

(** ** Rate limits *)

Definition logRateLimitEvent (scope err : string) : St PollState unit :=
  on_world (Log "rate_limit" repo 0
    [("source", JS "poller"); ("scope", JS scope); ("error", JS (RedactTokens err))]).
Definition next_backoff (b : Z) : Z :=
  Z.min maxBackoff (if b =? 0 then 60 * second else b * 2).
Definition applyBackoff : St PollState unit := modS (upd_po_backoff next_backoff).
Definition ResetBackoff : St PollState unit := modS (upd_po_backoff (λ _, 0)).
Definition list_failed (scope err : string) : St PollState unit :=
  if IsRateLimit err then logRateLimitEvent scope err;; applyBackoff else mret tt.

(** ** The collect phase

    Nothing but reads; [None] when the cycle is given up. *)

Record Plan := mkPlan {
  pl_pending : list ChangeEvent;
  pl_ops : list cacheOp;
  pl_candidates : list Issue;
  pl_first : list Z
}.

Fixpoint plan_issues (issues : list Issue) (p : Plan) : St PollState (option Plan) :=
  match issues with
  | [] => mret (Some p)
  | iss :: issues =>
      stop ← ctx_err;
      if (stop : bool) then mret None
      else
        r ← planDiffIssue iss;
        match r with
        | None => mret None
        | Some (evts, op, wasCached) =>
            let labelled := negb (bool_decide (is_Labels iss = [])) in
            plan_issues issues
              (mkPlan (pl_pending p ++ evts) (pl_ops p ++ [op])
                 (if wasCached && labelled then pl_candidates p ++ [iss] else pl_candidates p)
                 (if negb wasCached && labelled then pl_first p ++ [is_Number iss] else pl_first p))
        end
  end.

Definition plan_more (evts : list ChangeEvent) (ops : list cacheOp) (p : Plan) : Plan :=
  mkPlan (pl_pending p ++ evts) (pl_ops p ++ ops) (pl_candidates p) (pl_first p).

Fixpoint plan_prs (prs : list PR) (p : Plan) : St PollState (option Plan) :=
  match prs with
  | [] => mret (Some p)
  | pr :: prs =>
      stop ← ctx_err;
      if (stop : bool) then mret None
      else
        r ← planDiffPR pr;
        match r with
        | None => mret None
        | Some (evts, op) => plan_prs prs (plan_more evts [op] p)
        end
  end.

Definition closed_event (num : Z) : ChangeEvent :=
  mkChange EventIssueClosed repo num [] "issue no longer in open issues list" EmptyString.

Fixpoint plan_closed (seen : gset Z) (nums : list Z) (p : Plan) : St PollState (option Plan) :=
  match nums with
  | [] => mret (Some p)
  | num :: nums =>
      stop ← ctx_err;
      if (stop : bool) then mret None
      else if bool_decide (num ∈ seen) then plan_closed seen nums p
      else plan_closed seen nums (plan_more [closed_event num] [OpClosed num] p)
  end.

(** Closed issues are looked for only when the list is surely complete. *)
Definition plan_closes (issues : list Issue) (prs : list PR) (p : Plan) : St PollState (option Plan) :=
  if ghListLimit <=? Z.of_nat (length issues) then mret (Some p)
  else
    r ← on_world (lift (ListCachedIssueNums E repo));
    match r with
    | Err _ => mret None
    | Ok nums => plan_closed (list_to_set ((is_Number <$> issues) ++ (pr_Number <$> prs))) nums p
    end.

Definition resync_due (last : gmap Z Z) (iss : Issue) : bool :=
  match last !! is_Number iss with
  | Some t => negb (e_now E - t <? resyncInterval)
  | None => true
  end.
Definition plan_resyncs (p : Plan) : St PollState Plan :=
  last ← getsS po_lastResyncAt;
  let due := List.filter (resync_due last) (pl_candidates p) in
  mret (plan_more ((λ iss, issue_event EventIssueResynced iss (is_Title iss)) <$> due)
          ((OpResynced <$> (is_Number <$> due)) ++ (OpResynced <$> pl_first p)) p).

Definition collect : St PollState (option Plan) :=
  match gh_ListIssues gh with
  | inl err => list_failed "issues" err;; mret None
  | inr issues =>
      p ← plan_issues issues (mkPlan [] [] [] []);
      match p with
      | None => mret None
      | Some p =>
          match gh_ListPRs gh with
          | inl err => list_failed "prs" err;; mret None
          | inr prs =>
              p ← plan_prs prs p;
              match p with
              | None => mret None
              | Some p =>
                  p ← plan_closes issues prs p;
                  match p with
                  | None => mret None
                  | Some p => p ← plan_resyncs p; mret (Some p)
                  end
              end
          end
      end
  end.

(** ** The commit phase *)

Definition emit (ev : ChangeEvent) : St PollState unit :=
  stop ← ctx_err;
  if (stop : bool) then mret tt else modS (upd_po_events (λ l, l ++ [ev])).

(** Each loop ends early when the context is cancelled; [false] then. *)
Fixpoint run_ops (ops : list cacheOp) : St PollState bool :=
  match ops with
  | [] => mret true
  | op :: ops => stop ← ctx_err; if (stop : bool) then mret false else run_op op;; run_ops ops
  end.
Fixpoint emit_all (evs : list ChangeEvent) : St PollState bool :=
  match evs with
  | [] => mret true
  | ev :: evs => stop ← ctx_err; if (stop : bool) then mret false else emit ev;; emit_all evs
  end.

Definition commit (p : Plan) : St PollState unit :=
  ResetBackoff;;
  ok ← run_ops (pl_ops p);
  if negb ok then mret tt
  else
    ok ← emit_all (pl_pending p);
    if negb ok then mret tt
    else emit (mkChange EventPollCycleDone repo 0 [] EmptyString EmptyString).

Definition poll : St PollState unit :=
  p ← collect;
  match p with None => mret tt | Some p => commit p end.

(** A tick of [Run]: while a backoff is left the cycle is skipped. *)
Definition tick (interval : Z) : St PollState unit :=
  b ← getsS po_backoff;
  if 0 <? b then modS (upd_po_backoff (λ b, Z.max 0 (b - interval))) else poll.
End poller.
