(* ===== verification/Workflow.v ===== *)
(** * Workflow instances

    [internal/workflow]: the manager that keeps, per issue and workflow, the
    current state and the transition history. *)

From S2P Require Import Prelude GoLib Types DB TaskQueue StoreIssue.

Record StateTransition := mkTransition {
  st_From : string;
  st_To : string;
  st_Timestamp : Z;
  st_TriggerAgent : string
}.
Record WorkflowInstance := mkInstance {
  in_ID : string;
  in_WorkflowName : string;
  in_Repo : string;
  in_IssueNum : Z;
  in_CurrentState : string;
  in_History : list StateTransition;
  in_CreatedAt : Z;
  in_UpdatedAt : Z
}.

Definition makeInstanceID (repo : string) (issueNum : Z) (workflowName : string) : string :=
  repo +:+ "#" +:+ itoa issueNum +:+ "#" +:+ workflowName.

Definition instanceFromRow (r : WorkflowInstanceRow) (h : list StateTransition) : WorkflowInstance :=
  mkInstance (wi_ID r) (wi_WorkflowName r) (wi_Repo r) (wi_IssueNum r) (wi_CurrentState r) h
    (wi_CreatedAt r) (wi_UpdatedAt r).

Definition CreateIfMissing (E : Env) (repo : string) (issueNum : Z) (workflowName currentState : string) :
    St DB (res unit) :=
  wrapE "create workflow instance"
    (CreateWorkflowInstanceIfMissing E (makeInstanceID repo issueNum workflowName) workflowName repo
       issueNum currentState).

Definition Advance (E : Env) (repo : string) (issueNum : Z)
    (workflowName fromState toState triggerAgent : string) : St DB (res unit) :=
  r ← AdvanceWorkflowInstance E (makeInstanceID repo issueNum workflowName) fromState toState
        triggerAgent (e_now E);
  mret match r with
       | Ok _ => Ok tt
       | Err e => if errors_Is e ErrWorkflowInstanceNotFound then Err ErrWorkflowInstanceNotFound
                  else Err (EWrap "advance workflow instance" e)
       end.

Definition loadHistory (E : Env) (instanceID : string) : St DB (res (list StateTransition)) :=
  rows ←! wrapE "query workflow transitions" (QueryWorkflowTransitions E instanceID);
  mret (Ok ((λ r, mkTransition (wt_FromState r) (wt_ToState r) (wt_CreatedAt r) (wt_TriggerAgent r)) <$> rows)).

Fixpoint load_instances (E : Env) (rows : list WorkflowInstanceRow) : St DB (res (list WorkflowInstance)) :=
  match rows with
  | [] => mret (Ok [])
  | r :: rows =>
      h ←! loadHistory E (wi_ID r);
      rest ←! load_instances E rows;
      mret (Ok (instanceFromRow r h :: rest))
  end.

Definition QueryByRepoIssue (E : Env) (repo : string) (issueNum : Z) : St DB (res (list WorkflowInstance)) :=
  rows ←! wrapE "query workflow instances" (QueryWorkflowInstancesByRepoIssue E repo issueNum);
  load_instances E rows.

Definition GetByID (E : Env) (id : string) : St DB (res WorkflowInstance) :=
  r ← GetWorkflowInstanceByID E id;
  match r with
  | Err e => mret (Err (if errors_Is e ErrWorkflowInstanceNotFound then ErrWorkflowInstanceNotFound
                        else EWrap "query workflow instance by id" e))
  | Ok row => h ←! loadHistory E (wi_ID row); mret (Ok (instanceFromRow row h))
  end.
