(* ===== verification/WorkflowSpec.v ===== *)
(** * Properties of the workflow manager

    The instance row and the transition history are written together, so what
    is read back agrees, whatever statements fail and whatever else runs. *)

From S2P Require Import Prelude GoLib Types DB TaskQueue StoreIssue Workflow.

(** ** Runs of the manager

    [wf_run t d]: [d] is a store the manager can leave behind, the clock never
    having passed [t].  Each operation has its own environment, so any of its
    statements may have failed; other components may change any other table. *)
Inductive wf_run : Z → DB → Prop :=
  | run_empty t : wf_run t empty_db
  | run_create t d E repo n wf s :
      wf_run t d → t ≤ e_now E → wf_run (e_now E) (CreateIfMissing E repo n wf s d).2
  | run_advance t d E repo n wf f s a :
      wf_run t d → t ≤ e_now E → wf_run (e_now E) (Advance E repo n wf f s a d).2
  | run_other t d d' :
      wf_run t d → db_instances d' = db_instances d → db_history d' = db_history d → wf_run t d'.

(** The transitions of an instance, in the order they were written. *)
Definition rows_of (id : string) (h : list WorkflowTransitionRow) : list WorkflowTransitionRow :=
  List.filter (λ r, bool_decide (wt_InstanceID r = id)) h.

Definition time_le (a b : WorkflowTransitionRow) : bool := wt_CreatedAt a <=? wt_CreatedAt b.

Record consistent (t : Z) (ins : list WorkflowInstanceRow) (h : list WorkflowTransitionRow) : Prop := {
  co_ids : NoDup (wi_ID <$> ins);
  co_owned : Forall (λ r, wt_InstanceID r ∈ (wi_ID <$> ins)) h;
  co_sorted : StronglySorted (λ a b, time_le a b = true) h;
  co_past : Forall (λ r, wt_CreatedAt r ≤ t) h;
  co_state : ∀ i r, i ∈ ins → last (rows_of (wi_ID i) h) = Some r → wi_CurrentState i = wt_ToState r
}.

Lemma rows_of_app id h1 h2 : rows_of id (h1 ++ h2) = rows_of id h1 ++ rows_of id h2.
Proof. apply List.filter_app. Qed.

Lemma rows_of_snoc id h r : wt_InstanceID r = id → rows_of id (h ++ [r]) = rows_of id h ++ [r].
Proof. intros <-. rewrite rows_of_app. unfold rows_of at 2. simpl. by rewrite bool_decide_eq_true_2. Qed.

Lemma rows_of_unowned id h : Forall (λ r, wt_InstanceID r ≠ id) h → rows_of id h = [].
Proof.
  induction 1 as [|r h Hr _ IH]; [done|]. unfold rows_of in *. simpl. by rewrite bool_decide_eq_false_2.
Qed.

Lemma rows_of_sorted id h :
  StronglySorted (λ a b, time_le a b = true) h → StronglySorted (λ a b, time_le a b = true) (rows_of id h).
Proof.
  unfold rows_of. induction 1 as [|r h _ IH Hr]; simpl; [constructor|].
  case_bool_decide; [|done]. constructor; [done|]. rewrite Forall_forall in *. intros x Hx.
  apply Hr. apply list_elem_of_In in Hx. apply filter_In in Hx as [Hx _]. by apply list_elem_of_In.
Qed.

Lemma consistent_later t t' ins h : t ≤ t' → consistent t ins h → consistent t' ins h.
Proof.
  intros Hle [? ? ? Hp ?]. split; try done. eapply Forall_impl; [exact Hp|]. simpl. lia.
Qed.

Lemma existsb_id id (ins : list WorkflowInstanceRow) :
  existsb (λ r, bool_decide (wi_ID r = id)) ins = false ↔ id ∉ (wi_ID <$> ins).
Proof.
  rewrite <-not_true_iff_false, existsb_elem, list_elem_of_fmap.
  setoid_rewrite bool_decide_eq_true. naive_solver.
Qed.

Lemma consistent_new t ins h i :
  consistent t ins h → wi_ID i ∉ (wi_ID <$> ins) → consistent t (ins ++ [i]) h.
Proof.
  intros [Hn Ho Hs Hp Hc] Hi. split; try done.
  - rewrite fmap_app. apply NoDup_app. split_and!; [done| |apply NoDup_singleton]. set_solver.
  - eapply Forall_impl; [exact Ho|]. intros r Hr. rewrite fmap_app. set_solver.
  - intros j r [Hj|Hj%list_elem_of_singleton]%elem_of_app Hr; [eauto|]. subst j.
    rewrite rows_of_unowned in Hr; [done|].
    eapply Forall_impl; [exact Ho|]. simpl. intros x Hx Heq. by rewrite Heq in Hx.
Qed.

(** The two writes of [AdvanceWorkflowInstance]. *)
Definition moved (id toState : string) (ts : Z) (r : WorkflowInstanceRow) : WorkflowInstanceRow :=
  if bool_decide (wi_ID r = id)
  then mkInst (wi_ID r) (wi_WorkflowName r) (wi_Repo r) (wi_IssueNum r) toState (wi_CreatedAt r) ts
  else r.

Lemma moved_id id s ts r : wi_ID (moved id s ts r) = wi_ID r.
Proof. unfold moved. by case_bool_decide. Qed.

Lemma moved_ids id s ts (ins : list WorkflowInstanceRow) : wi_ID <$> (moved id s ts <$> ins) = wi_ID <$> ins.
Proof. rewrite <-list_fmap_compose. apply list_fmap_ext. intros ? r _. apply moved_id. Qed.

Lemma consistent_moved t ins h id f s a ts :
  consistent t ins h → id ∈ (wi_ID <$> ins) → Forall (λ r, wt_CreatedAt r ≤ ts) h → ts ≤ t →
  consistent t (moved id s ts <$> ins) (h ++ [mkWTrans id f s a ts]).
Proof.
  intros [Hn Ho Hs Hp Hc] Hid Hts Ht. split.
  - by rewrite moved_ids.
  - rewrite moved_ids, Forall_app, Forall_singleton. done.
  - apply StronglySorted_app. split_and!; [|done|repeat constructor].
    intros x y Hx Hy%list_elem_of_singleton. subst y. rewrite Forall_forall in Hts.
    unfold time_le. apply Z.leb_le. simpl. by apply Hts.
  - rewrite Forall_app, Forall_singleton. done.
  - intros i' r (i & -> & Hi)%list_elem_of_fmap. unfold moved.
    case_bool_decide as Hd; simpl.
    + rewrite rows_of_snoc, last_snoc by done. by intros [= <-].
    + rewrite rows_of_app, (rows_of_unowned _ [_]), app_nil_r by (by constructor). eauto.
Qed.

Lemma create_consistent t d E repo n wf s :
  consistent t (db_instances d) (db_history d) →
  let d' := (CreateIfMissing E repo n wf s d).2 in consistent t (db_instances d') (db_history d').
Proof.
  intros H. cbv zeta. unfold CreateIfMissing, CreateWorkflowInstanceIfMissing, wrapE, mbind, St_bind, sql_tx.
  destruct (e_fault E (db_calls d)); [done|].
  destruct (existsb (inst_key wf repo n) (db_instances d)); [done|].
  destruct (existsb _ (db_instances d)) eqn:Hid; [done|]. apply existsb_id in Hid.
  by apply consistent_new.
Qed.

Lemma advance_consistent t d E repo n wf f s a :
  consistent t (db_instances d) (db_history d) →
  Forall (λ r, wt_CreatedAt r ≤ trunc_sec (e_now E)) (db_history d) → trunc_sec (e_now E) ≤ t →
  let d' := (Advance E repo n wf f s a d).2 in consistent t (db_instances d') (db_history d').
Proof.
  intros H Hts Ht. cbv zeta. unfold Advance, AdvanceWorkflowInstance, mbind, St_bind, sql_tx.
  destruct (e_fault E (db_calls d)); [done|].
  destruct (existsb _ (db_instances d)) eqn:Hid; [|done]. cbn.
  apply consistent_moved; try done.
  destruct (decide (makeInstanceID repo n wf ∈ (wi_ID <$> db_instances d))) as [|Hn]; [done|].
  apply existsb_id in Hn. congruence.
Qed.

Lemma run_consistent t d : wf_run t d → consistent (trunc_sec t) (db_instances d) (db_history d).
Proof.
  induction 1 as [t|t d E repo n wf s _ IH Ht|t d E repo n wf f s a _ IH Ht|t d d' _ IH Hi Hh].
  - split; try constructor. intros i r Hi. by apply not_elem_of_nil in Hi.
  - apply create_consistent. eapply consistent_later; [|done]. by apply trunc_sec_mono.
  - assert (consistent (trunc_sec (e_now E)) (db_instances d) (db_history d)) as Hc.
    { eapply consistent_later; [|done]. by apply trunc_sec_mono. }
    apply advance_consistent; [done|apply Hc|done].
  - by rewrite Hi, Hh.
Qed.

(** ** Reading an instance back *)

Definition to_transition (r : WorkflowTransitionRow) : StateTransition :=
  mkTransition (wt_FromState r) (wt_ToState r) (wt_CreatedAt r) (wt_TriggerAgent r).

Lemma get_by_id_reads E id d :
  quiet E → StronglySorted (λ a b, time_le a b = true) (db_history d) →
  (GetByID E id d).1 =
  match List.find (λ r, bool_decide (wi_ID r = id)) (db_instances d) with
  | None => Err ErrWorkflowInstanceNotFound
  | Some i => Ok (instanceFromRow i (to_transition <$> rows_of id (db_history d)))
  end.
Proof.
  intros HE Hs. unfold GetByID, GetWorkflowInstanceByID, bindE, wrapE, mbind, St_bind, sql_query.
  rewrite sql_quiet by done. cbn -[sort_by]. destruct (List.find _ _) as [i|] eqn:Hf; cbn; [|done].
  apply find_some in Hf as [_ Hid]. apply bool_decide_eq_true in Hid. subst id.
  unfold loadHistory, bindE, wrapE, mbind, St_bind, QueryWorkflowTransitions, wrapE, mbind, St_bind, sql_query.
  rewrite sql_quiet by done. cbn -[sort_by]. rewrite sort_by_sorted; [done|]. by apply rows_of_sorted.
Qed.

Lemma find_moved id s ts (ins : list WorkflowInstanceRow) :
  id ∈ (wi_ID <$> ins) →
  ∃ i, List.find (λ r, bool_decide (wi_ID r = id)) (moved id s ts <$> ins) = Some i ∧ wi_CurrentState i = s.
Proof.
  induction ins as [|i ins IH]; simpl; [by intros ?%not_elem_of_nil|]. intros Hin.
  rewrite moved_id. case_bool_decide as Hi.
  - eexists. split; [done|]. unfold moved. by rewrite bool_decide_eq_true_2.
  - apply IH.
    apply elem_of_cons in Hin as [->|Hin]; [done|]. done.
Qed.

Lemma advance_writes E repo n wf f s a d d' :
  Advance E repo n wf f s a d = (Ok tt, d') →
  ∃ i, List.find (λ r, bool_decide (wi_ID r = makeInstanceID repo n wf)) (db_instances d') = Some i ∧
       db_history d' = db_history d ++ [mkWTrans (makeInstanceID repo n wf) f s a (trunc_sec (e_now E))] ∧
       wi_CurrentState i = s.
Proof.
  unfold Advance, AdvanceWorkflowInstance, mbind, St_bind, sql_tx. destruct (e_fault E (db_calls d)) as [e|].
  { cbn. by destruct (errors_Is e _). }
  destruct (existsb _ (db_instances d)) eqn:Hid; cbn; [|done]. intros [= <-]. cbn.
  apply existsb_elem in Hid as (r & Hr & Hid). apply bool_decide_eq_true in Hid.
  destruct (find_moved (makeInstanceID repo n wf) s (trunc_sec (e_now E)) (db_instances d)) as (i & Hi & Hs).
  { rewrite <-Hid. by apply list_elem_of_fmap_2. }
  exists i. by split_and!.
Qed.

(** C36: Whatever the manager has done and whichever of its statements failed, as
    long as the clock does not run backwards: an instance that is read back shows
    its transitions in the order they were made and is in the state the last of
    them leads to; an id that is not found has no recorded transition; and an
    accepted step is the last transition of the instance that is read back
    after it. *)
Theorem workflow_record_is_consistent t d E :
  wf_run t d → quiet E →
  (∀ id, match (GetByID E id d).1 with
   | Ok i => in_ID i = id ∧ in_History i = to_transition <$> rows_of id (db_history d) ∧
             (∀ tr, last (in_History i) = Some tr → in_CurrentState i = st_To tr)
   | Err e => e = ErrWorkflowInstanceNotFound ∧ rows_of id (db_history d) = []
   end) ∧
  (∀ E' repo n wf f s a d', t ≤ e_now E' → Advance E' repo n wf f s a d = (Ok tt, d') →
   ∃ i, (GetByID E (makeInstanceID repo n wf) d').1 = Ok i ∧ in_CurrentState i = s ∧
        last (in_History i) = Some (mkTransition f s (trunc_sec (e_now E')) a)).
Proof.
  intros Hr HE. pose proof (run_consistent _ _ Hr) as Hc. split.
  - intros id. rewrite get_by_id_reads by (done || apply Hc).
    destruct (List.find _ _) as [i|] eqn:Hf; simpl.
    + apply find_some in Hf as [Hin Hid]. apply bool_decide_eq_true in Hid. subst id.
      split_and!; [done..|]. intros tr. rewrite fmap_last. intros (r & Hl & ->)%fmap_Some.
      apply (co_state _ _ _ Hc i r); [by apply list_elem_of_In|done].
    + split; [done|]. apply rows_of_unowned. eapply Forall_impl; [apply Hc|]. simpl. intros r Hr' Heq.
      apply list_elem_of_fmap in Hr' as (i & Hi & Hin). apply find_None_forall in Hf.
      rewrite Forall_forall in Hf. apply Hf in Hin. apply bool_decide_eq_false in Hin. congruence.
  - intros E' repo n wf f s a d' Ht Ha.
    pose proof (run_consistent _ _ (run_advance t d E' repo n wf f s a Hr Ht)) as Hc'. rewrite Ha in Hc'.
    rewrite get_by_id_reads by (done || apply Hc').
    destruct (advance_writes _ _ _ _ _ _ _ _ _ Ha) as (i & Hi & Hh & Hs). rewrite Hi, Hh.
    eexists. split; [done|]. split; [done|]. unfold instanceFromRow, in_History.
    rewrite rows_of_snoc by done. rewrite fmap_app. by apply last_snoc.
Qed.

(** Two states entered within one second. *)
Definition wf_demo_env (t : Z) : Env := mkEnv t (λ _, None) (λ _, EmptyString).
Definition wf_demo_db : DB :=
  (Advance (wf_demo_env 7) "o/r" 1 "default" "developing" "reviewing" "dev-agent"
    (CreateIfMissing (wf_demo_env 5) "o/r" 1 "default" "developing" empty_db).2).2.

Lemma workflow_record_is_consistent_witness :
  wf_run 7 wf_demo_db ∧
  ∃ i, (GetByID (wf_demo_env 9) "o/r#1#default" (Advance (wf_demo_env 8) "o/r" 1 "default" "reviewing" "done" "review-agent" wf_demo_db).2).1 = Ok i ∧
    in_CurrentState i = "done" ∧ length (in_History i) = 2%nat.
Proof.
  assert (wf_run 7 wf_demo_db) as H.
  { apply (run_advance 5 _ (wf_demo_env 7)); [|done].
    apply (run_create 5 _ (wf_demo_env 5)); [apply run_empty|done]. }
  split; [exact H|].
  destruct (workflow_record_is_consistent 7 wf_demo_db (wf_demo_env 9) H ltac:(done)) as [_ H2].
  destruct (H2 (wf_demo_env 8) "o/r" 1 "default" "reviewing" "done" "review-agent" _ ltac:(done) ltac:(vm_compute; reflexivity))
    as (i & Hi & Hs & _).
  eexists. split; [exact Hi|]. split; [exact Hs|]. revert Hi. vm_compute. by intros [= <-].
Defined.
