(* ===== verification/StateMachine.v ===== *)
(** * The state machine

    [internal/statemachine]: from a change event to dispatch requests.  The
    store and the event recorder are present, as the coordinator wires them;
    the alert bus, the reporters and the claimer id are optional.

    [ctx_done n] says whether the [n]-th send on the dispatch channel finds the
    context cancelled.  Workflow and state maps are association lists in the
    order Go happens to visit them. *)

From S2P Require Import Prelude GoLib Json Sha256 Types DB TaskQueue IssueClaim StoreIssue World Dependency Workflow.
From Stdlib Require Import Ascii.

Definition MaxConsecutiveAgentFailures : Z := 3.
Definition DoneLabel : string := "status:done".
Definition DefaultIssueClaimLease : Z := 30 * minute.
Definition DefaultMaxReviewCycles : Z := 3.
Definition DefaultMaxSynthCycles : Z := 2.
Definition MaxTotalTransitions : Z := 15.
Definition stateNameDeveloping : string := "developing".
Definition stateNameReviewing : string := "reviewing".
Definition stateNameBlocked : string := "blocked".
Definition stateNameSynthesizing : string := "synthesizing".
Definition inflightTaskStatusGone : string := "gone".
Definition inflightLeaseExpiryMultiplier : Z := 5.
Definition defaultTaskLease : Z := 30 * second.
Definition defaultJoinConfig : JoinConfig := mkJoin JoinAllPassed 0.

(** What [NewStateMachine] and the setters install. *)
Record SMConfig := mkConfig {
  c_workflows : list (string * WorkflowConfig);
  c_alertBus : bool;
  c_capReporter : bool;
  c_synthReporter : bool;
  c_claimerID : string;
  c_claimLease : Z;
  c_stuckTimeout : Z
}.

(** [SetIssueClaim]. *)
Definition SetIssueClaim (claimerID : string) (lease : Z) (c : SMConfig) : SMConfig :=
  mkConfig (c_workflows c) (c_alertBus c) (c_capReporter c) (c_synthReporter c) (TrimSpace claimerID)
    (if lease <=? 0 then DefaultIssueClaimLease else lease) (c_stuckTimeout c).

(** The structured output of a synthesis agent. *)
Record SynthesisDecision := mkDecision {
  sd_Outcome : string;
  sd_ChosenPR : Z;
  sd_SynthPR : Z;
  sd_RejectedPRs : list Z;
  sd_Reason : string
}.

(** ** Pure helpers *)

Definition issueKey (repo : string) (issueNum : Z) : string := repo +:+ "#" +:+ itoa issueNum.

Definition parseIssueKey (raw : string) : option (string * Z) :=
  let idx := LastIndexByte raw "#" in
  if (idx <=? 0) || (idx =? Z.of_nat (String.length raw) - 1) then None
  else match atoi (drop_str (Z.to_nat idx + 1) raw) with
       | Some n => if n <=? 0 then None else Some (take_str (Z.to_nat idx) raw, n)
       | None => None
       end.

Definition newDispatchGroup (id : nat) (wf state mode : string) (join : JoinConfig)
    (slots : gmap string string) : dispatchGroup :=
  mkGroup id wf state mode join slots ∅ ∅ ∅ ∅ ∅.

Definition stateAgents (s : State) : list string :=
  match s_Agents s with
  | [] => if bool_decide (s_Agent s = EmptyString) then [] else [s_Agent s]
  | agents => agents
  end.
Definition stateHasAgents (s : State) : bool := negb (bool_decide (stateAgents s = [])).

Definition stateMode (s : State) : string := if is_blank (s_Mode s) then StateModeReview else s_Mode s.
Definition stateModeFromGroup (g : dispatchGroup) : string :=
  if is_blank (g_mode g) then StateModeReview else g_mode g.

Definition rollout_label (l : string) : option Z :=
  if bool_decide (l ∈ ["rollouts:2"; "rollouts:3"; "rollouts:4"; "rollouts:5"])
  then atoi (TrimPrefix l "rollouts:") else None.

(** The loop over the labels; [override] is 0 until one is seen. *)
Fixpoint rollout_override (labels : list string) (override : Z) : res Z :=
  match labels with
  | [] => Ok override
  | label :: labels =>
      let label := TrimSpace label in
      if negb (HasPrefix label "rollouts:") then rollout_override labels override
      else match rollout_label label with
           | Some n => if negb (override =? 0) && negb (override =? n)
                       then Err (EMsg "statemachine: conflicting rollout labels")
                       else rollout_override labels n
           | None => Err (EMsg "statemachine: invalid rollout label")
           end
  end.
Definition resolveStateRollouts (s : State) (labels : list string) : res Z :=
  match rollout_override labels 0 with
  | Err e => Err e
  | Ok o => Ok (if 0 <? o then o else if 0 <? s_Rollouts s then s_Rollouts s else 1)
  end.

Definition transitionAllowedForState (currentStateName : string) (currentState : State)
    (label targetState : string) (labels : list string) : bool :=
  if negb (bool_decide (currentStateName = stateNameDeveloping)) then true
  else if negb (existsb (λ p, bool_decide (p.2 = stateNameSynthesizing)) (s_Transitions currentState)) then true
  else match resolveStateRollouts currentState labels with
       | Err _ => false
       | Ok rollouts =>
           if bool_decide (targetState = stateNameSynthesizing) then 1 <? rollouts
           else if bool_decide (targetState = stateNameReviewing) && bool_decide (label = "status:reviewing")
           then rollouts <=? 1 else true
       end.

Definition inferAgentRole (agentName : string) : string :=
  let name := ToLower (TrimSpace agentName) in
  if Contains name "review" then "review" else if Contains name "dev" then "dev" else "other".

Definition rolloutSlotKey (index : Z) : string := "rollout:" +:+ itoa index.
Definition dispatchSlotKey (req : DispatchRequest) : string :=
  if 0 <? dr_RolloutIndex req then rolloutSlotKey (dr_RolloutIndex req) else dr_AgentName req.

Definition hasStatusLabel (labels : list string) : bool := existsb (λ l, HasPrefix l "status:") labels.
Definition labelsFingerprint (labels : list string) : string := hash_parts (sort_strings labels).
Definition hazardFingerprint (parts : list string) : string := hash_parts parts.

(** The first state, in map order, whose label is on the issue. *)
Definition findCurrentState (wf : WorkflowConfig) (labels : list string) : option (string * State) :=
  List.find (λ p, negb (bool_decide (s_EnterLabel p.2 = EmptyString))
                  && bool_decide (s_EnterLabel p.2 ∈ labels)) (wf_States wf).

(** ** Inflight groups against the task queue *)

Definition taskRecency (t : TaskRecord) : option Z :=
  match t_UpdatedAt t with Some u => Some u | None => t_CreatedAt t end.

Definition inferredTaskLease (t : TaskRecord) : Z :=
  match t_LeaseExpiresAt t with
  | None => defaultTaskLease
  | Some x =>
      let start := match t_HeartbeatAt t with Some h => Some h | None => t_AckedAt t end in
      match start with
      | None => defaultTaskLease
      | Some s => if x - s <=? 0 then defaultTaskLease else x - s
      end
  end.

Definition inflightTaskKeepsGroupLive (E : Env) (t : TaskRecord) : bool :=
  if status_is TaskStatusPending t then true
  else if status_is TaskStatusRunning t then
    match t_LeaseExpiresAt t with
    | None => true
    | Some x => e_now E <? x + inflightLeaseExpiryMultiplier * inferredTaskLease t
    end
  else status_is TaskStatusCompleted t.

(** The most recent task of the slot; an earlier one wins a tie. *)
Definition slot_task (g : dispatchGroup) (wantRollout : Z) (wantAgent : string) (t : TaskRecord) : bool :=
  bool_decide (t_Workflow t = g_workflow g) && bool_decide (t_State t = g_state g)
  && (if 0 <? wantRollout then t_RolloutIndex t =? wantRollout
      else (t_RolloutIndex t =? 0) && bool_decide (t_AgentName t = wantAgent)).
Definition newer_task (best : option TaskRecord) (t : TaskRecord) : option TaskRecord :=
  match best with
  | None => Some t
  | Some b => if negb (time_le (taskRecency t) (taskRecency b)) then Some t else Some b
  end.
Definition findInflightSlotTask (tasks : list TaskRecord) (g : dispatchGroup) (slotKey : string) :
    option TaskRecord :=
  let wantAgent := default EmptyString (g_slots g !! slotKey) in
  let pick n := foldl newer_task None (List.filter (slot_task g n wantAgent) tasks) in
  if HasPrefix slotKey "rollout:" then
    match atoi (TrimPrefix slotKey "rollout:") with
    | Some idx => pick idx
    | None => None
    end
  else pick 0.

Definition formatInflightTaskStatus (slotKeys : list string) (status : string → string) : string :=
  let shown k := let s := TrimSpace (status k) in
                 if bool_decide (s = EmptyString) then inflightTaskStatusGone else s in
  match slotKeys with
  | [] => inflightTaskStatusGone
  | [k] => shown k
  | _ => join_str "," ((λ k, k +:+ "=" +:+ shown k) <$> slotKeys)
  end.

Definition inflight_status (E : Env) (tasks : list TaskRecord) (g : dispatchGroup) : string * bool :=
  let slotKeys := sort_strings (map_to_list (g_slots g)).*1 in
  let status k := match findInflightSlotTask tasks g k with
                  | None => inflightTaskStatusGone
                  | Some t => t_Status t
                  end in
  (formatInflightTaskStatus slotKeys status,
   negb (bool_decide (slotKeys = [])) &&
   forallb (λ k, match findInflightSlotTask tasks g k with
                 | None => true
                 | Some t => negb (inflightTaskKeepsGroupLive E t)
                 end) slotKeys).

(** [snapshotDispatchGroup]. *)
Record InflightGroupSnapshot := mkSnapshot {
  gs_Workflow : string;
  gs_State : string;
  gs_Join : string;
  gs_Agents : list string;
  gs_Slots : gmap string string
}.
Definition snapshotDispatchGroup (g : dispatchGroup) : InflightGroupSnapshot :=
  mkSnapshot (g_workflow g) (g_state g) (jc_Strategy (g_join g))
    (sort_strings (remove_dups (map_to_list (g_slots g)).*2)) (g_slots g).

Section machine.
Context `{YamlLib} (E : Env) (C : SMConfig) (ctx_done : nat → bool).

Definition alert (kind severity repo : string) (issueNum : Z) (payload : list (string * jval)) :
    St World unit :=
  publishAlert E (c_alertBus C) kind severity repo issueNum EmptyString payload.

(** [ResetDedup], at the end of every poll cycle. *)
Definition ResetDedup : St World unit :=
  modSM (λ s, upd_sm_claimWarned (λ _, ∅) (upd_sm_processed (λ _, ∅) s)).

Definition IsInflight (repo : string) (issueNum : Z) : St World bool :=
  getSM (λ s, bool_decide (is_Some (sm_inflight s !! issueKey repo issueNum))).

(** ** Workflow instances *)

Definition queryPriorWorkflowState (workflowName repo : string) (issueNum : Z) : St World string :=
  r ← lift (QueryByRepoIssue E repo issueNum);
  mret match r with
       | Err _ => EmptyString
       | Ok insts => from_option in_CurrentState EmptyString
                       (List.find (λ i, bool_decide (in_WorkflowName i = workflowName)) insts)
       end.

(** The source of the newest transition into [toState]. *)
Definition last_into (toState : string) (h : list StateTransition) : option string :=
  st_From <$> List.find (λ t, bool_decide (st_To t = toState)) (reverse h).
Fixpoint latest_into (workflowName toState : string) (insts : list WorkflowInstance) : string :=
  match insts with
  | [] => EmptyString
  | i :: insts =>
      if bool_decide (in_WorkflowName i = workflowName) then
        match last_into toState (in_History i) with
        | Some from => from
        | None => latest_into workflowName toState insts
        end
      else latest_into workflowName toState insts
  end.
Definition latestTransitionIntoState (workflowName repo : string) (issueNum : Z) (toState : string) :
    St World string :=
  r ← lift (QueryByRepoIssue E repo issueNum);
  mret match r with Err _ => EmptyString | Ok insts => latest_into workflowName toState insts end.

Definition ensureWorkflowInstance (workflowName repo : string) (issueNum : Z) (currentState : string) :
    St World (res unit) :=
  lift (CreateIfMissing E repo issueNum workflowName currentState).

Definition recordStateEntry (workflowName repo : string) (issueNum : Z) (currentStateName : string)
    (currentState : State) : St World unit :=
  prior ← queryPriorWorkflowState workflowName repo issueNum;
  if bool_decide (prior = EmptyString) || bool_decide (prior = currentStateName) then mret tt
  else
    r ← lift (Advance E repo issueNum workflowName prior currentStateName (s_Agent currentState));
    match r with
    | Err _ => mret tt
    | Ok _ => _ ← lift (IncrementTransition E repo issueNum prior currentStateName); mret tt
    end.

(** ** Claims *)

Definition isBlockedByIssueClaim (repo : string) (issueNum : Z) (agentName workflow state : string) :
    St World (res bool) :=
  if bool_decide (c_claimerID C = EmptyString) then mret (Ok false)
  else
    let lease := if c_claimLease C <=? 0 then DefaultIssueClaimLease else c_claimLease C in
    r ← lift (AcquireIssueClaim E repo issueNum (c_claimerID C) lease);
    match r with
    | Err e =>
        if errors_Is e ErrIssueClaimHeldByOther then
          q ← lift (QueryIssueClaim E repo issueNum);
          let other := match q with Ok (Some c) => cl_WorkerID c | _ => EmptyString end in
          modSM (upd_sm_claimWarned ({[issueKey repo issueNum]} ∪.));;
          Log "dispatch_skipped_claim" repo issueNum
            [("agent", JS agentName); ("workflow", JS workflow); ("state", JS state);
             ("claimer", JS (c_claimerID C)); ("held_by", JS other);
             ("reason", JS "issue_claim_held_by_other")];;
          mret (Ok true)
        else mret (Err (EWrap "statemachine: acquire issue claim" e))
    | Ok a =>
        (if ar_OverwrotePrior a then
           Log "issue_claim_expired" repo issueNum
             [("agent", JS agentName); ("workflow", JS workflow); ("state", JS state);
              ("claimer", JS (c_claimerID C)); ("prior_owner", JS (ar_PriorWorkerID a))]
         else mret tt);;
        modSM (upd_sm_claimTokens (<[issueKey repo issueNum := ar_ClaimToken a]>));;
        mret (Ok false)
    end.

Definition releaseIssueClaim (repo : string) (issueNum : Z) : St World unit :=
  if bool_decide (c_claimerID C = EmptyString) then mret tt
  else
    let key := issueKey repo issueNum in
    token ← getSM (λ s, default EmptyString (sm_claimTokens s !! key));
    modSM (upd_sm_claimTokens (base.delete key));;
    if bool_decide (token = EmptyString) then mret tt
    else _ ← lift (ReleaseIssueClaim E repo issueNum (c_claimerID C) token); mret tt.

Definition ReleaseAllIssueClaims : St World unit :=
  if bool_decide (c_claimerID C = EmptyString) then mret tt
  else
    tracked ← getSM (λ s, map_to_list (sm_claimTokens s));
    modSM (upd_sm_claimTokens (λ _, ∅));;
    forS tracked (λ p,
      if bool_decide (p.2 = EmptyString) then mret tt
      else match parseIssueKey p.1 with
           | None => mret tt
           | Some (repo, n) => _ ← lift (ReleaseIssueClaim E repo n (c_claimerID C) p.2); mret tt
           end).

(** ** Gates *)

Definition done_blocked (repo : string) (issueNum : Z) (agentForLog : string)
    (fallback : list (string * jval)) : St World (res bool) :=
  Log "dispatch_blocked_by_done" repo issueNum
    ([("agent", JS agentForLog); ("label", JS DoneLabel)] ++ fallback);;
  alert "dispatch_blocked" SeverityInfo repo issueNum
    [("reason", JS "status_done"); ("agent", JS agentForLog)];;
  mret (Ok true).

Definition isBlockedByDone (repo : string) (issueNum : Z) (agentForLog : string) : St World (res bool) :=
  ic ←! wrapE "statemachine: query issue cache" (lift (QueryIssueCache E repo issueNum));
  match ic with
  | None => mret (Ok false)
  | Some c =>
      if bool_decide (ic_Labels c = EmptyString) then mret (Ok false)
      else match unmarshal_strings (ic_Labels c) with
           | None =>
               Log "error" repo issueNum [("source", JS "issue_cache_labels_unmarshal")];;
               if Contains (ic_Labels c) (String dquote DoneLabel +:+ str1 dquote) then
                 done_blocked repo issueNum agentForLog
                   [("fallback", JS "substring_scan_after_unmarshal_error")]
               else mret (Ok false)
           | Some labels =>
               if bool_decide (DoneLabel ∈ default [] labels)
               then done_blocked repo issueNum agentForLog [] else mret (Ok false)
           end
  end.

Definition isBlockedByFailureCap (repo : string) (issueNum : Z) (agentName : string) :
    St World (res bool) :=
  count ←! wrapE "statemachine: count consecutive failures"
             (lift (CountConsecutiveAgentFailures E repo issueNum agentName));
  if count <? MaxConsecutiveAgentFailures then mret (Ok false)
  else
    let payload := [("agent", JS agentName); ("consecutive_fails", JI count);
                    ("cap", JI MaxConsecutiveAgentFailures)] in
    Log "dispatch_blocked_by_failure_cap" repo issueNum payload;;
    alert "dispatch_blocked" SeverityError repo issueNum (("reason", JS "failure_cap") :: payload);;
    mret (Ok true).

Definition isBlockedByDependency (repo : string) (issueNum : Z) (agentForLog workflow state : string) :
    St World (res bool) :=
  depState ←! wrapE "statemachine: query dependency state"
                (lift (QueryIssueDependencyState E repo issueNum));
  match depState with
  | None => mret (Ok false)
  | Some s =>
      if bool_decide (ds_Verdict s = DependencyVerdictBlocked)
         || bool_decide (ds_Verdict s = DependencyVerdictNeedsHuman) then
        Log "dispatch_blocked_by_dependency" repo issueNum
          [("agent", JS agentForLog); ("workflow", JS workflow); ("state", JS state);
           ("source", JS "statemachine"); ("verdict", JS (ds_Verdict s))];;
        mret (Ok true)
      else mret (Ok false)
  end.

(** ** Inflight groups *)

Definition inspectInflightTaskStatus (repo : string) (issueNum : Z) (g : dispatchGroup) :
    St World (string * bool) :=
  r ← lift (ListIssueTasks E repo issueNum);
  mret match r with Err _ => (EmptyString, false) | Ok tasks => inflight_status E tasks g end.

Definition clearInflightIfMatch (key : string) (target : dispatchGroup) : St World bool :=
  current ← getSM (λ s, sm_inflight s !! key);
  match current with
  | None => mret false
  | Some g => if (g_id g =? g_id target)%nat then modSM (upd_sm_inflight (base.delete key));; mret true
              else mret false
  end.

Definition reconcileStaleInflight (repo : string) (issueNum : Z) : St World unit :=
  group ← getSM (λ s, sm_inflight s !! issueKey repo issueNum);
  match group with
  | None => mret tt
  | Some g =>
      p ← inspectInflightTaskStatus repo issueNum g;
      if negb p.2 then mret tt
      else cleared ← clearInflightIfMatch (issueKey repo issueNum) g;
           if (cleared : bool) then releaseIssueClaim repo issueNum else mret tt
  end.

Definition ClearInflight (repo : string) (issueNum : Z) : St World (option InflightGroupSnapshot) :=
  group ← getSM (λ s, sm_inflight s !! issueKey repo issueNum);
  match group with
  | None => mret None
  | Some g =>
      modSM (upd_sm_inflight (base.delete (issueKey repo issueNum)));;
      releaseIssueClaim repo issueNum;;
      mret (Some (snapshotDispatchGroup g))
  end.

(** ** Dispatch *)

Definition log_skipped (repo : string) (issueNum : Z) (g : dispatchGroup)
    (fields : string → list (string * jval)) : St World unit :=
  p ← inspectInflightTaskStatus repo issueNum g;
  Log "dispatch_skipped_inflight" repo issueNum (fields p.1).

(** The select on the channel and on the context. *)
Definition send (req : DispatchRequest) : St World (res unit) :=
  let repo := dr_Repo req in
  let issueNum := dr_IssueNum req in
  let key := issueKey repo issueNum in
  n ← getsS wd_sends;
  modS (upd_wd_sends S);;
  if negb (ctx_done n) then modS (upd_wd_dispatch (λ l, l ++ [req]));; mret (Ok tt)
  else
    group ← getSM (λ s, sm_inflight s !! key);
    match group with
    | None => mret (Err ErrContext)
    | Some g =>
        let left := g_dispatched g ∖ {[dispatchSlotKey req]} in
        if bool_decide (left = ∅) then
          modSM (upd_sm_inflight (base.delete key));;
          releaseIssueClaim repo issueNum;;
          mret (Err ErrContext)
        else
          modSM (upd_sm_inflight (<[key := upd_g_dispatched (λ _, left) g]>));;
          mret (Err ErrContext)
    end.

(** The slot is taken, the dispatch is logged, the request is sent. *)
Definition dispatch_slot (req : DispatchRequest) (g : dispatchGroup) : St World (res unit) :=
  modSM (upd_sm_inflight (<[issueKey (dr_Repo req) (dr_IssueNum req) :=
           upd_g_dispatched ({[dispatchSlotKey req]} ∪.) g]>));;
  let payload :=
    [("agent_name", JS (dr_AgentName req)); ("workflow", JS (dr_Workflow req)); ("state", JS (dr_State req));
     ("rollout_index", JI (dr_RolloutIndex req)); ("rollouts_total", JI (dr_RolloutsTotal req));
     ("group_id", JS (dr_RolloutGroupID req))] in
  Log "dispatch" (dr_Repo req) (dr_IssueNum req) payload;;
  (if 0 <? dr_RolloutIndex req then Log "rollout_dispatched" (dr_Repo req) (dr_IssueNum req) payload
   else mret tt);;
  send req.

Definition dispatchSingleAgent (req : DispatchRequest) : St World (res unit) :=
  let repo := dr_Repo req in
  let issueNum := dr_IssueNum req in
  let skipped reason st := [("agent", JS (dr_AgentName req)); ("reason", JS reason);
    ("state", JS (dr_State req)); ("task_status", JS st); ("workflow", JS (dr_Workflow req))] in
  group ← getSM (λ s, sm_inflight s !! issueKey repo issueNum);
  match group with
  | Some g =>
      if negb (bool_decide (g_workflow g = dr_Workflow req)) || negb (bool_decide (g_state g = dr_State req))
      then log_skipped repo issueNum g (skipped "different state/workflow already running");; mret (Ok tt)
      else if bool_decide (dispatchSlotKey req ∈ g_dispatched g)
      then log_skipped repo issueNum g (skipped "agent already dispatched");; mret (Ok tt)
      else dispatch_slot req g
  | None =>
      id ← getSM sm_nextGroup;
      modSM (upd_sm_nextGroup S);;
      dispatch_slot req (newDispatchGroup id (dr_Workflow req) (dr_State req) StateModeReview
        defaultJoinConfig {[dispatchSlotKey req := dr_AgentName req]})
  end.

Definition rollout_le (a b : DispatchRequest) : bool := dr_RolloutIndex a <=? dr_RolloutIndex b.

Definition inheritedRolloutRequests (repo : string) (issueNum : Z) (wf : WorkflowConfig)
    (sourceState targetState agentName : string) : St World (res (list DispatchRequest)) :=
  if bool_decide (sourceState = EmptyString) || bool_decide (sourceState = targetState) then mret (Ok [])
  else match assoc (wf_States wf) sourceState with
       | None => mret (Ok [])
       | Some src =>
           if negb (bool_decide (TrimSpace (jc_Strategy (s_Join src)) = JoinRollouts)) then mret (Ok [])
           else
             summary ←! wrapE "statemachine: summarize inherited rollout group"
               (lift (LatestRolloutGroupSummaryForIssueState E repo issueNum (wf_Name wf) sourceState));
             mret (Ok match summary with
                      | None => []
                      | Some s =>
                          if rg_SuccessCount s =? 0 then []
                          else sort_by rollout_le
                            ((λ t, mkDispatch repo issueNum agentName (wf_Name wf) targetState sourceState
                                     (t_RolloutIndex t) (t_RolloutsTotal t) (t_RolloutGroupID t)) <$>
                               List.filter (λ t, status_is TaskStatusCompleted t && negb (t_RolloutIndex t <=? 0))
                                 (rg_Tasks s))
                      end)
       end.

(** [for idx := 1; idx <= rollouts; idx++]. *)
Definition indices (n : Z) : list Z := (λ k, Z.of_nat k) <$> seq 1 (Z.to_nat n).

(** The requests of a state entry. *)
Definition state_requests (repo : string) (issueNum : Z) (wf : WorkflowConfig)
    (sourceState state : string) (stateDef : State) (agents : list string) (rollouts : Z) :
    St World (res (list DispatchRequest)) :=
  let per_agent := (λ a, mkDispatch repo issueNum a (wf_Name wf) state sourceState 0 0 EmptyString) <$> agents in
  let first := default EmptyString (head agents) in
  if 1 <? rollouts then
    groupID ← lift (random E);
    mret (Ok ((λ idx, mkDispatch repo issueNum first (wf_Name wf) state sourceState idx rollouts groupID)
                <$> indices rollouts))
  else if negb (bool_decide (stateMode stateDef = StateModeSynth)) then
    inherited ←! inheritedRolloutRequests repo issueNum wf sourceState state first;
    mret (Ok (if bool_decide (inherited = []) then per_agent else inherited))
  else mret (Ok per_agent).

Definition request_slots (requests : list DispatchRequest) : gmap string string :=
  foldl (λ m r, <[dispatchSlotKey r := dr_AgentName r]> m) ∅ requests.

Definition dispatchStateAgents (repo : string) (issueNum : Z) (wf : WorkflowConfig)
    (sourceState state : string) (stateDef : State) (labels : list string) : St World (res unit) :=
  let agents := stateAgents stateDef in
  match agents with
  | [] => mret (Ok tt)
  | first :: _ =>
      blocked ←! isBlockedByDependency repo issueNum first (wf_Name wf) state;
      if (blocked : bool) then mret (Ok tt)
      else
        reconcileStaleInflight repo issueNum;;
        claimed ←! isBlockedByIssueClaim repo issueNum first (wf_Name wf) state;
        if (claimed : bool) then mret (Ok tt)
        else match resolveStateRollouts stateDef labels with
             | Err e => mret (Err e)
             | Ok rollouts =>
                 requests ←! state_requests repo issueNum wf sourceState state stateDef agents rollouts;
                 let join := if is_blank (jc_Strategy (s_Join stateDef)) then defaultJoinConfig
                             else s_Join stateDef in
                 let key := issueKey repo issueNum in
                 existing ← getSM (λ s, sm_inflight s !! key);
                 match existing with
                 | Some g =>
                     let reason := if negb (bool_decide (g_workflow g = wf_Name wf))
                                      || negb (bool_decide (g_state g = state))
                                   then "different state/workflow already running"
                                   else "same state group already inflight" in
                     log_skipped repo issueNum g (λ st,
                       [("state", JS state); ("reason", JS reason); ("task_status", JS st);
                        ("workflow", JS (wf_Name wf))]);;
                     mret (Ok tt)
                 | None =>
                     id ← getSM sm_nextGroup;
                     modSM (λ s, upd_sm_inflight (<[key :=
                         newDispatchGroup id (wf_Name wf) state (stateMode stateDef) join
                           (request_slots requests)]>) (upd_sm_nextGroup S s));;
                     let group_id := default EmptyString (dr_RolloutGroupID <$> head requests) in
                     (if (1 <? length requests)%nat && negb (bool_decide (group_id = EmptyString)) then
                        Log "rollout_group_started" repo issueNum
                          [("group_id", JS group_id); ("rollouts_total", JI (Z.of_nat (length requests)));
                           ("issue_num", JI issueNum);
                           ("role", JS (inferAgentRole (default EmptyString (dr_AgentName <$> head requests))));
                           ("state", JS state)]
                      else mret tt);;
                     forE requests dispatchSingleAgent
                 end
             end
  end.

Definition DispatchAgent (repo : string) (issueNum : Z) (agentName workflow state : string) :
    St World (res unit) :=
  done ←! isBlockedByDone repo issueNum agentName;
  if (done : bool) then mret (Ok tt)
  else
    capped ←! isBlockedByFailureCap repo issueNum agentName;
    if (capped : bool) then mret (Ok tt)
    else
      blocked ←! isBlockedByDependency repo issueNum agentName workflow state;
      if (blocked : bool) then mret (Ok tt)
      else
        reconcileStaleInflight repo issueNum;;
        claimed ←! isBlockedByIssueClaim repo issueNum agentName workflow state;
        if (claimed : bool) then mret (Ok tt)
        else dispatchSingleAgent
               (mkDispatch repo issueNum agentName workflow state EmptyString 0 0 EmptyString).

(** ** Transitions *)

Definition isBackEdge (repo : string) (issueNum : Z) (targetState : string) : St World bool :=
  r ← lift (QueryTransitionCounts E repo issueNum);
  mret match r with
       | Err _ => false
       | Ok counts => existsb (λ c : string * string * Z,
                        bool_decide (c.1.2 = targetState) && (0 <? c.2)) counts
       end.

Definition maxRetries (wf : WorkflowConfig) : Z := if wf_MaxRetries wf <=? 0 then 3 else wf_MaxRetries wf.

Definition log_transition_skipped (event : ChangeEvent) (from target reason : string) : St World unit :=
  Log "transition_skipped" (ce_Repo event) (ce_IssueNum event)
    [("from_state", JS from); ("target_state", JS target); ("added_label", JS (ce_Detail event));
     ("reason", JS reason)].

(** The back edge is rejected: the intent to fail is recorded. *)
Definition reject_back_edge (repo : string) (issueNum : Z) (from to : string) (count limit : Z) :
    St World unit :=
  let p1 := [("from", JS from); ("to", JS to); ("count", JI count); ("max_retries", JI limit)] in
  let p2 := [("from", JS from); ("rejected_to", JS to); ("needs_human", JB true)] in
  Log "cycle_limit_reached" repo issueNum p1;;
  alert "cycle_limit_reached" SeverityError repo issueNum p1;;
  Log "transition_to_failed" repo issueNum p2;;
  alert "transition_to_failed" SeverityError repo issueNum p2.

(** Whether a transition was taken, and the error if any. *)
Definition evaluateTransitions (wf : WorkflowConfig) (event : ChangeEvent) (currentStateName : string)
    (currentState : State) : St World (bool * option error) :=
  let repo := ce_Repo event in
  let issueNum := ce_IssueNum event in
  let addedLabel := ce_Detail event in
  if negb (bool_decide (ce_Type event = EventLabelAdded)) || bool_decide (addedLabel = EmptyString)
  then mret (false, None)
  else match assoc (s_Transitions currentState) addedLabel with
  | None => mret (false, None)
  | Some target =>
      if negb (transitionAllowedForState currentStateName currentState addedLabel target (ce_Labels event))
      then log_transition_skipped event currentStateName target "transition_not_allowed";; mret (false, None)
      else match assoc (wf_States wf) target with
      | None => log_transition_skipped event currentStateName target "target_unknown";; mret (false, None)
      | Some targetState =>
          back ← isBackEdge repo issueNum target;
          r ← lift (IncrementTransition E repo issueNum currentStateName target);
          match r with
          | Err e => mret (false, Some (EWrap "statemachine: increment transition" e))
          | Ok count =>
              if (back : bool) && (maxRetries wf <=? count) then
                reject_back_edge repo issueNum currentStateName target count (maxRetries wf);;
                mret (false, None)
              else
                r ← lift (Advance E repo issueNum (wf_Name wf) currentStateName target (s_Agent currentState));
                match r with
                | Err e => mret (false, Some (EWrap "statemachine: persist workflow transition" e))
                | Ok _ =>
                    Log "transition" repo issueNum [("from", JS currentStateName); ("to", JS target)];;
                    if stateHasAgents targetState then
                      d ← dispatchStateAgents repo issueNum wf currentStateName target targetState (ce_Labels event);
                      mret (true, match d with Err e => Some e | Ok _ => None end)
                    else mret (true, None)
                end
          end
      end
  end.

(** ** Caps *)

Record cycleCapSpec := mkCap {
  cap_synth : bool;
  cap_maxCycles : Z;
  cap_countLabel : string;
  cap_capLabel : string;
  cap_errContext : string;
  cap_emitCountEvent : bool;
  cap_alertOnCapHit : bool;
  cap_headsUp : bool
}.
Definition devReviewCycleCapSpec (wf : WorkflowConfig) : cycleCapSpec :=
  mkCap false (if wf_MaxReviewCycles wf <=? 0 then DefaultMaxReviewCycles else wf_MaxReviewCycles wf)
    "cycle_count" "max_review_cycles" "increment dev_review_cycle_count" true true true.
Definition synthCycleCapSpec : cycleCapSpec :=
  mkCap true DefaultMaxSynthCycles "synth_cycle_count" "max_synth_cycles" "increment synth_cycle_count"
    false false false.

Definition report_cap (repo : string) (issueNum : Z) (wf : WorkflowConfig) (count limit : Z) : St World unit :=
  if c_capReporter C then
    report (ReportDevReviewCycleCap repo issueNum (wf_Name wf) count limit (e_now E))
  else mret tt.

Definition enforceCycleCap (wf : WorkflowConfig) (repo : string) (issueNum : Z) (spec : cycleCapSpec) :
    St World (res bool) :=
  cycleCount ←! wrapE (cap_errContext spec)
    (lift (if cap_synth spec then IncrementSynthCycleCount E repo issueNum
           else IncrementDevReviewCycleCount E repo issueNum));
  let maxCycles := cap_maxCycles spec in
  let payload := [("workflow", JS (wf_Name wf)); (cap_countLabel spec, JI cycleCount);
                  (cap_capLabel spec, JI maxCycles)] in
  (if cap_emitCountEvent spec then Log "dev_review_cycle_count" repo issueNum payload else mret tt);;
  if maxCycles <=? cycleCount then
    _ ← lift (if cap_synth spec then MarkIssueSynthCycleCapHit E repo issueNum
              else MarkIssueCycleCapHit E repo issueNum);
    Log "dev_review_cycle_cap_reached" repo issueNum payload;;
    (if cap_alertOnCapHit spec then
       alert "dev_review_cycle_cap_reached" SeverityError repo issueNum payload else mret tt);;
    report_cap repo issueNum wf cycleCount maxCycles;;
    mret (Ok true)
  else
    (if cap_headsUp spec && (cycleCount =? maxCycles - 1) then
       let warn := payload ++ [("remaining", JI (maxCycles - cycleCount))] in
       Log "dev_review_cycle_approaching" repo issueNum warn;;
       alert "dev_review_cycle_approaching" SeverityWarn repo issueNum warn
     else mret tt);;
    mret (Ok false).

Definition applyDevReviewCycleCap (wf : WorkflowConfig) (repo : string) (issueNum : Z)
    (currentStateName : string) : St World (res bool) :=
  if negb (bool_decide (currentStateName = stateNameDeveloping)) then mret (Ok false)
  else
    prior ← queryPriorWorkflowState (wf_Name wf) repo issueNum;
    if bool_decide (prior = stateNameBlocked) then
      _ ←! wrapE "statemachine: reset issue cycle state" (lift (ResetIssueCycleState E repo issueNum));
      Log "dev_review_cycle_count_reset" repo issueNum
        [("workflow", JS (wf_Name wf)); ("prior_state", JS prior); ("reason", JS "blocked_to_developing")];;
      mret (Ok false)
    else if negb (bool_decide (prior = stateNameReviewing)) then mret (Ok false)
    else
      source ← latestTransitionIntoState (wf_Name wf) repo issueNum stateNameReviewing;
      enforceCycleCap wf repo issueNum
        (if bool_decide (source = stateNameSynthesizing) then synthCycleCapSpec else devReviewCycleCapSpec wf).

(** The hard cap on state entries; [true] when it is hit. *)
Definition applyTotalTransitionCap (wf : WorkflowConfig) (repo : string) (issueNum : Z) : St World bool :=
  r ← lift (IncrementTotalTransitionCount E repo issueNum);
  let totalCount := match r with Ok n => n | Err _ => 0 end in
  if MaxTotalTransitions <? totalCount then
    let payload := [("workflow", JS (wf_Name wf)); ("total_transitions", JI totalCount);
                    ("max_transitions", JI MaxTotalTransitions)] in
    Log "total_transition_cap_reached" repo issueNum payload;;
    alert "dev_review_cycle_cap_reached" SeverityError repo issueNum
      (payload ++ [("reason", JS "total_transition_cap")]);;
    report_cap repo issueNum wf totalCount MaxTotalTransitions;;
    mret true
  else mret false.

(** ** Hazards *)

Definition clearHazardIfKind (repo : string) (issueNum : Z) (kind : string) : St World unit :=
  r ← lift (QueryIssuePipelineHazard E repo issueNum);
  match r with
  | Ok (Some h) => if bool_decide (hz_Kind h = kind)
                   then _ ← lift (ClearIssuePipelineHazard E repo issueNum); mret tt else mret tt
  | _ => mret tt
  end.

Definition trigger_labels : list string :=
  List.filter (λ l, negb (bool_decide (l = EmptyString)))
    ((λ p : string * WorkflowConfig, TrimSpace (wf_IssueLabel p.2)) <$> c_workflows C).
Definition hasAnyWorkflow : bool := negb (bool_decide (trigger_labels = [])).
Definition workflowTriggerLabels : list string := sort_strings trigger_labels.

Definition detectNoWorkflowMatchHazard (event : ChangeEvent) : St World unit :=
  if negb (hasStatusLabel (ce_Labels event)) || negb hasAnyWorkflow then mret tt
  else
    r ← lift (UpsertIssuePipelineHazard E (ce_Repo event) (ce_IssueNum event)
                HazardKindNoWorkflowMatch (labelsFingerprint (ce_Labels event)));
    match r with
    | Ok true => Log "issue_no_workflow_match" (ce_Repo event) (ce_IssueNum event)
                   [("labels", JL (ce_Labels event)); ("workflow_triggers", JL workflowTriggerLabels)]
    | _ => mret tt
    end.

Definition detectDependencyUnenteredHazard (wf : WorkflowConfig) (event : ChangeEvent) : St World unit :=
  r ← lift (QueryIssueCache E (ce_Repo event) (ce_IssueNum event));
  match r with
  | Ok (Some cache) =>
      let decl := ParseDeclaration (ce_Repo event) (ic_Body cache) in
      if negb (decl_HasBlock decl) then mret tt
      else
        let deps := (λ d, if bool_decide (pd_Normalized d = EmptyString) then pd_Raw d
                          else pd_Normalized d) <$> decl_Dependencies decl in
        r ← lift (UpsertIssuePipelineHazard E (ce_Repo event) (ce_IssueNum event)
              HazardKindAwaitingStatusLabel
              (hazardFingerprint [labelsFingerprint (ce_Labels event); decl_SourceHash decl]));
        match r with
        | Ok true => Log "issue_dependency_unentered" (ce_Repo event) (ce_IssueNum event)
                       [("workflow", JS (wf_Name wf)); ("reason", JS "missing_status_label");
                        ("labels", JL (ce_Labels event)); ("depends_on", JL deps)]
        | _ => mret tt
        end
  | _ => mret tt
  end.

(** ** Events *)

Definition log_resync_skip (event : ChangeEvent) (state reason : string) : St World unit :=
  Log "dispatch_skipped_inflight" (ce_Repo event) (ce_IssueNum event)
    [("state", JS state); ("source", JS "resync"); ("reason", JS reason); ("trigger", JS (ce_Type event))].

(** A snapshot resync is dropped while the issue has a group or an active task. *)
Definition resync_suppressed (event : ChangeEvent) (state : string) : St World bool :=
  inflight ← IsInflight (ce_Repo event) (ce_IssueNum event);
  if (inflight : bool) then log_resync_skip event state "inflight";; mret true
  else
    active ← lift (HasAnyActiveTask E (ce_Repo event) (ce_IssueNum event));
    match active with
    | Ok true => log_resync_skip event state "active_task";; mret true
    | _ => mret false
    end.

(** A group of another state is forgotten when a state is entered. *)
Definition clear_prior_group (repo : string) (issueNum : Z) (state : string) : St World unit :=
  group ← getSM (λ s, sm_inflight s !! issueKey repo issueNum);
  match group with
  | Some g => if negb (bool_decide (g_state g = state))
              then modSM (upd_sm_inflight (base.delete (issueKey repo issueNum))) else mret tt
  | None => mret tt
  end.

Definition enter_state (wf : WorkflowConfig) (event : ChangeEvent) (prior name : string) (state : State) :
    St World (res unit) :=
  let repo := ce_Repo event in
  let issueNum := ce_IssueNum event in
  let resync := bool_decide (ce_Type event = EventIssueResynced) in
  Log "state_entry" repo issueNum
    [("state", JS name); ("agents", JL (stateAgents state));
     ("join", JO [[("strategy", JS (jc_Strategy (s_Join state)));
                   ("min_successes", JI (jc_MinSuccesses (s_Join state)))]])];;
  clear_prior_group repo issueNum name;;
  capped ← (if resync then mret false else applyTotalTransitionCap wf repo issueNum);
  if (capped : bool) then mret (Ok tt)
  else
    blocked ←! (if resync then mret (Ok false) else applyDevReviewCycleCap wf repo issueNum name);
    if (blocked : bool) then mret (Ok tt)
    else
      recordStateEntry (wf_Name wf) repo issueNum name state;;
      _ ← lift (TouchIssueFirstDispatch E repo issueNum);
      (if resync then
         Log "issue_resynced" repo issueNum
           [("workflow", JS (wf_Name wf)); ("state", JS name); ("labels", JL (ce_Labels event));
            ("author", JS (ce_Author event)); ("title", JS (ce_Detail event))]
       else mret tt);;
      dispatchStateAgents repo issueNum wf prior name state (ce_Labels event).

Definition processWorkflowEvent (wf : WorkflowConfig) (event : ChangeEvent) : St World (res unit) :=
  let repo := ce_Repo event in
  let issueNum := ce_IssueNum event in
  let current := findCurrentState wf (ce_Labels event) in
  _ ←! wrapE "statemachine: ensure workflow instance"
         (ensureWorkflowInstance (wf_Name wf) repo issueNum (from_option fst EmptyString current));
  prior ← queryPriorWorkflowState (wf_Name wf) repo issueNum;
  match current with
  | None => (if 0 <? issueNum then detectDependencyUnenteredHazard wf event else mret tt);; mret (Ok tt)
  | Some (name, state) =>
      (if 0 <? issueNum then clearHazardIfKind repo issueNum HazardKindAwaitingStatusLabel else mret tt);;
      let resync := bool_decide (ce_Type event = EventIssueResynced) in
      let entry := (bool_decide (ce_Type event = EventLabelAdded)
                    && bool_decide (ce_Detail event = s_EnterLabel state))
                   || bool_decide (ce_Type event = EventIssueCreated) || resync in
      let agents := stateHasAgents state in
      suppressed ← (if resync && agents then resync_suppressed event name else mret false);
      if (suppressed : bool) then mret (Ok tt)
      else if entry && agents then enter_state wf event prior name state
      else if entry then recordStateEntry (wf_Name wf) repo issueNum name state;; mret (Ok tt)
      else
        r ← evaluateTransitions wf event name state;
        mret match r.2 with Some e => Err e | None => Ok tt end
  end.

Definition findMatchingWorkflows (event : ChangeEvent) : list WorkflowConfig :=
  List.filter (λ wf, negb (bool_decide (wf_IssueLabel wf = EmptyString))
                     && bool_decide (wf_IssueLabel wf ∈ ce_Labels event)) (c_workflows C).*2.

Definition eventKey (event : ChangeEvent) : string :=
  ce_Repo event +:+ "#" +:+ itoa (ce_IssueNum event) +:+ "#" +:+ ce_Type event +:+ "#" +:+ ce_Detail event.

Definition HandleEvent (event : ChangeEvent) : St World (res unit) :=
  let repo := ce_Repo event in
  let issueNum := ce_IssueNum event in
  loaded ← getSM (λ s, bool_decide (eventKey event ∈ sm_processed s));
  if (loaded : bool) then mret (Ok tt)
  else
    modSM (upd_sm_processed ({[eventKey event]} ∪.));;
    match findMatchingWorkflows event with
    | [] =>
        (if (0 <? issueNum) && negb (bool_decide (ce_Type event = EventPollCycleDone))
         then detectNoWorkflowMatchHazard event else mret tt);;
        mret (Ok tt)
    | wf :: others =>
        (if 0 <? issueNum then clearHazardIfKind repo issueNum HazardKindNoWorkflowMatch else mret tt);;
        match others with
        | [] => processWorkflowEvent wf event
        | _ =>
            Log "error_multi_workflow" repo issueNum
              [("workflows", JL (wf_Name <$> wf :: others)); ("labels", JL (ce_Labels event))];;
            mret (Err (EMsg "statemachine: issue matches several workflows"))
        end
    end.
End machine.

(** Completion runs under the background context, which is never cancelled. *)
Section completion.
Context (E : Env) (C : SMConfig).

(** ** Completion *)

Definition recordStuckCandidate (key : string) (labels : option (list string)) : St World unit :=
  modSM (upd_sm_completion (<[key := mkCompletion (e_now E) (marshal_strings labels)]>)).

Definition logCompletionEvent (repo : string) (issueNum : Z) (taskID agentName : string) (exitCode : Z) :
    St World unit :=
  Log "completed" repo issueNum
    [("task_id", JS taskID); ("agent_name", JS agentName); ("exit_code", JI exitCode)].

Definition lookup_task (taskID : string) : St World (option TaskRecord) :=
  if is_blank taskID then mret None
  else r ← lift (GetTask E taskID); mret match r with Ok t => Some t | Err _ => None end.

Definition canonicalAgentName (taskID fallback : string) : St World string :=
  t ← lookup_task taskID;
  mret match t with
       | Some t => if is_blank (t_AgentName t) then fallback else t_AgentName t
       | None => fallback
       end.

Definition logSynthesisDecision (repo : string) (issueNum : Z) (g : dispatchGroup)
    (decision : option SynthesisDecision) : St World unit :=
  if negb (bool_decide (stateModeFromGroup g = StateModeSynth)) then mret tt
  else match decision with
       | None => Log "synthesis_decision" repo issueNum
                   [("outcome", JS "escalate"); ("rejected_prs", JZs []);
                    ("reason", JS "malformed_or_missing_synthesis_output")]
       | Some d =>
           Log "synthesis_decision" repo issueNum
             ([("outcome", JS (sd_Outcome d)); ("rejected_prs", JZs (sd_RejectedPRs d));
               ("reason", JS (sd_Reason d))]
              ++ (if bool_decide (sd_Outcome d = "pick") then [("chosen_pr", JI (sd_ChosenPR d))]
                  else if bool_decide (sd_Outcome d = "cherry-pick") then [("synth_pr", JI (sd_SynthPR d))]
                  else []))
       end.

Definition shouldEscalateSynthDecision (decision : option SynthesisDecision) : bool :=
  match decision with None => true | Some d => bool_decide (sd_Outcome d = "escalate") end.

Definition advanceRolloutFailureToBlocked (repo : string) (issueNum : Z) (workflowName sourceState : string) :
    St World unit :=
  match assoc (c_workflows C) workflowName with
  | None => mret tt
  | Some wf =>
      match assoc (wf_States wf) stateNameBlocked with
      | None => mret tt
      | Some _ =>
          r ← lift (Advance E repo issueNum workflowName sourceState stateNameBlocked EmptyString);
          match r with
          | Err _ => mret tt
          | Ok _ =>
              r ← lift (IncrementTransition E repo issueNum sourceState stateNameBlocked);
              match r with
              | Err _ => mret tt
              | Ok _ => Log "transition" repo issueNum [("from", JS sourceState); ("to", JS stateNameBlocked)]
              end
          end
      end
  end.

(** The labels are tried in turn until one leads somewhere. *)
Fixpoint completion_loop (wf : WorkflowConfig) (event : ChangeEvent) (sourceState : string)
    (currentState : State) (labels : list string) : St World bool :=
  match labels with
  | [] => mret false
  | label :: labels =>
      r ← evaluateTransitions E C (λ _, false) wf
            (mkChange (ce_Type event) (ce_Repo event) (ce_IssueNum event) (ce_Labels event) label (ce_Author event))
            sourceState currentState;
      match r.2 with
      | Some _ => mret false
      | None => if (r.1 : bool) then mret true
                else completion_loop wf event sourceState currentState labels
      end
  end.

Definition evaluateCompletionTransitions (repo : string) (issueNum : Z) (workflowName sourceState : string)
    (currentLabels : list string) : St World bool :=
  let event := mkChange EventLabelAdded repo issueNum currentLabels EmptyString EmptyString in
  match findMatchingWorkflows C event with
  | [wf] =>
      if negb (bool_decide (wf_Name wf = workflowName)) then mret false
      else match assoc (wf_States wf) sourceState with
           | None => mret false
           | Some currentState => completion_loop wf event sourceState currentState currentLabels
           end
  | _ => mret false
  end.

(** The slot's first completion counts; later ones change nothing. *)
Definition complete_slot (slotKey : string) (exitCode : Z) (g : dispatchGroup) : dispatchGroup :=
  if bool_decide (slotKey ∈ g_completed g) then g
  else
    let g := upd_g_completed ({[slotKey]} ∪.) g in
    if exitCode =? 0 then upd_g_success ({[slotKey]} ∪.) g else upd_g_failed ({[slotKey]} ∪.) g.

Definition all_completed (g : dispatchGroup) : bool := (size (g_slots g) <=? size (g_completed g))%nat.
Definition none_failed (g : dispatchGroup) : bool := bool_decide (g_failed g = ∅).

(** The join of a group without rollout tasks: whether it is decided, and how.
    [fresh] is false when the slot had completed before. *)
Definition join_slots (strategy : string) (fresh : bool) (exitCode : Z) (g : dispatchGroup) : bool * bool :=
  if bool_decide (strategy = JoinAnyPassed) then
    if fresh && (exitCode =? 0) && negb (bool_decide (g_success g = ∅)) then (true, true)
    else (all_completed g, false)
  else if bool_decide (strategy = JoinAllPassed) then
    if all_completed g then (true, none_failed g)
    else (fresh && negb (exitCode =? 0), false)
  else (all_completed g, all_completed g && none_failed g).

(** The join of a rollout group, from the tasks of the group. *)
Definition join_summary (minSuccesses : Z) (s : RolloutGroupSummary) : bool * bool :=
  let need := if minSuccesses <=? 0 then rg_RolloutsTotal s else minSuccesses in
  if rg_RolloutsTotal s <=? rg_TerminalCount s then (true, need <=? rg_SuccessCount s) else (false, false).

Definition join_group (rolloutGroupID : string) (fresh : bool) (exitCode : Z) (g : dispatchGroup) :
    St World (bool * bool * option RolloutGroupSummary) :=
  let strategy := jc_Strategy (g_join g) in
  if bool_decide (strategy = JoinRollouts) && negb (bool_decide (rolloutGroupID = EmptyString)) then
    r ← lift (SummarizeRolloutGroup E rolloutGroupID);
    mret match r with
         | Ok (Some s) => (join_summary (jc_MinSuccesses (g_join g)) s, Some s)
         | _ => (false, false, None)
         end
  else mret (join_slots strategy fresh exitCode g, None).

Definition log_group_resolved (repo : string) (issueNum : Z) (rolloutGroupID : string) (g : dispatchGroup)
    (passed : bool) (summary : option RolloutGroupSummary) : St World unit :=
  if negb (bool_decide (jc_Strategy (g_join g) = JoinRollouts)) then mret tt
  else Log "rollout_group_resolved" repo issueNum
    [("group_id", JS rolloutGroupID);
     ("success_count", JI (from_option rg_SuccessCount (Z.of_nat (size (g_success g))) summary));
     ("failed_count", JI (from_option rg_FailedCount (Z.of_nat (size (g_failed g))) summary));
     ("decision", JS (if passed then "join_satisfied" else "min_successes_unmet"))].

(** What follows a decided group. *)
Definition advance_group (repo : string) (issueNum : Z) (rolloutGroupID : string) (g : dispatchGroup)
    (passed : bool) (summary : option RolloutGroupSummary) (currentLabels : option (list string))
    (decision : option SynthesisDecision) : St World unit :=
  let key := issueKey repo issueNum in
  let join := jc_Strategy (g_join g) in
  let synth := bool_decide (stateModeFromGroup g = StateModeSynth) in
  log_group_resolved repo issueNum rolloutGroupID g passed summary;;
  if synth && shouldEscalateSynthDecision decision then
    (if bool_decide (decision = None) && c_synthReporter C then
       report (ReportSynthesisNeedsHuman repo issueNum "malformed_or_missing_synthesis_output")
     else mret tt);;
    advanceRolloutFailureToBlocked repo issueNum (g_workflow g) (g_state g);;
    recordStuckCandidate key currentLabels
  else if passed then
    transitioned ← evaluateCompletionTransitions repo issueNum (g_workflow g) (g_state g)
                     (default [] currentLabels);
    if (transitioned : bool) then mret tt
    else if synth then advanceRolloutFailureToBlocked repo issueNum (g_workflow g) (g_state g)
    else recordStuckCandidate key currentLabels
  else
    let rollouts := bool_decide (join = JoinRollouts) in
    Log "transition_to_failed" repo issueNum
      [("state", JS (g_state g)); ("issue", JI issueNum); ("join", JS join); ("needs_human", JB rollouts)];;
    (if rollouts then advanceRolloutFailureToBlocked repo issueNum (g_workflow g) (g_state g) else mret tt);;
    alert E C "transition_to_failed" SeverityError repo issueNum
      [("state", JS (g_state g)); ("join", JS join); ("needs_human", JB rollouts)];;
    recordStuckCandidate key currentLabels.

(** The completion of a slot that belongs to the group. *)
Definition complete_in_group (repo : string) (issueNum : Z) (taskID agentName slotKey : string)
    (task : option TaskRecord) (exitCode : Z) (currentLabels : option (list string))
    (decision : option SynthesisDecision) (g0 : dispatchGroup) : St World unit :=
  let key := issueKey repo issueNum in
  let rolloutGroupID := from_option t_RolloutGroupID EmptyString task in
  let rolloutIndex := from_option t_RolloutIndex 0 task in
  let fresh := negb (bool_decide (slotKey ∈ g_completed g0)) in
  let g := complete_slot slotKey exitCode g0 in
  modSM (upd_sm_inflight (<[key := g]>));;
  (if 0 <? rolloutIndex then
     Log "rollout_completed" repo issueNum
       [("agent_name", JS agentName); ("workflow", JS (g_workflow g)); ("state", JS (g_state g));
        ("rollout_index", JI rolloutIndex); ("rollouts_total", JI (from_option t_RolloutsTotal 1 task));
        ("group_id", JS rolloutGroupID);
        ("status", JS (if exitCode =? 0 then TaskStatusCompleted else TaskStatusFailed))]
   else mret tt);;
  j ← join_group rolloutGroupID fresh exitCode g;
  let advance := j.1.1 in
  (if (advance : bool) then
     modSM (upd_sm_inflight (base.delete key));; releaseIssueClaim E C repo issueNum
   else mret tt);;
  logCompletionEvent repo issueNum taskID agentName exitCode;;
  logSynthesisDecision repo issueNum g decision;;
  if (advance : bool) then
    advance_group repo issueNum rolloutGroupID g j.1.2 j.2 currentLabels decision
  else mret tt.

Definition MarkAgentCompletedWithDecision (repo : string) (issueNum : Z) (taskID agentName0 : string)
    (exitCode : Z) (currentLabels : option (list string)) (decision : option SynthesisDecision) :
    St World unit :=
  let key := issueKey repo issueNum in
  agentName ← canonicalAgentName taskID agentName0;
  task ← lookup_task taskID;
  let rolloutIndex := from_option t_RolloutIndex 0 task in
  let slotKey := if 0 <? rolloutIndex then rolloutSlotKey rolloutIndex else agentName in
  group ← getSM (λ s, sm_inflight s !! key);
  match group with
  | None =>
      releaseIssueClaim E C repo issueNum;;
      recordStuckCandidate key currentLabels;;
      logCompletionEvent repo issueNum taskID agentName exitCode
  | Some g =>
      let taskKey := TrimSpace taskID in
      if negb (bool_decide (taskKey = EmptyString)) && bool_decide (taskKey ∈ g_completedTasks g)
      then logCompletionEvent repo issueNum taskID agentName exitCode
      else
        let g := if bool_decide (taskKey = EmptyString) then g
                 else upd_g_completedTasks ({[taskKey]} ∪.) g in
        modSM (upd_sm_inflight (<[key := g]>));;
        if negb (bool_decide (is_Some (g_slots g !! slotKey)))
        then logCompletionEvent repo issueNum taskID agentName exitCode
        else complete_in_group repo issueNum taskID agentName slotKey task exitCode currentLabels decision g
  end.

Definition MarkAgentCompleted (repo : string) (issueNum : Z) (taskID agentName : string) (exitCode : Z)
    (currentLabels : option (list string)) : St World unit :=
  MarkAgentCompletedWithDecision repo issueNum taskID agentName exitCode currentLabels None.

(** ** Stuck issues *)

Definition CheckStuck (repo : string) (issueNum : Z) (currentLabels : option (list string)) : St World unit :=
  let key := issueKey repo issueNum in
  rec ← getSM (λ s, sm_completion s !! key);
  match rec with
  | None => mret tt
  | Some r =>
      if e_now E - cr_at r <? c_stuckTimeout C then mret tt
      else
        (if bool_decide (marshal_strings currentLabels = cr_labels r) then
           let payload := [("since", JI (cr_at r)); ("labels", JS (cr_labels r))] in
           Log "stuck_detected" repo issueNum payload;;
           alert E C "stuck_detected" SeverityWarn repo issueNum payload
         else mret tt);;
        modSM (upd_sm_completion (base.delete key))
  end.

Definition CheckAllStuck (repo : string) : St World unit :=
  r ← lift (ListIssueCaches E repo);
  match r with
  | Err _ => mret tt
  | Ok caches =>
      forS caches (λ c,
        if negb (bool_decide (ic_State c = "open")) then mret tt
        else match unmarshal_strings (ic_Labels c) with
             | None => mret tt
             | Some labels => CheckStuck (ic_Repo c) (ic_IssueNum c) labels
             end)
  end.
End completion.
