(* ===== verification/Frames.v ===== *)
(** * Frame reasoning for the coordinator

    A frame condition is a preorder on worlds.  To show that an operation
    respects it, the program text is followed down to its statements and
    memory updates, and each of those is checked. *)

From S2P Require Import Prelude GoLib Json Types DB TaskQueue IssueClaim StoreIssue World Dependency Workflow StateMachine.

(** The part of a world relation that a store operation can see. *)
Definition under (R : relation World) (w : World) : relation DB :=
  λ d d', R (upd_wd_db (λ _, d) w) (upd_wd_db (λ _, d') w).

#[export] Instance under_preorder R w `{!PreOrder R} : PreOrder (under R w).
Proof. unfold under. split; [intros d; reflexivity|]. intros d1 d2 d3 H1 H2. by etrans. Qed.

Lemma world_eta w : upd_wd_db (λ _, wd_db w) w = w.
Proof. by destruct w. Qed.

Lemma keeps_lift_under {A} (R : relation World) (m : St DB A) :
  (∀ w, keeps (under R w) m) → keeps R (lift m).
Proof.
  intros H w. pose proof (H w (wd_db w)) as Hw. unfold under in Hw. by rewrite world_eta in Hw.
Qed.

Lemma keeps_random (R : relation DB) E :
  (∀ d, R d (upd_db_fresh S d)) → keeps R (random E).
Proof. intros H d. apply H. Qed.

Lemma keeps_load_instances (R : relation DB) `{!PreOrder R} E rows :
  (∀ d, R d (upd_db_call d)) → keeps R (load_instances E rows).
Proof.
  intros H. induction rows as [|r rows IH]; cbn [load_instances]; [apply keeps_ret; apply _|].
  unfold loadHistory, QueryWorkflowTransitions. keep_auto. by apply keeps_sql_query.
Qed.

Lemma keeps_completion_loop (R : relation World) `{!PreOrder R} E C wf ev src st labels :
  (∀ l, keeps R (evaluateTransitions E C (λ _, false) wf
     (mkChange (ce_Type ev) (ce_Repo ev) (ce_IssueNum ev) (ce_Labels ev) l (ce_Author ev)) src st)) →
  keeps R (completion_loop E C wf ev src st labels).
Proof.
  intros H. induction labels as [|l labels IH]; cbn [completion_loop]; [apply keeps_ret; apply _|].
  apply keeps_bind; [apply _|apply H|]. intros [[] [e|]]; simpl; keep_auto.
Qed.

Ltac head_of t := match t with ?f _ => head_of f | _ => t end.

(** One step of a frame proof; [leaf] closes the goals about single updates. *)
Ltac frame_step leaf :=
  match goal with
  | |- keeps _ (retry_busy _ _) => apply keeps_retry; [tc_solve|]
  | |- keeps _ (load_instances _ _) => apply keeps_load_instances; [tc_solve|leaf]
  | |- keeps _ (completion_loop _ _ _ _ _ _ _) => apply keeps_completion_loop; [tc_solve|intros ?]
  | |- keeps _ (lift _) => apply keeps_lift_under; intros ?
  | |- keeps _ (sql_query _ _) => apply keeps_sql_query; leaf
  | |- keeps _ (sql_tx _ _) => apply keeps_sql_tx; leaf
  | |- keeps _ (sql _ _) => apply keeps_sql; leaf
  | |- keeps _ (random _) => apply keeps_random; leaf
  | |- keeps _ (modS _) => apply keeps_modS; leaf
  | |- _ => keep_step
  | |- keeps _ ?m => let h := head_of m in unfold h
  end.

Ltac frame_auto leaf := repeat first [solve [auto with frame nocore] | frame_step leaf].

(** ** No error without a failing statement *)

Definition never_fails {S A} (m : St S (res A)) : Prop := ∀ s, is_err (m s).1 = false.

Lemma never_fails_ok {S A} (m : St S (res A)) s : never_fails m → ∃ a, (m s).1 = Ok a.
Proof. intros H. specialize (H s). destruct (m s).1 as [a|e]; [by exists a|done]. Qed.

Lemma never_fails_bindE {S A B} (m : St S (res A)) (k : A → St S (res B)) :
  never_fails m → (∀ a, never_fails (k a)) → never_fails (bindE m k).
Proof.
  intros Hm Hk s. unfold bindE, mbind, St_bind. specialize (Hm s).
  destruct (m s) as [[a|e] s']; [apply Hk|done].
Qed.

Lemma never_fails_bind {S A B} (m : St S A) (k : A → St S (res B)) :
  (∀ a, never_fails (k a)) → never_fails (m ≫= k).
Proof. intros H s. apply H. Qed.

Lemma never_fails_wrapE {S A} ctx (m : St S (res A)) : never_fails m → never_fails (wrapE ctx m).
Proof. intros H s. specialize (H s). unfold wrapE, mbind, St_bind. by destruct (m s) as [[a|e] s']. Qed.

Lemma never_fails_lift {A} (m : St DB (res A)) : never_fails m → never_fails (lift m).
Proof. intros H w. apply H. Qed.

Lemma never_fails_sql {A} E (op : DB → A * DB) : quiet E → never_fails (sql E op).
Proof. intros H d. by rewrite sql_quiet. Qed.

Lemma never_fails_forE {S A} (xs : list A) (body : A → St S (res unit)) :
  (∀ x, never_fails (body x)) → never_fails (forE xs body).
Proof.
  intros H. induction xs as [|x xs IH]; [done|]. apply never_fails_bindE; auto.
Qed.

Ltac never_step :=
  match goal with
  | |- never_fails (mret _) => intros ?; reflexivity
  | |- never_fails (bindE _ _) => apply never_fails_bindE; [|intros ?]
  | |- never_fails (wrapE _ _) => apply never_fails_wrapE
  | |- never_fails (mbind _ _) => apply never_fails_bind; intros ?
  | |- never_fails (lift _) => apply never_fails_lift
  | |- never_fails (sql _ _) => apply never_fails_sql; assumption
  | |- never_fails (forE _ _) => apply never_fails_forE; intros ?
  | |- never_fails (let _ := _ in _) => cbv zeta
  | |- never_fails (match ?x with _ => _ end) => destruct x
  | |- never_fails (if ?x then _ else _) => destruct x
  | |- never_fails ?m => let h := head_of m in unfold h
  end.
Ltac never_auto := repeat never_step.
