(* ===== verification/Demo.v ===== *)
(** * Concrete inputs

    The default workflow of the repository
    ([.github/workbuddy/workflows/default.md]) as the loader gives it, and small
    worlds; the examples evaluate the model on them. *)

From S2P Require Import Prelude GoLib Json Types DB TaskQueue TaskQueueSpec World Dependency StateMachine.

(** A YAML reader that knows one block: it depends on issue 2. *)
#[export] Instance demo_yaml : YamlLib := {
  yaml_depends_on s := if Contains s "depends_on" then Some (Some ["#2"]) else None;
  yaml_node _ := None
}.

Definition plain_join : JoinConfig := mkJoin JoinAllPassed 0.
Definition simple_state (label agent mode : string) (ts : list (string * string)) : State :=
  mkState label agent [] mode plain_join 1 ts.

Definition default_states : list (string * State) :=
  [("developing", simple_state "status:developing" "dev-agent" StateModeReview
      [("status:synthesizing", "synthesizing"); ("status:reviewing", "reviewing"); ("status:blocked", "blocked")]);
   ("synthesizing", simple_state "status:synthesizing" "review-agent" StateModeSynth
      [("status:reviewing", "reviewing")]);
   ("reviewing", simple_state "status:reviewing" "review-agent" StateModeReview
      [("status:merging", "merging"); ("status:developing", "developing")]);
   ("merging", simple_state "status:merging" "merge-agent" StateModeReview
      [("status:merged", "merged"); ("status:developing", "developing")]);
   ("merged", simple_state "status:merged" EmptyString StateModeReview []);
   ("blocked", simple_state "status:blocked" EmptyString StateModeReview [("status:developing", "developing")]);
   ("failed", simple_state "status:failed" EmptyString StateModeReview [])].

Definition default_workflow : WorkflowConfig := mkWorkflow "default" "workbuddy" 3 3 default_states.
Definition developing_def : State :=
  simple_state "status:developing" "dev-agent" StateModeReview
    [("status:synthesizing", "synthesizing"); ("status:reviewing", "reviewing"); ("status:blocked", "blocked")].

Definition demo_config (claimer : string) : SMConfig :=
  mkConfig [("default", default_workflow)] true true true claimer DefaultIssueClaimLease (30 * minute).

Definition developing_labels : list string := ["workbuddy"; "status:developing"].
Definition demo_event (num : Z) : ChangeEvent :=
  mkChange EventLabelAdded "o/r" num developing_labels "status:developing" EmptyString.
Definition demo_resync (num : Z) : ChangeEvent :=
  mkChange EventIssueResynced "o/r" num developing_labels "a title" EmptyString.

(** Issue 1 is blocked, issue 3 is free. *)
Definition demo_depstate : IssueDependencyState :=
  mkDepState "o/r" 1 DependencyVerdictBlocked "status:developing" EmptyString false 1 false None.
Definition gated_world : World :=
  upd_wd_db (upd_db_depstate (λ _, {[ ("o/r", 1) := demo_depstate ]})) empty_world.

Definition demo_claim : IssueClaimRecord := mkClaim "coordinator-a" "tok" 0 (60 * second).
Definition claimed_world : World :=
  upd_wd_db (upd_db_claims (λ _, {[ ("o/r", 1) := demo_claim ]})) empty_world.

(** An issue with fifteen entries. *)
Definition capped_world : World :=
  upd_wd_db (upd_db_cycles (λ _, {[ ("o/r", 1) := mkCycle 0 0 15 None None None None ]})) empty_world.

Definition fence_block : string := "```yaml" +:+ String newline ("workbuddy: {depends_on: [#2]}" +:+ String newline "```").
Definition dep_world : World :=
  upd_wd_db (upd_db_cache (λ _, {[ ("o/r", 1) := mkCache "o/r" 1 "[]" fence_block "open" None 0 "t1";
                                   ("o/r", 2) := mkCache "o/r" 2 "[]" EmptyString "open" None 0 "t2" ]})) gated_world.

(** An event of a free issue starts its agent; the gated one is held. *)
Example demo_dispatch :
  wd_dispatch (HandleEvent (demo_env 0) (demo_config "coordinator-a") (λ _, false) (demo_event 3) gated_world).2
  = [mkDispatch "o/r" 3 "dev-agent" "default" "developing" "developing" 0 0 EmptyString].
Proof. vm_compute. reflexivity. Qed.

Example demo_held :
  wd_dispatch (HandleEvent (demo_env 0) (demo_config "coordinator-a") (λ _, false) (demo_event 1) gated_world).2 = [].
Proof. vm_compute. reflexivity. Qed.
