(* ===== verification/StateMachineSpec.v ===== *)
(** * Properties of the state machine

    Gates: a blocked issue, or one another coordinator has claimed, is not
    dispatched whatever happens. *)

From S2P Require Import Prelude GoLib Json Types DB TaskQueue IssueClaim StoreIssue World Dependency Workflow StateMachine Frames Demo TaskQueueSpec.
From Stdlib Require Import Ascii.

(** ** The requests of an issue *)

Definition for_issue (k : string * Z) (r : DispatchRequest) : bool :=
  bool_decide ((dr_Repo r, dr_IssueNum r) = k).
Definition sent_for (k : string * Z) (w : World) : list DispatchRequest :=
  List.filter (for_issue k) (wd_dispatch w).

Lemma sent_for_other k w r :
  for_issue k r = false → sent_for k (upd_wd_dispatch (λ l, l ++ [r]) w) = sent_for k w.
Proof. intros H. unfold sent_for. simpl. rewrite List.filter_app. simpl. by rewrite H, app_nil_r. Qed.

(** The work of the coordinator: events from the poller, completions reported
    by workers, direct dispatch, the stuck check and the operator's reset. *)
Inductive sm_work `{YamlLib} (P : Env → SMConfig → Prop) (w : World) : World → Prop :=
  | sw_event E C ctx ev : P E C → sm_work P w (HandleEvent E C ctx ev w).2
  | sw_complete E C repo num task agent code labels dec : P E C →
      sm_work P w (MarkAgentCompletedWithDecision E C repo num task agent code labels dec w).2
  | sw_dispatch E C ctx repo num agent wf st : P E C →
      sm_work P w (DispatchAgent E C ctx repo num agent wf st w).2
  | sw_stuck E C repo : P E C → sm_work P w (CheckAllStuck E C repo w).2
  | sw_clear E C repo num : P E C → sm_work P w (ClearInflight E C repo num w).2.

(** A step is work, or the end of a poll cycle. *)
Inductive sm_step `{YamlLib} (P : Env → SMConfig → Prop) (w : World) : World → Prop :=
  | ss_work w' : sm_work P w w' → sm_step P w w'
  | ss_cycle : sm_step P w (ResetDedup w).2.

(** Requests are made for the issue at hand. *)
Lemma inherited_issue E repo num wf src st agent :
  returns (on_ok (Forall (λ r, (dr_Repo r, dr_IssueNum r) = (repo, num))))
    (inheritedRolloutRequests E repo num wf src st agent).
Proof.
  unfold inheritedRolloutRequests. repeat case_match; try (apply returns_ret; constructor).
  apply returns_bindE. intros ?. apply returns_ret. simpl. repeat case_match; try constructor.
  rewrite sort_by_perm. apply Forall_fmap, Forall_true. done.
Qed.

Lemma state_requests_issue E repo num wf src st def agents n :
  returns (on_ok (Forall (λ r, (dr_Repo r, dr_IssueNum r) = (repo, num))))
    (state_requests E repo num wf src st def agents n).
Proof.
  unfold state_requests.
  assert (∀ (l : list string), Forall (λ r, (dr_Repo r, dr_IssueNum r) = (repo, num))
    ((λ a, mkDispatch repo num a (wf_Name wf) st src 0 0 EmptyString) <$> l)) as Hper.
  { intros l. apply Forall_fmap, Forall_true. done. }
  repeat case_match.
  - apply returns_bind. intros g. apply returns_ret. simpl. apply Forall_fmap, Forall_true. done.
  - intros w. unfold bindE, mbind, St_bind.
    pose proof (inherited_issue E repo num wf src st (default EmptyString (head agents)) w) as Hi.
    destruct (inheritedRolloutRequests _ _ _ _ _ _ _ w) as [[l|e] w']; [|done].
    cbn [fst snd mret St_ret on_ok] in *. by destruct (bool_decide (l = [])).
  - apply returns_ret, Hper.
Qed.

(** ** The dependency gate *)

Definition verdict_gated (k : string * Z) (w : World) : Prop :=
  ∃ s, db_depstate (wd_db w) !! k = Some s ∧ gated (ds_Verdict s) = true.

(** Verdicts are left alone, and a gated issue is sent nothing. *)
Definition gate_kept (k : string * Z) : relation World := λ w w',
  db_depstate (wd_db w') = db_depstate (wd_db w) ∧
  (verdict_gated k w → sent_for k w' = sent_for k w).

#[export] Instance gate_kept_preorder k : PreOrder (gate_kept k).
Proof.
  split; [by intros w|]. intros w1 w2 w3 [Hd H1] [Hd' H2]. split; [congruence|].
  intros Hg. rewrite H2, H1; [done|done|]. unfold verdict_gated in *. by rewrite Hd.
Qed.

Section gate.
Context (k : string * Z).
Ltac gate_leaf := intros; first [split; [reflexivity|intros _; reflexivity] | repeat case_match; simplify_eq/=; by split].

Lemma gate_send_other C ctx E r : for_issue k r = false → keeps (gate_kept k) (send E C ctx r).
Proof.
  intros Hr. unfold send. keep_auto; try (frame_auto gate_leaf; fail).
  apply keeps_modS. intros w. split; [done|]. intros _. by apply sent_for_other.
Qed.

Lemma gate_single_other C ctx E r :
  for_issue k r = false → keeps (gate_kept k) (dispatchSingleAgent E C ctx r).
Proof.
  intros Hr. pose proof (gate_send_other C ctx E r Hr). unfold dispatchSingleAgent, dispatch_slot.
  frame_auto gate_leaf.
Qed.

Lemma gate_state_other C ctx E repo num wf src st def labels :
  (repo, num) ≠ k → keeps (gate_kept k) (dispatchStateAgents E C ctx repo num wf src st def labels).
Proof.
  intros Hk. unfold dispatchStateAgents. destruct (stateAgents def) as [|a l]; [keep_auto|].
  apply keeps_bindE; [apply _|frame_auto gate_leaf|]. intros [|]; [keep_auto|].
  apply keeps_bind; [apply _|frame_auto gate_leaf|]. intros _.
  apply keeps_bindE; [apply _|frame_auto gate_leaf|]. intros [|]; [keep_auto|].
  destruct (resolveStateRollouts def labels) as [n|e]; [|keep_auto].
  eapply keeps_bindE_returns; [apply _|frame_auto gate_leaf|apply state_requests_issue|].
  intros reqs Hreqs. cbv zeta. apply keeps_bind; [apply _|frame_auto gate_leaf|]. intros [g|].
  - frame_auto gate_leaf.
  - do 3 (apply keeps_bind; [apply _|frame_auto gate_leaf|intros ?]).
    eapply keeps_forE_Forall; [apply _|exact Hreqs|]. intros r Hr. apply gate_single_other.
    unfold for_issue. by rewrite bool_decide_false by congruence.
Qed.

(** The gate itself: nothing follows a gated verdict. *)
Lemma gated_blocks E repo num a wf st w :
  verdict_gated (repo, num) w →
  match (isBlockedByDependency E repo num a wf st w).1 with Ok b => b = true | Err _ => True end.
Proof.
  intros (s & Hs & Hg). unfold isBlockedByDependency, bindE, wrapE, mbind, St_bind, lift,
    QueryIssueDependencyState, wrapE, mbind, St_bind, sql_query, sql.
  destruct (e_fault E (db_calls (wd_db w))); simpl; [done|]. rewrite Hs. simpl.
  unfold gated in Hg. by rewrite Hg.
Qed.

Lemma gate_depends E repo num a wf st : keeps (gate_kept k) (isBlockedByDependency E repo num a wf st).
Proof. frame_auto gate_leaf. Qed.

End gate.

Definition verdicts (w : World) : gmap (string * Z) IssueDependencyState := db_depstate (wd_db w).
Ltac verdicts_leaf := intros; first [reflexivity | repeat case_match; simplify_eq/=; reflexivity].

(** Nothing behind the gate runs for a gated issue. *)
Lemma gate_guard E repo num a wf st (rest : St World (res unit)) :
  keeps (same verdicts) rest →
  keeps (gate_kept (repo, num))
    (blocked ←! isBlockedByDependency E repo num a wf st;
     if (blocked : bool) then mret (Ok tt) else rest).
Proof.
  intros Hrest w. pose proof (gate_depends (repo, num) E repo num a wf st w) as [Hd Hs].
  pose proof (gated_blocks E repo num a wf st w) as Hb. unfold bindE, mbind, St_bind.
  destruct (isBlockedByDependency _ _ _ _ _ _ w) as [[b|e] w']; simpl in *; [|by split].
  destruct b; simpl; [by split|]. split.
  - specialize (Hrest w'). unfold same, verdicts in Hrest. by rewrite Hrest.
  - intros Hg. by specialize (Hb Hg).
Qed.

Lemma gate_state k C ctx E repo num wf src st def labels :
  keeps (gate_kept k) (dispatchStateAgents E C ctx repo num wf src st def labels).
Proof.
  destruct (decide ((repo, num) = k)) as [<-|Hk]; [|by apply gate_state_other].
  unfold dispatchStateAgents. destruct (stateAgents def) as [|a l]; [keep_auto|].
  apply gate_guard. frame_auto verdicts_leaf.
Qed.

#[local] Hint Resolve gate_state : frame.

Section gate_steps.
Context `{YamlLib} (E : Env) (C : SMConfig) (k : string * Z).
Ltac gate_leaf := intros; first [split; [reflexivity|intros _; reflexivity] | repeat case_match; simplify_eq/=; by split].

Lemma gate_event ctx ev : keeps (gate_kept k) (HandleEvent E C ctx ev).
Proof. frame_auto gate_leaf. Qed.

Lemma gate_evaluate ctx wf ev src st : keeps (gate_kept k) (evaluateTransitions E C ctx wf ev src st).
Proof. frame_auto gate_leaf. Qed.

Lemma gate_release repo num : keeps (gate_kept k) (releaseIssueClaim E C repo num).
Proof. frame_auto gate_leaf. Qed.

Lemma gate_to_blocked repo num wf src :
  keeps (gate_kept k) (advanceRolloutFailureToBlocked E C repo num wf src).
Proof. frame_auto gate_leaf. Qed.
#[local] Hint Resolve gate_evaluate gate_release gate_to_blocked : frame.

Lemma gate_advance repo num g grp passed sum labels dec :
  keeps (gate_kept k) (advance_group E C repo num grp g passed sum labels dec).
Proof. frame_auto gate_leaf. Qed.
#[local] Hint Resolve gate_advance : frame.

Lemma gate_join grp fresh code g : keeps (gate_kept k) (join_group E grp fresh code g).
Proof. frame_auto gate_leaf. Qed.
#[local] Hint Resolve gate_join : frame.

Lemma gate_in_group repo num task agent slot t code labels dec g :
  keeps (gate_kept k) (complete_in_group E C repo num task agent slot t code labels dec g).
Proof. frame_auto gate_leaf. Qed.
#[local] Hint Resolve gate_in_group : frame.

Lemma gate_complete repo num task agent code labels dec :
  keeps (gate_kept k) (MarkAgentCompletedWithDecision E C repo num task agent code labels dec).
Proof. frame_auto gate_leaf. Qed.

Lemma gate_stuck repo : keeps (gate_kept k) (CheckAllStuck E C repo).
Proof. frame_auto gate_leaf. Qed.

Lemma gate_clear repo num : keeps (gate_kept k) (ClearInflight E C repo num).
Proof. frame_auto gate_leaf. Qed.

Lemma gate_cycle : keeps (gate_kept k) ResetDedup.
Proof. frame_auto gate_leaf. Qed.


Lemma gate_direct ctx repo num agent wf st :
  keeps (gate_kept k) (DispatchAgent E C ctx repo num agent wf st).
Proof.
  unfold DispatchAgent. do 2 (apply keeps_bindE; [apply _|frame_auto gate_leaf|]; intros [|]; [keep_auto|]).
  destruct (decide ((repo, num) = k)) as [<-|Hk].
  - apply gate_guard. frame_auto verdicts_leaf.
  - assert (∀ r, (dr_Repo r, dr_IssueNum r) = (repo, num) → for_issue k r = false) as Hr.
    { intros r Hr. apply bool_decide_false. by rewrite Hr. }
    pose proof (gate_single_other k C ctx E _ (Hr (mkDispatch repo num agent wf st EmptyString 0 0 EmptyString) eq_refl)).
    frame_auto gate_leaf.
Qed.

End gate_steps.

Lemma gate_step `{YamlLib} P k w w' : sm_step P w w' → gate_kept k w w'.
Proof.
  intros [? []|]; [apply gate_event|apply gate_complete|apply gate_direct|apply gate_stuck
    |apply gate_clear|apply gate_cycle].
Qed.

(** C4: An issue whose recorded verdict is blocked or needs_human is sent no
    dispatch request by any sequence of state machine steps, on this or any
    other issue, under any configuration, with any statements failing and any
    contexts cancelled; and the state machine never touches a verdict. *)
Theorem dependency_gate_holds `{YamlLib} P k w w' :
  verdict_gated k w → rtc (sm_step P) w w' →
  sent_for k w' = sent_for k w ∧ verdict_gated k w'.
Proof.
  intros Hg Hs. assert (gate_kept k w w') as [Hd H'].
  { clear Hg. induction Hs as [|w1 w2 w3 H12 _ IH]; [reflexivity|]. etrans; [by eapply gate_step|done]. }
  split; [by apply H'|]. unfold verdict_gated in *. by rewrite Hd.
Qed.

(** ** The claim gate *)

(** The claim [c] on the issue stays, and the issue is sent nothing. *)
Definition claim_gate (k : string * Z) (c : IssueClaimRecord) : relation World := λ w w',
  db_claims (wd_db w) !! k = Some c →
  db_claims (wd_db w') !! k = Some c ∧ sent_for k w' = sent_for k w.

#[export] Instance claim_gate_preorder k c : PreOrder (claim_gate k c).
Proof.
  split; [by intros w|]. intros w1 w2 w3 H1 H2 H. destruct (H1 H) as [Hc Hs].
  destruct (H2 Hc) as [Hc' Hs']. split; [done|congruence].
Qed.

(** A coordinator with another claimer id, while the claim is live. *)
Definition rival (c : IssueClaimRecord) (E : Env) (C : SMConfig) : Prop :=
  c_claimerID C ≠ EmptyString ∧ c_claimerID C ≠ cl_WorkerID c ∧ e_now E < cl_ExpiresAt c.

Lemma claim_gate_lift {A} k c (m : St DB A) :
  keeps (claim_kept k c) m → keeps (claim_gate k c) (lift m).
Proof. intros H w Hc. split; [by apply H|done]. Qed.

Ltac claim_leaf :=
  intros; intros ?; first [by split | repeat case_match; simplify_eq/=; by split].

Section rival.
Context (k : string * Z) (c : IssueClaimRecord) (E : Env) (C : SMConfig) (HR : rival c E C).

Lemma rival_acquire repo num lease :
  keeps (claim_gate k c) (lift (AcquireIssueClaim E repo num (c_claimerID C) lease)).
Proof. destruct HR as (? & ? & ?). by apply claim_gate_lift, acquire_kept. Qed.

Lemma rival_release repo num tok :
  keeps (claim_gate k c) (lift (ReleaseIssueClaim E repo num (c_claimerID C) tok)).
Proof.
  destruct HR as (? & Hne & ?). apply claim_gate_lift, release_kept. right. unfold held_as.
  by rewrite bool_decide_false by congruence.
Qed.
#[local] Hint Resolve rival_acquire rival_release : frame.

Lemma rival_releases repo num : keeps (claim_gate k c) (releaseIssueClaim E C repo num).
Proof. frame_auto claim_leaf. Qed.
#[local] Hint Resolve rival_releases : frame.

Lemma rival_claim repo num a wf st : keeps (claim_gate k c) (isBlockedByIssueClaim E C repo num a wf st).
Proof. frame_auto claim_leaf. Qed.
#[local] Hint Resolve rival_claim : frame.

Lemma rival_refused repo num a wf st w :
  k = (repo, num) → db_claims (wd_db w) !! k = Some c →
  match (isBlockedByIssueClaim E C repo num a wf st w).1 with Ok b => b = true | Err _ => True end.
Proof.
  destruct HR as (Hne & Hw & Hx). intros -> Hc. unfold isBlockedByIssueClaim.
  rewrite bool_decide_false by done. cbv zeta. unfold mbind at 1, St_bind at 1, lift at 1.
  set (lease := if _ <=? 0 then _ else _).
  pose proof (acquire_refused E repo num (c_claimerID C) lease c (wd_db w) Hc Hw Hx) as Hr.
  destruct (AcquireIssueClaim _ _ _ _ _ (wd_db w)) as [[r|e] d]; [done|]. simpl.
  by destruct (errors_Is e ErrIssueClaimHeldByOther).
Qed.

(** Nothing behind the claim runs while another worker holds it. *)
Lemma rival_guard repo num a wf st (rest : St World (res unit)) :
  k = (repo, num) →
  keeps (claim_gate k c)
    (claimed ←! isBlockedByIssueClaim E C repo num a wf st;
     if (claimed : bool) then mret (Ok tt) else rest).
Proof.
  intros Hk w Hc. pose proof (rival_claim repo num a wf st w Hc) as Hkept.
  pose proof (rival_refused repo num a wf st w Hk Hc) as Hb. unfold bindE, mbind, St_bind.
  destruct (isBlockedByIssueClaim _ _ _ _ _ _ _ w) as [[b|e] w']; simpl in *; [by subst b|done].
Qed.

Lemma rival_single_other ctx r :
  for_issue k r = false → keeps (claim_gate k c) (dispatchSingleAgent E C ctx r).
Proof.
  intros Hr. assert (keeps (claim_gate k c) (modS (upd_wd_dispatch (λ l, l ++ [r])))).
  { apply keeps_modS. intros w Hc. split; [done|]. by apply sent_for_other. }
  frame_auto claim_leaf.
Qed.

Lemma rival_state_other ctx repo num wf src st def labels :
  (repo, num) ≠ k →
  keeps (claim_gate k c) (dispatchStateAgents E C ctx repo num wf src st def labels).
Proof.
  intros Hk. unfold dispatchStateAgents. destruct (stateAgents def) as [|a l]; [keep_auto|].
  apply keeps_bindE; [apply _|frame_auto claim_leaf|]. intros [|]; [keep_auto|].
  apply keeps_bind; [apply _|frame_auto claim_leaf|]. intros _.
  apply keeps_bindE; [apply _|frame_auto claim_leaf|]. intros [|]; [keep_auto|].
  destruct (resolveStateRollouts def labels) as [n|e]; [|keep_auto].
  eapply keeps_bindE_returns; [apply _|frame_auto claim_leaf|apply state_requests_issue|].
  intros reqs Hreqs. cbv zeta. apply keeps_bind; [apply _|frame_auto claim_leaf|]. intros [g|].
  - frame_auto claim_leaf.
  - do 3 (apply keeps_bind; [apply _|frame_auto claim_leaf|intros ?]).
    eapply keeps_forE_Forall; [apply _|exact Hreqs|]. intros r Hr. apply rival_single_other.
    unfold for_issue. by rewrite bool_decide_false by congruence.
Qed.

Lemma rival_state ctx repo num wf src st def labels :
  keeps (claim_gate k c) (dispatchStateAgents E C ctx repo num wf src st def labels).
Proof.
  destruct (decide ((repo, num) = k)) as [Hk|Hk]; [|by apply rival_state_other].
  unfold dispatchStateAgents. destruct (stateAgents def) as [|a l]; [keep_auto|].
  apply keeps_bindE; [apply _|frame_auto claim_leaf|]. intros [|]; [keep_auto|].
  apply keeps_bind; [apply _|frame_auto claim_leaf|]. intros ?. by apply rival_guard.
Qed.
#[local] Hint Resolve rival_state : frame.

Lemma rival_evaluate wf ev src st ctx : keeps (claim_gate k c) (evaluateTransitions E C ctx wf ev src st).
Proof. frame_auto claim_leaf. Qed.
#[local] Hint Resolve rival_evaluate : frame.

Lemma rival_event `{YamlLib} ctx ev : keeps (claim_gate k c) (HandleEvent E C ctx ev).
Proof. frame_auto claim_leaf. Qed.

Lemma rival_advance repo num grp g passed sum labels dec :
  keeps (claim_gate k c) (advance_group E C repo num grp g passed sum labels dec).
Proof. frame_auto claim_leaf. Qed.
#[local] Hint Resolve rival_advance : frame.

Lemma rival_join grp fresh code g : keeps (claim_gate k c) (join_group E grp fresh code g).
Proof. frame_auto claim_leaf. Qed.
#[local] Hint Resolve rival_join : frame.

Lemma rival_in_group repo num task agent slot t code labels dec g :
  keeps (claim_gate k c) (complete_in_group E C repo num task agent slot t code labels dec g).
Proof. frame_auto claim_leaf. Qed.
#[local] Hint Resolve rival_in_group : frame.

Lemma rival_complete repo num task agent code labels dec :
  keeps (claim_gate k c) (MarkAgentCompletedWithDecision E C repo num task agent code labels dec).
Proof. frame_auto claim_leaf. Qed.

Lemma rival_direct ctx repo num agent wf st :
  keeps (claim_gate k c) (DispatchAgent E C ctx repo num agent wf st).
Proof.
  unfold DispatchAgent. do 3 (apply keeps_bindE; [apply _|frame_auto claim_leaf|]; intros [|]; [keep_auto|]).
  apply keeps_bind; [apply _|frame_auto claim_leaf|]. intros ?.
  destruct (decide ((repo, num) = k)) as [Hk|Hk]; [by apply rival_guard|].
  assert (∀ r, (dr_Repo r, dr_IssueNum r) = (repo, num) → for_issue k r = false) as Hr.
  { intros r Hr. apply bool_decide_false. by rewrite Hr. }
  pose proof (rival_single_other ctx _ (Hr (mkDispatch repo num agent wf st EmptyString 0 0 EmptyString) eq_refl)).
  frame_auto claim_leaf.
Qed.

Lemma rival_stuck repo : keeps (claim_gate k c) (CheckAllStuck E C repo).
Proof. frame_auto claim_leaf. Qed.

Lemma rival_clear repo num : keeps (claim_gate k c) (ClearInflight E C repo num).
Proof. frame_auto claim_leaf. Qed.
End rival.

Lemma rival_step `{YamlLib} k c w w' : sm_step (rival c) w w' → claim_gate k c w w'.
Proof.
  intros [? []|]; [by apply rival_event|by apply rival_complete|by apply rival_direct|by apply rival_stuck
    |by apply rival_clear|]. by intros Hc.
Qed.

(** The start-up sweep of a coordinator leaves a claim that does not count as stale for it. *)
Lemma sweep_gate E pid k c : stale_coordinator pid c = false → keeps (claim_gate k c) (lift (DeleteStaleCoordinatorIssueClaims E pid)).
Proof.
  intros Hs. apply claim_gate_lift. intros d Hc. unfold DeleteStaleCoordinatorIssueClaims, bindE at 1, wrapE, mbind, St_bind, sql_query, sql.
  destruct (e_fault E (db_calls d)); [done|]. cbn [fst snd res_wrap mret St_ret].
  assert (k ∉ (stale_claims pid d).*1) as Hk.
  { intros (c' & Hc' & Hs')%stale_claims_elem. congruence. }
  assert (keeps (claim_kept k c) (forE (stale_claims pid d) (λ p, _ ←! DeleteIssueClaim E p.1.1 p.1.2; mret (Ok tt)))) as Hl.
  { eapply keeps_forE_Forall with (P := λ p, p.1 ≠ k); [apply _| |].
    - apply Forall_forall. intros p Hp Hpk. apply Hk. rewrite <-Hpk. by apply list_elem_of_fmap_2.
    - intros [[r n] c'] Hne. unfold DeleteIssueClaim. keep_auto. apply keeps_sql; [apply claim_kept_call|].
      intros d' Hd'. simpl in *. by rewrite lookup_delete_ne. }
  unfold bindE, mbind, St_bind. specialize (Hl (upd_db_call d) Hc). by destruct (forE _ _ _) as [[|] ?].
Qed.

(** What other coordinators do: their state machines work, and they start, which sweeps the
    claims of coordinators with other process ids away. *)
Inductive rival_does `{YamlLib} (c : IssueClaimRecord) (w : World) : World → Prop :=
  | rd_work w' : sm_step (rival c) w w' → rival_does c w w'
  | rd_start E pid : stale_coordinator pid c = false → rival_does c w (lift (DeleteStaleCoordinatorIssueClaims E pid) w).2.


(** ** Examples *)

Lemma dependency_gate_holds_witness :
  let w' := (HandleEvent (demo_env 0) (demo_config "coordinator-a") (λ _, false) (demo_event 1) gated_world).2 in
  sent_for ("o/r", 1) w' = [] ∧ verdict_gated ("o/r", 1) w'.
Proof.
  apply (dependency_gate_holds (λ _ _, True) ("o/r", 1) gated_world).
  - exists demo_depstate. split; reflexivity.
  - apply rtc_once, ss_work, sw_event. exact I.
Defined.


(** The claimer ids of coordinators end in their process id, so the start of a second
    coordinator deletes the live claims of the first, and its state machine then dispatches
    the issue the first one holds. *)
Definition claimed_by_pid : World :=
  upd_wd_db (upd_db_claims (λ _, {[("o/r", 1) := mkClaim "coordinator-h-pid-3" "tok" 0 (60 * second)]})) claimed_world.
Lemma start_of_a_second_coordinator_takes_over :
  let event := HandleEvent (demo_env 0) (demo_config "coordinator-h-pid-4") (λ _, false) (demo_event 1) in
  let swept := (lift (DeleteStaleCoordinatorIssueClaims (demo_env 0) 4) claimed_by_pid).2 in
  sent_for ("o/r", 1) (event claimed_by_pid).2 = [] ∧ db_claims (wd_db swept) !! ("o/r", 1) = None ∧
  length (sent_for ("o/r", 1) (event swept).2) = 1%nat.
Proof. vm_compute. done. Qed.
