(* ===== verification/SMBehaviour.v ===== *)
(** * How the state machine behaves

    Issue keys, isolation between issues, deduplication of events, the resync
    guard, the number of rollouts, and the current state of an issue. *)

From S2P Require Import Prelude GoLib Json Types DB TaskQueue IssueClaim StoreIssue World Dependency Workflow StateMachine Frames Demo TaskQueueSpec StateMachineSpec.
From Stdlib Require Import Ascii.

(** ** Issue keys *)

Lemma issueKey_last repo num :
  LastIndexByte (issueKey repo num) "#" = Z.of_nat (String.length repo).
Proof. unfold issueKey. apply LastIndexByte_app, itoa_no_hash. Qed.

Lemma issueKey_inj r n r' n' : issueKey r n = issueKey r' n' → r = r' ∧ n = n'.
Proof.
  intros Heq. pose proof (f_equal (λ s, LastIndexByte s "#") Heq) as Hl. simpl in Hl.
  rewrite !issueKey_last in Hl. apply Nat2Z.inj in Hl. unfold issueKey in Heq.
  assert (r = r') as <-.
  { pose proof (f_equal (take_str (String.length r)) Heq) as Ht.
    rewrite take_app_str in Ht. rewrite Hl in Ht. by rewrite take_app_str in Ht. }
  split; [done|]. apply app_str_inj_l, (app_str_inj_l "#") in Heq. by apply itoa_inj.
Qed.

(** A claim-token key names its issue: [parseIssueKey] reads back what
    [issueKey] wrote, for every repository name and positive issue number. *)
Theorem parse_issue_key_roundtrip repo num :
  repo ≠ EmptyString → 0 < num < 2 ^ 63 → parseIssueKey (issueKey repo num) = Some (repo, num).
Proof.
  intros Hr Hn. unfold parseIssueKey. rewrite issueKey_last.
  assert (0 < Z.of_nat (String.length repo)) as Hlen by (destruct repo; [done|simpl; lia]).
  assert (String.length (itoa num) ≠ 0%nat) as Hi.
  { pose proof (atoi_itoa num) as Ha. destruct (itoa num); [|done].
    unfold int64_ok in Ha. exfalso. assert (atoi EmptyString = Some num) as Hb; [|done].
    apply Ha. apply andb_true_intro. split; [apply Z.leb_le; lia|apply Z.ltb_lt; lia]. }
  unfold issueKey. rewrite !length_app_str. change (String.length "#") with 1%nat.
  destruct (Z.leb_spec (Z.of_nat (String.length repo)) 0); [lia|].
  rewrite (proj2 (Z.eqb_neq _ _)) by lia. cbn [orb].
  rewrite Nat2Z.id, take_app_str. replace (String.length repo + 1)%nat
    with (String.length (repo +:+ "#")) by (rewrite length_app_str; simpl; lia).
  replace (repo +:+ "#" +:+ itoa num) with ((repo +:+ "#") +:+ itoa num) by apply app_str_assoc.
  rewrite drop_app_str, atoi_itoa.
  - destruct (Z.leb_spec num 0); [lia|]. done.
  - unfold int64_ok. apply andb_true_intro. split; [apply Z.leb_le; lia|apply Z.ltb_lt; lia].
Qed.

(** ** Isolation between issues *)

(** Everything the coordinator keeps under the issue [k]. *)
Definition issue_view (k : string * Z) (w : World) :=
  let key := issueKey k.1 k.2 in
  (sm_inflight (wd_sm w) !! key, sm_completion (wd_sm w) !! key, sm_claimTokens (wd_sm w) !! key,
   db_claims (wd_db w) !! k, db_cycles (wd_db w) !! k, db_hazards (wd_db w) !! k,
   db_depstate (wd_db w) !! k, sent_for k w).

Section isolation.
Context (E : Env) (C : SMConfig) (k : string * Z) (repo : string) (num : Z).
Context (Hk : (repo, num) ≠ k).

Lemma key_ne : issueKey repo num ≠ issueKey k.1 k.2.
Proof. intros [H1 H2]%issueKey_inj. apply Hk. rewrite H1, H2. by destruct k. Qed.

Ltac view_leaf :=
  intros; unfold under, same, issue_view, sent_for; cbv zeta;
  first [ reflexivity
        | repeat case_match; simplify_eq/=;
          rewrite ?lookup_insert_ne, ?lookup_delete_ne by (exact key_ne || exact Hk); reflexivity ].

Lemma view_release : keeps (same (issue_view k)) (releaseIssueClaim E C repo num).
Proof. frame_auto view_leaf. Qed.
#[local] Hint Resolve view_release : frame.

Lemma view_reconcile : keeps (same (issue_view k)) (reconcileStaleInflight E C repo num).
Proof. frame_auto view_leaf. Qed.

Lemma view_claim a wf st : keeps (same (issue_view k)) (isBlockedByIssueClaim E C repo num a wf st).
Proof. frame_auto view_leaf. Qed.
#[local] Hint Resolve view_reconcile view_claim : frame.

Lemma view_single ctx r :
  (dr_Repo r, dr_IssueNum r) = (repo, num) → keeps (same (issue_view k)) (dispatchSingleAgent E C ctx r).
Proof.
  intros Hr. assert (for_issue k r = false) as Hf.
  { apply bool_decide_false. by rewrite Hr. }
  assert (keeps (same (issue_view k)) (modS (upd_wd_dispatch (λ l, l ++ [r])))).
  { apply keeps_modS. intros w. unfold same, issue_view. cbv zeta.
    rewrite (sent_for_other k w r) by done. reflexivity. }
  injection Hr as Hr1 Hr2. destruct r. simpl in *. subst.
  unfold dispatchSingleAgent, dispatch_slot, send. simpl. frame_auto view_leaf.
Qed.

Lemma view_state ctx wf src st def labels :
  keeps (same (issue_view k)) (dispatchStateAgents E C ctx repo num wf src st def labels).
Proof.
  unfold dispatchStateAgents. destruct (stateAgents def) as [|a l]; [keep_auto|].
  apply keeps_bindE; [apply _|frame_auto view_leaf|]. intros [|]; [keep_auto|].
  apply keeps_bind; [apply _|frame_auto view_leaf|]. intros _.
  apply keeps_bindE; [apply _|frame_auto view_leaf|]. intros [|]; [keep_auto|].
  destruct (resolveStateRollouts def labels) as [n|e]; [|keep_auto].
  eapply keeps_bindE_returns; [apply _|frame_auto view_leaf|apply state_requests_issue|].
  intros reqs Hreqs. cbv zeta. apply keeps_bind; [apply _|frame_auto view_leaf|]. intros [g|].
  - frame_auto view_leaf.
  - do 3 (apply keeps_bind; [apply _|frame_auto view_leaf|intros ?]).
    eapply keeps_forE_Forall; [apply _|exact Hreqs|]. intros r Hr. by apply view_single.
Qed.
#[local] Hint Resolve view_state : frame.

Lemma view_evaluate ctx wf ev src st :
  (ce_Repo ev, ce_IssueNum ev) = (repo, num) →
  keeps (same (issue_view k)) (evaluateTransitions E C ctx wf ev src st).
Proof.
  intros [= Hr Hn]. destruct ev. simpl in *. subst. unfold evaluateTransitions. cbn [ce_Repo ce_IssueNum].
  frame_auto view_leaf.
Qed.

Lemma view_event `{YamlLib} ctx ev :
  (ce_Repo ev, ce_IssueNum ev) = (repo, num) → keeps (same (issue_view k)) (HandleEvent E C ctx ev).
Proof.
  intros [= Hr Hn]. pose proof (λ wf src st, view_evaluate ctx wf ev src st) as Hev.
  destruct ev. simpl in *. subst.
  unfold HandleEvent, processWorkflowEvent. cbn [ce_Repo ce_IssueNum]. frame_auto view_leaf.
Qed.

Lemma view_completions wf src labels :
  keeps (same (issue_view k)) (evaluateCompletionTransitions E C repo num wf src labels).
Proof.
  unfold evaluateCompletionTransitions. cbv zeta. keep_auto. apply keeps_completion_loop; [apply _|].
  intros ?. by apply view_evaluate.
Qed.
#[local] Hint Resolve view_completions : frame.

Lemma view_advance grp g passed sum labels dec :
  keeps (same (issue_view k)) (advance_group E C repo num grp g passed sum labels dec).
Proof. frame_auto view_leaf. Qed.
#[local] Hint Resolve view_advance : frame.

Lemma view_join grp fresh code g : keeps (same (issue_view k)) (join_group E grp fresh code g).
Proof. frame_auto view_leaf. Qed.
#[local] Hint Resolve view_join : frame.

Lemma view_complete task agent code labels dec :
  keeps (same (issue_view k)) (MarkAgentCompletedWithDecision E C repo num task agent code labels dec).
Proof. frame_auto view_leaf. Qed.
End isolation.

(** Handling an event of one issue, or the completion of its agents, leaves
    everything kept for another issue as it was: its inflight group, its stuck
    record, its claim and token, its counters, hazards, verdict, and the
    requests sent for it. *)
Theorem issues_are_isolated `{YamlLib} E C ctx ev task agent code labels dec k w :
  (ce_Repo ev, ce_IssueNum ev) ≠ k →
  issue_view k (HandleEvent E C ctx ev w).2 = issue_view k w ∧
  issue_view k (MarkAgentCompletedWithDecision E C (ce_Repo ev) (ce_IssueNum ev) task agent code labels dec w).2
    = issue_view k w.
Proof. intros Hk. split; [by eapply view_event|by apply view_complete]. Qed.

(** ** Deduplication *)

Definition remembers (x : string) : relation World := λ w w',
  x ∈ sm_processed (wd_sm w) → x ∈ sm_processed (wd_sm w').

#[export] Instance remembers_preorder x : PreOrder (remembers x).
Proof. split; [by intros w Hx|]. intros w1 w2 w3 H1 H2 Hx. apply H2, H1, Hx. Qed.

Section remember.
Context `{YamlLib} (x : string) (E : Env) (C : SMConfig).
Ltac remember_leaf :=
  intros; intros ?; first [assumption | repeat case_match; simplify_eq/=; set_solver].

Lemma remembers_state ctx repo num wf src st def labels :
  keeps (remembers x) (dispatchStateAgents E C ctx repo num wf src st def labels).
Proof. frame_auto remember_leaf. Qed.
#[local] Hint Resolve remembers_state : frame.

Lemma remembers_evaluate ctx wf ev src st : keeps (remembers x) (evaluateTransitions E C ctx wf ev src st).
Proof. frame_auto remember_leaf. Qed.
#[local] Hint Resolve remembers_evaluate : frame.

Lemma remembers_event ctx ev : keeps (remembers x) (HandleEvent E C ctx ev).
Proof. frame_auto remember_leaf. Qed.

Lemma remembers_advance repo num grp g passed sum labels dec :
  keeps (remembers x) (advance_group E C repo num grp g passed sum labels dec).
Proof. frame_auto remember_leaf. Qed.
#[local] Hint Resolve remembers_advance : frame.

Lemma remembers_join grp fresh code g : keeps (remembers x) (join_group E grp fresh code g).
Proof. frame_auto remember_leaf. Qed.
#[local] Hint Resolve remembers_join : frame.

Lemma remembers_complete repo num task agent code labels dec :
  keeps (remembers x) (MarkAgentCompletedWithDecision E C repo num task agent code labels dec).
Proof. frame_auto remember_leaf. Qed.

Lemma remembers_direct ctx repo num agent wf st :
  keeps (remembers x) (DispatchAgent E C ctx repo num agent wf st).
Proof. frame_auto remember_leaf. Qed.

Lemma remembers_stuck repo : keeps (remembers x) (CheckAllStuck E C repo).
Proof. frame_auto remember_leaf. Qed.

Lemma remembers_clear repo num : keeps (remembers x) (ClearInflight E C repo num).
Proof. frame_auto remember_leaf. Qed.
End remember.

Lemma remembers_work `{YamlLib} P x w w' : sm_work P w w' → remembers x w w'.
Proof.
  intros []; [apply remembers_event|apply remembers_complete|apply remembers_direct
    |apply remembers_stuck|apply remembers_clear].
Qed.

Lemma event_recorded `{YamlLib} E C ctx ev w :
  eventKey ev ∈ sm_processed (wd_sm (HandleEvent E C ctx ev w).2).
Proof.
  unfold HandleEvent. cbv zeta. unfold mbind at 1, St_bind at 1, getSM, getsS. cbn [fst snd].
  case_bool_decide as Hin; [done|]. unfold mbind at 1, St_bind at 1. cbn [fst snd modSM modS].
  match goal with |- _ ∈ sm_processed (wd_sm (?m ?w0).2) =>
    assert (keeps (remembers (eventKey ev)) m) as Hm; [|apply Hm; simpl; set_solver] end.
  pose proof (remembers_state (eventKey ev) E C ctx) as H1.
  pose proof (remembers_evaluate (eventKey ev) E C ctx) as H2.
  frame_auto ltac:(intros; intros ?; first [assumption | repeat case_match; simplify_eq/=; set_solver]).
Qed.

(** An event that has been handled is ignored until the end of the poll
    cycle: whatever the state machine has done since, handling it again changes
    nothing at all. *)
Theorem duplicate_event_is_ignored `{YamlLib} P E C ctx E' C' ctx' ev w w2 :
  rtc (sm_work P) (HandleEvent E C ctx ev w).2 w2 → HandleEvent E' C' ctx' ev w2 = (Ok tt, w2).
Proof.
  intros Hs. assert (remembers (eventKey ev) (HandleEvent E C ctx ev w).2 w2) as Hr.
  { induction Hs as [|w1 w2 w3 H12 _ IH]; [reflexivity|]. etrans; [by eapply remembers_work|done]. }
  specialize (Hr (event_recorded E C ctx ev w)).
  unfold HandleEvent, mbind, St_bind, getSM, getsS. cbn [fst snd]. by rewrite bool_decide_true.
Qed.

(** ** Resync *)

(** The issue has a dispatch group, or an active task that the store can tell of. *)
Definition busy (E : Env) (k : string * Z) (w : World) : Prop :=
  is_Some (sm_inflight (wd_sm w) !! issueKey k.1 k.2) ∨
  (quiet E ∧ ∃ t, t ∈ db_tasks (wd_db w) ∧ row_issue k.1 k.2 t && status_in active_status t = true).

Definition undispatched (w : World) := (wd_dispatch w, sm_inflight (wd_sm w), db_tasks (wd_db w)).

(** A busy issue is sent nothing, and no group changes. *)
Definition busy_kept (E : Env) (k : string * Z) : relation World := λ w w',
  busy E k w → undispatched w' = undispatched w.

Lemma busy_same E k w w' : undispatched w' = undispatched w → busy E k w → busy E k w'.
Proof. unfold busy, undispatched. intros [= _ -> ->]. done. Qed.

#[export] Instance busy_kept_preorder E k : PreOrder (busy_kept E k).
Proof.
  split; [by intros w|]. intros w1 w2 w3 H1 H2 H. pose proof (H1 H) as Hu.
  rewrite <-Hu. apply H2. by eapply busy_same.
Qed.

Section resync.
Context `{YamlLib} (E : Env) (C : SMConfig) (k : string * Z).
Ltac busy_leaf := intros; intros ?; first [reflexivity | repeat case_match; simplify_eq/=; reflexivity].

Lemma resync_guard {A} ev name (a : A) (rest : St World A) :
  (ce_Repo ev, ce_IssueNum ev) = k →
  keeps (busy_kept E k) (s ← resync_suppressed E ev name; if (s : bool) then mret a else rest).
Proof.
  intros <- w Hb. unfold resync_suppressed, IsInflight, getSM, getsS, mbind, St_bind. cbn [fst snd].
  destruct Hb as [Hin|(HE & t & Ht & Hact)].
  { by rewrite bool_decide_true. }
  case_bool_decide; [done|]. unfold lift, HasAnyActiveTask, wrapE, mbind, St_bind, sql_query.
  rewrite sql_quiet by done. cbn [fst snd res_wrap mret St_ret].
  rewrite (proj2 (existsb_elem _ _)); [done|]. by exists t.
Qed.

Lemma resync_process ctx wf ev :
  (ce_Repo ev, ce_IssueNum ev) = k → ce_Type ev = EventIssueResynced →
  keeps (busy_kept E k) (processWorkflowEvent E C ctx wf ev).
Proof.
  intros Hk Hty. unfold processWorkflowEvent.
  apply keeps_bindE; [apply _|frame_auto busy_leaf|]. intros ?.
  apply keeps_bind; [apply _|frame_auto busy_leaf|]. intros prior.
  destruct (findCurrentState _ _) as [[name state]|]; [|frame_auto busy_leaf].
  apply keeps_bind; [apply _|frame_auto busy_leaf|]. intros ?. cbv zeta.
  rewrite (bool_decide_true (ce_Type ev = EventIssueResynced)), orb_true_r by done. cbn [andb].
  destruct (stateHasAgents state); [by apply resync_guard|].
  apply keeps_bind; [apply _|frame_auto busy_leaf|]. intros [|]; frame_auto busy_leaf.
Qed.

Lemma resync_event ctx ev :
  (ce_Repo ev, ce_IssueNum ev) = k → ce_Type ev = EventIssueResynced →
  keeps (busy_kept E k) (HandleEvent E C ctx ev).
Proof.
  intros Hk Hty. pose proof (λ wf, resync_process ctx wf ev Hk Hty). frame_auto busy_leaf.
Qed.
End resync.

(** A snapshot resync never dispatches twice: while the issue has a
    dispatch group, or a pending or running task that the store reports, it
    sends nothing and changes no group. *)
Theorem resync_never_double_dispatches `{YamlLib} E C ctx ev w :
  ce_Type ev = EventIssueResynced → busy E (ce_Repo ev, ce_IssueNum ev) w →
  undispatched (HandleEvent E C ctx ev w).2 = undispatched w.
Proof. intros Hty Hb. by eapply resync_event. Qed.

(** ** Rollouts *)

Definition rollout_name (n : Z) : string := "rollouts:" +:+ itoa n.

Lemma rollout_label_spec l n : rollout_label l = Some n ↔ 2 <= n <= 5 ∧ l = rollout_name n.
Proof.
  unfold rollout_label. split.
  - case_bool_decide as Hin; [|done].
    repeat (apply elem_of_cons in Hin as [->|Hin]); [..|by apply elem_of_nil in Hin];
      vm_compute; intros [= <-]; (split; [split; discriminate|reflexivity]).
  - intros [Hn ->]. assert (n = 2 ∨ n = 3 ∨ n = 4 ∨ n = 5) as [->|[->|[->| ->]]] by lia; reflexivity.
Qed.

(** The labels that speak of rollouts. *)
Definition rollout_marks (labels : list string) : list string :=
  List.filter (λ l, HasPrefix l "rollouts:") (TrimSpace <$> labels).

Definition marks_say (marks : list string) (n : Z) : Prop :=
  2 <= n <= 5 ∧ Forall (λ l, l = rollout_name n) marks.

Lemma rollout_name_inj m n : rollout_name m = rollout_name n → m = n.
Proof. intros H. apply app_str_inj_l in H. by apply itoa_inj. Qed.

Lemma rollout_override_spec labels o :
  match rollout_override labels o with
  | Ok n => (rollout_marks labels = [] ∧ n = o) ∨
            (rollout_marks labels ≠ [] ∧ marks_say (rollout_marks labels) n ∧ (o = 0 ∨ o = n))
  | Err _ => rollout_marks labels ≠ [] ∧ ¬ ∃ n, marks_say (rollout_marks labels) n ∧ (o = 0 ∨ o = n)
  end.
Proof.
  revert o. induction labels as [|l labels IH]; intros o; cbn [rollout_override]; [by left|].
  unfold rollout_marks in *. cbn [fmap list_fmap List.filter].
  destruct (HasPrefix (TrimSpace l) "rollouts:"); cbn [negb]; [|apply IH].
  destruct (rollout_label (TrimSpace l)) as [n|] eqn:El.
  - apply rollout_label_spec in El as [Hn El]. rewrite El.
    destruct (negb (o =? 0) && negb (o =? n)) eqn:Eo.
    + split; [done|]. intros (m & [Hm HF] & Ho). apply Forall_cons in HF as [Hmn _].
      apply rollout_name_inj in Hmn. apply andb_prop in Eo as [E1%negb_true_iff E2%negb_true_iff].
      apply Z.eqb_neq in E1, E2. lia.
    + assert (o = 0 ∨ o = n) as Ho.
      { destruct (Z.eqb_spec o 0), (Z.eqb_spec o n); simpl in *; auto. done. }
      specialize (IH n). destruct (rollout_override labels n) as [m|e].
      * right. split; [done|]. destruct IH as [[Hm ->]|(_ & [Hm HF] & [->| ->])]; [| lia |].
        -- split; [|done]. split; [done|]. rewrite Hm. by constructor.
        -- split; [|done]. split; [done|]. by constructor.
      * destruct IH as [_ IH]. split; [done|]. intros (m & [Hm HF] & _). apply Forall_cons in HF as [Hnm HF].
        apply rollout_name_inj in Hnm. apply IH. exists m. split; [by split|by right].
  - split; [done|]. intros (m & [Hm HF] & _). apply Forall_cons in HF as [Hl _].
    assert (rollout_label (TrimSpace l) = Some m) as Hs by by apply rollout_label_spec. congruence.
Qed.

(** The number of rollouts of a state: without a [rollouts:] label it is the
    state's own number, at least one; otherwise all such labels must name one
    number between 2 and 5, which is taken, and anything else is an error. *)
Theorem rollouts_resolved s labels :
  match resolveStateRollouts s labels with
  | Ok n => 1 <= n ∧
      ((rollout_marks labels = [] ∧ n = Z.max 1 (s_Rollouts s)) ∨
       (rollout_marks labels ≠ [] ∧ marks_say (rollout_marks labels) n))
  | Err _ => rollout_marks labels ≠ [] ∧ ¬ ∃ n, marks_say (rollout_marks labels) n
  end.
Proof.
  unfold resolveStateRollouts. pose proof (rollout_override_spec labels 0) as H.
  destruct (rollout_override labels 0) as [o|e].
  - destruct H as [[Hm ->]|(Hm & [Ho HF] & _)].
    + simpl. destruct (Z.ltb_spec 0 (s_Rollouts s)); (split; [lia|left; split; [done|lia]]).
    + destruct (Z.ltb_spec 0 o); [|lia]. split; [lia|]. right. by split.
  - destruct H as [Hm H]. split; [done|]. intros [n Hn]. apply H. exists n. auto.
Qed.

(** ** The current state *)

Definition state_hit (labels : list string) (p : string * State) : bool :=
  negb (bool_decide (s_EnterLabel p.2 = EmptyString)) && bool_decide (s_EnterLabel p.2 ∈ labels).

Lemma find_perm {A} (p : A → bool) (l l' : list A) :
  (∀ x y, x ∈ l → y ∈ l → p x = true → p y = true → x = y) → l ≡ₚ l' → List.find p l = List.find p l'.
Proof.
  intros Hu Hp. destruct (List.find p l) as [x|] eqn:E.
  - apply List.find_some in E as [Hx Hpx]. destruct (List.find p l') as [y|] eqn:E'.
    + apply List.find_some in E' as [Hy Hpy]. f_equal. apply Hu; [by apply list_elem_of_In| |done..].
      rewrite Hp. by apply list_elem_of_In.
    + apply find_None_forall in E'. rewrite Forall_forall in E'. rewrite (E' x) in Hpx; [done|].
      rewrite <-Hp. by apply list_elem_of_In.
  - apply find_None_forall in E. rewrite Hp in E. symmetry. by apply find_None_forall.
Qed.

(** When at most one state's label is on the issue, the current state does
    not depend on the order in which Go visits the state map, and it is the
    state of that label. *)
Theorem current_state_is_order_free wf wf' labels :
  (∀ p q, p ∈ wf_States wf → q ∈ wf_States wf → state_hit labels p = true → state_hit labels q = true → p = q) →
  wf_States wf ≡ₚ wf_States wf' →
  findCurrentState wf labels = findCurrentState wf' labels ∧
  match findCurrentState wf labels with
  | Some p => p ∈ wf_States wf ∧ s_EnterLabel p.2 ∈ labels
  | None => ∀ p, p ∈ wf_States wf → state_hit labels p = false
  end.
Proof.
  intros Hu Hp. split; [by apply find_perm|]. unfold findCurrentState.
  destruct (List.find _ _) as [p|] eqn:E.
  - apply List.find_some in E as [Hin Hh]. split; [by apply list_elem_of_In|].
    apply andb_prop in Hh as [_ Hh]. by apply bool_decide_eq_true in Hh.
  - apply find_None_forall in E. rewrite Forall_forall in E. exact E.
Qed.

(** ** Examples *)

Lemma parse_issue_key_roundtrip_witness : parseIssueKey (issueKey "o/r" 42) = Some ("o/r", 42).
Proof. apply (parse_issue_key_roundtrip "o/r" 42); [discriminate|lia]. Defined.

Lemma issues_are_isolated_witness :
  issue_view ("o/r", 1) (HandleEvent (demo_env 0) (demo_config "coordinator-a") (λ _, false) (demo_event 3) gated_world).2
  = issue_view ("o/r", 1) gated_world.
Proof.
  apply (issues_are_isolated (demo_env 0) (demo_config "coordinator-a") (λ _, false) (demo_event 3)
    "t" "dev-agent" 0 None None ("o/r", 1) gated_world). discriminate.
Defined.

Lemma duplicate_event_is_ignored_witness :
  let run := HandleEvent (demo_env 0) (demo_config "coordinator-a") (λ _, false) (demo_event 3) in
  let w2 := (CheckAllStuck (demo_env 5) (demo_config "coordinator-a") "o/r" (run gated_world).2).2 in
  run w2 = (Ok tt, w2).
Proof.
  apply (duplicate_event_is_ignored (λ _ _, True) (demo_env 0) (demo_config "coordinator-a") (λ _, false)
    (demo_env 0) (demo_config "coordinator-a") (λ _, false) (demo_event 3) gated_world).
  apply rtc_once. by apply (sw_stuck (λ _ _, True)).
Defined.

Lemma resync_never_double_dispatches_witness :
  let w := (HandleEvent (demo_env 0) (demo_config EmptyString) (λ _, false) (demo_event 3) gated_world).2 in
  undispatched (HandleEvent (demo_env 5) (demo_config EmptyString) (λ _, false) (demo_resync 3) w).2 = undispatched w.
Proof.
  apply (resync_never_double_dispatches (demo_env 5) (demo_config EmptyString) (λ _, false) (demo_resync 3));
    [reflexivity|].
  left. apply (bool_decide_eq_true (is_Some _)). vm_compute. reflexivity.
Defined.

Lemma current_state_is_order_free_witness :
  findCurrentState default_workflow developing_labels
  = findCurrentState (mkWorkflow "default" "workbuddy" 3 3 (reverse default_states)) developing_labels.
Proof.
  apply (current_state_is_order_free default_workflow
    (mkWorkflow "default" "workbuddy" 3 3 (reverse default_states)) developing_labels).
  - intros p q Hp Hq. unfold default_workflow, wf_States, default_states in Hp, Hq.
    repeat (apply elem_of_cons in Hp as [->|Hp]); [..|by apply elem_of_nil in Hp]; try (intros [=]; fail);
    repeat (apply elem_of_cons in Hq as [->|Hq]); [..|by apply elem_of_nil in Hq]; try done.
  - symmetry. apply reverse_Permutation.
Defined.
