(* ===== verification/SMDispatch.v ===== *)
(** * Joins, dispatch and caps

    How the completions of a group decide it, what entering a state sends, and
    what the transition and review caps hold back. *)

From S2P Require Import Prelude GoLib Json Types DB TaskQueue IssueClaim StoreIssue World Dependency Workflow StateMachine Frames Demo TaskQueueSpec StateMachineSpec SMBehaviour.
From Stdlib Require Import Ascii.

(** ** Joins *)

(** The completions of a group, in order, until the join is decided. *)
Fixpoint join_run (strategy : string) (l : list (string * Z)) (g : dispatchGroup) : option bool :=
  match l with
  | [] => None
  | (slot, code) :: l =>
      let fresh := negb (bool_decide (slot ∈ g_completed g)) in
      let g := complete_slot slot code g in
      let j := join_slots strategy fresh code g in
      if j.1 then Some j.2 else join_run strategy l g
  end.

(** The slots [l] are the ones of the group still to complete. *)
Definition remaining (g : dispatchGroup) (l : list string) : Prop :=
  NoDup l ∧ (∀ s, s ∈ l → s ∉ g_completed g) ∧ g_completed g ∪ list_to_set l = dom (g_slots g).

Lemma complete_slot_fields slot code g :
  slot ∉ g_completed g →
  complete_slot slot code g =
    mkGroup (g_id g) (g_workflow g) (g_state g) (g_mode g) (g_join g) (g_slots g) (g_dispatched g)
      (g_completedTasks g) ({[slot]} ∪ g_completed g)
      (if code =? 0 then {[slot]} ∪ g_success g else g_success g)
      (if code =? 0 then g_failed g else {[slot]} ∪ g_failed g).
Proof. intros H. unfold complete_slot. rewrite bool_decide_false by done. by destruct (code =? 0). Qed.

Lemma remaining_step g slot code l :
  remaining g (slot :: l) →
  slot ∉ g_completed g ∧ remaining (complete_slot slot code g) l ∧
  all_completed (complete_slot slot code g) = bool_decide (l = []).
Proof.
  intros (Hnd & Hfresh & Hall). apply NoDup_cons in Hnd as [Hn Hnd].
  assert (slot ∉ g_completed g) as Hs by (apply Hfresh; left). split; [done|].
  rewrite complete_slot_fields by done. unfold remaining, all_completed. simpl.
  rewrite list_to_set_cons in Hall. split.
  - split; [done|]. split; [|set_solver]. intros s Hsl Hin. apply elem_of_union in Hin as [Hin|Hin].
    + apply elem_of_singleton in Hin as ->. done.
    + apply (Hfresh s); [by right|done].
  - rewrite <-size_dom, <-Hall. case_bool_decide as Hl.
    + subst l. apply Nat.leb_le. rewrite list_to_set_nil, union_empty_r_L, union_comm_L. done.
    + apply Nat.leb_gt, subset_size. destruct l as [|s l]; [done|]. split; [set_solver|].
      intros Hsub. assert (s ∈ {[slot]} ∪ g_completed g) as Hin by (apply Hsub; set_solver).
      apply elem_of_union in Hin as [Hin|Hin].
      * apply elem_of_singleton in Hin as ->. apply Hn. left.
      * apply (Hfresh s); [right; left|done].
Qed.

Lemma join_all_run l g :
  remaining g l.*1 → l ≠ [] → g_failed g = ∅ →
  join_run JoinAllPassed l g = Some (forallb (λ p, p.2 =? 0) l).
Proof.
  revert g. induction l as [|[slot code] l IH]; intros g Hr Hne Hf; [done|].
  cbn [fmap list_fmap fst] in Hr. destruct (remaining_step g slot code _ Hr) as (Hs & Hr' & Hall).
  cbn [join_run forallb snd]. rewrite bool_decide_false by done. unfold join_slots.
  rewrite (bool_decide_false (JoinAllPassed = JoinAnyPassed)), bool_decide_true by done.
  rewrite Hall. destruct (Z.eqb_spec code 0) as [->|Hc].
  - assert (g_failed (complete_slot slot 0 g) = ∅) as Hf' by (rewrite complete_slot_fields by done; done).
    case_bool_decide as Hl; cbn [fst snd negb andb].
    + unfold none_failed. rewrite bool_decide_true by done. apply fmap_nil_inv in Hl as ->. done.
    + apply IH; [done|intros ->; done|done].
  - assert (g_failed (complete_slot slot code g) ≠ ∅) as Hf'.
    { rewrite complete_slot_fields by done. simpl. destruct (Z.eqb_spec code 0); [done|]. set_solver. }
    case_bool_decide; cbn [fst snd negb andb]; [|done]. unfold none_failed. by rewrite bool_decide_false.
Qed.

Lemma join_any_run l g :
  remaining g l.*1 → l ≠ [] → g_success g = ∅ →
  join_run JoinAnyPassed l g = Some (existsb (λ p, p.2 =? 0) l).
Proof.
  revert g. induction l as [|[slot code] l IH]; intros g Hr Hne Hf; [done|].
  cbn [fmap list_fmap fst] in Hr. destruct (remaining_step g slot code _ Hr) as (Hs & Hr' & Hall).
  cbn [join_run existsb snd]. rewrite bool_decide_false by done. unfold join_slots.
  rewrite bool_decide_true by done. rewrite Hall. cbn [negb andb].
  destruct (Z.eqb_spec code 0) as [->|Hc].
  - rewrite bool_decide_false; [done|]. rewrite complete_slot_fields by done. simpl. set_solver.
  - case_bool_decide as Hl; cbn [fst snd andb orb].
    + by apply fmap_nil_inv in Hl as ->.
    + apply IH; [done|intros ->; done|]. rewrite complete_slot_fields by done. simpl.
      destruct (Z.eqb_spec code 0); done.
Qed.

(** The join of a group none of whose slots has completed, when each slot
    completes once, in any order: "all passed" decides that the group passed
    exactly when every exit code is zero, "any passed" exactly when some exit
    code is zero; both always decide. *)
Theorem joins_decide l g :
  g_completed g = ∅ → g_success g = ∅ → g_failed g = ∅ →
  NoDup l.*1 → list_to_set l.*1 = dom (g_slots g) → l ≠ [] →
  join_run JoinAllPassed l g = Some (forallb (λ p, p.2 =? 0) l) ∧
  join_run JoinAnyPassed l g = Some (existsb (λ p, p.2 =? 0) l).
Proof.
  intros Hc Hs Hf Hnd Hall Hne. assert (remaining g l.*1) as Hr.
  { split; [done|]. rewrite Hc, Hall. split; [set_solver|set_solver]. }
  split; [by apply join_all_run|by apply join_any_run].
Qed.

(** ** Entering a state *)

Lemma gate_open E repo num a wf st w :
  quiet E → ¬ verdict_gated (repo, num) w → (isBlockedByDependency E repo num a wf st w).1 = Ok false.
Proof.
  intros HE Hg. unfold isBlockedByDependency, bindE, wrapE, mbind, St_bind, lift,
    QueryIssueDependencyState, wrapE, mbind, St_bind, sql_query. rewrite sql_quiet by done. simpl.
  destruct (db_depstate (wd_db w) !! (repo, num)) as [s|] eqn:Es; [|done].
  destruct (bool_decide _ || bool_decide _) eqn:Eg; [|done].
  exfalso. apply Hg. by exists s.
Qed.

(** The coordinator makes no claims, or can have this one. *)
Definition claim_available (E : Env) (C : SMConfig) (k : string * Z) (w : World) : Prop :=
  c_claimerID C = EmptyString ∨
  (TrimSpace (c_claimerID C) ≠ EmptyString ∧
   match db_claims (wd_db w) !! k with
   | None => True
   | Some c => cl_WorkerID c = c_claimerID C ∨ cl_ExpiresAt c <= e_now E
   end).

Lemma acquire_available E repo num w lease d :
  quiet E → TrimSpace w ≠ EmptyString →
  match db_claims d !! (repo, num) with
  | None => True
  | Some c => cl_WorkerID c = w ∨ cl_ExpiresAt c <= e_now E
  end →
  ∃ a, (AcquireIssueClaim E repo num w lease d).1 = Ok a.
Proof.
  intros HE Hw Hc. unfold AcquireIssueClaim. rewrite bool_decide_false by done.
  unfold retry_busy, mbind, St_bind, acquireIssueClaimOnce. rewrite sql_tx_quiet by done.
  destruct (db_claims d !! (repo, num)) as [c|]; [|by eexists]. unfold claim_expired.
  destruct (Z.ltb_spec (e_now E) (cl_ExpiresAt c)); cbn [negb].
  - destruct Hc as [Hc|]; [|lia]. rewrite (bool_decide_true (cl_WorkerID c = w)) by done. by eexists.
  - rewrite andb_false_r. by eexists.
Qed.

Lemma claim_open E C repo num a wf st w :
  quiet E → claim_available E C (repo, num) w → (isBlockedByIssueClaim E C repo num a wf st w).1 = Ok false.
Proof.
  intros HE Hc. unfold isBlockedByIssueClaim. case_bool_decide as Hid; [done|].
  destruct Hc as [|[Hb Hc]]; [done|]. cbv zeta. unfold mbind at 1, St_bind at 1, lift at 1.
  set (lease := if _ <=? 0 then _ else _).
  destruct (acquire_available E repo num _ lease _ HE Hb Hc) as [r Hr].
  destruct (AcquireIssueClaim _ _ _ _ _ (wd_db w)) as [[r'|e] d]; [|done]. done.
Qed.

Ltac undispatched_leaf :=
  intros; first [reflexivity | repeat case_match; simplify_eq/=; reflexivity].

Lemma undispatched_depends E repo num a wf st : keeps (same undispatched) (isBlockedByDependency E repo num a wf st).
Proof. frame_auto undispatched_leaf. Qed.
Lemma undispatched_claim E C repo num a wf st : keeps (same undispatched) (isBlockedByIssueClaim E C repo num a wf st).
Proof. frame_auto undispatched_leaf. Qed.
Lemma undispatched_requests E repo num wf src st def agents n :
  keeps (same undispatched) (state_requests E repo num wf src st def agents n).
Proof. frame_auto undispatched_leaf. Qed.

Lemma undispatched_split w w' :
  undispatched w' = undispatched w →
  wd_dispatch w' = wd_dispatch w ∧ sm_inflight (wd_sm w') = sm_inflight (wd_sm w).
Proof. intros H. by injection H. Qed.

(** A request whose slot is still free in the group is sent. *)
Lemma dispatch_single_sends E C ctx r g w :
  (∀ i, ctx i = false) →
  sm_inflight (wd_sm w) !! issueKey (dr_Repo r) (dr_IssueNum r) = Some g →
  g_workflow g = dr_Workflow r → g_state g = dr_State r → dispatchSlotKey r ∉ g_dispatched g →
  let q := dispatchSingleAgent E C ctx r w in
  q.1 = Ok tt ∧ wd_dispatch q.2 = wd_dispatch w ++ [r] ∧
  sm_inflight (wd_sm q.2) =
    <[issueKey (dr_Repo r) (dr_IssueNum r) := upd_g_dispatched ({[dispatchSlotKey r]} ∪.) g]>
      (sm_inflight (wd_sm w)).
Proof.
  intros Hctx Hg Hw Hs Hd. unfold dispatchSingleAgent, getSM, getsS, mbind, St_bind. cbn [fst snd].
  rewrite Hg, (bool_decide_true (g_workflow g = _)), (bool_decide_true (g_state g = _)),
    (bool_decide_false (_ ∈ g_dispatched g)) by done. cbn [negb orb].
  unfold dispatch_slot, send, mbind, St_bind, modSM, modS, getsS, Log, modS. cbn [fst snd].
  rewrite Hctx. by destruct (0 <? dr_RolloutIndex r).
Qed.

Lemma dispatch_loop E C ctx repo num reqs : ∀ g w,
  (∀ i, ctx i = false) →
  sm_inflight (wd_sm w) !! issueKey repo num = Some g →
  Forall (λ r, (dr_Repo r, dr_IssueNum r) = (repo, num) ∧ g_workflow g = dr_Workflow r ∧ g_state g = dr_State r) reqs →
  NoDup (dispatchSlotKey <$> reqs) → (∀ r, r ∈ reqs → dispatchSlotKey r ∉ g_dispatched g) →
  let q := forE reqs (dispatchSingleAgent E C ctx) w in
  q.1 = Ok tt ∧ wd_dispatch q.2 = wd_dispatch w ++ reqs ∧
  ∃ g', sm_inflight (wd_sm q.2) !! issueKey repo num = Some g' ∧
        g_workflow g' = g_workflow g ∧ g_state g' = g_state g ∧ g_slots g' = g_slots g ∧
        g_dispatched g' = g_dispatched g ∪ list_to_set (dispatchSlotKey <$> reqs).
Proof.
  induction reqs as [|r reqs IH]; intros g w Hctx Hg HF Hnd Hfree.
  { simpl. rewrite app_nil_r. split; [done|]. split; [done|]. exists g. split_and!; auto. set_solver. }
  apply Forall_cons in HF as [([= Hr Hn] & Hw & Hs) HF]. apply NoDup_cons in Hnd as [Hnin Hnd].
  assert (dispatchSlotKey r ∉ g_dispatched g) as Hd by (apply Hfree; left).
  rewrite <-Hr, <-Hn in Hg. destruct (dispatch_single_sends E C ctx r g w Hctx Hg Hw Hs Hd) as (H1 & H2 & H3).
  cbn [forE]. unfold bindE, mbind, St_bind. rewrite H1. cbv iota.
  set (w1 := (dispatchSingleAgent E C ctx r w).2) in *.
  destruct (IH (upd_g_dispatched ({[dispatchSlotKey r]} ∪.) g) w1) as (J1 & J2 & g' & J3 & J4 & J5 & J6 & J7);
    [done| |done|done| |].
  - rewrite H3, Hr, Hn. apply lookup_insert_eq.
  - intros r' Hr' Hin. simpl in Hin. apply elem_of_union in Hin as [Hin|Hin].
    + apply elem_of_singleton in Hin. apply Hnin. rewrite <-Hin. by apply list_elem_of_fmap_2.
    + by apply (Hfree r'); [right|].
  - split; [done|]. rewrite J2, H2, <-app_assoc. split; [done|]. exists g'.
    split_and!; try done. rewrite J7. simpl. set_solver.
Qed.

Lemma request_slots_dom reqs : dom (request_slots reqs) = list_to_set (dispatchSlotKey <$> reqs).
Proof.
  unfold request_slots. assert (∀ m : gmap string string,
    dom (foldl (λ m r, <[dispatchSlotKey r := dr_AgentName r]> m) m reqs) =
    dom m ∪ list_to_set (dispatchSlotKey <$> reqs)) as H.
  { induction reqs as [|r reqs IH]; intros m; simpl; [set_solver|]. rewrite IH, dom_insert_L. set_solver. }
  rewrite H, dom_empty_L. set_solver.
Qed.

(** The requests of a state: [n] rollouts of its first agent, or one per agent. *)
Definition entry_requests (repo : string) (num : Z) (wf : WorkflowConfig) (src st : string)
    (agents : list string) (n : Z) (group : string) : list DispatchRequest :=
  if 1 <? n then
    (λ i, mkDispatch repo num (default EmptyString (head agents)) (wf_Name wf) st src i n group) <$> indices n
  else (λ a, mkDispatch repo num a (wf_Name wf) st src 0 0 EmptyString) <$> agents.

(** The state does not continue the rollouts of the state before. *)
Definition no_inheritance (wf : WorkflowConfig) (src st : string) (def : State) : Prop :=
  stateMode def = StateModeSynth ∨ src = EmptyString ∨ src = st ∨
  ∀ sdef, assoc (wf_States wf) src = Some sdef → TrimSpace (jc_Strategy (s_Join sdef)) ≠ JoinRollouts.

Lemma state_requests_value E repo num wf src st def agents n w :
  no_inheritance wf src st def →
  ∃ group, (state_requests E repo num wf src st def agents n w).1 =
           Ok (entry_requests repo num wf src st agents n group).
Proof.
  intros Hni. unfold state_requests, entry_requests. destruct (1 <? n); [by eexists|]. exists EmptyString.
  destruct (negb (bool_decide (stateMode def = StateModeSynth))) eqn:Em; [|done].
  apply negb_true_iff, bool_decide_eq_false in Em. unfold inheritedRolloutRequests.
  destruct (bool_decide (src = EmptyString) || bool_decide (src = st)) eqn:Es; [done|].
  apply orb_false_iff in Es as [E1%bool_decide_eq_false E2%bool_decide_eq_false].
  destruct (assoc (wf_States wf) src) as [sdef|] eqn:Ea; [|done].
  destruct Hni as [|[|[|Hni]]]; try done. by rewrite bool_decide_false by by apply Hni.
Qed.

Lemma entry_slots_nodup repo num wf src st agents n group :
  NoDup agents → NoDup (dispatchSlotKey <$> entry_requests repo num wf src st agents n group).
Proof.
  intros Hnd. unfold entry_requests. destruct (1 <? n); rewrite <-list_fmap_compose.
  - unfold indices. rewrite <-list_fmap_compose. apply NoDup_fmap_2_strong; [|apply NoDup_seq].
    intros i j Hi Hj. apply elem_of_seq in Hi, Hj. unfold compose, dispatchSlotKey. cbn [dr_RolloutIndex].
    destruct (Z.ltb_spec 0 (Z.of_nat i)); [|lia]. destruct (Z.ltb_spec 0 (Z.of_nat j)); [|lia].
    unfold rolloutSlotKey. intros H'. apply app_str_inj_l, itoa_inj in H'. lia.
  - replace (dispatchSlotKey ∘ _ <$> agents) with agents; [done|].
    rewrite <-(list_fmap_id agents) at 1. by apply list_fmap_ext.
Qed.

Lemma entry_requests_for repo num wf src st agents n group :
  Forall (λ r, (dr_Repo r, dr_IssueNum r) = (repo, num) ∧ wf_Name wf = dr_Workflow r ∧ st = dr_State r)
    (entry_requests repo num wf src st agents n group).
Proof. unfold entry_requests. destruct (1 <? n); apply Forall_fmap, Forall_true; done. Qed.

Lemma depends_keeps_claims E repo num a wf st :
  keeps (same (λ w, db_claims (wd_db w))) (isBlockedByDependency E repo num a wf st).
Proof. frame_auto undispatched_leaf. Qed.

Lemma reconcile_none E C repo num w :
  sm_inflight (wd_sm w) !! issueKey repo num = None → reconcileStaleInflight E C repo num w = (tt, w).
Proof. intros H. unfold reconcileStaleInflight, getSM, getsS, mbind, St_bind. cbn [fst snd]. by rewrite H. Qed.

(** The group is installed and its requests go out. *)
Lemma enter_fresh E C ctx repo num wf src st agents n group mode join w :
  (∀ i, ctx i = false) → NoDup agents → sm_inflight (wd_sm w) !! issueKey repo num = None →
  let reqs := entry_requests repo num wf src st agents n group in
  let q := (id ← getSM sm_nextGroup;
            modSM (λ s, upd_sm_inflight (<[issueKey repo num :=
                newDispatchGroup id (wf_Name wf) st mode join (request_slots reqs)]>) (upd_sm_nextGroup S s));;
            (if (1 <? length reqs)%nat
                && negb (bool_decide (default EmptyString (dr_RolloutGroupID <$> head reqs) = EmptyString)) then
               Log "rollout_group_started" repo num
                 [("group_id", JS (default EmptyString (dr_RolloutGroupID <$> head reqs)));
                  ("rollouts_total", JI (Z.of_nat (length reqs))); ("issue_num", JI num);
                  ("role", JS (inferAgentRole (default EmptyString (dr_AgentName <$> head reqs))));
                  ("state", JS st)]
             else mret tt);;
            forE reqs (dispatchSingleAgent E C ctx)) w in
  q.1 = Ok tt ∧ ∃ grp g,
    wd_dispatch q.2 = wd_dispatch w ++ entry_requests repo num wf src st agents n grp ∧
    sm_inflight (wd_sm q.2) !! issueKey repo num = Some g ∧
    g_workflow g = wf_Name wf ∧ g_state g = st ∧ g_dispatched g = dom (g_slots g) ∧
    dom (g_slots g) = list_to_set (dispatchSlotKey <$> entry_requests repo num wf src st agents n grp).
Proof.
  intros Hctx Hnd Hin reqs. unfold getSM, getsS, mbind, St_bind. cbn [fst snd].
  set (G := newDispatchGroup _ _ _ _ _ _).
  match goal with |- context [forE reqs _ ?w1] => set (w4 := w1) end.
  assert (sm_inflight (wd_sm w4) !! issueKey repo num = Some G ∧ wd_dispatch w4 = wd_dispatch w) as [Hg Hd].
  { subst w4. destruct (_ && _); (split; [apply lookup_insert_eq|done]). }
  clearbody w4.
  destruct (dispatch_loop E C ctx repo num reqs G w4) as (H1 & H2 & g & H3 & H4 & H5 & H6 & H7);
    [done|done|apply entry_requests_for|by apply entry_slots_nodup|by intros|].
  split; [done|]. exists group, g. rewrite H2, Hd, H6, H7. subst G. simpl.
  rewrite request_slots_dom. split_and!; try done. set_solver.
Qed.


(** ** The cap on state entries *)

Definition capped (k : string * Z) (w : World) : Prop :=
  MaxTotalTransitions <= cy_TotalTransitions (cycle_row (wd_db w) k).

(** A capped issue stays capped and nothing at all is sent. *)
Definition cap_kept (k : string * Z) : relation World := λ w w',
  capped k w → wd_dispatch w' = wd_dispatch w ∧ capped k w'.

#[export] Instance cap_kept_preorder k : PreOrder (cap_kept k).
Proof.
  split; [by intros w H|]. intros w1 w2 w3 H1 H2 H. destruct (H1 H) as [Hd Hc].
  destruct (H2 Hc) as [Hd' Hc']. split; [congruence|done].
Qed.

(** The event enters the state it finds the issue in: the issue was first seen,
    or the state's own label was added. *)
Definition enters (C : SMConfig) (ev : ChangeEvent) : Prop :=
  ce_Type ev = EventIssueCreated ∨
  (ce_Type ev = EventLabelAdded ∧
   ∀ wf p, findCurrentState wf (ce_Labels ev) = Some p → wf ∈ findMatchingWorkflows C ev →
           ce_Detail ev = s_EnterLabel p.2).

Section cap.
Context `{YamlLib} (E : Env) (C : SMConfig) (HE : quiet E).
Ltac cap_leaf := intros; intros ?; first [by split | repeat case_match; simplify_eq/=; by split].

Lemma cap_guard wf repo num (rest : St World (res unit)) :
  keeps (cap_kept (repo, num))
    (capped ← applyTotalTransitionCap E C wf repo num;
     if (capped : bool) then mret (Ok tt) else rest).
Proof.
  intros w Hc. unfold capped in Hc. unfold applyTotalTransitionCap, mbind, St_bind.
  unfold lift, IncrementTotalTransitionCount, incrementCycleCount, wrapE, mbind, St_bind.
  rewrite sql_quiet by done. cbn [fst snd res_wrap mret St_ret].
  destruct (cycle_row (wd_db w) (repo, num)) as [dev syn total fd cap scap up] eqn:Er.
  simpl in Hc. cbn [cycle_incr cycle_get cy_TotalTransitions].
  destruct (Z.ltb_spec MaxTotalTransitions (total + 1)); [|unfold MaxTotalTransitions in *; lia].
  cbn [fst snd]. unfold report_cap, alert, publishAlert, report.
  destruct (c_alertBus C), (c_capReporter C); simpl; (split; [done|]);
    unfold capped, cycle_row; simpl; rewrite lookup_insert_eq; simpl; lia.
Qed.

Lemma cap_process ctx wf ev k :
  (ce_Repo ev, ce_IssueNum ev) = k → enters C ev → wf ∈ findMatchingWorkflows C ev →
  keeps (cap_kept k) (processWorkflowEvent E C ctx wf ev).
Proof.
  intros Hk Hent Hwf. unfold processWorkflowEvent.
  apply keeps_bindE; [apply _|frame_auto cap_leaf|]. intros ?.
  apply keeps_bind; [apply _|frame_auto cap_leaf|]. intros prior.
  destruct (findCurrentState wf (ce_Labels ev)) as [[name state]|] eqn:Ef; [|frame_auto cap_leaf].
  apply keeps_bind; [apply _|frame_auto cap_leaf|]. intros ?. cbv zeta.
  assert (bool_decide (ce_Type ev = EventIssueResynced) = false) as Hres.
  { apply bool_decide_false. destruct Hent as [-> |[-> _]]; done. }
  assert ((bool_decide (ce_Type ev = EventLabelAdded) && bool_decide (ce_Detail ev = s_EnterLabel state))
          || bool_decide (ce_Type ev = EventIssueCreated) = true) as Hentry.
  { destruct Hent as [-> |[-> Hd]]; [done|]. rewrite (Hd wf (name, state)) by done. simpl.
    by rewrite (bool_decide_true (s_EnterLabel state = s_EnterLabel state)). }
  rewrite Hres, Hentry. cbn [andb orb]. apply keeps_bind; [apply _|frame_auto cap_leaf|]. intros [|]; [keep_auto|].
  destruct (stateHasAgents state); [|frame_auto cap_leaf].
  unfold enter_state. cbv zeta. rewrite Hres.
  do 2 (apply keeps_bind; [apply _|frame_auto cap_leaf|]; intros ?). rewrite <-Hk. apply cap_guard.
Qed.

Lemma cap_event ctx ev k :
  (ce_Repo ev, ce_IssueNum ev) = k → enters C ev → keeps (cap_kept k) (HandleEvent E C ctx ev).
Proof.
  intros Hk Hent. pose proof (λ wf, cap_process ctx wf ev k Hk Hent) as Hp. unfold HandleEvent.
  apply keeps_bind; [apply _|frame_auto cap_leaf|]. intros [|]; [keep_auto|].
  apply keeps_bind; [apply _|frame_auto cap_leaf|]. intros ?.
  destruct (findMatchingWorkflows C ev) as [|wf others] eqn:Ef; [frame_auto cap_leaf|].
  apply keeps_bind; [apply _|frame_auto cap_leaf|]. intros ?.
  destruct others; [|frame_auto cap_leaf]. apply Hp. left.
Qed.
End cap.

(** Once an issue has made fifteen state entries, no further entry of a
    state dispatches anything, and the count is never reset by one: not even
    by the entry into developing that follows a human's unblocking, whose
    reset comes after the cap in the code. *)
Theorem total_cap_is_final `{YamlLib} E C ctx ev w :
  quiet E → enters C ev → capped (ce_Repo ev, ce_IssueNum ev) w →
  wd_dispatch (HandleEvent E C ctx ev w).2 = wd_dispatch w ∧
  capped (ce_Repo ev, ce_IssueNum ev) (HandleEvent E C ctx ev w).2.
Proof. intros HE Hent Hc. by apply (cap_event E C HE ctx ev). Qed.

(** ** The review caps *)

Definition cycles_view (w : World) := (db_cycles (wd_db w), wd_dispatch w).

Lemma prior_keeps E wf repo num : keeps (same cycles_view) (queryPriorWorkflowState E wf repo num).
Proof. frame_auto undispatched_leaf. Qed.
Lemma latest_keeps E wf repo num st : keeps (same cycles_view) (latestTransitionIntoState E wf repo num st).
Proof. frame_auto undispatched_leaf. Qed.

Lemma cycles_view_split w w' :
  cycles_view w' = cycles_view w →
  (∀ k, cycle_row (wd_db w') k = cycle_row (wd_db w) k) ∧ wd_dispatch w' = wd_dispatch w.
Proof. intros H. injection H as H1 H2. split; [|done]. intros k. unfold cycle_row. by rewrite H1. Qed.

Definition cap_column (spec : cycleCapSpec) : cycle_column :=
  if cap_synth spec then synth_cycle_count else dev_review_cycle_count.
Definition cap_hit (spec : cycleCapSpec) (r : IssueCycleState) : option Z :=
  if cap_synth spec then cy_SynthCapHitAt r else cy_CapHitAt r.

Lemma cycle_get_incr c now r : cycle_get c (cycle_incr c now r) = cycle_get c r + 1.
Proof. by destruct c, r. Qed.

(** The counter of the loop goes up by one. *)
Lemma increment_value E repo num col w :
  quiet E →
  let m := lift (incrementCycleCount E repo num col) in
  (m w).1 = Ok (cycle_get col (cycle_row (wd_db w) (repo, num)) + 1) ∧
  cycle_row (wd_db (m w).2) (repo, num) = cycle_incr col (sql_now E) (cycle_row (wd_db w) (repo, num)) ∧
  wd_dispatch (m w).2 = wd_dispatch w.
Proof.
  intros HE. unfold lift, incrementCycleCount, wrapE, mbind, St_bind. rewrite sql_quiet by done. simpl.
  rewrite cycle_get_incr. split; [done|]. split; [|done]. unfold cycle_row. simpl. by rewrite lookup_insert_eq.
Qed.

Lemma mark_value E repo num synth w :
  quiet E →
  let m := lift (markIssueCapHit E repo num synth) in
  let after := cycle_row (wd_db (m w).2) (repo, num) in
  (∀ c, cycle_get c after = cycle_get c (cycle_row (wd_db w) (repo, num))) ∧
  is_Some (if synth then cy_SynthCapHitAt after else cy_CapHitAt after) ∧
  wd_dispatch (m w).2 = wd_dispatch w.
Proof.
  intros HE. unfold lift, markIssueCapHit, wrapE, mbind, St_bind. rewrite sql_quiet by done. simpl.
  destruct (cycle_row (wd_db w) (repo, num)) as [dev syn total fd cap scap up] eqn:Er. simpl.
  unfold cycle_row. simpl. rewrite lookup_insert_eq. simpl.
  destruct synth; (split; [by intros []|]); (split; [by eexists|done]).
Qed.

(** Logging, alerts and reports leave counters and requests alone. *)
Ltac view_keeps := intros; apply cycles_view_split; match goal with
  |- cycles_view (?m ?w).2 = _ => assert (keeps (same cycles_view) m) as Hk; [frame_auto undispatched_leaf|exact (Hk w)] end.

Lemma enforce_cap_spec E C wf repo num spec w :
  quiet E →
  wp (enforceCycleCap E C wf repo num spec) (λ r w',
    let before := cycle_row (wd_db w) (repo, num) in
    let after := cycle_row (wd_db w') (repo, num) in
    let count := cycle_get (cap_column spec) before + 1 in
    r = Ok (cap_maxCycles spec <=? count) ∧ cycle_get (cap_column spec) after = count ∧
    (cap_maxCycles spec <= count → is_Some (cap_hit spec after)) ∧
    wd_dispatch w' = wd_dispatch w) w.
Proof.
  intros HE. unfold enforceCycleCap. cbv zeta.
  destruct (increment_value E repo num (cap_column spec) w HE) as (V1 & V2 & V3).
  set (count := cycle_get (cap_column spec) _ + 1) in *.
  assert (wrapE (cap_errContext spec) (lift (if cap_synth spec then IncrementSynthCycleCount E repo num
    else IncrementDevReviewCycleCount E repo num)) w =
    (Ok count, (lift (incrementCycleCount E repo num (cap_column spec)) w).2)) as Hi.
  { unfold cap_column in *. unfold IncrementSynthCycleCount, IncrementDevReviewCycleCount.
    destruct (cap_synth spec); unfold wrapE, mbind, St_bind, mret, St_ret; by rewrite V1. }
  eapply wp_bindE_ok; [by rewrite Hi|]. rewrite Hi. cbn [snd].
  set (w1 := (lift (incrementCycleCount E repo num (cap_column spec)) w).2) in *.
  rewrite <-V3. assert (cycle_get (cap_column spec) (cycle_row (wd_db w1) (repo, num)) = count) as Hc1.
  { rewrite V2. apply cycle_get_incr. }
  clearbody w1 count. clear V1 V2 V3 Hi.
  apply wp_bind. match goal with |- wp ?m _ w1 =>
    assert ((∀ k, cycle_row (wd_db (m w1).2) k = cycle_row (wd_db w1) k)
            ∧ wd_dispatch (m w1).2 = wd_dispatch w1) as [R2 D2] by view_keeps;
    unfold wp at 1; set (w2 := (m w1).2) in *; clearbody w2 end.
  rewrite <-D2. rewrite <-R2 in Hc1. clear D2 R2.
  destruct (Z.leb_spec (cap_maxCycles spec) count) as [Hle|Hgt].
  - destruct (mark_value E repo num (cap_synth spec) w2 HE) as (M1 & M2 & M3).
    apply wp_bind. unfold wp at 1.
    assert (lift (if cap_synth spec then MarkIssueSynthCycleCapHit E repo num else MarkIssueCycleCapHit E repo num)
            = lift (markIssueCapHit E repo num (cap_synth spec))) as -> by by destruct (cap_synth spec).
    set (w3 := (lift (markIssueCapHit E repo num (cap_synth spec)) w2).2) in *. clearbody w3.
    rewrite <-M3. rewrite <-M1 in Hc1. clear M1 M3.
    match goal with |- wp ?m _ w3 =>
      assert ((m w3).1 = Ok true) as V by reflexivity;
      assert ((∀ k, cycle_row (wd_db (m w3).2) k = cycle_row (wd_db w3) k)
              ∧ wd_dispatch (m w3).2 = wd_dispatch w3) as [R3 D3] by view_keeps end.
    unfold wp. rewrite V, R3, D3. split_and!; try done.
  - match goal with |- wp ?m _ w2 =>
      assert ((m w2).1 = Ok false) as V by reflexivity;
      assert ((∀ k, cycle_row (wd_db (m w2).2) k = cycle_row (wd_db w2) k)
              ∧ wd_dispatch (m w2).2 = wd_dispatch w2) as [R3 D3] by view_keeps end.
    unfold wp. rewrite V, R3, D3. split_and!; try done. lia.
Qed.

(** The review loop. When developing is entered and no statement fails:
    after reviewing, the counter of the loop the issue came through (synthesis
    or review) goes up by one, dispatch is held back exactly when the counter
    has reached that loop's cap, and the hit is then stamped; after blocked,
    all counters of the issue are reset and dispatch goes on; after any other
    state nothing is counted. Nothing is dispatched in the process. *)
Theorem review_cap_counts E C wf repo num w :
  quiet E →
  let prior := (queryPriorWorkflowState E (wf_Name wf) repo num w).1 in
  wp (applyDevReviewCycleCap E C wf repo num stateNameDeveloping) (λ r w',
    wd_dispatch w' = wd_dispatch w ∧
    if bool_decide (prior = stateNameReviewing) then
      ∃ spec, (spec = synthCycleCapSpec ∨ spec = devReviewCycleCapSpec wf) ∧
        let after := cycle_row (wd_db w') (repo, num) in
        let count := cycle_get (cap_column spec) (cycle_row (wd_db w) (repo, num)) + 1 in
        r = Ok (cap_maxCycles spec <=? count) ∧ cycle_get (cap_column spec) after = count ∧
        (cap_maxCycles spec <= count → is_Some (cap_hit spec after))
    else r = Ok false ∧
      db_cycles (wd_db w') !! (repo, num) =
        (if bool_decide (prior = stateNameBlocked) then None else db_cycles (wd_db w) !! (repo, num))) w.
Proof.
  intros HE prior. unfold applyDevReviewCycleCap. rewrite bool_decide_true by done. cbn [negb].
  apply (wp_bind_val _ _ _ _ prior); [done|].
  pose proof (prior_keeps E (wf_Name wf) repo num w) as Hv. unfold same in Hv.
  pose proof (cycles_view_split _ _ Hv) as [R1 D1]. pose proof (f_equal fst Hv : db_cycles _ = db_cycles _) as Hcyc. clear Hv.
  set (w1 := (queryPriorWorkflowState E (wf_Name wf) repo num w).2) in *. clearbody w1 prior.
  rewrite <-D1, <-Hcyc. rewrite <-(R1 (repo, num)). clear R1 D1 Hcyc.
  destruct (bool_decide (prior = stateNameBlocked)) eqn:Eb.
  { apply bool_decide_eq_true in Eb as ->. rewrite bool_decide_false by done.
    unfold wp, bindE, wrapE, mbind, St_bind, lift, ResetIssueCycleState, wrapE, mbind, St_bind.
    rewrite sql_quiet by done. simpl. split; [done|]. split; [done|]. apply lookup_delete_eq. }
  destruct (bool_decide (prior = stateNameReviewing)) eqn:Er; cbn [negb]; [|by apply wp_ret].
  apply wp_bind. unfold wp at 1.
  pose proof (latest_keeps E (wf_Name wf) repo num stateNameReviewing w1) as [R2 D2]%cycles_view_split.
  set (src := (latestTransitionIntoState _ _ _ _ _ w1).1).
  set (w2 := (latestTransitionIntoState _ _ _ _ _ w1).2) in *. clearbody w2.
  set (spec := if bool_decide (src = stateNameSynthesizing) then _ else _).
  eapply wp_mono; [by apply enforce_cap_spec|]. intros r w' (H1 & H2 & H3 & H4).
  rewrite <-D2, <-R2. split; [done|]. exists spec. split; [subst spec; case_bool_decide; auto|]. auto.
Qed.

(** ** Examples *)

Definition two_slots : dispatchGroup :=
  newDispatchGroup 0 "default" "reviewing" StateModeReview plain_join {[ "a" := "a"; "b" := "b" ]}.

Lemma joins_decide_witness :
  join_run JoinAllPassed [("b", 0); ("a", 1)] two_slots = Some false ∧
  join_run JoinAnyPassed [("b", 0); ("a", 1)] two_slots = Some true.
Proof.
  apply (joins_decide [("b", 0); ("a", 1)] two_slots); try reflexivity; [|discriminate].
  apply (bool_decide_unpack _). vm_compute. exact I.
Defined.


Lemma total_cap_is_final_witness :
  wd_dispatch (HandleEvent (demo_env 0) (demo_config EmptyString) (λ _, false) (demo_event 1) capped_world).2 = [].
Proof.
  apply (total_cap_is_final (demo_env 0) (demo_config EmptyString) (λ _, false) (demo_event 1) capped_world).
  - done.
  - right. split; [done|]. intros wf p Hp Hwf.
    assert (wf = default_workflow) as ->; [|by vm_compute in Hp; simplify_eq].
    change (wf ∈ [default_workflow]) in Hwf. by apply list_elem_of_singleton in Hwf.
  - unfold capped. vm_compute. discriminate.
Defined.

Lemma review_cap_counts_witness :
  (applyDevReviewCycleCap (demo_env 0) (demo_config EmptyString) default_workflow "o/r" 1 stateNameDeveloping
     capped_world).1 = Ok false.
Proof.
  pose proof (review_cap_counts (demo_env 0) (demo_config EmptyString) default_workflow "o/r" 1 capped_world
    (λ _, eq_refl)) as [_ H]. exact (proj1 H).
Defined.
