(* ===== verification/Cycles.v ===== *)
(** * Cycle detection

    [detectCycles] always ends within its fuel, reports only real cycles, and
    reports some issue of every cycle; it need not report every issue on one. *)

From S2P Require Import Prelude GoLib Types DB World Dependency.

Section cycles.
Context (g : gmap Z (list Z)).

(** Consecutive nodes are joined by an edge. *)
Fixpoint walk (l : list Z) : Prop :=
  match l with
  | x :: ((y :: _) as l') => y ∈ succs g x ∧ walk l'
  | _ => True
  end.

Definition cycle (path : list Z) : Prop :=
  ∃ x mid, path = x :: mid ++ [x] ∧ walk path.

Definition nodes : gset Z := list_to_set (graph_nodes g).
Definition whites (s : Dfs) : gset Z := filter (λ x, color_of s x = white) nodes.

Record inv (s : Dfs) : Prop := {
  inv_gray : ∀ x, color_of s x = gray ↔ x ∈ dfs_stack s;
  inv_walk : walk (dfs_stack s);
  inv_out : ∀ x p, dfs_out s !! x = Some p → ∃ path, p = formatCycle path ∧ cycle path ∧ x ∈ path
}.

(** The finished nodes, newest first: the successors of one that is not reported finished
    before it. *)
Fixpoint ordered (out : gmap Z (list string)) (fin : list Z) : Prop :=
  match fin with
  | [] => True
  | x :: fin => (∀ y, y ∈ succs g x → y ∈ fin ∨ is_Some (out !! x)) ∧ ordered out fin
  end.
Definition grows (out out' : gmap Z (list string)) : Prop := ∀ x, is_Some (out !! x) → is_Some (out' !! x).
Lemma ordered_grows out out' fin : grows out out' → ordered out fin → ordered out' fin.
Proof. intros Hg. induction fin as [|x fin IH]; [done|]. intros [Hx Ho]. split; [|auto]. intros y Hy. destruct (Hx y Hy); auto. Qed.
Definition finished (fin : list Z) (s : Dfs) : Prop :=
  (∀ x, color_of s x = black ↔ x ∈ fin) ∧ NoDup fin ∧ ordered (dfs_out s) fin.

(** What a visit, or a run of visits, establishes. *)
Record after (s s' : Dfs) : Prop := {
  af_inv : inv s';
  af_stack : dfs_stack s' = dfs_stack s;
  af_whites : whites s' ⊆ whites s;
  af_black : ∀ x, color_of s x = black → color_of s' x = black;
  af_out : grows (dfs_out s) (dfs_out s');
  af_fin : ∀ fin, finished fin s → ∃ fin', finished fin' s'
}.

Lemma after_refl s : inv s → after s s.
Proof. intros Hi. split; auto; [by intros x|]. intros fin Hf. by exists fin. Qed.

Lemma after_trans s1 s2 s3 : after s1 s2 → after s2 s3 → after s1 s3.
Proof.
  intros [] []. split; auto; [congruence|set_solver|intros x; auto|].
  intros fin Hf. destruct (af_fin0 fin Hf) as [fin' Hf']. by apply af_fin1 in Hf'.
Qed.

Lemma color_paint n c s x : color_of (paint n c s) x = if decide (x = n) then c else color_of s x.
Proof.
  unfold color_of, paint. simpl. destruct (decide (x = n)) as [->|Hx].
  - by rewrite lookup_insert_eq.
  - by rewrite lookup_insert_ne.
Qed.

Lemma walk_snoc l x y : walk (l ++ [x]) → y ∈ succs g x → walk ((l ++ [x]) ++ [y]).
Proof.
  induction l as [|a l IH]; [by simpl|]. destruct l as [|b l]; simpl in *.
  - intros [H _] Hy. done.
  - intros [H Hw] Hy. split; [done|]. by apply IH.
Qed.

Lemma walk_app_r l l' : walk (l ++ l') → walk l'.
Proof.
  induction l as [|a l IH]; [done|]. simpl. intros H. apply IH.
  destruct (l ++ l'); [done|]. by destruct H.
Qed.

Lemma drop_until_spec t l :
  t ∈ l → ∃ pre post, l = pre ++ t :: post ∧ drop_until t l = Some (t :: post).
Proof.
  induction l as [|n l IH]; intros Hin; [by apply elem_of_nil in Hin|]. simpl.
  destruct (Z.eqb_spec n t) as [->|Hn]; [by exists [], l|].
  apply elem_of_cons in Hin as [->|Hin]; [done|].
  destruct (IH Hin) as (pre & post & -> & Hd). by exists (n :: pre), post.
Qed.

(** The stack from the gray node on, closed by the edge to it, is a cycle. *)
Lemma extract_is_cycle stack node next :
  walk (stack ++ [node]) → next ∈ stack ++ [node] → next ∈ succs g node →
  cycle (extractCyclePath (stack ++ [node]) next).
Proof.
  intros Hw Hin He. destruct (drop_until_spec _ _ Hin) as (pre & post & Hl & Hd).
  unfold extractCyclePath. rewrite Hd. exists next, post. split; [done|].
  pose proof (walk_snoc _ _ _ Hw He) as Hw'. rewrite Hl, <-app_assoc in Hw'.
  by apply walk_app_r in Hw'.
Qed.

Lemma foldl_insert_const (path : list Z) (v : list string) (m : gmap Z (list string)) x :
  foldl (λ m n, <[n := v]> m) m path !! x = if decide (x ∈ path) then Some v else m !! x.
Proof.
  revert m. induction path as [|n path IH]; intros m; simpl.
  - destruct (decide (x ∈ [])) as [H|]; [by apply elem_of_nil in H|done].
  - rewrite IH. destruct (decide (x ∈ path)) as [H|H], (decide (x ∈ n :: path)) as [H'|H']; try done.
    + exfalso. apply H'. by right.
    + apply elem_of_cons in H' as [->|]; [by rewrite lookup_insert_eq|done].
    + rewrite lookup_insert_ne; [done|]. intros ->. apply H'. left.
Qed.

Lemma report_ok s node stack next :
  inv s → dfs_stack s = stack ++ [node] → next ∈ succs g node → color_of s next = gray →
  inv (report_cycle next s) ∧ is_Some (dfs_out (report_cycle next s) !! node).
Proof.
  intros [Hg Hw Ho] Hst He Hc. assert (next ∈ dfs_stack s) as Hin by by apply Hg.
  assert (cycle (extractCyclePath (dfs_stack s) next)) as Hcyc.
  { rewrite Hst in *. by apply extract_is_cycle. }
  split.
  - split; [exact Hg|exact Hw|]. intros x p. unfold report_cycle. simpl. rewrite foldl_insert_const.
    destruct (decide _) as [Hx|]; [|apply Ho]. intros [= <-]. eexists. by split.
  - unfold report_cycle. simpl. rewrite foldl_insert_const. destruct (decide _) as [|Hn]; [by eexists|]. destruct Hn.
    destruct (drop_until_spec next (dfs_stack s) Hin) as (pre & post & Hl & Hd). unfold extractCyclePath. rewrite Hd.
    apply elem_of_app. left. destruct post as [|x post _] using rev_ind.
    + rewrite Hst in Hl. apply app_inj_tail in Hl as [_ ->]. left.
    + rewrite Hst, app_comm_cons, app_assoc in Hl. apply app_inj_tail in Hl as [_ ->]. set_solver.
Qed.

Lemma report_after s next : inv (report_cycle next s) → after s (report_cycle next s).
Proof.
  intros Hi. assert (grows (dfs_out s) (dfs_out (report_cycle next s))) as Hg.
  { intros x Hx. unfold report_cycle. simpl. rewrite foldl_insert_const. destruct (decide _); [by eexists|done]. }
  split; try done. intros fin (H1 & H2 & H3). exists fin. split; [done|]. split; [done|]. by eapply ordered_grows.
Qed.

Lemma succs_nodes x y : y ∈ succs g x → y ∈ nodes.
Proof.
  unfold succs, nodes, graph_nodes. intros Hy. apply elem_of_list_to_set, elem_of_app. right.
  destruct (g !! x) as [l|] eqn:El; [|by apply elem_of_nil in Hy].
  apply list_elem_of_In, List.in_concat. exists l.
  split; [|by apply list_elem_of_In]. apply list_elem_of_In. apply list_elem_of_fmap. exists (x, l).
  split; [done|]. by apply elem_of_map_to_list.
Qed.

(** A visit of a white node whose edge comes from the top of the stack. *)
Definition visit_spec (fuel : nat) : Prop := ∀ n s,
  inv s → color_of s n = white → n ∈ nodes → (size (whites s) ≤ fuel)%nat →
  (∀ st top, dfs_stack s = st ++ [top] → n ∈ succs g top) →
  ∃ s', visit fuel g n s = Some s' ∧ after s s' ∧ color_of s' n = black.

Lemma loop_ok fuel node st :
  visit_spec fuel → ∀ nexts s,
  inv s → dfs_stack s = st ++ [node] → (∀ y, y ∈ nexts → y ∈ succs g node) →
  (size (whites s) ≤ fuel)%nat →
  ∃ s', visit_loop (visit fuel g) nexts s = Some s' ∧ after s s' ∧
        (∀ y, y ∈ nexts → color_of s' y = black ∨ is_Some (dfs_out s' !! node)).
Proof.
  intros IHv. induction nexts as [|next nexts IH]; intros s Hi Hst Hsub Hsz; cbn [visit_loop].
  { exists s. split; [done|]. split; [by apply after_refl|]. intros y Hy. by apply elem_of_nil in Hy. }
  assert (next ∈ succs g node) as He by (apply Hsub; left).
  assert (∀ y, y ∈ nexts → y ∈ succs g node) as Hsub' by (intros; apply Hsub; by right).
  destruct (color_of s next) eqn:Ec.
  - destruct (IHv next s) as (s1 & Hv & Ha & Hb); [done|done|by eapply succs_nodes|done| |].
    { intros st' top Heq. rewrite Hst in Heq. apply app_inj_tail in Heq as [_ <-]. done. }
    rewrite Hv. simpl. destruct (IH s1) as (s2 & Hl & Ha2 & Hb2); [apply Ha|by rewrite (af_stack _ _ Ha)|done| |].
    { etrans; [|exact Hsz]. apply subseteq_size, Ha. }
    exists s2. split; [done|]. split; [by eapply after_trans|].
    intros y [->|Hy]%elem_of_cons; [left; by apply (af_black _ _ Ha2)|by apply Hb2].
  - destruct (report_ok s node st next Hi Hst He Ec) as [Hi1 Ho1].
    destruct (IH (report_cycle next s)) as (s2 & Hl & Ha2 & Hb2); [done|done|done|done|].
    exists s2. split; [done|]. split; [eapply after_trans; [by apply report_after|done]|].
    intros y _. right. by apply (af_out _ _ Ha2).
  - destruct (IH s) as (s2 & Hl & Ha2 & Hb2); [done..|]. exists s2. split; [done|]. split; [done|].
    intros y [->|Hy]%elem_of_cons; [left; by apply (af_black _ _ Ha2)|by apply Hb2].
Qed.

Lemma inv_enter n s :
  inv s → color_of s n = white → (∀ st top, dfs_stack s = st ++ [top] → n ∈ succs g top) →
  inv (push n (paint n gray s)).
Proof.
  intros [Hg Hw Ho] Hc He. split; [|simpl|exact Ho].
  - intros x. change (color_of (push n (paint n gray s)) x) with (color_of (paint n gray s) x).
    rewrite color_paint. simpl. rewrite elem_of_app, list_elem_of_singleton, <-Hg.
    destruct (decide (x = n)) as [->|Hx]; naive_solver.
  - destruct (dfs_stack s) as [|a l _] using rev_ind; [done|]. apply walk_snoc; [done|]. by eapply He.
Qed.

Lemma inv_leave n s stack :
  inv s → dfs_stack s = stack ++ [n] → n ∉ stack → inv (paint n black (pop s)).
Proof.
  intros [Hg Hw Ho] Hst Hn. assert (dfs_stack (pop s) = stack) as Hp.
  { unfold pop. simpl. rewrite Hst, length_app. simpl.
    replace (length stack + 1 - 1)%nat with (length stack) by lia. apply take_app_length. }
  split; [|simpl|exact Ho].
  - intros x. rewrite color_paint. change (dfs_stack (paint n black (pop s))) with (dfs_stack (pop s)).
    rewrite Hp. change (color_of (pop s) x) with (color_of s x).
    destruct (decide (x = n)) as [->|Hx]; [naive_solver|].
    rewrite Hg, Hst, elem_of_app, list_elem_of_singleton. naive_solver.
  - change (walk (dfs_stack (pop s))). rewrite Hp. rewrite Hst in Hw. clear -Hw.
    induction stack as [|a l IH]; [done|]. destruct l as [|b l]; [done|]. destruct Hw as [H1 H2].
    split; [done|]. by apply IH.
Qed.

Lemma finished_leave n s fin :
  finished fin s → color_of s n = gray → (∀ y, y ∈ succs g n → color_of s y = black ∨ is_Some (dfs_out s !! n)) →
  finished (n :: fin) (paint n black (pop s)).
Proof.
  intros (Hb & Hnd & Ho) Hc Hs. split; [|split].
  - intros x. rewrite color_paint. change (color_of (pop s) x) with (color_of s x).
    rewrite elem_of_cons, <-Hb. destruct (decide (x = n)); naive_solver.
  - apply NoDup_cons. split; [|done]. rewrite <-Hb. congruence.
  - split; [|done]. intros y Hy. rewrite <-Hb. by apply Hs.
Qed.

Lemma visit_ok fuel : visit_spec fuel.
Proof.
  induction fuel as [|fuel IH]; intros n s Hi Hc Hn Hsz He.
  { exfalso. assert (n ∈ whites s) as Hw by (by apply elem_of_filter).
    assert (size (whites s) ≠ 0%nat) as Hz; [|lia].
    intros Hz. apply size_empty_inv in Hz. set_solver. }
  cbn [visit]. set (s0 := push n (paint n gray s)).
  assert (inv s0) as Hi0 by by apply inv_enter.
  assert (∀ x, color_of s0 x = if decide (x = n) then gray else color_of s x) as Hc0.
  { intros x. apply color_paint. }
  assert (whites s0 ⊂ whites s) as Hw0.
  { split.
    - intros x. unfold whites. rewrite !elem_of_filter, Hc0. destruct (decide (x = n)); naive_solver.
    - intros Hsub. assert (n ∈ whites s0) as Hin by (apply Hsub, elem_of_filter; done).
      apply elem_of_filter in Hin as [Hin _]. rewrite Hc0 in Hin. by destruct (decide (n = n)). }
  pose proof (subset_size _ _ Hw0) as Hsz0.
  destruct (loop_ok fuel n (dfs_stack s) IH (succs g n) s0) as (s1 & Hl & Ha & Hb); [done|done|done|lia|].
  rewrite Hl. simpl. assert (n ∉ dfs_stack s) as Hns.
  { intros Hin. apply (inv_gray _ Hi) in Hin. congruence. }
  pose proof (af_stack _ _ Ha) as Hst1. cbn in Hst1.
  assert (color_of s1 n = gray) as Hg1.
  { apply (inv_gray _ (af_inv _ _ Ha)). rewrite Hst1. apply elem_of_app. right. left. }
  exists (paint n black (pop s1)). split; [done|].
  split; [|rewrite color_paint; by destruct (decide (n = n))]. split.
  - eapply inv_leave; [apply Ha|exact Hst1|done].
  - unfold pop. simpl. rewrite Hst1, length_app. simpl.
    replace (length (dfs_stack s) + 1 - 1)%nat with (length (dfs_stack s)) by lia. apply take_app_length.
  - etrans; [|apply Hw0]. etrans; [|apply Ha]. intros x. unfold whites. rewrite !elem_of_filter, color_paint.
    change (color_of (pop s1) x) with (color_of s1 x). destruct (decide (x = n)); naive_solver.
  - intros x Hx. rewrite color_paint. change (color_of (pop s1) x) with (color_of s1 x).
    destruct (decide (x = n)); [done|]. apply (af_black _ _ Ha). rewrite Hc0. by destruct (decide (x = n)).
  - exact (af_out _ _ Ha).
  - intros fin Hf. destruct (af_fin _ _ Ha fin) as [fin' Hf'].
    { destruct Hf as (Hb1 & Hb2). split; [|done]. intros x. rewrite Hc0, <-Hb1.
      destruct (decide (x = n)) as [->|]; [|done]. by rewrite Hc. }
    exists (n :: fin'). by apply finished_leave.
Qed.

Lemma keys_ok fuel keys : ∀ s,
  (∀ k, k ∈ keys → k ∈ nodes) → inv s → dfs_stack s = [] → (size (whites s) ≤ fuel)%nat →
  ∃ s', visit_keys fuel g keys s = Some s' ∧ after s s' ∧ (∀ k, k ∈ keys → color_of s' k = black).
Proof.
  induction keys as [|n keys IH]; intros s Hk Hi Hst Hsz; cbn [visit_keys].
  { exists s. split; [done|]. split; [by apply after_refl|]. intros k Hin. by apply elem_of_nil in Hin. }
  assert (∃ s1, (if decide (color_of s n = white) then visit fuel g n s else Some s) = Some s1 ∧
                after s s1 ∧ color_of s1 n = black) as (s1 & Hv & Ha & Hb).
  { destruct (decide (color_of s n = white)) as [Hc|Hc].
    - apply visit_ok; [done|done|apply Hk; left|done|]. rewrite Hst. by intros [].
    - exists s. split; [done|]. split; [by apply after_refl|]. destruct (color_of s n) eqn:Ec; [done| |done].
      apply (inv_gray _ Hi) in Ec. rewrite Hst in Ec. by apply elem_of_nil in Ec. }
  rewrite Hv. simpl. destruct (IH s1) as (s2 & Hl & Ha2 & Hb2);
    [intros; apply Hk; by right|apply Ha|by rewrite (af_stack _ _ Ha)| |].
  { etrans; [apply subseteq_size, Ha|done]. }
  exists s2. split; [done|]. split; [by eapply after_trans|].
  intros k [->|Hin]%elem_of_cons; [by apply (af_black _ _ Ha2)|by apply Hb2].
Qed.

Lemma size_list_to_set_le (l : list Z) : (size (list_to_set l : gset Z) ≤ length l)%nat.
Proof.
  induction l as [|x l IH]; [done|]. rewrite list_to_set_cons. cbn [length].
  rewrite size_union_alt, size_singleton.
  pose proof (subseteq_size ((list_to_set l : gset Z) ∖ {[x]}) (list_to_set l)) as Hs.
  specialize (Hs ltac:(set_solver)). lia.
Qed.

Definition dfs0 : Dfs := mkDfs ∅ [] ∅.

Lemma inv0 : inv dfs0.
Proof.
  split; [|done|].
  - intros x. unfold color_of. simpl. rewrite lookup_empty. simpl. rewrite elem_of_nil. done.
  - intros x p. simpl. by rewrite lookup_empty.
Qed.

Lemma sorted_keys k : k ∈ sort_by Z.leb (map_to_list g).*1 ↔ is_Some (g !! k).
Proof.
  rewrite sort_by_perm, list_elem_of_fmap. split.
  - intros ([k' l] & -> & Hin). apply elem_of_map_to_list in Hin. simpl. by rewrite Hin.
  - intros [l Hl]. exists (k, l). split; [done|]. by apply elem_of_map_to_list.
Qed.

Lemma detect_run :
  ∃ s, detectCycles g = Some (dfs_out s) ∧ after dfs0 s ∧ (∀ k, is_Some (g !! k) → color_of s k = black).
Proof.
  destruct (keys_ok (cycle_fuel g) (sort_by Z.leb (map_to_list g).*1) dfs0) as (s & Hv & Ha & Hb);
    [|apply inv0|done| |].
  - intros k [l Hl]%sorted_keys. unfold nodes, graph_nodes. apply elem_of_list_to_set, elem_of_app. left.
    apply list_elem_of_fmap. exists (k, l). split; [done|]. by apply elem_of_map_to_list.
  - etrans; [apply (subseteq_size _ nodes); unfold whites; set_solver|].
    unfold nodes, cycle_fuel. etrans; [apply size_list_to_set_le|]. lia.
  - exists s. unfold detectCycles. fold dfs0. rewrite Hv. split; [done|]. split; [done|].
    intros k Hk. apply Hb. by apply sorted_keys.
Qed.

(** Every node of a cycle has an outgoing edge. *)
Lemma cycle_has_edges y mid x :
  walk (y :: mid ++ [y]) → x ∈ y :: mid ++ [y] → is_Some (g !! x).
Proof.
  assert (∀ l a, walk (a :: l ++ [y]) → ∀ x, x ∈ a :: l → is_Some (g !! x)) as H.
  { induction l as [|b l IH]; intros a Hw z Hz.
    - apply list_elem_of_singleton in Hz as ->. destruct Hw as [Hw _]. unfold succs in Hw.
      destruct (g !! a); [done|]. by apply elem_of_nil in Hw.
    - apply elem_of_cons in Hz as [->|Hz].
      + destruct Hw as [Hw _]. unfold succs in Hw. destruct (g !! a); [done|]. by apply elem_of_nil in Hw.
      + destruct Hw as [_ Hw]. by eapply IH. }
  intros Hw Hx. apply (H mid y Hw). set_solver.
Qed.

(** A walk of unreported nodes that starts among finished nodes stays among them. *)
Lemma ordered_closed out fin x y : ordered out fin → x ∈ fin → out !! x = None → y ∈ succs g x → y ∈ fin.
Proof.
  intros Ho Hx Hn Hy. induction fin as [|z fin IH]; [by apply elem_of_nil in Hx|].
  destruct Ho as [Hz Ho]. apply elem_of_cons in Hx as [->|Hx]; right; [|auto].
  destruct (Hz y Hy) as [?|[? ?]]; [done|congruence].
Qed.

Lemma ordered_walk out fin l :
  ordered out fin → walk l → Forall (λ x, out !! x = None) l → (∀ x, head l = Some x → x ∈ fin) → Forall (λ x, x ∈ fin) l.
Proof.
  intros Ho. induction l as [|x l IH]; intros Hw Hn Hh; [constructor|]. apply Forall_cons in Hn as [Hx0 Hn].
  assert (x ∈ fin) as Hx by by apply Hh. constructor; [done|]. destruct l as [|y l]; [constructor|].
  destruct Hw as [He Hw]. apply IH; [done|done|]. intros z [= <-]. by eapply ordered_closed.
Qed.

Lemma ordered_no_cycle out fin path :
  ordered out fin → NoDup fin → cycle path → Forall (λ x, out !! x = None) path → (∀ x, x ∈ path → x ∈ fin) → False.
Proof.
  intros Ho Hnd (x & mid & -> & Hw) [Hx0 Hn]%Forall_cons. revert Ho Hnd. induction fin as [|z fin IH]; intros Ho Hnd Hsub.
  { specialize (Hsub x (list_elem_of_here _ _)). by apply elem_of_nil in Hsub. }
  destruct Ho as [Hz Ho]. apply NoDup_cons in Hnd as [Hzn Hnd].
  assert (∀ y, y ∈ x :: mid ++ [x] → y ∈ fin) as Hall; [|by apply IH].
  assert (Forall (λ y, y ∈ fin) (mid ++ [x])) as HF.
  { apply (ordered_walk out); [done|by apply (walk_app_r [x])|done|]. intros y Hy.
    assert (y ∈ succs g x) as Hyx. { destruct (mid ++ [x]) as [|b l]; [done|]. injection Hy as <-. by destruct Hw. }
    destruct (decide (x = z)) as [->|Hxz].
    - destruct (Hz y Hyx) as [?|[? ?]]; [done|congruence].
    - apply (ordered_closed out _ x); [done| |done|done].
      specialize (Hsub x (list_elem_of_here _ _)). by apply elem_of_cons in Hsub as [->|]. }
  rewrite Forall_forall in HF. intros y [->|Hy]%elem_of_cons; [|by apply HF].
  apply HF, elem_of_app. right. left.
Qed.
End cycles.

(** C34: Cycle detection ends on every graph; what it reports for an issue is
    the rendering of a closed walk of the graph through that issue; and some issue of
    every cycle of the graph is reported. *)
Theorem detect_cycles_correct g :
  ∃ out, detectCycles g = Some out ∧
    (∀ n p, out !! n = Some p → ∃ path, p = formatCycle path ∧ cycle g path ∧ n ∈ path) ∧
    (∀ path, cycle g path → ∃ n, n ∈ path ∧ is_Some (out !! n)).
Proof.
  destruct (detect_run g) as (s & Hd & Ha & Hb). exists (dfs_out s). split; [done|].
  split; [apply Ha|]. intros path Hc.
  destruct (decide (Exists (λ n, is_Some (dfs_out s !! n)) path)) as [He|He].
  { apply Exists_exists in He as (n & Hn & Ho). eauto. }
  exfalso. destruct (af_fin _ _ _ Ha []) as (fin & Hblack & Hnd & Hord).
  { split; [|split; [constructor|done]]. intros x. unfold color_of. simpl. rewrite lookup_empty, elem_of_nil. done. }
  eapply (ordered_no_cycle g (dfs_out s) fin path); [done|done|done| |].
  - apply Forall_forall. intros x Hx. destruct (dfs_out s !! x) eqn:Hx0; [|done]. destruct He. apply Exists_exists. eauto.
  - intros x Hx. apply Hblack, Hb. destruct Hc as (y & mid & -> & Hw). by apply (cycle_has_edges g y mid).
Qed.

(** An issue on a cycle may go unreported: in the graph 1 -> 2, 1 -> 3,
    2 -> 1, 3 -> 2 the issue 3 lies on the cycle 1, 3, 2, 1 and is not among
    the reported ones. *)
Theorem detect_cycles_misses_a_node :
  let g : gmap Z (list Z) := {[ 1 := [2; 3]; 2 := [1]; 3 := [2] ]} in
  cycle g [3; 2; 1; 3] ∧ ∃ out, detectCycles g = Some out ∧ out !! 3 = None ∧ is_Some (out !! 1).
Proof.
  simpl. split.
  - exists 3, [2; 1]. split; [done|]. cbn [walk]. split_and!; try done; vm_compute; set_solver.
  - eexists. split; [vm_compute; reflexivity|]. split; [reflexivity|]. by eexists.
Qed.
