(* ===== verification/DependencySpec.v ===== *)
(** * Properties of dependency resolution

    References that were parsed, the verdict of an issue as a function of its
    dependencies, and the pass over the open issues. *)

From S2P Require Import Prelude GoLib Json Types DB TaskQueue StoreIssue World Dependency Workflow StateMachine Frames Cycles Demo TaskQueueSpec.
From Stdlib Require Import Ascii.

(** ** Parsed references *)

(** An unsupported or invalid reference says so; any other is active and local. *)
Definition well_classified (repo : string) (d : ParsedDependency) : Prop :=
  (pd_Status d = DependencyStatusInvalid ∧ pd_Normalized d = EmptyString ∧ pd_IssueNum d = 0) ∨
  (0 < pd_IssueNum d ∧
   (pd_Status d = DependencyStatusActive ∧ pd_Repo d = repo ∨
    pd_Status d = DependencyStatusUnsupportedCrossRepo ∧ pd_Repo d ≠ repo) ∧
   (pd_Repo d ≠ EmptyString → pd_Normalized d = issueKey (pd_Repo d) (pd_IssueNum d))).

Lemma normalize_classified repo raw : well_classified repo (normalizeDependency repo raw).
Proof.
  unfold normalizeDependency, well_classified. cbv zeta.
  assert (∀ r num, 0 < num → 0 < num ∧
    ((if bool_decide (r = repo) then DependencyStatusActive else DependencyStatusUnsupportedCrossRepo)
       = DependencyStatusActive ∧ r = repo ∨
     (if bool_decide (r = repo) then DependencyStatusActive else DependencyStatusUnsupportedCrossRepo)
       = DependencyStatusUnsupportedCrossRepo ∧ r ≠ repo) ∧
    (r ≠ EmptyString →
     (if negb (bool_decide (r = EmptyString)) then r +:+ "#" +:+ itoa num else EmptyString) = issueKey r num)) as Hf.
  { intros r num Hn. split; [done|]. split; [case_bool_decide; auto|].
    intros Hr. by rewrite bool_decide_false. }
  destruct (local_ref _) as [digits|].
  - destruct (atoi digits) as [num|]; [|by left]. destruct (Z.leb_spec num 0); [by left|right].
    by apply Hf.
  - destruct (fq_ref _) as [[r digits]|]; [|by left].
    destruct (atoi digits) as [num|]; [|by left]. destruct (Z.leb_spec num 0); [by left|right].
    by apply Hf.
Qed.

Lemma collect_classified repo raws lines seen :
  Forall (well_classified repo) (collect_deps repo raws lines seen).
Proof.
  revert lines seen. induction raws as [|raw raws IH]; intros lines seen; cbn [collect_deps]; [constructor|].
  pose proof (normalize_classified repo raw) as Hw. set (parsed := normalizeDependency repo raw) in *.
  assert (∀ l, well_classified repo (set_line l parsed)) as Hl by (intros l; exact Hw).
  destruct (lines !! pd_Raw parsed) as [[|l rest]|]; repeat case_match; auto.
Qed.

Lemma parse_classified `{YamlLib} repo body :
  Forall (well_classified repo) (decl_Dependencies (ParseDeclaration repo body)).
Proof.
  unfold ParseDeclaration. generalize (yaml_fences (S (String.length body)) body 0) as fences.
  induction fences as [|[block before] fences IH]; [constructor|]. cbn [first_decl].
  destruct (yaml_depends_on block) as [[raws|]|]; [|exact IH..]. simpl.
  rewrite sort_by_perm. apply collect_classified.
Qed.

Lemma collect_nodup repo raws lines seen :
  NoDup (List.filter (λ s, negb (bool_decide (s = EmptyString))) (pd_Normalized <$> collect_deps repo raws lines seen)) ∧
  ∀ d, d ∈ collect_deps repo raws lines seen → pd_Normalized d ≠ EmptyString → pd_Normalized d ∉ seen.
Proof.
  revert lines seen. induction raws as [|raw raws IH]; intros lines seen; cbn [collect_deps].
  { split; [constructor|]. intros d Hd. by apply elem_of_nil in Hd. }
  match goal with |- context [let '(_, _) := ?p in _] => destruct p as [parsed lines'] end.
  destruct (bool_decide (pd_Normalized parsed = EmptyString)) eqn:En; cbn [negb].
  - destruct (IH lines' seen) as [Hnd Hs]. split.
    + cbn [fmap list_fmap List.filter]. by rewrite En.
    + intros d [->|Hd]%elem_of_cons; [by apply bool_decide_eq_true in En|by apply Hs].
  - destruct (bool_decide (pd_Normalized parsed ∈ seen)) eqn:Hin; [apply IH|].
    apply bool_decide_eq_false in Hin.
    destruct (IH lines' ({[pd_Normalized parsed]} ∪ seen)) as [Hnd Hs]. split.
    + cbn [fmap list_fmap List.filter]. rewrite En. cbn [negb]. apply NoDup_cons. split; [|done].
      intros Hx. apply list_elem_of_In, List.filter_In in Hx as [Hx Hne].
      apply list_elem_of_In, list_elem_of_fmap in Hx as (d & Hd & Hin').
      apply (Hs d Hin'); [|set_solver]. rewrite <-Hd. by apply bool_decide_eq_false in En.
    + intros d [->|Hd]%elem_of_cons Hne; [done|]. intros Hx. apply (Hs d Hd Hne). set_solver.
Qed.

(** Whatever the issue body and whatever the YAML parser reads from it:
    every declared dependency is either invalid, with no issue number, or it
    names a positive issue number and is active exactly when it is in the same
    repository; and no normalized reference occurs twice. *)
Theorem declaration_is_well_formed `{YamlLib} repo body :
  let deps := decl_Dependencies (ParseDeclaration repo body) in
  Forall (well_classified repo) deps ∧
  NoDup (List.filter (λ s, negb (bool_decide (s = EmptyString))) (pd_Normalized <$> deps)).
Proof.
  split; [apply parse_classified|].
  unfold ParseDeclaration. generalize (yaml_fences (S (String.length body)) body 0) as fences.
  induction fences as [|[block before] fences IH]; [constructor|]. cbn [first_decl].
  destruct (yaml_depends_on block) as [[raws|]|]; [|exact IH..]. simpl.
  assert (∀ (p : string → bool) l l', l ≡ₚ l' → List.filter p l ≡ₚ List.filter p l') as Hp.
  { intros p l l'. induction 1 as [|x l l'|x y l|]; simpl; repeat case_match; try done; [by constructor|constructor|by etrans]. }
  rewrite Hp; [|by rewrite sort_by_perm]. apply collect_nodup.
Qed.

(** ** The verdict *)

(** What one dependency asks for. *)
Inductive demand := Satisfied | Waits | Human.

Definition dep_demand (reader : IssueReader) (repo : string) (openIssues : gmap Z Issue)
    (d : ParsedDependency) : demand :=
  if bool_decide (pd_Status d = DependencyStatusActive) then
    match openIssues !! pd_IssueNum d with
    | Some i => if bool_decide (StatusDone ∈ is_Labels i) then Satisfied else Waits
    | None =>
        match reader repo (pd_IssueNum d) with
        | inl _ => Human
        | inr det => if bool_decide (id_State det = "closed")
                     then if id_ClosedByLinkedPR det then Satisfied else Waits
                     else Human
        end
    end
  else Human.

Definition is_human (x : demand) : bool := match x with Human => true | _ => false end.
Definition is_waiting (x : demand) : bool := match x with Waits => true | _ => false end.

(** The verdict in terms of the demands. *)
Definition verdict_of (override cyclic : bool) (ds : list demand) : string :=
  if override then DependencyVerdictOverride
  else if cyclic || existsb is_human ds then DependencyVerdictNeedsHuman
  else if existsb is_waiting ds then DependencyVerdictBlocked else DependencyVerdictReady.

(** The cache of closed issues agrees with the reader. *)
Definition cache_ok (reader : IssueReader) (repo : string) (m : gmap Z IssueDetails) : Prop :=
  ∀ n d, m !! n = Some d → reader repo n = inr d.

(** The verdict reached so far. *)
Definition acc_verdict (human waiting : bool) : string :=
  if human then DependencyVerdictNeedsHuman
  else if waiting then DependencyVerdictBlocked else DependencyVerdictReady.

Lemma acc_blocked_verdict human waiting r l m :
  ra_verdict (acc_blocked r (mkAcc (acc_verdict human waiting) l m)) = acc_verdict human true.
Proof. by destruct human, waiting. Qed.

Lemma classify_done labels :
  bool_decide (classifyOpenDependency labels = "done") = bool_decide (StatusDone ∈ labels).
Proof.
  unfold classifyOpenDependency, hasLabel. repeat case_bool_decide; try done; repeat case_match; done.
Qed.

Lemma resolve_dep_spec reader repo num issues a d w human waiting :
  well_classified repo d → cache_ok reader repo (ra_closed a) → ra_verdict a = acc_verdict human waiting →
  let r := (resolve_dep reader repo num issues a d w).1 in
  let x := dep_demand reader repo issues d in
  cache_ok reader repo (ra_closed r) ∧
  ra_verdict r = acc_verdict (human || is_human x) (waiting || is_waiting x).
Proof.
  destruct a as [v rs m]. cbn [ra_closed ra_verdict]. intros Hw Hm ->. cbv zeta.
  unfold resolve_dep, dep_demand. destruct Hw as [(Hst & _)|(_ & [[Hst Hr]|[Hst Hr]] & _)]; rewrite Hst.
  1,3: simpl; rewrite !orb_true_r; split; [done|]; done.
  rewrite (bool_decide_false (DependencyStatusActive = _)), (bool_decide_false (DependencyStatusActive = _)),
    (bool_decide_true (DependencyStatusActive = _)) by done.
  destruct (issues !! pd_IssueNum d) as [i|].
  - rewrite (bool_decide_true (pd_Repo d = repo)) by done. cbn [mret St_ret fst]. rewrite classify_done.
    case_bool_decide; cbn [is_human is_waiting]; rewrite ?orb_false_r, ?orb_true_r; (split; [done|]); [done|].
    apply acc_blocked_verdict.
  - unfold mbind, St_bind, read_closed. cbn [ra_closed ra_verdict ra_reasons].
    destruct (m !! pd_IssueNum d) as [det|] eqn:Em; [|rewrite (bool_decide_true (pd_Repo d = repo)) by done; cbn [negb]].
    + rewrite (Hm _ _ Em). cbn [mret St_ret fst]. unfold resolve_closed. cbn [fst snd].
      repeat case_match; cbn [is_human is_waiting ra_closed]; rewrite ?orb_false_r, ?orb_true_r;
        (split; [done|]); try done. apply acc_blocked_verdict.
    + destruct (reader repo (pd_IssueNum d)) as [err|det] eqn:Er.
      * destruct (IsRateLimit err); cbn; rewrite !orb_true_r; done.
      * assert (cache_ok reader repo (<[pd_IssueNum d := det]> m)) as Hm'.
        { intros n d' Hd. apply lookup_insert_Some in Hd as [[<- <-]|[_ Hd]]; [done|by apply Hm]. }
        cbn [mret St_ret fst]. unfold resolve_closed. cbn [fst snd].
        repeat case_match; cbn [is_human is_waiting ra_closed]; rewrite ?orb_false_r, ?orb_true_r;
          (split; [done|]); try done. apply acc_blocked_verdict.
Qed.

Lemma resolve_deps_spec reader repo num issues deps : ∀ a w human waiting,
  Forall (well_classified repo) deps → cache_ok reader repo (ra_closed a) →
  ra_verdict a = acc_verdict human waiting →
  let r := (resolve_deps reader repo num issues deps a w).1 in
  let xs := dep_demand reader repo issues <$> deps in
  cache_ok reader repo (ra_closed r) ∧
  ra_verdict r = acc_verdict (human || existsb is_human xs) (waiting || existsb is_waiting xs).
Proof.
  induction deps as [|d deps IH]; intros a w human waiting Hc Hm Hv; cbn [resolve_deps fmap list_fmap existsb].
  { rewrite !orb_false_r. done. }
  apply Forall_cons in Hc as [Hd Hc].
  destruct (resolve_dep_spec reader repo num issues a d w human waiting Hd Hm Hv) as [Hm' Hv'].
  unfold mbind, St_bind. destruct (IH _ (resolve_dep reader repo num issues a d w).2 _ _ Hc Hm' Hv') as [Hm'' Hv''].
  split; [done|]. rewrite Hv''. by rewrite !orb_assoc.
Qed.

(** The verdict the resolver should persist for an issue. *)
Definition expected_verdict `{YamlLib} (reader : IssueReader) (repo : string) (issues : gmap Z Issue)
    (cycle : list string) (i : Issue) : string :=
  verdict_of (bool_decide (OverrideLabel ∈ is_Labels i)) (negb (bool_decide (cycle = [])))
    (dep_demand reader repo issues <$> decl_Dependencies (ParseDeclaration repo (is_Body i))).

Lemma build_verdict `{YamlLib} E reader repo i gv cyc issues closed w :
  cache_ok reader repo closed →
  let r := (buildResolveResult E reader repo i (ParseDeclaration repo (is_Body i)) gv cyc issues closed w).1 in
  cache_ok reader repo r.2 ∧ ds_Verdict r.1 = expected_verdict reader repo issues cyc i ∧
  ds_Repo r.1 = repo ∧ ds_IssueNum r.1 = is_Number i.
Proof.
  intros Hm. unfold buildResolveResult. cbv zeta. unfold mbind, St_bind.
  set (start := match cyc with [] => _ | _ => _ end).
  assert (cache_ok reader repo (ra_closed start)) as Hs by by destruct cyc.
  assert (ra_verdict start = acc_verdict (negb (bool_decide (cyc = []))) false) as Hv by by destruct cyc.
  destruct (resolve_deps_spec reader repo (is_Number i) issues _ start w _ _ (parse_classified repo (is_Body i)) Hs Hv)
    as [Hm' Hv'].
  cbn [mret St_ret fst snd ds_Verdict ds_Repo ds_IssueNum]. split; [done|]. split; [|done].
  unfold expected_verdict, verdict_of, hasLabel. rewrite Hv'. unfold acc_verdict.
  destruct (bool_decide (OverrideLabel ∈ is_Labels i)); [done|].
  by destruct (negb (bool_decide (cyc = []))), (existsb is_human _), (existsb is_waiting _).
Qed.

(** ** The pass over the open issues *)

Definition depstates (w : World) : gmap (string * Z) IssueDependencyState := db_depstate (wd_db w).

Ltac depstates_leaf := intros; first [reflexivity | by split | repeat case_match; simplify_eq/=; reflexivity].

Lemma resolve_deps_store reader repo num issues deps a :
  keeps (same wd_db) (resolve_deps reader repo num issues deps a).
Proof.
  revert a. induction deps as [|d deps IH]; intros a; cbn [resolve_deps]; [apply keeps_ret; apply _|].
  apply keeps_bind; [apply _| |auto]. frame_auto depstates_leaf.
Qed.

Lemma build_store E reader repo i decl gv cyc issues closed :
  keeps (same wd_db) (buildResolveResult E reader repo i decl gv cyc issues closed).
Proof.
  unfold buildResolveResult. cbv zeta. apply keeps_bind; [apply _|apply resolve_deps_store|].
  intros a. apply keeps_ret, _.
Qed.

Lemma log_verdict_store E bus repo num gv prev st cyc :
  keeps (same wd_db) (log_verdict E bus repo num gv prev st cyc).
Proof. frame_auto depstates_leaf. Qed.

Lemma sync_issue_depstates `{YamlLib} E repo p : keeps (same depstates) (sync_issue E repo p).
Proof. frame_auto depstates_leaf. Qed.

Section pass.
Context `{YamlLib} (E : Env) (reader : IssueReader) (bus : bool) (repo : string) (gv : Z)
  (issues : gmap Z Issue) (cycles : gmap Z (list string)).
Hypothesis Hquiet : quiet E.

Definition verdict_at (num : Z) (i : Issue) : string :=
  expected_verdict reader repo issues (default [] (cycles !! num)) i.

(** What the pass makes of an issue's row: an issue with neither a
    declaration nor a row stays without one. *)
Definition row_after (prev new : option IssueDependencyState) (num : Z) (i : Issue) : Prop :=
  if decl_HasBlock (issue_decl repo i) || bool_decide (is_Some prev)
  then ∃ s, new = Some s ∧ ds_Verdict s = verdict_at num i else new = None.

(** The issues it reports as unblocked: gated before, not any more. *)
Definition unblocks (prev : option IssueDependencyState) (num : Z) (i : Issue) : Prop :=
  ∃ q, prev = Some q ∧ gated (ds_Verdict q) = true ∧ gated (verdict_at num i) = false.

Lemma verdict_at_not_gated num i :
  gated (verdict_at num i) = false ↔
  (bool_decide (verdict_at num i = DependencyVerdictReady)
   || bool_decide (verdict_at num i = DependencyVerdictOverride)) = true.
Proof.
  unfold verdict_at, expected_verdict, verdict_of, gated. by repeat case_match.
Qed.

Lemma log_verdict_value num prev st cyc w :
  ((log_verdict E bus repo num gv prev st cyc) w).1 = true ↔
  ∃ q, prev = Some q ∧ gated (ds_Verdict q) = true ∧
    (bool_decide (ds_Verdict st = DependencyVerdictReady)
     || bool_decide (ds_Verdict st = DependencyVerdictOverride)) = true.
Proof.
  unfold log_verdict. cbv zeta. unfold mbind, St_bind. cbn [mret St_ret fst].
  destruct prev as [q|]; [|rewrite andb_false_r; split; [done|by intros (? & [=] & _)]].
  rewrite !andb_true_iff. split; [intros (_ & Hg & Hv); by exists q|].
  intros (? & [= <-] & Hg & Hv). split_and!; [|done..].
  rewrite (bool_decide_false (ds_Verdict q = ds_Verdict st)); [done|].
  intros Hq. rewrite Hq in Hg. unfold gated in Hg.
  apply orb_true_iff in Hv as [Hv%bool_decide_eq_true|Hv%bool_decide_eq_true]; by rewrite Hv in Hg.
Qed.

Lemma query_depstate num w :
  ∃ w', lift (QueryIssueDependencyState E repo num) w = (Ok (depstates w !! (repo, num)), w') ∧
        depstates w' = depstates w.
Proof.
  unfold lift, QueryIssueDependencyState, wrapE, mbind, St_bind, sql_query.
  rewrite sql_quiet by done. by eexists.
Qed.

Lemma upsert_depstate st w :
  let r := lift (UpsertIssueDependencyState E st) w in
  r.1 = Ok tt ∧ ∃ s, depstates r.2 = <[(ds_Repo st, ds_IssueNum st) := s]> (depstates w) ∧
                     ds_Verdict s = ds_Verdict st.
Proof.
  cbv zeta. unfold lift, UpsertIssueDependencyState, wrapE, mbind, St_bind.
  rewrite sql_quiet by done. split; [done|]. eexists. split; [reflexivity|done].
Qed.

Lemma evaluate_issue_spec num i acc w :
  is_Number i = num → cache_ok reader repo acc.1 →
  let prev := depstates w !! (repo, num) in
  let r := evaluate_issue E reader bus (λ _, false) repo gv issues cycles num i acc w in
  ∃ acc' new, r.1 = Ok acc' ∧ cache_ok reader repo acc'.1 ∧
    depstates r.2 = partial_alter (λ _, new) (repo, num) (depstates w) ∧ row_after prev new num i ∧
    ∀ n, n ∈ acc'.2 ↔ n ∈ acc.2 ∨ n = num ∧ unblocks prev num i.
Proof.
  intros Hnum Hc. cbv zeta. unfold evaluate_issue, bindE, mbind, St_bind. cbv beta zeta iota.
  destruct (build_verdict E reader repo i gv (default [] (cycles !! num)) issues acc.1 w Hc)
    as (Hc' & Hv & Hrepo & Hn).
  pose proof (build_store E reader repo i (issue_decl repo i) gv (default [] (cycles !! num)) issues acc.1 w) as Hdb.
  fold (issue_decl repo i) in Hc', Hv, Hrepo, Hn. unfold same in Hdb.
  destruct (buildResolveResult _ _ _ _ _ _ _ _ _ w) as [[st closed] w1]. cbn [fst snd] in *.
  fold (verdict_at num i) in Hv.
  destruct (query_depstate num w1) as (w2 & Hq & Hw2).
  replace (depstates w1) with (depstates w) in Hq, Hw2 by (unfold depstates; by rewrite Hdb).
  rewrite Hq. cbn [fst snd].
  set (prev := depstates w !! (repo, num)).
  destruct (negb (decl_HasBlock _) && _) eqn:Eb.
  - apply andb_true_iff in Eb as [Hb%negb_true_iff Hp%negb_true_iff%bool_decide_eq_false].
    apply eq_None_not_Some in Hp. exists (closed, acc.2), None. cbn [fst snd mret St_ret].
    split_and!; [done..| | |].
    + rewrite Hw2. symmetry. by apply partial_alter_id.
    + unfold row_after. rewrite Hb, Hp. done.
    + intros n. unfold unblocks. rewrite Hp. naive_solver.
  - set (st' := match prev with Some _ => _ | None => _ end).
    assert (ds_Verdict st' = verdict_at num i ∧ ds_Repo st' = repo ∧ ds_IssueNum st' = num) as (Hv' & Hr' & Hn').
    { subst st'. rewrite <-Hv, <-Hrepo, <-Hnum, <-Hn. by repeat case_match. }
    destruct (upsert_depstate st' w2) as [Hok (s & Hs & Hsv)].
    destruct (lift _ w2) as [r w3]. cbn [fst snd] in Hok, Hs. subst r. cbn [fst snd].
    pose proof (log_verdict_value num prev st' (cycles !! num) w3) as Hlv.
    pose proof (log_verdict_store E bus repo num gv prev st' (cycles !! num) w3) as Hl.
    destruct (log_verdict _ _ _ _ _ _ _ _ w3) as [u w4]. cbn [fst snd mret St_ret] in *.
    exists (closed, if u then acc.2 ++ [num] else acc.2), (Some s). split_and!; [done..| | |].
    + unfold depstates. rewrite Hl. fold (depstates w3). by rewrite Hs, Hw2, Hr', Hn'.
    + unfold row_after. replace (decl_HasBlock _ || _) with true; [exists s; by rewrite Hsv, Hv'|].
      by destruct (decl_HasBlock _), (bool_decide _).
    + intros n. rewrite Hv' in Hlv. pose proof (verdict_at_not_gated num i) as Hg. unfold unblocks. cbn [snd].
      destruct u; [rewrite elem_of_app, list_elem_of_singleton|]; naive_solver.
Qed.

Lemma evaluate_loop_spec l : ∀ acc w,
  NoDup l.*1 → Forall (λ p, is_Number p.2 = p.1) l → cache_ok reader repo acc.1 →
  let r := evaluate_loop E reader bus (λ _, false) repo gv issues cycles l acc w in
  ∃ out, r.1 = Ok out ∧
    (∀ r' n, r' ≠ repo ∨ n ∉ l.*1 → depstates r.2 !! (r', n) = depstates w !! (r', n)) ∧
    (∀ n i, (n, i) ∈ l → row_after (depstates w !! (repo, n)) (depstates r.2 !! (repo, n)) n i) ∧
    ∀ n, n ∈ out ↔ n ∈ acc.2 ∨ ∃ i, (n, i) ∈ l ∧ unblocks (depstates w !! (repo, n)) n i.
Proof.
  induction l as [|[num i] l IH]; intros acc w Hnd Hf Hc; cbn [evaluate_loop].
  { exists acc.2. split_and!; [done..| |]; [by intros ? ? ?%elem_of_nil|].
    intros n. split; [auto|]. intros [?|(? & ?%elem_of_nil & _)]; done. }
  apply NoDup_cons in Hnd as [Hnum Hnd]. apply Forall_cons in Hf as [Hi Hf]. cbn [fst snd] in *.
  destruct (evaluate_issue_spec num i acc w Hi Hc) as (acc' & new & Hok & Hc' & Hds & Hrow & Hout).
  cbn [fst snd]. unfold bindE, mbind, St_bind. destruct (evaluate_issue _ _ _ _ _ _ _ _ _ _ _ w) as [r w1].
  cbn [fst snd] in *. subst r.
  destruct (IH acc' w1 Hnd Hf Hc') as (out & Hok' & Hsame & Hrows & Hout'). exists out.
  assert (∀ n, n ≠ num → depstates w1 !! (repo, n) = depstates w !! (repo, n)) as Hother.
  { intros n Hn. rewrite Hds. apply lookup_partial_alter_ne. congruence. }
  assert (∀ n j, (n, j) ∈ l → n ≠ num) as Hl.
  { intros n j Hj ->. apply Hnum. by apply (list_elem_of_fmap_2 fst _ (num, j)). }
  split_and!; [done| | |].
  - intros r' n Hn. rewrite Hsame by set_solver. rewrite Hds. apply lookup_partial_alter_ne. set_solver.
  - intros n j [[= -> ->]|Hj]%elem_of_cons.
    + rewrite Hsame by auto. rewrite Hds, lookup_partial_alter_eq. done.
    + rewrite <-Hother by eauto. by apply Hrows.
  - intros n. rewrite Hout', Hout. split.
    + intros [[?|[-> ?]]|(j & Hj & Hu)]; [by left|right; exists i; set_solver|].
      right. exists j. rewrite Hother in Hu by eauto. set_solver.
    + intros [?|(j & [[= -> ->]|Hj]%elem_of_cons & Hu)]; [auto..|].
      right. exists j. rewrite Hother by eauto. done.
Qed.
End pass.

(** Every open issue is filed under its own number. *)
Lemma open_issues_number caches n i : open_issues caches !! n = Some i → is_Number i = n.
Proof.
  unfold open_issues. generalize (List.filter (λ ic, bool_decide (ic_State ic = "open")) caches) as l.
  intros l. assert (∀ m : gmap Z Issue, (∀ n i, m !! n = Some i → is_Number i = n) →
    ∀ n i, foldl (λ m ic, <[ic_IssueNum ic := mkIssue (ic_IssueNum ic) EmptyString (ic_State ic)
             (labelsFromJSON (ic_Labels ic)) (ic_Body ic) EmptyString]> m) m l !! n = Some i → is_Number i = n) as Hl.
  { induction l as [|ic l IH]; intros m Hm; simpl; [done|]. apply IH.
    intros n' i' [[<- <-]|[_ Hi]]%lookup_insert_Some; [done|by apply Hm]. }
  apply Hl. intros ? ?. by rewrite lookup_empty.
Qed.

Lemma perm_issue_list (issues : gmap Z Issue) (l : list (Z * Issue)) :
  l ≡ₚ map_to_list issues → (∀ n i, issues !! n = Some i → is_Number i = n) →
  NoDup l.*1 ∧ Forall (λ p, is_Number p.2 = p.1) l ∧ ∀ n i, (n, i) ∈ l ↔ issues !! n = Some i.
Proof.
  intros Hl Hn.
  assert (∀ n i, (n, i) ∈ l ↔ issues !! n = Some i) as Hin.
  { intros n i. rewrite Hl. apply elem_of_map_to_list. }
  split_and!; [|apply Forall_forall; intros [n i] Hp; by apply Hn, Hin|done].
  rewrite Hl. apply NoDup_fst_map_to_list.
Qed.

(** The sync loop only touches hazards and dependency rows. *)
Lemma sync_loop_ok `{YamlLib} E repo l w :
  quiet E → let r := forE l (sync_issue E repo) w in r.1 = Ok tt ∧ depstates r.2 = depstates w.
Proof.
  intros HE. split; [|refine (keeps_forE (same depstates) l _ (sync_issue_depstates E repo) w)].
  assert (never_fails (forE l (sync_issue E repo))) as Hn by never_auto.
  destruct (never_fails_ok _ w Hn) as [[] Hok]. exact Hok.
Qed.

Lemma open_issues_pass `{YamlLib} (E : Env) (reader : IssueReader) (bus : bool)
    (order1 order2 : list (Z * Issue) → list (Z * Issue)) (repo : string) (gv : Z) (w : World) :
  quiet E → (∀ l, order1 l ≡ₚ l) → (∀ l, order2 l ≡ₚ l) →
  ∃ caches w' out, lift (ListIssueCaches E repo) w = (Ok caches, w') ∧
  let issues := open_issues caches in
  let cycles := default ∅ (detectCycles (issue_graph repo issues)) in
  let r := EvaluateOpenIssues E reader bus order1 order2 (λ _, false) repo gv w in
  r.1 = Ok out ∧
  (∀ n i, issues !! n = Some i →
     row_after reader repo issues cycles (depstates w !! (repo, n)) (depstates r.2 !! (repo, n)) n i) ∧
  (∀ r' n, r' ≠ repo ∨ issues !! n = None → depstates r.2 !! (r', n) = depstates w !! (r', n)) ∧
  (∀ n, n ∈ out ↔ ∃ i, issues !! n = Some i ∧ unblocks reader repo issues cycles (depstates w !! (repo, n)) n i).
Proof.
  intros HE Ho1 Ho2. unfold EvaluateOpenIssues, bindE, mbind, St_bind.
  destruct (lift (ListIssueCaches E repo) w) as [rc w'] eqn:Ec.
  assert (∃ caches, rc = Ok caches) as [caches ->].
  { replace rc with (lift (ListIssueCaches E repo) w).1 by by rewrite Ec. apply never_fails_ok. never_auto. }
  assert (depstates w' = depstates w) as Hw'.
  { replace w' with (lift (ListIssueCaches E repo) w).2 by by rewrite Ec.
    assert (keeps (same depstates) (lift (ListIssueCaches E repo))) as Hk by frame_auto depstates_leaf. apply Hk. }
  exists caches, w'. cbn [fst snd]. set (issues := open_issues caches).
  destruct (sync_loop_ok E repo (order1 (map_to_list issues)) w' HE) as [Hs1 Hs2].
  destruct (forE (order1 (map_to_list issues)) (sync_issue E repo) w') as [rs w2]. cbn [fst snd] in *. subst rs.
  destruct (perm_issue_list issues _ (Ho2 _) (open_issues_number caches)) as (Hnd & Hf & Hin).
  destruct (evaluate_loop_spec E reader bus repo gv issues (default ∅ (detectCycles (issue_graph repo issues)))
    HE (order2 (map_to_list issues)) (∅, []) w2 Hnd Hf) as (out & Hok & Hsame & Hrows & Hout); [done|].
  exists out. split; [done|]. rewrite Hs2, Hw' in *. split_and!; [done| | |].
  - intros n i Hi. apply Hrows. by apply Hin.
  - intros r' n [Hr|Hn]; apply Hsame; [by left|right]. intros ([n' i] & -> & Hi%Hin)%list_elem_of_fmap. simpl in *. congruence.
  - intros n. rewrite Hout. set_solver by naive_solver.
Qed.

(** C8: A pass over the open issues with no failing statement and no
    cancellation returns, whatever the iteration order of the two loops.  Every
    open issue that declares dependencies, or that had a verdict, ends with the
    verdict its dependencies call for; issues that are not open, and other
    repositories, keep their row; and the issues reported as unblocked are
    exactly those whose row was gated and no longer is. *)
Theorem pass_records_verdicts `{YamlLib} (E : Env) (reader : IssueReader) (bus : bool)
    (order1 order2 : list (Z * Issue) → list (Z * Issue)) (repo : string) (gv : Z) (w : World) :
  quiet E → (∀ l, order1 l ≡ₚ l) → (∀ l, order2 l ≡ₚ l) →
  ∃ caches w' out, lift (ListIssueCaches E repo) w = (Ok caches, w') ∧
  let issues := open_issues caches in
  let cycles := default ∅ (detectCycles (issue_graph repo issues)) in
  let r := EvaluateOpenIssues E reader bus order1 order2 (λ _, false) repo gv w in
  r.1 = Ok out ∧
  (∀ n i, issues !! n = Some i →
     row_after reader repo issues cycles (depstates w !! (repo, n)) (depstates r.2 !! (repo, n)) n i) ∧
  (∀ r' n, r' ≠ repo ∨ issues !! n = None → depstates r.2 !! (r', n) = depstates w !! (r', n)) ∧
  (∀ n, n ∈ out ↔ ∃ i, issues !! n = Some i ∧ unblocks reader repo issues cycles (depstates w !! (repo, n)) n i).
Proof. apply open_issues_pass. Qed.

(** ** Examples *)

Definition demo_reader : IssueReader := λ _ _, inl "not found".

Lemma pass_records_verdicts_witness :
  ∃ s, depstates (EvaluateOpenIssues (demo_env 0) demo_reader true reverse (λ l, l) (λ _, false) "o/r" 7 dep_world).2
         !! ("o/r", 1) = Some s ∧ ds_Verdict s = DependencyVerdictBlocked.
Proof.
  destruct (pass_records_verdicts (demo_env 0) demo_reader true reverse (λ l, l) "o/r" 7 dep_world)
    as (caches & w' & out & Hl & _ & Hrows & _); [done|apply reverse_Permutation|done|].
  vm_compute in Hl. injection Hl as <- _.
  assert (row_after demo_reader "o/r" _ _ _ _ 1 (mkIssue 1 EmptyString "open" [] fence_block EmptyString)) as Hrow
    by (apply Hrows; vm_compute; reflexivity).
  unfold row_after in Hrow.
  replace (decl_HasBlock _ || _) with true in Hrow by (vm_compute; reflexivity).
  destruct Hrow as (s & Hs & Hv). exists s. split; [exact Hs|]. rewrite Hv. vm_compute. reflexivity.
Defined.
