(* ===== verification/PollerSpec.v ===== *)
(** * Properties of the poller

    What a cycle reports, what it leaves in the cache, and that a cycle which
    cannot read GitHub changes nothing. *)

From S2P Require Import Prelude GoLib Json Types DB TaskQueue TaskQueueSpec IssueClaim StoreIssue World Dependency Poller.
From Stdlib Require Import Ascii.

(** ** The collect phase only reads *)

(** The store without its statement counter. *)
Definition tables (d : DB) : DB := upd_db_calls (λ _, 0%nat) d.

(** Everything a cycle may change for good. *)
Definition poll_view (s : PollState) := (tables (wd_db (po_world s)), po_lastResyncAt s, po_events s).

Lemma keeps_on_world {A V} (f : PollState → V) (m : St World A) :
  (∀ s, f (upd_po_world (λ _, (m (po_world s)).2) s) = f s) → keeps (same f) (on_world m).
Proof. intros H s. apply H. Qed.

Lemma view_query {A} E (q : DB → A) : keeps (same poll_view) (on_world (lift (sql_query E q))).
Proof.
  apply keeps_on_world. intros s. unfold poll_view, lift, sql_query, sql.
  by destruct (e_fault E _).
Qed.
Lemma view_query_wrap {A} E ctx (q : DB → A) :
  keeps (same poll_view) (on_world (lift (wrapE ctx (sql_query E q)))).
Proof. exact (view_query E q). Qed.
Lemma view_log ty repo num l : keeps (same poll_view) (on_world (Log ty repo num l)).
Proof. by apply keeps_on_world. Qed.
Lemma view_check cancelled : keeps (same poll_view) (ctx_err cancelled).
Proof. done. Qed.
#[local] Hint Resolve view_query view_query_wrap view_log view_check : frame.

Section collect.
Context (E : Env) (gh : GHReader) (cancelled : nat → bool) (repo : string) (interval : Z).

Lemma view_failed scope err : keeps (same poll_view) (list_failed repo scope err).
Proof.
  unfold list_failed, logRateLimitEvent, applyBackoff. keep_auto. by apply keeps_modS.
Qed.
Lemma view_plan_issue iss : keeps (same poll_view) (planDiffIssue E repo iss).
Proof. unfold planDiffIssue, QueryIssueCache. keep_auto. Qed.
Lemma view_plan_pr pr : keeps (same poll_view) (planDiffPR E repo pr).
Proof. unfold planDiffPR, QueryIssueCache. keep_auto. Qed.
#[local] Hint Resolve view_failed view_plan_issue view_plan_pr : frame.

Lemma view_issues issues p : keeps (same poll_view) (plan_issues E cancelled repo issues p).
Proof. revert p. induction issues as [|iss issues IH]; intros p; cbn [plan_issues]; keep_auto. Qed.
Lemma view_prs prs p : keeps (same poll_view) (plan_prs E cancelled repo prs p).
Proof. revert p. induction prs as [|pr prs IH]; intros p; cbn [plan_prs]; keep_auto. Qed.
Lemma view_closed seen nums p : keeps (same poll_view) (plan_closed cancelled repo seen nums p).
Proof. revert p. induction nums as [|n nums IH]; intros p; cbn [plan_closed]; keep_auto. Qed.
#[local] Hint Resolve view_issues view_prs view_closed : frame.

Lemma view_collect : keeps (same poll_view) (collect E gh cancelled repo interval).
Proof. unfold collect, plan_closes, plan_resyncs, ListCachedIssueNums. keep_auto. Qed.
End collect.

Definition list_error (gh : GHReader) (err : string) : Prop :=
  gh_ListIssues gh = inl err ∨ (gh_ListPRs gh = inl err ∧ is_Some (match gh_ListIssues gh with inr l => Some l | _ => None end)).

Lemma plan_issues_backoff E cancelled repo issues p :
  keeps (same po_backoff) (plan_issues E cancelled repo issues p).
Proof.
  revert p. induction issues as [|iss issues IH]; intros p; cbn [plan_issues]; unfold planDiffIssue; keep_auto;
    first [done | by apply keeps_on_world | apply IH].
Qed.

Lemma collect_failed E gh cancelled repo interval s err :
  list_error gh err →
  (collect E gh cancelled repo interval s).1 = None ∧
  (po_backoff (collect E gh cancelled repo interval s).2 = po_backoff s ∨
   IsRateLimit err = true ∧ po_backoff (collect E gh cancelled repo interval s).2 = next_backoff (po_backoff s)).
Proof.
  assert (∀ scope s0, po_backoff (list_failed repo scope err s0).2 = po_backoff s0 ∨
    IsRateLimit err = true ∧ po_backoff (list_failed repo scope err s0).2 = next_backoff (po_backoff s0)) as Hf.
  { intros scope s0. unfold list_failed. destruct (IsRateLimit err); [right|left]; done. }
  intros [Hi|[Hp [issues Hi]]].
  - unfold collect. rewrite Hi. unfold mbind, St_bind. split; [done|]. apply Hf.
  - destruct (gh_ListIssues gh) as [|l] eqn:El; [done|]. injection Hi as ->. unfold collect. rewrite El, Hp.
    pose proof (plan_issues_backoff E cancelled repo issues (mkPlan [] [] [] [])) as Hk.
    specialize (Hk s). unfold same in Hk. unfold mbind, St_bind.
    destruct (plan_issues _ _ _ _ _ s) as [[p|] s1]; cbn [fst snd] in *.
    + split; [done|]. rewrite <-Hk. apply Hf.
    + split; [done|]. by left.
Qed.

(** A cycle that cannot list the issues or the pull requests changes
    nothing that matters: the store, the resync gate and the event stream are
    as they were, so what it saw is reported by a later cycle; only the backoff
    may move, and only on a rate limit, within its bounds. *)
Theorem failed_listing_changes_nothing E gh cancelled repo interval s err :
  list_error gh err → 0 <= po_backoff s <= maxBackoff →
  let s' := (poll E gh cancelled repo interval s).2 in
  poll_view s' = poll_view s ∧ 0 <= po_backoff s' <= maxBackoff ∧
  (IsRateLimit err = false → po_backoff s' = po_backoff s).
Proof.
  intros He Hb. destruct (collect_failed E gh cancelled repo interval s err He) as [Hn Hbo].
  pose proof (view_collect E gh cancelled repo interval s) as Hv. unfold same in Hv. cbv zeta.
  unfold poll, mbind, St_bind. rewrite Hn. cbn [fst snd mret St_ret]. split; [done|].
  unfold next_backoff, maxBackoff, minute, second in *.
  destruct Hbo as [->|[Hr ->]]; [done|]. split; [case_match; lia|]. intros. congruence.
Qed.

(** ** A complete cycle *)

Definition cached (repo : string) (s : PollState) (n : Z) : option IssueCache :=
  db_cache (wd_db (po_world s)) !! (repo, n).

Section complete.
Context (E : Env) (cancelled : nat → bool) (repo : string) (interval : Z).
Hypothesis Hquiet : quiet E.
Hypothesis Hctx : ∀ n, cancelled n = false.

Lemma view_cached s s' : poll_view s' = poll_view s → ∀ n, cached repo s' n = cached repo s n.
Proof. intros Hv n. exact (f_equal (λ v, db_cache v.1.1 !! (repo, n)) Hv). Qed.

Lemma check_ok s : ctx_err cancelled s = (false, upd_po_checks S s).
Proof. unfold ctx_err, mbind, St_bind, getsS, modS. cbn [fst snd mret St_ret]. by rewrite Hctx. Qed.

(** What a plan gains from one issue. *)
Definition add_issue (c : Z → option IssueCache) (p : Plan) (iss : Issue) : Plan :=
  let row := scan_cache <$> c (is_Number iss) in
  let labelled := negb (bool_decide (is_Labels iss = [])) in
  mkPlan (pl_pending p ++ issue_events repo row iss) (pl_ops p ++ [OpUpsert (issue_row repo iss)])
    (if bool_decide (is_Some row) && labelled then pl_candidates p ++ [iss] else pl_candidates p)
    (if negb (bool_decide (is_Some row)) && labelled then pl_first p ++ [is_Number iss] else pl_first p).
Definition add_pr (c : Z → option IssueCache) (p : Plan) (pr : PR) : Plan :=
  plan_more (pr_events repo (scan_cache <$> c (pr_Number pr)) pr) [OpUpsert (pr_row repo pr)] p.

Lemma query_cache_ok n s :
  ∃ s', on_world (lift (QueryIssueCache E repo n)) s = (Ok (scan_cache <$> cached repo s n), s') ∧
        poll_view s' = poll_view s.
Proof.
  exists (on_world (lift (QueryIssueCache E repo n)) s).2. split; [|apply view_query_wrap].
  unfold on_world, lift, QueryIssueCache, wrapE, mbind, St_bind, sql_query. by rewrite sql_quiet.
Qed.

Lemma plan_issues_ok issues : ∀ p s,
  ∃ s', plan_issues E cancelled repo issues p s = (Some (foldl (add_issue (cached repo s)) p issues), s') ∧
        poll_view s' = poll_view s.
Proof.
  induction issues as [|iss issues IH]; intros p s; cbn [plan_issues foldl]; [by eexists|].
  unfold mbind at 1, St_bind at 1. rewrite check_ok. cbn [fst snd].
  destruct (query_cache_ok (is_Number iss) (upd_po_checks S s)) as (s1 & Hq & Hv).
  unfold mbind, St_bind, planDiffIssue, mbind, St_bind. rewrite Hq. cbn [fst snd mret St_ret].
  destruct (IH (add_issue (cached repo s) p iss) s1) as (s2 & Hi & Hv2). exists s2.
  assert (poll_view s1 = poll_view s) as Hs1 by by rewrite Hv. split; [|by rewrite Hv2].
  rewrite <-(foldl_ext (add_issue (cached repo s1))); [exact Hi|].
  intros p' iss'. unfold add_issue. by rewrite (view_cached s s1 Hs1).
Qed.

Lemma plan_prs_ok prs : ∀ p s,
  ∃ s', plan_prs E cancelled repo prs p s = (Some (foldl (add_pr (cached repo s)) p prs), s') ∧
        poll_view s' = poll_view s.
Proof.
  induction prs as [|pr prs IH]; intros p s; cbn [plan_prs foldl]; [by eexists|].
  unfold mbind at 1, St_bind at 1. rewrite check_ok. cbn [fst snd].
  destruct (query_cache_ok (pr_Number pr) (upd_po_checks S s)) as (s1 & Hq & Hv).
  unfold mbind, St_bind, planDiffPR, mbind, St_bind. rewrite Hq. cbn [fst snd mret St_ret].
  destruct (IH (add_pr (cached repo s) p pr) s1) as (s2 & Hi & Hv2). exists s2.
  assert (poll_view s1 = poll_view s) as Hs1 by by rewrite Hv. split; [|by rewrite Hv2].
  rewrite <-(foldl_ext (add_pr (cached repo s1))); [exact Hi|].
  intros p' pr'. unfold add_pr. by rewrite (view_cached s s1 Hs1).
Qed.

Lemma plan_closed_ok seen nums : ∀ p s,
  let gone := List.filter (λ n, negb (bool_decide (n ∈ seen))) nums in
  ∃ s', plan_closed cancelled repo seen nums p s
          = (Some (plan_more (closed_event repo <$> gone) (OpClosed <$> gone) p), s') ∧
        poll_view s' = poll_view s.
Proof.
  induction nums as [|n nums IH]; intros p s; cbn [plan_closed List.filter].
  { eexists. split; [|reflexivity]. unfold plan_more. destruct p. simpl. by rewrite !app_nil_r. }
  unfold mbind, St_bind. rewrite check_ok. cbn [fst snd].
  destruct (bool_decide (n ∈ seen)); cbn [negb].
  - destruct (IH p (upd_po_checks S s)) as (s' & Hp & Hv). exists s'. by split.
  - destruct (IH (plan_more [closed_event repo n] [OpClosed n] p) (upd_po_checks S s)) as (s' & Hp & Hv).
    exists s'. split; [|done]. rewrite Hp. unfold plan_more. cbn. by rewrite <-!app_assoc.
Qed.

(** The plan of a whole cycle, in closed form. *)
Definition known (c : Z → option IssueCache) (iss : Issue) : bool := bool_decide (is_Some (c (is_Number iss))).
Definition labelled (iss : Issue) : bool := negb (bool_decide (is_Labels iss = [])).

Lemma fold_issues c issues : ∀ p,
  foldl (add_issue c) p issues =
  mkPlan (pl_pending p ++ (issues ≫= λ iss, issue_events repo (scan_cache <$> c (is_Number iss)) iss))
    (pl_ops p ++ (OpUpsert <$> (issue_row repo <$> issues)))
    (pl_candidates p ++ List.filter (λ iss, known c iss && labelled iss) issues)
    (pl_first p ++ (is_Number <$> List.filter (λ iss, negb (known c iss) && labelled iss) issues)).
Proof.
  induction issues as [|iss issues IH]; intros p; simpl; [rewrite !app_nil_r; by destruct p|].
  rewrite IH. cbn [pl_pending pl_ops pl_candidates pl_first add_issue].
  assert (bool_decide (is_Some (scan_cache <$> c (is_Number iss))) = known c iss) as ->.
  { unfold known. apply bool_decide_ext. by rewrite fmap_is_Some. }
  fold (labelled iss). rewrite <-!app_assoc.
  by destruct (known c iss), (labelled iss); cbn; rewrite <-?app_assoc.
Qed.

Lemma fold_prs c prs : ∀ p,
  foldl (add_pr c) p prs =
  plan_more (prs ≫= λ pr, pr_events repo (scan_cache <$> c (pr_Number pr)) pr)
    (OpUpsert <$> (pr_row repo <$> prs)) p.
Proof.
  induction prs as [|pr prs IH]; intros p; simpl; [unfold plan_more; rewrite !app_nil_r; by destruct p|].
  rewrite IH. unfold add_pr, plan_more. cbn. by rewrite <-!app_assoc.
Qed.

(** The cached issues that are no longer listed. *)
Definition cached_nums (s : PollState) : list Z :=
  omap (λ p : string * Z * IssueCache,
          if bool_decide (p.1.1 = repo) && negb (is_pr_state (ic_State p.2)) then Some p.1.2 else None)
       (map_to_list (db_cache (wd_db (po_world s)))).
Definition gone (issues : list Issue) (prs : list PR) (s : PollState) : list Z :=
  if ghListLimit <=? Z.of_nat (length issues) then []
  else List.filter (λ n, negb (bool_decide (n ∈ (list_to_set ((is_Number <$> issues) ++ (pr_Number <$> prs)) : gset Z))))
         (cached_nums s).

Lemma elem_of_gone issues prs s n :
  n ∈ gone issues prs s ↔
  Z.of_nat (length issues) < ghListLimit ∧ n ∉ is_Number <$> issues ∧ n ∉ pr_Number <$> prs ∧
  ∃ c, cached repo s n = Some c ∧ is_pr_state (ic_State c) = false.
Proof.
  unfold gone. destruct (Z.leb_spec ghListLimit (Z.of_nat (length issues))) as [Hl|Hl].
  { split; [by intros ?%elem_of_nil|]. lia. }
  rewrite elem_of_filter_bool. unfold cached_nums. rewrite list_elem_of_omap.
  rewrite negb_true_iff, bool_decide_eq_false, elem_of_list_to_set, elem_of_app. split.
  - intros [([[r m] c] & Hin & Hm) Hs]. apply elem_of_map_to_list in Hin. cbn [fst snd] in *.
    case_bool_decide as Hr; [|done]. subst r. destruct (is_pr_state (ic_State c)) eqn:Hp; [done|].
    injection Hm as ->. split_and!; [done|tauto|tauto|]. by exists c.
  - intros (_ & H1 & H2 & c & Hc & Hp). split; [|tauto]. exists (repo, n, c).
    split; [by apply elem_of_map_to_list|]. cbn. by rewrite bool_decide_true, Hp by done.
Qed.

Definition due (s : PollState) (issues : list Issue) : list Issue :=
  List.filter (resync_due E interval (po_lastResyncAt s))
    (List.filter (λ iss, known (cached repo s) iss && labelled iss) issues).

(** Every event of the cycle but the last, and every update. *)
Definition reported (s : PollState) (issues : list Issue) (prs : list PR) : list ChangeEvent :=
  (issues ≫= λ iss, issue_events repo (scan_cache <$> cached repo s (is_Number iss)) iss) ++
  (prs ≫= λ pr, pr_events repo (scan_cache <$> cached repo s (pr_Number pr)) pr) ++
  (closed_event repo <$> gone issues prs s) ++
  ((λ iss, issue_event repo EventIssueResynced iss (is_Title iss)) <$> due s issues).
Definition updates (s : PollState) (issues : list Issue) (prs : list PR) : list cacheOp :=
  (OpUpsert <$> (issue_row repo <$> issues)) ++ (OpUpsert <$> (pr_row repo <$> prs)) ++
  (OpClosed <$> gone issues prs s) ++
  (OpResynced <$> (is_Number <$> due s issues)) ++
  (OpResynced <$> (is_Number <$> List.filter (λ iss, negb (known (cached repo s) iss) && labelled iss) issues)).

Lemma collect_ok issues prs s :
  ∃ p s', collect E (mkReader (inr issues) (inr prs)) cancelled repo interval s = (Some p, s') ∧
    poll_view s' = poll_view s ∧ pl_pending p = reported s issues prs ∧ pl_ops p = updates s issues prs.
Proof.
  unfold collect. cbn [gh_ListIssues gh_ListPRs]. unfold mbind, St_bind.
  destruct (plan_issues_ok issues (mkPlan [] [] [] []) s) as (s1 & H1 & V1). rewrite H1. cbn [fst snd].
  destruct (plan_prs_ok prs (foldl (add_issue (cached repo s)) (mkPlan [] [] [] []) issues) s1) as (s2 & H2 & V2).
  rewrite H2. cbn [fst snd]. rewrite (foldl_ext _ (add_pr (cached repo s))) in *
    by (intros; unfold add_pr; by rewrite (view_cached s s1 V1)).
  rewrite fold_prs, fold_issues. set (p2 := plan_more _ _ _).
  assert (poll_view s2 = poll_view s) as V2' by by rewrite V2.
  assert (∃ s3, plan_closes E cancelled repo issues prs p2 s2 =
    (Some (plan_more (closed_event repo <$> gone issues prs s) (OpClosed <$> gone issues prs s) p2), s3) ∧
    poll_view s3 = poll_view s) as (s3 & H3 & V3).
  { unfold plan_closes, gone. destruct (ghListLimit <=? _).
    { exists s2. split; [|done]. unfold plan_more. destruct p2. simpl. by rewrite !app_nil_r. }
    unfold mbind, St_bind. unfold ListCachedIssueNums, on_world, lift, wrapE, mbind, St_bind, sql_query.
    rewrite sql_quiet by done. cbn [fst snd mret St_ret res_wrap].
    match goal with |- context [plan_closed _ _ ?seen ?nums p2 ?st] =>
      destruct (plan_closed_ok seen nums p2 st) as (s3 & H3 & V3) end.
    exists s3. rewrite H3. split; [|by rewrite V3].
    pose proof (f_equal (λ v, db_cache v.1.1) V2') as Hc. cbn in Hc. unfold cached_nums. by rewrite Hc. }
  rewrite H3. cbn [fst snd]. unfold plan_resyncs, mbind, St_bind, getsS. cbn [fst snd mret St_ret].
  pose proof (f_equal (λ v, v.1.2) V3) as Hr. cbn in Hr. rewrite Hr.
  eexists _, _. split; [reflexivity|]. split; [done|].
  unfold p2, plan_more, reported, updates, due. cbn [pl_pending pl_ops pl_candidates pl_first].
  rewrite <-!app_assoc. done.
Qed.

(** ** The commit phase *)

Definition op_key (op : cacheOp) : option Z :=
  match op with OpUpsert ic => Some (ic_IssueNum ic) | OpClosed n => Some n | OpResynced _ => None end.
(** The row an update leaves. *)
Definition op_row (op : cacheOp) (row : option IssueCache) : Prop :=
  match op with
  | OpUpsert ic => ∃ r, row = Some r ∧ ic_Labels r = ic_Labels ic ∧ ic_Body r = ic_Body ic ∧ ic_State r = ic_State ic
  | OpClosed _ => row = None
  | OpResynced _ => True
  end.
Definition op_here (op : cacheOp) : Prop := match op with OpUpsert ic => ic_Repo ic = repo | _ => True end.
Definition resync_after (op : cacheOp) (last : gmap Z Z) : gmap Z Z :=
  match op with
  | OpUpsert _ => last
  | OpClosed n => base.delete n last
  | OpResynced n => <[n := e_now E]> last
  end.

Lemma run_op_ok op s :
  op_here op →
  let s' := (run_op E repo op s).2 in
  po_events s' = po_events s ∧ po_lastResyncAt s' = resync_after op (po_lastResyncAt s) ∧
  (∀ n, op_key op = Some n → op_row op (cached repo s' n)) ∧
  (∀ n, op_key op ≠ Some n → cached repo s' n = cached repo s n).
Proof.
  intros Hh. cbv zeta. destruct op as [ic|m|m]; cbn [op_key op_row resync_after op_here run_op] in *.
  - unfold mbind, St_bind, on_world, lift, UpsertIssueCache, mbind, St_bind.
    assert (∃ t d, cache_trace E (ic_Repo ic) (ic_ParentIssueNum ic) (wd_db (po_world s)) = (t, d) ∧
      db_cache d = db_cache (wd_db (po_world s))) as (t & d & Ht & Hd).
    { destruct (cache_trace E (ic_Repo ic) (ic_ParentIssueNum ic) (wd_db (po_world s))) as [t d] eqn:Et.
      exists t, d. split; [done|]. revert Et. unfold cache_trace, getRootTraceID, random, wrapE, mbind, St_bind, sql_query.
      destruct (0 <? ic_ParentIssueNum ic); rewrite ?sql_quiet by done; cbn; case_match; by intros [= _ <-]. }
    rewrite Ht. unfold wrapE, mbind, St_bind. cbn [fst snd]. rewrite sql_quiet by done. cbn.
    unfold cached. cbn. rewrite Hd, Hh. split_and!; [done..| |].
    + intros n [= <-]. rewrite lookup_insert_eq. eexists. split; [done|]. by case_match.
    + intros n Hn. apply lookup_insert_ne. congruence.
  - unfold mbind, St_bind, on_world, lift, DeleteIssueCache, ClearIssuePipelineHazard, wrapE, mbind, St_bind.
    rewrite !sql_quiet by done. cbn. rewrite !sql_quiet by done. cbn. unfold cached. cbn. split_and!; [done..| |].
    + intros n [= <-]. apply lookup_delete_eq.
    + intros n Hn. apply lookup_delete_ne. congruence.
  - done.
Qed.

(** Updates of one key agree. *)
Definition agree (ops : list cacheOp) : Prop :=
  ∀ o1 o2 n, o1 ∈ ops → o2 ∈ ops → op_key o1 = Some n → op_key o2 = Some n → o1 = o2.

Lemma run_ops_ok ops : ∀ s,
  Forall op_here ops → agree ops →
  ∃ s', run_ops E cancelled repo ops s = (true, s') ∧ po_events s' = po_events s ∧
    po_lastResyncAt s' = foldl (λ m op, resync_after op m) (po_lastResyncAt s) ops ∧
    (∀ op n, op ∈ ops → op_key op = Some n → op_row op (cached repo s' n)) ∧
    (∀ n, (∀ op, op ∈ ops → op_key op ≠ Some n) → cached repo s' n = cached repo s n).
Proof.
  induction ops as [|op ops IH]; intros s Hh Ha; cbn [run_ops].
  { exists s. split_and!; [done..| |]; [by intros ? ? ?%elem_of_nil|done]. }
  apply Forall_cons in Hh as [Hop Hh]. unfold mbind, St_bind. rewrite check_ok. cbn [fst snd].
  destruct (run_op_ok op (upd_po_checks S s) Hop) as (He & Hr & Hrow & Hother).
  set (s1 := (run_op E repo op (upd_po_checks S s)).2) in *. clearbody s1.
  destruct (IH s1 Hh) as (s' & Hrun & He' & Hr' & Hrow' & Hother').
  { intros o1 o2 n H1 H2. by apply Ha; right. }
  exists s'. split_and!; [done|by rewrite He'|by rewrite Hr', Hr| |].
  - intros o n [->|Ho]%elem_of_cons Hk; [|by apply Hrow'].
    destruct (decide (Exists (λ o', op_key o' = Some n) ops)) as [(o' & Ho' & Hk')%Exists_exists|Hno].
    + rewrite (Ha op o' n); [by apply Hrow'|left|by right|done|done].
    + rewrite Hother'; [by apply Hrow|]. intros o' Ho' Hk'. apply Hno, Exists_exists. eauto.
  - intros n Hn. rewrite Hother' by (intros; apply Hn; by right). rewrite Hother by (apply Hn; left). done.
Qed.

Lemma emit_all_ok evs : ∀ s,
  ∃ s', emit_all cancelled evs s = (true, s') ∧ po_world s' = po_world s ∧
        po_lastResyncAt s' = po_lastResyncAt s ∧ po_events s' = po_events s ++ evs.
Proof.
  induction evs as [|ev evs IH]; intros s; cbn [emit_all]; [exists s; by rewrite app_nil_r|].
  unfold mbind, St_bind. rewrite check_ok. cbn [fst snd]. unfold emit, mbind, St_bind. rewrite check_ok. cbn [fst snd].
  match goal with |- context [emit_all _ evs ?st] => destruct (IH st) as (s' & H1 & H2 & H3 & H4) end.
  exists s'. split_and!; [done..|]. rewrite H4. cbn. by rewrite <-app_assoc.
Qed.

Definition cycle_done : ChangeEvent := mkChange EventPollCycleDone repo 0 [] EmptyString EmptyString.

(** A complete cycle. *)
Lemma poll_ok issues prs s :
  agree (updates s issues prs) →
  let s' := (poll E (mkReader (inr issues) (inr prs)) cancelled repo interval s).2 in
  po_events s' = po_events s ++ reported s issues prs ++ [cycle_done] ∧
  po_lastResyncAt s' = foldl (λ m op, resync_after op m) (po_lastResyncAt s) (updates s issues prs) ∧
  (∀ op n, op ∈ updates s issues prs → op_key op = Some n → op_row op (cached repo s' n)) ∧
  (∀ n, (∀ op, op ∈ updates s issues prs → op_key op ≠ Some n) → cached repo s' n = cached repo s n).
Proof.
  intros Ha. cbv zeta. unfold poll, mbind, St_bind.
  destruct (collect_ok issues prs s) as (p & s1 & Hc & Hv & Hp & Hops). rewrite Hc. cbn [fst snd].
  unfold commit, mbind, St_bind, ResetBackoff, modS. cbn [fst snd]. rewrite Hp, Hops.
  assert (Forall op_here (updates s issues prs)) as Hh.
  { unfold updates. rewrite !Forall_app, !Forall_fmap. split_and!; by apply Forall_true. }
  destruct (run_ops_ok (updates s issues prs) (upd_po_backoff (λ _, 0) s1) Hh Ha) as (s2 & H2 & He & Hr & Hrow & Hother).
  rewrite H2. cbn [fst snd negb]. destruct (emit_all_ok (reported s issues prs) s2) as (s3 & H3 & Hw & Hr3 & He3).
  rewrite H3. cbn [fst snd negb]. unfold emit, mbind, St_bind. rewrite check_ok. cbn.
  pose proof (f_equal (λ v, v.2) Hv) as Hev. pose proof (f_equal (λ v, v.1.2) Hv) as Hlr. cbn in Hev, Hlr.
  pose proof (view_cached s s1 Hv) as Hcc.
  assert (∀ n, cached repo (upd_po_events (λ l, l ++ [cycle_done]) (upd_po_checks S s3)) n = cached repo s2 n) as Hlast.
  { intros n. unfold cached. cbn. by rewrite Hw. }
  split_and!.
  - rewrite He3, He. cbn. rewrite Hev. by rewrite <-app_assoc.
  - rewrite Hr3, Hr. cbn. by rewrite Hlr.
  - intros op n Ho Hk. rewrite Hlast. by apply Hrow.
  - intros n Hn. rewrite Hlast, (Hother n Hn). apply Hcc.
Qed.
End complete.

(** ** What is reported and what is kept *)

Lemma NoDup_fmap_eq {A B} (f : A → B) (l : list A) x y :
  NoDup (f <$> l) → x ∈ l → y ∈ l → f x = f y → x = y.
Proof.
  intros Hnd Hx Hy Hf. apply list_elem_of_lookup in Hx as [i Hi], Hy as [j Hj].
  assert (i = j) as ->; [|congruence].
  eapply (NoDup_lookup (f <$> l)); [done| |]; rewrite list_lookup_fmap; [by rewrite Hi|by rewrite Hj; simpl; f_equal].
Qed.

Definition distinct (issues : list Issue) (prs : list PR) : Prop :=
  NoDup ((is_Number <$> issues) ++ (pr_Number <$> prs)).

(** The updates that concern a row. *)
Lemma updates_key E repo interval s issues prs op n :
  op ∈ updates E repo interval s issues prs → op_key op = Some n →
  (∃ iss, iss ∈ issues ∧ is_Number iss = n ∧ op = OpUpsert (issue_row repo iss)) ∨
  (∃ pr, pr ∈ prs ∧ pr_Number pr = n ∧ op = OpUpsert (pr_row repo pr)) ∨
  (n ∈ gone repo issues prs s ∧ op = OpClosed n).
Proof.
  unfold updates. rewrite !elem_of_app. rewrite !list_elem_of_fmap.
  intros [(ic & -> & (iss & -> & Hi)%list_elem_of_fmap)|[(ic & -> & (pr & -> & Hp)%list_elem_of_fmap)
    |[(m & -> & Hm)|[(m & -> & _)|(m & -> & _)]]]] Hk; simplify_eq/=; eauto 10.
Qed.

Lemma updates_agree E repo interval s issues prs :
  distinct issues prs → agree (updates E repo interval s issues prs).
Proof.
  intros (Hi & Hd & Hp)%NoDup_app o1 o2 n H1 H2 K1 K2.
  assert (∀ iss, iss ∈ issues → is_Number iss ∈ is_Number <$> issues) as Ei by (intros; by apply list_elem_of_fmap_2).
  assert (∀ pr, pr ∈ prs → pr_Number pr ∈ pr_Number <$> prs) as Ep by (intros; by apply list_elem_of_fmap_2).
  assert (∀ m, m ∈ gone repo issues prs s → m ∉ is_Number <$> issues ∧ m ∉ pr_Number <$> prs) as Eg.
  { intros m (_ & ? & ? & _)%elem_of_gone. done. }
  destruct (updates_key E repo interval s issues prs o1 n H1 K1) as [(a & Ha & Na & ->)|[(a & Ha & Na & ->)|[Ha ->]]],
    (updates_key E repo interval s issues prs o2 n H2 K2) as [(b & Hb & Nb & ->)|[(b & Hb & Nb & ->)|[Hb ->]]];
    try done.
  - by rewrite (NoDup_fmap_eq is_Number issues a b) by congruence.
  - exfalso. apply (Hd n); [rewrite <-Na|rewrite <-Nb]; auto.
  - exfalso. destruct (Eg _ Hb) as [H _]. apply H. rewrite <-Na. auto.
  - exfalso. apply (Hd n); [rewrite <-Nb|rewrite <-Na]; auto.
  - by rewrite (NoDup_fmap_eq pr_Number prs a b) by congruence.
  - exfalso. destruct (Eg _ Hb) as [_ H]. apply H. rewrite <-Na. auto.
  - exfalso. destruct (Eg _ Ha) as [H _]. apply H. rewrite <-Nb. auto.
  - exfalso. destruct (Eg _ Ha) as [_ H]. apply H. rewrite <-Nb. auto.
Qed.

(** Some event of this type, about this issue, with this detail. *)
Definition has_event (evs : list ChangeEvent) (ty : string) (n : Z) (detail : string) : Prop :=
  ∃ e, e ∈ evs ∧ ce_Type e = ty ∧ ce_IssueNum e = n ∧ ce_Detail e = detail.

Lemma elem_of_reported E repo interval s issues prs e :
  e ∈ reported E repo interval s issues prs ↔
  (∃ iss, iss ∈ issues ∧ e ∈ issue_events repo (scan_cache <$> cached repo s (is_Number iss)) iss) ∨
  (∃ pr, pr ∈ prs ∧ e ∈ pr_events repo (scan_cache <$> cached repo s (pr_Number pr)) pr) ∨
  (∃ n, n ∈ gone repo issues prs s ∧ e = closed_event repo n) ∨
  (∃ iss, iss ∈ due E repo interval s issues ∧ e = issue_event repo EventIssueResynced iss (is_Title iss)).
Proof.
  unfold reported. rewrite !elem_of_app, !list_elem_of_bind, !list_elem_of_fmap. naive_solver.
Qed.

(** A cached issue that is not listed any more. *)
Definition vanished (repo : string) (issues : list Issue) (prs : list PR) (s : PollState) (n : Z) : Prop :=
  Z.of_nat (length issues) < ghListLimit ∧ n ∉ is_Number <$> issues ∧ n ∉ pr_Number <$> prs ∧
  ∃ c, cached repo s n = Some c ∧ is_pr_state (ic_State c) = false.
(** The changes a listing shows against the cache and the times of the last resyncs. *)
Inductive change (E : Env) (repo : string) (interval : Z) (s : PollState) (issues : list Issue) (prs : list PR) : ChangeEvent → Prop :=
  | ch_created iss : iss ∈ issues → cached repo s (is_Number iss) = None →
      change E repo interval s issues prs (mkChange "issue_created" repo (is_Number iss) (is_Labels iss) (is_Title iss) (is_Author iss))
  | ch_added iss c l : iss ∈ issues → cached repo s (is_Number iss) = Some c → l ∈ is_Labels iss → l ∉ labelsFromJSON (ic_Labels c) →
      change E repo interval s issues prs (mkChange "label_added" repo (is_Number iss) (is_Labels iss) l (is_Author iss))
  | ch_removed iss c l : iss ∈ issues → cached repo s (is_Number iss) = Some c → l ∉ is_Labels iss → l ∈ labelsFromJSON (ic_Labels c) →
      change E repo interval s issues prs (mkChange "label_removed" repo (is_Number iss) (is_Labels iss) l (is_Author iss))
  | ch_pr pr : pr ∈ prs → cached repo s (pr_Number pr) = None →
      change E repo interval s issues prs (mkChange "pr_created" repo (pr_Number pr) [] (pr_Branch pr) EmptyString)
  | ch_pr_state pr c : pr ∈ prs → cached repo s (pr_Number pr) = Some c → ic_State c ≠ "pr:" +:+ ToLower (pr_State pr) →
      change E repo interval s issues prs (mkChange "pr_state_changed" repo (pr_Number pr) [] (ic_State c +:+ " -> " +:+ "pr:" +:+ ToLower (pr_State pr)) EmptyString)
  | ch_closed n : vanished repo issues prs s n →
      change E repo interval s issues prs (mkChange "issue_closed" repo n [] "issue no longer in open issues list" EmptyString)
  | ch_resync iss c : iss ∈ issues → cached repo s (is_Number iss) = Some c → is_Labels iss ≠ [] →
      (∀ t, po_lastResyncAt s !! is_Number iss = Some t → interval ≤ e_now E - t) →
      change E repo interval s issues prs (mkChange "issue_resynced" repo (is_Number iss) (is_Labels iss) (is_Title iss) (is_Author iss)).

Lemma elem_of_due E repo interval s issues iss : iss ∈ due E repo interval s issues ↔
  iss ∈ issues ∧ (∃ c, cached repo s (is_Number iss) = Some c) ∧ is_Labels iss ≠ [] ∧
  ∀ t, po_lastResyncAt s !! is_Number iss = Some t → interval ≤ e_now E - t.
Proof.
  unfold due. rewrite !elem_of_filter_bool, andb_true_iff. unfold known, labelled, resync_due.
  rewrite bool_decide_eq_true, negb_true_iff, bool_decide_eq_false. split.
  - intros [(Hi & Hk & Hl) Hd]. split_and!; [done..|]. intros t Ht. rewrite Ht in Hd. apply negb_true_iff, Z.ltb_ge in Hd. done.
  - intros (Hi & Hk & Hl & Hd). split_and!; [done..|]. destruct (po_lastResyncAt s !! is_Number iss) as [t|]; [|done].
    apply negb_true_iff, Z.ltb_ge. auto.
Qed.

Lemma pr_change repo s pr e : e ∈ pr_events repo (scan_cache <$> cached repo s (pr_Number pr)) pr ↔
  (cached repo s (pr_Number pr) = None ∧ e = mkChange "pr_created" repo (pr_Number pr) [] (pr_Branch pr) EmptyString) ∨
  (∃ c, cached repo s (pr_Number pr) = Some c ∧ ic_State c ≠ "pr:" +:+ ToLower (pr_State pr) ∧
     e = mkChange "pr_state_changed" repo (pr_Number pr) [] (ic_State c +:+ " -> " +:+ "pr:" +:+ ToLower (pr_State pr)) EmptyString).
Proof.
  unfold pr_events, pr_state. destruct (cached repo s (pr_Number pr)) as [c|]; cbn [fmap option_fmap option_map scan_cache ic_State].
  - case_bool_decide as Hs; cbn [negb].
    + split; [by intros ?%elem_of_nil|]. intros [[? _]|(c' & [= <-] & ? & _)]; done.
    + rewrite list_elem_of_singleton. split; [intros ->; right; eauto|]. intros [[? _]|(c' & [= <-] & _ & ->)]; done.
  - rewrite list_elem_of_singleton. split; [intros ->; by left|]. intros [[_ ->]|(c' & ? & _)]; done.
Qed.

Lemma issue_change repo s iss e : e ∈ issue_events repo (scan_cache <$> cached repo s (is_Number iss)) iss ↔
  (cached repo s (is_Number iss) = None ∧ e = mkChange "issue_created" repo (is_Number iss) (is_Labels iss) (is_Title iss) (is_Author iss)) ∨
  (∃ c l, cached repo s (is_Number iss) = Some c ∧
     (l ∈ is_Labels iss ∧ l ∉ labelsFromJSON (ic_Labels c) ∧ e = mkChange "label_added" repo (is_Number iss) (is_Labels iss) l (is_Author iss) ∨
      l ∉ is_Labels iss ∧ l ∈ labelsFromJSON (ic_Labels c) ∧ e = mkChange "label_removed" repo (is_Number iss) (is_Labels iss) l (is_Author iss))).
Proof.
  unfold issue_events. destruct (cached repo s (is_Number iss)) as [c|]; cbn [fmap option_fmap option_map scan_cache ic_Labels].
  - rewrite elem_of_app, !list_elem_of_fmap. unfold diffLabels. cbn [fst snd]. setoid_rewrite elem_of_filter_bool.
    setoid_rewrite negb_true_iff. setoid_rewrite bool_decide_eq_false. split.
    + intros [(l & -> & H1 & H2)|(l & -> & H1 & H2)]; right; exists c, l; (split; [done|]); [left|right]; done.
    + intros [[? _]|(c' & l & [= <-] & [(H1 & H2 & ->)|(H1 & H2 & ->)])]; [done|left|right]; exists l; done.
  - rewrite list_elem_of_singleton. split; [intros ->; by left|]. intros [[_ ->]|(c' & l & ? & _)]; done.
Qed.

Lemma reported_changes E repo interval s issues prs e :
  e ∈ reported E repo interval s issues prs ↔ change E repo interval s issues prs e.
Proof.
  rewrite elem_of_reported. setoid_rewrite issue_change. setoid_rewrite pr_change. setoid_rewrite elem_of_due. setoid_rewrite elem_of_gone. split.
  - intros [(iss & Hi & [[Hc ->]|(c & l & Hc & [(H1 & H2 & ->)|(H1 & H2 & ->)])])|[(pr & Hp & [[Hc ->]|(c & Hc & Hs & ->)])|[(n & Hv & ->)|(iss & (Hi & [c Hc] & Hl & Hd) & ->)]]];
      by econstructor.
  - intros []; eauto 12.
Qed.

(** No label occurs twice on a listed issue or in its cached row. *)
Definition labels_once (repo : string) (s : PollState) (issues : list Issue) : Prop :=
  ∀ iss, iss ∈ issues → NoDup (is_Labels iss) ∧ ∀ c, cached repo s (is_Number iss) = Some c → NoDup (labelsFromJSON (ic_Labels c)).

Lemma NoDup_filter_bool {A} (P : A → bool) l : NoDup l → NoDup (List.filter P l).
Proof. rewrite !NoDup_ListNoDup. apply List.NoDup_filter. Qed.

Lemma issue_events_once repo s issues iss : labels_once repo s issues → iss ∈ issues →
  NoDup (issue_events repo (scan_cache <$> cached repo s (is_Number iss)) iss).
Proof.
  intros Hl Hi. destruct (Hl iss Hi) as [Hn Hc]. unfold issue_events.
  destruct (cached repo s (is_Number iss)) as [c|]; cbn [fmap option_fmap option_map scan_cache ic_Labels]; [|apply NoDup_singleton].
  specialize (Hc c eq_refl). assert (∀ ty, Inj (=) (=) (issue_event repo ty iss)) by (intros ty l l'; unfold issue_event; congruence).
  apply NoDup_app. split_and!.
  - by apply NoDup_fmap_2, NoDup_filter_bool.
  - intros e (l & -> & _)%list_elem_of_fmap (l' & He & _)%list_elem_of_fmap. discriminate.
  - by apply NoDup_fmap_2, NoDup_filter_bool.
Qed.

Lemma cached_nums_once repo s : NoDup (cached_nums repo s).
Proof.
  unfold cached_nums. pose proof (NoDup_fst_map_to_list (db_cache (wd_db (po_world s)))) as Hn.
  induction (map_to_list _) as [|[[r n] c] l IH]; cbn [omap list_omap fmap list_fmap fst snd] in *; [constructor|].
  apply NoDup_cons in Hn as [Hx Hn]. specialize (IH Hn). case_bool_decide as Hr; cbn [andb]; [|done].
  destruct (is_pr_state (ic_State c)); cbn [negb]; [done|]. constructor; [|done].
  intros ([[r' n'] c'] & Hin & He)%list_elem_of_omap. cbn [fst snd] in He. case_bool_decide; [|done].
  destruct (negb (is_pr_state (ic_State c'))); [|done]. simplify_eq/=. apply Hx, list_elem_of_fmap. by exists (repo, n, c').
Qed.

Lemma reported_once E repo interval s issues prs :
  distinct issues prs → labels_once repo s issues → NoDup (reported E repo interval s issues prs).
Proof.
  intros (Hi & _ & Hp)%NoDup_app Hl. unfold reported.
  assert (NoDup issues) as Hni by by apply (NoDup_fmap_1 is_Number).
  assert (NoDup prs) as Hnp by by apply (NoDup_fmap_1 pr_Number).
  repeat (apply NoDup_app; split_and!).
  - apply NoDup_bind; [|intros; by eapply issue_events_once|done].
    intros a b e Ha Hb [[_ ->]|(c & l & _ & [(_ & _ & ->)|(_ & _ & ->)])]%issue_change
      [[_ He]|(c' & l' & _ & [(_ & _ & He)|(_ & _ & He)])]%issue_change; simplify_eq; by apply (NoDup_fmap_eq is_Number issues).
  - intros e (a & [[[_ ->]|(c & l & _ & [(_ & _ & ->)|(_ & _ & ->)])]%issue_change _])%list_elem_of_bind;
      rewrite !elem_of_app, list_elem_of_bind, !list_elem_of_fmap;
      intros [(b & [[_ He]|(c' & _ & _ & He)]%pr_change & _)|[(m & He & _)|(m & He & _)]]; discriminate.
  - apply NoDup_bind; [| |done].
    + intros a b e Ha Hb [[_ ->]|(c & _ & _ & ->)]%pr_change [[_ He]|(c' & _ & _ & He)]%pr_change;
        simplify_eq; by apply (NoDup_fmap_eq pr_Number prs).
    + intros pr _. unfold pr_events. repeat case_match; first [apply NoDup_singleton|constructor].
  - intros e (a & [[[_ ->]|(c & _ & _ & ->)]%pr_change _])%list_elem_of_bind;
      rewrite elem_of_app, !list_elem_of_fmap; intros [(m & He & _)|(m & He & _)]; discriminate.
  - apply NoDup_fmap_2; [intros m m'; unfold closed_event; congruence|]. unfold gone. case_match; [constructor|].
    apply NoDup_filter_bool, cached_nums_once.
  - intros e (m & -> & _)%list_elem_of_fmap (iss & He & _)%list_elem_of_fmap. discriminate.
  - apply (NoDup_fmap_2_strong _ (due E repo interval s issues)); [|by apply NoDup_filter_bool, NoDup_filter_bool].
    intros a b [Ha _]%elem_of_due [Hb _]%elem_of_due He. unfold issue_event in He. simplify_eq. by apply (NoDup_fmap_eq is_Number issues).
Qed.

(** C7: A cycle that reads GitHub and is not interrupted reports every difference between
    the listing and the cache and nothing else: an issue as created exactly when it has no
    cached row, a label as added exactly when the issue carries it and the cached row does
    not, as removed exactly in the opposite case, a pull request as created when it is not
    cached and its state as changed when the cached one differs, an issue as closed exactly
    when it is cached, not listed, and the listing is not truncated, and a cached issue with
    labels as resynced when its last resync is the interval or longer ago; each event with
    the labels, the text and the author the listing gives, and each once when no label is
    repeated on a listed issue or in its row.  Afterwards the cache holds the
    listing, the closed issues are gone from it, all other rows are as they were, and the
    last event is the end of the cycle. *)
Theorem poll_reports_changes E cancelled repo interval issues prs s :
  quiet E → (∀ n, cancelled n = false) → distinct issues prs →
  let s' := (poll E (mkReader (inr issues) (inr prs)) cancelled repo interval s).2 in
  (∃ evs, po_events s' = po_events s ++ evs ++ [cycle_done repo] ∧ (∀ e, e ∈ evs ↔ change E repo interval s issues prs e) ∧
     (labels_once repo s issues → NoDup evs)) ∧
  (∀ iss, iss ∈ issues → ∃ r, cached repo s' (is_Number iss) = Some r ∧
     ic_Labels r = labelsToJSON (is_Labels iss) ∧ ic_Body r = is_Body iss ∧ ic_State r = ToLower (is_State iss)) ∧
  (∀ pr, pr ∈ prs → ∃ r, cached repo s' (pr_Number pr) = Some r ∧ ic_State r = "pr:" +:+ ToLower (pr_State pr)) ∧
  (∀ n, vanished repo issues prs s n → cached repo s' n = None) ∧
  (∀ n, n ∉ is_Number <$> issues → n ∉ pr_Number <$> prs → ¬ vanished repo issues prs s n → cached repo s' n = cached repo s n).
Proof.
  intros HE Hc Hd s'. destruct (poll_ok E cancelled repo interval HE Hc issues prs s (updates_agree E repo interval s issues prs Hd))
    as (He & _ & Hrow & Hother). fold s' in He, Hrow, Hother. split_and!.
  - exists (reported E repo interval s issues prs). split_and!; [done|apply reported_changes|by apply reported_once].
  - intros iss Hi. apply (Hrow (OpUpsert (issue_row repo iss))); [|done]. unfold updates.
    apply elem_of_app. left. by apply list_elem_of_fmap_2, list_elem_of_fmap_2.
  - intros pr Hp. destruct (Hrow (OpUpsert (pr_row repo pr)) (pr_Number pr)) as (r & Hr & _ & _ & Hs); [|done|by exists r].
    unfold updates. rewrite !elem_of_app. right; left. by apply list_elem_of_fmap_2, list_elem_of_fmap_2.
  - intros n Hn. apply (Hrow (OpClosed n)); [|done]. unfold updates. rewrite !elem_of_app. right; right; left.
    by apply list_elem_of_fmap_2, elem_of_gone.
  - intros n Hi Hp Hn. apply Hother. intros op Ho Hk.
    destruct (updates_key _ _ _ _ _ _ _ _ Ho Hk) as [(iss & Hx & Hn' & _)|[(pr & Hx & Hn' & _)|[Hx _]]].
    + apply Hi. rewrite <-Hn'. by apply list_elem_of_fmap_2.
    + apply Hp. rewrite <-Hn'. by apply list_elem_of_fmap_2.
    + by apply Hn, elem_of_gone.
Qed.

(** ** Polling again *)

Lemma labels_roundtrip labels :
  Forall (λ l, valid_utf8 l = true) labels → labelsFromJSON (labelsToJSON labels) = sort_strings labels.
Proof.
  intros Hu. unfold labelsFromJSON, labelsToJSON, marshal_strings.
  rewrite bool_decide_false by by destruct (sort_strings labels).
  rewrite unmarshal_marshal; [done|]. by rewrite sort_strings_perm.
Qed.

Lemma diff_sorted labels : diffLabels (sort_strings labels) labels = ([], []).
Proof.
  unfold diffLabels. f_equal.
  - apply elem_of_nil_inv. intros l [Hl Hn]%elem_of_filter_bool.
    apply negb_true_iff, bool_decide_eq_false in Hn. apply Hn. by rewrite sort_strings_perm.
  - apply elem_of_nil_inv. intros l [Hl Hn]%elem_of_filter_bool.
    apply negb_true_iff, bool_decide_eq_false in Hn. apply Hn. by rewrite sort_strings_perm in Hl.
Qed.

Lemma resync_fold E n ops : ∀ m,
  OpClosed n ∉ ops →
  let m' := foldl (λ m op, resync_after E op m) m ops in
  m' !! n = Some (e_now E) ∨ (OpResynced n ∉ ops ∧ m' !! n = m !! n).
Proof.
  induction ops as [|op ops IH]; intros m Hc; cbn [foldl]; [right; split; [by apply not_elem_of_nil|done]|].
  apply not_elem_of_cons in Hc as [Hne Hc]. destruct (IH (resync_after E op m) Hc) as [H|[Hn H]]; [by left|].
  rewrite H. destruct op as [ic|k|k]; cbn [resync_after].
  - right. split; [by apply not_elem_of_cons|done].
  - right. split; [by apply not_elem_of_cons|]. apply lookup_delete_ne. congruence.
  - destruct (decide (k = n)) as [->|Hk]; [left; by rewrite lookup_insert_eq|].
    right. rewrite lookup_insert_ne by done. split; [|done]. apply not_elem_of_cons. split; [congruence|done].
Qed.

Section again.
Context (E : Env) (cancelled : nat → bool) (repo : string) (interval : Z) (issues : list Issue) (prs : list PR)
  (s : PollState).
Hypothesis HE : quiet E.
Hypothesis Hctx : ∀ n, cancelled n = false.
Hypothesis Hd : distinct issues prs.
Hypothesis Hutf : Forall (λ iss, Forall (λ l, valid_utf8 l = true) (is_Labels iss)) issues.

Definition polled : PollState := (poll E (mkReader (inr issues) (inr prs)) cancelled repo interval s).2.

Lemma polled_row op n :
  op ∈ updates E repo interval s issues prs → op_key op = Some n → op_row op (cached repo polled n).
Proof.
  intros H1 H2. by apply (poll_ok E cancelled repo interval HE Hctx issues prs s (updates_agree E repo interval s issues prs Hd)).
Qed.

Lemma polled_issue iss : iss ∈ issues → issue_events repo (scan_cache <$> cached repo polled (is_Number iss)) iss = [].
Proof.
  intros Hi. destruct (polled_row (OpUpsert (issue_row repo iss)) (is_Number iss)) as (r & Hr & Hl & _); [|done|].
  { unfold updates. apply elem_of_app. left. by apply list_elem_of_fmap_2, list_elem_of_fmap_2. }
  rewrite Hr. unfold issue_events. cbn [fmap option_fmap option_map scan_cache ic_Labels].
  rewrite Hl. cbn [issue_row ic_Labels].
  rewrite labels_roundtrip by (rewrite Forall_forall in Hutf; by apply Hutf). by rewrite diff_sorted.
Qed.

Lemma polled_pr pr : pr ∈ prs → pr_events repo (scan_cache <$> cached repo polled (pr_Number pr)) pr = [].
Proof.
  intros Hp. destruct (polled_row (OpUpsert (pr_row repo pr)) (pr_Number pr)) as (r & Hr & _ & _ & Hst); [|done|].
  { unfold updates. rewrite !elem_of_app. right; left. by apply list_elem_of_fmap_2, list_elem_of_fmap_2. }
  rewrite Hr. simpl. rewrite Hst. by rewrite bool_decide_true.
Qed.

Lemma polled_gone : gone repo issues prs polled = [].
Proof.
  apply elem_of_nil_inv. intros n (Hl & Hi & Hp & c & Hc & Hs)%elem_of_gone.
  destruct (poll_ok E cancelled repo interval HE Hctx issues prs s (updates_agree E repo interval s issues prs Hd))
    as (_ & _ & _ & Hother). fold polled in Hother.
  assert (n ∉ gone repo issues prs s) as Hg.
  { intros Hg. pose proof (polled_row (OpClosed n) n) as Hrow. simpl in Hrow. rewrite Hrow in Hc; [done| |done].
    unfold updates. rewrite !elem_of_app. right; right; left. by apply list_elem_of_fmap_2. }
  apply Hg, elem_of_gone. split_and!; [done..|]. exists c. split; [|done]. rewrite <-Hc. symmetry. apply Hother.
  intros op Ho Hk. destruct (updates_key _ _ _ _ _ _ _ _ Ho Hk) as [(iss & Hx & Hn & _)|[(pr & Hx & Hn & _)|[Hx _]]];
    [apply Hi|apply Hp|done]; rewrite <-Hn; by apply list_elem_of_fmap_2.
Qed.

Lemma polled_resync iss :
  0 < interval → iss ∈ issues → labelled iss = true →
  ∃ t, po_lastResyncAt polled !! is_Number iss = Some t ∧ e_now E - t < interval.
Proof.
  intros Hi Hin Hl.
  destruct (poll_ok E cancelled repo interval HE Hctx issues prs s (updates_agree E repo interval s issues prs Hd))
    as (_ & Hlast & _). fold polled in Hlast. rewrite Hlast.
  set (ops := updates E repo interval s issues prs).
  assert (OpClosed (is_Number iss) ∉ ops) as Hc.
  { intros Ho. destruct (updates_key _ _ _ _ _ _ _ (is_Number iss) Ho eq_refl) as [(? & _ & _ & [=])|[(? & _ & _ & [=])|[Hg _]]].
    apply elem_of_gone in Hg as (_ & Hg & _). apply Hg. by apply list_elem_of_fmap_2. }
  destruct (resync_fold E (is_Number iss) ops (po_lastResyncAt s) Hc) as [->|[Hno ->]].
  { exists (e_now E). split; [done|lia]. }
  assert (∀ l, iss ∈ l → is_Number iss ∈ is_Number <$> l) as Hf by (intros; by apply list_elem_of_fmap_2).
  destruct (known (cached repo s) iss) eqn:Hk.
  - destruct (resync_due E interval (po_lastResyncAt s) iss) eqn:Hdue.
    + exfalso. apply Hno. unfold ops, updates. rewrite !elem_of_app. do 3 right; left.
      apply list_elem_of_fmap_2, Hf. unfold due. apply elem_of_filter_bool. split; [|done].
      apply elem_of_filter_bool. split; [done|]. by rewrite Hk, Hl.
    + unfold resync_due in Hdue. destruct (po_lastResyncAt s !! is_Number iss) as [t|]; [|done].
      exists t. split; [done|]. apply negb_false_iff, Z.ltb_lt in Hdue. done.
  - exfalso. apply Hno. unfold ops, updates. rewrite !elem_of_app. do 4 right.
    apply list_elem_of_fmap_2, Hf. apply elem_of_filter_bool. split; [done|]. by rewrite Hk, Hl.
Qed.
End again.

(** Every change is reported once: when GitHub lists the same issues and
    pull requests in the next cycle, that cycle reports nothing but snapshot
    resyncs, and not even those before the clock has moved. *)
Theorem unchanged_listing_is_silent E E' cancelled repo interval issues prs s :
  quiet E → quiet E' → (∀ n, cancelled n = false) → distinct issues prs → 0 < interval →
  Forall (λ iss, Forall (λ l, valid_utf8 l = true) (is_Labels iss)) issues →
  let gh := mkReader (inr issues) (inr prs) in
  let s1 := (poll E gh cancelled repo interval s).2 in
  let s2 := (poll E' gh cancelled repo interval s1).2 in
  ∃ resynced, po_events s2 = po_events s1 ++
      ((λ iss, issue_event repo EventIssueResynced iss (is_Title iss)) <$> resynced) ++ [cycle_done repo] ∧
    (e_now E' = e_now E → resynced = []).
Proof.
  intros HE HE' Hctx Hd Hint Hutf gh s1 s2.
  destruct (poll_ok E' cancelled repo interval HE' Hctx issues prs s1 (updates_agree E' repo interval s1 issues prs Hd))
    as (He & _). fold gh in He. fold s2 in He.
  exists (due E' repo interval s1 issues). rewrite He. unfold reported.
  assert (∀ {A B} (f : A → list B) l, (∀ x, x ∈ l → f x = []) → l ≫= f = []) as Hnil.
  { intros A B f l Hf. induction l as [|x l IH]; [done|]. simpl. rewrite Hf by left. apply IH. intros. apply Hf. by right. }
  rewrite (Hnil _ _ _ issues) by (intros; by apply (polled_issue E cancelled)).
  rewrite (Hnil _ _ _ prs) by (intros; by apply (polled_pr E cancelled)).
  rewrite (polled_gone E cancelled repo interval issues prs s HE Hctx Hd : gone repo issues prs s1 = []). split; [done|].
  intros Hnow. apply elem_of_nil_inv. intros iss [Hi Hdue]%elem_of_filter_bool.
  apply elem_of_filter_bool in Hi as [Hin [_ Hl]%andb_true_iff].
  destruct (polled_resync E cancelled repo interval issues prs s HE Hctx Hd iss Hint Hin Hl) as (t & Ht & Hlt).
  unfold resync_due in Hdue. change (polled E cancelled repo interval issues prs s) with s1 in Ht. rewrite Ht in Hdue.
  rewrite (proj2 (Z.ltb_lt _ _)) in Hdue by lia. done.
Qed.

(** ** Cancellation in the commit phase *)

(** The context is cancelled at some look at it, and stays so. *)
Definition cancelled_from (k n : nat) : bool := (k <=? n)%nat.

(** The cache is written before the events are sent, so a context that is
    cancelled in between loses a change for good: there is a cycle that stops
    after its cache updates such that the next, complete cycle over the same
    listing reports nothing of the label that was added. *)
Theorem cancelled_commit_loses_a_change :
  ∃ E k repo interval issues prs s,
    let gh := mkReader (inr issues) (inr prs) in
    let s1 := (poll E gh (cancelled_from k) repo interval s).2 in
    let s2 := (poll E gh (λ _, false) repo interval s1).2 in
    (∃ evs, po_events (poll E gh (λ _, false) repo interval s).2 = po_events s ++ evs ∧
            has_event evs EventLabelAdded 1 "status:developing") ∧
    po_events s2 = [cycle_done repo].
Proof.
  set (row := mkCache "o/r" 1 (labelsToJSON ["workbuddy"]) EmptyString "open" None 0 "t").
  set (s0 := mkPoll (upd_wd_db (upd_db_cache (λ _, {[ ("o/r", 1) := row ]})) empty_world) 0 {[ 1 := 0 ]} [] 0).
  exists (demo_env 0), 3%nat, "o/r", minute,
    [mkIssue 1 "title" "OPEN" ["workbuddy"; "status:developing"] EmptyString "author"], [], s0.
  cbv zeta. split; [|vm_compute; reflexivity].
  eexists. split; [vm_compute; reflexivity|]. eexists. split; [left|]. done.
Qed.

(** ** Branch names *)

Lemma span_digits_spec s rest :
  all_str is_digit s = true → match rest with String c _ => is_digit c = false | EmptyString => True end →
  span_digits (s +:+ rest) = (s, rest).
Proof.
  intros Hs Hr. induction s as [|c s IH]; simpl in *.
  - destruct rest as [|c rest]; [done|]. simpl. by rewrite Hr.
  - apply andb_true_iff in Hs as [Hc Hs]. by rewrite Hc, (IH Hs).
Qed.

Lemma itoa_digits n : 0 <= n → all_str is_digit (itoa n) = true.
Proof.
  intros Hn. unfold itoa. destruct n as [|p|p]; [done| |lia]. simpl.
  generalize (Pos.to_uint p) as u. intros u. destruct u; try done; apply (string_of_uint_digits (_ _)).
Qed.

Lemma issue_at_itoa n rest :
  0 < n → match rest with String c _ => byte_is c 47 = true | EmptyString => True end →
  issue_at ("issue-" +:+ itoa n +:+ rest) = Some (itoa n).
Proof.
  intros Hn Hr. unfold issue_at. rewrite HasPrefix_app, TrimPrefix_app.
  assert (itoa n ≠ EmptyString) as Hne.
  { unfold itoa. destruct n as [|p|p]; [lia| |lia]. simpl. generalize (Pos.to_uint p). by intros []. }
  rewrite span_digits_spec; [|apply itoa_digits; lia|].
  - cbn [fst snd]. rewrite bool_decide_false by done. destruct rest as [|c rest]; [done|]. by rewrite Hr.
  - destruct rest as [|c rest]; [done|]. revert Hr. by destruct c as [[][][][][][][][]].
Qed.

(** The poller finds the issue of a pull request from the branch name that
    the workspace gives to the tasks of that issue, rollouts included. *)
Theorem branch_names_its_issue n rollout :
  0 < n < 2 ^ 63 → parentIssueFromBranch (branchName n rollout) = n.
Proof.
  intros Hn. assert (branchIssue (branchName n rollout) = Some (itoa n)) as Hb.
  { unfold branchName, branchIssue.
    assert (∀ rest, match rest with String c _ => byte_is c 47 = true | EmptyString => True end →
      match issue_at ("workbuddy/issue-" +:+ itoa n +:+ rest) with
      | Some d => Some d | None => issue_after_slash ("workbuddy/issue-" +:+ itoa n +:+ rest) end = Some (itoa n)) as H.
    { intros rest Hr. pose proof (issue_at_itoa n rest ltac:(lia) Hr) as Hi.
      change (issue_at ("workbuddy/issue-" +:+ itoa n +:+ rest)) with (@None string).
      change (issue_after_slash ("workbuddy/issue-" +:+ itoa n +:+ rest)) with
        (match issue_at ("issue-" +:+ itoa n +:+ rest) with
         | Some d => Some d | None => issue_after_slash ("issue-" +:+ itoa n +:+ rest) end).
      by rewrite Hi. }
    destruct (0 <? rollout); [by apply H|]. specialize (H EmptyString I). by rewrite app_str_nil in H. }
  unfold parentIssueFromBranch. rewrite Hb, atoi_itoa.
  - by destruct (Z.leb_spec n 0); [lia|].
  - unfold int64_ok. apply andb_true_intro. split; [apply Z.leb_le; lia|apply Z.ltb_lt; lia].
Qed.

(** ** Examples *)

Definition demo_poll : PollState :=
  mkPoll (upd_wd_db (upd_db_cache (λ _, {[ ("o/r", 1) := mkCache "o/r" 1 (labelsToJSON ["workbuddy"]) EmptyString "open" None 0 "t1";
                                           ("o/r", 9) := mkCache "o/r" 9 (labelsToJSON []) EmptyString "open" None 0 "t9" ]}))
            empty_world) 0 ∅ [] 0.
Definition demo_issues : list Issue :=
  [mkIssue 1 "title" "OPEN" ["workbuddy"; "status:developing"] "body" "author"; mkIssue 2 "new" "OPEN" [] EmptyString "author"].
Definition demo_prs : list PR := [mkPR 5 "url" "workbuddy/issue-1" "OPEN"].

Lemma demo_distinct : distinct demo_issues demo_prs.
Proof. apply (bool_decide_eq_true (NoDup _)). vm_compute. reflexivity. Qed.

Lemma failed_listing_changes_nothing_witness :
  po_backoff (poll (demo_env 0) (mkReader (inr demo_issues) (inl "API rate limit exceeded")) (λ _, false) "o/r" minute demo_poll).2
    = 60 * second ∧
  po_events (poll (demo_env 0) (mkReader (inr demo_issues) (inl "API rate limit exceeded")) (λ _, false) "o/r" minute demo_poll).2 = [].
Proof.
  split; [vm_compute; reflexivity|].
  destruct (failed_listing_changes_nothing (demo_env 0) (mkReader (inr demo_issues) (inl "API rate limit exceeded"))
    (λ _, false) "o/r" minute demo_poll "API rate limit exceeded") as [Hv _].
  - right. split; [reflexivity|]. by exists demo_issues.
  - split; vm_compute; discriminate.
  - exact (f_equal snd Hv).
Defined.

Lemma poll_reports_changes_witness :
  ∃ evs, po_events (poll (demo_env 0) (mkReader (inr demo_issues) (inr demo_prs)) (λ _, false) "o/r" minute demo_poll).2
           = evs ++ [cycle_done "o/r"] ∧ has_event evs EventLabelAdded 1 "status:developing".
Proof.
  destruct (poll_reports_changes (demo_env 0) (λ _, false) "o/r" minute demo_issues demo_prs demo_poll)
    as ((evs & He & Hall) & _); [done|done|apply demo_distinct|].
  exists evs. split; [exact He|].
  exists (mkChange "label_added" "o/r" 1 ["workbuddy"; "status:developing"] "status:developing" "author").
  split; [apply Hall|split_and!; reflexivity].
  eapply (ch_added _ _ _ _ _ _ (mkIssue 1 "title" "OPEN" ["workbuddy"; "status:developing"] "body" "author"));
    [left|vm_compute; reflexivity|right; left|]. apply (bool_decide_eq_true (_ ∉ _)). vm_compute. reflexivity.
Defined.

Lemma unchanged_listing_is_silent_witness :
  let gh := mkReader (inr demo_issues) (inr demo_prs) in
  let s1 := (poll (demo_env 0) gh (λ _, false) "o/r" minute demo_poll).2 in
  po_events (poll (demo_env 0) gh (λ _, false) "o/r" minute s1).2 = po_events s1 ++ [cycle_done "o/r"].
Proof.
  destruct (unchanged_listing_is_silent (demo_env 0) (demo_env 0) (λ _, false) "o/r" minute demo_issues demo_prs demo_poll)
    as (resynced & He & Hr); [done|done|done|apply demo_distinct|done| |].
  - apply Forall_forall. intros iss Hi. repeat (apply elem_of_cons in Hi as [->|Hi]); [..|by apply elem_of_nil in Hi];
      repeat constructor.
  - rewrite (Hr eq_refl) in He. exact He.
Defined.

Lemma branch_names_its_issue_witness : parentIssueFromBranch "workbuddy/issue-42/rollout-3" = 42.
Proof. apply (branch_names_its_issue 42 3). lia. Defined.
