(* ===== verification/Config.v ===== *)
(** * Workflow configuration

    [internal/config/loader.go] after the YAML library has decoded a workflow
    file: defaults, normalization and validation of the states, the automatic
    failed state, and the check that no two workflows share a trigger label.

    A decoded state may be absent (a null in the file).  Maps are association
    lists in the order Go visits them. *)

From S2P Require Import Prelude GoLib Json Types DB TaskQueue TaskQueueSpec World Dependency StateMachine Demo.

Definition RawStates : Type := list (string * option State).

Definition config_err (what : string) : error := EMsg ("config: " +:+ what).

(** The loop over a state's agents. *)
Fixpoint normalize_agents (agents : list string) (seen : gset string) : res (list string) :=
  match agents with
  | [] => Ok []
  | agent :: agents =>
      let agent := TrimSpace agent in
      if bool_decide (agent = EmptyString) then Err (config_err "empty agent name")
      else if bool_decide (agent ∈ seen) then Err (config_err "duplicate agent")
      else match normalize_agents agents ({[agent]} ∪ seen) with
           | Ok l => Ok (agent :: l)
           | Err e => Err e
           end
  end.

(** The join of a state with agents. *)
Definition normalize_join (j : JoinConfig) (rollouts : Z) (agents : list string) : res JoinConfig :=
  let join := TrimSpace (jc_Strategy j) in
  if 1 <? rollouts then
    let join := if bool_decide (join = EmptyString) then JoinRollouts else join in
    if negb (length agents =? 1)%nat then Err (config_err "rollouts require exactly one agent")
    else if negb (bool_decide (join = JoinRollouts)) then Err (config_err "invalid rollout join strategy")
    else
      let min := if jc_MinSuccesses j <=? 0 then rollouts else jc_MinSuccesses j in
      if rollouts <? min then Err (config_err "min_successes exceeds rollouts") else Ok (mkJoin join min)
  else
    let join := if bool_decide (join = EmptyString) then JoinAllPassed else join in
    if negb (bool_decide (join = JoinAllPassed) || bool_decide (join = JoinAnyPassed))
    then Err (config_err "invalid join")
    else if negb (jc_MinSuccesses j =? 0) then Err (config_err "min_successes requires rollouts>1")
    else Ok (mkJoin join (jc_MinSuccesses j)).

Definition normalize_state (s : State) : res State :=
  let agents := if bool_decide (s_Agents s = []) && negb (is_blank (s_Agent s)) then [s_Agent s] else s_Agents s in
  let rollouts := if s_Rollouts s <=? 0 then 1 else s_Rollouts s in
  if 5 <? rollouts then Err (config_err "rollouts is invalid (expected 1..5)")
  else if bool_decide (agents = []) then
    if 1 <? rollouts then Err (config_err "rollouts but no agents")
    else Ok (mkState (s_EnterLabel s) (s_Agent s) [] (s_Mode s) (mkJoin EmptyString 0) rollouts (s_Transitions s))
  else match normalize_join (s_Join s) rollouts agents with
       | Err e => Err e
       | Ok join =>
           match normalize_agents agents ∅ with
           | Err e => Err e
           | Ok agents => Ok (mkState (s_EnterLabel s) (s_Agent s) agents (s_Mode s) join rollouts (s_Transitions s))
           end
       end.

Fixpoint normalizeWorkflowStates (states : RawStates) : res (list (string * State)) :=
  match states with
  | [] => Ok []
  | (name, None) :: _ => Err (config_err "state cannot be nil")
  | (name, Some s) :: states =>
      match normalize_state s with
      | Err e => Err e
      | Ok s => match normalizeWorkflowStates states with
                | Ok l => Ok ((name, s) :: l)
                | Err e => Err e
                end
      end
  end.

Definition transition_bad (t : string * string) : bool := is_blank t.1 || is_blank t.2.
Definition validateStates (states : list (string * State)) : res unit :=
  if existsb (λ p : string * State, existsb transition_bad (s_Transitions p.2)) states
  then Err (config_err "transition with an empty label key or target state") else Ok tt.

Definition failed_state : State := mkState LabelFailed EmptyString [] EmptyString (mkJoin EmptyString 0) 0 [].
Definition autoAddFailedState (states : list (string * State)) : list (string * State) :=
  match assoc states StateNameFailed with
  | Some _ => states
  | None =>
      if existsb (λ p : string * State, existsb (λ t : string * string,
           match assoc states t.2 with Some target => negb (bool_decide (s_Transitions target = [])) | None => false end)
           (s_Transitions p.2)) states
      then states ++ [(StateNameFailed, failed_state)] else states
  end.

(** [parseWorkflowFile] from the decoded front matter and states. *)
Definition finish_workflow (name trigger : string) (maxRetries maxReviewCycles : Z) (states : RawStates) :
    res WorkflowConfig :=
  match normalizeWorkflowStates states with
  | Err e => Err e
  | Ok states =>
      match validateStates states with
      | Err e => Err e
      | Ok _ => Ok (mkWorkflow name trigger (if maxRetries =? 0 then 3 else maxRetries)
                      (if maxReviewCycles =? 0 then 3 else maxReviewCycles) (autoAddFailedState states))
      end
  end.

(** The labels seen so far. *)
Fixpoint trigger_conflicts (workflows : list WorkflowConfig) (seen : gset string) : res unit :=
  match workflows with
  | [] => Ok tt
  | wf :: workflows =>
      let label := wf_IssueLabel wf in
      if bool_decide (label = EmptyString) then trigger_conflicts workflows seen
      else if bool_decide (label ∈ seen) then Err (config_err "workflow trigger conflict")
      else trigger_conflicts workflows ({[label]} ∪ seen)
  end.
Definition validateWorkflowTriggerConflicts (workflows : list (string * WorkflowConfig)) : res unit :=
  trigger_conflicts workflows.*2 ∅.

(** ** What a loaded workflow satisfies *)

Record state_ok (s : State) : Prop := {
  so_rollouts : 1 <= s_Rollouts s <= 5;
  so_agents : NoDup (s_Agents s) ∧ Forall (λ a, a ≠ EmptyString) (s_Agents s);
  so_join :
    if bool_decide (s_Agents s = []) then s_Rollouts s = 1 ∧ s_Join s = mkJoin EmptyString 0
    else if 1 <? s_Rollouts s then
      length (s_Agents s) = 1%nat ∧ jc_Strategy (s_Join s) = JoinRollouts ∧
      1 <= jc_MinSuccesses (s_Join s) <= s_Rollouts s
    else (jc_Strategy (s_Join s) = JoinAllPassed ∨ jc_Strategy (s_Join s) = JoinAnyPassed) ∧
         jc_MinSuccesses (s_Join s) = 0
}.

Lemma normalize_agents_ok agents : ∀ seen l,
  normalize_agents agents seen = Ok l →
  NoDup l ∧ Forall (λ a, a ≠ EmptyString ∧ a ∉ seen) l ∧ length l = length agents.
Proof.
  induction agents as [|a agents IH]; intros seen l; cbn [normalize_agents].
  { intros [= <-]. split_and!; [constructor|constructor|done]. }
  set (b := TrimSpace a). case_bool_decide as Hb; [done|]. case_bool_decide as Hs; [done|].
  destruct (normalize_agents agents ({[b]} ∪ seen)) as [l'|e] eqn:El; [|done]. intros [= <-].
  destruct (IH _ _ El) as (Hnd & Hf & Hlen). split_and!.
  - apply NoDup_cons. split; [|done]. intros Hin. rewrite Forall_forall in Hf. destruct (Hf b Hin) as [_ H]. set_solver.
  - constructor; [done|]. eapply Forall_impl; [exact Hf|]. intros x [Hx1 Hx2]. set_solver.
  - simpl. by rewrite Hlen.
Qed.

Lemma normalize_join_ok j rollouts agents j' :
  1 <= rollouts → normalize_join j rollouts agents = Ok j' →
  if 1 <? rollouts then length agents = 1%nat ∧ jc_Strategy j' = JoinRollouts ∧ 1 <= jc_MinSuccesses j' <= rollouts
  else (jc_Strategy j' = JoinAllPassed ∨ jc_Strategy j' = JoinAnyPassed) ∧ jc_MinSuccesses j' = 0.
Proof.
  intros Hr. unfold normalize_join. destruct (1 <? rollouts).
  - set (join := if bool_decide (TrimSpace (jc_Strategy j) = EmptyString) then _ else _).
    destruct (Nat.eqb_spec (length agents) 1) as [Hl|]; [|done]. cbn [negb].
    destruct (bool_decide (join = JoinRollouts)) eqn:Ej; [|done]. cbn [negb].
    apply bool_decide_eq_true in Ej. case_match eqn:Em; [done|]. intros [= <-]. cbn.
    apply Z.ltb_ge in Em. split_and!; [done|done|..]; destruct (Z.leb_spec (jc_MinSuccesses j) 0); lia.
  - set (join := if bool_decide (TrimSpace (jc_Strategy j) = EmptyString) then _ else _).
    destruct (bool_decide (join = JoinAllPassed)) eqn:E1; cbn [orb negb].
    + destruct (Z.eqb_spec (jc_MinSuccesses j) 0); [|done]. intros [= <-]. cbn.
      apply bool_decide_eq_true in E1. auto.
    + destruct (bool_decide (join = JoinAnyPassed)) eqn:E2; [|done]. cbn [negb].
      destruct (Z.eqb_spec (jc_MinSuccesses j) 0); [|done]. intros [= <-]. cbn.
      apply bool_decide_eq_true in E2. auto.
Qed.

(** What the loader makes of a state: its label and its transitions are those of the file. *)
Definition state_from (s s' : State) : Prop :=
  state_ok s' ∧ s_EnterLabel s' = s_EnterLabel s ∧ s_Transitions s' = s_Transitions s.
Lemma normalize_state_ok s s' : normalize_state s = Ok s' → state_from s s'.
Proof.
  unfold normalize_state. set (agents := if _ && _ then _ else _). set (rollouts := if s_Rollouts s <=? 0 then _ else _).
  assert (1 <= rollouts) as Hr by (subst rollouts; destruct (Z.leb_spec (s_Rollouts s) 0); lia).
  destruct (Z.ltb_spec 5 rollouts); [done|]. case_bool_decide as Ha.
  - destruct (Z.ltb_spec 1 rollouts); [done|]. intros [= <-]. split; [|done]. split; cbn; [lia| |].
    + split; constructor.
    + split; [lia|done].
  - destruct (normalize_join (s_Join s) rollouts agents) as [j|e] eqn:Ej; [|done].
    destruct (normalize_agents agents ∅) as [l|e] eqn:El; [|done]. intros [= <-]. split; [|done].
    destruct (normalize_agents_ok _ _ _ El) as (Hnd & Hf & Hlen).
    pose proof (normalize_join_ok _ _ _ _ Hr Ej) as Hj. split; cbn; [lia| |].
    + split; [done|]. eapply Forall_impl; [exact Hf|]. by intros x [Hx _].
    + rewrite bool_decide_false by (intros ->; apply Ha; by destruct agents). by rewrite Hlen.
Qed.

Definition loaded (p : string * option State) (q : string * State) : Prop := q.1 = p.1 ∧ ∃ s, p.2 = Some s ∧ state_from s q.2.
Lemma Forall2_elem_l {A B} (P : A → B → Prop) l k x : Forall2 P l k → x ∈ l → ∃ y, y ∈ k ∧ P x y.
Proof.
  intros H [i Hi]%list_elem_of_lookup. destruct (Forall2_lookup_l _ _ _ _ _ H Hi) as (y & Hy & HP). exists y. split; [by eapply list_elem_of_lookup_2|done].
Qed.
Lemma Forall2_elem_r {A B} (P : A → B → Prop) l k y : Forall2 P l k → y ∈ k → ∃ x, x ∈ l ∧ P x y.
Proof. intros H Hy. apply Forall2_flip in H. destruct (Forall2_elem_l _ _ _ _ H Hy) as (x & Hx & HP). by exists x. Qed.

Lemma normalize_states_ok raw l :
  normalizeWorkflowStates raw = Ok l → Forall2 loaded raw l.
Proof.
  revert l. induction raw as [|[name [s|]] raw IH]; intros l; cbn [normalizeWorkflowStates]; [by intros [= <-]| |done].
  destruct (normalize_state s) as [s'|e] eqn:Es; [|done].
  destruct (normalizeWorkflowStates raw) as [l'|e] eqn:El; [|done]. intros [= <-].
  constructor; [|by apply IH]. split; [done|]. exists s. split; [done|]. by apply normalize_state_ok.
Qed.
Lemma loaded_names raw l : Forall2 loaded raw l → l.*1 = raw.*1.
Proof. induction 1 as [|p q raw l [Hn _] _ IH]; [done|]. rewrite !fmap_cons. by rewrite Hn, IH. Qed.

(** The file has no failed state, and a transition to a state with transitions of its own. *)
Definition needs_failed (raw : RawStates) : Prop :=
  StateNameFailed ∉ raw.*1 ∧
  ∃ name s label target s', (name, Some s) ∈ raw ∧ (label, target) ∈ s_Transitions s ∧ (target, Some s') ∈ raw ∧ s_Transitions s' ≠ [].
(** The same of the loaded states. *)
Definition leads_on (states : list (string * State)) : Prop :=
  StateNameFailed ∉ states.*1 ∧
  ∃ p t target, p ∈ states ∧ t ∈ s_Transitions p.2 ∧ (t.2, target) ∈ states ∧ s_Transitions target ≠ [].

Lemma needs_failed_iff raw l :
  Forall2 loaded raw l → needs_failed raw ↔ leads_on l.
Proof.
  intros H. unfold needs_failed, leads_on. rewrite (loaded_names raw l H). f_equiv. split.
  - intros (name & s & label & target & s' & H1 & H2 & H3 & H4).
    destruct (Forall2_elem_l _ _ _ _ H H1) as ([n1 q1] & Hq1 & _ & s1 & [= <-] & _ & _ & Ht1).
    destruct (Forall2_elem_l _ _ _ _ H H3) as ([n2 q2] & Hq2 & Hn2 & s2 & [= <-] & _ & _ & Ht2). cbn in *. subst n2.
    exists (n1, q1), (label, target), q2. cbn. rewrite Ht1, Ht2. done.
  - intros ([n1 q1] & [label target] & q2 & H1 & H2 & H3 & H4). cbn in *.
    destruct (Forall2_elem_r _ _ _ _ H H1) as ([m1 p1] & Hp1 & Hn1 & s1 & Hs1 & _ & _ & Ht1).
    destruct (Forall2_elem_r _ _ _ _ H H3) as ([m2 p2] & Hp2 & Hn2 & s2 & Hs2 & _ & _ & Ht2). cbn in *. subst.
    exists m1, s1, label, m2, s2. rewrite <-Ht1, <-Ht2. done.
Qed.

Lemma assoc_none_iff {V} (l : list (string * V)) k : assoc l k = None ↔ k ∉ l.*1.
Proof.
  induction l as [|[k' v] l IH]; simpl; [split; [intros _; apply not_elem_of_nil|done]|].
  rewrite not_elem_of_cons, <-IH. case_bool_decide; naive_solver.
Qed.
Lemma assoc_some_iff {V} (l : list (string * V)) k v : NoDup l.*1 → assoc l k = Some v ↔ (k, v) ∈ l.
Proof.
  intros Hnd. split; [apply assoc_elem|]. intros Hin. destruct (assoc l k) as [v'|] eqn:Ha.
  - apply assoc_elem in Ha. f_equal. apply list_elem_of_lookup in Ha as [i Hi], Hin as [j Hj].
    assert (i = j) as ->; [|congruence]. eapply NoDup_lookup; [exact Hnd|by rewrite list_lookup_fmap, Hi|by rewrite list_lookup_fmap, Hj].
  - apply assoc_none_iff in Ha. destruct Ha. by apply (list_elem_of_fmap_2 fst _ (k, v)).
Qed.
(** The failed state is added exactly when it is called for. *)
Lemma auto_failed_ok states :
  NoDup states.*1 →
  leads_on states ∧ autoAddFailedState states = states ++ [(StateNameFailed, failed_state)] ∨
  ¬ leads_on states ∧ autoAddFailedState states = states.
Proof.
  intros Hnd. unfold autoAddFailedState, leads_on. destruct (assoc states StateNameFailed) eqn:Ea.
  { right. split; [|done]. intros [Hn%assoc_none_iff _]. congruence. }
  apply assoc_none_iff in Ea. destruct (existsb _ states) eqn:Ex; [left|right]; (split; [|done]).
  - split; [done|]. apply existsb_elem in Ex as (p & Hp & (t & Ht & Hx)%existsb_elem).
    destruct (assoc states t.2) as [target|] eqn:Hta; [|done]. apply assoc_elem in Hta. apply negb_true_iff, bool_decide_eq_false in Hx. eauto 10.
  - intros (_ & p & t & target & Hp & Ht & Hta & Hne). apply not_true_iff_false in Ex. apply Ex. apply existsb_elem. exists p. split; [done|].
    apply existsb_elem. exists t. split; [done|]. apply (assoc_some_iff _ _ _ Hnd) in Hta. rewrite Hta. by apply negb_true_iff, bool_decide_eq_false.
Qed.

(** C35: Whatever a workflow file says, a workflow that loads has states the
    state machine can run: they are the states of the file, in order, with their names,
    labels and transitions, and each has 1 to 5 rollouts, agents without repetition and
    with names, a join the completion code knows, rollouts only with a single agent
    and a success threshold between 1 and their number, and no transition with a
    blank label or target.  A terminal failed state is added exactly when the file has no
    state of that name and some transition leads to a state that has transitions itself;
    no other state is added, and state names stay distinct. *)
Theorem loaded_workflow_is_well_formed name trigger retries cycles raw wf :
  NoDup raw.*1 → finish_workflow name trigger retries cycles raw = Ok wf →
  wf_map (wf_States wf) ∧ wf_MaxRetries wf ≠ 0 ∧ wf_MaxReviewCycles wf ≠ 0 ∧
  (∃ l ext, wf_States wf = l ++ ext ∧
     Forall2 loaded raw l ∧
     (needs_failed raw ∧ ext = [(StateNameFailed, failed_state)] ∨ ¬ needs_failed raw ∧ ext = [])) ∧
  Forall (λ p, NoDup (stateAgents p.2) ∧ Forall (λ t, transition_bad t = false) (s_Transitions p.2)) (wf_States wf).
Proof.
  intros Hnd. unfold finish_workflow. destruct (normalizeWorkflowStates raw) as [l|e] eqn:En; [|done].
  pose proof (normalize_states_ok raw l En) as Hok. pose proof (loaded_names raw l Hok) as Hk. unfold validateStates.
  destruct (existsb _ l) eqn:Ev; [done|]. intros [= <-]. cbn.
  assert (Hl : Forall (λ p, NoDup (stateAgents p.2) ∧ Forall (λ t, transition_bad t = false) (s_Transitions p.2)) l).
  { apply Forall_forall. intros p Hp. destruct (Forall2_elem_r _ _ _ _ Hok Hp) as (p0 & _ & _ & s & _ & [_ [Ha _] _] & _ & _). split.
    - unfold stateAgents. destruct (s_Agents p.2); [|done]. case_bool_decide; [constructor|apply NoDup_singleton].
    - apply Forall_forall. intros t Ht. apply not_true_iff_false. intros Hb.
      assert (existsb (λ q : string * State, existsb transition_bad (s_Transitions q.2)) l = true); [|congruence].
      apply existsb_elem. exists p. split; [done|]. apply existsb_elem. eauto. }
  assert (NoDup l.*1) as Hndl by by rewrite Hk.
  assert (wf_map (autoAddFailedState l) ∧ ∃ ext, autoAddFailedState l = l ++ ext ∧
    (needs_failed raw ∧ ext = [(StateNameFailed, failed_state)] ∨ ¬ needs_failed raw ∧ ext = [])) as (Hwf & ext & He & Hext).
  { pose proof (needs_failed_iff raw l Hok) as Hneed. destruct (auto_failed_ok l Hndl) as [[Hn He]|[Hn He]]; rewrite He.
    - split; [|eexists; split; [done|left; by split; [apply Hneed|]]]. unfold wf_map. rewrite fmap_app. apply NoDup_app. split_and!; [done| |apply NoDup_singleton].
      intros k Hin ->%list_elem_of_singleton. by destruct Hn as [Hn _].
    - split; [done|]. exists []. rewrite app_nil_r. split; [done|]. right. split; [|done]. by intros ?%Hneed. }
  split_and!; [done|by destruct (Z.eqb_spec retries 0)|by destruct (Z.eqb_spec cycles 0)|by exists l, ext|].
  rewrite He. apply Forall_app. split; [done|]. destruct Hext as [[_ ->]|[_ ->]]; repeat constructor.
Qed.

(** ** Triggers *)

Lemma trigger_conflicts_ok l : ∀ seen,
  trigger_conflicts l seen = Ok tt →
  NoDup (List.filter (λ s, negb (bool_decide (s = EmptyString))) (wf_IssueLabel <$> l)) ∧
  ∀ wf, wf ∈ l → wf_IssueLabel wf ≠ EmptyString → wf_IssueLabel wf ∉ seen.
Proof.
  induction l as [|wf l IH]; intros seen; cbn [trigger_conflicts].
  { intros _. split; [constructor|]. by intros ? ?%elem_of_nil. }
  cbn [fmap list_fmap List.filter]. destruct (bool_decide (wf_IssueLabel wf = EmptyString)) eqn:Ee; cbn [negb].
  - intros H. destruct (IH _ H) as [Hnd Hs]. split; [done|].
    intros wf' [->|Hin]%elem_of_cons Hne; [by apply bool_decide_eq_true in Ee|by apply Hs].
  - destruct (bool_decide (wf_IssueLabel wf ∈ seen)) eqn:Hin; [done|]. apply bool_decide_eq_false in Hin.
    intros H. destruct (IH _ H) as [Hnd Hs]. split.
    + apply NoDup_cons. split; [|done]. intros [Hx Hn]%elem_of_filter_bool.
      apply list_elem_of_fmap in Hx as (wf' & Hl & Hw). apply (Hs wf' Hw); [|set_solver].
      rewrite <-Hl. apply negb_true_iff, bool_decide_eq_false in Hn. done.
    + intros wf' [->|Hw]%elem_of_cons Hne; [done|]. intros Hx. apply (Hs wf' Hw Hne). set_solver.
Qed.

(** With workflows that pass the trigger check, an issue that carries the
    trigger label of a workflow and no other trigger label matches exactly that
    workflow, so the state machine never rejects it for ambiguity. *)
Theorem single_trigger_matches_one_workflow C name wf ev :
  validateWorkflowTriggerConflicts (c_workflows C) = Ok tt →
  (name, wf) ∈ c_workflows C → wf_IssueLabel wf ≠ EmptyString → wf_IssueLabel wf ∈ ce_Labels ev →
  (∀ p, p ∈ c_workflows C → wf_IssueLabel p.2 ∈ ce_Labels ev →
        wf_IssueLabel p.2 = EmptyString ∨ wf_IssueLabel p.2 = wf_IssueLabel wf) →
  findMatchingWorkflows C ev = [wf].
Proof.
  intros Hv Hin Hne Hl Honly. unfold findMatchingWorkflows, validateWorkflowTriggerConflicts in *.
  destruct (trigger_conflicts_ok _ _ Hv) as [Hnd _]. clear Hv.
  assert (wf ∈ (c_workflows C).*2) as Hw by by apply (list_elem_of_fmap_2 snd _ (name, wf)).
  assert (∀ w, w ∈ (c_workflows C).*2 → wf_IssueLabel w ∈ ce_Labels ev →
     wf_IssueLabel w = EmptyString ∨ wf_IssueLabel w = wf_IssueLabel wf) as Ho.
  { intros w (p & -> & Hp)%list_elem_of_fmap. by apply Honly. }
  clear Honly Hin. revert Hw Ho Hnd. generalize ((c_workflows C).*2) as l. intros l.
  induction l as [|w l IH]; intros Hw Ho Hnd; [by apply elem_of_nil in Hw|].
  cbn [fmap list_fmap List.filter] in Hnd |- *.
  destruct (bool_decide (wf_IssueLabel w = EmptyString)) eqn:Ee; cbn [negb andb] in *.
  - apply IH; [|intros; apply Ho; [by right|done]|done].
    apply elem_of_cons in Hw as [<-|Hw]; [by apply bool_decide_eq_true in Ee|done].
  - apply bool_decide_eq_false in Ee. apply NoDup_cons in Hnd as [Hn Hnd].
    destruct (bool_decide (wf_IssueLabel w ∈ ce_Labels ev)) eqn:Em.
    + apply bool_decide_eq_true in Em. destruct (Ho w) as [?|Heq]; [left|done|done|].
      assert (wf = w) as ->.
      { apply elem_of_cons in Hw as [->|Hw]; [done|]. exfalso. apply Hn. apply elem_of_filter_bool.
        rewrite Heq. split; [by apply list_elem_of_fmap_2|]. by apply negb_true_iff, bool_decide_eq_false. }
      f_equal. apply elem_of_nil_inv. intros w' [Hw' [Hne' Hm']%andb_true_iff]%elem_of_filter_bool.
      apply negb_true_iff, bool_decide_eq_false in Hne'. apply bool_decide_eq_true in Hm'.
      destruct (Ho w') as [?|Heq']; [by right|done|done|]. apply Hn. apply elem_of_filter_bool.
      rewrite <-Heq'. split; [by apply list_elem_of_fmap_2|]. by apply negb_true_iff, bool_decide_eq_false.
    + apply bool_decide_eq_false in Em. apply IH; [|intros; apply Ho; [by right|done]|done].
      apply elem_of_cons in Hw as [->|Hw]; [done|done].
Qed.

(** ** Examples *)

Definition raw_default : RawStates :=
  [("developing", Some (mkState "status:developing" "dev-agent" [] EmptyString (mkJoin EmptyString 0) 0
                          [("status:reviewing", "reviewing")]));
   ("reviewing", Some (mkState "status:reviewing" "review-agent" [] EmptyString (mkJoin EmptyString 0) 0
                          [("status:developing", "developing")]))].

Lemma loaded_workflow_is_well_formed_witness :
  ∃ wf, finish_workflow "default" "workbuddy" 0 0 raw_default = Ok wf ∧ wf_map (wf_States wf) ∧ wf_MaxRetries wf ≠ 0.
Proof.
  eexists. split; [vm_compute; reflexivity|].
  match goal with |- wf_map (wf_States ?w) ∧ _ =>
    destruct (loaded_workflow_is_well_formed "default" "workbuddy" 0 0 raw_default w) as (H1 & H2 & _) end.
  - apply (bool_decide_eq_true (NoDup _)). vm_compute. reflexivity.
  - vm_compute. reflexivity.
  - split; assumption.
Defined.

Lemma single_trigger_matches_one_workflow_witness :
  findMatchingWorkflows (demo_config EmptyString) (demo_event 1) = [default_workflow].
Proof.
  apply (single_trigger_matches_one_workflow (demo_config EmptyString) "default" default_workflow (demo_event 1)).
  - vm_compute. reflexivity.
  - left.
  - discriminate.
  - left.
  - intros p ->%list_elem_of_singleton _. by right.
Defined.
