(* ===== verification/Router.v ===== *)
(** * The router

    [internal/router] and the coordinator side of [internal/taskprep]: a
    dispatch request becomes a row of the task queue, unless its agent is
    unknown or the issue is gated.

    The coordinator builds its router without an in-process channel
    ([dispatchToEmbedded] false), so [Prepare] ends with the row; workers claim
    it from the queue. *)

From S2P Require Import Prelude GoLib Json Types DB TaskQueue TaskQueueSpec StoreIssue World Dependency StateMachine Frames Demo.

(** The fields of an agent that scheduling reads. *)
Record AgentConfig := mkAgent {
  a_Name : string;
  a_Role : string;
  a_Runtime : string
}.

Record Decision := mkDecide {
  d_Repo : string;
  d_IssueNum : Z;
  d_AgentName : string;
  d_Agent : option AgentConfig;
  d_Workflow : string;
  d_State : string;
  d_SourceState : string;
  d_RolloutIndex : Z;
  d_RolloutsTotal : Z;
  d_RolloutGroupID : string;
  d_StateDef : option State;
  d_SourceStateDef : option State
}.

Record Router := mkRouter {
  rt_agents : list (string * option AgentConfig);
  rt_workflows : list (string * WorkflowConfig)
}.

Definition lookupState (R : Router) (workflowName stateName : string) : option State :=
  wf ← assoc (rt_workflows R) workflowName; assoc (wf_States wf) stateName.

Section router.
Context (E : Env) (R : Router).

Definition skip_payload (req : DispatchRequest) : list (string * jval) :=
  [("agent", JS (dr_AgentName req)); ("workflow", JS (dr_Workflow req)); ("state", JS (dr_State req))].

Definition decide_dispatch (req : DispatchRequest) : St World (option Decision) :=
  match assoc (rt_agents R) (dr_AgentName req) with
  | None => Log "dispatch_skipped_agent_not_found" (dr_Repo req) (dr_IssueNum req) (skip_payload req);; mret None
  | Some agent =>
      r ← lift (IsBlocked E (dr_Repo req) (dr_IssueNum req));
      match r with
      | Err e =>
          Log "dispatch_blocked_by_dependency" (dr_Repo req) (dr_IssueNum req)
            (skip_payload req ++ [("source", JS "router"); ("error", JS EmptyString)]);;
          mret None
      | Ok (true, verdict) =>
          Log "dispatch_blocked_by_dependency" (dr_Repo req) (dr_IssueNum req)
            (skip_payload req ++ [("source", JS "router"); ("verdict", JS verdict)]);;
          mret None
      | Ok (false, _) =>
          mret (Some (mkDecide (dr_Repo req) (dr_IssueNum req) (dr_AgentName req) agent (dr_Workflow req)
            (dr_State req) (dr_SourceState req) (dr_RolloutIndex req) (dr_RolloutsTotal req) (dr_RolloutGroupID req)
            (lookupState R (dr_Workflow req) (dr_State req)) (lookupState R (dr_Workflow req) (dr_SourceState req))))
      end
  end.

(** The record handed to [InsertTask]; the other fields have their zero value. *)
Definition new_task (d : Decision) (a : AgentConfig) (taskID : string) : TaskRecord :=
  mkTask taskID (d_Repo d) (d_IssueNum d) (d_AgentName d) EmptyString (a_Role a) (a_Runtime a) (d_Workflow d)
    (d_State d) None None TaskStatusPending None None None None 0 EmptyString (d_RolloutIndex d)
    (d_RolloutsTotal d) (d_RolloutGroupID d) EmptyString None None.

Definition Prepare (d : Decision) : St World (res unit) :=
  match d_Agent d with
  | None => mret (Err (EMsg "taskprep: nil agent"))
  | Some a =>
      taskID ← lift (random E);
      wrapE "taskprep: insert task" (lift (InsertTask E (new_task d a taskID)))
  end.

Definition handleDispatch (req : DispatchRequest) : St World unit :=
  decision ← decide_dispatch req;
  match decision with
  | None => mret tt
  | Some d => _ ← Prepare d; mret tt
  end.

(** [Run] over the requests received before the context ends. *)
Definition route (reqs : list DispatchRequest) : St World unit := forS reqs handleDispatch.
End router.

(** ** What is queued *)

(** The row of a request. *)
Definition queued_row (E : Env) (req : DispatchRequest) (a : AgentConfig) (id : string) : TaskRecord :=
  mkTask id (dr_Repo req) (dr_IssueNum req) (dr_AgentName req) EmptyString (a_Role a) (a_Runtime a) (dr_Workflow req)
    (dr_State req) (Some EmptyString) (Some EmptyString) TaskStatusPending None None None None 0 "[]"
    (dr_RolloutIndex req) (if dr_RolloutsTotal req <=? 0 then 1 else dr_RolloutsTotal req) (dr_RolloutGroupID req)
    EmptyString (Some (sql_now E)) (Some (sql_now E)).

Definition queue (w : World) : list TaskRecord := db_tasks (wd_db w).
Definition gated_in (w : World) (k : string * Z) : bool :=
  match db_depstate (wd_db w) !! k with Some s => gated (ds_Verdict s) | None => false end.

Lemma decide_keeps E R req w :
  let r := decide_dispatch E R req w in
  queue r.2 = queue w ∧ db_fresh (wd_db r.2) = db_fresh (wd_db w) ∧
  match r.1 with
  | None => assoc (rt_agents R) (dr_AgentName req) = None ∨ gated_in w (dr_Repo req, dr_IssueNum req) = true ∨ ¬ quiet E
  | Some d => ∃ agent, assoc (rt_agents R) (dr_AgentName req) = Some agent ∧
      gated_in w (dr_Repo req, dr_IssueNum req) = false ∧
      d = mkDecide (dr_Repo req) (dr_IssueNum req) (dr_AgentName req) agent (dr_Workflow req)
            (dr_State req) (dr_SourceState req) (dr_RolloutIndex req) (dr_RolloutsTotal req) (dr_RolloutGroupID req)
            (lookupState R (dr_Workflow req) (dr_State req)) (lookupState R (dr_Workflow req) (dr_SourceState req))
  end.
Proof.
  cbv zeta. unfold decide_dispatch. destruct (assoc (rt_agents R) (dr_AgentName req)) as [agent|].
  2: { unfold mbind, St_bind. split_and!; [done..|by left]. }
  unfold mbind, St_bind, lift, IsBlocked, bindE, wrapE, mbind, St_bind, QueryIssueDependencyState, wrapE, mbind,
    St_bind, sql_query, sql, gated_in.
  destruct (e_fault E (db_calls (wd_db w))) as [e|] eqn:Ef.
  { cbn. split_and!; [done..|]. right; right. intros Hq. by rewrite Hq in Ef. }
  cbn. destruct (db_depstate (wd_db w) !! (dr_Repo req, dr_IssueNum req)) as [s|]; cbn.
  - destruct (gated (ds_Verdict s)); cbn; split_and!; eauto.
  - split_and!; eauto.
Qed.

Lemma prepare_inserts E d a w :
  d_Agent d = Some a →
  let id := e_random E (db_fresh (wd_db w)) in
  let r := Prepare E d w in
  (queue r.2 = queue w ∧ (quiet E → find_task id (wd_db w) ≠ None)) ∨
  (∃ row, queue r.2 = queue w ++ [row] ∧ find_task id (wd_db w) = None ∧
   row = mkTask id (d_Repo d) (d_IssueNum d) (d_AgentName d) EmptyString (a_Role a) (a_Runtime a) (d_Workflow d)
     (d_State d) (Some EmptyString) (Some EmptyString) TaskStatusPending None None None None 0 "[]"
     (d_RolloutIndex d) (if d_RolloutsTotal d <=? 0 then 1 else d_RolloutsTotal d) (d_RolloutGroupID d)
     EmptyString (Some (sql_now E)) (Some (sql_now E))).
Proof.
  intros Ha. cbv zeta. unfold Prepare. rewrite Ha. unfold mbind, St_bind, lift at 2, random.
  unfold wrapE at 1, mbind at 1, St_bind at 1, lift at 1. cbn [fst snd].
  unfold InsertTask, wrapE, mbind, St_bind, sql_tx, queue. cbn.
  destruct (e_fault E (db_calls (wd_db w))) as [e|] eqn:Ef.
  { left. cbn. split; [done|]. intros Hq. by rewrite Hq in Ef. }
  unfold find_task. cbn. destruct (List.find _ (db_tasks (wd_db w))) as [t|] eqn:Et; cbn.
  - left. split; [done|]. by intros _.
  - right. eexists. split; [reflexivity|]. done.
Qed.

(** C16: Every request becomes exactly one pending task, or none: when its agent
    is configured, its issue is not gated, no statement fails and the drawn id
    is new, one row is appended that carries the request and the agent's role
    and runtime; a request for a gated issue or an unknown agent leaves the
    queue as it is; and whatever fails, no other row is ever touched. *)
Theorem request_becomes_one_task E R req w :
  let id := e_random E (db_fresh (wd_db w)) in
  let w' := (handleDispatch E R req w).2 in
  (queue w' = queue w ∨
   ∃ a, assoc (rt_agents R) (dr_AgentName req) = Some (Some a) ∧
        gated_in w (dr_Repo req, dr_IssueNum req) = false ∧ queue w' = queue w ++ [queued_row E req a id]) ∧
  (∀ a, quiet E → assoc (rt_agents R) (dr_AgentName req) = Some (Some a) →
        gated_in w (dr_Repo req, dr_IssueNum req) = false → find_task id (wd_db w) = None →
        queue w' = queue w ++ [queued_row E req a id]).
Proof.
  cbv zeta. unfold handleDispatch, mbind, St_bind.
  destruct (decide_keeps E R req w) as (Hq & Hfr & Hd).
  destruct (decide_dispatch E R req w) as [[d|] w1]; cbn [fst snd] in *.
  - destruct Hd as (agent & Hag & Hg & Hdec). destruct agent as [a|].
    + assert (d_Agent d = Some a) as Hda by by rewrite Hdec.
      pose proof (prepare_inserts E d a w1 Hda) as Hp. cbv zeta in Hp. rewrite Hfr in Hp.
      assert (find_task (e_random E (db_fresh (wd_db w))) (wd_db w1) = find_task (e_random E (db_fresh (wd_db w))) (wd_db w)) as Hf.
      { unfold find_task. unfold queue in Hq. by rewrite Hq. }
      rewrite Hf, Hq in Hp. subst d. destruct Hp as [[Hs Hno]|(row & Hs & _ & ->)].
      * split; [by left|]. intros a' HE _ _ Hnone. by specialize (Hno HE).
      * split; [right; exists a; by split_and!|]. intros a' _ Ha' _ _. by simplify_eq.
    + subst d. cbn. split; [by left|]. intros a _ Ha. congruence.
  - cbn. split; [by left|]. intros a HE Ha Hg. destruct Hd as [?|[?|?]]; first [congruence|by contradiction].
Qed.

(** ** A group without rows *)

Definition demo_router : Router :=
  mkRouter [("dev-agent", Some (mkAgent "dev-agent" "dev" "codex")); ("review-agent", Some (mkAgent "review-agent" "review" "codex"))]
    [("default", default_workflow)].

(** The labels after the dev agent has finished. *)
Definition reviewing_labels : list string := ["workbuddy"; "status:reviewing"].
Definition reviewing_event : ChangeEvent :=
  mkChange EventLabelAdded "o/r" 3 reviewing_labels "status:reviewing" EmptyString.

(** A dispatch group whose requests are still on their way to the queue is
    taken for a stale one: the completion of the dev agent dispatches the
    review, and the label event of the same change, handled before the router
    has queued that request, reclaims the group and dispatches the review again;
    once the router has run, the same event is held back. *)
Theorem unqueued_group_is_dispatched_twice :
  ∃ E C w,
    let dev := (HandleEvent E C (λ _, false) (demo_event 3) w).2 in
    let rev := (MarkAgentCompleted E C "o/r" 3 EmptyString "dev-agent" 0 (Some reviewing_labels) dev).2 in
    let review := mkDispatch "o/r" 3 "review-agent" "default" "reviewing" "developing" 0 0 EmptyString in
    let again := mkDispatch "o/r" 3 "review-agent" "default" "reviewing" "reviewing" 0 0 EmptyString in
    wd_dispatch rev = wd_dispatch dev ++ [review] ∧
    wd_dispatch (HandleEvent E C (λ _, false) reviewing_event rev).2 = wd_dispatch rev ++ [again] ∧
    wd_dispatch (HandleEvent E C (λ _, false) reviewing_event (route E demo_router [review] rev).2).2 = wd_dispatch rev.
Proof.
  exists (demo_env 0), (demo_config "coordinator-a"), empty_world. cbv zeta.
  split_and!; vm_compute; reflexivity.
Qed.
