(* ===== verification/Registration.v ===== *)
(** * Repository registrations

    The codec of [internal/app/repo_runtime.go] between a configuration and the
    record a registration stores, with the normalization of agents of
    [internal/config/loader.go].  The JSON encoding of the payload is a parameter,
    and so is the check that a schema file exists. *)

From S2P Require Import Prelude GoLib Json GoText Types DB Router Config.
From Stdlib Require Import Ascii DecimalString DecimalZ.

Definition RuntimeClaudeCode : string := "claude-code".
Definition RuntimeClaudeShot : string := "claude-oneshot".
Definition RuntimeCodex : string := "codex".
Definition RuntimeCodexExec : string := "codex-exec".
Definition RuntimeCodexServer : string := "codex-appserver".
Definition RuntimeAgentM : string := "agentm".

(** An agent: the fields scheduling reads, those normalization reads or writes, and
    the rest, which is carried along. *)
Record AgentSpec := mkSpec {
  ag_base : AgentConfig;
  ag_PolicySandbox : string;
  ag_PolicyApproval : string;
  ag_PolicyTimeout : Z;
  ag_Timeout : Z;
  ag_SchemaFile : string;
  ag_DevContainerImage : string;
  ag_SourcePath : string;
  ag_rest : string
}.
Definition ag_Name (a : AgentSpec) : string := a_Name (ag_base a).
Definition ag_Runtime (a : AgentSpec) : string := a_Runtime (ag_base a).

Definition defaultSandboxForRuntime (runtime : string) : string :=
  if bool_decide (runtime ∈ [RuntimeClaudeCode; RuntimeClaudeShot; RuntimeCodex; RuntimeAgentM]) then "read-only" else EmptyString.
Definition defaultApprovalForRuntime (runtime : string) : string :=
  if bool_decide (runtime ∈ [RuntimeClaudeCode; RuntimeClaudeShot; RuntimeCodex; RuntimeAgentM]) then "never" else EmptyString.

Definition isAbs (path : string) : bool := HasPrefix path "/".
(** [filepath.Clean] and [Join] are left to [resolve], of the directory of the agent
    file and the schema file. *)
Definition OutputContractSchemaPath (resolve : string → string → string) (a : AgentSpec) : string :=
  let schemaFile := TrimSpace (ag_SchemaFile a) in
  if bool_decide (schemaFile = EmptyString) then EmptyString
  else if isAbs schemaFile then schemaFile
  else if is_blank (ag_SourcePath a) then EmptyString
  else resolve (ag_SourcePath a) schemaFile.

Section Normalize.
Context (resolve : string → string → string) (stat : string → bool).

Definition codex_runtime (r : string) : string :=
  if bool_decide (r ∈ [RuntimeCodex; RuntimeCodexExec; RuntimeCodexServer]) then RuntimeCodex else r.
Definition or_default (s d : string) : string := if bool_decide (s = EmptyString) then d else s.
Definition wide_sandbox (s : string) : bool := bool_decide (s ∈ ["read-only"; "workspace-write"; "danger-full-access"]).
Definition codex_approval (s : string) : bool := bool_decide (s ∈ ["never"; "on-failure"; "on-request"; "via-approver"]).

(** The matrix of runtimes and policies: the sandbox that is used, and a warning. *)
Definition policy_matrix (name runtime sandbox approval : string) : res (string * list string) :=
  let bad_sandbox := EMsg ("unsupported policy.sandbox " +:+ Quote sandbox +:+ " for runtime " +:+ Quote runtime) in
  let bad_approval := EMsg ("unsupported policy.approval " +:+ Quote approval +:+ " for runtime " +:+ Quote runtime) in
  if bool_decide (runtime ∈ [RuntimeClaudeCode; RuntimeClaudeShot]) then
    if negb (wide_sandbox sandbox) then Err bad_sandbox
    else if negb (bool_decide (approval = "never")) then Err bad_approval
    else if bool_decide (sandbox = "workspace-write")
    then Ok ("read-only", ["agent " +:+ Quote name +:+ ": runtime " +:+ Quote runtime
                           +:+ " does not support workspace-write sandbox; degrading to read-only semantics"])
    else Ok (sandbox, [])
  else if bool_decide (runtime ∈ [RuntimeCodex; RuntimeAgentM]) then
    if negb (wide_sandbox sandbox) then Err bad_sandbox
    else if negb (codex_approval approval) then Err bad_approval
    else Ok (sandbox, [])
  else Err (EMsg ("unsupported runtime " +:+ Quote runtime)).

Definition schema_check (a : AgentSpec) : res unit :=
  if bool_decide (ag_SchemaFile a = EmptyString) then Ok tt
  else if is_blank (ag_SchemaFile a) then Err (EMsg "output_contract.schema_file cannot be blank")
  else
    let path := OutputContractSchemaPath resolve a in
    if bool_decide (path = EmptyString) then Err (EMsg "output_contract.schema_file requires agent.SourcePath")
    else if stat path then Ok tt else Err (EMsg ("output_contract.schema_file " +:+ Quote (ag_SchemaFile a))).

Definition NormalizeAgentConfig (a : AgentSpec) : res (AgentSpec * list string) :=
  let runtime := codex_runtime (ag_Runtime a) in
  let timeout := if 0 <? ag_PolicyTimeout a then ag_PolicyTimeout a else ag_Timeout a in
  match schema_check a with
  | Err e => Err e
  | Ok _ =>
      let sandbox := or_default (ag_PolicySandbox a) (defaultSandboxForRuntime runtime) in
      let approval := or_default (ag_PolicyApproval a) (defaultApprovalForRuntime runtime) in
      if bool_decide (sandbox = EmptyString) then Err (EMsg ("policy.sandbox is required for runtime " +:+ Quote runtime))
      else if bool_decide (approval = EmptyString) then Err (EMsg ("policy.approval is required for runtime " +:+ Quote runtime))
      else match policy_matrix (ag_Name a) runtime sandbox approval with
           | Err e => Err e
           | Ok (sandbox, w) =>
               let w' := if negb (is_blank (ag_DevContainerImage a)) && negb (bool_decide (runtime = RuntimeAgentM))
                         then ["agent " +:+ Quote (ag_Name a) +:+ ": dev_container_image is set but runtime is " +:+ Quote runtime] else [] in
               Ok (mkSpec (mkAgent (a_Name (ag_base a)) (a_Role (ag_base a)) runtime) sandbox approval (ag_PolicyTimeout a) timeout
                     (ag_SchemaFile a) (ag_DevContainerImage a) (ag_SourcePath a) (ag_rest a), w ++ w')
           end
  end.

(** ** The payload and the record *)

(** A nil pointer in a list is [None]. *)
Record RepoRegistrationPayload := mkPayload {
  pl_Repo : string;
  pl_Environment : string;
  pl_PollInterval : Z;
  pl_Agents : list (option AgentSpec);
  pl_Workflows : list (option WorkflowConfig)
}.
Record FullConfig := mkFullConfig {
  fc_Repo : string;
  fc_Environment : string;
  fc_PollInterval : Z;
  fc_Agents : list (string * AgentSpec);
  fc_Workflows : list (string * WorkflowConfig)
}.

Context (marshal : RepoRegistrationPayload → string) (unmarshal : string → option RepoRegistrationPayload).

Definition clear_source (a : AgentSpec) : AgentSpec :=
  mkSpec (ag_base a) (ag_PolicySandbox a) (ag_PolicyApproval a) (ag_PolicyTimeout a) (ag_Timeout a) (ag_SchemaFile a)
    (ag_DevContainerImage a) EmptyString (ag_rest a).

Definition BuildRepoRegistrationPayload (cfg : FullConfig) : RepoRegistrationPayload :=
  mkPayload (TrimSpace (fc_Repo cfg)) (TrimSpace (fc_Environment cfg)) (fc_PollInterval cfg)
    ((λ p, Some (clear_source p.2)) <$> fc_Agents cfg) ((λ p, Some p.2) <$> fc_Workflows cfg).

(** [m[k] = v] on an association list. *)
Definition assoc_put {V} (k : string) (v : V) (m : list (string * V)) : list (string * V) :=
  List.filter (λ p, negb (bool_decide (p.1 = k))) m ++ [(k, v)].

Fixpoint decode_agents (l : list (option AgentSpec)) (m : list (string * AgentSpec)) : res (list (string * AgentSpec)) :=
  match l with
  | [] => Ok m
  | None :: l => decode_agents l m
  | Some a :: l =>
      match NormalizeAgentConfig (clear_source a) with
      | Err e => Err (EWrap ("normalize agent " +:+ Quote (ag_Name a)) e)
      | Ok (a, _) => decode_agents l (assoc_put (ag_Name a) a m)
      end
  end.
Definition decode_workflows (l : list (option WorkflowConfig)) : list (string * WorkflowConfig) :=
  foldl (λ m w, match w with Some w => assoc_put (wf_Name w) w m | None => m end) [] l.

Definition DecodeRepoRegistrationConfig (rec : RepoRegistrationRecord) : res FullConfig :=
  match unmarshal (rg_ConfigJSON rec) with
  | None => Err (EMsg "decode registration config")
  | Some payload =>
      match decode_agents (pl_Agents payload) [] with
      | Err e => Err e
      | Ok agents =>
          let workflows := decode_workflows (pl_Workflows payload) in
          match validateWorkflowTriggerConflicts workflows with
          | Err e => Err e
          | Ok _ => Ok (mkFullConfig (rg_Repo rec) (rg_Environment rec) (pl_PollInterval payload) agents workflows)
          end
      end
  end.

Definition BuildRepoRegistrationRecord (payload : RepoRegistrationPayload) : res RepoRegistrationRecord :=
  let candidate := mkPayload (TrimSpace (pl_Repo payload)) (TrimSpace (pl_Environment payload)) 0
                     (pl_Agents payload) (pl_Workflows payload) in
  let rec := mkRepoReg (pl_Repo candidate) (pl_Environment candidate) "active" (marshal candidate) None None in
  match DecodeRepoRegistrationConfig rec with
  | Err e => Err e
  | Ok cfg =>
      let normalized := BuildRepoRegistrationPayload cfg in
      Ok (mkRepoReg (rg_Repo rec) (pl_Environment normalized) (rg_Status rec) (marshal normalized) None None)
  end.

(** ** Normal forms *)

Definition agent_normal (a : AgentSpec) : Prop := ∃ w, NormalizeAgentConfig a = Ok (a, w).

Lemma codex_runtime_idem r : codex_runtime (codex_runtime r) = codex_runtime r.
Proof.
  unfold codex_runtime. destruct (decide (r ∈ [RuntimeCodex; RuntimeCodexExec; RuntimeCodexServer])) as [H|H].
  - by rewrite (bool_decide_eq_true_2 _ H).
  - by rewrite !(bool_decide_eq_false_2 _ H).
Qed.

Lemma or_default_idem s d : or_default (or_default s d) d = or_default s d.
Proof. unfold or_default. repeat case_bool_decide; congruence. Qed.

Lemma policy_matrix_idem name runtime sandbox approval s w :
  policy_matrix name runtime sandbox approval = Ok (s, w) →
  s ≠ EmptyString ∧ (sandbox = s ∨ s = "read-only") ∧ ∃ w', policy_matrix name runtime s approval = Ok (s, w').
Proof.
  unfold policy_matrix. intros H. destruct (bool_decide (runtime ∈ [RuntimeClaudeCode; _])).
  - destruct (wide_sandbox sandbox) eqn:Hw; [|done]. cbn in *. destruct (bool_decide (approval = "never")); [|done]. cbn in *.
    destruct (bool_decide (sandbox = "workspace-write")) eqn:Hs; injection H as <- <-.
    + split; [done|]. split; [by right|]. by eexists.
    + rewrite Hw, Hs. split; [by intros ->|]. split; [by left|]. by eexists.
  - destruct (bool_decide (runtime ∈ _)); [|done]. destruct (wide_sandbox sandbox) eqn:Hw; [|done]. cbn in *.
    destruct (codex_approval approval); [|done]. injection H as <- <-. rewrite Hw. split; [by intros ->|]. split; [by left|]. by eexists.
Qed.

(** Normalizing twice is normalizing once. *)
Lemma NormalizeAgentConfig_idem a a' w : NormalizeAgentConfig a = Ok (a', w) → agent_normal a' ∧ ag_Name a' = ag_Name a.
Proof.
  unfold NormalizeAgentConfig, agent_normal. destruct (schema_check a) as [[]|] eqn:Hsc; [|done].
  set (rt := codex_runtime (ag_Runtime a)). set (sb := or_default (ag_PolicySandbox a) _). set (ap := or_default (ag_PolicyApproval a) _).
  case_bool_decide as Hsb; [done|]. case_bool_decide as Hap; [done|].
  destruct (policy_matrix (ag_Name a) rt sb ap) as [[s w0]|] eqn:Hpm; [|done]. intros [= <- <-].
  destruct (policy_matrix_idem _ _ _ _ _ _ Hpm) as (Hs & _ & w' & Hpm'). split; [|done].
  unfold NormalizeAgentConfig. cbv zeta.
  match goal with |- ∃ _, match schema_check ?x with _ => _ end = _ => assert (schema_check x = Ok tt) as -> by exact Hsc end.
  unfold ag_Runtime, ag_Name in *. cbn [ag_base ag_PolicySandbox ag_PolicyApproval ag_PolicyTimeout ag_Timeout ag_DevContainerImage a_Name a_Role a_Runtime].
  replace (codex_runtime rt) with rt by (unfold rt; by rewrite codex_runtime_idem).
  replace (or_default ap (defaultApprovalForRuntime rt)) with ap by (unfold ap; by rewrite or_default_idem).
  replace (or_default s (defaultSandboxForRuntime rt)) with s by (unfold or_default; by rewrite bool_decide_eq_false_2).
  rewrite (bool_decide_eq_false_2 _ Hap), (bool_decide_eq_false_2 _ Hs), Hpm'.
  eexists. repeat f_equal. by destruct (0 <? ag_PolicyTimeout a).
Qed.

(** ** Decoding what was built *)

(** The map of a decoded configuration: keyed by name, in normal form. *)
Definition keyed_by {V} (name : V → string) (P : V → Prop) (m : list (string * V)) : Prop :=
  NoDup m.*1 ∧ Forall (λ p, p.1 = name p.2 ∧ P p.2) m.
Definition decoded_agent (a : AgentSpec) : Prop := agent_normal a ∧ ag_SourcePath a = EmptyString.

Lemma assoc_put_fresh {V} k (v : V) m : k ∉ m.*1 → assoc_put k v m = m ++ [(k, v)].
Proof.
  intros Hk. unfold assoc_put. f_equal. induction m as [|[a b] m IH]; [done|]. cbn in *.
  rewrite bool_decide_eq_false_2 by set_solver. cbn. f_equal. apply IH. set_solver.
Qed.
Lemma assoc_put_keyed {V} (name : V → string) (P : V → Prop) v m :
  keyed_by name P m → P v → keyed_by name P (assoc_put (name v) v m).
Proof.
  intros [Hnd Hall] Hv. unfold assoc_put. set (f := λ p : string * V, _). split.
  - rewrite fmap_app. apply NoDup_app. split_and!; [|cbn|apply NoDup_singleton].
    + eapply sublist_NoDup; [exact Hnd|]. clear. induction m as [|p m IH]; cbn; [done|]. destruct (f p); cbn; by constructor.
    + intros x Hx ->%list_elem_of_singleton. apply list_elem_of_fmap in Hx as (p & Hp & Hin).
      apply list_elem_of_In, List.filter_In in Hin as [_ Hf]. unfold f in Hf. rewrite <- Hp in Hf. by rewrite bool_decide_eq_true_2 in Hf.
  - apply Forall_app. split; [|by constructor]. rewrite Forall_forall in *. intros p Hin.
    apply Hall. apply list_elem_of_In in Hin. apply List.filter_In in Hin as [Hin _]. by apply list_elem_of_In.
Qed.

Lemma Normalize_source a a' w : NormalizeAgentConfig a = Ok (a', w) → ag_SourcePath a' = ag_SourcePath a.
Proof. unfold NormalizeAgentConfig. repeat case_match; intros; simplify_eq/=; done. Qed.
Lemma clear_source_id a : ag_SourcePath a = EmptyString → clear_source a = a.
Proof. destruct a. cbn. by intros ->. Qed.

Lemma decode_agents_keyed l m m' :
  decode_agents l m = Ok m' → keyed_by ag_Name decoded_agent m → keyed_by ag_Name decoded_agent m'.
Proof.
  revert m. induction l as [|[a|] l IH]; intros m; cbn; [by intros [= <-]| |apply IH].
  destruct (NormalizeAgentConfig (clear_source a)) as [[a' w]|] eqn:Hn; [|done]. intros Hd Hm. eapply IH; [exact Hd|].
  destruct (NormalizeAgentConfig_idem _ _ _ Hn) as [Hnorm _]. apply assoc_put_keyed; [done|]. split; [done|].
  by rewrite (Normalize_source _ _ _ Hn).
Qed.
Lemma decode_agents_id l m :
  keyed_by ag_Name decoded_agent (m ++ l) → decode_agents ((λ p, Some (clear_source p.2)) <$> l) m = Ok (m ++ l).
Proof.
  revert m. induction l as [|[k a] l IH]; intros m [Hnd Hall]; cbn; [by rewrite app_nil_r|].
  apply Forall_app in Hall as [Hm [[Hk [[w Hn] Hs]] Hl]%Forall_cons]. cbn in *.
  rewrite !(clear_source_id a Hs), Hn. rewrite assoc_put_fresh.
  - rewrite <- Hk, IH; [by rewrite <- app_assoc|]. rewrite <- app_assoc. split; [done|].
    apply Forall_app. split; [done|]. constructor; [|done]. cbn. split; [done|]. split; [by exists w|done].
  - rewrite <- Hk. rewrite fmap_app in Hnd. apply NoDup_app in Hnd as (_ & Hd & _). intros Hin. apply (Hd k Hin). cbn. left.
Qed.

Lemma decode_workflows_keyed l m :
  keyed_by wf_Name (λ _, True) m →
  keyed_by wf_Name (λ _, True) (foldl (λ m w, match w with Some w => assoc_put (wf_Name w) w m | None => m end) m l).
Proof. revert m. induction l as [|[w|] l IH]; intros m Hm; cbn; [done| |by apply IH]. apply IH. by apply assoc_put_keyed. Qed.
Lemma decode_workflows_id l : keyed_by wf_Name (λ _, True) l → decode_workflows ((λ p, Some p.2) <$> l) = l.
Proof.
  unfold decode_workflows. intros H. change l with ([] ++ l) in H |- * at 2. revert H. generalize (@nil (string * WorkflowConfig)).
  induction l as [|[k w] l IH]; intros m [Hnd Hall]; cbn; [by rewrite app_nil_r|].
  apply Forall_app in Hall as [Hm [[Hk _] Hl]%Forall_cons]. cbn in Hk. rewrite assoc_put_fresh.
  - rewrite <- Hk, IH; [by rewrite <- app_assoc|]. rewrite <- app_assoc. split; [done|]. apply Forall_app. by split; [|constructor].
  - rewrite <- Hk. rewrite fmap_app in Hnd. apply NoDup_app in Hnd as (_ & Hd & _). intros Hin. apply (Hd k Hin). cbn. left.
Qed.

Ltac payload_simpl :=
  cbn [rg_Repo rg_Environment rg_Status rg_ConfigJSON pl_Repo pl_Environment pl_PollInterval pl_Agents pl_Workflows
       fc_Repo fc_Environment fc_PollInterval fc_Agents fc_Workflows].

(** What a registration stores decodes to a configuration in normal form:
    building the record of that configuration again gives the same record, so
    registering, decoding and registering is registering once.  The interval of the
    payload is not part of what is stored. *)
Theorem registration_roundtrip payload rec :
  (∀ p, unmarshal (marshal p) = Some p) →
  TrimSpace (pl_Repo payload) = pl_Repo payload → TrimSpace (pl_Environment payload) = pl_Environment payload →
  BuildRepoRegistrationRecord payload = Ok rec →
  ∃ cfg, DecodeRepoRegistrationConfig rec = Ok cfg ∧ fc_PollInterval cfg = 0 ∧
    Forall (λ p, p.1 = ag_Name p.2 ∧ agent_normal p.2) (fc_Agents cfg) ∧
    BuildRepoRegistrationRecord (BuildRepoRegistrationPayload cfg) = Ok rec.
Proof.
  intros Hcodec Hrepo Henv. unfold BuildRepoRegistrationRecord at 1, DecodeRepoRegistrationConfig at 1. payload_simpl.
  rewrite Hcodec. payload_simpl. destruct (decode_agents (pl_Agents payload) []) as [agents|] eqn:Ha; [|done].
  set (wfs := decode_workflows (pl_Workflows payload)). destruct (validateWorkflowTriggerConflicts wfs) as [[]|] eqn:Hv; [|done].
  assert (Hka : keyed_by ag_Name decoded_agent agents).
  { eapply decode_agents_keyed; [exact Ha|]. split; constructor. }
  assert (Hkw : keyed_by wf_Name (λ _, True) wfs) by (apply decode_workflows_keyed; split; constructor).
  rewrite Hrepo, Henv. intros [= <-]. payload_simpl.
  assert (Hdec : ∀ repo env st t1 t2, DecodeRepoRegistrationConfig (mkRepoReg repo env st
     (marshal (mkPayload (pl_Repo payload) (pl_Environment payload) 0 ((λ p, Some (clear_source p.2)) <$> agents) ((λ p, Some p.2) <$> wfs))) t1 t2)
     = Ok (mkFullConfig repo env 0 agents wfs)).
  { intros. unfold DecodeRepoRegistrationConfig. payload_simpl. rewrite Hcodec. payload_simpl.
    rewrite (decode_agents_id agents []) by done. cbn [app]. by rewrite decode_workflows_id, Hv. }
  unfold BuildRepoRegistrationPayload at 1. payload_simpl. rewrite Hrepo, Henv. eexists. split; [apply Hdec|]. split; [done|]. split.
  - destruct Hka as [_ Hka]. eapply Forall_impl; [exact Hka|]. intros p [? [? _]]. done.
  - unfold BuildRepoRegistrationRecord, BuildRepoRegistrationPayload. payload_simpl. rewrite !Hrepo, !Henv. rewrite Hdec. payload_simpl. by rewrite Hrepo, Henv.
Qed.
End Normalize.

(** ** Samples *)

Definition sample_agent : AgentSpec :=
  mkSpec (mkAgent "dev-agent" "dev" RuntimeCodexExec) EmptyString EmptyString 0 600 EmptyString EmptyString "agents/dev.md" EmptyString.
Definition sample_payload (interval : Z) : RepoRegistrationPayload := mkPayload "o/r" "prod" interval [Some sample_agent; None] [].

(** A codec: the number of the payload, in decimal. *)
#[export] Instance AgentConfig_eq_dec : EqDecision AgentConfig.
Proof. solve_decision. Defined.
#[export] Instance AgentSpec_eq_dec : EqDecision AgentSpec.
Proof. solve_decision. Defined.
#[export] Instance WorkflowConfig_eq_dec : EqDecision WorkflowConfig.
Proof. solve_decision. Defined.
#[export] Instance JoinConfig_countable : Countable JoinConfig :=
  inj_countable' (λ j, (jc_Strategy j, jc_MinSuccesses j)) (λ p, mkJoin p.1 p.2) (λ '(mkJoin _ _), eq_refl).
#[export] Instance State_countable : Countable State :=
  inj_countable' (λ s, (s_EnterLabel s, s_Agent s, s_Agents s, s_Mode s, s_Join s, s_Rollouts s, s_Transitions s))
    (λ '(a, b, c, d, e, f, g), mkState a b c d e f g) (λ '(mkState _ _ _ _ _ _ _), eq_refl).
#[export] Instance WorkflowConfig_countable : Countable WorkflowConfig :=
  inj_countable' (λ w, (wf_Name w, wf_IssueLabel w, wf_MaxRetries w, wf_MaxReviewCycles w, wf_States w))
    (λ '(a, b, c, d, e), mkWorkflow a b c d e) (λ '(mkWorkflow _ _ _ _ _), eq_refl).
#[export] Instance AgentConfig_countable : Countable AgentConfig :=
  inj_countable' (λ a, (a_Name a, a_Role a, a_Runtime a)) (λ '(x, y, z), mkAgent x y z) (λ '(mkAgent _ _ _), eq_refl).
#[export] Instance AgentSpec_countable : Countable AgentSpec :=
  inj_countable' (λ a, (ag_base a, ag_PolicySandbox a, ag_PolicyApproval a, ag_PolicyTimeout a, ag_Timeout a, ag_SchemaFile a,
                        ag_DevContainerImage a, ag_SourcePath a, ag_rest a))
    (λ '(a, b, c, d, e, f, g, h, i), mkSpec a b c d e f g h i) (λ '(mkSpec _ _ _ _ _ _ _ _ _), eq_refl).
Definition payload_tuple (p : RepoRegistrationPayload) :=
  (pl_Repo p, pl_Environment p, pl_PollInterval p, pl_Agents p, pl_Workflows p).
Definition number_codec (p : RepoRegistrationPayload) : string := itoa (Z.pos (encode (payload_tuple p))).
Definition number_decodec (s : string) : option RepoRegistrationPayload :=
  i ← NilZero.int_of_string s;
  '(a, b, c, d, e) ← decode (Z.to_pos (Z.of_int i));
  Some (mkPayload a b c d e).
Lemma number_codec_roundtrip p : number_decodec (number_codec p) = Some p.
Proof.
  unfold number_decodec, number_codec. rewrite int_of_itoa. cbn [mbind option_bind]. rewrite DecimalZ.of_to.
  cbn [Z.to_pos]. rewrite decode_encode. by destruct p.
Qed.

Lemma registration_roundtrip_witness :
  ∃ rec cfg, BuildRepoRegistrationRecord (λ _ s, s) (λ _, true) number_codec number_decodec (sample_payload 60) = Ok rec ∧
    DecodeRepoRegistrationConfig (λ _ s, s) (λ _, true) number_decodec rec = Ok cfg ∧ fc_PollInterval cfg = 0.
Proof.
  destruct (BuildRepoRegistrationRecord (λ _ s, s) (λ _, true) number_codec number_decodec (sample_payload 60)) as [rec|e] eqn:Hb.
  - destruct (registration_roundtrip (λ _ s, s) (λ _, true) number_codec number_decodec (sample_payload 60) rec)
      as (cfg & Hd & Hi & _); [apply number_codec_roundtrip|by vm_compute|by vm_compute|exact Hb|].
    exists rec, cfg. split; [reflexivity|]. split; [exact Hd|exact Hi].
  - exfalso. revert Hb. unfold BuildRepoRegistrationRecord, DecodeRepoRegistrationConfig. cbn [rg_ConfigJSON].
    rewrite number_codec_roundtrip. lazy -[number_codec]. discriminate.
Defined.

(** The interval a repository asks for is lost: the record of a configuration with an
    interval is that of the configuration that does not say one. *)
Theorem registration_drops_poll_interval resolve stat marshal unmarshal repo env interval agents workflows :
  BuildRepoRegistrationRecord resolve stat marshal unmarshal (mkPayload repo env interval agents workflows)
  = BuildRepoRegistrationRecord resolve stat marshal unmarshal (mkPayload repo env 0 agents workflows).
Proof. reflexivity. Qed.
