(* ===== verification/WorkerClient.v ===== *)
(** * The worker's HTTP client

    [internal/workerclient/client.go]: one request ([doJSONOnce]), what its answer
    means, and the retry loop with exponential backoff ([doJSON]).

    Time passes in requests and waits; the context of a call ends at a point in time
    ([until]), by its deadline or its cancellation.  The answers of the network are a
    function of the number of the request and the time. *)

From S2P Require Import Prelude GoLib GoText Types.

(** Why a call fails: the transport ([net.Error]), reading the body, the status of the
    answer, decoding it, encoding the request, or the context. *)
Inductive ClientError :=
  | NetError
  | ReadError (net : bool)
  | ErrUnauthorized
  | ServerError (status : Z) (body : string)
  | UnexpectedStatus (status : Z) (body : string)
  | DecodeError
  | MarshalError
  | CtxError.
#[export] Instance ClientError_eq_dec : EqDecision ClientError.
Proof. solve_decision. Defined.

(** [Error()], as far as the code looks into it. *)
Definition err_text (e : ClientError) : string :=
  match e with
  | NetError => "workerclient: request failed"
  | ReadError _ => "workerclient: read"
  | ErrUnauthorized => "workerclient: unauthorized"
  | ServerError st body => "workerclient: server error " +:+ itoa st +:+ ": " +:+ TrimSpace body
  | UnexpectedStatus st body => "workerclient: unexpected status " +:+ itoa st +:+ ": " +:+ TrimSpace body
  | DecodeError => "workerclient: decode"
  | MarshalError => "workerclient: marshal"
  | CtxError => "context done"
  end.

(** What comes back: nothing, an answer whose body breaks off, or a whole one;
    [decodes] is whether the body is the JSON that is expected. *)
Inductive HTTP :=
  | HNone
  | HBroken (net : bool)
  | HAnswer (status : Z) (body : string) (decodes : bool).

(** [encodes]: whether the request body could be encoded; [out]: whether the caller
    wants the answer decoded. *)
Definition doJSONOnce (encodes out : bool) (ok : list Z) (h : HTTP) : Z + ClientError :=
  if negb encodes then inr MarshalError
  else match h with
       | HNone => inr NetError
       | HBroken net => inr (ReadError net)
       | HAnswer st body decodes =>
           if bool_decide (st ∈ ok) then
             if out && negb (bool_decide (body = EmptyString)) && negb decodes then inr DecodeError else inl st
           else if st =? 401 then inr ErrUnauthorized
           else if 500 <=? st then inr (ServerError st body)
           else inr (UnexpectedStatus st body)
       end.

Definition isRetryable (e : ClientError) : bool :=
  match e with
  | NetError => true
  | ReadError net => net
  | _ => Contains (err_text e) "server error"
  end.

Definition defaultMaxBackoff : Z := 60 * second.

Section retry.
Context (encodes out : bool) (ok : list Z).
(** The answer to request [n], sent at a time, and how long it takes. *)
Context (net : nat → Z → HTTP * Z) (until : option Z) (maxBackoff : Z).

Definition ctx_done (now : Z) : bool := match until with Some t => t <=? now | None => false end.

(** The loop, from request [n] on: the result, the requests sent and the time. *)
Fixpoint do_loop (fuel n : nat) (now backoff : Z) : option ((Z + ClientError) * nat * Z) :=
  match fuel with
  | O => None
  | S fuel =>
      let '(h, dt) := net n now in
      let now := now + dt in
      match doJSONOnce encodes out ok h with
      | inl st => Some (inl st, S n, now)
      | inr e =>
          if bool_decide (e = ErrUnauthorized) || negb (isRetryable e) || ctx_done now then Some (inr e, S n, now)
          else if ctx_done (now + backoff)
          then Some (inr CtxError, S n, default now until)
          else do_loop fuel (S n) (now + backoff) (Z.min (backoff * 2) maxBackoff)
      end
  end.

(** Fuel for the seconds that are left: a wait takes at least one. *)
Definition doJSON (now : Z) : option ((Z + ClientError) * nat * Z) :=
  match until with
  | Some t => do_loop (Z.to_nat ((t - now) / second) + 2) 0 now second
  | None => None
  end.
End retry.

(** ** The loop ends with its context *)

(** The first [j] waits, from a backoff on. *)
Fixpoint waits (maxBackoff : Z) (j : nat) (backoff : Z) : Z :=
  match j with
  | O => 0
  | S j => backoff + waits maxBackoff j (Z.min (backoff * 2) maxBackoff)
  end.

Lemma doJSONOnce_ok encodes out ok h st : doJSONOnce encodes out ok h = inl st → st ∈ ok.
Proof.
  unfold doJSONOnce. destruct (negb encodes); [done|]. destruct h as [|net|st' body d]; [done..|].
  case_bool_decide; [|by repeat case_match]. destruct (_ && _); [done|]. by intros [= <-].
Qed.

(** What a call that was retried ends with. *)
Definition call_end (ok : list Z) (t : Z) (r : Z + ClientError) (fin : Z) : Prop :=
  match r with
  | inl st => st ∈ ok
  | inr e => isRetryable e = true → e ≠ ErrUnauthorized → t ≤ fin
  end.

Section bound.
Context (encodes out : bool) (ok : list Z) (net : nat → Z → HTTP * Z) (t maxBackoff : Z).
Context (Hnet : ∀ n now, 0 ≤ (net n now).2) (Hmax : second ≤ maxBackoff).

Lemma do_loop_ends fuel n now backoff :
  second ≤ backoff → (1 ≤ fuel)%nat → t - now < Z.of_nat fuel * second →
  ∃ r j fin, do_loop encodes out ok net (Some t) maxBackoff fuel n now backoff = Some (r, (n + S j)%nat, fin) ∧
    (j = O ∨ now + waits maxBackoff j backoff < t) ∧ call_end ok t r fin.
Proof.
  revert n now backoff. induction fuel as [|fuel IH]; intros n now backoff Hb H1 Hf; [lia|]. cbn [do_loop].
  pose proof (Hnet n now) as Hdt. destruct (net n now) as [h dt]. cbn [snd] in Hdt.
  assert (Hk : (S n = n + 1)%nat) by lia. destruct (doJSONOnce encodes out ok h) as [st|e] eqn:E.
  { apply doJSONOnce_ok in E. rewrite Hk. eexists _, O, _. split; [done|]. by split; [left|]. }
  unfold ctx_done. destruct (bool_decide (e = ErrUnauthorized)) eqn:Eu; cbn [orb].
  { apply bool_decide_eq_true in Eu. rewrite Hk. eexists _, O, _. split; [done|]. split; [by left|]. by intros _ ?. }
  destruct (negb (isRetryable e)) eqn:Er; cbn [orb].
  { apply negb_true_iff in Er. rewrite Hk. eexists _, O, _. split; [done|]. split; [by left|]. cbn. congruence. }
  destruct (Z.leb_spec t (now + dt)).
  { rewrite Hk. eexists _, O, _. split; [done|]. split; [by left|]. by intros _ _. }
  destruct (Z.leb_spec t (now + dt + backoff)).
  { rewrite Hk. eexists _, O, _. split; [done|]. split; [by left|]. done. }
  assert (Hs : second = 1000000000) by done.
  destruct (IH (S n) (now + dt + backoff) (Z.min (backoff * 2) maxBackoff)) as (r & j & fin & Hd & Hj & He); [lia|lia|lia|].
  exists r, (S j), fin. split; [rewrite Hd; do 3 f_equal; lia|]. split; [|done]. right. cbn [waits].
  destruct Hj as [->|Hj]; cbn [waits]; lia.
Qed.

Lemma waits_pos j backoff : second ≤ backoff → 0 ≤ waits maxBackoff j backoff.
Proof.
  assert (Hs : second = 1000000000) by done. revert backoff. induction j as [|j IH]; intros b Hb; cbn [waits]; [lia|].
  pose proof (IH (Z.min (b * 2) maxBackoff)). lia.
Qed.
End bound.

Definition defaultRemoteTaskAPITimeout : Z := 5 * second.
Definition boundedRemoteTaskAPITimeout (timeout : Z) : Z :=
  if (timeout <=? 0) || (defaultRemoteTaskAPITimeout <? timeout) then defaultRemoteTaskAPITimeout else timeout.

(** Every call of the client a worker makes ends, whatever the network does: under
    the bounded timeout of the worker it returns after at most three requests, with
    an accepted status, or with an error that is not worth a retry, or because its
    time is over. *)
Theorem client_calls_are_bounded encodes out ok net timeout now :
  (∀ n now, 0 ≤ (net n now).2) →
  let t := now + boundedRemoteTaskAPITimeout timeout in
  ∃ r k fin, doJSON encodes out ok net (Some t) defaultMaxBackoff now = Some (r, k, fin) ∧ (1 ≤ k ≤ 3)%nat ∧ call_end ok t r fin.
Proof.
  intros Hnet t. assert (Hs : second = 1000000000) by done.
  assert (Ht : 0 < t - now ≤ 5 * second).
  { unfold t, boundedRemoteTaskAPITimeout, defaultRemoteTaskAPITimeout.
    destruct (Z.leb_spec timeout 0), (Z.ltb_spec (5 * second) timeout); cbn; lia. }
  unfold doJSON. destruct (do_loop_ends encodes out ok net t defaultMaxBackoff Hnet ltac:(unfold defaultMaxBackoff; lia)
    (Z.to_nat ((t - now) / second) + 2) 0 now second) as (r & j & fin & Hd & Hj & He); [lia|lia| |].
  { pose proof (Z.mod_pos_bound (t - now) second ltac:(lia)). pose proof (Z.div_mod (t - now) second ltac:(lia)).
    pose proof (Z.div_pos (t - now) second ltac:(lia) ltac:(lia)). lia. }
  exists r, (0 + S j)%nat, fin. split; [done|]. split; [|done]. split; [lia|].
  destruct j as [|[|[|j]]]; [lia..|]. exfalso. destruct Hj as [|Hj]; [done|]. cbn [waits] in Hj.
  unfold defaultMaxBackoff in *. rewrite !Z.min_l in Hj by lia.
  pose proof (waits_pos (60 * second) ltac:(lia) j (second * 2 * 2 * 2) ltac:(lia)). lia.
Qed.

(** A coordinator that is down for good: three requests, then the call is over. *)
Lemma client_calls_are_bounded_witness :
  doJSON true false [200] (λ _ _, (HAnswer 503 "down" true, 0)) (Some (5 * second)) defaultMaxBackoff 0 = Some (inr CtxError, 3%nat, 5 * second) ∧
  ∃ r k fin, doJSON true false [200] (λ _ _, (HAnswer 503 "down" true, 0)) (Some (0 + boundedRemoteTaskAPITimeout 0)) defaultMaxBackoff 0 = Some (r, k, fin) ∧
    (1 ≤ k ≤ 3)%nat ∧ call_end [200] (0 + boundedRemoteTaskAPITimeout 0) r fin.
Proof.
  split; [vm_compute; reflexivity|]. apply (client_calls_are_bounded true false [200] (λ _ _, (HAnswer 503 "down" true, 0)) 0 0).
  intros n now. simpl. lia.
Defined.
