(* ===== verification/Worker.v ===== *)
(** * The worker's task loop

    [internal/worker]: [Executor.Execute] ([executor.go]) prepares a workspace, starts
    the agent and cleans up; [DistributedWorker.ExecuteTask] ([distributed.go]) runs it
    under a heartbeat, checks the labels ([reporting_helpers.go]), and gives the result
    or the task back to the coordinator.

    Every call to something outside is an entry of the trace, and its answer is an
    arbitrary function of the trace so far.  The goroutine that releases the task on
    shutdown and the heartbeat loop run between the steps of [ExecuteTask]: at each
    program point the schedule says which of their steps happen.  Times, spans and log
    lines are left out; errors of the reporter and of the cleanup calls are only
    logged, so their answers are not asked for. *)

From S2P Require Import Prelude GoLib GoText LabelCheck Types StateMachine Config Registration WorkerClient.

(** ** Results *)

Record RunResult := mkRun {
  rn_ExitCode : Z;
  rn_Stderr : string;
  rn_Duration : Z;
  rn_LastMessage : string;
  rn_Meta : gmap string string;
  rn_SessionPath : string;
  rn_RawSessionPath : string;
  rn_SynthesisDecision : option SynthesisDecision
}.

Definition MetaInfraFailure : string := "infra_failure".
Definition MetaInfraFailureReason : string := "infra_failure_reason".
Definition meta (r : RunResult) (k : string) : string := default EmptyString (rn_Meta r !! k).

Definition IsInfraFailure (r : option RunResult) : bool :=
  match r with Some r => bool_decide (meta r MetaInfraFailure = "true") | None => false end.
Definition infraFailureResult (reason stderr : string) : RunResult :=
  mkRun (-1) stderr 0 EmptyString (<[MetaInfraFailure := "true"]> {[MetaInfraFailureReason := reason]}) EmptyString EmptyString None.
Definition executionStatus (r : option RunResult) (runErr : option string) : string :=
  let timeout := match r with Some r => bool_decide (meta r "timeout" = "true") | None => false end in
  if timeout then TaskStatusTimeout
  else if bool_decide (runErr ≠ None) || match r with Some r => negb (rn_ExitCode r =? 0) | None => false end
  then TaskStatusFailed else TaskStatusCompleted.

(** Errors of a run are their texts. *)
Record Execution := mkExecution {
  x_Result : option RunResult;
  x_RunErr : option string;
  x_PreLabels : option (list string);
  x_PostLabels : option (list string);
  x_CompletionLabels : list string;
  x_EventErr : bool;
  x_FailureSource : string
}.
Definition ExitCode (x : Execution) : Z := match x_Result x with None => -1 | Some r => rn_ExitCode r end.
Definition ExecStatus (x : Execution) : string :=
  if match x_Result x with Some r => bool_decide (meta r "timeout" = "true") | None => false end then "timeout"
  else if bool_decide (x_RunErr x ≠ None) || negb (ExitCode x =? 0) then "failed" else "completed".
Definition InfraReason (x : Execution) : string :=
  match x_Result x with Some r => meta r MetaInfraFailureReason | None => EmptyString end.

(** ** The trace *)

Record ResultRequest := mkResultReq {
  rq_WorkerID : string;
  rq_Status : string;
  rq_CurrentLabels : list string;
  rq_InfraFailure : bool;
  rq_InfraReason : string;
  rq_SynthesisDecision : option SynthesisDecision
}.

Inductive Reason :=
  | WorkerShutdown
  | InfraText (reason : string)
  | WorktreeFailed (err : option string)
  | SubmitFailed (e : ClientError).

Inductive Call :=
  | CLock (repo : string) (issue : Z)
  | CUnlock
  | CCreate (ok : bool)
  | CRemove
  | CPrepared
  | CStart (runtime : string) (ok : bool)
  | CCloseSession
  | CReadLabels
  | CRun
  | CDrain
  | CCloseManaged (status : string)
  | CCleanup
  | CHeartbeat (err : option ClientError)
  | CRelease (why : Reason) (err : option ClientError)
  | CSubmit (req : ResultRequest) (err : option ClientError)
  | CSleep (d : Z)
  | CCapture
  | CLabelEvent (c : Classification)
  | CNeedsHuman (summary : string)
  | CVerify
  | CReport (sync_failed : bool)
  | CVerdict (reason : string).

(** The goroutine of the shutdown release. *)
Inductive Releaser := RWaiting | RCalled (ok : bool) | RDone.

Record W := mkW {
  w_trace : list Call;
  w_ctx : bool;
  w_taskCtx : bool;
  w_released : bool;
  w_releaser : Releaser;
  w_heart : bool
}.
Definition log_call (c : Call) (w : W) : W := mkW (w_trace w ++ [c]) (w_ctx w) (w_taskCtx w) (w_released w) (w_releaser w) (w_heart w).
Definition call (c : Call) : St W unit := modS (log_call c).

Definition is_none {A} (o : option A) : bool := match o with None => true | Some _ => false end.

Inductive RunOutcome := Returned (r : option RunResult) (err : option string) | Panicked.

(** A step of something else: the context is cancelled, the releaser calls or stores
    its flag, the heartbeat ticks. *)
Inductive Conc := KCancel | KRelease | KStore | KHeartbeat.

Record WEnv := mkWEnv {
  we_sched : nat → list Call → list Conc;
  we_create : list Call → option string;         (** the error of the workspace manager *)
  we_start : list Call → option string;          (** the error of the launcher *)
  we_labels : list Call → option (list string);  (** [None] on an error *)
  we_run : list Call → RunOutcome;
  we_drain : list Call → string * bool;          (** the path of the events, whether capture failed *)
  we_handle : list Call → bool;                  (** whether the session is managed *)
  we_heartbeat : list Call → option ClientError;
  we_release : list Call → option ClientError;
  we_submit : list Call → option ClientError;
  we_verify : list Call → option bool            (** [None] on an error, whether it is partial *)
}.

Definition IsTaskOwnershipLost (e : ClientError) : bool :=
  let msg := err_text e in
  Contains msg "worker_id does not match claimed task" || Contains msg "task already completed" ||
  Contains msg "not claimable by this worker" || Contains msg "task is no longer owned by worker".
Definition errorsIsUnauthorized (e : ClientError) : bool := bool_decide (e = ErrUnauthorized).

Section worker.
Context (E : WEnv).

Definition release_call (why : Reason) : St W (option ClientError) :=
  λ w, let err := we_release E (w_trace w) in (err, log_call (CRelease why err) w).

(** One concurrent step; one that is not enabled does nothing. *)
Definition conc_step (k : Conc) (w : W) : W :=
  match k with
  | KCancel => mkW (w_trace w) true true (w_released w) (w_releaser w) (w_heart w)
  | KRelease =>
      match w_releaser w with
      | RWaiting =>
          if w_ctx w then
            let '(err, w) := release_call WorkerShutdown w in
            mkW (w_trace w) (w_ctx w) (w_taskCtx w) (w_released w) (RCalled (is_none err)) (w_heart w)
          else w
      | _ => w
      end
  | KStore =>
      match w_releaser w with
      | RCalled ok => mkW (w_trace w) (w_ctx w) true (w_released w || ok) RDone (w_heart w)
      | _ => w
      end
  | KHeartbeat =>
      if w_heart w && negb (w_taskCtx w) then
        let err := we_heartbeat E (w_trace w) in
        let w := log_call (CHeartbeat err) w in
        match err with
        | Some e => if negb (bool_decide (e = CtxError)) && negb (errorsIsUnauthorized e) && IsTaskOwnershipLost e
                    then mkW (w_trace w) (w_ctx w) true (w_released w) (w_releaser w) false else w
        | None => w
        end
      else w
  end.
Definition yield (n : nat) : St W unit := modS (λ w, foldl (λ w k, conc_step k w) w (we_sched E n (w_trace w))).

(** ** executor.go *)

Definition deferred {A} (m : St W A) (d : A → St W unit) : St W A := r ← m; d r;; mret r.

(** [wt_Workspace]: the task has a workspace manager; [wt_Cleanup]: a cleanup hook. *)
Record WTask := mkWTask {
  wt_Repo : string;
  wt_IssueNum : Z;
  wt_Workspace : bool;
  wt_Cleanup : bool;
  wt_OnPrepared : bool;
  wt_Runtime : string;
  wt_Labels : list string
}.

Definition snapshotIssueLabels : St W (option (list string)) := λ w, (we_labels E (w_trace w), log_call CReadLabels w).

(** From the start of the agent to the result: the execution ([None] after a panic)
    and the status for the session. *)
Definition execute_run (t : WTask) (run : list Call → RunOutcome) : St W (option Execution * string) :=
  (if wt_OnPrepared t then call CPrepared else mret tt);;
  e ← (λ w, let e := we_start E (w_trace w) in (e, log_call (CStart (wt_Runtime t) (is_none e)) w));
  match e with
  | Some e =>
      let r := infraFailureResult ("launcher Start() failed: " +:+ e) e in
      mret (Some (mkExecution (Some r) (Some e) (Some []) (Some []) [] false "launcher_start_error"),
            executionStatus (Some r) (Some e))
  | None =>
      deferred
        (pre ← snapshotIssueLabels;
         yield 1;;
         out ← (λ w, (run (w_trace w), log_call CRun w));
         match out with
         | Panicked => mret (None, TaskStatusFailed)
         | Returned result runErr =>
             yield 2;;
             '(path, eventErr) ← (λ w, (we_drain E (w_trace w), log_call CDrain w));
             let result := match result with
                           | Some r => if negb (bool_decide (path = EmptyString)) && negb eventErr
                                       then Some (mkRun (rn_ExitCode r) (rn_Stderr r) (rn_Duration r) (rn_LastMessage r) (rn_Meta r) path
                                                    (if bool_decide (rn_RawSessionPath r = EmptyString) then rn_SessionPath r else rn_RawSessionPath r)
                                                    (rn_SynthesisDecision r))
                                       else Some r
                           | None => None
                           end in
             post ← snapshotIssueLabels;
             let completion := match post with Some l => l | None => wt_Labels t end in
             let '(r, source) := match result with
                                 | Some r => (r, EmptyString)
                                 | None => (infraFailureResult "session.Run returned nil result" (default EmptyString runErr), "session_run_nil_result")
                                 end in
             let r := match runErr with
                      | Some e => if bool_decide (rn_Stderr r = EmptyString)
                                  then mkRun (rn_ExitCode r) e (rn_Duration r) (rn_LastMessage r) (rn_Meta r) (rn_SessionPath r) (rn_RawSessionPath r) (rn_SynthesisDecision r) else r
                      | None => r
                      end in
             let source := if bool_decide (source = EmptyString) && IsInfraFailure (Some r) then "launcher_infra_failure" else source in
             mret (Some (mkExecution (Some r) runErr pre post completion eventErr source), executionStatus (Some r) runErr)
         end)
        (λ _, call CCloseSession)
  end.

(** The worktree around the run, and the cleanup hook after it. *)
Definition execute_body (t : WTask) (run : list Call → RunOutcome) : St W (option Execution * string) :=
  deferred
    (if wt_Workspace t then
       e ← (λ w, let e := we_create E (w_trace w) in (e, log_call (CCreate (is_none e)) w));
       match e with
       | Some e =>
           let r := infraFailureResult ("worktree setup failed: " +:+ e) e in
           let runErr := Some ("worktree setup failed: " +:+ e) in
           mret (Some (mkExecution (Some r) runErr (Some []) (Some []) [] false "worktree_setup_error"), executionStatus (Some r) runErr)
       | None => deferred (execute_run t run) (λ _, call CRemove)
       end
     else execute_run t run)
    (λ _, if wt_Cleanup t then call CCleanup else mret tt).

(** The session that the task holds when its run is over is closed with its status. *)
Definition closeManagedSession (status : string) : St W unit :=
  λ w, if we_handle E (w_trace w) then call (CCloseManaged status) w else (tt, w).

Definition Execute (t : WTask) (run : list Call → RunOutcome) : St W (option Execution) :=
  call (CLock (wt_Repo t) (wt_IssueNum t));;
  r ← deferred (deferred (execute_body t run) (λ r, closeManagedSession r.2)) (λ _, call CUnlock);
  mret r.1.

(** ** reporting_helpers.go *)

(** The states of a workflow in the order of their names. *)
Definition state_names (wf : WorkflowConfig) : list string := sort_strings (wf_States wf).*1.

(** States with a label that has not been seen. *)
Fixpoint labelled (seen : list string) (wf : WorkflowConfig) (names : list string) : list LabelCheck.State :=
  match names with
  | [] => []
  | name :: names =>
      match assoc (wf_States wf) name with
      | None => labelled seen wf names
      | Some st =>
          if bool_decide (s_EnterLabel st = EmptyString) || bool_decide (s_EnterLabel st ∈ seen) then labelled seen wf names
          else LabelCheck.mkState name (s_EnterLabel st) :: labelled (s_EnterLabel st :: seen) wf names
      end
  end.

Definition resolveWorkflowLabelState (wf : WorkflowConfig) (current : LabelCheck.State) : option State :=
  match (if bool_decide (st_Name current = EmptyString) then None else assoc (wf_States wf) (st_Name current)) with
  | Some st => Some st
  | None =>
      if bool_decide (st_Label current = EmptyString) then None
      else List.find (λ st, bool_decide (s_EnterLabel st = st_Label current)) (omap (assoc (wf_States wf)) (state_names wf))
  end.

Definition exitCodeForValidation (r : option RunResult) : Z := match r with None => -1 | Some r => rn_ExitCode r end.

(** [None] is an error: no configuration, no such workflow or state. *)
Definition validateLabelTransition (cfg : option FullConfig) (workflow state : string) (pre post : list string)
    (result : option RunResult) : option LabelCheck.Result :=
  cfg ← cfg;
  wf ← assoc (fc_Workflows cfg) workflow;
  queued ← assoc (wf_States wf) state;
  let known := labelled [] wf (state_names wf) in
  let current := ResolveCurrent pre (LabelCheck.mkState state (s_EnterLabel queued)) known in
  cur ← resolveWorkflowLabelState wf current;
  Some (Classify (mkInput pre post (exitCodeForValidation result) current (labelled [] wf (s_Transitions cur).*2) known)).

Definition workflowMaxRetries (cfg : option FullConfig) (workflow : string) : Z :=
  match cfg with
  | None => 3
  | Some cfg => match assoc (fc_Workflows cfg) workflow with
                | Some wf => if 0 <? wf_MaxRetries wf then wf_MaxRetries wf else 3
                | None => 3
                end
  end.

(** ** distributed.go *)

Definition ms : Z := 1000000.
Definition submitResultMaxAttempts : nat := 3.
Definition submitResultInitialDelay : Z := 250 * ms.
Definition submitResultMaxDelay : Z := 2 * second.

Definition submit_call (req : ResultRequest) : St W (option ClientError) :=
  λ w, let err := we_submit E (w_trace w) in (err, log_call (CSubmit req err) w).

(** The attempts that are left after this one. *)
Fixpoint submit_loop (rest : nat) (delay : Z) (req : ResultRequest) : St W (option ClientError) :=
  err ← submit_call req;
  match err with
  | None => mret None
  | Some e =>
      yield 5;;
      cancelled ← getsS w_ctx;
      if cancelled || errorsIsUnauthorized e || IsTaskOwnershipLost e then mret (Some e)
      else match rest with
           | O => mret (Some e)
           | S rest =>
               call (CSleep delay);;
               yield 6;;
               cancelled ← getsS w_ctx;
               if (cancelled : bool) then mret (Some CtxError) else submit_loop rest (Z.min (delay * 2) submitResultMaxDelay) req
           end
  end.
Definition submitResultWithRetry (req : ResultRequest) : St W (option ClientError) :=
  submit_loop (submitResultMaxAttempts - 1) submitResultInitialDelay req.

Record RemoteTask := mkRemoteTask {
  rt_TaskID : string;
  rt_Repo : string;
  rt_IssueNum : Z;
  rt_AgentName : string;
  rt_Workflow : string;
  rt_State : string;
  rt_Agent : option AgentSpec
}.
(** [dp_Labels]: the labels of [BuildRemoteTaskContext]. *)
Record Deps := mkDeps {
  dp_Config : option FullConfig;
  dp_Executor : bool;
  dp_Client : bool;
  dp_Reporter : bool;
  dp_Recorder : bool;
  dp_Workspace : bool;
  dp_WorkerID : string;
  dp_RuntimeAlias : string;
  dp_Labels : list string
}.

Inductive TaskErr :=
  | ETaskRequired
  | EAgentNotFound
  | EDepRequired
  | EPanicked
  | ERun (err : option string)
  | ESubmit (e : ClientError).

Definition resolveAgentConfig (d : Deps) (task : RemoteTask) : option AgentSpec :=
  match rt_Agent task with
  | Some a => Some a
  | None => cfg ← dp_Config d; assoc (fc_Agents cfg) (rt_AgentName task)
  end.
(** The runtime of the agent, or the alias of the worker. *)
Definition agent_runtime (d : Deps) (a : AgentSpec) : string :=
  if bool_decide (TrimSpace (ag_Runtime a) = EmptyString) && negb (bool_decide (dp_RuntimeAlias d = EmptyString))
  then dp_RuntimeAlias d else ag_Runtime a.

(** The watchdog of the run reads the local configuration. *)
Definition run_session (d : Deps) : list Call → RunOutcome :=
  λ tr, match dp_Config d with Some _ => we_run E tr | None => Panicked end.

Definition stop_heartbeat : St W unit := modS (λ w, mkW (w_trace w) (w_ctx w) (w_taskCtx w) (w_released w) (w_releaser w) false).

(** The labels, checked against the workflow; the summary. *)
Definition check_labels (d : Deps) (task : RemoteTask) (x : Execution) : St W string :=
  match x_PreLabels x, x_PostLabels x with
  | Some pre, Some post =>
      match validateLabelTransition (dp_Config d) (rt_Workflow task) (rt_State task) pre post (x_Result x) with
      | None => mret EmptyString
      | Some v =>
          (if dp_Recorder d then call (CLabelEvent (rs_Classification v)) else mret tt);;
          (if NeedsHumanRecommendation v then call (CNeedsHuman (Summary v)) else mret tt);;
          mret (Summary v)
      end
  | _, _ => mret EmptyString
  end.

(** What is submitted. *)
Definition result_request (d : Deps) (x : Execution) (partial : bool) : ResultRequest :=
  mkResultReq (dp_WorkerID d)
    (if partial then TaskStatusFailed
     else if bool_decide (ExecStatus x = "failed") then TaskStatusFailed
     else if bool_decide (ExecStatus x = "timeout") then TaskStatusTimeout else TaskStatusCompleted)
    (match x_PostLabels x with Some _ => x_CompletionLabels x | None => dp_Labels d end)
    (IsInfraFailure (x_Result x)) (InfraReason x)
    (match x_Result x with Some r => rn_SynthesisDecision r | None => None end).

(** After the execution: the audit, the labels, and the release of a worker that is
    shutting down, when the goroutine has not made it. *)
Definition wind_down (d : Deps) (task : RemoteTask) (x : Execution) : St W unit :=
  (if dp_Recorder d then call CCapture else mret tt);;
  check_labels d task x;;
  yield 3;;
  cancelled ← getsS w_ctx;
  released ← getsS w_released;
  (if cancelled && negb released then
     err ← release_call WorkerShutdown;
     match err with
     | None => modS (λ w, mkW (w_trace w) (w_ctx w) (w_taskCtx w) true (w_releaser w) (w_heart w))
     | Some _ => mret tt
     end
   else mret tt);;
  yield 4.

(** Why a task is released after its worktree could not be made. *)
Definition setup_reason (x : Execution) : Reason :=
  match x_Result x with
  | Some r => if bool_decide (meta r MetaInfraFailureReason = EmptyString) then WorktreeFailed (x_RunErr x)
              else InfraText (meta r MetaInfraFailureReason)
  | None => WorktreeFailed (x_RunErr x)
  end.

(** The result, to the coordinator; or the task. *)
Definition hand_over (d : Deps) (x : Execution) : St W (unit + TaskErr) :=
  if bool_decide (x_FailureSource x = "worktree_setup_error") then
    call (CReport false);;
    release_call (setup_reason x);;
    mret (inr (ERun (x_RunErr x)))
  else
    verify ← (λ w, (we_verify E (w_trace w), log_call CVerify w));
    let partial := match verify with Some p => p | None => false end in
    submitErr ← submitResultWithRetry (result_request d x partial);
    match submitErr with
    | Some e =>
        call (CReport true);;
        release_call (SubmitFailed e);;
        mret (inr (ESubmit e))
    | None =>
        call (CReport false);;
        (match x_Result x with
         | Some r => if bool_decide (meta r "agentm_failure_reason" = EmptyString) then mret tt else call (CVerdict (meta r "agentm_failure_reason"))
         | None => mret tt
         end);;
        mret (inl tt)
    end.

Definition deliver (d : Deps) (task : RemoteTask) (x : Execution) : St W (unit + TaskErr) :=
  wind_down d task x;;
  released ← getsS w_released;
  if (released : bool) then mret (inl tt) else hand_over d x.

Definition ExecuteTask (d : Deps) (task : option RemoteTask) : St W (unit + TaskErr) :=
  match task with
  | None => mret (inr ETaskRequired)
  | Some task =>
      match resolveAgentConfig d task with
      | None => mret (inr EAgentNotFound)
      | Some a =>
          if negb (dp_Executor d && dp_Client d && dp_Reporter d) then mret (inr EDepRequired)
          else
            let t := mkWTask (rt_Repo task) (rt_IssueNum task) (dp_Workspace d) false true (agent_runtime d a) (dp_Labels d) in
            modS (λ w, mkW (w_trace w) (w_ctx w) (w_ctx w) false RWaiting true);;
            yield 0;;
            x ← Execute t (run_session d);
            stop_heartbeat;;
            match x with
            | None => mret (inr EPanicked)
            | Some x => deliver d task x
            end
      end
  end.
End worker.
