(* ===== verification/WorkerSpec.v ===== *)
(** * What the worker promises

    Execution is well bracketed on every path, panics included; a task is settled or
    given back; submissions are bounded; the label check is the workflow's. *)

From S2P Require Import Prelude Traces GoLib GoText Control LabelCheck Types StateMachine Config Registration WorkerClient Worker.

(** ** Reasoning about the trace *)

Lemma adds_call c : adds w_trace (λ _ cs, cs = [c]) (call c).
Proof. intros w. by exists [c]. Qed.
(** A call whose answer is read off the trace. *)
Lemma adds_ask {A} (f : list Call → A) (c : A → Call) :
  adds w_trace (λ a cs, cs = [c a]) (λ w, let a := f (w_trace w) in (a, log_call (c a) w)).
Proof. intros w. eexists. by split. Qed.
(** ** Brackets *)

Inductive Resource := RLock | RWorktree | RSession.
#[export] Instance Resource_eq_dec : EqDecision Resource.
Proof. solve_decision. Defined.

Definition opens (c : Call) : option Resource :=
  match c with CLock _ _ => Some RLock | CCreate true => Some RWorktree | CStart _ true => Some RSession | _ => None end.
Definition closes (c : Call) : option Resource :=
  match c with CUnlock => Some RLock | CRemove => Some RWorktree | CCloseSession => Some RSession | _ => None end.
Fixpoint bracket (cs : list Call) (held : list Resource) : option (list Resource) :=
  match cs with
  | [] => Some held
  | c :: cs =>
      match opens c, closes c with
      | Some r, _ => bracket cs (r :: held)
      | None, Some r => match held with
                        | r' :: held => if bool_decide (r = r') then bracket cs held else None
                        | [] => None
                        end
      | None, None => bracket cs held
      end
  end.
Definition balanced (cs : list Call) : Prop := ∀ held, bracket cs held = Some held.

Lemma bracket_app a b held : bracket (a ++ b) held = bracket a held ≫= bracket b.
Proof.
  revert held. induction a as [|c a IH]; intros held; [done|]. cbn [app bracket].
  destruct (opens c); [apply IH|]. destruct (closes c) as [r|]; [|apply IH]. destruct held as [|r' held]; [done|].
  case_bool_decide; [apply IH|done].
Qed.
Lemma balanced_app a b : balanced a → balanced b → balanced (a ++ b).
Proof. intros Ha Hb held. by rewrite bracket_app, Ha; cbn. Qed.
Lemma balanced_nil : balanced [].
Proof. done. Qed.
Lemma balanced_one c : opens c = None → closes c = None → balanced [c].
Proof. intros H1 H2 held. cbn. by rewrite H1, H2. Qed.
(** A resource around a balanced trace. *)
Lemma balanced_around o c cs r : opens o = Some r → opens c = None → closes c = Some r → balanced cs → balanced (o :: cs ++ [c]).
Proof.
  intros Ho Hc Hr Hb held. cbn [bracket]. rewrite Ho, bracket_app, Hb. cbn. rewrite Hc, Hr. by rewrite bool_decide_eq_true_2.
Qed.

Definition bal {A} (m : St W A) : Prop := adds w_trace (λ _, balanced) m.
Lemma bal_ret {A} (a : A) : bal (mret a).
Proof. apply adds_ret, balanced_nil. Qed.
Lemma bal_bind {A B} (m : St W A) (k : A → St W B) : bal m → (∀ a, bal (k a)) → bal (m ≫= k).
Proof.
  intros Hm Hk. eapply adds_bind; [exact Hm|]. intros a. eapply adds_mono; [apply Hk|]. intros b cs Hcs cs0 H0. by apply balanced_app.
Qed.
Lemma bal_call c : opens c = None → closes c = None → bal (call c).
Proof. intros H1 H2. eapply adds_mono; [apply adds_call|]. intros _ cs ->. by apply balanced_one. Qed.
Lemma bal_ask {A} (f : list Call → A) (c : A → Call) :
  (∀ a, opens (c a) = None) → (∀ a, closes (c a) = None) → bal (λ w, let a := f (w_trace w) in (a, log_call (c a) w)).
Proof. intros H1 H2. eapply adds_mono; [apply adds_ask|]. intros a cs ->. by apply balanced_one. Qed.

(** What runs beside the worker: heartbeats and the shutdown release. *)
Definition background (c : Call) : Prop :=
  match c with CHeartbeat _ => True | CRelease WorkerShutdown _ => True | _ => False end.

Section traces.
Context (E : WEnv).

Lemma conc_step_adds k w : ∃ cs, w_trace (conc_step E k w) = w_trace w ++ cs ∧ Forall background cs.
Proof.
  destruct k; cbn.
  - exists []. by rewrite app_nil_r.
  - destruct (w_releaser w); [|by exists []; rewrite app_nil_r..]. destruct (w_ctx w); [|by exists []; rewrite app_nil_r].
    eexists. split; [done|]. by repeat constructor.
  - destruct (w_releaser w); by exists []; rewrite app_nil_r.
  - destruct (_ && _); [|by exists []; rewrite app_nil_r]. exists [CHeartbeat (we_heartbeat E (w_trace w))].
    split; [|by repeat constructor]. destruct (we_heartbeat E (w_trace w)) as [e|]; [|done]. by destruct (_ && _).
Qed.
Lemma conc_steps_add ks w : ∃ cs, w_trace (foldl (λ w k, conc_step E k w) w ks) = w_trace w ++ cs ∧ Forall background cs.
Proof.
  revert w. induction ks as [|k ks IH]; intros w; cbn [foldl]; [exists []; by rewrite app_nil_r|].
  destruct (conc_step_adds k w) as (c0 & H0 & HF0). destruct (IH (conc_step E k w)) as (cs & H1 & HF).
  exists (c0 ++ cs). rewrite H1, H0, app_assoc. split; [done|]. by apply Forall_app.
Qed.
Lemma yield_adds n : adds w_trace (λ _ cs, Forall background cs) (yield E n).
Proof. intros w. apply conc_steps_add. Qed.
Lemma background_balanced cs : Forall background cs → balanced cs.
Proof.
  induction 1 as [|c cs Hc _ IH]; [done|]. apply (balanced_app [c]); [|done]. by destruct c; apply balanced_one.
Qed.
Lemma bal_yield n : bal (yield E n).
Proof. eapply adds_mono; [apply yield_adds|]. intros ? cs Hcs. by apply background_balanced. Qed.

Lemma bal_run t run : bal (execute_run E t run).
Proof.
  unfold execute_run. apply bal_bind; [destruct (wt_OnPrepared t); [by apply bal_call|apply bal_ret]|intros ?].
  eapply adds_bind; [apply (adds_ask (we_start E) (λ e : option string, CStart (wt_Runtime t) (is_none e)))|]. intros [e|].
  - apply adds_ret. intros cs ->. by apply balanced_one.
  - unfold deferred. eapply (adds_bind (λ _, balanced)).
    + apply bal_bind; [by apply (bal_ask (we_labels E) (λ _, CReadLabels))|intros pre].
      apply bal_bind; [apply bal_yield|intros ?]. apply bal_bind; [by apply (bal_ask run (λ _, CRun))|intros [r e|]]; [|apply bal_ret].
      apply bal_bind; [apply bal_yield|intros ?]. apply bal_bind; [by apply (bal_ask (we_drain E) (λ _, CDrain))|intros [path ev]].
      apply bal_bind; [by apply (bal_ask (we_labels E) (λ _, CReadLabels))|intros post].
      destruct (match _ with Some r => _ | None => _ end) as [r' src]. apply bal_ret.
    + intros r. eapply adds_bind; [apply adds_call|]. intros ?. apply adds_ret. intros cs1 -> cs Hcs cs0 ->. rewrite app_nil_r.
      by apply (balanced_around _ _ cs RSession).
Qed.

Lemma bal_body t run : bal (execute_body E t run).
Proof.
  unfold execute_body, deferred at 1.
  apply bal_bind; [|intros r; apply bal_bind; [destruct (wt_Cleanup t); [by apply bal_call|apply bal_ret]|intros ?; apply bal_ret]].
  destruct (wt_Workspace t); [|apply bal_run].
  eapply adds_bind; [apply (adds_ask (we_create E) (λ e : option string, CCreate (is_none e)))|]. intros [e|].
  - apply adds_ret. intros cs ->. by apply balanced_one.
  - unfold deferred. eapply adds_bind; [apply bal_run|]. intros r'. eapply adds_bind; [apply adds_call|]. intros ?. apply adds_ret.
    intros cs1 -> cs Hcs cs0 ->. rewrite app_nil_r. by apply (balanced_around _ _ cs RWorktree).
Qed.
End traces.

(** All calls of [m] are in [F]. *)
Definition alls {A} (F : Call → Prop) (m : St W A) : Prop := adds w_trace (λ _ cs, Forall F cs) m.
Lemma alls_ret {A} F (a : A) : alls F (mret a).
Proof. apply adds_ret. constructor. Qed.
Lemma alls_bind {A B} F (m : St W A) (k : A → St W B) : alls F m → (∀ a, alls F (k a)) → alls F (m ≫= k).
Proof.
  intros Hm Hk. eapply adds_bind; [exact Hm|]. intros a. eapply adds_mono; [apply Hk|]. intros b cs Hcs cs0 H0. by apply Forall_app.
Qed.
Lemma alls_call (F : Call → Prop) c : F c → alls F (call c).
Proof. intros H. eapply adds_mono; [apply adds_call|]. intros ? cs ->. by constructor. Qed.
Lemma alls_ask {A} (F : Call → Prop) (f : list Call → A) (c : A → Call) :
  (∀ a, F (c a)) → alls F (λ w, let a := f (w_trace w) in (a, log_call (c a) w)).
Proof. intros H. eapply adds_mono; [apply adds_ask|]. intros a cs ->. by constructor. Qed.
Lemma alls_yield E (F : Call → Prop) n : (∀ c, background c → F c) → alls F (yield E n).
Proof. intros H. eapply adds_mono; [apply yield_adds|]. intros ? cs Hcs. eapply Forall_impl; [exact Hcs|exact H]. Qed.

(** The calls an execution makes before it closes its session. *)
Definition unmanaged (c : Call) : Prop := match c with CCloseManaged _ => False | _ => True end.
(** The calls [Execute] makes of its own, and those beside it. *)
Definition exec_call (c : Call) : Prop :=
  match c with
  | CSubmit _ _ | CSleep _ | CCapture | CLabelEvent _ | CNeedsHuman _ | CVerify | CReport _ | CVerdict _ => False
  | CRelease why _ => why = WorkerShutdown
  | _ => True
  end.
Lemma background_exec c : background c → exec_call c ∧ unmanaged c.
Proof. by destruct c as [| | | | | | | | | | | | |[] | | | | | | | |]. Qed.

Section execution.
Context (E : WEnv).

Lemma run_calls t run : alls (λ c, exec_call c ∧ unmanaged c) (execute_run E t run).
Proof.
  assert (Hl : alls (λ c, exec_call c ∧ unmanaged c) (snapshotIssueLabels E)) by by apply (alls_ask _ (we_labels E) (λ _, CReadLabels)).
  unfold execute_run. apply alls_bind; [destruct (wt_OnPrepared t); [by apply alls_call|apply alls_ret]|intros ?].
  apply alls_bind; [by apply (alls_ask _ (we_start E) (λ e, CStart (wt_Runtime t) (is_none e)))|intros [e|]]; [apply alls_ret|].
  unfold deferred. apply alls_bind; [|intros r; apply alls_bind; [by apply alls_call|intros ?; apply alls_ret]].
  apply alls_bind; [exact Hl|intros pre]. apply alls_bind; [apply alls_yield, background_exec|intros ?].
  apply alls_bind; [by apply (alls_ask _ run (λ _, CRun))|intros [r e|]]; [|apply alls_ret].
  apply alls_bind; [apply alls_yield, background_exec|intros ?].
  apply alls_bind; [by apply (alls_ask _ (we_drain E) (λ _, CDrain))|intros [path ev]].
  apply alls_bind; [exact Hl|intros post]. destruct (match _ with Some r => _ | None => _ end) as [r' src]. apply alls_ret.
Qed.

(** The status an execution reports; a panic is a failure. *)
Definition outcome (x : option Execution) : string := match x with Some x => ExecStatus x | None => TaskStatusFailed end.
Lemma outcome_eq r e pre post comp ev src :
  executionStatus (Some r) e = outcome (Some (mkExecution (Some r) e pre post comp ev src)).
Proof. reflexivity. Qed.

Lemma run_outcome t run : returns (λ r, r.2 = outcome r.1) (execute_run E t run).
Proof.
  unfold execute_run. apply returns_bind. intros ?. apply returns_bind. intros [e|]; [by apply returns_ret|].
  unfold deferred. intros w. unfold mbind at 1, St_bind at 1. cbn [fst snd]. unfold mbind at 1, St_bind at 1, mret at 1, St_ret at 1. cbn [fst snd].
  match goal with |- (?m w).1.2 = _ => cut (returns (λ r, r.2 = outcome r.1) m); [intros H; apply H|] end.
  apply returns_bind. intros pre. apply returns_bind. intros ?. apply returns_bind. intros [r e|]; [|by apply returns_ret].
  apply returns_bind. intros ?. apply returns_bind. intros [path ev]. apply returns_bind. intros post.
  destruct (match _ with Some r => _ | None => _ end) as [r' src]. by apply returns_ret.
Qed.

(** Running something after a computation leaves its value alone. *)
Lemma deferred_value {A} (m : St W A) d w : (deferred m d w).1 = (m w).1.
Proof. done. Qed.
Lemma returns_deferred {A} (P : A → Prop) (m : St W A) d : returns P m → returns P (deferred m d).
Proof. intros H w. apply H. Qed.

Lemma body_calls t run :
  adds w_trace (λ r cs, r.2 = outcome r.1 ∧ Forall (λ c, exec_call c ∧ unmanaged c) cs) (execute_body E t run).
Proof.
  unfold execute_body. apply adds_returns.
  - apply returns_deferred. destruct (wt_Workspace t); [|apply run_outcome]. apply returns_bind. intros [e|]; [by apply returns_ret|].
    apply returns_deferred, run_outcome.
  - unfold deferred at 1.
    apply alls_bind; [|intros r; apply alls_bind; [destruct (wt_Cleanup t); [by apply alls_call|apply alls_ret]|intros ?; apply alls_ret]].
    destruct (wt_Workspace t); [|apply run_calls].
    apply alls_bind; [by apply (alls_ask _ (we_create E) (λ e, CCreate (is_none e)))|intros [e|]]; [apply alls_ret|].
    unfold deferred. apply alls_bind; [apply run_calls|intros r; apply alls_bind; [by apply alls_call|intros ?; apply alls_ret]].
Qed.

(** The trace of an execution: the lock, the body, the session and the lock again. *)
Lemma Execute_trace t run w :
  let '(x, w') := Execute E t run w in
  ∃ mid, let tr := w_trace w ++ CLock (wt_Repo t) (wt_IssueNum t) :: mid in
    w_trace w' = tr ++ (if we_handle E tr then [CCloseManaged (outcome x)] else []) ++ [CUnlock] ∧
    balanced mid ∧ Forall (λ c, exec_call c ∧ unmanaged c) mid.
Proof.
  set (w1 := log_call (CLock (wt_Repo t) (wt_IssueNum t)) w).
  destruct (adds_and _ _ _ (bal_body E t run) (body_calls t run) w1) as (mid & Ht & Hb & Hr & HF).
  unfold Execute, deferred at 1 2, closeManagedSession, call, modS, mbind, St_bind, mret, St_ret. cbn [fst snd]. fold w1.
  destruct (execute_body E t run w1) as [[x st] w2]. cbn [fst snd] in *. subst st.
  assert (w_trace w2 = w_trace w ++ CLock (wt_Repo t) (wt_IssueNum t) :: mid) as Ht2 by (rewrite Ht; cbn; by rewrite <-app_assoc).
  exists mid. cbv zeta. rewrite Ht2. destruct (we_handle E _); cbn; rewrite Ht2, <-?app_assoc; by split_and!.
Qed.

Lemma Execute_calls t run : alls exec_call (Execute E t run).
Proof.
  intros w. pose proof (Execute_trace t run w) as H. destruct (Execute E t run w) as [x w']. destruct H as (mid & H & _ & HF).
  cbn [fst snd].
  eexists. split; [rewrite H, <-app_assoc; reflexivity|]. cbn. constructor; [done|]. rewrite !Forall_app. split_and!.
  - eapply Forall_impl; [exact HF|]. by intros c [? _].
  - destruct (we_handle E _); by repeat constructor.
  - by repeat constructor.
Qed.
End execution.

(** C21: Executing a task gives back everything it takes, whatever the workspace manager,
    the launcher and the agent do, a panic of the agent included: the issue is locked
    first and unlocked last, and in between worktrees are removed and agent sessions closed
    in the reverse order, each exactly once; and when the task holds a managed session
    after that, it is closed, once, with the status that the execution reports. *)
Theorem execution_is_bracketed E t run w :
  let '(x, w') := Execute E t run w in
  ∃ mid, let tr := w_trace w ++ CLock (wt_Repo t) (wt_IssueNum t) :: mid in
    w_trace w' = tr ++ (if we_handle E tr then [CCloseManaged (outcome x)] else []) ++ [CUnlock] ∧
    balanced mid ∧ ∀ status, CCloseManaged status ∉ mid.
Proof.
  pose proof (Execute_trace E t run w) as H. destruct (Execute E t run w) as [x w']. destruct H as (mid & H & Hb & HF).
  exists mid. split_and!; [done|done|]. intros status Hin. rewrite Forall_forall in HF. by destruct (HF _ Hin).
Qed.

(** ** The fate of a task *)

(** The coordinator has accepted a release. *)
Definition given_back (tr : list Call) : Prop := ∃ why, CRelease why None ∈ tr.
(** The flag of the worker says so only when it is so. *)
Definition rel_inv (w : W) : Prop := w_released w = true ∨ w_releaser w = RCalled true → given_back (w_trace w).
Definition rel_kept (w w' : W) : Prop := rel_inv w → rel_inv w'.
#[export] Instance rel_kept_preorder : PreOrder rel_kept.
Proof. split; unfold rel_kept; [by intros w|]. intros x y z. auto. Qed.

Lemma given_back_app tr cs : given_back tr → given_back (tr ++ cs).
Proof. intros [why H]. exists why. by apply elem_of_app; left. Qed.
Lemma log_rel c w : rel_kept w (log_call c w).
Proof. intros H Hx. apply given_back_app. by apply H. Qed.
Lemma call_rel c : keeps rel_kept (call c).
Proof. intros w. apply log_rel. Qed.
Lemma ask_rel {A} (f : list Call → A) (c : A → Call) : keeps rel_kept (λ w, let a := f (w_trace w) in (a, log_call (c a) w)).
Proof. intros w. apply log_rel. Qed.

Section settle.
Context (E : WEnv).

Lemma release_rel why : keeps rel_kept (release_call E why).
Proof. apply (ask_rel (we_release E) (CRelease why)). Qed.
Lemma conc_rel k w : rel_kept w (conc_step E k w).
Proof.
  intros H. destruct k; cbn.
  - done.
  - destruct (w_releaser w) eqn:Er; [|by rewrite ?Er..]. destruct (w_ctx w); [|done]. unfold release_call. cbn.
    intros [Hr|Hr]; cbn in *; [apply given_back_app, H; auto|]. injection Hr as Hr.
    exists WorkerShutdown. apply elem_of_app. right. destruct (we_release E (w_trace w)); [done|]. by apply list_elem_of_singleton.
  - destruct (w_releaser w) eqn:Er; [done| |done]. intros [Hr|Hr]; cbn in *; [|done]. apply orb_true_iff in Hr as [Hr| ->]; apply H; auto.
  - destruct (_ && _); [|done]. destruct (we_heartbeat E (w_trace w)) as [e|]; [destruct (_ && _)|].
    all: intros Hx; apply given_back_app, H; exact Hx.
Qed.
Lemma yield_rel n : keeps rel_kept (yield E n).
Proof.
  intros w. unfold yield, modS. cbn. assert (∀ ks w, rel_kept w (foldl (λ w k, conc_step E k w) w ks)) as Hk; [|apply Hk].
  clear. induction ks as [|k ks IH]; intros w; [done|]. cbn. etrans; [apply conc_rel|apply IH].
Qed.
End settle.
#[export] Hint Resolve call_rel release_rel yield_rel : frame.
#[export] Hint Extern 1 (keeps rel_kept (λ w, (_, log_call _ w))) => (intros ?; apply log_rel) : frame.

Section deliver.
Context (E : WEnv).

Lemma submit_rel rest delay req : keeps rel_kept (submit_loop E rest delay req).
Proof.
  revert delay. induction rest as [|rest IH]; intros delay; cbn [submit_loop].
  all: apply keeps_bind; [apply _|apply (ask_rel (we_submit E) (CSubmit req))|intros [e|]]; [|apply keeps_ret; apply _].
  all: repeat first [apply IH|solve [auto with frame nocore]|keep_step].
Qed.

Lemma run_rel t run : keeps rel_kept (execute_run E t run).
Proof.
  assert (Hl : keeps rel_kept (snapshotIssueLabels E)) by apply (ask_rel (we_labels E) (λ _, CReadLabels)).
  unfold execute_run, deferred. apply keeps_bind; [apply _|destruct (wt_OnPrepared t); keep_auto|intros ?].
  apply keeps_bind; [apply _|apply (ask_rel (we_start E) (λ e, CStart (wt_Runtime t) (is_none e)))|intros [e|]]; [keep_auto|].
  apply keeps_bind; [apply _| |intros r; keep_auto].
  apply keeps_bind; [apply _|exact Hl|intros pre]. apply keeps_bind; [apply _|auto with frame|intros ?].
  apply keeps_bind; [apply _|apply (ask_rel run (λ _, CRun))|intros [r e|]]; [|keep_auto].
  apply keeps_bind; [apply _|auto with frame|intros ?]. apply keeps_bind; [apply _|apply (ask_rel (we_drain E) (λ _, CDrain))|intros [path ev]].
  apply keeps_bind; [apply _|exact Hl|intros post]. destruct (match _ with Some r => _ | None => _ end) as [r' src]. keep_auto.
Qed.
Lemma Execute_rel t run : keeps rel_kept (Execute E t run).
Proof.
  unfold Execute, execute_body, closeManagedSession, deferred. apply keeps_bind; [apply _|auto with frame|intros ?]. apply keeps_bind; [apply _| |intros ?; keep_auto].
  apply keeps_bind; [apply _| |intros ?; keep_auto]. apply keeps_bind; [apply _| |intros r].
  - apply keeps_bind; [apply _| |intros ?; destruct (wt_Cleanup t); keep_auto]. destruct (wt_Workspace t); [|apply run_rel].
    apply keeps_bind; [apply _|apply (ask_rel (we_create E) (λ e, CCreate (is_none e)))|intros [e|]]; [keep_auto|].
    apply keeps_bind; [apply _|apply run_rel|intros ?; keep_auto].
  - apply keeps_bind; [apply _| |intros ?; keep_auto]. intros w. destruct (we_handle E (w_trace w)); [apply call_rel|done].
Qed.

(** The submissions of a trace, with their answers. *)
Definition submits (cs : list Call) : list (ResultRequest * option ClientError) :=
  omap (λ c, match c with CSubmit q e => Some (q, e) | _ => None end) cs.
Lemma submits_app a b : submits (a ++ b) = submits a ++ submits b.
Proof. apply omap_app. Qed.
Lemma submits_none cs : Forall exec_call cs → submits cs = [].
Proof. induction 1 as [|c cs Hc _ IH]; [done|]. unfold submits in *. cbn. rewrite IH. by destruct c. Qed.
Lemma submits_background cs : Forall background cs → submits cs = [].
Proof. intros H. apply submits_none. eapply Forall_impl; [exact H|]. intros c Hc. by apply background_exec. Qed.

(** Some refused submissions of one request, and the last. *)
Definition tries (rest : nat) (req : ResultRequest) (r : option ClientError) (subs : list (ResultRequest * option ClientError)) : Prop :=
  ∃ es l, subs = ((λ e, (req, Some e)) <$> es) ++ [(req, l)] ∧ (length es ≤ rest)%nat ∧ (r = None ↔ l = None).

Lemma submit_adds rest delay req : adds w_trace (λ r cs, tries rest req r (submits cs)) (submit_loop E rest delay req).
Proof.
  revert delay. induction rest as [|rest IH]; intros delay; cbn [submit_loop].
  all: eapply adds_bind; [apply (adds_ask (we_submit E) (CSubmit req))|intros [e|]].
  2, 4: apply adds_ret; intros cs ->; exists [], None; split_and!; [done|simpl; lia|done].
  all: eapply adds_bind; [apply yield_adds|intros ?]; eapply adds_bind; [by apply adds_quiet|intros b].
  - destruct (_ || _ || _); apply adds_ret; intros cs2 -> cs1 H1 cs0 ->; rewrite !submits_app, (submits_background cs1 H1); exists [], (Some e); by split_and!.
  - destruct (_ || _ || _).
    { apply adds_ret; intros cs2 -> cs1 H1 cs0 ->; rewrite !submits_app, (submits_background cs1 H1). exists [], (Some e); split_and!; [done|simpl; lia|done]. }
    eapply adds_bind; [apply adds_call|intros ?]. eapply adds_bind; [apply yield_adds|intros ?]. eapply adds_bind; [by apply adds_quiet|intros b2].
    destruct b2.
    + apply adds_ret. intros cs5 -> cs4 H4 cs3 -> cs2 -> cs1 H1 cs0 ->. rewrite !submits_app, (submits_background cs1 H1), (submits_background cs4 H4).
      exists [], (Some e). split_and!; [done|simpl; lia|done].
    + eapply adds_mono; [apply IH|]. intros r cs (es & l & Hs & Hlen & Hr) cs5 -> cs4 H4 cs3 -> cs2 -> cs1 H1 cs0 ->.
      rewrite !submits_app, (submits_background cs1 H1), (submits_background cs4 H4), Hs.
      exists (e :: es), l. split_and!; [done|simpl; lia|done].
Qed.

Lemma wind_down_adds d task x : adds w_trace (λ _ cs, submits cs = []) (wind_down E d task x).
Proof.
  assert (Hq : ∀ {A} (m : St W A), alls (λ c, match c with CSubmit _ _ => False | _ => True end) m → adds w_trace (λ _ cs, submits cs = []) m).
  { intros A m Hm. eapply adds_mono; [exact Hm|]. intros a cs Hcs. unfold submits. induction Hcs as [|c cs Hc _ IH]; [done|]. cbn. rewrite IH. by destruct c. }
  assert (Hy : ∀ n, alls (λ c, match c with CSubmit _ _ => False | _ => True end) (yield E n)).
  { intros n. apply alls_yield. by intros []. }
  apply Hq. unfold wind_down. apply alls_bind; [destruct (dp_Recorder d); [by apply alls_call|apply alls_ret]|intros ?].
  apply alls_bind; [|intros s; apply alls_bind; [apply Hy|intros ?]].
  { unfold check_labels. destruct (x_PreLabels x); [|apply alls_ret]. destruct (x_PostLabels x); [|apply alls_ret].
    destruct (validateLabelTransition _ _ _ _ _ _); [|apply alls_ret].
    apply alls_bind; [destruct (dp_Recorder d); [by apply alls_call|apply alls_ret]|intros ?].
    apply alls_bind; [destruct (NeedsHumanRecommendation _); [by apply alls_call|apply alls_ret]|intros ?; apply alls_ret]. }
  assert (Hg : ∀ {A} (m : St W A) F, (∀ w, w_trace (m w).2 = w_trace w) → alls F m).
  { intros A m F Hm w. exists []. rewrite Hm, app_nil_r. by split. }
  apply alls_bind; [by apply Hg|intros b]. apply alls_bind; [by apply Hg|intros b'].
  apply alls_bind; [|intros ?; apply Hy]. destruct (b && negb b'); [|apply alls_ret].
  apply alls_bind; [by apply (alls_ask _ (we_release E) (CRelease WorkerShutdown))|intros [e|]]; [apply alls_ret|].
  by apply Hg.
Qed.

Lemma wind_down_rel d task x : keeps rel_kept (wind_down E d task x).
Proof.
  unfold wind_down. apply keeps_bind; [apply _|destruct (dp_Recorder d); keep_auto|intros ?].
  apply keeps_bind; [apply _|unfold check_labels; keep_auto|intros ?]. apply keeps_bind; [apply _|auto with frame|intros ?].
  apply keeps_bind; [apply _|keep_auto|intros b]. apply keeps_bind; [apply _|keep_auto|intros b'].
  apply keeps_bind; [apply _| |intros ?; auto with frame]. destruct (b && negb b'); [|keep_auto].
  intros w. unfold release_call, mbind, St_bind. cbn [fst snd]. destruct (we_release E (w_trace w)) as [e|] eqn:Er; [apply log_rel|].
  intros _ _. cbn. exists WorkerShutdown. apply elem_of_app. right. by apply list_elem_of_singleton.
Qed.

(** What the end of the task leaves behind. *)
Definition handed (d : Deps) (x : Execution) (r : unit + TaskErr) (cs : list Call) : Prop :=
  match r with
  | inl _ => ∃ q, CSubmit q None ∈ cs
  | inr (ERun _) | inr (ESubmit _) => ∃ why e, CRelease why e ∈ cs
  | inr _ => False
  end ∧ (submits cs = [] ∨ ∃ partial rr, tries 2 (result_request d x partial) rr (submits cs)).

Lemma submits_accepted q cs : (q, None) ∈ submits cs → CSubmit q None ∈ cs.
Proof. unfold submits. rewrite list_elem_of_omap. intros (c & Hc & He). destruct c; try done. by injection He as -> ->. Qed.

Lemma hand_over_adds d x : adds w_trace (handed d x) (hand_over E d x).
Proof.
  unfold hand_over. case_bool_decide.
  - eapply adds_bind; [apply adds_call|intros ?]. eapply adds_bind; [apply (adds_ask (we_release E) (CRelease (setup_reason x)))|intros e].
    apply adds_ret. intros cs1 -> cs0 ->. split; [|by left]. exists (setup_reason x), e. set_solver.
  - eapply adds_bind; [apply (adds_ask (we_verify E) (λ _, CVerify))|intros v].
    eapply adds_bind; [apply submit_adds|intros [e|]].
    + eapply adds_bind; [apply adds_call|intros ?]. eapply adds_bind; [apply (adds_ask (we_release E) (CRelease (SubmitFailed e)))|intros e'].
      apply adds_ret. intros cs3 -> cs2 -> cs1 H1 cs0 ->. split; [exists (SubmitFailed e), e'; set_solver|]. right.
      rewrite !submits_app, app_nil_r. cbn. eauto.
    + eapply adds_bind; [apply adds_call|intros ?]. eapply (adds_bind (λ _ cs, submits cs = [])).
      { destruct (x_Result x) as [r|]; [case_bool_decide|]; [by apply adds_ret| |by apply adds_ret].
        eapply adds_mono; [apply adds_call|]. by intros ? cs ->. }
      intros ?. apply adds_ret. intros cs3 H3 cs2 -> cs1 H1 cs0 ->. split.
      * destruct H1 as (es & l & Hs & _ & Hl). rewrite (proj1 Hl eq_refl) in Hs. eexists. rewrite !elem_of_app. right. left.
        apply submits_accepted. rewrite Hs, elem_of_app. right. by apply list_elem_of_singleton.
      * right. rewrite !submits_app, H3. cbn. rewrite !app_nil_r. eauto.
Qed.
End deliver.


(** ** The label check *)

Section labels.
Context (wf : WorkflowConfig).

(** The labels show a state of the workflow. *)
Definition shows (labels : list string) (n : string) : Prop :=
  ∃ st, assoc (wf_States wf) n = Some st ∧ s_EnterLabel st ≠ EmptyString ∧ s_EnterLabel st ∈ labels.
(** No two states have the same label. *)
Definition distinct_labels : Prop :=
  ∀ n1 n2 s1 s2, assoc (wf_States wf) n1 = Some s1 → assoc (wf_States wf) n2 = Some s2 →
    s_EnterLabel s1 = s_EnterLabel s2 → s_EnterLabel s1 ≠ EmptyString → n1 = n2.

Lemma assoc_key {V} (m : list (string * V)) k v : assoc m k = Some v → k ∈ m.*1.
Proof.
  induction m as [|[k' v'] m IH]; [done|]. cbn. case_bool_decide; [subst; by left|]. intros Ha. right. auto.
Qed.

Context (Hd : distinct_labels).

Lemma elem_of_labelled seen names s :
  s ∈ labelled seen wf names ↔
  st_Name s ∈ names ∧ ∃ st, assoc (wf_States wf) (st_Name s) = Some st ∧ st_Label s = s_EnterLabel st ∧
    s_EnterLabel st ≠ EmptyString ∧ s_EnterLabel st ∉ seen.
Proof.
  revert seen. induction names as [|n names IH]; intros seen; cbn [labelled]; [set_solver|].
  destruct (assoc (wf_States wf) n) as [st|] eqn:Hn.
  2: { rewrite IH, elem_of_cons. split; [naive_solver|]. intros ([->|?] & st & ? & ?); [congruence|eauto]. }
  destruct (bool_decide (s_EnterLabel st = EmptyString) || bool_decide (s_EnterLabel st ∈ seen)) eqn:Hs.
  - apply orb_true_iff in Hs. rewrite !bool_decide_eq_true in Hs. rewrite IH, elem_of_cons. split; [naive_solver|].
    intros ([He|?] & st' & H1 & H2 & H3 & H4); [|naive_solver]. rewrite He, Hn in H1. injection H1 as <-. naive_solver.
  - apply orb_false_iff in Hs. rewrite !bool_decide_eq_false in Hs. destruct Hs as [Hne Hns].
    rewrite !elem_of_cons, IH. split.
    + intros [->|(Hin & st' & H1 & H2 & H3 & H4)]; [cbn; split; [by left|]; by exists st|].
      split; [by right|]. exists st'. set_solver.
    + intros (Hin & st' & H1 & H2 & H3 & H4). destruct (decide (st_Name s = n)) as [He|He].
      * left. rewrite He, Hn in H1. injection H1 as <-. destruct s. cbn in *. congruence.
      * right. split; [destruct Hin; done|]. exists st'. split_and!; [done..|]. rewrite elem_of_cons. intros [Hl|?]; [|done].
        apply He. by apply (Hd _ _ st' st).
Qed.

Lemma labelled_NoDup seen names : NoDup (labelled seen wf names).
Proof.
  revert seen. induction names as [|n names IH]; intros seen; cbn [labelled]; [constructor|].
  destruct (assoc (wf_States wf) n) as [st|] eqn:Hn; [|done]. destruct (_ || _); [done|]. constructor; [|done].
  rewrite elem_of_labelled. cbn. intros (_ & st' & H1 & _ & _ & H4). rewrite Hn in H1. injection H1 as <-. set_solver.
Qed.

Lemma singleton_iff {A} (l : list A) x : NoDup l → (l = [x] ↔ ∀ y, y ∈ l ↔ y = x).
Proof.
  intros Hn. split; [intros ->; set_solver|]. intros H. apply Permutation_singleton_r. symmetry.
  apply NoDup_Permutation; [apply NoDup_singleton|done|]. intros y. rewrite H, list_elem_of_singleton. done.
Qed.

Definition known_states : list LabelCheck.State := labelled [] wf (state_names wf).
Lemma elem_of_shown labels s :
  s ∈ matchStates labels known_states ↔
  shows labels (st_Name s) ∧ ∃ st, assoc (wf_States wf) (st_Name s) = Some st ∧ st_Label s = s_EnterLabel st.
Proof.
  rewrite elem_of_matchStates. unfold known_states. rewrite elem_of_labelled. unfold shows, state_names. rewrite sort_strings_perm. split.
  - intros ((_ & st & H1 & H2 & H3 & _) & H4 & H5). rewrite H2 in *. eauto 10.
  - intros ((st & H1 & H2 & H3) & st' & H4 & H5). rewrite H1 in H4. injection H4 as <-. rewrite H5.
    split_and!; [by eapply assoc_key|exists st; set_solver|done|done].
Qed.

(** One state is shown, in the list and in the labels. *)
Lemma shown_one labels n st :
  assoc (wf_States wf) n = Some st →
  (matchStates labels known_states = [LabelCheck.mkState n (s_EnterLabel st)] ↔ ∀ m, shows labels m ↔ m = n).
Proof.
  intros Hn. rewrite singleton_iff by (eapply sublist_NoDup; [apply labelled_NoDup|apply matchStates_sublist]). split.
  - intros H m. split.
    + intros Hm. pose proof Hm as (st' & H1 & H2 & H3). specialize (H (LabelCheck.mkState m (s_EnterLabel st'))).
      assert (LabelCheck.mkState m (s_EnterLabel st') = LabelCheck.mkState n (s_EnterLabel st)) as He; [|by injection He].
      apply H, elem_of_shown. cbn. eauto.
    + intros ->. specialize (H (LabelCheck.mkState n (s_EnterLabel st))). rewrite elem_of_shown in H. cbn in H. by apply H.
  - intros H [m l]. rewrite elem_of_shown. cbn. split.
    + intros (Hm & st' & H1 & ->). apply H in Hm as ->. congruence.
    + intros [= -> ->]. split; [by apply H|eauto].
Qed.
Lemma shown_none labels : matchStates labels known_states = [] ↔ ∀ m, ¬ shows labels m.
Proof.
  split.
  - intros H m Hm. pose proof Hm as (st & H1 & _). assert (LabelCheck.mkState m (s_EnterLabel st) ∈ matchStates labels known_states) as Hin
      by (apply elem_of_shown; cbn; eauto). rewrite H in Hin. set_solver.
  - intros H. destruct (matchStates labels known_states) as [|s l] eqn:E; [done|]. exfalso. apply (H (st_Name s)).
    apply elem_of_shown. rewrite E. by left.
Qed.
End labels.

Lemma primary_one s fb : selectPrimaryState [s] fb = s.
Proof. unfold selectPrimaryState. cbn. by destruct (_ && _). Qed.

(** The state an issue is in: the one its labels show, or the one that was queued. *)
Definition stands_at (wf : WorkflowConfig) (labels : list string) (queued c : string) : Prop :=
  shows wf labels c ∨ (∀ m, ¬ shows wf labels m) ∧ c = queued.

Lemma resolve_stands wf pre state queued :
  distinct_labels wf → assoc (wf_States wf) EmptyString = None → assoc (wf_States wf) state = Some queued →
  (∀ n m, shows wf pre n → shows wf pre m → n = m) →
  ∃ c cst, assoc (wf_States wf) c = Some cst ∧ stands_at wf pre state c ∧
    let s := LabelCheck.mkState c (s_EnterLabel cst) in
    ResolveCurrent pre (LabelCheck.mkState state (s_EnterLabel queued)) (known_states wf) = s ∧
    ResolveCurrent pre s (known_states wf) = s ∧ resolveWorkflowLabelState wf s = Some cst.
Proof.
  intros Hd Hnil Hq Huniq.
  assert (Hres : ∀ c cst, assoc (wf_States wf) c = Some cst →
    resolveWorkflowLabelState wf (LabelCheck.mkState c (s_EnterLabel cst)) = Some cst).
  { intros c cst Hc. unfold resolveWorkflowLabelState. cbn. rewrite bool_decide_eq_false_2 by congruence. by rewrite Hc. }
  destruct (matchStates pre (known_states wf)) as [|s l] eqn:E.
  - exists state, queued. pose proof (proj1 (shown_none wf Hd pre) E) as Hno. cbv zeta. split_and!; [done|by right| | |by apply Hres].
    all: unfold ResolveCurrent; by rewrite E.
  - assert (Hs : s ∈ matchStates pre (known_states wf)) by (rewrite E; by left).
    apply (elem_of_shown wf Hd) in Hs as [Hshow (st & Hst & Hl)].
    assert (LabelCheck.mkState (st_Name s) (s_EnterLabel st) = s) as Hse by (destruct s; cbn in *; congruence).
    assert (matchStates pre (known_states wf) = [s]) as E1.
    { rewrite <-Hse. apply (shown_one wf Hd pre _ st Hst). intros m. split; [by intros Hm; apply Huniq|by intros ->]. }
    assert (st_Label s ≠ EmptyString) as Hne by (rewrite Hl; destruct Hshow as (st' & ? & ? & _); congruence).
    exists (st_Name s), st. cbv zeta. rewrite Hse. split_and!; [done|by left| | |rewrite <-Hse; by apply Hres].
    all: unfold ResolveCurrent; rewrite E1, primary_one, bool_decide_eq_false_2 by done; done.
Qed.

(** The check of the labels after a run is the workflow's: when the labels before
    the run show at most one state, a run is classified as OK exactly when the labels
    after it show exactly one state, which is not "failed", not the one the issue
    stood at, and a target of a transition from there. *)
Theorem validation_follows_the_workflow cfg wf workflow state queued pre post result :
  assoc (fc_Workflows cfg) workflow = Some wf → assoc (wf_States wf) state = Some queued →
  distinct_labels wf → assoc (wf_States wf) EmptyString = None →
  (∀ n m, shows wf pre n → shows wf pre m → n = m) →
  ∃ v c cst, validateLabelTransition (Some cfg) workflow state pre post result = Some v ∧
    assoc (wf_States wf) c = Some cst ∧ stands_at wf pre state c ∧
    (rs_Classification v = ClassificationOK ↔
       ∃ n st, assoc (wf_States wf) n = Some st ∧ (∀ m, shows wf post m ↔ m = n) ∧ n ≠ "failed" ∧
         s_EnterLabel st ≠ s_EnterLabel cst ∧ n ∈ (s_Transitions cst).*2).
Proof.
  intros Hwf Hq Hd Hnil Huniq. destruct (resolve_stands wf pre state queued Hd Hnil Hq Huniq) as (c & cst & Hc & Hat & H1 & H2 & H3).
  eexists _, c, cst. unfold validateLabelTransition. cbn [mbind option_bind]. rewrite Hwf. cbn [mbind option_bind]. rewrite Hq. cbn [mbind option_bind].
  fold (known_states wf). rewrite H1. cbn [mbind option_bind]. rewrite H3. cbn [mbind option_bind]. split; [done|]. split_and!; [done|done|].
  rewrite Classify_ok_iff. cbn [in_Pre in_Current in_KnownStates in_AllowedTransitions]. rewrite H2. cbn [st_Label]. unfold lands_on. cbn [in_Post in_KnownStates]. split.
  - intros (s & Hl & Hf & Hne & Ha). assert (s ∈ matchStates post (known_states wf)) as Hs by (rewrite Hl; by left).
    apply (elem_of_shown wf Hd) in Hs as [_ (st & Hst & Hlab)].
    assert (LabelCheck.mkState (st_Name s) (s_EnterLabel st) = s) as Hse by (destruct s; cbn in *; congruence).
    exists (st_Name s), st. split_and!; [done| |done|congruence|].
    + apply (shown_one wf Hd post _ st Hst). by rewrite Hse.
    + apply (elem_of_labelled wf Hd) in Ha. by apply Ha.
  - intros (n & st & Hst & Hone & Hf & Hne & Ht). exists (LabelCheck.mkState n (s_EnterLabel st)).
    split_and!; [by apply (shown_one wf Hd)|done|done|]. apply (elem_of_labelled wf Hd). cbn. split; [done|]. exists st.
    destruct (proj2 (Hone n) eq_refl) as (st' & Hst' & Hn & _). rewrite Hst in Hst'. injection Hst' as <-. set_solver.
Qed.

(** ** Runs *)

Definition demo_state (label : string) (tr : list (string * string)) : State :=
  mkState label "dev-agent" [] EmptyString (mkJoin EmptyString 0) 0 tr.
Definition demo_wf : WorkflowConfig :=
  mkWorkflow "default" "workbuddy" 3 3
    [("developing", demo_state "status:developing" [("status:reviewing", "reviewing"); ("status:failed", "failed")]);
     ("reviewing", demo_state "status:reviewing" [("status:done", "done"); ("status:developing", "developing")]);
     ("done", demo_state "status:done" []); ("failed", demo_state "status:failed" [])].
Definition demo_cfg : FullConfig := mkFullConfig "o/r" "prod" 0 [] [("default", demo_wf)].

(** Decisions on the four states of the example. *)
Lemma demo_states n st : assoc (wf_States demo_wf) n = Some st →
  (n, s_EnterLabel st) ∈ [("developing", "status:developing"); ("reviewing", "status:reviewing"); ("done", "status:done"); ("failed", "status:failed")].
Proof. cbn. repeat case_bool_decide; intros [= <-]; subst; set_solver. Qed.
Lemma demo_wf_distinct : distinct_labels demo_wf.
Proof.
  intros n1 n2 s1 s2 H1%demo_states H2%demo_states He _. rewrite <-He in H2. clear He. revert H1 H2. generalize (s_EnterLabel s1). intros l.
  rewrite !elem_of_cons, !elem_of_nil. naive_solver.
Qed.

Lemma validation_follows_the_workflow_witness :
  ∃ v c cst, validateLabelTransition (Some demo_cfg) "default" "developing" ["status:developing"] ["status:reviewing"] None = Some v ∧
    assoc (wf_States demo_wf) c = Some cst ∧ stands_at demo_wf ["status:developing"] "developing" c ∧
    (rs_Classification v = ClassificationOK ↔
       ∃ n st, assoc (wf_States demo_wf) n = Some st ∧ (∀ m, shows demo_wf ["status:reviewing"] m ↔ m = n) ∧ n ≠ "failed" ∧
         s_EnterLabel st ≠ s_EnterLabel cst ∧ n ∈ (s_Transitions cst).*2).
Proof.
  eapply (validation_follows_the_workflow demo_cfg demo_wf "default" "developing" _ ["status:developing"] ["status:reviewing"] None).
  - reflexivity.
  - reflexivity.
  - exact demo_wf_distinct.
  - reflexivity.
  - intros n m (s1 & H1 & Hne & Hl1) (s2 & H2 & _ & Hl2). apply list_elem_of_singleton in Hl1, Hl2.
    eapply (demo_wf_distinct n m s1 s2 H1 H2); congruence.
Defined.

(** With two status labels before the run, the state the allowed transitions are taken
    from and the state the run is judged from are different ones: the move that the
    workflow allows from the second is not accepted. *)
Theorem two_labels_swap_the_current_state :
  validateLabelTransition (Some demo_cfg) "default" "developing" ["status:developing"; "status:reviewing"] ["status:developing"] (Some (mkRun 0 EmptyString 0 EmptyString ∅ EmptyString EmptyString None)) =
  Some (mkResult ClassificationNoTransitionAfterSuccess (LabelCheck.mkState "developing" "status:developing") (LabelCheck.mkState "developing" "status:developing")) ∧
  ResolveCurrent ["status:developing"; "status:reviewing"] (LabelCheck.mkState "developing" "status:developing") (known_states demo_wf) =
    LabelCheck.mkState "reviewing" "status:reviewing".
Proof. by vm_compute. Qed.

Definition demo_agent : AgentSpec := mkSpec (Router.mkAgent "dev-agent" "dev" EmptyString) EmptyString EmptyString 0 0 EmptyString EmptyString EmptyString EmptyString.
Definition demo_remote : RemoteTask := mkRemoteTask "t1" "o/r" 7 "dev-agent" "default" "developing" (Some demo_agent).
(** A launcher that answers [start]; everything else works. *)
Definition demo_wenv (start : option string) : WEnv :=
  mkWEnv (λ _ _, []) (λ _, None) (λ _, start) (λ _, Some ["status:developing"])
    (λ _, Returned (Some (mkRun 0 EmptyString 0 EmptyString ∅ EmptyString EmptyString None)) None) (λ _, (EmptyString, false)) (λ _, true)
    (λ _, None) (λ _, None) (λ _, None) (λ _, Some false).
Definition demo_deps (cfg : option FullConfig) : Deps := mkDeps cfg true true true true true "w1" "claude-code" ["status:developing"].
Definition demo_run (start : option string) (cfg : option FullConfig) : (unit + TaskErr) * W :=
  ExecuteTask (demo_wenv start) (demo_deps cfg) (Some demo_remote) (mkW [] false false false RWaiting true).

(** A run whose agent could not be started is judged by its labels all the same, which
    were never read: it is recorded as an unexpected transition to no state. *)
Theorem failed_start_is_judged_by_labels :
  let tr := w_trace (demo_run (Some "no such runtime") (Some demo_cfg)).2 in
  CLabelEvent ClassificationUnexpectedTransition ∈ tr ∧ CReadLabels ∉ tr.
Proof.
  cbv zeta. set (tr := w_trace _). vm_compute in tr. subst tr. split; [repeat first [by left|right]|].
  rewrite !not_elem_of_cons. split_and!; try done. apply not_elem_of_nil.
Qed.

(** A worker without a configuration of its own accepts a task that brings its agent,
    and panics when it runs it: the task is neither settled nor released. *)
Theorem wire_config_alone_panics :
  let '(r, w) := demo_run None None in
  r = inr EPanicked ∧ submits (w_trace w) = [] ∧ ¬ given_back (w_trace w).
Proof.
  destruct (demo_run None None) as [r w] eqn:Er. vm_compute in Er. injection Er as <- <-. split_and!; [done|done|].
  intros [why H]. revert H. cbn. rewrite !elem_of_cons, elem_of_nil. naive_solver.
Qed.
