(* ===== verification/ReportFormat.v ===== *)
(** * The texts of comments

    [internal/reporter/format.go]: the Markdown of every comment the reporter posts,
    byte by byte, with the session links of [internal/sessionref], and
    [time.Duration.String]; and the readers of those comments in
    [internal/taskprep]: the noise filter, the latest review verdict, and the list of
    related pull requests of an agent's prompt. *)

From S2P Require Import Prelude GoLib Json GoText GoFormat Types.
From Stdlib Require Import Ascii.

Definition LF : string := str1 (chr 10).
Definition cat (l : list string) : string := foldr String.app EmptyString l.
Definition when (b : bool) (s : string) : string := if b then s else EmptyString.
Definition nonempty (s : string) : bool := negb (bool_decide (s = EmptyString)).

(** ** [time.Duration.String] *)

Definition frac_digits (prec : nat) (v : Z) : string :=
  let f := rev_str (trim_zeros (rev_str (pad prec (v mod 10 ^ Z.of_nat prec)) EmptyString)) EmptyString in
  if nonempty f then String "." f else EmptyString.
Definition with_frac (prec : nat) (v : Z) : string := itoa (v / 10 ^ Z.of_nat prec) +:+ frac_digits prec v.
Definition Duration_String (d : Z) : string :=
  let u := Z.abs d in
  let s :=
    if u =? 0 then "0s"
    else if u <? 1000 then itoa u +:+ "ns"
    else if u <? 1000000 then with_frac 3 u +:+ "µs"
    else if u <? second then with_frac 6 u +:+ "ms"
    else let sec := u / second in
         let tail := itoa (sec mod 60) +:+ frac_digits 9 u +:+ "s" in
         if sec / 60 =? 0 then tail
         else let mn := itoa (sec / 60 mod 60) +:+ "m" +:+ tail in
              if sec / 3600 =? 0 then mn else itoa (sec / 3600) +:+ "h" +:+ mn in
  when (d <? 0) "-" +:+ s.

(** [d.Round(time.Second)] of a duration that is not negative; the largest duration
    when it overflows. *)
Definition round_second (d : Z) : Z :=
  let r := d mod second in
  if r + r <? second then d - r
  else if d + second - r <? 2 ^ 63 then d + second - r else 2 ^ 63 - 1.
Definition formatDuration (d : Z) : string :=
  if d <? second then Duration_String d
  else
    let d := round_second d in
    if d <? 60 * second then itoa (d / second) +:+ "s"
    else
      let minutes := d / (60 * second) in
      let seconds := d / second mod 60 in
      if seconds =? 0 then itoa minutes +:+ "m" else itoa minutes +:+ "m" +:+ itoa seconds +:+ "s".

(** ** Session links *)

(** [url.PathEscape]: the bytes a path segment keeps. *)
Definition segment_byte (c : ascii) : bool :=
  byte_in c 65 90 || byte_in c 97 122 || byte_in c 48 57 ||
  byte_is c 45 || byte_is c 95 || byte_is c 46 || byte_is c 126 ||
  byte_is c 36 || byte_is c 38 || byte_is c 43 || byte_is c 58 || byte_is c 61 || byte_is c 64.
Definition hex_upper (n : N) : ascii := chr (if n <? 10 then 48 + n else 55 + n)%N.
Fixpoint PathEscape (s : string) : string :=
  match s with
  | EmptyString => EmptyString
  | String c s =>
      if segment_byte c then String c (PathEscape s)
      else String "%" (String (hex_upper (N_of_ascii c / 16)) (String (hex_upper (N_of_ascii c mod 16)) (PathEscape s)))
  end.
Definition BuildURL (baseURL workerID sessionID : string) : string :=
  if bool_decide (baseURL = EmptyString) || bool_decide (sessionID = EmptyString) || bool_decide (workerID = EmptyString)
  then EmptyString
  else baseURL +:+ "/workers/" +:+ PathEscape workerID +:+ "/sessions/" +:+ PathEscape sessionID.

(** ** The data of a report *)

Definition ClaimCommentPR : string := "comment_pr".
Definition ClaimCommentIssue : string := "comment_issue".
Definition ClaimLabels : string := "labels".
Definition ClaimPRCreated : string := "pr_created".
Definition ClaimBranchPushed : string := "branch_pushed".
Definition ClaimFileCreated : string := "file_created".
Definition ClaimCommit : string := "commit".

Record ClaimCheck := mkCheck { cc_Type : string; cc_Claim : string; cc_Actual : string; cc_OK : bool }.
Record VerificationResult := mkVerification { vr_Partial : bool; vr_Checks : list ClaimCheck }.
Record SyncFailure := mkSyncFailure { sf_Operation : string; sf_Detail : string }.

Record ReportData := mkReportData {
  rd_AgentName : string;
  rd_Status : string;
  rd_Duration : Z;
  rd_SessionID : string;
  rd_WorkerID : string;
  rd_RetryCount : Z;
  rd_MaxRetries : Z;
  rd_Output : string;
  rd_PRLink : string;
  rd_ErrorDetail : string;
  rd_SessionURL : string;
  rd_LabelLine : string;
  rd_Verification : option VerificationResult;
  rd_InfraReason : string;
  rd_SyncFailure : option SyncFailure
}.

Definition FooterMarkerPrefix : string := "*workbuddy coordinator |".
Definition footer (ts : Z) : string := "---" +:+ LF +:+ FooterMarkerPrefix +:+ " " +:+ RFC3339 ts +:+ "*" +:+ LF.

Definition statusBadge (status : string) : string :=
  if bool_decide (status = "success") then "**Status**: :white_check_mark: Success"
  else if bool_decide (status = "partial") then "**Status**: :warning: Partial (claimed side-effects not verified)"
  else if bool_decide (status = "failure") then "**Status**: :x: Failure"
  else if bool_decide (status = "timeout") then "**Status**: :hourglass: Timeout"
  else if bool_decide (status = "retry-limit") then "**Status**: :rotating_light: Retry Limit Reached"
  else if bool_decide (status = "infra-error") then "**Status**: :construction: Infra Error (launcher-layer, not an agent verdict)"
  else "**Status**: " +:+ status.

Definition reportHeader (agentName status : string) : string :=
  if bool_decide (status = "infra-error") then cat ["## Infra Error: "; agentName; LF; LF]
  else cat ["## Agent Report: "; agentName; LF; LF].

Definition maxOutputLines : nat := 200.
Definition fenced (s : string) : string := cat ["```"; LF; s; LF; "```"; LF; LF].

Definition infra_block (d : ReportData) : string :=
  when (bool_decide (rd_Status d = "infra-error"))
    (cat ["> :construction: **This was not an agent verdict.** ";
          "The launcher failed to run the agent (e.g. exec error, scanner buffer overflow, runtime panic before any agent output). ";
          "The state machine is NOT being told the agent FAILED; retries are bounded by the dispatch failure cap only."; LF; LF;
          when (nonempty (rd_InfraReason d)) (cat ["**Launcher reason**: `"; rd_InfraReason d; "`"; LF; LF])]).

Definition metadata_table (d : ReportData) : string :=
  cat ["| Field | Value |"; LF; "|-------|-------|"; LF;
       "| Agent | `"; rd_AgentName d; "` |"; LF;
       "| Duration | "; formatDuration (rd_Duration d); " |"; LF;
       "| Session ID | `"; rd_SessionID d; "` |"; LF;
       "| Worker | `"; rd_WorkerID d; "` |"; LF;
       "| Retry | "; itoa (rd_RetryCount d); " / "; itoa (rd_MaxRetries d); " |"; LF; LF].

Definition links_block (d : ReportData) : string :=
  cat [when (nonempty (rd_PRLink d)) (cat [":link: **Pull Request**: "; rd_PRLink d; LF; LF]);
       when (nonempty (rd_SessionURL d)) (cat [":mag: **[View Session Details]("; rd_SessionURL d; ")**"; LF; LF]);
       when (nonempty (rd_LabelLine d)) (cat [rd_LabelLine d; LF; LF])].

Definition sync_block (d : ReportData) : string :=
  match rd_SyncFailure d with
  | None => EmptyString
  | Some f => cat ["### Coordinator Sync"; LF; LF; "- Operation: `"; sf_Operation f; "`"; LF;
                   when (nonempty (sf_Detail f)) (cat ["- Result: "; sf_Detail f; LF]); LF]
  end.

Definition check_row (c : ClaimCheck) : string :=
  cat ["| "; cc_Claim c; " | "; cc_Actual c; " | "; if cc_OK c then ":white_check_mark:" else ":x:"; " |"; LF].
Definition verification_block (d : ReportData) : string :=
  match rd_Verification d with
  | Some (mkVerification _ (c :: cs)) =>
      cat ["### Claim Verification"; LF; LF; "| Claim | Actual | Status |"; LF; "|-------|--------|--------|"; LF;
           cat (map check_row (c :: cs)); LF]
  | _ => EmptyString
  end.

Definition output_block (d : ReportData) : string :=
  when (nonempty (rd_Output d))
    (let lines := length (Split (chr 10) (rd_Output d)) in
     if (maxOutputLines <? lines)%nat
     then cat ["<details>"; LF; "<summary>Agent output ("; itoa (Z.of_nat lines); " lines, click to expand)</summary>"; LF; LF;
               fenced (rd_Output d); "</details>"; LF; LF]
     else cat ["### Output"; LF; LF; fenced (rd_Output d)]).

Definition FormatReportAt (d : ReportData) (ts : Z) : string :=
  cat [reportHeader (rd_AgentName d) (rd_Status d); statusBadge (rd_Status d); LF; LF;
       infra_block d; metadata_table d; links_block d; sync_block d; verification_block d;
       when (nonempty (rd_ErrorDetail d)) (cat ["### Error"; LF; LF; fenced (rd_ErrorDetail d)]);
       when (bool_decide (rd_Status d = "retry-limit"))
         (cat ["> :warning: **Retry limit reached, needs human intervention**"; LF; LF]);
       output_block d; footer ts].

(** ** The other comments *)

Definition FormatNeedsHumanReport (labelLine : string) (ts : Z) : string :=
  cat ["## Managed Follow-up"; LF; LF; "The agent exited successfully but did not change the workflow label."; LF; LF;
       when (nonempty labelLine) (cat [labelLine; LF; LF]);
       "Recommended next step: add `needs-human` and review the issue manually."; LF; LF; footer ts].

Definition FormatSynthesisNeedsHumanReport (reason : string) (ts : Z) : string :=
  cat ["## Managed Follow-up"; LF; LF;
       "The synthesize run did not return a valid structured decision, so the coordinator stopped the rollout reduce step instead of auto-picking a PR."; LF; LF;
       when (nonempty (TrimSpace reason)) (cat ["**Why it was blocked**: `"; TrimSpace reason; "`"; LF; LF]);
       "Recommended next step: add `needs-human`, inspect the candidate PRs manually, and decide whether to pick one, build a synth PR, or rewrite the issue."; LF; LF;
       footer ts].

Record CycleRejectionEntry := mkRejection { cj_Timestamp : Z; cj_Summary : string }.
Record CycleCapData := mkCycleCap {
  cy_WorkflowName : string;
  cy_CycleCount : Z;
  cy_MaxReviewCycles : Z;
  cy_HitAt : Z;
  cy_RejectionTrail : list CycleRejectionEntry;
  cy_LatestPRURL : string;
  cy_BranchName : string
}.
Definition trail_line (i : nat) (e : CycleRejectionEntry) : string :=
  let summary := TrimSpace (cj_Summary e) in
  cat [itoa (Z.of_nat i + 1); ". `"; RFC3339 (cj_Timestamp e); "` — ";
       if nonempty summary then summary else "(no summary captured)"; LF].
Definition FormatCycleCapReport (d : CycleCapData) : string :=
  cat ["## :rotating_light: Dev↔Review Cycle Cap Reached"; LF; LF;
       "This issue hit the configured **"; itoa (cy_MaxReviewCycles d);
       "-cycle dev↔review cap** and will not be auto-dispatched again until a human intervenes."; LF; LF;
       "| Field | Value |"; LF; "|-------|-------|"; LF;
       "| Workflow | `"; cy_WorkflowName d; "` |"; LF;
       "| Cycle count | `"; itoa (cy_CycleCount d); "` (cap: `"; itoa (cy_MaxReviewCycles d); "`) |"; LF;
       "| Cap hit at | "; RFC3339 (cy_HitAt d); " |"; LF;
       when (nonempty (cy_LatestPRURL d)) (cat ["| Latest PR | "; cy_LatestPRURL d; " |"; LF]);
       when (nonempty (cy_BranchName d)) (cat ["| Branch | `"; cy_BranchName d; "` |"; LF]);
       LF;
       match cy_RejectionTrail d with
       | [] => EmptyString
       | l => cat ["### Rejection trail (oldest first)"; LF; LF; cat (imap trail_line l); LF]
       end;
       "### What this means"; LF; LF;
       "- Coordinator stopped dispatching `dev-agent` and `review-agent` for this issue."; LF;
       "- Either the dev↔review loop was not converging, or the disagreement is architectural and needs human judgement."; LF; LF;
       "### Required action"; LF; LF;
       "A human reviewer must inspect the rejection trail above, decide on the path forward, then either:"; LF; LF;
       "- Flip the label to `status:blocked` to signal the issue needs human authorship; or"; LF;
       "- Resolve the disagreement, run `workbuddy issue restart --repo <repo> --issue <num>` to reset the counter, and re-add `status:developing`."; LF; LF;
       footer (cy_HitAt d)].

Definition FormatStartedReport (agentName sessionID workerID sessionURL : string) (startedAt : Z) : string :=
  cat ["## :robot: Agent Started: "; agentName; LF; LF;
       "| Field | Value |"; LF; "|-------|-------|"; LF;
       "| Agent | `"; agentName; "` |"; LF; "| Session ID | `"; sessionID; "` |"; LF; "| Worker | `"; workerID; "` |"; LF;
       "| Started | "; RFC3339 startedAt; " |"; LF; LF;
       when (nonempty sessionURL) (cat [":mag: **[View Live Session]("; sessionURL; ")**"; LF; LF]);
       footer startedAt].

(** ** The readers *)

Definition automatedHeaderPrefixes : list string :=
  ["## :robot: Agent Started:"; "## Agent Report:"; "## Infra Error:"; "## Managed Follow-up";
   "## :rotating_light: Dev↔Review Cycle Cap Reached"].
(** [strings.TrimLeft] with the cutset of blanks. *)
Fixpoint trim_left_blanks (s : string) : string :=
  match s with
  | String c s' => if byte_is c 32 || byte_is c 9 || byte_is c 13 || byte_is c 10 then trim_left_blanks s' else s
  | EmptyString => EmptyString
  end.
Definition IsAutomatedComment (body : string) : bool :=
  Contains body FooterMarkerPrefix || existsb (HasPrefix (trim_left_blanks body)) automatedHeaderPrefixes.

Record IssueComment := mkComment { ic_Author : string; ic_Body : string; ic_CreatedAt : string }.
Definition reviewVerdictMarker : string := "<!-- workbuddy:review-verdict -->".
Definition maxVerdictBytes : nat := Z.to_nat (16 * 1024).

(** The newest comment that has the marker. *)
Definition latest_verdict (kept : list IssueComment) : option IssueComment :=
  find (λ c, Contains (ic_Body c) reviewVerdictMarker) (rev kept).
Definition verdict_text (v : IssueComment) : string :=
  let n := String.length (ic_Body v) in
  cat ["[Latest review verdict — "; ic_CreatedAt v; " by "; ic_Author v; "]"; LF;
       if (maxVerdictBytes <? n)%nat
       then cat [take_str maxVerdictBytes (ic_Body v); LF; LF; "[... verdict body truncated at "; itoa (Z.of_nat maxVerdictBytes); " bytes; ";
                 itoa (Z.of_nat (n - maxVerdictBytes)); " more bytes available via `gh issue view`]"]
       else ic_Body v].
Definition gh_command (repo : string) (issueNum : Z) : string :=
  cat ["gh issue view"; when (0 <? issueNum) (" " +:+ itoa issueNum); when (nonempty repo) (" --repo " +:+ repo); " --json comments"].
Definition summary_text (other noise : nat) (repo : string) (issueNum : Z) : string :=
  let z n := itoa (Z.of_nat n) in
  if (0 <? other)%nat && (0 <? noise)%nat
  then cat ["["; z other; " earlier comment(s) omitted; "; z noise; " reporter/bot comment(s) filtered. Run `"; gh_command repo issueNum; "` to read the full history.]"]
  else if (0 <? other)%nat
  then cat ["["; z other; " earlier comment(s) omitted. Run `"; gh_command repo issueNum; "` to read the full history.]"]
  else cat ["["; z noise; " reporter/bot comment(s) filtered as noise.]"].
Definition FormatComments (comments : list IssueComment) (repo : string) (issueNum : Z) : string :=
  match comments with
  | [] => "(no comments)"
  | _ =>
      let kept := List.filter (λ c, negb (IsAutomatedComment (ic_Body c))) comments in
      let noise := (length comments - length kept)%nat in
      let verdict := latest_verdict kept in
      let other := match verdict with Some _ => (length kept - 1)%nat | None => length kept end in
      let b := match verdict with Some v => verdict_text v | None => EmptyString end in
      let b := if (0 <? other)%nat || (0 <? noise)%nat
               then cat [b; when (nonempty b) (LF +:+ LF); summary_text other noise repo issueNum] else b in
      if nonempty b then b else "(no comments)"
  end.

Record PRSummary := mkPRSummary {
  pr_Number : Z; pr_State : string; pr_IsDraft : bool; pr_Title : string; pr_HeadRefName : string; pr_BaseRefName : string; pr_URL : string
}.
Definition pr_line (p : PRSummary) : string :=
  cat ["#"; itoa (pr_Number p); " ["; pr_State p; "]"; when (pr_IsDraft p) " [draft]"; " "; pr_Title p;
       " (head: "; pr_HeadRefName p; ", base: "; pr_BaseRefName p; ") - "; pr_URL p].
Definition FormatRelatedPRs (prs : list PRSummary) : string :=
  match prs with [] => "(no related PRs)" | _ => join_str LF (map pr_line prs) end.
