(* ===== verification/Notifier.v ===== *)
(** * The notifier

    [internal/notifier]: alerts of the bus and completions of the task hub are put on a
    bounded queue; workers take them, drop what repeats within the window, and hand the
    rest to every sender with retries, one message per event or, with a batch window, one
    per issue and kind.  A sender is its configuration; what its service answers is
    chosen by the environment.  [url.Parse] and [mail.ParseAddress] are parameters: a URL
    is read as its scheme and host.

    The queue, the window and the deliveries are stepped goroutine by goroutine in
    [nstep]; the reload of [NotifierRuntime] runs two notifiers side by side. *)

From S2P Require Import Prelude GoLib Json JsonValue GoText GoFormat Types Bus ReportFormat.
From Stdlib Require Import Ascii.

(** ** Configuration *)

Record WebhookChannelConfig := mkWebhookChannel { wc_Enabled : bool; wc_WebhookURLEnv : string }.
Record TelegramChannelConfig := mkTelegramChannel { tc_Enabled : bool; tc_BotTokenEnv : string; tc_ChatIDEnv : string; tc_ParseMode : string }.
Record SMTPChannelConfig := mkSMTPChannel {
  sc_Enabled : bool; sc_HostEnv : string; sc_PortEnv : string; sc_UsernameEnv : string; sc_PasswordEnv : string; sc_FromEnv : string; sc_ToEnv : string
}.
Record NotificationsConfig := mkNotifications {
  nc_Enabled : bool;
  nc_InstanceName : string;
  nc_DedupWindow : Z;
  nc_BatchWindow : Z;
  nc_Success : bool;
  nc_Slack : option WebhookChannelConfig;
  nc_Feishu : option WebhookChannelConfig;
  nc_Telegram : option TelegramChannelConfig;
  nc_SMTP : option SMTPChannelConfig
}.
#[export] Instance WebhookChannelConfig_eq_dec : EqDecision WebhookChannelConfig.
Proof. solve_decision. Defined.
#[export] Instance TelegramChannelConfig_eq_dec : EqDecision TelegramChannelConfig.
Proof. solve_decision. Defined.
#[export] Instance SMTPChannelConfig_eq_dec : EqDecision SMTPChannelConfig.
Proof. solve_decision. Defined.
#[export] Instance NotificationsConfig_eq_dec : EqDecision NotificationsConfig.
Proof. solve_decision. Defined.

Inductive Sender :=
  | SlackSender (endpoint : string)
  | FeishuSender (endpoint : string)
  | TelegramSender (token chatID parseMode : string)
  | SmtpSender (host : string) (port : Z) (username password from to : string).

Record Settings := mkSettings {
  st_enabled : bool;
  st_instanceName : string;
  st_dedupWindow : Z;
  st_batchWindow : Z;
  st_successNotify : bool;
  st_senders : list Sender
}.

Definition notifierWorkerCount : nat := 4.
Definition notifierQueueSize : nat := 64.
Definition notifierBatchMaxSize : nat := 16.
Definition retryAttempts : nat := 3.
Definition retryDelay : Z := 5 * second.
Definition defaultDedupWindow : Z := 300 * second.

Section notifier.
Context (env : string → option string) (url_parse : string → option (string * string)) (address_ok : string → bool).

Definition enforceHTTPS (rawURL : string) : res unit :=
  match url_parse rawURL with
  | None => Err (EMsg "notifier: invalid webhook URL")
  | Some (scheme, host) =>
      if is_blank scheme || negb (bool_decide (scheme = "https")) then Err (EMsg "notifier: webhook URL must be https")
      else if is_blank host then Err (EMsg "notifier: webhook URL missing host") else Ok tt
  end.
(** A variable that is set and not blank. *)
Definition lookup_env (msg name : string) : res string :=
  match env name with Some v => if is_blank v then Err (EMsg msg) else Ok v | None => Err (EMsg msg) end.
Definition bindR {A B} (r : res A) (k : A → res B) : res B := match r with Ok x => k x | Err e => Err e end.
Definition buildWebhookSender (channel : string → Sender) (envName : string) : res Sender :=
  bindR (lookup_env "notifier: webhook env missing" envName) (λ raw,
  let raw := TrimSpace raw in
  bindR (enforceHTTPS raw) (λ _, Ok (channel raw))).
Definition buildTelegramSender (tokenEnv chatIDEnv parseMode : string) : res Sender :=
  bindR (lookup_env "notifier: telegram bot token env missing" tokenEnv) (λ token,
  bindR (lookup_env "notifier: telegram chat id env missing" chatIDEnv) (λ chatID,
  match atoi chatID with
  | None => Err (EMsg "notifier: telegram chat id must be integer")
  | Some _ => Ok (TelegramSender token chatID (TrimSpace parseMode))
  end)).
Definition address (msg v : string) : res string := if address_ok v then Ok v else Err (EMsg msg).
Definition buildSMTPSender (c : SMTPChannelConfig) : res Sender :=
  bindR (lookup_env "notifier: smtp host env missing" (sc_HostEnv c)) (λ host,
  bindR (lookup_env "notifier: smtp port env missing" (sc_PortEnv c)) (λ portText,
  match atoi (TrimSpace portText) with
  | None => Err (EMsg "notifier: smtp port parse error")
  | Some port =>
      bindR (lookup_env "notifier: smtp username env missing" (sc_UsernameEnv c)) (λ username,
      match env (sc_PasswordEnv c) with
      | None => Err (EMsg "notifier: smtp password env missing")
      | Some password =>
          bindR (lookup_env "notifier: smtp from env missing" (sc_FromEnv c)) (λ from,
          bindR (address "notifier: smtp from is invalid" from) (λ from,
          bindR (lookup_env "notifier: smtp to env missing" (sc_ToEnv c)) (λ to,
          bindR (address "notifier: smtp to is invalid" to) (λ to,
          Ok (SmtpSender host port username password from to)))))
      end)
  end)).

Definition optional {A} (c : option A) (enabled : A → bool) (build : A → res Sender) : res (list Sender) :=
  match c with Some x => if enabled x then bindR (build x) (λ s, Ok [s]) else Ok [] | None => Ok [] end.
Definition configured (cfg : NotificationsConfig) : res (list Sender) :=
  bindR (optional (nc_Slack cfg) wc_Enabled (λ c, buildWebhookSender SlackSender (wc_WebhookURLEnv c))) (λ a,
  bindR (optional (nc_Feishu cfg) wc_Enabled (λ c, buildWebhookSender FeishuSender (wc_WebhookURLEnv c))) (λ b,
  bindR (optional (nc_Telegram cfg) tc_Enabled (λ c, buildTelegramSender (tc_BotTokenEnv c) (tc_ChatIDEnv c) (tc_ParseMode c))) (λ c,
  bindR (optional (nc_SMTP cfg) sc_Enabled buildSMTPSender) (λ d, Ok (a ++ b ++ c ++ d))))).
(** [New]: the settings of the notifier, whose maps and queue are empty. *)
Definition New (cfg : NotificationsConfig) : res Settings :=
  let name := TrimSpace (nc_InstanceName cfg) in
  let s := mkSettings false (if bool_decide (name = EmptyString) then "workbuddy" else name)
             (if nc_DedupWindow cfg <=? 0 then defaultDedupWindow else nc_DedupWindow cfg)
             (Z.max 0 (nc_BatchWindow cfg)) (nc_Success cfg) [] in
  if negb (nc_Enabled cfg) then Ok s
  else bindR (configured cfg) (λ l, Ok (mkSettings true (st_instanceName s) (st_dedupWindow s) (st_batchWindow s) (st_successNotify s) l)).
(** [Start] runs nothing without a sender. *)
Definition starts (s : Settings) : bool := st_enabled s && negb (bool_decide (st_senders s = [])).

(** ** Messages *)

Definition redactURL (raw : string) : string :=
  match url_parse raw with
  | None => "(invalid-url)"
  | Some (scheme, host) => if is_blank host then "(invalid-host)" else scheme +:+ "://" +:+ host
  end.
Definition safe_string (s : string) : string :=
  match url_parse s with
  | Some (scheme, host) => if negb (is_blank scheme) && negb (is_blank host) then redactURL s else s
  | None => s
  end.
(** The JSON of a value, with the keys of maps in order. *)
Definition by_key (l : list (string * json)) : json := JObj (map (λ k, (k, default JNull (assoc l k))) (sort_strings (map fst l))).
Fixpoint plain_json (v : jval) : json :=
  match v with
  | JS s => JStr s
  | JI z => JNum (itoa z)
  | JB b => JBool b
  | JL l => JArr (map JStr l)
  | JZs l => JArr (map (λ z, JNum (itoa z)) l)
  | JM m => by_key (map (λ kv, (kv.1, JStr kv.2)) m)
  | JT (Some t) => JStr (RFC3339Nano t)
  | JT None => JNull
  | JO objs => JArr (map (λ obj, by_key (map (λ kv, (kv.1, plain_json kv.2)) obj)) objs)
  end.
(** [marshalPayloadSafeString]: of the values of alerts, only strings are looked into;
    slices and maps of other types than [any] are passed on as they are. *)
Definition payload_json (v : jval) : json := match v with JS s => JStr (safe_string s) | v => plain_json v end.
Definition marshalPayload (payload : list (string * jval)) : string := print_json (by_key (map (λ kv, (kv.1, payload_json kv.2)) payload)).
Definition issueURL (repo : string) (issueNum : Z) : string :=
  if (issueNum <=? 0) || is_blank repo then EmptyString else cat ["https://github.com/"; repo; "/issues/"; itoa issueNum].
Definition formatMessage (now : Z) (event : AlertEvent) (instanceName : string) : string :=
  let ts := if al_Timestamp event =? 0 then now / second else al_Timestamp event in
  cat ["severity="; al_Severity event; " kind="; al_Kind event; " repo="; al_Repo event; " issue="; issueURL (al_Repo event) (al_IssueNum event);
       " agent="; al_AgentName event; " timestamp="; RFC3339 (ts * second); " instance="; instanceName; " payload="; marshalPayload (al_Payload event)].

(** What a sender writes: the endpoint and the body. *)
Definition send_request (s : Sender) (message : string) : string * string :=
  match s with
  | SlackSender u => (u, print_json (JObj [("text", JStr message)]))
  | FeishuSender u => (u, print_json (JObj [("content", JObj [("text", JStr message)]); ("msg_type", JStr "text")]))
  | TelegramSender token chatID parseMode =>
      (cat ["https://api.telegram.org/bot"; token; "/sendMessage"],
       print_json (JObj [("chat_id", JStr chatID); ("parse_mode", JStr (TrimSpace parseMode)); ("text", JStr message)]))
  | SmtpSender host port _ _ from to =>
      ((if Contains host ":" then cat ["["; host; "]:"] else host +:+ ":") +:+ itoa port,
       cat ["To: "; to; str1 (chr 13); LF; "From: "; from; str1 (chr 13); LF; "Subject: workbuddy notification"; str1 (chr 13); LF; str1 (chr 13); LF; message])
  end.
End notifier.

(** ** Alerts of tasks *)

Definition KindAgentExitNonZero : string := "agent_exit_non_zero".
Definition KindRepeatedFailure : string := "repeated_failure".
Definition KindTaskCompletedSuccess : string := "task_completed".
Definition SeverityInfo : string := "info".
Definition SeverityWarn : string := "warning".
Definition SeverityError : string := "error".

Definition task_alert (task : TaskEvent) (completedAt : Z) (kind severity : string) : AlertEvent :=
  mkAlert kind severity (te_Repo task) (te_IssueNum task) (te_AgentName task) (completedAt / second)
    [("task_id", JS (te_TaskID task)); ("status", JS (te_Status task)); ("exit_code", JI (te_ExitCode task))].
Definition taskEventToAlertEvent (task : TaskEvent) (completedAt : Z) (notifySuccess : bool) : option AlertEvent :=
  if bool_decide (te_Status task = TaskStatusCompleted) then
    if negb (te_ExitCode task =? 0) then Some (task_alert task completedAt KindAgentExitNonZero SeverityError)
    else if notifySuccess then Some (task_alert task completedAt KindTaskCompletedSuccess SeverityInfo) else None
  else if bool_decide (te_Status task = TaskStatusTimeout) || bool_decide (te_Status task = TaskStatusFailed)
  then Some (task_alert task completedAt KindAgentExitNonZero SeverityError)
  else None.

Definition eventDedupKey (repo : string) (issueNum : Z) (kind : string) : string := join_str "#" [repo; itoa issueNum; kind].
Definition event_key (e : AlertEvent) : string := eventDedupKey (al_Repo e) (al_IssueNum e) (al_Kind e).
Definition repeatFailureKey (repo : string) (issueNum : Z) : string := eventDedupKey repo issueNum KindAgentExitNonZero.

(** ** The queue and the window *)

(** The state of a running notifier.  [nf_busy] holds the groups of events whose
    messages are being delivered, [nf_batch] what the batch worker has collected,
    [nf_accepted] (with the clock that was read and the time it was accepted) and [nf_sent]
    are history. *)
Record Notifier := mkNotifier {
  nf_incoming : list AlertEvent;
  nf_dedup : gmap string Z;
  nf_failureCounters : gmap string Z;
  nf_batch : list AlertEvent;
  nf_timer : bool;
  nf_busy : list (list AlertEvent);
  nf_stopped : bool;
  nf_accepted : list (Z * Z * AlertEvent);
  nf_sent : list (list AlertEvent)
}.
Definition NewNotifier : Notifier := mkNotifier [] ∅ ∅ [] false [] false [] [].
Definition set_incoming (l : list AlertEvent) (n : Notifier) : Notifier :=
  mkNotifier l (nf_dedup n) (nf_failureCounters n) (nf_batch n) (nf_timer n) (nf_busy n) (nf_stopped n) (nf_accepted n) (nf_sent n).
Definition set_counters (m : gmap string Z) (n : Notifier) : Notifier :=
  mkNotifier (nf_incoming n) (nf_dedup n) m (nf_batch n) (nf_timer n) (nf_busy n) (nf_stopped n) (nf_accepted n) (nf_sent n).
Definition set_batch (l : list AlertEvent) (timer : bool) (busy : list (list AlertEvent)) (n : Notifier) : Notifier :=
  mkNotifier (nf_incoming n) (nf_dedup n) (nf_failureCounters n) l timer busy (nf_stopped n) (nf_accepted n) (nf_sent n).

Definition enqueue (event : AlertEvent) (n : Notifier) : Notifier :=
  if (length (nf_incoming n) <? notifierQueueSize)%nat then set_incoming (nf_incoming n ++ [event]) n else n.

Definition maybeEmitRepeatedFailure (event : AlertEvent) (n : Notifier) : Notifier :=
  if negb (bool_decide (al_Kind event = KindAgentExitNonZero)) then n
  else
    let key := repeatFailureKey (al_Repo event) (al_IssueNum event) in
    let count := default 0 (nf_failureCounters n !! key) + 1 in
    let n := set_counters (<[key := count]> (nf_failureCounters n)) n in
    if count <=? 1 then n
    else enqueue (mkAlert KindRepeatedFailure SeverityWarn (al_Repo event) (al_IssueNum event) (al_AgentName event) (al_Timestamp event)
                    (List.filter (λ kv, negb (bool_decide (kv.1 = "failure_count"))) (al_Payload event) ++ [("failure_count", JI count)])) n.
(** A completion taken from the task hub. *)
Definition task_pump (success : bool) (task : TaskEvent) (completedAt : Z) (n : Notifier) : Notifier :=
  match taskEventToAlertEvent task completedAt success with
  | Some alert => enqueue alert (maybeEmitRepeatedFailure alert n)
  | None => n
  end.

Definition pruneEveryN : nat := 100.
Definition pruneStale (now : Z) (n : Notifier) : Notifier :=
  mkNotifier (nf_incoming n) (filter (λ kv, now < kv.2) (nf_dedup n))
    (filter (λ kv, now < default (now + 1) (nf_dedup n !! kv.1)) (nf_failureCounters n))
    (nf_batch n) (nf_timer n) (nf_busy n) (nf_stopped n) (nf_accepted n) (nf_sent n).
(** [shouldDrop] under its lock, with the clock [now] that was read before; an accepted
    event is recorded with the time [at_] it is accepted. *)
Definition shouldDrop (window now at_ : Z) (event : AlertEvent) (n : Notifier) : bool * Notifier :=
  let key := event_key event in
  let n := if bool_decide (Nat.modulo (size (nf_dedup n)) pruneEveryN = 0%nat) && (0 <? size (nf_dedup n))%nat then pruneStale now n else n in
  if match nf_dedup n !! key with Some exp => now <? exp | None => false end then (true, n)
  else (false, mkNotifier (nf_incoming n) (<[key := now + window]> (nf_dedup n)) (nf_failureCounters n) (nf_batch n) (nf_timer n) (nf_busy n)
                 (nf_stopped n) (nf_accepted n ++ [(now, at_, event)]) (nf_sent n)).

(** [deliverBatch]: one group per issue and kind, events in the order they came; the
    map of groups is ranged over in any order. *)
Fixpoint add_to_group (e : AlertEvent) (gs : list (list AlertEvent)) : list (list AlertEvent) :=
  match gs with
  | [] => [[e]]
  | g :: gs => if match g with x :: _ => bool_decide (event_key x = event_key e) | [] => false end then (g ++ [e]) :: gs else g :: add_to_group e gs
  end.
Definition group_events (events : list AlertEvent) : list (list AlertEvent) := foldl (λ gs e, add_to_group e gs) [] events.
(** The message of a group. *)
Definition group_message (url_parse : string → option (string * string)) (now : Z) (instanceName : string) (g : list AlertEvent) : string :=
  join_str LF (map (λ e, formatMessage url_parse now e instanceName) g).

(** [flush]: the groups in some order. *)
Definition flush (gs : list (list AlertEvent)) (n : Notifier) : Notifier := set_batch [] false gs n.
Definition batch_add (event : AlertEvent) (gs : list (list AlertEvent)) (n : Notifier) : Notifier :=
  let batch := nf_batch n ++ [event] in
  if (notifierBatchMaxSize <=? length batch)%nat then flush gs n else set_batch batch true (nf_busy n) n.

(** ** Sending *)

(** [send k] is the error of attempt [k], [cancelled k] whether the context ends during
    the wait after it.  The result with the number of attempts and the time waited. *)
Fixpoint send_loop (more attempt : nat) (wait waited : Z) (send : nat → option error) (cancelled : nat → bool) : option error * nat * Z :=
  match send attempt with
  | None => (None, attempt, waited)
  | Some err =>
      match more with
      | O => (Some err, attempt, waited)
      | S more => if cancelled attempt then (Some ErrContext, attempt, waited)
                  else send_loop more (S attempt) (wait * 2) (waited + wait) send cancelled
      end
  end.
Definition sendWithRetry (send : nat → option error) (cancelled : nat → bool) : option error * nat * Z :=
  send_loop (retryAttempts - 1) 1 retryDelay 0 send cancelled.
(** [deliver]: the senders whose attempts failed are logged. *)
Definition deliver (senders : list Sender) (outcome : Sender → option error * nat * Z) : list Sender :=
  List.filter (λ s, match outcome s with (Some _, _, _) => true | _ => false end) senders.

(** ** The goroutines *)

(** [ns_pending]: the events that a worker has taken from the queue, with the clock it has
    read for them, before it has the lock of [shouldDrop]. *)
Record NState := mkNState { ns_now : Z; ns_pending : list (Z * AlertEvent); ns_notifier : Notifier }.
(** Four workers when nothing is batched, or else the one of the batch. *)
Definition worker_free (S : Settings) (p : list (Z * AlertEvent)) (n : Notifier) : Prop :=
  st_batchWindow S = 0 ∧ (length p + length (nf_busy n) < notifierWorkerCount)%nat ∨ 0 < st_batchWindow S ∧ p = [] ∧ nf_busy n = [].
Inductive nstep (S : Settings) : NState → NState → Prop :=
  | nst_tick now now' p n : now ≤ now' → nstep S (mkNState now p n) (mkNState now' p n)
  | nst_alert now p e n : nf_stopped n = false → nstep S (mkNState now p n) (mkNState now p (enqueue e n))
  | nst_task now p task at_ n : nf_stopped n = false → nstep S (mkNState now p n) (mkNState now p (task_pump (st_successNotify S) task at_ n))
  | nst_take now p e rest n : nf_stopped n = false → nf_incoming n = e :: rest → worker_free S p n →
      nstep S (mkNState now p n) (mkNState now (p ++ [(now, e)]) (set_incoming rest n))
  | nst_worker now p1 t e p2 n : st_batchWindow S = 0 →
      nstep S (mkNState now (p1 ++ (t, e) :: p2) n)
        (mkNState now (p1 ++ p2) (match shouldDrop (st_dedupWindow S) t now e n with
                                  | (true, n) => n
                                  | (false, n) => set_batch (nf_batch n) (nf_timer n) (nf_busy n ++ [[e]]) n
                                  end))
  | nst_collect now t e gs n : 0 < st_batchWindow S → gs ≡ₚ group_events (nf_batch n ++ [e]) →
      nstep S (mkNState now [(t, e)] n)
        (mkNState now [] (match shouldDrop (st_dedupWindow S) t now e n with
                          | (true, n) => n
                          | (false, n) => batch_add e gs n
                          end))
  | nst_timer now gs n : 0 < st_batchWindow S → nf_busy n = [] → nf_timer n = true → gs ≡ₚ group_events (nf_batch n) →
      nstep S (mkNState now [] n) (mkNState now [] (flush gs n))
  | nst_stop now p gs n : nf_stopped n = false →
      (st_batchWindow S = 0 ∧ gs = nf_busy n ∨ 0 < st_batchWindow S ∧ p = [] ∧ nf_busy n = [] ∧ gs ≡ₚ group_events (nf_batch n)) →
      nstep S (mkNState now p n)
        (mkNState now p (mkNotifier (nf_incoming n) (nf_dedup n) (nf_failureCounters n) [] false gs true (nf_accepted n) (nf_sent n)))
  | nst_deliver now p l1 g l2 n : nf_busy n = l1 ++ g :: l2 →
      nstep S (mkNState now p n)
        (mkNState now p (mkNotifier (nf_incoming n) (nf_dedup n) (nf_failureCounters n) (nf_batch n) (nf_timer n) (l1 ++ l2) (nf_stopped n) (nf_accepted n) (nf_sent n ++ [g]))).

(** ** Reloading

    [Apply] starts the notifier of the new configuration and then cancels the one of the
    old; both are subscribed in between.  A notifier that is not enabled or has no sender
    subscribes to nothing. *)
Record NotifierRuntime := mkNotifierRuntime {
  nr_cancelled : list (Settings * Notifier);
  nr_current : option (Settings * Notifier);
  nr_next : option (Settings * Notifier)
}.
Definition feed (e : AlertEvent) (p : Settings * Notifier) : Settings * Notifier := (p.1, if starts p.1 then enqueue e p.2 else p.2).
Definition runtime_alert (e : AlertEvent) (r : NotifierRuntime) : NotifierRuntime :=
  mkNotifierRuntime (nr_cancelled r) (feed e <$> nr_current r) (feed e <$> nr_next r).
Definition apply_start (next : res Settings) (r : NotifierRuntime) : res unit * NotifierRuntime :=
  match next with
  | Err err => (Err err, r)
  | Ok s => (Ok tt, mkNotifierRuntime (nr_cancelled r) (nr_current r) (Some (s, NewNotifier)))
  end.
Definition cancel_notifier (n : Notifier) : Notifier :=
  mkNotifier (nf_incoming n) (nf_dedup n) (nf_failureCounters n) (nf_batch n) (nf_timer n) (nf_busy n) true (nf_accepted n) (nf_sent n).
Definition apply_cancel (r : NotifierRuntime) : NotifierRuntime :=
  mkNotifierRuntime (nr_cancelled r ++ match nr_current r with Some (s, n) => [(s, cancel_notifier n)] | None => [] end) (nr_next r) None.
(** [Apply], when nothing happens in between. *)
Definition Apply (next : res Settings) (r : NotifierRuntime) : res unit * NotifierRuntime :=
  match apply_start next r with
  | (Ok tt, r) => (Ok tt, apply_cancel r)
  | (Err err, r) => (Err err, r)
  end.
