(* ===== verification/NotifierSpec.v ===== *)
(** * What the notifier guarantees

    Between two notifications of the same issue and kind lies the window, the queue and
    the batches stay within their limits, and no accepted event is lost or sent twice
    while the notifier runs; a send is attempted at most three times.  Two behaviours are
    not what is meant: the counter of repeated failures is not reset by a success, and a
    reload of the configuration delivers what arrives in between twice and drops what the
    old notifier had queued. *)

From S2P Require Import Prelude GoLib Json JsonValue GoText GoFormat Types Bus ReportFormat Notifier.
From Stdlib Require Import Ascii.

(** ** Groups *)

Definition one_key (k : string) (g : list AlertEvent) : Prop := g ≠ [] ∧ Forall (λ e, event_key e = k) g.
Definition grouped (gs : list (list AlertEvent)) : Prop := ∃ ks, NoDup ks ∧ Forall2 one_key ks gs.

Lemma add_to_group_perm e gs : concat (add_to_group e gs) ≡ₚ concat gs ++ [e].
Proof.
  induction gs as [|g gs IH]; [done|]. cbn [add_to_group]. case_match; cbn [concat].
  - rewrite <-!app_assoc. f_equiv. apply Permutation_app_comm.
  - by rewrite IH, app_assoc.
Qed.
Lemma group_events_perm l : concat (group_events l) ≡ₚ l.
Proof.
  unfold group_events. assert (∀ gs, concat (foldl (λ gs e, add_to_group e gs) gs l) ≡ₚ concat gs ++ l) as H; [|apply (H [])].
  induction l as [|e l IH]; intros gs; cbn [foldl]; [by rewrite app_nil_r|]. by rewrite IH, add_to_group_perm, <-app_assoc.
Qed.
Lemma add_to_group_keys e ks gs :
  NoDup ks → Forall2 one_key ks gs →
  ∃ ks', NoDup ks' ∧ Forall2 one_key ks' (add_to_group e gs) ∧ (∀ k, k ∈ ks' → k ∈ ks ∨ k = event_key e).
Proof.
  intros Hnd Hf. induction Hf as [|k g ks gs Hg Hf IH]; cbn [add_to_group].
  - exists [event_key e]. split_and!; [apply NoDup_singleton| |set_solver]. repeat constructor; done.
  - apply NoDup_cons in Hnd as [Hk Hnd]. destruct Hg as [Hne Hg]. destruct g as [|x g]; [done|].
    apply Forall_cons in Hg as [Hx Hg]. case_bool_decide as Hb.
    + exists (k :: ks). split_and!; [by constructor| |set_solver]. constructor; [|done].
      split; [done|]. rewrite Hx in Hb. constructor; [done|]. apply Forall_app. split; [done|]. by apply Forall_singleton.
    + destruct (IH Hnd) as (ks' & Hnd' & Hf' & Hk'). exists (k :: ks'). split_and!.
      * constructor; [|done]. intros Hin. destruct (Hk' _ Hin) as [?| ->]; [done|]. by apply Hb.
      * constructor; [|done]. split; [done|]. by constructor.
      * set_solver.
Qed.
Lemma group_events_grouped l : grouped (group_events l).
Proof.
  unfold group_events. assert (∀ gs, grouped gs → grouped (foldl (λ gs e, add_to_group e gs) gs l)) as H;
    [|apply H; exists []; split; [constructor|constructor]].
  induction l as [|e l IH]; intros gs (ks & Hnd & Hf); cbn [foldl]; [by exists ks|]. apply IH.
  destruct (add_to_group_keys e ks gs Hnd Hf) as (ks' & ? & ? & _). by exists ks'.
Qed.

(** ** The invariant *)

(** An event is accepted no sooner than the window after the clock reading with which the
    one before it of the same issue and kind was accepted. *)
Definition spaced (w : Z) (l : list (Z * Z * AlertEvent)) : Prop :=
  ∀ i j t1 a1 e1 t2 a2 e2, (i < j)%nat → l !! i = Some (t1, a1, e1) → l !! j = Some (t2, a2, e2) → event_key e1 = event_key e2 → t1 + w ≤ a2.
Definition one_kind (g : list AlertEvent) : Prop := ∃ k, one_key k g.
Definition recent (w now : Z) (n : Notifier) : Prop :=
  ∀ t a e, (t, a, e) ∈ nf_accepted n → t + w ≤ now ∨ ∃ exp, nf_dedup n !! event_key e = Some exp ∧ t + w ≤ exp.
(** What the goroutines are doing. *)
Record workers_ok (S : Settings) (now : Z) (p : list (Z * AlertEvent)) (n : Notifier) : Prop := {
  wo_clock : Forall (λ x, x.1 ≤ now) p;
  wo_many : st_batchWindow S = 0 → (length p + length (nf_busy n) ≤ notifierWorkerCount)%nat;
  wo_one : 0 < st_batchWindow S → p = [] ∨ length p = 1%nat ∧ nf_busy n = []
}.
(** What they have done. *)
Record n_inv (S : Settings) (now : Z) (n : Notifier) : Prop := {
  ni_queue : (length (nf_incoming n) ≤ notifierQueueSize)%nat;
  ni_batch : (length (nf_batch n) < notifierBatchMaxSize)%nat ∧ (nf_batch n ≠ [] → nf_timer n = true);
  ni_account : (nf_accepted n).*2 ≡ₚ nf_batch n ++ concat (nf_busy n) ++ concat (nf_sent n);
  ni_groups : Forall one_kind (nf_busy n) ∧ Forall one_kind (nf_sent n);
  ni_recent : recent (st_dedupWindow S) now n;
  ni_spaced : spaced (st_dedupWindow S) (nf_accepted n);
  ni_times : Forall (λ x, x.1.1 ≤ x.1.2 ≤ now) (nf_accepted n);
  ni_mode : st_batchWindow S = 0 → nf_batch n = []
}.

Lemma spaced_snoc w l t now e :
  spaced w l → (∀ t a e', (t, a, e') ∈ l → event_key e' = event_key e → t + w ≤ now) → spaced w (l ++ [(t, now, e)]).
Proof.
  intros Hs Hn i j t1 a1 e1 t2 a2 e2 Hij Hi Hj Hk. apply lookup_app_Some in Hj as [Hj|[Hle Hj]].
  - rewrite lookup_app_l in Hi by (apply lookup_lt_Some in Hj; lia). by eapply Hs.
  - apply list_lookup_singleton_Some in Hj as [Hj [= <- <- <-]]. rewrite lookup_app_l in Hi by lia.
    eapply Hn; [|done]. by eapply list_elem_of_lookup_2.
Qed.

(** Everything but the maps and the history of acceptances. *)
Definition rest_of (n : Notifier) :=
  (nf_incoming n, nf_batch n, nf_timer n, nf_busy n, nf_stopped n, nf_sent n).

Lemma prune_recent w t now n : t ≤ now → recent w now n → recent w now (pruneStale t n).
Proof.
  intros Ht Hr t' a e Hin. destruct (Hr t' a e Hin) as [?|(exp & Hk & Hle)]; [by left|].
  destruct (Z.le_gt_cases exp t); [left; lia|]. right. exists exp. split; [|done].
  cbn. apply map_lookup_filter_Some. split; [done|]. cbn. lia.
Qed.
Lemma shouldDrop_spec w t now e n :
  t ≤ now → recent w now n → spaced w (nf_accepted n) →
  match shouldDrop w t now e n with
  | (true, n') => rest_of n' = rest_of n ∧ nf_accepted n' = nf_accepted n ∧ recent w now n'
  | (false, n') => rest_of n' = rest_of n ∧ nf_accepted n' = nf_accepted n ++ [(t, now, e)] ∧ recent w now n' ∧ spaced w (nf_accepted n')
  end.
Proof.
  intros Htn Hr Hs. unfold shouldDrop. cbv zeta. set (n1 := if _ && _ then pruneStale t n else n).
  assert (rest_of n1 = rest_of n ∧ nf_accepted n1 = nf_accepted n ∧ recent w now n1) as (Hrest & Hacc & Hr1).
  { unfold n1. destruct (_ && _); [|done]. split_and!; [done|done|by apply prune_recent]. }
  destruct (match nf_dedup n1 !! event_key e with Some exp => t <? exp | None => false end) eqn:Hd; [done|].
  assert (Hold : ∀ t' a e', (t', a, e') ∈ nf_accepted n1 → event_key e' = event_key e → t' + w ≤ now).
  { intros t' a e' Hin Hk. destruct (Hr1 t' a e' Hin) as [?|(exp & He & Hle)]; [done|].
    rewrite Hk in He. rewrite He in Hd. apply Z.ltb_ge in Hd. lia. }
  cbn [nf_accepted]. split_and!; [exact Hrest|by rewrite Hacc| |].
  - intros t' a e' Hin. cbn [nf_accepted nf_dedup] in *. apply elem_of_app in Hin as [Hin|Hin].
    + destruct (decide (event_key e' = event_key e)) as [Heq|Hne]; [left; by eapply Hold|].
      destruct (Hr1 t' a e' Hin) as [?|(exp & Hk & Hle)]; [by left|]. right. exists exp. by rewrite lookup_insert_ne.
    + apply list_elem_of_singleton in Hin as [= -> -> ->]. right. exists (t + w). by rewrite lookup_insert_eq.
  - rewrite Hacc in *. by apply spaced_snoc.
Qed.

Lemma enqueue_rest e n :
  (length (nf_incoming n) ≤ notifierQueueSize)%nat →
  (length (nf_incoming (enqueue e n)) ≤ notifierQueueSize)%nat ∧ nf_batch (enqueue e n) = nf_batch n ∧ nf_timer (enqueue e n) = nf_timer n ∧
  nf_busy (enqueue e n) = nf_busy n ∧ nf_accepted (enqueue e n) = nf_accepted n ∧ nf_sent (enqueue e n) = nf_sent n ∧ nf_dedup (enqueue e n) = nf_dedup n.
Proof.
  intros Hq. unfold enqueue. destruct (Nat.ltb_spec (length (nf_incoming n)) notifierQueueSize); [|done].
  split_and!; try done. cbn. rewrite length_app. cbn. lia.
Qed.
Lemma n_inv_enqueue S now e n : n_inv S now n → n_inv S now (enqueue e n).
Proof.
  intros [Hq Hb Ha Hg Hr Hs Ht Hm]. destruct (enqueue_rest e n Hq) as (Hq' & E1 & E2 & E3 & E4 & E5 & E6).
  split; unfold recent in *; rewrite ?E1, ?E2, ?E3, ?E4, ?E5, ?E6; done.
Qed.
Lemma n_inv_task S now b task at_ n : n_inv S now n → n_inv S now (task_pump b task at_ n).
Proof.
  intros Hi. unfold task_pump. destruct (taskEventToAlertEvent _ _ _) as [a|]; [|done]. apply n_inv_enqueue.
  unfold maybeEmitRepeatedFailure. destruct (negb _); [done|]. cbv zeta.
  set (n1 := set_counters _ n). assert (n_inv S now n1) as Hi1 by (by destruct Hi; split).
  destruct (_ <=? 1); [done|]. by apply n_inv_enqueue.
Qed.
Lemma enqueue_busy e n : nf_busy (enqueue e n) = nf_busy n.
Proof. unfold enqueue. by destruct (_ <? _)%nat. Qed.
Lemma task_busy b task at_ n : nf_busy (task_pump b task at_ n) = nf_busy n.
Proof.
  unfold task_pump. destruct (taskEventToAlertEvent _ _ _); [|done]. rewrite enqueue_busy. unfold maybeEmitRepeatedFailure.
  destruct (negb _); [done|]. cbv zeta. destruct (_ <=? 1); [done|]. by rewrite enqueue_busy.
Qed.
Lemma workers_same S now p n n' : nf_busy n' = nf_busy n → workers_ok S now p n → workers_ok S now p n'.
Proof. intros Hb [H1 H2 H3]. split; by rewrite ?Hb. Qed.

(** An event under the lock. *)
Lemma n_inv_locked S t now e n :
  t ≤ now → n_inv S now n →
  match shouldDrop (st_dedupWindow S) t now e n with
  | (true, n') => n_inv S now n' ∧ nf_busy n' = nf_busy n
  | (false, n') => rest_of n' = rest_of n ∧ nf_accepted n' = nf_accepted n ++ [(t, now, e)] ∧
      recent (st_dedupWindow S) now n' ∧ spaced (st_dedupWindow S) (nf_accepted n') ∧ Forall (λ x, x.1.1 ≤ x.1.2 ≤ now) (nf_accepted n')
  end.
Proof.
  intros Ht [Hq Hb Ha Hg Hr Hs Hti Hm]. pose proof (shouldDrop_spec _ t now e _ Ht Hr Hs) as Hsp. destruct (shouldDrop _ _ _ _ _) as [[] n'].
  - destruct Hsp as (Hrest & Hacc & Hr'). unfold rest_of in Hrest. injection Hrest as E1 E2 E3 E4 E5 E6.
    split; [|done]. split; try exact Hr'; rewrite ?E1, ?E2, ?E3, ?E4, ?E5, ?E6, ?Hacc; done.
  - destruct Hsp as (Hrest & Hacc & Hr' & Hs'). split_and!; try done. rewrite Hacc. apply Forall_app. split; [done|]. apply Forall_singleton. cbn. lia.
Qed.
Lemma one_kind_single e : one_kind [e].
Proof. exists (event_key e). split; [done|]. by apply Forall_singleton. Qed.
Lemma grouped_kinds gs gs' : grouped gs' → gs ≡ₚ gs' → Forall one_kind gs.
Proof.
  intros (ks & _ & Hf) Hp. rewrite Hp. clear Hp. induction Hf as [|k g ks gs' Hg Hf IH]; constructor; [by exists k|done].
Qed.
Lemma flush_groups gs l : gs ≡ₚ group_events l → concat gs ≡ₚ l ∧ Forall one_kind gs.
Proof. intros Hp. split; [rewrite (concat_perm _ _ Hp); apply group_events_perm|]. eapply grouped_kinds; [apply group_events_grouped|done]. Qed.

Ltac notifier_cbn := cbn [flush set_batch set_incoming nf_incoming nf_batch nf_timer nf_busy nf_accepted nf_sent nf_dedup length].

(** A worker delivers an event of its own. *)
Lemma worker_inv S t now e n :
  t ≤ now → n_inv S now n →
  let n' := match shouldDrop (st_dedupWindow S) t now e n with
            | (true, n) => n
            | (false, n) => set_batch (nf_batch n) (nf_timer n) (nf_busy n ++ [[e]]) n
            end in
  n_inv S now n' ∧ (length (nf_busy n') ≤ 1 + length (nf_busy n))%nat.
Proof.
  intros Ht Hi. cbv zeta. pose proof (n_inv_locked S t now e n Ht Hi) as Hl. destruct (shouldDrop _ _ _ _ _) as [[] n']; [destruct Hl as [? ->]; split; [done|lia]|].
  destruct Hl as (Hrest & Hacc & Hr & Hsp & Hti). destruct Hi as [Hq Hb Ha Hg _ _ _ Hmo].
  unfold rest_of in Hrest. injection Hrest as E1 E2 E3 E4 E5 E6. split; [|notifier_cbn; rewrite E4, length_app; cbn; lia].
  split; notifier_cbn; try exact Hr; rewrite ?E1, ?E2, ?E3, ?E4, ?E6; try done.
  - rewrite Hacc, fmap_app, concat_app. cbn. rewrite Ha, <-!app_assoc. do 2 f_equiv. apply Permutation_app_comm.
  - split; [|by apply Hg]. apply Forall_app. split; [by apply Hg|]. apply Forall_singleton, one_kind_single.
Qed.
(** The worker of the batch collects one. *)
Lemma collect_inv S t now e gs n :
  t ≤ now → 0 < st_batchWindow S → nf_busy n = [] → gs ≡ₚ group_events (nf_batch n ++ [e]) → n_inv S now n →
  n_inv S now (match shouldDrop (st_dedupWindow S) t now e n with (true, n) => n | (false, n) => batch_add e gs n end).
Proof.
  intros Ht Hm Hbu Hgs Hi. pose proof (n_inv_locked S t now e n Ht Hi) as Hl. destruct (shouldDrop _ _ _ _ _) as [[] n']; [by destruct Hl|].
  destruct Hl as (Hrest & Hacc & Hr & Hsp & Hti). destruct Hi as [Hq Hb Ha Hg _ _ _ Hmo].
  unfold rest_of in Hrest. injection Hrest as E1 E2 E3 E4 E5 E6. rewrite Hbu in *. cbn [concat app] in Ha.
  unfold batch_add. cbv zeta. rewrite E2. destruct (Nat.leb_spec notifierBatchMaxSize (length (nf_batch n ++ [e]))) as [Hfull|Hroom].
  - destruct (flush_groups _ _ Hgs) as [Hc Hk].
    split; notifier_cbn; try exact Hr; rewrite ?E1, ?E6; try done; [unfold notifierBatchMaxSize; split; [lia|done]| |].
    + rewrite Hacc, fmap_app. cbn. rewrite Ha, Hc, <-!app_assoc. f_equiv. apply Permutation_app_comm.
    + split; [done|by apply Hg].
  - split; notifier_cbn; try exact Hr; rewrite ?E1, ?E4, ?E6; try done; [|lia].
    rewrite Hacc, fmap_app. cbn. rewrite Ha, <-!app_assoc. f_equiv. apply Permutation_app_comm.
Qed.
(** Groups take the place of what was collected. *)
Lemma flushed_inv S now gs b n :
  n_inv S now n → concat gs ≡ₚ nf_batch n ++ concat (nf_busy n) → Forall one_kind gs →
  n_inv S now (mkNotifier (nf_incoming n) (nf_dedup n) (nf_failureCounters n) [] false gs b (nf_accepted n) (nf_sent n)).
Proof.
  intros [Hq Hb Ha Hg Hr Hs Ht Hm] Hc Hk. split; notifier_cbn; try done; [unfold notifierBatchMaxSize; split; [lia|done]| |].
  - by rewrite Ha, Hc, <-app_assoc.
  - split; [done|by apply Hg].
Qed.
Lemma deliver_inv S now l1 g l2 n :
  nf_busy n = l1 ++ g :: l2 → n_inv S now n →
  n_inv S now (mkNotifier (nf_incoming n) (nf_dedup n) (nf_failureCounters n) (nf_batch n) (nf_timer n) (l1 ++ l2) (nf_stopped n) (nf_accepted n) (nf_sent n ++ [g])).
Proof.
  intros Hbu [Hq Hb Ha Hg Hr Hs Ht Hm]. rewrite Hbu in *. destruct Hg as [[H1 [Hgk H2]%Forall_cons]%Forall_app Hg].
  split; notifier_cbn; try done.
  - rewrite Ha. rewrite !concat_app. cbn [concat]. rewrite app_nil_r, <-!app_assoc. f_equiv. f_equiv.
    rewrite (Permutation_app_comm g). rewrite <-!app_assoc. done.
  - split; [by apply Forall_app|]. apply Forall_app. split; [done|]. by apply Forall_singleton.
Qed.

Definition state_ok (S : Settings) (s : NState) : Prop :=
  workers_ok S (ns_now s) (ns_pending s) (ns_notifier s) ∧ n_inv S (ns_now s) (ns_notifier s).
Lemma state_ok_step S s s' : state_ok S s → nstep S s s' → state_ok S s'.
Proof.
  intros [Hw Hi] Hs.
  destruct Hs as [now now' p n Hle|now p e n Hst|now p task at_ n Hst|now p e rest n Hst Hin Hfree|now p1 t e p2 n Hm|now t e gs n Hm Hgs|now gs n Hm Hbu Ht Hgs|now p gs n Hst Hmode|now p l1 g l2 n Hbu];
    cbn [ns_now ns_pending ns_notifier] in *; (split; cbn [ns_now ns_pending ns_notifier]).
  - destruct Hw as [H1 H2 H3]. split; [|done|done]. eapply Forall_impl; [exact H1|]. cbn. lia.
  - destruct Hi as [Hq Hb Ha Hg Hr Hs' Ht Hm]. split; try done.
    + intros t a e Hin. destruct (Hr t a e Hin) as [?|?]; [left; lia|by right].
    + eapply Forall_impl; [exact Ht|]. cbn. lia.
  - eapply workers_same; [apply enqueue_busy|exact Hw].
  - by apply n_inv_enqueue.
  - eapply workers_same; [apply task_busy|exact Hw].
  - by apply n_inv_task.
  - destruct Hw as [H1 H2 H3]. split; notifier_cbn.
    + apply Forall_app. split; [done|]. by apply Forall_singleton.
    + intros Hm. rewrite length_app. cbn. destruct Hfree as [[_ Hf]|[? _]]; [lia|lia].
    + intros Hm. destruct Hfree as [[? _]|(_ & -> & Hbu)]; [lia|]. by right.
  - destruct Hi as [Hq Hb Ha Hg Hr Hs' Ht Hm]. rewrite Hin in Hq. split; notifier_cbn; try done. cbn in Hq. lia.
  - destruct Hw as [[Hp1 [Htn Hp2]%Forall_cons]%Forall_app H2 H3]. destruct (worker_inv S t now e n Htn Hi) as [_ Hlen].
    specialize (H2 Hm). rewrite length_app in H2. cbn in H2. split; [by apply Forall_app| |intros ?; lia]. intros _. rewrite length_app. lia.
  - destruct Hw as [[Hp1 [Htn Hp2]%Forall_cons]%Forall_app H2 H3]. by apply worker_inv.
  - split; [constructor|intros ?; lia|by left].
  - destruct Hw as [[Htn _]%Forall_cons H2 H3]. destruct (H3 Hm) as [?|[_ Hbu]]; [done|]. by apply collect_inv.
  - split; [constructor|intros ?; lia|by left].
  - destruct (flush_groups _ _ Hgs) as [Hc Hk]. apply flushed_inv; [done| |done]. by rewrite Hbu, app_nil_r.
  - destruct Hw as [H1 H2 H3]. destruct Hmode as [[Hm ->]|(Hm & -> & Hbu & _)]; split; notifier_cbn; try done; intros ?; first [lia|by left].
  - destruct Hmode as [[Hm ->]|(Hm & -> & Hbu & Hgs)]; apply flushed_inv; try done.
    + by rewrite (ni_mode _ _ _ Hi Hm).
    + by apply Hi.
    + rewrite Hbu, app_nil_r. by apply flush_groups.
    + by eapply flush_groups.
  - destruct Hw as [H1 H2 H3]. rewrite Hbu in *. split; notifier_cbn; [done| |].
    + intros Hm. specialize (H2 Hm). rewrite !length_app in *. cbn in *. lia.
    + intros Hm. destruct (H3 Hm) as [?|[_ Hx]]; [by left|by destruct l1].
  - by apply deliver_inv.
Qed.
Lemma state_ok_reachable S t0 s : rtc (nstep S) (mkNState t0 [] NewNotifier) s → state_ok S s.
Proof.
  intros Hr. assert (state_ok S (mkNState t0 [] NewNotifier)) as H0.
  { split; cbn; [split; cbn; [constructor|lia|by left]|].
    split; cbn; try done; [lia|unfold notifierBatchMaxSize; split; [lia|done]|intros t a e Hin; by apply elem_of_nil in Hin]. }
  induction Hr as [|x y z Hs Hr IH]; [done|]. apply IH. by eapply state_ok_step.
Qed.

(** Retrying a send. *)
Lemma retry_bounds (send : nat → option error) (cancelled : nat → bool) :
  let '(r, k, waited) := sendWithRetry send cancelled in
  (1 ≤ k ≤ 3)%nat ∧ (r = None ↔ send k = None) ∧ (∀ j, (1 ≤ j < k)%nat → send j ≠ None) ∧ 0 ≤ waited ≤ 15 * second.
Proof.
  unfold sendWithRetry. cbn [retryAttempts Nat.sub send_loop]. change retryDelay with (5 * second).
  assert (0 < second) by done.
  assert (∀ j, (1 ≤ j < 1)%nat → send j ≠ None) as H0 by lia.
  destruct (send 1%nat) eqn:E1; [|by repeat split; try lia].
  assert (∀ j, (1 ≤ j < 2)%nat → send j ≠ None) as H1 by (intros j Hj; replace j with 1%nat by lia; by rewrite E1).
  destruct (cancelled 1%nat); [repeat split; first [done | lia | congruence]|].
  destruct (send 2%nat) eqn:E2; [|by repeat split; try lia].
  assert (∀ j, (1 ≤ j < 3)%nat → send j ≠ None) as H2.
  { intros j Hj. destruct (decide (j = 1%nat)) as [->|]; [by rewrite E1|]. replace j with 2%nat by lia. by rewrite E2. }
  destruct (cancelled 2%nat); [repeat split; first [done | lia | congruence]|].
  destruct (send 3%nat) eqn:E3; repeat split; first [done | lia | congruence].
Qed.


(** *** A run *)

Definition sample_settings : Settings := mkSettings true "ci" (300 * second) 0 false [SlackSender "https://hooks.example/x"].
Definition sample_alert (kind : string) : AlertEvent := mkAlert kind SeverityWarn "o/r" 7 "dev-agent" 1714521600 [("url", JS "https://x.example/secret")].
Ltac take_one t e :=
  eapply rtc_l; [apply (nst_take _ _ _ e []); [done|done|left; split; [done|vm_compute; lia]]|];
  eapply rtc_l; [by apply (nst_worker _ _ [] t e [])|].

(** ** Keys *)

Definition no_hash (s : string) : bool := all_str (λ d, negb (Ascii.eqb d "#")) s.
Lemma hash_split a b x y : no_hash a = true → no_hash b = true → a +:+ String "#" x = b +:+ String "#" y → a = b ∧ x = y.
Proof.
  revert b. induction a as [|c a IH]; intros [|d b] Ha Hb H; rewrite ?app_str_cons in H.
  - by injection H as ->.
  - exfalso. change (EmptyString +:+ ?t) with t in H. injection H as <- _. done.
  - exfalso. change (EmptyString +:+ ?t) with t in H. injection H as -> _. done.
  - injection H as -> H. cbn in Ha, Hb. apply andb_true_iff in Ha as [_ Ha], Hb as [_ Hb]. destruct (IH b Ha Hb H) as [-> ->]. done.
Qed.
(** Alerts suppress each other only within an issue and a kind. *)
Lemma event_key_inj e1 e2 :
  no_hash (al_Repo e1) = true → no_hash (al_Repo e2) = true → event_key e1 = event_key e2 →
  al_Repo e1 = al_Repo e2 ∧ al_IssueNum e1 = al_IssueNum e2 ∧ al_Kind e1 = al_Kind e2.
Proof.
  intros H1 H2 H. unfold event_key, eventDedupKey in H. cbn [join_str] in H.
  change ("#" +:+ ?t) with (String "#" t) in H. destruct (hash_split _ _ _ _ H1 H2 H) as [Hr H']. clear H.
  change ("#" +:+ ?t) with (String "#" t) in H'.
  destruct (hash_split (itoa (al_IssueNum e1)) (itoa (al_IssueNum e2)) (al_Kind e1) (al_Kind e2)) as [Hn Hk]; [apply itoa_no_hash..|done|].
  split_and!; [done|by apply itoa_inj|done].
Qed.

(** ** Unintended *)

(** Two failures with a success in between count as repeated: nothing resets the counter
    but the pruning of the map of windows, which waits for a hundred entries. *)
Theorem success_does_not_reset :
  let failed id := mkTaskEvent id "o/r" 7 "dev-agent" TaskStatusFailed 1 in
  let passed := mkTaskEvent "t2" "o/r" 7 "dev-agent" TaskStatusCompleted 0 in
  let n := task_pump false (failed "t3") 0 (task_pump false passed 0 (task_pump false (failed "t1") 0 NewNotifier)) in
  map al_Kind (nf_incoming n) = [KindAgentExitNonZero; KindRepeatedFailure; KindAgentExitNonZero].
Proof. by vm_compute. Qed.

(** An alert that arrives while a configuration is applied is queued by both notifiers,
    each with a window of its own, and what the old one had queued stays there. *)
Theorem reload_duplicates_and_drops :
  let e := sample_alert "stuck_detected" in let f := sample_alert "orphaned_task" in
  let r0 := mkNotifierRuntime [] (Some (sample_settings, NewNotifier)) None in
  let r := apply_cancel (runtime_alert e (apply_start (Ok sample_settings) (runtime_alert f r0)).2) in
  map (λ p, (nf_incoming p.2, nf_stopped p.2)) (nr_cancelled r) = [([f; e], true)] ∧
  (λ p, (nf_incoming p.2, nf_stopped p.2)) <$> nr_current r = Some ([e], false) ∧
  ∃ s1 s2, rtc (nstep sample_settings) (mkNState 0 [] (default NewNotifier (snd <$> nr_current (runtime_alert e (apply_start (Ok sample_settings) r0).2)))) s1 ∧
    rtc (nstep sample_settings) (mkNState 0 [] (default NewNotifier (snd <$> nr_next (runtime_alert e (apply_start (Ok sample_settings) r0).2)))) s2 ∧
    nf_sent (ns_notifier s1) = [[e]] ∧ nf_sent (ns_notifier s2) = [[e]].
Proof.
  cbv zeta. split; [by vm_compute|]. split; [by vm_compute|].
  assert (∃ s, rtc (nstep sample_settings) (mkNState 0 [] (enqueue (sample_alert "stuck_detected") NewNotifier)) s ∧
    nf_sent (ns_notifier s) = [[sample_alert "stuck_detected"]]) as (s & Hr & Hs).
  { eexists. split.
    - take_one 0 (sample_alert "stuck_detected").
      eapply rtc_l; [by apply (nst_deliver _ _ _ [] [sample_alert "stuck_detected"] [])|]. apply rtc_refl.
    - by vm_compute. }
  exists s, s. done.
Qed.
