(* ===== verification/Tunnel.v ===== *)
(** * The worker tunnel

    [internal/wstunnel]: HTTP requests of the coordinator travel to a worker over one
    WebSocket.  A request is a frame with a stream id; [Do] registers a channel under
    the id, sends the frame and waits; the read loop [Run] of the endpoint hands each
    response to the channel of its stream; on the other side [ServeRequests] runs the
    handler of each request in a goroutine of its own.

    Every step that another goroutine can observe is one step here: registering,
    sending, receiving, the lookup of [Run] under the mutex, its send on the channel
    outside of it, its close, and [fail].  Channels live in a store and keep their
    identity; a send on a closed channel, and a second close, is a panic.  Keepalive
    pings are the steps in which the endpoint fails. *)

From S2P Require Import Prelude GoLib Json JsonValue GoText Types ReportFormat.
From Stdlib Require Import Ascii.

(** ** Frames *)

Definition FrameRequest : string := "request".
Definition FrameResponse : string := "response".
Definition FrameClose : string := "close".

(** A map under an iteration order; a nil slice of values is [None]. *)
Definition Header : Type := list (string * option (list string)).
Record Frame := mkFrame {
  fr_Type : string;
  fr_StreamID : string;
  fr_Method : string;
  fr_Path : string;
  fr_Headers : option Header;
  fr_Status : Z;
  fr_End : bool;
  fr_Error : string;
  fr_Body : string
}.

(** [textproto.CanonicalMIMEHeaderKey]: unchanged unless every byte is one of a token. *)
Definition token_byte (c : ascii) : bool :=
  byte_in c 48 57 || byte_in c 65 90 || byte_in c 97 122 || byte_is c 33 || byte_in c 35 39 || byte_in c 42 43 || byte_in c 45 46 ||
  byte_in c 94 96 || byte_is c 124 || byte_is c 126.
Fixpoint canonical_bytes (upper : bool) (s : string) : string :=
  match s with
  | EmptyString => EmptyString
  | String c s =>
      let n := N_of_ascii c in
      let c' := if upper && byte_in c 97 122 then chr (n - 32) else if negb upper && byte_in c 65 90 then chr (n + 32) else c in
      String c' (canonical_bytes (byte_is c 45) s)
  end.
Definition CanonicalMIMEHeaderKey (s : string) : string := if all_str token_byte s then canonical_bytes true s else s.
(** A later entry replaces an earlier one. *)
Definition header_set (k : string) (v : option (list string)) (h : Header) : Header := List.filter (λ x, negb (bool_decide (x.1 = k))) h ++ [(k, v)].
(** [append([]string(nil), vals...)] is nil when there are none. *)
Definition copy_vals (v : option (list string)) : option (list string) := match v with Some (x :: l) => Some (x :: l) | _ => None end.
Definition canonicalHeader (h : Header) : Header := foldl (λ out kv, header_set (CanonicalMIMEHeaderKey kv.1) kv.2 out) [] h.
Definition cloneHeader (h : option Header) : option Header := (λ h, canonicalHeader (map (prod_map id copy_vals) h)) <$> h.

(** The JSON of a frame without its body: [omitempty] fields, and the keys of a map in
    order. *)
Definition vals_json (v : option (list string)) : json := match v with Some l => JArr (map JStr l) | None => JNull end.
Definition headers_json (h : Header) : json := JObj (map (λ k, (k, vals_json (mjoin (assoc h k)))) (sort_strings (map fst h))).
Definition omit (b : bool) (k : string) (v : json) : list (string * json) := if b then [] else [(k, v)].
Definition empty_header (h : option Header) : bool := match h with Some (_ :: _) => false | _ => true end.
Definition frame_json (f : Frame) : json :=
  JObj ([("type", JStr (fr_Type f)); ("stream_id", JStr (fr_StreamID f))]
     ++ omit (negb (nonempty (fr_Method f))) "method" (JStr (fr_Method f))
     ++ omit (negb (nonempty (fr_Path f))) "path" (JStr (fr_Path f))
     ++ omit (empty_header (fr_Headers f)) "headers" (headers_json (default [] (fr_Headers f)))
     ++ omit (fr_Status f =? 0) "status" (JNum (itoa (fr_Status f)))
     ++ omit (negb (fr_End f)) "end" (JBool true)
     ++ omit (negb (nonempty (fr_Error f))) "error" (JStr (fr_Error f))).
Definition EncodeFrame (f : Frame) : string := print_json (frame_json f) +:+ String (chr 10) (fr_Body f).

(** [json.Unmarshal] into the struct: [null] leaves a field as it is, a repeated key
    counts once more, a value of another type is an error. *)
Definition into_string (v : json) (old : string) : option string := match v with JStr s => Some s | JNull => Some old | _ => None end.
Definition into_bool (v : json) (old : bool) : option bool := match v with JBool b => Some b | JNull => Some old | _ => None end.
Definition into_int (v : json) (old : Z) : option Z := match v with JNum x => atoi x | JNull => Some old | _ => None end.
Definition into_vals (v : json) : option (option (list string)) :=
  match v with JArr l => Some <$> mapM (λ v, into_string v EmptyString) l | JNull => Some None | _ => None end.
Fixpoint into_entries (l : list (string * json)) (h : Header) : option Header :=
  match l with
  | [] => Some h
  | (k, v) :: l => x ← into_vals v; into_entries l (header_set k x h)
  end.
Definition into_header (v : json) (old : option Header) : option (option Header) :=
  match v with JObj l => Some <$> into_entries l (default [] old) | JNull => Some None | _ => None end.

(** [foldName]: letters in upper case, with the two letters outside of ASCII that fold
    to one inside. *)
Fixpoint fold_name (s : string) : string :=
  match s with
  | EmptyString => EmptyString
  | String c r =>
      if byte_in c 97 122 then String (chr (N_of_ascii c - 32)) (fold_name r)
      else match r with
           | String d r' =>
               if byte_is c 197 && byte_is d 191 then String "S" (fold_name r')
               else match r' with
                    | String e r'' => if byte_is c 226 && byte_is d 132 && byte_is e 170 then String "K" (fold_name r'') else String c (fold_name r)
                    | EmptyString => String c (fold_name r)
                    end
           | EmptyString => String c (fold_name r)
           end
  end.
Definition is_field (k name : string) : bool := bool_decide (fold_name k = fold_name name).
Definition into_field (f : Frame) (k : string) (v : json) : option Frame :=
  let 'mkFrame ty id me pa he st en er bo := f in
  if is_field k "type" then ty ← into_string v ty; Some (mkFrame ty id me pa he st en er bo)
  else if is_field k "stream_id" then id ← into_string v id; Some (mkFrame ty id me pa he st en er bo)
  else if is_field k "method" then me ← into_string v me; Some (mkFrame ty id me pa he st en er bo)
  else if is_field k "path" then pa ← into_string v pa; Some (mkFrame ty id me pa he st en er bo)
  else if is_field k "headers" then he ← into_header v he; Some (mkFrame ty id me pa he st en er bo)
  else if is_field k "status" then st ← into_int v st; Some (mkFrame ty id me pa he st en er bo)
  else if is_field k "end" then en ← into_bool v en; Some (mkFrame ty id me pa he st en er bo)
  else if is_field k "error" then er ← into_string v er; Some (mkFrame ty id me pa he st en er bo)
  else Some f.
Definition zero_frame : Frame := mkFrame EmptyString EmptyString EmptyString EmptyString None 0 false EmptyString EmptyString.
Fixpoint into_frame (l : list (string * json)) (f : Frame) : option Frame :=
  match l with [] => Some f | (k, v) :: l => f ← into_field f k v; into_frame l f end.
Definition unmarshal_frame (s : string) : option Frame :=
  v ← parse_json s;
  match v with JObj l => into_frame l zero_frame | JNull => Some zero_frame | _ => None end.

(** [bytes.Cut] at the first newline. *)
Fixpoint cut_line (s : string) : option (string * string) :=
  match s with
  | EmptyString => None
  | String c s => if byte_is c 10 then Some (EmptyString, s) else '(a, b) ← cut_line s; Some (String c a, b)
  end.
Definition DecodeFrame (data : string) : option Frame :=
  '(head, body) ← cut_line data;
  f ← unmarshal_frame head;
  if is_blank (fr_Type f) || is_blank (fr_StreamID f) then None
  else Some (mkFrame (fr_Type f) (fr_StreamID f) (fr_Method f) (fr_Path f) (canonicalHeader <$> fr_Headers f) (fr_Status f) (fr_End f) (fr_Error f) body).

Example decode_ex :
  DecodeFrame (requote "{'TYPE':'response','stream_id':'7','ſtatus':200,'headers':{'x-a':['1',null]},'end':true,'path':null}" +:+ String (chr 10) "ok")
  = Some (mkFrame "response" "7" EmptyString EmptyString (Some [("X-A", Some ["1"; EmptyString])]) 200 true EmptyString "ok").
Proof. reflexivity. Qed.

(** ** Endpoints *)

Record Chan := mkChan { ch_buf : list Frame; ch_closed : bool }.
Definition stream_cap : nat := 16.
Definition requests_cap : nat := 64.

(** What [Do] and [serveOne] exchange. *)
Record Request := mkRequest { rq_Method : string; rq_URI : string; rq_Headers : option Header; rq_Body : string }.
Record Response := mkResponse { rs_Status : Z; rs_Headers : option Header; rs_Body : string }.
Inductive DoErr := DClosed (e : error) | DRemote (msg : string) | DEOF | DWrite | DContext.

Inductive CallerPhase :=
  | CSending
  | CWaiting (status : Z) (headers : option Header) (buf : string)
  | CCancelling
  | CDone (r : Response + DoErr).
(** The stream id of a caller is its number. *)
Record Caller := mkCaller { ca_num : Z; ca_req : Request; ca_phase : CallerPhase }.

(** Where [Run] is: reading, about to send a frame on a channel, about to close it,
    about to queue a request, returned, or panicked. *)
Inductive RunPhase :=
  | RReading
  | RDeliver (ch : Z) (f : Frame)
  | RClosing (ch : Z)
  | RRequest (f : Frame)
  | RReturned
  | RPanicked.

Record Endpoint := mkEndpoint {
  ep_streams : gmap string Z;
  ep_chans : gmap Z Chan;
  ep_requests : Chan;
  ep_closed : option error;
  ep_next : Z;
  ep_run : RunPhase;
  ep_callers : gmap nat Caller;
  ep_serving : list Frame
}.
Definition NewEndpoint : Endpoint := mkEndpoint ∅ ∅ (mkChan [] false) None 0 RReading ∅ [].

Definition set_run (p : RunPhase) (e : Endpoint) : Endpoint :=
  mkEndpoint (ep_streams e) (ep_chans e) (ep_requests e) (ep_closed e) (ep_next e) p (ep_callers e) (ep_serving e).
Definition set_caller (t : nat) (c : Caller) (e : Endpoint) : Endpoint :=
  mkEndpoint (ep_streams e) (ep_chans e) (ep_requests e) (ep_closed e) (ep_next e) (ep_run e) (<[t := c]> (ep_callers e)) (ep_serving e).
Definition set_chans (cs : gmap Z Chan) (e : Endpoint) : Endpoint :=
  mkEndpoint (ep_streams e) cs (ep_requests e) (ep_closed e) (ep_next e) (ep_run e) (ep_callers e) (ep_serving e).
Definition set_streams (m : gmap string Z) (e : Endpoint) : Endpoint :=
  mkEndpoint m (ep_chans e) (ep_requests e) (ep_closed e) (ep_next e) (ep_run e) (ep_callers e) (ep_serving e).
Definition set_requests (r : Chan) (e : Endpoint) : Endpoint :=
  mkEndpoint (ep_streams e) (ep_chans e) r (ep_closed e) (ep_next e) (ep_run e) (ep_callers e) (ep_serving e).
Definition set_serving (l : list Frame) (e : Endpoint) : Endpoint :=
  mkEndpoint (ep_streams e) (ep_chans e) (ep_requests e) (ep_closed e) (ep_next e) (ep_run e) (ep_callers e) l.

Definition shut (c : Chan) : Chan := mkChan (ch_buf c) true.
Definition removeStream (id : string) (e : Endpoint) : Endpoint :=
  match ep_streams e !! id with
  | Some ch => set_chans (alter shut ch (ep_chans e)) (set_streams (delete id (ep_streams e)) e)
  | None => e
  end.
Definition fail (err : error) (e : Endpoint) : Endpoint :=
  match ep_closed e with
  | Some _ => e
  | None =>
      mkEndpoint ∅ (map_imap (λ n c, Some (if bool_decide (n ∈ (map_to_list (ep_streams e)).*2) then shut c else c)) (ep_chans e))
        (shut (ep_requests e)) (Some err) (ep_next e) (ep_run e) (ep_callers e) (ep_serving e)
  end.

(** *** Do *)

Definition request_frame (n : Z) (r : Request) : Frame :=
  mkFrame FrameRequest (itoa n) (rq_Method r) (if bool_decide (rq_URI r = EmptyString) then "/" else rq_URI r)
    (cloneHeader (rq_Headers r)) 0 true EmptyString (rq_Body r).
Definition close_frame (n : Z) (msg : string) : Frame := mkFrame FrameClose (itoa n) EmptyString EmptyString None 0 true msg EmptyString.

(** The id is taken before the endpoint is known to be open. *)
Definition do_enter (t : nat) (r : Request) (e : Endpoint) : Endpoint :=
  let n := ep_next e + 1 in
  match ep_closed e with
  | Some err => mkEndpoint (ep_streams e) (ep_chans e) (ep_requests e) (ep_closed e) n (ep_run e)
                  (<[t := mkCaller n r (CDone (inr (DClosed err)))]> (ep_callers e)) (ep_serving e)
  | None => mkEndpoint (<[itoa n := n]> (ep_streams e)) (<[n := mkChan [] false]> (ep_chans e)) (ep_requests e) (ep_closed e) n (ep_run e)
              (<[t := mkCaller n r CSending]> (ep_callers e)) (ep_serving e)
  end.
Definition finish (t : nat) (c : Caller) (r : Response + DoErr) (e : Endpoint) : Endpoint := set_caller t (mkCaller (ca_num c) (ca_req c) (CDone r)) e.
(** [written]: whether the write succeeds. *)
Definition do_send (t : nat) (c : Caller) (written : bool) (e : Endpoint) : Endpoint * list Frame :=
  match ep_closed e with
  | Some err => (finish t c (inr (DClosed err)) (removeStream (itoa (ca_num c)) e), [])
  | None =>
      if written then (set_caller t (mkCaller (ca_num c) (ca_req c) (CWaiting 0 (Some []) EmptyString)) e, [request_frame (ca_num c) (ca_req c)])
      else (finish t c (inr DWrite) (removeStream (itoa (ca_num c)) e), [])
  end.
(** A frame from the channel. *)
Definition do_frame (f : Frame) (status : Z) (headers : option Header) (buf : string) : CallerPhase :=
  if bool_decide (fr_Type f = FrameClose) then
    CDone (inr (if nonempty (fr_Error f) then DRemote (fr_Error f) else DEOF))
  else
    let status' := if fr_Status f =? 0 then status else fr_Status f in
    let headers' := if fr_Status f =? 0 then headers else cloneHeader (fr_Headers f) in
    let buf' := buf +:+ fr_Body f in
    if fr_End f then CDone (inl (mkResponse (if status' =? 0 then 502 else status') headers' buf'))
    else CWaiting status' headers' buf'.
Definition do_recv (t : nat) (c : Caller) (st : Z) (hd : option Header) (buf : string) (ch : Chan) (e : Endpoint) : Endpoint :=
  match ch_buf ch with
  | f :: rest => set_caller t (mkCaller (ca_num c) (ca_req c) (do_frame f st hd buf)) (set_chans (<[ca_num c := mkChan rest (ch_closed ch)]> (ep_chans e)) e)
  | [] => if ch_closed ch then finish t c (inr (match ep_closed e with Some err => DClosed err | None => DEOF end)) e else e
  end.
Definition do_cancel (t : nat) (c : Caller) (e : Endpoint) : Endpoint :=
  set_caller t (mkCaller (ca_num c) (ca_req c) CCancelling) (removeStream (itoa (ca_num c)) e).
Definition do_cancelled (t : nat) (c : Caller) (msg : string) (written : bool) (e : Endpoint) : Endpoint * list Frame :=
  (finish t c (inr DContext) e, match ep_closed e with None => if written then [close_frame (ca_num c) msg] else [] | Some _ => [] end).

(** *** Run *)

Definition ends (f : Frame) : bool := bool_decide (fr_Type f = FrameClose) || fr_End f.
Definition run_frame (f : Frame) (e : Endpoint) : Endpoint :=
  if bool_decide (fr_Type f = FrameResponse) || bool_decide (fr_Type f = FrameClose) then
    let e' := if ends f then set_streams (delete (fr_StreamID f) (ep_streams e)) e else e in
    match ep_streams e !! fr_StreamID f with
    | Some ch => set_run (RDeliver ch f) e'
    | None => e'
    end
  else if bool_decide (fr_Type f = FrameRequest) then set_run (RRequest f) e
  else set_run RReturned (fail (EMsg "wstunnel: unknown frame type") e).
(** [ctx]: the context of [Run] is done, and the frame is dropped. *)
Definition run_deliver (ctx : bool) (n : Z) (f : Frame) (ch : Chan) (e : Endpoint) : Endpoint :=
  let next := if ends f then RClosing n else RReading in
  if ctx then set_run next e
  else if ch_closed ch then set_run RPanicked e
  else if (length (ch_buf ch) <? stream_cap)%nat
  then set_run next (set_chans (<[n := mkChan (ch_buf ch ++ [f]) false]> (ep_chans e)) e)
  else e.
Definition run_close (n : Z) (ch : Chan) (e : Endpoint) : Endpoint :=
  if ch_closed ch then set_run RPanicked e
  else set_run RReading (set_chans (<[n := shut ch]> (ep_chans e)) e).
Definition run_request (ctx : bool) (f : Frame) (e : Endpoint) : Endpoint :=
  if ctx then set_run RReturned (fail ErrContext e)
  else if ch_closed (ep_requests e) then set_run RPanicked e
  else if (length (ch_buf (ep_requests e)) <? requests_cap)%nat
  then set_run RReading (set_requests (mkChan (ch_buf (ep_requests e) ++ [f]) false) e)
  else e.

(** *** ServeRequests *)

Definition serve_take (e : Endpoint) : Endpoint :=
  match ch_buf (ep_requests e) with
  | f :: rest => set_serving (ep_serving e ++ [f]) (set_requests (mkChan rest (ch_closed (ep_requests e))) e)
  | [] => e
  end.
(** The request the handler of the worker gets. *)
Definition served (f : Frame) : Request :=
  mkRequest (let m := TrimSpace (fr_Method f) in if bool_decide (m = EmptyString) then "GET" else m)
    (if bool_decide (fr_Path f = EmptyString) || negb (HasPrefix (fr_Path f) "/") then "/" else fr_Path f)
    (cloneHeader (fr_Headers f)) (fr_Body f).
Definition response_frame (id : string) (r : Response) : Frame :=
  mkFrame FrameResponse id EmptyString EmptyString (cloneHeader (rs_Headers r)) (rs_Status r) true EmptyString (rs_Body r).
Definition serve_done (handler : Request → Response) (l1 : list Frame) (f : Frame) (l2 : list Frame) (written : bool) (e : Endpoint) : Endpoint * list Frame :=
  (set_serving (l1 ++ l2) e,
   match ep_closed e with None => if written then [response_frame (fr_StreamID f) (handler (served f))] else [] | Some _ => [] end).

(** ** Registry *)

(** Endpoints are named; a name is closed when its endpoint has been. *)
Record TunnelEntry := mkTunnelEntry { tu_Endpoint : nat; tu_LastHandshake : Z }.
Record TunnelRegistry := mkTunnelRegistry { tr_tunnels : gmap string TunnelEntry; tr_closed : gset nat }.
Definition Register (workerID : string) (ep : nat) (now : Z) (r : TunnelRegistry) : TunnelRegistry :=
  let id := TrimSpace workerID in
  if bool_decide (id = EmptyString) then r
  else mkTunnelRegistry (<[id := mkTunnelEntry ep now]> (tr_tunnels r))
         (match tr_tunnels r !! id with Some old => {[ tu_Endpoint old ]} ∪ tr_closed r | None => tr_closed r end).
Definition Remove (workerID : string) (ep : option nat) (r : TunnelRegistry) : TunnelRegistry * bool :=
  match tr_tunnels r !! workerID with
  | Some cur =>
      if match ep with None => true | Some ep => bool_decide (tu_Endpoint cur = ep) end
      then (mkTunnelRegistry (delete workerID (tr_tunnels r)) (tr_closed r), true) else (r, false)
  | None => (r, false)
  end.
Definition registry_Do (workerID : string) (r : TunnelRegistry) : option nat := tu_Endpoint <$> tr_tunnels r !! TrimSpace workerID.

(** *** The connections of the workers *)

(** [HandleWorkerTunnel] after the upgrade, one goroutine per connection: register the
    endpoint, write the status of the worker, run, remove the endpoint, write the status
    again.  A connection is named by its endpoint. *)
Inductive ConnPhase := PRegister | POnline | PRunning | POffline | PGone.
Record Conn := mkConn { cn_worker : string; cn_phase : ConnPhase }.
Record Tunnels := mkTunnels { tn_registry : TunnelRegistry; tn_status : gmap string string; tn_conns : gmap nat Conn }.
Definition set_conn (ep : nat) (c : Conn) (s : Tunnels) : Tunnels := mkTunnels (tn_registry s) (tn_status s) (<[ep := c]> (tn_conns s)).
(** [UpdateWorkerStatus] changes a row that is there. *)
Definition set_status (w v : string) (s : Tunnels) : Tunnels := mkTunnels (tn_registry s) (alter (λ _, v) w (tn_status s)) (tn_conns s).
Definition set_registry (r : TunnelRegistry) (s : Tunnels) : Tunnels := mkTunnels r (tn_status s) (tn_conns s).
Definition tunnel_accept (ep : nat) (worker_id : string) (s : Tunnels) : Tunnels :=
  let workerID := TrimSpace worker_id in
  if bool_decide (workerID = EmptyString) then s else set_conn ep (mkConn workerID PRegister) s.
Definition tunnel_register (ep : nat) (w : string) (now : Z) (s : Tunnels) : Tunnels :=
  set_conn ep (mkConn w POnline) (set_registry (Register w ep now (tn_registry s)) s).
Definition tunnel_online (ep : nat) (w : string) (s : Tunnels) : Tunnels := set_conn ep (mkConn w PRunning) (set_status w "online" s).
Definition tunnel_ended (ep : nat) (w : string) (s : Tunnels) : Tunnels :=
  let '(r, removed) := Remove w (Some ep) (tn_registry s) in
  set_conn ep (mkConn w (if removed then POffline else PGone)) (set_registry r s).
Definition tunnel_offline (ep : nat) (w : string) (s : Tunnels) : Tunnels := set_conn ep (mkConn w PGone) (set_status w "offline" s).
