(* ===== verification/TunnelFrames.v ===== *)
(** * Frames of the worker tunnel survive their encoding

    [DecodeFrame] of what [EncodeFrame] wrote is the frame again: the header is one line
    of JSON, the body follows the first newline, an empty map of headers comes back as
    nil and a full one with its keys in order.  The frames that [Do] and [serveOne] send
    satisfy the precondition when the request and the response are valid UTF-8. *)

From S2P Require Import Prelude GoLib Json JsonValue GoText Types AgentStream AgentResume ReportFormat Tunnel.
From Stdlib Require Import Ascii.

(** ** Frames survive *)

Definition vals_ok (v : option (list string)) : bool := forallb valid_utf8 (default [] v).
Definition header_utf8 (h : Header) : bool := forallb (λ kv, valid_utf8 kv.1 && vals_ok kv.2) h.
Record header_ok (h : Header) : Prop := {
  ho_keys : NoDup (map fst h);
  ho_canonical : ∀ k, k ∈ map fst h → CanonicalMIMEHeaderKey k = k;
  ho_utf8 : header_utf8 h = true
}.
Record frame_ok (f : Frame) : Prop := {
  fo_type : valid_utf8 (fr_Type f) = true ∧ is_blank (fr_Type f) = false;
  fo_id : valid_utf8 (fr_StreamID f) = true ∧ is_blank (fr_StreamID f) = false;
  fo_text : valid_utf8 (fr_Method f) = true ∧ valid_utf8 (fr_Path f) = true ∧ valid_utf8 (fr_Error f) = true;
  fo_status : int64_ok (fr_Status f) = true;
  fo_headers : header_ok (default [] (fr_Headers f))
}.

(** The frame on the other side: an empty map is nil and the keys are in order. *)
Definition arrived_header (h : option Header) : option Header :=
  match h with
  | Some (x :: h) => Some (map (λ k, (k, mjoin (assoc (x :: h) k))) (sort_strings (map fst (x :: h))))
  | _ => None
  end.
Definition arrived (f : Frame) : Frame :=
  mkFrame (fr_Type f) (fr_StreamID f) (fr_Method f) (fr_Path f) (arrived_header (fr_Headers f)) (fr_Status f) (fr_End f) (fr_Error f) (fr_Body f).

Lemma header_set_fresh k v h : k ∉ map fst h → header_set k v h = h ++ [(k, v)].
Proof.
  intros Hk. unfold header_set. f_equal. induction h as [|[k' v'] h IH]; [done|]. cbn [List.filter fst map] in *.
  rewrite bool_decide_false by set_solver. cbn [negb]. rewrite IH by set_solver. done.
Qed.
Lemma into_vals_json v : into_vals (vals_json v) = Some v.
Proof.
  destruct v as [l|]; [|done]. cbn. assert (mapM (λ v, into_string v EmptyString) (map JStr l) = Some l) as ->; [|done].
  induction l as [|x l IH]; [done|]. cbn in *. by rewrite IH.
Qed.
Lemma into_entries_json (g : string → option (list string)) ks h :
  NoDup ks → (∀ k, k ∈ ks → k ∉ map fst h) →
  into_entries (map (λ k, (k, vals_json (g k))) ks) h = Some (h ++ map (λ k, (k, g k)) ks).
Proof.
  intros Hnd. revert h. induction Hnd as [|k ks Hk Hnd IH]; intros h Hf; cbn [map into_entries]; [by rewrite app_nil_r|].
  rewrite into_vals_json. cbn [mbind option_bind]. rewrite header_set_fresh by (apply Hf; by left).
  rewrite IH; [by rewrite <-app_assoc|]. intros k' Hk'. rewrite map_app. cbn. specialize (Hf k'). set_solver.
Qed.
Lemma canonicalHeader_id h : NoDup (map fst h) → (∀ k, k ∈ map fst h → CanonicalMIMEHeaderKey k = k) → canonicalHeader h = h.
Proof.
  assert (∀ out, NoDup (map fst (out ++ h)) → (∀ k, k ∈ map fst h → CanonicalMIMEHeaderKey k = k) →
    foldl (λ out kv, header_set (CanonicalMIMEHeaderKey kv.1) kv.2 out) out h = out ++ h) as H; [|apply (H [])].
  induction h as [|[k v] h IH]; intros out Hnd Hc; cbn [foldl fst snd]; [by rewrite app_nil_r|].
  rewrite Hc by (cbn; by left). rewrite map_app in Hnd. cbn [map fst] in Hnd.
  rewrite header_set_fresh.
  - rewrite IH; [by rewrite <-app_assoc| |]; [|intros; apply Hc; cbn; by right].
    rewrite <-app_assoc, map_app. done.
  - apply NoDup_app in Hnd as (_ & Hd & _). intros Hin. apply (Hd k Hin). by left.
Qed.

Lemma map_keys {A B} (f : A → B) l : map fst (map (λ k, (k, f k)) l) = l.
Proof. induction l; simpl; congruence. Qed.
Lemma arrived_keys x h : map fst (default [] (arrived_header (Some (x :: h)))) ≡ₚ map fst (x :: h).
Proof. unfold arrived_header. cbn [default]. unfold default, id. rewrite map_keys. apply sort_strings_perm. Qed.

Lemma into_step l1 l2 f g : into_frame l1 f = Some g → into_frame (l1 ++ l2) f = into_frame l2 g.
Proof.
  revert f. induction l1 as [|[k v] l1 IH]; intros f; cbn [app into_frame]; [congruence|].
  destruct (into_field f k v); [|done]. cbn. apply IH.
Qed.

(** Reading the fields of a frame back. *)
Lemma into_headers ty id me pa he :
  NoDup (map fst (default [] he)) →
  into_frame (omit (empty_header he) "headers" (headers_json (default [] he))) (mkFrame ty id me pa None 0 false EmptyString EmptyString) =
  Some (mkFrame ty id me pa (arrived_header he) 0 false EmptyString EmptyString).
Proof.
  intros Hh. destruct he as [[|x h]|]; [done| |done]. unfold headers_json, default in *. cbn [omit empty_header into_frame].
  unfold into_field. change (is_field "headers" ?n) with (bool_decide (fold_name "headers" = fold_name n)).
  rewrite !bool_decide_false, bool_decide_true by done. cbn [into_header].
  rewrite into_entries_json; [done| |intros ? _; apply not_elem_of_nil]. by rewrite sort_strings_perm.
Qed.
Lemma into_status ty id me pa he st :
  int64_ok st = true →
  into_frame (omit (st =? 0) "status" (JNum (itoa st))) (mkFrame ty id me pa he 0 false EmptyString EmptyString) =
  Some (mkFrame ty id me pa he st false EmptyString EmptyString).
Proof.
  intros Hst. destruct (Z.eqb_spec st 0) as [->|]; [done|]. cbn [omit into_frame].
  unfold into_field. change (is_field "status" ?n) with (bool_decide (fold_name "status" = fold_name n)).
  rewrite !bool_decide_false, bool_decide_true by done. cbn [into_int]. by rewrite atoi_itoa.
Qed.
Definition head_of (f : Frame) : Frame :=
  mkFrame (fr_Type f) (fr_StreamID f) (fr_Method f) (fr_Path f) (arrived_header (fr_Headers f)) (fr_Status f) (fr_End f) (fr_Error f) EmptyString.
Lemma into_frame_json f :
  int64_ok (fr_Status f) = true → NoDup (map fst (default [] (fr_Headers f))) →
  ∃ l, frame_json f = JObj l ∧ into_frame l zero_frame = Some (head_of f).
Proof.
  intros Hst Hh. eexists. split; [done|]. destruct f as [ty id me pa he st en er bo]. unfold head_of.
  cbn [fr_Type fr_StreamID fr_Method fr_Path fr_Headers fr_Status fr_End fr_Error] in *.
  erewrite into_step by done. erewrite (into_step (omit (negb (nonempty me)) _ _)); [|instantiate (1 := mkFrame ty id me EmptyString None 0 false EmptyString EmptyString); by destruct me].
  erewrite (into_step (omit (negb (nonempty pa)) _ _)); [|instantiate (1 := mkFrame ty id me pa None 0 false EmptyString EmptyString); by destruct pa].
  erewrite into_step by by apply into_headers. erewrite into_step by by apply into_status.
  destruct en; cbn [negb omit app]; by destruct er.
Qed.

Lemma height_obj l n : Forall (λ kv, height kv.2 ≤ n)%N l → (height (JObj l) ≤ 1 + n)%N.
Proof. intros H. cbn [height]. induction H; cbn [foldr]; lia. Qed.
Lemma Forall_omit (P : string * json → Prop) b k v : (b = false → P (k, v)) → Forall P (omit b k v).
Proof. destruct b; cbn; repeat constructor. auto. Qed.
Lemma frame_json_height f : (height (frame_json f) ≤ maxNestingDepth)%N.
Proof.
  transitivity 3%N; [|done]. apply (height_obj _ 2). repeat (apply Forall_app; split); try (apply Forall_omit; intros _; cbn [snd height]; lia).
  - repeat constructor; cbn; lia.
  - apply Forall_omit. intros _. cbn [snd]. apply (height_obj _ 1), Forall_fmap, Forall_forall. intros k _. cbn.
    destruct (mjoin _) as [l|]; cbn; [|lia]. induction l; cbn in *; lia.
Qed.

Lemma assoc_vals_ok h k : header_utf8 h = true → vals_ok (mjoin (assoc h k)) = true.
Proof.
  intros Hh. destruct (assoc h k) as [v|] eqn:E; [|done]. apply assoc_elem, list_elem_of_In in E.
  apply (proj1 (forallb_forall _ _) Hh), andb_true_iff in E as [_ ?]. done.
Qed.
Lemma key_utf8 h k : header_utf8 h = true → k ∈ map fst h → valid_utf8 k = true.
Proof.
  intros Hh Hk. apply list_elem_of_In, in_map_iff in Hk as ([k' v] & <- & Hin).
  apply (proj1 (forallb_forall _ _) Hh), andb_true_iff in Hin as [? _]. done.
Qed.
Lemma vals_json_ok v : vals_ok v = true → json_ok (vals_json v) = true.
Proof. destruct v as [l|]; [|done]. unfold vals_ok. cbn. induction l as [|x l IH]; [done|]. cbn. intros [-> Hl]%andb_true_iff. by apply IH. Qed.
Lemma headers_json_ok h : header_utf8 h = true → json_ok (headers_json h) = true.
Proof.
  intros Hh. unfold headers_json. cbn [json_ok]. apply forallb_forall. intros kv Hin. apply in_map_iff in Hin as (k & <- & Hin). cbn [fst snd].
  apply list_elem_of_In in Hin. rewrite sort_strings_perm in Hin.
  by rewrite (key_utf8 h), vals_json_ok by (done || by apply assoc_vals_ok).
Qed.
Lemma omit_ok b k v : valid_utf8 k = true → json_ok v = true → forallb (λ kv, valid_utf8 kv.1 && json_ok kv.2) (omit b k v) = true.
Proof. intros Hk Hv. destruct b; [done|]. cbn [omit forallb fst snd]. by rewrite Hk, Hv. Qed.
Lemma frame_json_ok f : frame_ok f → json_ok (frame_json f) = true.
Proof.
  intros [[Ht _] [Hi _] (Hm & Hp & He) Hs [_ _ Hh]]. unfold frame_json. cbn [json_ok]. rewrite !forallb_app.
  rewrite !omit_ok; try done; [cbn [forallb fst snd json_ok]; by rewrite Ht, Hi| |by apply headers_json_ok].
  cbn. apply bool_decide_eq_true, itoa_number.
Qed.

Lemma digits_no_nl s : all_str is_digit s = true → no_nl s = true.
Proof. apply all_str_mono. intros c. by destruct c as [[][][][][][][][]]. Qed.
Lemma join_no_nl {A} (f : A → string) l : Forall (λ x, no_nl (f x) = true) l → no_nl (join_str "," (map f l)) = true.
Proof.
  induction 1 as [|x l Hx Hl IH]; [done|]. destruct l as [|y l]; [done|]. cbn [map join_str] in *. by rewrite !no_nl_app, Hx, IH.
Qed.
(** Values whose numbers are integers. *)
Fixpoint ints_only (v : json) : Prop :=
  match v with
  | JNum x => ∃ z, x = itoa z
  | JArr l => foldr (λ v P, ints_only v ∧ P) True l
  | JObj l => foldr (λ kv P, ints_only kv.2 ∧ P) True l
  | _ => True
  end.
Lemma print_no_nl v : ints_only v → no_nl (print_json v) = true.
Proof.
  induction v as [|b|x|s|l IH|l IH] using json_ind; cbn [ints_only print_json]; intros Hv.
  - done.
  - by destruct b.
  - destruct Hv as [z ->]. apply itoa_no_nl.
  - apply enc_string_no_nl.
  - rewrite !no_nl_app. rewrite join_no_nl; [done|]. induction IH as [|x l Hx Hl IHl]; [done|].
    cbn in Hv. destruct Hv as [Hv1 Hv2]. constructor; auto.
  - rewrite !no_nl_app. rewrite join_no_nl; [done|]. induction IH as [|x l Hx Hl IHl]; [done|].
    cbn in Hv. destruct Hv as [Hv1 Hv2]. constructor; [|by auto]. by rewrite !no_nl_app, enc_string_no_nl, Hx.
Qed.
Lemma ints_obj l : Forall (λ kv, ints_only kv.2) l → ints_only (JObj l).
Proof. induction 1; cbn; auto. Qed.
Lemma frame_no_nl f : no_nl (print_json (frame_json f)) = true.
Proof.
  apply print_no_nl, ints_obj. repeat (apply Forall_app; split); try (by apply Forall_omit).
  - by repeat constructor.
  - apply Forall_omit. intros _. apply ints_obj, Forall_fmap, Forall_forall. intros k _. cbn.
    destruct (mjoin _) as [l|]; cbn; [|done]. by induction l.
  - apply Forall_omit. intros _. by eexists.
Qed.
Lemma cut_line_app s t : no_nl s = true → cut_line (s +:+ String (chr 10) t) = Some (s, t).
Proof.
  induction s as [|c s IH]; [done|]. intros Hn. rewrite app_str_cons. cbn [cut_line].
  assert (byte_is c 10 = false ∧ no_nl s = true) as [-> Hs].
  { unfold no_nl in *. cbn in Hn. apply andb_true_iff in Hn as [Hc Hs]. split; [|done]. clear -Hc. by destruct c as [[][][][][][][][]]. }
  by rewrite IH.
Qed.

(** A frame arrives as it was sent, its headers in key order. *)
Lemma decode_encode f : frame_ok f → DecodeFrame (EncodeFrame f) = Some (arrived f).
Proof.
  intros Hok. pose proof Hok as [[_ Ht] [_ Hi] _ Hs [Hnd Hc _]]. unfold DecodeFrame, EncodeFrame.
  rewrite cut_line_app by apply frame_no_nl. cbn [mbind option_bind].
  destruct (into_frame_json f Hs Hnd) as (l & Hl & Hf). unfold unmarshal_frame.
  rewrite parse_print by (by apply frame_json_ok || apply frame_json_height). cbn [mbind option_bind]. rewrite Hl, Hf. cbn [mbind option_bind].
  unfold head_of. cbn [fr_Type fr_StreamID fr_Method fr_Path fr_Headers fr_Status fr_End fr_Error]. rewrite Ht, Hi. cbn [orb]. unfold arrived. do 2 f_equal.
  destruct (fr_Headers f) as [[|x h]|]; [done| |done]. cbn [arrived_header fmap option_fmap option_map]. f_equal.
  apply canonicalHeader_id; rewrite map_keys; [by rewrite sort_strings_perm|].
  intros k Hk. rewrite sort_strings_perm in Hk. by apply Hc.
Qed.

(** *** What [cloneHeader] gives *)

Lemma canonical_bytes_token u s : all_str token_byte s = true → all_str token_byte (canonical_bytes u s) = true.
Proof.
  revert u. induction s as [|c s IH]; intros u; [done|]. cbn [canonical_bytes all_str]. intros [Hc Hs]%andb_true_iff.
  rewrite IH, andb_true_r by done. clear -Hc. by destruct u, c as [[][][][][][][][]].
Qed.
Lemma canonical_bytes_idem u s : canonical_bytes u (canonical_bytes u s) = canonical_bytes u s.
Proof.
  revert u. induction s as [|c s IH]; intros u; [done|]. cbn [canonical_bytes].
  set (c' := if u && byte_in c 97 122 then _ else _).
  assert (byte_is c' 45 = byte_is c 45 ∧
    (if u && byte_in c' 97 122 then chr (N_of_ascii c' - 32) else if negb u && byte_in c' 65 90 then chr (N_of_ascii c' + 32) else c') = c') as [-> ->].
  { unfold c'. by destruct u, c as [[][][][][][][][]]. }
  by rewrite IH.
Qed.
Lemma CanonicalMIMEHeaderKey_idem s : CanonicalMIMEHeaderKey (CanonicalMIMEHeaderKey s) = CanonicalMIMEHeaderKey s.
Proof.
  unfold CanonicalMIMEHeaderKey. destruct (all_str token_byte s) eqn:E; [|by rewrite E].
  rewrite canonical_bytes_token by done. apply canonical_bytes_idem.
Qed.
Lemma ascii_utf8 s : all_str is_ascii s = true → valid_utf8 s = true.
Proof.
  unfold valid_utf8. assert (∀ n, (String.length s ≤ n)%nat → all_str is_ascii s = true → valid_utf8_n n s = true) as H; [|by apply H].
  induction s as [|c s IH]; intros n Hn; [by destruct n|]. destruct n as [|n]; [simpl in Hn; lia|].
  cbn [all_str valid_utf8_n]. intros [Hc Hs]%andb_true_iff. rewrite Hc. apply IH; [simpl in Hn; lia|done].
Qed.
Lemma canonical_utf8 s : valid_utf8 s = true → valid_utf8 (CanonicalMIMEHeaderKey s) = true.
Proof.
  unfold CanonicalMIMEHeaderKey. destruct (all_str token_byte s) eqn:E; [|done]. intros _.
  apply ascii_utf8. eapply all_str_mono; [|by apply canonical_bytes_token].
  intros c. by destruct c as [[][][][][][][][]].
Qed.

Lemma header_set_keys k v h : map fst (header_set k v h) = List.filter (λ x, negb (bool_decide (x = k))) (map fst h) ++ [k].
Proof.
  unfold header_set. rewrite map_app. f_equal. induction h as [|[k' v'] h IH]; [done|]. cbn [List.filter map fst].
  case_bool_decide; cbn [negb map fst]; by rewrite IH.
Qed.
Lemma list_filter_in {A} (f : A → bool) l x : x ∈ List.filter f l ↔ x ∈ l ∧ f x = true.
Proof. rewrite !list_elem_of_In. apply filter_In. Qed.
Lemma header_set_ok k v h :
  CanonicalMIMEHeaderKey k = k → valid_utf8 k = true → vals_ok v = true → header_ok h → header_ok (header_set k v h).
Proof.
  intros Hk Hu Hv [Hnd Hc Hh]. split.
  - rewrite header_set_keys. apply NoDup_app. split_and!; [|intros x Hx Hin|apply NoDup_singleton].
    + apply NoDup_ListNoDup, List.NoDup_filter, NoDup_ListNoDup, Hnd.
    + apply list_elem_of_singleton in Hin as ->. apply list_filter_in in Hx as [_ Hx]. by rewrite bool_decide_true in Hx.
  - intros x. rewrite header_set_keys, elem_of_app, list_filter_in, list_elem_of_singleton. intros [[Hx _]| ->]; auto.
  - unfold header_set, header_utf8. rewrite forallb_app. apply andb_true_iff. split.
    + apply forallb_forall. intros x Hx. apply filter_In in Hx as [Hx _]. by apply (proj1 (forallb_forall _ _) Hh).
    + cbn [forallb fst snd]. by rewrite Hu, Hv.
Qed.
Lemma canonicalHeader_ok h : header_utf8 h = true → header_ok (canonicalHeader h).
Proof.
  intros Hh. unfold canonicalHeader. assert (header_ok []) as H0 by (split; [constructor|set_solver|done]).
  revert H0. generalize ([] : Header) as out. induction h as [|[k v] h IH]; intros out Hout; [done|]. cbn [foldl fst snd].
  unfold header_utf8 in Hh. cbn [forallb fst snd] in Hh. apply andb_true_iff in Hh as [[Hk Hv]%andb_true_iff Hh].
  apply IH; [done|]. apply header_set_ok; [apply CanonicalMIMEHeaderKey_idem|by apply canonical_utf8|done|done].
Qed.
Lemma cloneHeader_ok h : header_utf8 (default [] h) = true → header_ok (default [] (cloneHeader h)).
Proof.
  destruct h as [h|]; [|by intros; split; [constructor|set_solver|]]. cbn. intros Hh. apply canonicalHeader_ok.
  unfold header_utf8 in *. apply forallb_forall. intros x Hx. apply in_map_iff in Hx as ([k v] & <- & Hin).
  apply (proj1 (forallb_forall _ _) Hh), andb_true_iff in Hin as [Hk Hv]. cbn [prod_map fst snd] in *. unfold id. rewrite Hk.
  by destruct v as [[|]|].
Qed.

(** *** The frames of the endpoints *)

Definition request_ok (q : Request) : bool :=
  valid_utf8 (rq_Method q) && valid_utf8 (rq_URI q) && header_utf8 (default [] (rq_Headers q)).
Definition response_ok (r : Response) : bool := int64_ok (rs_Status r) && header_utf8 (default [] (rs_Headers r)).

Lemma itoa_id n : valid_utf8 (itoa n) = true ∧ is_blank (itoa n) = false.
Proof.
  split.
  - apply ascii_utf8. eapply all_str_mono; [|apply itoa_bytes]. intros c. by destruct c as [[][][][][][][][]].
  - unfold is_blank. rewrite TrimSpace_graphic.
    + apply bool_decide_eq_false. intros He. pose proof (int_of_itoa n) as H. by rewrite He in H.
    + eapply all_str_mono; [|apply itoa_bytes]. intros c. by destruct c as [[][][][][][][][]].
Qed.
Lemma request_frame_ok n q : request_ok q = true → frame_ok (request_frame n q).
Proof.
  unfold request_ok. intros [[Hm Hu]%andb_true_iff Hh]%andb_true_iff. split; cbn; [done|apply itoa_id| |done|by apply cloneHeader_ok].
  split_and!; [done| |done]. by case_bool_decide.
Qed.
Lemma response_frame_ok n r : response_ok r = true → frame_ok (response_frame (itoa n) r).
Proof.
  unfold response_ok. intros [Hs Hh]%andb_true_iff. split; cbn; [done|apply itoa_id|done|done|by apply cloneHeader_ok].
Qed.
Lemma close_frame_ok n msg : valid_utf8 msg = true → frame_ok (close_frame n msg).
Proof. intros Hm. split; cbn; [done|apply itoa_id|done|done|]. split; [constructor|set_solver|done]. Qed.

(** The headers on the other side have the same entries. *)
Lemma assoc_map {V} (g : string → V) ks k : k ∈ ks → assoc (map (λ k, (k, g k)) ks) k = Some (g k).
Proof. induction 1 as [ks|x ks Hk IH]; cbn [map assoc]; case_bool_decide; congruence. Qed.
Lemma assoc_none {V} (h : list (string * V)) k : k ∉ map fst h → assoc h k = None.
Proof.
  induction h as [|[x v] h IH]; [done|]. cbn [map assoc fst]. intros Hk. rewrite bool_decide_false by set_solver. apply IH. set_solver.
Qed.
Lemma arrived_header_lookup h k : assoc (default [] (arrived_header h)) k = assoc (default [] h) k.
Proof.
  destruct h as [[|x h]|]; [done| |done]. set (g := x :: h). change (default [] (Some g)) with g.
  change (default [] (arrived_header (Some g))) with (map (λ k, (k, mjoin (assoc g k))) (sort_strings (map fst g))).
  destruct (assoc g k) as [v|] eqn:E.
  - rewrite assoc_map; [by rewrite E|]. rewrite sort_strings_perm. apply assoc_elem in E. apply list_elem_of_In, in_map_iff.
    exists (k, v). split; [done|]. by apply list_elem_of_In.
  - destruct (decide (k ∈ map fst g)) as [Hk|Hk].
    + exfalso. clear -E Hk. induction g as [|[y v] g IH]; [set_solver|]. cbn in *. case_bool_decide; [done|]. apply IH; [done|set_solver].
    + apply assoc_none. by rewrite map_keys, sort_strings_perm.
Qed.

(** Values are copied once: what was cloned stays as it is. *)
Definition copied (h : Header) : Prop := Forall (λ kv, copy_vals kv.2 = kv.2) h.
Lemma cloneHeader_copied h : copied (default [] (cloneHeader h)).
Proof.
  destruct h as [h|]; [|constructor]. cbn. unfold canonicalHeader.
  assert (∀ out, copied out → copied (foldl (λ out kv, header_set (CanonicalMIMEHeaderKey kv.1) kv.2 out) out (map (prod_map id copy_vals) h))) as H;
    [|apply H; constructor].
  induction h as [|[k v] h IH]; intros out Ho; [done|]. cbn [map foldl prod_map fst snd]. apply IH. unfold copied, header_set.
  apply Forall_app. split; [|repeat constructor; by destruct v as [[|]|]].
  unfold copied in Ho. rewrite Forall_forall in Ho |- *. intros x Hx. apply list_filter_in in Hx as [Hx _]. by apply Ho.
Qed.
Lemma clone_arrived h k :
  header_utf8 (default [] h) = true →
  assoc (default [] (cloneHeader (arrived_header (cloneHeader h)))) k = assoc (default [] (cloneHeader h)) k.
Proof.
  intros Hu. pose proof (cloneHeader_ok h Hu) as [Hnd Hc _]. pose proof (cloneHeader_copied h) as Hv.
  rewrite <-(arrived_header_lookup (cloneHeader h)). set (g := cloneHeader h) in *. destruct g as [[|x l]|]; [done| |done].
  change (default [] (Some (x :: l))) with (x :: l) in *. 
  enough (cloneHeader (arrived_header (Some (x :: l))) = arrived_header (Some (x :: l))) as Heq by exact (f_equal (λ z, assoc (default [] z) k) Heq).
  unfold arrived_header, cloneHeader. cbn [fmap option_fmap option_map]. f_equal.
  set (ks := sort_strings _). assert (map (prod_map id copy_vals) (map (λ k, (k, mjoin (assoc (x :: l) k))) ks) = map (λ k, (k, mjoin (assoc (x :: l) k))) ks) as ->.
  { rewrite map_map. apply map_ext. intros k'. cbn [prod_map fst snd]. unfold id. f_equal.
    destruct (assoc (x :: l) k') as [v|] eqn:E; [|done]. apply assoc_elem in E. by apply (proj1 (Forall_forall _ _) Hv _ E). }
  apply canonicalHeader_id; rewrite map_keys; unfold ks; [by rewrite sort_strings_perm|].
  intros k' Hk'. rewrite sort_strings_perm in Hk'. by apply Hc.
Qed.

(** C26: A frame whose text is valid UTF-8 is decoded to what was encoded, whatever bytes
    its body holds: every field the same, and under every key the same header values;
    and the frames in which [Do] sends a request and [serveOne] a response are such
    frames when the request and the response are. *)
Theorem frames_survive (f : Frame) :
  frame_ok f ∨ (∃ n q, request_ok q = true ∧ f = request_frame n q) ∨ (∃ n r, response_ok r = true ∧ f = response_frame (itoa n) r) →
  ∃ hd, DecodeFrame (EncodeFrame f) =
      Some (mkFrame (fr_Type f) (fr_StreamID f) (fr_Method f) (fr_Path f) hd (fr_Status f) (fr_End f) (fr_Error f) (fr_Body f)) ∧
    ∀ k, assoc (default [] hd) k = assoc (default [] (fr_Headers f)) k.
Proof.
  intros Hf. assert (frame_ok f) as Hok.
  { destruct Hf as [?|[(n & q & Hq & ->)|(n & r & Hr & ->)]]; [done|by apply request_frame_ok|by apply response_frame_ok]. }
  exists (arrived_header (fr_Headers f)). split; [by apply decode_encode|]. intros k. apply arrived_header_lookup.
Qed.
Definition sample_request : Request := mkRequest "POST" "/api/v1/x?y=1" (Some [("x-trace", Some ["a"; "b"]); ("Accept", Some [])]) (String (chr 10) "body").
Lemma frames_survive_witness :
  ∃ hd, DecodeFrame (EncodeFrame (request_frame 7 sample_request)) =
      Some (mkFrame "request" "7" "POST" "/api/v1/x?y=1" hd 0 true EmptyString (String (chr 10) "body")) ∧
    assoc (default [] hd) "X-Trace" = Some (Some ["a"; "b"]).
Proof.
  destruct (frames_survive (request_frame 7 sample_request)) as (hd & Hd & Hk).
  - right. left. exists 7, sample_request. split; reflexivity.
  - exists hd. split; [exact Hd|]. rewrite Hk. reflexivity.
Defined.
