(* ===== verification/TunnelSpec.v ===== *)
(** * What the worker tunnel guarantees

    Two endpoints and the two directions of the connection between them.  The
    coordinator calls [Do] and the worker runs [ServeRequests]; the goroutines of both
    sides interleave at will, either side may fail or be closed at any time, and frames
    may be lost.  The responses that come out of [Do] are the ones the handler of the
    worker gave to the same requests; the read loop of the coordinator never panics;
    nobody waits on a stream that is gone.  The worker's side does not have the second
    property: [closing_panics]. *)

From S2P Require Import Prelude GoLib Json JsonValue GoText Types ReportFormat Tunnel TunnelFrames.
From Stdlib Require Import Ascii.

(** ** The two sides *)

Definition ctx_errors : list string := ["context canceled"; "context deadline exceeded"].

(** A step of one endpoint: the frames to read before and after it, and those it
    writes.  [P] says which requests its callers make. *)
Inductive estep (P : Request → Prop) (h : Request → Response) (e : Endpoint) : list string → Endpoint → list string → list Frame → Prop :=
  | es_enter t q i : ep_callers e !! t = None → P q → estep P h e i (do_enter t q e) i []
  | es_send t c w i : ep_callers e !! t = Some c → ca_phase c = CSending → estep P h e i (do_send t c w e).1 i (do_send t c w e).2
  | es_recv t c st hd buf ch i : ep_callers e !! t = Some c → ca_phase c = CWaiting st hd buf → ep_chans e !! ca_num c = Some ch →
      estep P h e i (do_recv t c st hd buf ch e) i []
  | es_cancel t c st hd buf i : ep_callers e !! t = Some c → ca_phase c = CWaiting st hd buf → estep P h e i (do_cancel t c e) i []
  | es_cancelled t c msg w i : ep_callers e !! t = Some c → ca_phase c = CCancelling → msg ∈ ctx_errors →
      estep P h e i (do_cancelled t c msg w e).1 i (do_cancelled t c msg w e).2
  | es_read d f i : ep_run e = RReading → DecodeFrame d = Some f → estep P h e (d :: i) (run_frame f e) i []
  | es_bad d err i : ep_run e = RReading → DecodeFrame d = None → estep P h e (d :: i) (set_run RReturned (fail err e)) i []
  | es_read_error err i : ep_run e = RReading → estep P h e i (set_run RReturned (fail err e)) i []
  | es_deliver ctx n f ch i : ep_run e = RDeliver n f → ep_chans e !! n = Some ch → estep P h e i (run_deliver ctx n f ch e) i []
  | es_close n ch i : ep_run e = RClosing n → ep_chans e !! n = Some ch → estep P h e i (run_close n ch e) i []
  | es_request ctx f i : ep_run e = RRequest f → estep P h e i (run_request ctx f e) i []
  | es_fail err i : estep P h e i (fail err e) i []
  | es_take i : estep P h e i (serve_take e) i []
  | es_serve l1 f l2 w i : ep_serving e = l1 ++ f :: l2 → estep P h e i (serve_done h l1 f l2 w e).1 i (serve_done h l1 f l2 w e).2.

Record Net := mkNet { n_A : Endpoint; n_B : Endpoint; n_ab : list string; n_ba : list string }.
Definition net0 : Net := mkNet NewEndpoint NewEndpoint [] [].

Section net.
Context (h : Request → Response) (h_ok : ∀ q, response_ok (h q) = true).

Inductive step : Net → Net → Prop :=
  | step_A A B ab ba A' ba' out :
      estep (λ q, request_ok q = true) h A ba A' ba' out → step (mkNet A B ab ba) (mkNet A' B (ab ++ map EncodeFrame out) ba')
  | step_B A B ab ba B' ab' out :
      estep (λ _, False) h B ab B' ab' out → step (mkNet A B ab ba) (mkNet A B' ab' (ba ++ map EncodeFrame out))
  | step_lose_ab A B l1 d l2 ba : step (mkNet A B (l1 ++ d :: l2) ba) (mkNet A B (l1 ++ l2) ba)
  | step_lose_ba A B ab l1 d l2 : step (mkNet A B ab (l1 ++ d :: l2)) (mkNet A B ab (l1 ++ l2)).

(** What the worker sees of a request, and what [Do] returns. *)
Definition seen (q : Request) : Request := served (arrived (request_frame 0 q)).
Definition resp_for (n : Z) (q : Request) : Frame := arrived (response_frame (itoa n) (h (seen q))).
Definition answer (q : Request) : Response :=
  let r := h (seen q) in
  mkResponse (if rs_Status r =? 0 then 502 else rs_Status r)
    (if rs_Status r =? 0 then Some [] else cloneHeader (arrived_header (cloneHeader (rs_Headers r)))) (rs_Body r).

Definition asked (e : Endpoint) (n : Z) (q : Request) : Prop := ∃ t c, ep_callers e !! t = Some c ∧ ca_num c = n ∧ ca_req c = q.

(** ** The coordinator's side *)

(** A caller that waits for stream [n] will be woken. *)
Definition wakeable (e : Endpoint) (n : Z) : Prop :=
  ∃ ch, ep_chans e !! n = Some ch ∧
    (ch_closed ch = true ∨ ch_buf ch ≠ [] ∨ ep_streams e !! itoa n = Some n ∨ (∃ f, ep_run e = RDeliver n f) ∨ ep_run e = RClosing n).
Definition phase_ok (e : Endpoint) (c : Caller) : Prop :=
  match ca_phase c with
  | CSending => wakeable e (ca_num c)
  | CWaiting st hd buf => st = 0 ∧ hd = Some [] ∧ buf = EmptyString ∧ wakeable e (ca_num c)
  | CCancelling => True
  | CDone (inl r) => r = answer (ca_req c)
  | CDone (inr _) => True
  end.
Definition run_ok (e : Endpoint) : Prop :=
  match ep_run e with
  | RReading => True
  | RDeliver n f => ep_chans e !! n = Some (mkChan [] false) ∧ ep_streams e !! itoa n = None ∧ ∃ q, asked e n q ∧ f = resp_for n q
  | RClosing n => (∃ buf, ep_chans e !! n = Some (mkChan buf false)) ∧ ep_streams e !! itoa n = None
  | RReturned => ep_closed e ≠ None
  | RRequest _ | RPanicked => False
  end.
Record a_inv (e : Endpoint) : Prop := {
  ai_num : ∀ t c, ep_callers e !! t = Some c → ca_num c ≤ ep_next e ∧ request_ok (ca_req c) = true;
  ai_inj : ∀ t1 t2 c1 c2, ep_callers e !! t1 = Some c1 → ep_callers e !! t2 = Some c2 → ca_num c1 = ca_num c2 → t1 = t2;
  ai_stream : ∀ id n, ep_streams e !! id = Some n → id = itoa n ∧ ep_chans e !! n = Some (mkChan [] false);
  ai_chan : ∀ n ch, ep_chans e !! n = Some ch → n ≤ ep_next e ∧ ∀ f, f ∈ ch_buf ch → ∃ q, asked e n q ∧ f = resp_for n q;
  ai_run : run_ok e;
  ai_idle : ch_buf (ep_requests e) = [] ∧ ep_serving e = [];
  ai_phase : ∀ t c, ep_callers e !! t = Some c → phase_ok e c;
  ai_shut : ep_closed e ≠ None → ep_streams e = ∅
}.

Lemma asked_set e t c p n q :
  ep_callers e !! t = Some c → asked e n q → asked (set_caller t (mkCaller (ca_num c) (ca_req c) p) e) n q.
Proof.
  intros Ht (t' & c' & Ht' & <- & <-). unfold asked. cbn. destruct (decide (t = t')) as [<-|Hne].
  - simplify_eq. exists t. eexists. by rewrite lookup_insert_eq.
  - exists t', c'. by rewrite lookup_insert_ne.
Qed.
Lemma asked_inj e n q q' : a_inv e → asked e n q → asked e n q' → q = q'.
Proof.
  intros Hi (t & c & Ht & Hn & <-) (t' & c' & Ht' & Hn' & <-). assert (t = t') as <- by (eapply (ai_inj _ Hi); eauto; congruence). congruence.
Qed.

Lemma a_inv_caller e t c p :
  a_inv e → ep_callers e !! t = Some c → phase_ok e (mkCaller (ca_num c) (ca_req c) p) →
  a_inv (set_caller t (mkCaller (ca_num c) (ca_req c) p) e).
Proof.
  intros [Hn Hj Hs Hc Hr Hd Hp Hx] Ht Hph. split; cbn [set_caller ep_callers ep_next ep_streams ep_chans ep_requests ep_serving ep_closed].
  - intros t' c' Ht'. apply lookup_insert_Some in Ht' as [[-> <-]|[_ Ht']]; [exact (Hn _ _ Ht)|exact (Hn _ _ Ht')].
  - intros t1 t2 c1 c2 H1 H2 He. apply lookup_insert_Some in H1 as [[<- <-]|[? H1]], H2 as [[<- <-]|[? H2]]; [done|..];
      cbn [ca_num] in He; eapply Hj; eauto.
  - exact Hs.
  - intros n ch Hch. destruct (Hc n ch Hch) as [Hle Hf]. split; [done|]. intros f Hin.
    destruct (Hf f Hin) as (q & Hq & ->). exists q. split; [by apply asked_set|done].
  - unfold run_ok in *. cbn [set_caller ep_run]. destruct (ep_run e) as [|n f|n|f| |]; try done.
    destruct Hr as (H1 & H2 & q & Hq & ->). split_and!; [done|done|]. exists q. split; [by apply asked_set|done].
  - exact Hd.
  - intros t' c' Ht'. apply lookup_insert_Some in Ht' as [[-> <-]|[_ Ht']]; [exact Hph|exact (Hp _ _ Ht')].
  - exact Hx.
Qed.

(** Waking survives what other streams do. *)
Lemma wakeable_mono e e' n :
  (∀ ch, ep_chans e !! n = Some ch → ep_chans e' !! n = Some ch) →
  (ep_streams e !! itoa n = Some n → ep_streams e' !! itoa n = Some n) → ep_run e' = ep_run e → wakeable e n → wakeable e' n.
Proof.
  intros Hc Hs Hr (ch & Hch & Hw). exists ch. split; [by apply Hc|]. rewrite Hr. intuition.
Qed.
Lemma phase_ok_mono e e' c : (wakeable e (ca_num c) → wakeable e' (ca_num c)) → phase_ok e c → phase_ok e' c.
Proof. unfold phase_ok. intros Hw. destruct (ca_phase c) as [| | |[]]; try done. intros (-> & -> & -> & ?). auto. Qed.
Ltac waiting Hp :=
  let t := fresh in let c := fresh in let Ht := fresh in
  intros t c Ht; apply (phase_ok_mono _ _ c) with (2 := Hp t c Ht); generalize (ca_num c); clear t c Ht.

Lemma a_inv_removeStream e id : a_inv e → a_inv (removeStream id e).
Proof.
  intros Hi. unfold removeStream. destruct (ep_streams e !! id) as [n|] eqn:E; [|done].
  pose proof Hi as [Hn Hj Hs Hc Hr Hd Hp Hx]. destruct (Hs _ _ E) as [-> Hopen].
  split; cbn [set_chans set_streams ep_callers ep_next ep_streams ep_chans ep_requests ep_serving ep_closed]; try done.
  - intros id m Hm. apply lookup_delete_Some in Hm as [Hne Hm]. destruct (Hs _ _ Hm) as [-> Hch].
    split; [done|]. rewrite lookup_alter_ne; [done|congruence].
  - intros m ch Hm. destruct (decide (n = m)) as [<-|Hne].
    + rewrite lookup_alter_eq, Hopen in Hm. injection Hm as <-. split; [by apply (Hc n _ Hopen)|set_solver].
    + rewrite lookup_alter_ne in Hm by done. exact (Hc m ch Hm).
  - unfold run_ok in *. cbn [set_chans set_streams ep_run ep_chans ep_streams ep_closed]. destruct (ep_run e) as [|m f|m|f| |]; try done.
    + destruct Hr as (H1 & H2 & Hq). assert (m ≠ n) by congruence. rewrite lookup_alter_ne, lookup_delete_None by done. auto.
    + destruct Hr as (H1 & H2). assert (m ≠ n) by congruence. rewrite lookup_alter_ne, lookup_delete_None by done. auto.
  - waiting Hp. intros m Hw. destruct (decide (n = m)) as [<-|Hne].
    + eexists. cbn [set_chans set_streams ep_chans]. rewrite lookup_alter_eq, Hopen. split; [done|]. by left.
    + eapply wakeable_mono; [..|exact Hw]; cbn [set_chans set_streams ep_chans ep_streams]; [|intros|done].
      * intros ch. by rewrite lookup_alter_ne.
      * rewrite lookup_delete_ne; [done|]. by intros ?%itoa_inj.
  - intros Hcl. apply Hx in Hcl. by rewrite Hcl in E.
Qed.

Lemma stream_chans e n : a_inv e → n ∈ (map_to_list (ep_streams e)).*2 → ep_streams e !! itoa n = Some n.
Proof.
  intros Hi Hin. apply list_elem_of_fmap in Hin as ([id m] & -> & Hin). apply elem_of_map_to_list in Hin.
  destruct (ai_stream _ Hi _ _ Hin) as [-> _]. done.
Qed.
Lemma a_inv_fail e err : a_inv e → a_inv (fail err e).
Proof.
  intros Hi. unfold fail. destruct (ep_closed e) eqn:Ecl; [done|]. pose proof Hi as [Hn Hj Hs Hc Hr Hd Hp Hx].
  set (cs := map_imap _ _).
  assert (∀ n, cs !! n = (λ c, if bool_decide (n ∈ (map_to_list (ep_streams e)).*2) then shut c else c) <$> ep_chans e !! n) as Hcs.
  { intros n. unfold cs. rewrite map_lookup_imap. by destruct (ep_chans e !! n). }
  assert (∀ n c, ep_streams e !! itoa n = None → ep_chans e !! n = Some c → cs !! n = Some c) as Hkeep.
  { intros n c Hno Hch. rewrite Hcs, Hch. cbn. rewrite bool_decide_false; [done|]. intros Hin. by rewrite (stream_chans e n Hi Hin) in Hno. }
  split; cbn [ep_callers ep_next ep_streams ep_chans ep_requests ep_serving ep_closed]; try done.
  - intros n ch Hm. rewrite Hcs in Hm. apply fmap_Some in Hm as (c & Hm & ->). destruct (Hc n c Hm) as [? Hb]. split; [done|]. by case_bool_decide.
  - unfold run_ok in *. cbn [ep_run ep_chans ep_streams ep_closed]. destruct (ep_run e) as [|m f|m|f| |]; try done.
    + destruct Hr as (H1 & H2 & Hq). split_and!; [by apply Hkeep|done|done].
    + destruct Hr as ((buf & H1) & H2). split; [exists buf; by apply Hkeep|done].
  - waiting Hp. intros m (ch & Hch & Hw).
    exists (if bool_decide (m ∈ (map_to_list (ep_streams e)).*2) then shut ch else ch). cbn [ep_chans ep_streams ep_run].
    split; [by rewrite Hcs, Hch|]. case_bool_decide as Hb; [by left|]. destruct Hw as [?|[?|[Hst|?]]]; auto.
    exfalso. apply Hb. apply list_elem_of_fmap. exists (itoa m, m). split; [done|]. by apply elem_of_map_to_list.
Qed.

Lemma a_inv_returned e err : a_inv e → ep_run e = RReading → a_inv (set_run RReturned (fail err e)).
Proof.
  intros Hi Hrun. assert (ep_run (fail err e) = RReading ∧ ep_closed (fail err e) ≠ None) as [Hrun' Hcl].
  { unfold fail. destruct (ep_closed e) eqn:E; [by rewrite E|done]. }
  destruct (a_inv_fail e err Hi) as [Hn Hj Hs Hc Hr Hd Hp Hx]. split; try done.
  waiting Hp. intros m (ch & Hch & Hw). exists ch. split; [done|]. rewrite Hrun' in Hw. cbn [set_run ep_streams ep_run].
  destruct Hw as [?|[?|[?|[[? ?]|?]]]]; auto; done.
Qed.

(** The read loop gets the response to a request. *)
Lemma a_inv_response e n q : a_inv e → ep_run e = RReading → asked e n q → a_inv (run_frame (resp_for n q) e).
Proof.
  intros Hi Hrun Hq. unfold run_frame. cbn [resp_for arrived response_frame fr_Type fr_StreamID].
  change (bool_decide (FrameResponse = FrameResponse) || _) with true.
  change (ends (resp_for n q)) with true. cbv iota.
  destruct (ep_streams e !! itoa n) as [ch|] eqn:E.
  - pose proof Hi as [Hn Hj Hs Hc Hr Hd Hp Hx]. destruct (Hs _ _ E) as [<-%itoa_inj Hopen].
    split; cbn [set_run set_streams ep_callers ep_next ep_streams ep_chans ep_requests ep_serving ep_closed]; try done.
    + intros id m Hm. apply lookup_delete_Some in Hm as [_ Hm]. by apply Hs.
    + unfold run_ok. cbn [set_run set_streams ep_run ep_chans ep_streams]. rewrite lookup_delete_eq. eauto.
    + waiting Hp. intros m (ch & Hch & Hw). exists ch. cbn [set_run set_streams ep_chans ep_streams ep_run]. split; [done|].
      destruct (decide (n = m)) as [<-|Hne]; [by eauto 7|]. rewrite lookup_delete_ne by by intros ?%itoa_inj. rewrite Hrun in Hw.
      destruct Hw as [?|[?|[?|[[? ?]|?]]]]; auto; done.
    + intros Hcl. by rewrite (Hx Hcl), delete_empty.
  - rewrite delete_id by done. by destruct e.
Qed.
Lemma a_inv_deliver e ctx n f ch :
  a_inv e → ep_run e = RDeliver n f → ep_chans e !! n = Some ch → a_inv (run_deliver ctx n f ch e).
Proof.
  intros Hi Hrun Hch. pose proof Hi as [Hn Hj Hs Hc Hr Hd Hp Hx]. unfold run_ok in Hr. rewrite Hrun in Hr.
  destruct Hr as (Hopen & Hno & q & Hq & ->). rewrite Hch in Hopen. injection Hopen as ->. unfold run_deliver.
  change (ends (resp_for n q)) with true. cbv iota. destruct ctx; cbn [ch_closed ch_buf length app].
  - split; cbn [set_run ep_callers ep_next ep_streams ep_chans ep_requests ep_serving ep_closed]; try done.
    + unfold run_ok. cbn [set_run ep_run ep_chans ep_streams]. eauto.
    + waiting Hp. intros m (c & Hm & Hw). exists c. cbn [set_run ep_chans ep_streams ep_run]. split; [done|]. rewrite Hrun in Hw.
      destruct Hw as [?|[?|[?|[[? [= -> _]]|?]]]]; auto; done.
  - change ((0 <? stream_cap)%nat) with true. cbv iota.
    split; cbn [set_run set_chans ep_callers ep_next ep_streams ep_chans ep_requests ep_serving ep_closed]; try done.
    + intros id m Hm. destruct (Hs _ _ Hm) as [-> Hmc]. split; [done|]. rewrite lookup_insert_ne; [done|congruence].
    + intros m c Hm. apply lookup_insert_Some in Hm as [[<- <-]|[_ Hm]]; [|by apply Hc].
      split; [by apply (Hc _ _ Hch)|]. intros f Hf%list_elem_of_singleton. subst f. eauto.
    + unfold run_ok. cbn [set_run set_chans ep_run ep_chans ep_streams]. rewrite lookup_insert_eq. eauto.
    + waiting Hp. intros m (c & Hm & Hw). destruct (decide (n = m)) as [<-|Hne].
      * eexists. cbn [set_run set_chans ep_chans]. rewrite lookup_insert_eq. split; [done|]. by right; left.
      * exists c. cbn [set_run set_chans ep_chans ep_streams ep_run]. rewrite lookup_insert_ne by done. split; [done|]. rewrite Hrun in Hw.
        destruct Hw as [?|[?|[?|[[? ?]|?]]]]; auto; congruence.
Qed.
Lemma a_inv_close e n ch : a_inv e → ep_run e = RClosing n → ep_chans e !! n = Some ch → a_inv (run_close n ch e).
Proof.
  intros Hi Hrun Hch. pose proof Hi as [Hn Hj Hs Hc Hr Hd Hp Hx]. unfold run_ok in Hr. rewrite Hrun in Hr.
  destruct Hr as ((buf & Hopen) & Hno). rewrite Hch in Hopen. injection Hopen as ->. unfold run_close. cbn [ch_closed].
  split; cbn [set_run set_chans ep_callers ep_next ep_streams ep_chans ep_requests ep_serving ep_closed]; try done.
  - intros id m Hm. destruct (Hs _ _ Hm) as [-> Hmc]. split; [done|]. rewrite lookup_insert_ne; [done|congruence].
  - intros m c Hm. apply lookup_insert_Some in Hm as [[<- <-]|[_ Hm]]; [|by apply Hc]. exact (Hc _ _ Hch).
  - waiting Hp. intros m (c & Hm & Hw). destruct (decide (n = m)) as [<-|Hne].
    + eexists. cbn [set_run set_chans ep_chans]. rewrite lookup_insert_eq. split; [done|]. by left.
    + exists c. cbn [set_run set_chans ep_chans ep_streams ep_run]. rewrite lookup_insert_ne by done. split; [done|]. rewrite Hrun in Hw.
      destruct Hw as [?|[?|[?|[[? ?]|?]]]]; auto; congruence.
Qed.

Lemma asked_enter e t q n r : ep_callers e !! t = None → asked e n r → asked (do_enter t q e) n r.
Proof.
  intros Ht (t' & c' & Ht' & Hn). exists t', c'. split; [|done]. unfold do_enter.
  destruct (ep_closed e); cbn [ep_callers]; rewrite lookup_insert_ne by congruence; done.
Qed.
Lemma a_inv_enter e t q : a_inv e → ep_callers e !! t = None → request_ok q = true → a_inv (do_enter t q e).
Proof.
  intros Hi Ht Hq. pose proof Hi as [Hn Hj Hs Hc Hr Hd Hp Hx].
  assert (∀ n r, asked e n r → asked (do_enter t q e) n r) as Hask by (intros; by apply asked_enter).
  assert (∀ t' c, ep_callers (do_enter t q e) !! t' = Some c → (t' = t ∧ ca_num c = ep_next e + 1 ∧ ca_req c = q) ∨ ep_callers e !! t' = Some c) as Hcase.
  { intros t' c. unfold do_enter. destruct (ep_closed e); cbn [ep_callers];
      (intros [[<- <-]|[_ ?]]%lookup_insert_Some; [by left|by right]). }
  assert (ep_next (do_enter t q e) = ep_next e + 1) as Hnext by (unfold do_enter; by destruct (ep_closed e)).
  assert (∀ n c, ep_chans e !! n = Some c → n ≠ ep_next e + 1) as Hlt by (intros n c Hch; destruct (Hc n c Hch); lia).
  assert (∀ n, wakeable e n → wakeable (do_enter t q e) n) as Hwake.
  { intros n Hw. unfold do_enter. destruct (ep_closed e); [exact Hw|].
    destruct Hw as (ch & Hch & Hw). pose proof (Hlt _ _ Hch). exists ch. cbn [ep_chans ep_streams ep_run].
    rewrite !lookup_insert_ne by (try intros ?%itoa_inj; congruence). done. }
  split.
  - intros t' c [(-> & -> & ->)|Hc']%Hcase; rewrite Hnext; [by split; [lia|]|]. destruct (Hn _ _ Hc'). split; [lia|done].
  - intros t1 t2 c1 c2 [(-> & H1 & _)|H1]%Hcase [(-> & H2 & _)|H2]%Hcase He; [done| | |by eapply Hj];
      [destruct (Hn _ _ H2)|destruct (Hn _ _ H1)]; lia.
  - unfold do_enter. destruct (ep_closed e); cbn [ep_streams ep_chans]; [done|]. intros id n [[<- <-]|[_ Hst]]%lookup_insert_Some.
    + by rewrite lookup_insert_eq.
    + destruct (Hs _ _ Hst) as [-> Hch]. pose proof (Hlt _ _ Hch). by rewrite lookup_insert_ne by congruence.
  - intros n ch Hch. assert ((n = ep_next e + 1 ∧ ch = mkChan [] false) ∨ ep_chans e !! n = Some ch) as [[-> ->]|H].
    { unfold do_enter in Hch. destruct (ep_closed e); cbn [ep_chans] in Hch; [by right|].
      apply lookup_insert_Some in Hch as [[<- <-]|[_ ?]]; [by left|by right]. }
    + rewrite Hnext. split; [lia|set_solver].
    + destruct (Hc n ch H) as [? Hf]. rewrite Hnext. split; [lia|]. intros f Hin. destruct (Hf f Hin) as (r & ? & ?). eauto.
  - unfold run_ok in *. assert (ep_run (do_enter t q e) = ep_run e) as -> by (unfold do_enter; by destruct (ep_closed e)).
    assert (∀ n c, ep_chans e !! n = Some c → ep_streams e !! itoa n = None →
      ep_chans (do_enter t q e) !! n = Some c ∧ ep_streams (do_enter t q e) !! itoa n = None) as Hk.
    { intros n c Hch Hst. pose proof (Hlt _ _ Hch). unfold do_enter. destruct (ep_closed e); [done|]. cbn [ep_chans ep_streams].
      by rewrite !lookup_insert_ne by (try intros ?%itoa_inj; congruence). }
    destruct (ep_run e) as [|n f|n|f| |]; try done.
    + destruct Hr as (H1 & H2 & r & H3 & H4). destruct (Hk _ _ H1 H2). split_and!; eauto.
    + destruct Hr as ((buf & H1) & H2). destruct (Hk _ _ H1 H2). split; eauto.
    + unfold do_enter. by destruct (ep_closed e).
  - unfold do_enter. by destruct (ep_closed e).
  - intros t' c Hc'. destruct (Hcase _ _ Hc') as [(-> & Hcn & Hcr)|Hold]; [|eapply phase_ok_mono; [apply Hwake|by eapply Hp]].
    unfold do_enter in *. destruct (ep_closed e); cbn [ep_callers] in Hc'; rewrite lookup_insert_eq in Hc'; injection Hc' as <-; [done|].
    cbn. eexists. cbn. rewrite !lookup_insert_eq. eauto 6.
  - unfold do_enter. destruct (ep_closed e) eqn:E; cbn [ep_closed ep_streams]; [intros _; by apply Hx|]. congruence.
Qed.

(** Taking a frame from the channel of a caller that is done with it. *)
Lemma a_inv_pop e n f rest b :
  a_inv e → ep_chans e !! n = Some (mkChan (f :: rest) b) →
  (∀ t c, ep_callers e !! t = Some c → ca_num c = n → ∃ r, ca_phase c = CDone r) →
  a_inv (set_chans (<[n := mkChan rest b]> (ep_chans e)) e).
Proof.
  intros Hi Hch Hdone. pose proof Hi as [Hn Hj Hs Hc Hr Hd Hp Hx].
  split; cbn [set_chans ep_callers ep_next ep_streams ep_chans ep_requests ep_serving ep_closed]; try done.
  - intros id m Hm. destruct (Hs _ _ Hm) as [-> Hmc]. split; [done|]. rewrite lookup_insert_ne; [done|congruence].
  - intros m c Hm. apply lookup_insert_Some in Hm as [[<- <-]|[_ Hm]]; [|by apply Hc].
    destruct (Hc _ _ Hch) as [? Hf]. split; [done|]. intros g Hg. apply Hf. by right.
  - unfold run_ok in *. cbn [set_chans ep_run ep_chans ep_streams ep_closed]. destruct (ep_run e) as [|m g|m|g| |]; try done.
    + destruct Hr as (H1 & H2 & Hq). rewrite lookup_insert_ne by congruence. done.
    + destruct Hr as ((buf & H1) & H2). split; [|done]. destruct (decide (n = m)) as [<-|Hne].
      * rewrite lookup_insert_eq. exists rest. congruence.
      * rewrite lookup_insert_ne by done. by exists buf.
  - intros t c Ht. pose proof (Hp t c Ht) as Hph. destruct (decide (ca_num c = n)) as [He|Hne].
    + destruct (Hdone t c Ht He) as [r Hr']. unfold phase_ok in *. by rewrite Hr' in *.
    + eapply phase_ok_mono; [|exact Hph]. intros (c' & Hc' & Hw). exists c'. cbn [set_chans ep_chans ep_streams ep_run].
      rewrite lookup_insert_ne by congruence. done.
Qed.
Lemma do_frame_response n q : do_frame (resp_for n q) 0 (Some []) EmptyString = CDone (inl (answer q)).
Proof.
  unfold do_frame, answer. cbn [resp_for arrived response_frame fr_Type fr_Status fr_Headers fr_Body fr_End].
  change (bool_decide (FrameResponse = FrameClose)) with false. cbv iota. destruct (Z.eqb_spec (rs_Status (h (seen q))) 0) as [Hz|Hz]; [done|].
  by rewrite (proj2 (Z.eqb_neq _ _) Hz).
Qed.
Lemma a_inv_recv e t c st hd buf ch :
  a_inv e → ep_callers e !! t = Some c → ca_phase c = CWaiting st hd buf → ep_chans e !! ca_num c = Some ch →
  a_inv (do_recv t c st hd buf ch e).
Proof.
  intros Hi Ht Hph Hch. pose proof (ai_phase _ Hi _ _ Ht) as Hok. unfold phase_ok in Hok. rewrite Hph in Hok.
  destruct Hok as (-> & -> & -> & _). unfold do_recv. destruct ch as [[|f rest] b]; cbn [ch_buf ch_closed].
  - destruct b; [|done]. by apply a_inv_caller.
  - destruct (proj2 (ai_chan _ Hi _ _ Hch) f ltac:(by left)) as (q & Hq & ->). rewrite do_frame_response.
    assert (q = ca_req c) as -> by (eapply asked_inj; [done|exact Hq|by exists t, c]).
    apply (a_inv_pop (set_caller t (mkCaller (ca_num c) (ca_req c) (CDone (inl (answer (ca_req c))))) e) _ (resp_for (ca_num c) (ca_req c))); [by apply a_inv_caller|done|].
    cbn [set_caller ep_callers]. intros t' c' [[_ <-]|[Hne Ht']]%lookup_insert_Some He; [by eexists|].
    destruct Hne. by eapply (ai_inj _ Hi).
Qed.

Lemma removeStream_callers id e : ep_callers (removeStream id e) = ep_callers e.
Proof. unfold removeStream. by destruct (ep_streams e !! id). Qed.
Lemma removeStream_closed id e : ep_closed (removeStream id e) = ep_closed e.
Proof. unfold removeStream. by destruct (ep_streams e !! id). Qed.
Lemma asked_removeStream id e n q : asked e n q → asked (removeStream id e) n q.
Proof. unfold asked. by rewrite removeStream_callers. Qed.

(** Ending a caller after its stream is removed. *)
Lemma a_inv_abandon e t c p id :
  a_inv e → ep_callers e !! t = Some c → (∀ e, phase_ok e (mkCaller (ca_num c) (ca_req c) p)) →
  a_inv (set_caller t (mkCaller (ca_num c) (ca_req c) p) (removeStream id e)).
Proof. intros Hi Ht Hp. apply a_inv_caller; [by apply a_inv_removeStream|by rewrite removeStream_callers|apply Hp]. Qed.

(** What is on the wires. *)
Definition ab_ok (e : Endpoint) (d : string) : Prop :=
  (∃ n q, asked e n q ∧ d = EncodeFrame (request_frame n q)) ∨ (∃ n msg, msg ∈ ctx_errors ∧ d = EncodeFrame (close_frame n msg)).
Definition ba_ok (e : Endpoint) (d : string) : Prop :=
  ∃ n q, asked e n q ∧ d = EncodeFrame (response_frame (itoa n) (h (seen q))).

Lemma ba_decode e d : ba_ok e d → ∃ n q, asked e n q ∧ DecodeFrame d = Some (resp_for n q).
Proof. intros (n & q & Hq & ->). exists n, q. split; [done|]. rewrite decode_encode; [done|]. by apply response_frame_ok. Qed.

Lemma a_step e i e' i' out :
  a_inv e → Forall (ba_ok e) i → estep (λ q, request_ok q = true) h e i e' i' out →
  a_inv e' ∧ (∀ n q, asked e n q → asked e' n q) ∧ Forall (ba_ok e) i' ∧ Forall (ab_ok e') (map EncodeFrame out).
Proof.
  intros Hi Hw Hs. pose proof Hi as [_ _ _ _ Hrun [Hreq Hsv] _ _]. unfold run_ok in Hrun.
  destruct Hs as [t q i Ht Hq|t c w i Ht Hph|t c st hd buf ch i Ht Hph Hch|t c st hd buf i Ht Hph|t c msg w i Ht Hph Hm|d f i Hr Hd|d err i Hr Hd
    |err i Hr|ctx n f ch i Hr Hch|n ch i Hr Hch|ctx f i Hr|err i|i|l1 f l2 w i Hl].
  - split_and!; [by apply a_inv_enter|intros; by apply asked_enter|done|constructor].
  - pose proof (ai_phase _ Hi _ _ Ht) as Hok. unfold phase_ok in Hok. rewrite Hph in Hok. unfold do_send.
    destruct (ep_closed e); [|destruct w]; cbn [fst snd map];
      (split_and!; [|intros; apply asked_set; [by rewrite ?removeStream_callers|by try apply asked_removeStream]|done|]).
    + by apply a_inv_abandon.
    + constructor.
    + apply a_inv_caller; [done|done|]. by split_and!.
    + apply Forall_singleton. left. exists (ca_num c), (ca_req c). split; [|done]. apply asked_set; [done|]. by exists t, c.
    + by apply a_inv_abandon.
    + constructor.
  - split_and!; [by eapply a_inv_recv| |done|constructor]. intros n q Hq. unfold do_recv.
    destruct (ch_buf ch); [destruct (ch_closed ch); [by apply asked_set|done]|]. by apply (asked_set (set_chans _ e)).
  - split_and!; [by apply a_inv_abandon| |done|constructor]. intros n q Hq. apply asked_set; [by rewrite removeStream_callers|by apply asked_removeStream].
  - unfold do_cancelled. cbn [fst snd]. split_and!; [by apply a_inv_caller|intros; by apply asked_set|done|].
    destruct (ep_closed e), w; try (by constructor). apply Forall_singleton. right. by eauto.
  - apply Forall_cons in Hw as [(n & q & Hq & Hd')%ba_decode Hw]. rewrite Hd in Hd'. injection Hd' as ->.
    split_and!; [by apply a_inv_response| |done|constructor]. intros m r Hr'. unfold run_frame.
    cbn [resp_for arrived response_frame fr_Type fr_StreamID]. change (bool_decide (FrameResponse = FrameResponse) || _) with true.
    change (ends (resp_for n q)) with true. by destruct (ep_streams e !! itoa n).
  - apply Forall_cons in Hw as [(n & q & Hq & Hd')%ba_decode Hw]. congruence.
  - split_and!; [by apply a_inv_returned| |done|constructor]. intros n q Hq. unfold fail. by destruct (ep_closed e).
  - split_and!; [by eapply a_inv_deliver| |done|constructor]. intros m q Hq. unfold run_deliver. destruct ctx, (ch_closed ch), (length (ch_buf ch) <? stream_cap)%nat; exact Hq.
  - split_and!; [by eapply a_inv_close| |done|constructor]. intros m q Hq. unfold run_close. destruct (ch_closed ch); exact Hq.
  - by rewrite Hr in Hrun.
  - split_and!; [by apply a_inv_fail| |done|constructor]. intros n q Hq. unfold fail. by destruct (ep_closed e).
  - unfold serve_take. rewrite Hreq. by split_and!.
  - rewrite Hsv in Hl. by destruct l1.
Qed.

(** ** The worker's side *)

Definition req_frame (A : Endpoint) (f : Frame) : Prop := ∃ n q, asked A n q ∧ f = arrived (request_frame n q).
Record b_inv (A B : Endpoint) : Prop := {
  bi_none : ep_callers B = ∅ ∧ ep_streams B = ∅;
  bi_run : match ep_run B with RRequest f => req_frame A f | RDeliver _ _ | RClosing _ => False | _ => True end;
  bi_requests : Forall (req_frame A) (ch_buf (ep_requests B));
  bi_serving : Forall (req_frame A) (ep_serving B)
}.
Lemma b_inv_mono A A' B : (∀ n q, asked A n q → asked A' n q) → b_inv A B → b_inv A' B.
Proof.
  intros Hm [Hn Hr Hq Hs]. assert (∀ f, req_frame A f → req_frame A' f) as Hf by (intros f (n & q & ? & ?); exists n, q; auto).
  split; [done| |by eapply Forall_impl|by eapply Forall_impl]. destruct (ep_run B); auto.
Qed.
Lemma b_inv_fail A B err : b_inv A B → b_inv A (fail err B).
Proof. intros [[? ?] Hr Hq Hs]. unfold fail. destruct (ep_closed B) eqn:E; by repeat split. Qed.
Lemma ab_decode A d : a_inv A → ab_ok A d → ∃ f, DecodeFrame d = Some f ∧ (req_frame A f ∨ ∃ n msg, f = arrived (close_frame n msg)).
Proof.
  intros Hi [(n & q & Hq & ->)|(n & msg & Hm & ->)]; eexists.
  - split; [apply decode_encode, request_frame_ok|left; by exists n, q]. destruct Hq as (t & c & Ht & _ & <-). by apply (ai_num _ Hi _ _ Ht).
  - split; [apply decode_encode, close_frame_ok|right; by exists n, msg].
    by repeat (apply elem_of_cons in Hm as [->|Hm]; [done|]); apply elem_of_nil in Hm.
Qed.

Lemma b_step A B i B' i' out :
  a_inv A → b_inv A B → Forall (ab_ok A) i → estep (λ _, False) h B i B' i' out →
  b_inv A B' ∧ Forall (ab_ok A) i' ∧ Forall (ba_ok A) (map EncodeFrame out).
Proof.
  intros Ha Hi Hw Hs. pose proof Hi as [[Hcl Hst] Hrun Hreq Hsv].
  destruct Hs as [t q i Ht []|t c w i Ht|t c st hd buf ch i Ht|t c st hd buf i Ht|t c msg w i Ht|d f i Hr Hd|d err i Hr Hd
    |err i Hr|ctx n f ch i Hr Hch|n ch i Hr Hch|ctx f i Hr|err i|i|l1 f l2 w i Hl]; try (by rewrite Hcl in Ht); try (by rewrite Hr in Hrun).
  - apply Forall_cons in Hw as [Hd' Hw]. destruct (ab_decode A d Ha Hd') as (f' & Hf' & Hcase). rewrite Hd in Hf'. injection Hf' as <-.
    split_and!; [|done|constructor]. destruct Hcase as [(n & q & Hq & ->)|(n & msg & ->)].
    + split; try done. unfold run_frame. cbn. by exists n, q.
    + unfold run_frame. cbn [arrived close_frame fr_Type fr_StreamID]. change (bool_decide (FrameClose = FrameResponse) || _) with true. cbv iota.
      rewrite Hst, lookup_empty. change (ends (arrived _)) with true. cbv iota. rewrite delete_empty. by split.
  - apply Forall_cons in Hw as [_ Hw]. split_and!; [|done|constructor]. destruct (b_inv_fail A B err Hi) as [H1 _ H3 H4]. by split.
  - split_and!; [|done|constructor]. destruct (b_inv_fail A B err Hi) as [H1 _ H3 H4]. by split.
  - rewrite Hr in Hrun. split_and!; [|done|constructor]. unfold run_request. destruct ctx.
    + destruct (b_inv_fail A B ErrContext Hi) as [H1 _ H3 H4]. by split.
    + destruct (ch_closed _); [by split|]. destruct (_ <? _)%nat; [|done]. split; try done. cbn. apply Forall_app. by rewrite Forall_singleton.
  - split_and!; [by apply b_inv_fail|done|constructor].
  - split_and!; [|done|constructor]. unfold serve_take. destruct (ch_buf (ep_requests B)) as [|f rest] eqn:E; [done|].
    apply Forall_cons in Hreq as [Hf Hrest]. split; try done. cbn. apply Forall_app. split; [done|]. by apply Forall_singleton.
  - rewrite Hl in Hsv. apply Forall_app in Hsv as [H1 [Hf H2]%Forall_cons]. split_and!; [|done|].
    + split; try done. cbn. by apply Forall_app.
    + unfold serve_done. cbn [snd]. destruct (ep_closed B), w; try (by constructor). apply Forall_singleton.
      destruct Hf as (n & q & Hq & ->). exists n, q. split; [done|]. done.
Qed.

(** ** Both sides *)

Record net_inv (N : Net) : Prop := {
  ni_a : a_inv (n_A N);
  ni_b : b_inv (n_A N) (n_B N);
  ni_ab : Forall (ab_ok (n_A N)) (n_ab N);
  ni_ba : Forall (ba_ok (n_A N)) (n_ba N)
}.
Lemma net_inv_init : net_inv net0.
Proof.
  split; [|split|constructor|constructor]; try (by constructor); try done.
Qed.
Lemma net_inv_step N N' : net_inv N → step N N' → net_inv N'.
Proof.
  intros [Ha Hb Hab Hba] Hs. destruct Hs as [A B ab ba A' ba' out Hs|A B ab ba B' ab' out Hs|A B l1 d l2 ba|A B ab l1 d l2]; cbn [n_A n_B n_ab n_ba] in *.
  - destruct (a_step _ _ _ _ _ Ha Hba Hs) as (Ha' & Hm & Hba' & Hout).
    assert (∀ d, ab_ok A d → ab_ok A' d) as Hm1 by (intros d [(n & q & ? & ->)|?]; [left; eauto|by right]).
    assert (∀ d, ba_ok A d → ba_ok A' d) as Hm2 by (intros d (n & q & ? & ->); exists n, q; auto).
    split; cbn [n_A n_B n_ab n_ba]; [done|by eapply b_inv_mono| |by eapply Forall_impl].
    apply Forall_app. split; [by eapply Forall_impl|done].
  - destruct (b_step _ _ _ _ _ _ Ha Hb Hab Hs) as (Hb' & Hab' & Hout). split; cbn [n_A n_B n_ab n_ba]; [done|done|done|]. by apply Forall_app.
  - apply Forall_app in Hab as [H1 [_ H2]%Forall_cons]. split; cbn [n_A n_B n_ab n_ba]; [done|done| |done]. by apply Forall_app.
  - apply Forall_app in Hba as [H1 [_ H2]%Forall_cons]. split; cbn [n_A n_B n_ab n_ba]; [done|done|done|]. by apply Forall_app.
Qed.
Lemma reachable_inv N : rtc step net0 N → net_inv N.
Proof. intros Hr. pose proof net_inv_init as H0. induction Hr as [|x y z Hs Hr IH]; [done|]. apply IH. by eapply net_inv_step. Qed.

(** What is the same on both sides: method and path up to the defaults of
    [serveOne], the body, and the entries of the headers. *)
Record same_request (q q' : Request) : Prop := {
  sq_method : rq_Method q' = (if is_blank (rq_Method q) then "GET" else TrimSpace (rq_Method q));
  sq_uri : rq_URI q' = (if HasPrefix (rq_URI q) "/" then rq_URI q else "/");
  sq_headers : ∀ k, assoc (default [] (rq_Headers q')) k = assoc (default [] (cloneHeader (rq_Headers q))) k;
  sq_body : rq_Body q' = rq_Body q
}.
Lemma seen_same q : request_ok q = true → same_request q (seen q).
Proof.
  unfold request_ok. intros [_ Hh]%andb_true_iff. split.
  - unfold seen, served. cbn [arrived request_frame fr_Method rq_Method]. unfold is_blank. cbv zeta. by case_bool_decide.
  - unfold seen, served. cbn [arrived request_frame fr_Path rq_URI]. destruct (rq_URI q) as [|c s] eqn:E; [done|].
    rewrite !(bool_decide_false (String c s = EmptyString)) by done. cbn [orb]. by destruct (HasPrefix (String c s) "/").
  - intros k. unfold seen, served. cbn [arrived request_frame fr_Headers rq_Headers]. by apply clone_arrived.
  - done.
Qed.
(** And of the response, which [Do] never returns without a status. *)
Record same_response (r r' : Response) : Prop := {
  sr_status : rs_Status r' = (if rs_Status r =? 0 then 502 else rs_Status r);
  sr_headers : rs_Status r ≠ 0 → ∀ k, assoc (default [] (rs_Headers r')) k = assoc (default [] (cloneHeader (rs_Headers r))) k;
  sr_body : rs_Body r' = rs_Body r
}.
Lemma answer_same q : same_response (h (seen q)) (answer q).
Proof.
  pose proof (h_ok (seen q)) as Hok. unfold response_ok in Hok. apply andb_true_iff in Hok as [_ Hh].
  split; [done| |done]. intros Hz k. unfold answer. cbn [rs_Headers]. rewrite (proj2 (Z.eqb_neq _ _) Hz). by apply clone_arrived.
Qed.

(** A caller whose channel is closed or has a frame finishes. *)
Lemma recv_finishes A B ab ba t c st hd buf ch :
  a_inv A → ep_callers A !! t = Some c → ca_phase c = CWaiting st hd buf → ep_chans A !! ca_num c = Some ch →
  ch_closed ch = true ∨ ch_buf ch ≠ [] →
  ∃ A' r, step (mkNet A B ab ba) (mkNet A' B ab ba) ∧ ep_callers A' !! t = Some (mkCaller (ca_num c) (ca_req c) (CDone r)).
Proof.
  intros Hi Ht Hph Hch Hrdy. exists (do_recv t c st hd buf ch A).
  assert (∃ r, ep_callers (do_recv t c st hd buf ch A) !! t = Some (mkCaller (ca_num c) (ca_req c) (CDone r))) as [r Hr].
  { pose proof (ai_phase _ Hi _ _ Ht) as Hok. unfold phase_ok in Hok. rewrite Hph in Hok. destruct Hok as (-> & -> & -> & _).
    unfold do_recv. destruct (ch_buf ch) as [|f rest] eqn:Eb.
    - destruct Hrdy as [->|]; [|done]. unfold finish. cbn [set_caller ep_callers]. rewrite lookup_insert_eq. eauto.
    - destruct (proj2 (ai_chan _ Hi _ _ Hch) f) as (q & Hq & ->); [rewrite Eb; by left|]. rewrite do_frame_response.
      cbn [set_caller ep_callers]. rewrite lookup_insert_eq. eauto. }
  exists r. split; [|done]. rewrite <-(app_nil_r ab) at 2. apply (step_A A B ab ba _ _ []). by eapply es_recv.
Qed.
Lemma step_run A B ab ba A' :
  estep (λ q, request_ok q = true) h A ba A' ba [] → step (mkNet A B ab ba) (mkNet A' B ab ba).
Proof. intros Hs. rewrite <-(app_nil_r ab) at 2. by apply (step_A A B ab ba A' ba []). Qed.
Lemma waiting_finishes A B ab ba t c st hd buf :
  a_inv A → ep_callers A !! t = Some c → ca_phase c = CWaiting st hd buf → ep_streams A !! itoa (ca_num c) = None →
  ∃ A' r, rtc step (mkNet A B ab ba) (mkNet A' B ab ba) ∧ ep_callers A' !! t = Some (mkCaller (ca_num c) (ca_req c) (CDone r)).
Proof.
  intros Hi Ht Hph Hno. pose proof (ai_phase _ Hi _ _ Ht) as Hok. unfold phase_ok in Hok. rewrite Hph in Hok.
  destruct Hok as (_ & _ & _ & ch & Hch & Hw).
  assert (∀ A1, a_inv A1 → ep_callers A1 = ep_callers A → step (mkNet A B ab ba) (mkNet A1 B ab ba) →
    (∃ ch, ep_chans A1 !! ca_num c = Some ch ∧ (ch_closed ch = true ∨ ch_buf ch ≠ [])) →
    ∃ A' r, rtc step (mkNet A B ab ba) (mkNet A' B ab ba) ∧ ep_callers A' !! t = Some (mkCaller (ca_num c) (ca_req c) (CDone r))) as Hnext.
  { intros A1 Hi1 Hcs Hs1 (ch1 & Hch1 & Hr1). rewrite <-Hcs in Ht.
    destruct (recv_finishes A1 B ab ba t c st hd buf ch1 Hi1 Ht Hph Hch1 Hr1) as (A' & r & Hs & Hd).
    exists A', r. split; [|done]. eapply rtc_l; [done|]. by eapply rtc_once. }
  destruct Hw as [?|[?|[?|[[f Hrun]|Hrun]]]]; [..|congruence| |].
  1, 2: destruct (recv_finishes A B ab ba t c st hd buf ch Hi Ht Hph Hch) as (A' & r & Hs & Hd); [by auto|]; exists A', r; split; [by eapply rtc_once|done].
  - pose proof (ai_run _ Hi) as Hr. unfold run_ok in Hr. rewrite Hrun in Hr. destruct Hr as (Hopen & _ & q & Hq & ->).
    apply (Hnext (run_deliver false (ca_num c) (resp_for (ca_num c) q) (mkChan [] false) A)); [by eapply a_inv_deliver|done| |].
    + apply step_run. by eapply es_deliver.
    + eexists. unfold run_deliver. cbn. rewrite lookup_insert_eq. split; [done|]. by right.
  - pose proof (ai_run _ Hi) as Hr. unfold run_ok in Hr. rewrite Hrun in Hr. destruct Hr as ((b & Hopen) & _).
    apply (Hnext (run_close (ca_num c) (mkChan b false) A)); [by eapply a_inv_close|done| |].
    + apply step_run. by eapply es_close.
    + eexists. unfold run_close. cbn. rewrite lookup_insert_eq. split; [done|]. by left.
Qed.
End net.

(** C25: Over any interleaving of the goroutines of both ends of a tunnel, with callers
    cancelled, either side failing or closed at any time and frames lost, a response that
    [Do] returns is the one the worker's handler gave to the same request - same method,
    path, body and headers, the status 502 when the handler gave none -, the read loop of
    the calling side never panics, and a caller whose stream is gone (all of them once the
    endpoint is closed) can always finish. *)
Theorem responses_reach_their_requests (h : Request → Response) (h_ok : ∀ q, response_ok (h q) = true) (N : Net) :
  rtc (step h) net0 N →
  ep_run (n_A N) ≠ RPanicked ∧
  (ep_closed (n_A N) ≠ None → ep_streams (n_A N) = ∅) ∧
  (∀ t c r, ep_callers (n_A N) !! t = Some c → ca_phase c = CDone (inl r) →
     ∃ q, same_request (ca_req c) q ∧ same_response (h q) r) ∧
  (∀ t c st hd buf, ep_callers (n_A N) !! t = Some c → ca_phase c = CWaiting st hd buf → ep_streams (n_A N) !! itoa (ca_num c) = None →
     ∃ N' r, rtc (step h) N N' ∧ ep_callers (n_A N') !! t = Some (mkCaller (ca_num c) (ca_req c) (CDone r))).
Proof.
  intros Hr. destruct (reachable_inv h h_ok N Hr) as [Ha _ _ _]. split_and!.
  - pose proof (ai_run _ _ Ha) as Hrun. unfold run_ok in Hrun. intros E. by rewrite E in Hrun.
  - apply (ai_shut _ _ Ha).
  - intros t c r Ht Hph. pose proof (ai_phase _ _ Ha _ _ Ht) as Hok. unfold phase_ok in Hok. rewrite Hph in Hok. subst r.
    exists (seen (ca_req c)). split; [apply seen_same, (ai_num _ _ Ha _ _ Ht)|by apply answer_same].
  - intros t c st hd buf Ht Hph Hno. destruct N as [A B ab ba]. cbn [n_A] in *.
    destruct (waiting_finishes h A B ab ba t c st hd buf Ha Ht Hph Hno) as (A' & r & Hs & Hd). by exists (mkNet A' B ab ba), r.
Qed.

(** *** A run *)

Definition demo_request : Request := mkRequest "GET" "/api/v1/sessions" (Some [("accept", Some ["*/*"])]) "ping".
Definition demo_handler (q : Request) : Response := mkResponse 200 (Some [("content-type", Some ["text/plain"])]) "pong".
Lemma demo_handler_ok q : response_ok (demo_handler q) = true.
Proof. reflexivity. Qed.

Ltac settle := match goal with |- rtc _ ?n _ => let m := eval vm_compute in n in change n with m end.
Ltac act_A tac := eapply rtc_l; [eapply step_A; tac|settle].
Ltac act_B tac := eapply rtc_l; [eapply step_B; tac|settle].

Lemma demo_asked : ∃ N, rtc (step demo_handler) net0 N ∧ ∃ f, ep_run (n_B N) = RRequest f ∧ ep_closed (n_B N) = None ∧
  ∃ N', rtc (step demo_handler) N N' ∧ ∃ c r, ep_callers (n_A N') !! 0%nat = Some c ∧ ca_req c = demo_request ∧ ca_phase c = CDone (inl r).
Proof.
  eexists. split.
  - act_A ltac:(apply (es_enter _ _ _ 0%nat demo_request); reflexivity).
    act_A ltac:(eapply (es_send _ _ _ 0%nat _ true); reflexivity).
    act_B ltac:(eapply es_read; [reflexivity|vm_compute; reflexivity]).
    apply rtc_refl.
  - eexists. split; [reflexivity|]. split; [reflexivity|]. eexists. split.
    + act_B ltac:(eapply (es_request _ _ _ false); reflexivity).
      act_B ltac:(eapply es_take).
      act_B ltac:(eapply (es_serve _ _ _ [] _ [] true); reflexivity).
      act_A ltac:(eapply es_read; [reflexivity|vm_compute; reflexivity]).
      act_A ltac:(eapply (es_deliver _ _ _ false); reflexivity).
      act_A ltac:(eapply (es_recv _ _ _ 0%nat); reflexivity).
      apply rtc_refl.
    + do 2 eexists. split_and!; reflexivity.
Qed.

Lemma responses_reach_their_requests_witness :
  ∃ N c r q, rtc (step demo_handler) net0 N ∧ ep_callers (n_A N) !! 0%nat = Some c ∧ ca_phase c = CDone (inl r) ∧
    same_request demo_request q ∧ same_response (demo_handler q) r ∧ rs_Body r = "pong".
Proof.
  destruct demo_asked as (N & Hr & f & _ & _ & N' & Hr' & c & r & Hc & Hq & Hph).
  assert (rtc (step demo_handler) net0 N') as Hn by by etrans.
  destruct (responses_reach_their_requests demo_handler demo_handler_ok N' Hn) as (_ & _ & Ha & _).
  destruct (Ha _ _ _ Hc Hph) as (q & H1 & H2). rewrite Hq in H1. exists N', c, r, q.
  pose proof (sr_body _ _ H2). by split_and!.
Defined.

(** ** Closing a tunnel while a request arrives

    The read loop hands a request over outside of the mutex, and [fail] closes the
    channel of requests: a ping that fails between the two ends the process. *)
Lemma fail_while_queueing h A B ab ba f (err : error) :
  ep_run B = RRequest f → ep_closed B = None →
  ∃ B', rtc (step h) (mkNet A B ab ba) (mkNet A B' ab ba) ∧ ep_run B' = RPanicked.
Proof.
  intros Hrun Hcl. exists (run_request false f (fail err B)). split.
  - assert (∀ B1 B2, estep (λ _, False) h B1 ab B2 ab [] → step h (mkNet A B1 ab ba) (mkNet A B2 ab ba)) as Hs.
    { intros B1 B2 He. pose proof (step_B h A B1 ab ba B2 ab [] He) as Hs. cbn in Hs. by rewrite app_nil_r in Hs. }
    apply (rtc_l _ _ (mkNet A (fail err B) ab ba)); [by apply Hs, es_fail|].
    apply rtc_once, Hs, es_request. unfold fail. by rewrite Hcl.
  - unfold run_request, fail. by rewrite Hcl.
Qed.
Theorem closing_panics : ∃ N, rtc (step demo_handler) net0 N ∧ ep_run (n_B N) = RPanicked.
Proof.
  destruct demo_asked as ([A B ab ba] & Hr & f & Hrun & Hcl & _).
  destruct (fail_while_queueing demo_handler A B ab ba f ErrContext Hrun Hcl) as (B' & Hs & HP).
  exists (mkNet A B' ab ba). split; [by etrans|done].
Qed.

(** ** The registry *)

Inductive tstep : Tunnels → Tunnels → Prop :=
  | ts_accept ep w s : tn_conns s !! ep = None → tstep s (tunnel_accept ep w s)
  | ts_register ep w now s : tn_conns s !! ep = Some (mkConn w PRegister) → tstep s (tunnel_register ep w now s)
  | ts_online ep w s : tn_conns s !! ep = Some (mkConn w POnline) → tstep s (tunnel_online ep w s)
  | ts_ended ep w s : tn_conns s !! ep = Some (mkConn w PRunning) → tstep s (tunnel_ended ep w s)
  | ts_offline ep w s : tn_conns s !! ep = Some (mkConn w POffline) → tstep s (tunnel_offline ep w s).
Definition tunnels0 (status : gmap string string) : Tunnels := mkTunnels (mkTunnelRegistry ∅ ∅) status ∅.

Definition up (c : Conn) : bool := match cn_phase c with POnline | PRunning => true | _ => false end.
Record tunnels_inv (s : Tunnels) : Prop := {
  ti_worker : ∀ ep c, tn_conns s !! ep = Some c → TrimSpace (cn_worker c) = cn_worker c ∧ cn_worker c ≠ EmptyString;
  ti_entry : ∀ w t, tr_tunnels (tn_registry s) !! w = Some t → ∃ c, tn_conns s !! tu_Endpoint t = Some c ∧ cn_worker c = w ∧ up c = true;
  ti_up : ∀ ep c, tn_conns s !! ep = Some c → up c = true →
    tu_Endpoint <$> tr_tunnels (tn_registry s) !! cn_worker c = Some ep ∨ ep ∈ tr_closed (tn_registry s);
  ti_closed : ∀ ep, ep ∈ tr_closed (tn_registry s) → is_Some (tn_conns s !! ep)
}.

Lemma conn_same s ep w p p' :
  tunnels_inv s → tn_conns s !! ep = Some (mkConn w p) → up (mkConn w p) = up (mkConn w p') → tunnels_inv (set_conn ep (mkConn w p') s).
Proof.
  intros [Hw He Hu Hc] Hep Hup. split; cbn [set_conn tn_conns tn_registry].
  - intros ep' c [[<- <-]|[_ H]]%lookup_insert_Some; [exact (Hw _ _ Hep)|by eapply Hw].
  - intros w' t Ht. destruct (He w' t Ht) as (c & Hcn & <- & Hcu). destruct (decide (ep = tu_Endpoint t)) as [Heq|Hne].
    + rewrite <-Heq in *. rewrite Hep in Hcn. injection Hcn as <-. rewrite lookup_insert_eq. eexists. split_and!; [done|done|by rewrite <-Hup].
    + rewrite lookup_insert_ne by done. eauto.
  - intros ep' c [[<- <-]|[_ H]]%lookup_insert_Some; [|by eapply Hu]. rewrite <-Hup. apply (Hu _ _ Hep).
  - intros ep' Hin. destruct (decide (ep = ep')) as [<-|Hne]; [rewrite lookup_insert_eq; by eexists|]. rewrite lookup_insert_ne by done. by apply Hc.
Qed.
Lemma tunnels_accept s ep w : tunnels_inv s → tn_conns s !! ep = None → tunnels_inv (tunnel_accept ep w s).
Proof.
  intros [Hw He Hu Hc] Hep. unfold tunnel_accept. cbv zeta. case_bool_decide as Hb; [by split|]. split; cbn [set_conn tn_conns tn_registry].
  - intros ep' c [[<- <-]|[_ H]]%lookup_insert_Some; [cbn [cn_worker]; by rewrite TrimSpace_idem|by eapply Hw].
  - intros w' t Ht. destruct (He w' t Ht) as (c & Hcn & ?). exists c. rewrite lookup_insert_ne by congruence. done.
  - intros ep' c [[<- <-]|[_ H]]%lookup_insert_Some; [done|by eapply Hu].
  - intros ep' Hin. destruct (Hc ep' Hin) as [c Hcn]. exists c. rewrite lookup_insert_ne by congruence. done.
Qed.
Lemma tunnels_register s ep w now : tunnels_inv s → tn_conns s !! ep = Some (mkConn w PRegister) → tunnels_inv (tunnel_register ep w now s).
Proof.
  intros [Hw He Hu Hc] Hep. destruct (Hw _ _ Hep) as [Htrim Hne]. cbn [cn_worker] in *. unfold tunnel_register, Register. cbv zeta.
  rewrite Htrim, bool_decide_false by done. split; cbn [set_conn set_registry tn_conns tn_registry tr_tunnels tr_closed].
  - intros ep' c [[<- <-]|[_ H]]%lookup_insert_Some; [done|by eapply Hw].
  - intros w' t [[<- <-]|[_ Ht]]%lookup_insert_Some; [cbn; rewrite lookup_insert_eq; eauto|].
    destruct (He w' t Ht) as (c & Hcn & Hwk & Hcu). exists c. rewrite lookup_insert_ne; [done|]. intros ->. rewrite Hep in Hcn. by injection Hcn as <-.
  - intros ep' c [[<- <-]|[Hne' H]]%lookup_insert_Some Hup; [left; cbn; by rewrite lookup_insert_eq|].
    destruct (Hu ep' c H Hup) as [Hcur|Hcl]; [|right; destruct (tr_tunnels _ !! w); set_solver].
    destruct (decide (cn_worker c = w)) as [<-|Hd]; [|left; by rewrite lookup_insert_ne].
    right. destruct (tr_tunnels _ !! cn_worker c) as [t|]; [|done]. injection Hcur as <-. set_solver.
  - intros ep' Hin. destruct (decide (ep = ep')) as [<-|Hd]; [rewrite lookup_insert_eq; by eexists|]. rewrite lookup_insert_ne by done.
    destruct (tr_tunnels _ !! w) as [t|] eqn:E; [|by apply Hc]. apply elem_of_union in Hin as [->%elem_of_singleton|Hin]; [|by apply Hc].
    destruct (He w t E) as (c & ? & _). by exists c.
Qed.
Lemma tunnels_ended s ep w : tunnels_inv s → tn_conns s !! ep = Some (mkConn w PRunning) → tunnels_inv (tunnel_ended ep w s).
Proof.
  intros [Hw He Hu Hc] Hep. unfold tunnel_ended, Remove.
  assert (∀ w' t, tr_tunnels (tn_registry s) !! w' = Some t → tu_Endpoint t = ep → w' = w) as Hown.
  { intros w' t Ht <-. destruct (He w' t Ht) as (c & Hcn & <- & _). rewrite Hep in Hcn. by injection Hcn as <-. }
  assert (∀ r p, up (mkConn w p) = false → tr_closed r = tr_closed (tn_registry s) →
    (∀ w' t, tr_tunnels r !! w' = Some t → tr_tunnels (tn_registry s) !! w' = Some t ∧ tu_Endpoint t ≠ ep) →
    (∀ ep' w', ep' ≠ ep → tu_Endpoint <$> tr_tunnels (tn_registry s) !! w' = Some ep' → tu_Endpoint <$> tr_tunnels r !! w' = Some ep') →
    tunnels_inv (set_conn ep (mkConn w p) (set_registry r s))) as Hgen.
  { intros r p Hp Hcl Hsub Hkeep. split; cbn [set_conn set_registry tn_conns tn_registry].
    - intros ep' c [[<- <-]|[_ H]]%lookup_insert_Some; [exact (Hw _ _ Hep)|by eapply Hw].
    - intros w' t Ht. destruct (Hsub w' t Ht) as [Ht' Hne]. rewrite lookup_insert_ne by done. by apply He.
    - intros ep' c [[<- <-]|[Hne H]]%lookup_insert_Some Hup; [congruence|]. rewrite Hcl. destruct (Hu _ _ H Hup); [left; by apply Hkeep|by right].
    - intros ep' Hin. rewrite Hcl in Hin. destruct (decide (ep = ep')) as [<-|Hd]; [rewrite lookup_insert_eq; by eexists|].
      rewrite lookup_insert_ne by done. by apply Hc. }
  destruct (tr_tunnels (tn_registry s) !! w) as [cur|] eqn:E; [case_bool_decide as Hb|]; apply Hgen; try done; cbn [tr_tunnels].
  - intros w' t [Hd Ht]%lookup_delete_Some. split; [done|]. intros Heq. by apply Hd, eq_sym, (Hown w' t).
  - intros ep' w' Hne Hcur. rewrite lookup_delete_ne; [done|]. intros <-. rewrite E in Hcur. injection Hcur as <-. done.
  - intros w' t Ht. split; [done|]. intros Heq. pose proof (Hown w' t Ht Heq). subst w'. congruence.
  - intros w' t Ht. split; [done|]. intros Heq. pose proof (Hown w' t Ht Heq). subst w'. congruence.
Qed.
Lemma tunnels_step s s' : tunnels_inv s → tstep s s' → tunnels_inv s'.
Proof.
  intros Hi Hs. destruct Hs as [ep w s H|ep w now s H|ep w s H|ep w s H|ep w s H].
  - by apply tunnels_accept.
  - by apply tunnels_register.
  - apply (conn_same (set_status w "online" s) ep w POnline); [by destruct Hi; split|done|done].
  - by apply tunnels_ended.
  - apply (conn_same (set_status w "offline" s) ep w POffline); [by destruct Hi; split|done|done].
Qed.
(** Requests for a worker go to a connection of that worker that is still running, and
    every other connection of it has been closed, so that its loop ends; a connection
    that ends late never removes its successor. *)
Theorem current_tunnel_is_running status s :
  rtc tstep (tunnels0 status) s →
  (∀ w ep, registry_Do w (tn_registry s) = Some ep → ∃ c, tn_conns s !! ep = Some c ∧ cn_worker c = TrimSpace w ∧ up c = true) ∧
  (∀ ep c, tn_conns s !! ep = Some c → up c = true → registry_Do (cn_worker c) (tn_registry s) = Some ep ∨ ep ∈ tr_closed (tn_registry s)) ∧
  (∀ ep ep' w, tn_conns s !! ep = Some (mkConn w PRunning) → registry_Do w (tn_registry s) = Some ep' → ep' ≠ ep →
     registry_Do w (tn_registry (tunnel_ended ep w s)) = Some ep').
Proof.
  intros Hr. assert (tunnels_inv s) as Hi.
  { assert (tunnels_inv (tunnels0 status)) as H0 by (split; cbn; try set_solver; intros *; by rewrite lookup_empty).
    induction Hr as [|x y z Hs Hr IH]; [done|]. apply IH. by eapply tunnels_step. }
  pose proof Hi as [Hw He Hu Hc]. unfold registry_Do. split_and!.
  - intros w ep Hd. apply fmap_Some in Hd as (t & Ht & ->). by apply He.
  - intros ep c Hcn Hup. rewrite (proj1 (Hw _ _ Hcn)). by apply Hu.
  - intros ep ep' w Hcn Hd Hne. destruct (Hw _ _ Hcn) as [Htrim _]. cbn [cn_worker] in Htrim. rewrite Htrim in *.
    apply fmap_Some in Hd as (t & Ht & ->). unfold tunnel_ended, Remove. rewrite Ht, bool_decide_false by done. cbn. by rewrite Ht.
Qed.

(** The status is written after the registry has changed, outside of its lock: a worker
    that reconnects while its old connection ends stays offline. *)
Definition quiet (c : Conn) : bool := match cn_phase c with PRunning | PGone => true | _ => false end.
Ltac settle_tunnels := match goal with |- rtc _ ?n _ => let m := eval vm_compute in n in change n with m end.
Theorem tunnel_shown_offline :
  ∃ s, rtc tstep (tunnels0 {[ "w1" := "offline" ]}) s ∧ registry_Do "w1" (tn_registry s) = Some 2%nat ∧
    tn_conns s !! 2%nat = Some (mkConn "w1" PRunning) ∧ tn_status s !! "w1" = Some "offline" ∧ map_Forall (λ _ c, quiet c = true) (tn_conns s).
Proof.
  eexists. split.
  - eapply rtc_l; [by apply (ts_accept 1 "w1")|settle_tunnels]. eapply rtc_l; [by apply (ts_register 1 "w1" 0)|settle_tunnels].
    eapply rtc_l; [by apply (ts_online 1 "w1")|settle_tunnels]. eapply rtc_l; [by apply (ts_ended 1 "w1")|settle_tunnels].
    eapply rtc_l; [by apply (ts_accept 2 "w1")|settle_tunnels]. eapply rtc_l; [by apply (ts_register 2 "w1" 0)|settle_tunnels].
    eapply rtc_l; [by apply (ts_online 2 "w1")|settle_tunnels]. eapply rtc_l; [by apply (ts_offline 1 "w1")|settle_tunnels].
    apply rtc_refl.
  - split_and!; [reflexivity..|]. apply (bool_decide_unpack _). by vm_compute.
Qed.
