(* ===== verification/ClaimVerify.v ===== *)
(** * Verification of an agent's claims

    [internal/reporter/verify.go]: the last message of a successful run is searched
    for claims about side effects (comments, labels, pull requests, branches, files,
    commits), and each is checked against GitHub and git.  The answers of both are the
    record [GHWorld]. *)

From S2P Require Import Prelude GoLib Json GoText GoFormat Regex Types Supervisor ReportFormat.
From Stdlib Require Import Ascii.

(** ** The patterns *)

Definition lower_byte (c : ascii) : ascii := if byte_in c 65 90 then chr (N_of_ascii c + 32) else c.
(** A literal, ignoring case. *)
Fixpoint lit (s : string) : re :=
  match s with
  | EmptyString => REps
  | String c EmptyString => RByte (λ d, Ascii.eqb (lower_byte d) c)
  | String c s => RSeq (RByte (λ d, Ascii.eqb (lower_byte d) c)) (lit s)
  end.
Fixpoint seq (l : list re) : re := match l with [] => REps | [r] => r | r :: l => RSeq r (seq l) end.
Fixpoint alt (l : list re) : re := match l with [] => REps | [r] => r | r :: l => RAlt r (alt l) end.
Definition any : re := RStar false (λ c, negb (byte_is c 10)).
Definition plus (f : ascii → bool) : re := RSeq (RByte f) (RStar true f).
Definition digit (c : ascii) : bool := byte_in c 48 57.
Definition space (c : ascii) : bool := byte_is c 9 || byte_is c 10 || byte_is c 12 || byte_is c 13 || byte_is c 32.
Definition quote_mark (c : ascii) : bool := byte_is c 96 || byte_is c 34 || byte_is c 39.
Definition label_byte (c : ascii) : bool := byte_in c 97 122 || byte_in c 65 90 || byte_in c 48 57 || byte_is c 95 || byte_is c 45.
Definition hex_byte (c : ascii) : bool := byte_in c 48 57 || byte_in c 97 102 || byte_in c 65 70.
Definition hash : re := ROpt (RByte (λ c, byte_is c 35)).
Definition quoted_token : re := RCap 1 (seq [ROpt (RByte quote_mark); plus (λ c, negb (space c)); ROpt (RByte quote_mark)]).
(** [{n,m}] of a class. *)
Fixpoint up_to (n : nat) (f : ascii → bool) : re := match n with O => REps | S n => ROpt (RSeq (RByte f) (up_to n f)) end.
Fixpoint repeat_re (n : nat) (f : ascii → bool) (r : re) : re := match n with O => r | S n => RSeq (RByte f) (repeat_re n f r) end.

Definition posted : re := alt [lit "posted"; lit "added"; lit "wrote"].
Definition commentOnPRPattern : re :=
  seq [posted; RBound; any; lit "comment"; RBound; any; lit "on"; RBound; any; lit "pr"; RBound; any; hash; RCap 1 (seq [RBound; plus digit; RBound])].
Definition commentOnIssuePattern : re :=
  seq [posted; RBound; any; lit "comment"; RBound; any; lit "on"; RBound; any; lit "issue"; RBound; any; hash; RCap 1 (seq [RBound; plus digit; RBound])].
Definition labelUpdatePattern : re :=
  seq [alt [lit "updated"; lit "changed"; lit "flipped"]; RBound; any; ROpt (seq [lit "the"; RBound]); any; lit "labels"].
Definition labelAddedPattern : re :=
  seq [alt [lit "added"; seq [lit "flipped"; RBound; any; lit "to"]; seq [lit "updated"; RBound; any; lit "to"]]; RBound; any; lit "status:"; RCap 1 (plus label_byte)].
Definition labelRemovedPattern : re := seq [lit "removed"; RBound; any; lit "status:"; RCap 1 (plus label_byte)].
Definition prCreatedPattern : re := seq [alt [lit "created"; lit "opened"]; RBound; any; lit "pr"; RBound; any; hash; RCap 1 (plus digit)].
Definition branchPushedPattern : re := seq [alt [lit "pushed"; lit "created"]; RBound; any; lit "branch"; RBound; plus space; quoted_token].
Definition fileCreatedPattern : re := seq [alt [lit "created"; lit "added"]; RBound; any; lit "file"; RBound; plus space; quoted_token].
Definition commitPattern : re :=
  seq [RBound; lit "committed"; RBound;
       alt [seq [plus space; RByte quote_mark; RCap 1 (plus (λ c, negb (quote_mark c))); RByte quote_mark];
            seq [plus space; RCap 2 (repeat_re 7 hex_byte (up_to 33 hex_byte))];
            seq [plus space; RCap 3 (plus (λ c, negb (byte_is c 10 || byte_is c 46 || byte_is c 59)))]]].

(** ** Claims *)

Inductive Claim :=
  | CommentOnPR (n : Z)
  | CommentOnIssue (n : Z)
  | LabelAdded (label : string)
  | LabelRemoved (label : string)
  | LabelsUpdated
  | PRCreated (n : Z)
  | BranchPushed (branch : string)
  | FileCreated (path : string)
  | Committed (what : string).

(** [strconv.Atoi] of digits, whose error is ignored: the largest number then. *)
Definition number (s : string) : Z := default (2 ^ 63 - 1) (atoi s).
(** [strings.Trim] with a cutset. *)
Definition in_set (set : string) (c : ascii) : bool := negb (all_str (λ d, negb (Ascii.eqb c d)) set).
Fixpoint trim_left_set (set : string) (s : string) : string :=
  match s with String c s' => if in_set set c then trim_left_set set s' else s | EmptyString => EmptyString end.
Definition trim_set (set s : string) : string := rev_str (trim_left_set set (rev_str (trim_left_set set s) EmptyString)) EmptyString.
Definition claim_cutset : string := String "`" (String dquote "'.,:;)]}").
Definition normalizeClaimToken (raw : string) : string := trim_set claim_cutset (TrimSpace raw).
Fixpoint firstNonEmpty (values : list string) : string :=
  match values with [] => EmptyString | v :: vs => if nonempty (TrimSpace v) then v else firstNonEmpty vs end.

Definition claims_of (output : string) : list Claim :=
  let output := TrimSpace output in
  let labels := map (λ m, LabelAdded ("status:" +:+ group 1 m)) (FindAll labelAddedPattern output)
             ++ map (λ m, LabelRemoved ("status:" +:+ group 1 m)) (FindAll labelRemovedPattern output) in
  map (λ m, CommentOnPR (number (group 1 m))) (FindAll commentOnPRPattern output)
  ++ map (λ m, CommentOnIssue (number (group 1 m))) (FindAll commentOnIssuePattern output)
  ++ labels
  ++ (match labels with [] => if MatchString labelUpdatePattern output then [LabelsUpdated] else [] | _ => [] end)
  ++ map (λ m, PRCreated (number (group 1 m))) (FindAll prCreatedPattern output)
  ++ map (λ m, BranchPushed (normalizeClaimToken (group 1 m))) (FindAll branchPushedPattern output)
  ++ map (λ m, FileCreated (normalizeClaimToken (group 1 m))) (FindAll fileCreatedPattern output)
  ++ map (λ m, Committed (normalizeClaimToken (firstNonEmpty [group 1 m; group 2 m; group 3 m]))) (FindAll commitPattern output).

(** ** Checks *)

Record GHComment := mkGHComment { gc_Author : string; gc_CreatedAt : option Z }.
(** An answer or the text of an error; git's output comes with an error too. *)
Record GHWorld := mkGHWorld {
  gw_login : string + string;
  gw_prComments : Z → list GHComment + string;
  gw_issueComments : Z → list GHComment + string;
  gw_labels : list string + string;
  gw_pr : Z → (string * string) + string;
  gw_lsRemote : string → string + string;
  gw_lastFiles : string + string;
  gw_lastCommit : string + string;
  gw_now : Z
}.
(** A time that is zero is absent. *)
Record VerificationInput := mkVInput { vi_Output : string; vi_StartedAt : option Z; vi_EndedAt : option Z }.

Definition commentTimestampSkew : Z := 2 * 60 * second.
Definition commentWithinRunWindow (createdAt : option Z) (input : VerificationInput) (now : Z) : bool :=
  match createdAt with
  | None => false
  | Some t =>
      let end_ := default now (vi_EndedAt input) in
      let start := default (end_ - 30 * 60 * second) (vi_StartedAt input) in
      (start - commentTimestampSkew <=? t) && (t <=? end_ + commentTimestampSkew)
  end.

Section checks.
Context (W : GHWorld) (input : VerificationInput).

(** [verifyCommentOnPR] and [verifyCommentOnIssue]. *)
Definition verifyComment (typ claim where_ : string) (comments : list GHComment + string) : ClaimCheck :=
  match gw_login W with
  | inr e => mkCheck typ claim e false
  | inl login =>
      match comments with
      | inr e => mkCheck typ claim e false
      | inl cs =>
          match last cs with
          | None => mkCheck typ claim ("no comments on " +:+ where_) false
          | Some c =>
              let at_ := match gc_CreatedAt c with Some t => RFC3339 t | None => "0001-01-01T00:00:00Z" end in
              if nonempty (TrimSpace login) && negb (bool_decide (gc_Author c = TrimSpace login))
              then mkCheck typ claim (cat ["most recent comment author is "; gc_Author c; ", expected "; TrimSpace login]) false
              else if negb (commentWithinRunWindow (gc_CreatedAt c) input (gw_now W))
              then mkCheck typ claim (cat ["most recent comment by "; gc_Author c; " is outside this run window ("; at_; ")"]) false
              else mkCheck typ claim (cat ["recent comment by "; gc_Author c; " at "; at_]) true
          end
      end
  end.
Definition verifyCommentOnPR (n : Z) : ClaimCheck :=
  verifyComment ClaimCommentPR ("posted comment on PR #" +:+ itoa n) "PR" (gw_prComments W n).
Definition verifyCommentOnIssue (n : Z) : ClaimCheck :=
  verifyComment ClaimCommentIssue ("posted comment on issue #" +:+ itoa n) "issue" (gw_issueComments W n).

Definition verifyLabelPresent (label : string) : ClaimCheck :=
  let claim := "added " +:+ label in
  match gw_labels W with
  | inr e => mkCheck ClaimLabels claim e false
  | inl ls => if bool_decide (label ∈ ls) then mkCheck ClaimLabels claim ("label present: " +:+ label) true
              else mkCheck ClaimLabels claim ("label not found in current labels: " +:+ join_str ", " ls) false
  end.
Definition verifyLabelAbsent (label : string) : ClaimCheck :=
  let claim := "removed " +:+ label in
  match gw_labels W with
  | inr e => mkCheck ClaimLabels claim e false
  | inl ls => if bool_decide (label ∈ ls) then mkCheck ClaimLabels claim ("label still present: " +:+ label) false
              else mkCheck ClaimLabels claim ("label absent: " +:+ label) true
  end.
Definition verifyLabelsGeneric : ClaimCheck :=
  let claim := "updated labels" in
  match gw_labels W with
  | inr e => mkCheck ClaimLabels claim e false
  | inl ls => mkCheck ClaimLabels claim
                (cat ["current labels: "; match ls with [] => "none" | _ => join_str ", " ls end;
                      "; generic label update claim does not specify an intended label set"]) false
  end.
Definition verifyPRCreated (n : Z) : ClaimCheck :=
  let claim := "created PR #" +:+ itoa n in
  match gw_pr W n with
  | inr e => mkCheck ClaimPRCreated claim e false
  | inl (state, head) =>
      if negb (bool_decide (state = "OPEN")) && negb (bool_decide (state = "open"))
      then mkCheck ClaimPRCreated claim ("PR state is " +:+ state) false
      else mkCheck ClaimPRCreated claim (cat ["PR exists, state="; state; ", branch="; head]) true
  end.
Definition verifyBranchPushed (branch : string) : ClaimCheck :=
  let claim := "pushed branch " +:+ branch in
  match gw_lsRemote W branch with
  | inr out => mkCheck ClaimBranchPushed claim ("git error: " +:+ out) false
  | inl out =>
      let out := TrimSpace out in
      if nonempty out then mkCheck ClaimBranchPushed claim ("branch exists on origin at " +:+ default EmptyString (head (Fields out))) true
      else mkCheck ClaimBranchPushed claim "branch not found on origin" false
  end.
Definition verifyFileCreated (path : string) : ClaimCheck :=
  let claim := "created file " +:+ path in
  match gw_lastFiles W with
  | inr out => mkCheck ClaimFileCreated claim ("git error: " +:+ out) false
  | inl out =>
      if existsb (λ f, bool_decide (TrimSpace f = path)) (Split (chr 10) out)
      then mkCheck ClaimFileCreated claim ("file found in last commit: " +:+ path) true
      else mkCheck ClaimFileCreated claim "file not in last commit" false
  end.
Definition commitClaimMatches (claim sha subject : string) : bool :=
  let claim := TrimSpace claim in
  nonempty claim && (HasPrefix (ToLower sha) (ToLower claim) || Contains (ToLower subject) (ToLower claim)).
Definition shortSHA (sha : string) : string := if (12 <? String.length sha)%nat then take_str 12 sha else sha.
Definition verifyCommitClaim (claimText : string) : ClaimCheck :=
  let claim := "committed " +:+ claimText in
  match gw_lastCommit W with
  | inr out => mkCheck ClaimCommit claim ("git error: " +:+ out) false
  | inl out =>
      let lines := Split (chr 10) (TrimSpace out) in
      let sha := TrimSpace (default EmptyString (lines !! 0%nat)) in
      let subject := TrimSpace (default EmptyString (lines !! 1%nat)) in
      if negb (nonempty sha) then mkCheck ClaimCommit claim "no commit found" false
      else if commitClaimMatches claimText sha subject
      then mkCheck ClaimCommit claim (cat ["latest commit "; shortSHA sha; " "; Quote subject]) true
      else mkCheck ClaimCommit claim (cat ["latest commit is "; shortSHA sha; " "; Quote subject]) false
  end.

Definition check_claim (c : Claim) : ClaimCheck :=
  match c with
  | CommentOnPR n => verifyCommentOnPR n
  | CommentOnIssue n => verifyCommentOnIssue n
  | LabelAdded l => verifyLabelPresent l
  | LabelRemoved l => verifyLabelAbsent l
  | LabelsUpdated => verifyLabelsGeneric
  | PRCreated n => verifyPRCreated n
  | BranchPushed b => verifyBranchPushed b
  | FileCreated f => verifyFileCreated f
  | Committed w => verifyCommitClaim w
  end.
Definition VerifyClaims : VerificationResult :=
  let output := TrimSpace (vi_Output input) in
  if bool_decide (TrimSpace output = EmptyString) then mkVerification false []
  else
    let checks := map check_claim (claims_of (vi_Output input)) in
    mkVerification (existsb (λ c, negb (cc_OK c)) checks) checks.
End checks.

(** ** What is confirmed *)

(** The newest of the comments is the bot's and falls into the run. *)
Definition fresh_comment (W : GHWorld) (input : VerificationInput) (comments : list GHComment + string) : Prop :=
  ∃ login cs c t, gw_login W = inl login ∧ comments = inl cs ∧ last cs = Some c ∧ gc_CreatedAt c = Some t ∧
    (TrimSpace login = EmptyString ∨ gc_Author c = TrimSpace login) ∧
    let end_ := default (gw_now W) (vi_EndedAt input) in
    default (end_ - 30 * 60 * second) (vi_StartedAt input) - commentTimestampSkew ≤ t ≤ end_ + commentTimestampSkew.

Definition confirmed (W : GHWorld) (input : VerificationInput) (c : Claim) : Prop :=
  match c with
  | CommentOnPR n => fresh_comment W input (gw_prComments W n)
  | CommentOnIssue n => fresh_comment W input (gw_issueComments W n)
  | LabelAdded l => ∃ ls, gw_labels W = inl ls ∧ l ∈ ls
  | LabelRemoved l => ∃ ls, gw_labels W = inl ls ∧ l ∉ ls
  | LabelsUpdated => False
  | PRCreated n => ∃ state head, gw_pr W n = inl (state, head) ∧ (state = "OPEN" ∨ state = "open")
  | BranchPushed b => ∃ out, gw_lsRemote W b = inl out ∧ TrimSpace out ≠ EmptyString
  | FileCreated f => ∃ out line, gw_lastFiles W = inl out ∧ line ∈ Split (chr 10) out ∧ TrimSpace line = f
  | Committed w => ∃ out, gw_lastCommit W = inl out ∧
      let lines := Split (chr 10) (TrimSpace out) in
      let sha := TrimSpace (default EmptyString (lines !! 0%nat)) in
      sha ≠ EmptyString ∧ TrimSpace w ≠ EmptyString ∧
      (HasPrefix (ToLower sha) (ToLower (TrimSpace w)) = true ∨
       Contains (ToLower (TrimSpace (default EmptyString (lines !! 1%nat)))) (ToLower (TrimSpace w)) = true)
  end.

Lemma nonempty_true s : nonempty s = true ↔ s ≠ EmptyString.
Proof. unfold nonempty. by rewrite negb_true_iff, bool_decide_eq_false. Qed.
Lemma window_spec t input now :
  commentWithinRunWindow t input now = true ↔
  ∃ t', t = Some t' ∧ let end_ := default now (vi_EndedAt input) in
    default (end_ - 30 * 60 * second) (vi_StartedAt input) - commentTimestampSkew ≤ t' ≤ end_ + commentTimestampSkew.
Proof.
  unfold commentWithinRunWindow. destruct t as [t|]; [|split; [done|by intros (? & ? & _)]].
  rewrite andb_true_iff, !Z.leb_le. split; [by eauto|by intros (? & [= <-] & ?)].
Qed.
Lemma comment_spec W input typ claim where_ comments :
  cc_OK (verifyComment W input typ claim where_ comments) = true ↔ fresh_comment W input comments.
Proof.
  unfold verifyComment, fresh_comment.
  destruct (gw_login W) as [login|e]; [|by split; [|intros (? & ? & ? & ? & ? & _)]].
  destruct comments as [cs|e]; [|by split; [|intros (? & ? & ? & ? & ? & ? & _)]].
  destruct (last cs) as [c|] eqn:El; [|by split; [|intros (? & ? & ? & ? & ? & [= <-] & ? & _); congruence]].
  destruct (nonempty (TrimSpace login) && negb (bool_decide (gc_Author c = TrimSpace login))) eqn:Ea.
  { apply andb_true_iff in Ea as [Hn Ha]. apply nonempty_true in Hn. apply negb_true_iff, bool_decide_eq_false in Ha.
    split; [done|]. intros (login' & cs' & c' & t & [= <-] & [= <-] & Hl & _ & [?|?] & _); congruence. }
  assert (TrimSpace login = EmptyString ∨ gc_Author c = TrimSpace login) as Ha.
  { apply andb_false_iff in Ea as [Hn|Ha]; [left|right].
    - destruct (decide (TrimSpace login = EmptyString)) as [|Hne]; [done|]. apply nonempty_true in Hne. congruence.
    - by apply negb_false_iff, bool_decide_eq_true in Ha. }
  destruct (commentWithinRunWindow (gc_CreatedAt c) input (gw_now W)) eqn:Ew; cbn [negb cc_OK]; split; try done.
  - intros _. apply window_spec in Ew as (t & Ht & Hw). by exists login, cs, c, t.
  - intros (login' & cs' & c' & t & [= <-] & [= <-] & Hl & Ht & _ & Hw). assert (c' = c) as -> by congruence.
    exfalso. apply not_true_iff_false in Ew. apply Ew, window_spec. eauto.
Qed.
Lemma commit_spec W w : cc_OK (verifyCommitClaim W w) = true ↔ confirmed W (mkVInput EmptyString None None) (Committed w).
Proof.
  unfold verifyCommitClaim. cbn [confirmed]. destruct (gw_lastCommit W) as [out|e]; [|by split; [|intros (? & ? & _)]]. cbv zeta.
  set (sha := TrimSpace (default _ (_ !! 0%nat))). set (subject := TrimSpace (default _ (_ !! 1%nat))).
  destruct (nonempty sha) eqn:Es; cbn [negb].
  2: { split; [done|]. intros (out' & [= <-] & Hs & _). apply nonempty_true in Hs. unfold sha in Es. congruence. }
  apply nonempty_true in Es. unfold commitClaimMatches.
  destruct (nonempty (TrimSpace w)) eqn:Ew; cbn [andb].
  - apply nonempty_true in Ew. destruct (_ || _) eqn:Em; cbn [cc_OK]; split; try done.
    + intros _. exists out. apply orb_true_iff in Em. by split_and!.
    + intros (out' & [= <-] & _ & _ & Hm). apply orb_false_iff in Em as [H1 H2]. unfold sha, subject in *. destruct Hm; congruence.
  - split; [done|]. intros (out' & _ & _ & Hw & _). apply nonempty_true in Hw. congruence.
Qed.
Lemma check_claim_spec W input c : cc_OK (check_claim W input c) = true ↔ confirmed W input c.
Proof.
  destruct c as [n|n|l|l| |n|b|f|w]; cbn [check_claim].
  - apply comment_spec.
  - apply comment_spec.
  - unfold verifyLabelPresent. cbn [confirmed]. destruct (gw_labels W) as [ls|e]; [|by split; [|intros (? & ? & _)]].
    case_bool_decide; cbn; split; try done; [by eauto|by intros (? & [= <-] & ?)].
  - unfold verifyLabelAbsent. cbn [confirmed]. destruct (gw_labels W) as [ls|e]; [|by split; [|intros (? & ? & _)]].
    case_bool_decide; cbn; split; try done; [by intros (? & [= <-] & ?)|by eauto].
  - unfold verifyLabelsGeneric. by destruct (gw_labels W).
  - unfold verifyPRCreated. cbn [confirmed]. destruct (gw_pr W n) as [[st hd]|e]; [|by split; [|intros (? & ? & ? & _)]].
    split.
    + intros H. exists st, hd. split; [done|]. revert H. do 2 case_bool_decide; cbn; auto; done.
    + by intros (? & ? & [= <- <-] & [-> | ->]).
  - unfold verifyBranchPushed. cbn [confirmed]. destruct (gw_lsRemote W b) as [out|e]; [|by split; [|intros (? & ? & _)]].
    destruct (nonempty (TrimSpace out)) eqn:E; cbn; split; try done; [apply nonempty_true in E; eauto|].
    intros (? & [= <-] & H). apply nonempty_true in H. congruence.
  - unfold verifyFileCreated. cbn [confirmed]. destruct (gw_lastFiles W) as [out|e]; [|by split; [|intros (? & ? & ? & _)]].
    destruct (existsb _ _) eqn:E; cbn; split; try done.
    + intros _. apply existsb_exists in E as (line & Hin & Hl%bool_decide_eq_true). exists out, line. split_and!; [done|by apply list_elem_of_In|done].
    + intros (? & line & [= <-] & Hin & Hl). apply not_true_iff_false in E. exfalso. apply E, existsb_exists. exists line.
      split; [by apply list_elem_of_In|by apply bool_decide_eq_true].
  - apply commit_spec.
Qed.

(** The expressions that are searched for. *)
Definition claim_patterns : list re :=
  [commentOnPRPattern; commentOnIssuePattern; labelAddedPattern; labelRemovedPattern; labelUpdatePattern;
   prCreatedPattern; branchPushedPattern; fileCreatedPattern; commitPattern].

(** What a text says was done: a claim for every match of its pattern, and the claim that
    labels were changed when no match says which. *)
Definition match_of (r : re) (o : string) (m : captures) : Prop := ∃ ms, found r None o ms ∧ m ∈ ms.
Definition stated (o : string) (c : Claim) : Prop :=
  match c with
  | CommentOnPR n => ∃ m, match_of commentOnPRPattern o m ∧ n = number (group 1 m)
  | CommentOnIssue n => ∃ m, match_of commentOnIssuePattern o m ∧ n = number (group 1 m)
  | LabelAdded l => ∃ m, match_of labelAddedPattern o m ∧ l = "status:" +:+ group 1 m
  | LabelRemoved l => ∃ m, match_of labelRemovedPattern o m ∧ l = "status:" +:+ group 1 m
  | LabelsUpdated => occurs labelUpdatePattern None o ∧ ¬ occurs labelAddedPattern None o ∧ ¬ occurs labelRemovedPattern None o
  | PRCreated n => ∃ m, match_of prCreatedPattern o m ∧ n = number (group 1 m)
  | BranchPushed b => ∃ m, match_of branchPushedPattern o m ∧ b = normalizeClaimToken (group 1 m)
  | FileCreated f => ∃ m, match_of fileCreatedPattern o m ∧ f = normalizeClaimToken (group 1 m)
  | Committed w => ∃ m, match_of commitPattern o m ∧ w = normalizeClaimToken (firstNonEmpty [group 1 m; group 2 m; group 3 m])
  end.

Lemma match_of_iff r o m : consumes r = true → match_of r o m ↔ m ∈ FindAll r o.
Proof.
  intros Hc. split; [|by eexists; split; [apply FindAll_found|]].
  intros (ms & Hf & Hm). by rewrite <-(found_unique _ _ _ _ _ Hf (FindAll_found r o Hc)).
Qed.
Lemma elem_of_map_matches {A} (f : captures → A) r o c :
  consumes r = true → c ∈ map f (FindAll r o) ↔ ∃ m, match_of r o m ∧ c = f m.
Proof.
  intros Hc. rewrite list_elem_of_In, in_map_iff. split.
  - intros (m & <- & Hm%list_elem_of_In). exists m. by rewrite match_of_iff.
  - intros (m & Hm%(match_of_iff _ _ _ Hc)%list_elem_of_In & ->). eauto.
Qed.
Lemma no_matches {A} (f : captures → A) r o : map f (FindAll r o) = [] ↔ ¬ occurs r None o.
Proof. rewrite <-FindAll_iff. destruct (FindAll r o); cbn; split; [by intros _ []|done|done|by intros []]. Qed.

Section claims.
Context (output : string).
Let o := TrimSpace output.
Definition label_claims : list Claim :=
  map (λ m, LabelAdded ("status:" +:+ group 1 m)) (FindAll labelAddedPattern o)
  ++ map (λ m, LabelRemoved ("status:" +:+ group 1 m)) (FindAll labelRemovedPattern o).
Lemma label_claims_nil : label_claims = [] ↔ ¬ occurs labelAddedPattern None o ∧ ¬ occurs labelRemovedPattern None o.
Proof. unfold label_claims. by rewrite app_nil, !no_matches. Qed.
Lemma generic_claim c :
  c ∈ match label_claims with [] => if MatchString labelUpdatePattern o then [LabelsUpdated] else [] | _ => [] end ↔
  c = LabelsUpdated ∧ stated o LabelsUpdated.
Proof.
  cbn [stated]. rewrite <-label_claims_nil, <-MatchString_iff. destruct label_claims; [destruct (MatchString _ _)|]; set_solver.
Qed.
(** The claims that are extracted are those that are stated. *)
Lemma claims_stated c : c ∈ claims_of output ↔ stated o c.
Proof.
  unfold claims_of. fold o. fold label_claims. rewrite !elem_of_app, generic_claim. unfold label_claims. rewrite !elem_of_app, !elem_of_map_matches by by vm_compute.
  destruct c; cbn [stated]; naive_solver.
Qed.
Lemma claims_none : claims_of output = [] ↔ ∀ r, r ∈ claim_patterns → ¬ occurs r None o.
Proof.
  unfold claims_of. fold o. fold label_claims. rewrite !app_nil, !no_matches, label_claims_nil.
  assert (Hu : ¬ occurs labelAddedPattern None o ∧ ¬ occurs labelRemovedPattern None o →
    (match label_claims with [] => if MatchString labelUpdatePattern o then [LabelsUpdated] else [] | _ => [] end = [] ↔ ¬ occurs labelUpdatePattern None o)).
  { intros ->%label_claims_nil. rewrite <-MatchString_iff. by destruct (MatchString _ o). }
  split.
  - intros (H1 & H2 & [H3 H4] & H5 & H6 & H7 & H8 & H9) r Hr. rewrite Hu in H5 by done.
    repeat (apply elem_of_cons in Hr as [->|Hr]; [assumption|]). by apply elem_of_nil in Hr.
  - intros H. rewrite Hu by (split; apply H; unfold claim_patterns; set_solver). split_and!; apply H; unfold claim_patterns; set_solver.
Qed.
End claims.

(** C23: A run is partial exactly when its last message states something that GitHub and
    git do not confirm.  What it states is read off every match of every pattern, taken from
    left to right without overlap, and exactly these claims are checked; there is none
    exactly when no pattern occurs anywhere in the message. *)
Theorem verification_matches_the_world W input :
  let o := TrimSpace (vi_Output input) in
  (vr_Partial (VerifyClaims W input) = true ↔ ∃ c, stated o c ∧ ¬ confirmed W input c) ∧
  ∃ cs, vr_Checks (VerifyClaims W input) = map (check_claim W input) cs ∧
    (∀ c, c ∈ cs ↔ stated o c) ∧ (cs = [] ↔ ∀ r, r ∈ claim_patterns → ¬ occurs r None o).
Proof.
  cbv zeta. assert (Hblank : TrimSpace (TrimSpace (vi_Output input)) = EmptyString → claims_of (vi_Output input) = []).
  { rewrite TrimSpace_idem. unfold claims_of. intros ->. by vm_compute. }
  assert (Hall : vr_Checks (VerifyClaims W input) = map (check_claim W input) (claims_of (vi_Output input)) ∧
                 vr_Partial (VerifyClaims W input) = existsb (λ c, negb (cc_OK c)) (map (check_claim W input) (claims_of (vi_Output input)))).
  { unfold VerifyClaims. case_bool_decide as Hb; [by rewrite (Hblank Hb)|done]. }
  destruct Hall as [Hc Hp]. split.
  - rewrite Hp, existsb_exists. split.
    + intros (x & (c & <- & Hin)%in_map_iff & Hx). exists c. rewrite <-claims_stated, <-check_claim_spec. split; [by apply list_elem_of_In|]. by destruct (cc_OK _).
    + intros (c & Hin%claims_stated & Hn). exists (check_claim W input c). split; [apply in_map; by apply list_elem_of_In|].
      rewrite <-check_claim_spec in Hn. by destruct (cc_OK _).
  - eexists. split; [exact Hc|]. split; [intros c; apply claims_stated|apply claims_none].
Qed.

(** The patterns do not see a denial: a message that says what was not done makes the
    claim. *)
Theorem denial_is_a_claim : claims_of "I have not posted a comment on PR #5." = [CommentOnPR 5].
Proof. by vm_compute. Qed.
