(* ===== verification/Reporter.v ===== *)
(** * The reporter

    [internal/reporter/reporter.go]: every comment goes through a writer with retries
    on rate limits; a report of a run picks its status, falls back to a short comment
    with an artifact in the repository when it is too large, and repeated launcher
    errors of one agent on one issue are edited into the first comment instead of
    being posted again.

    Every call to something outside is an entry of the trace, and its answer is an
    arbitrary function of the trace so far, as are the clock and the cancellation of
    the context.  The bodies are those of [ReportFormat]. *)

From S2P Require Import Prelude GoLib Json GoText GoFormat Types Dependency Worker ReportFormat.
From Stdlib Require Import Ascii.

Definition maxCommentBodyBytes : nat := Z.to_nat 60000.
Definition overflowReportsDir : string := "scripts/review-reports".
Definition infraDedupTTL : Z := 30 * 60 * second.
(** As many as the limit of retries. *)
Definition rateLimitRetryDelays : list Z := [30 * second; 60 * second; 90 * second].

Definition infraDedupKey : Type := string * Z * string.
Record infraDedupState := mkDedup {
  dd_commentID : Z; dd_reason : string; dd_count : Z; dd_firstSeen : Z; dd_lastSeen : Z
}.

Inductive LogEntry :=
  | LReport (source : string)
  | LRateLimit (source err : string)
  | LOverflow (body_bytes : nat) (committed : bool) (artifact_url : string) (commit_error : option string)
  | LVerifyError (err : string).

Inductive RCall :=
  | PWrite (repo : string) (issue : Z) (body : string) (err : option string)
  | PWriteID (repo : string) (issue : Z) (body : string) (r : Z + string)
  | PEdit (repo : string) (id : Z) (body : string) (err : option string)
  | PSleep (d : Z)
  | PVerify (repo : string) (issue : Z) (output : string) (started ended : Z)
  | PGit (step : string) (args : list string)
  | PTrail (repo : string) (issue : Z)
  | PLog (repo : string) (issue : Z) (e : LogEntry).

Record Rep := mkRep { rp_trace : list RCall; rp_dedup : gmap infraDedupKey infraDedupState }.

(** [en_editor]: the writer can edit comments; [en_git]: the output or the error of a
    step of the artifact's commit. *)
Record REnv := mkREnv {
  en_editor : bool;
  en_eventlog : bool;
  en_baseURL : string;
  en_write : list RCall → option string;
  en_writeID : list RCall → Z + string;
  en_edit : list RCall → option string;
  en_verifier : option (list RCall → option VerificationResult + string);
  en_git : list RCall → string + string;
  en_trail : option (list RCall → list CycleRejectionEntry * string * string + string);
  en_cancelled : list RCall → bool;
  en_now : list RCall → Z
}.

(** ** Texts *)

Definition infraRepeatBadge (count firstSeen lastSeen : Z) : string :=
  cat [":repeat: **Repeat #"; itoa count; "** (first seen "; RFC3339 firstSeen; ", last seen "; RFC3339 lastSeen; ")"; LF; LF].

Definition reportOutput (r : RunResult) : string := TrimSpace (rn_LastMessage r).

(** The longest prefix of at most [cut] bytes that is valid UTF-8. *)
Fixpoint valid_cut (cut : nat) (value : string) : nat :=
  match cut with
  | O => O
  | S n => if valid_utf8 (take_str cut value) then cut else valid_cut n value
  end.
Definition utf8Prefix (value : string) (maxBytes : nat) : string :=
  if (maxBytes =? 0)%nat || bool_decide (value = EmptyString) then EmptyString
  else if (String.length value <=? maxBytes)%nat then value
  else take_str (valid_cut maxBytes value) value.

Definition truncateReport (body artifactURL : string) (now : Z) : string :=
  let short := utf8Prefix body 2000 in
  let idx := LastIndexByte short (chr 10) in
  let short := if 0 <? idx then take_str (Z.to_nat idx) short else short in
  cat [short; LF; LF; "> :warning: **Report truncated due to size limit.**"; LF; LF;
       if nonempty artifactURL then cat ["[View full report]("; artifactURL; ")"; LF; LF]
       else cat ["*(Full report could not be committed to branch.)*"; LF; LF];
       "---"; LF; "*workbuddy coordinator | "; RFC3339 now; "*"].

(** [unicode_lower] is the lower case of a letter or digit outside ASCII. *)
Section sanitize.
Context (unicode_lower : N → option N).

Definition artifact_rune (r : N) : option string :=
  if (r <? 128)%N then
    let c := chr r in
    if byte_in c 65 90 then Some (str1 (chr (r + 32)))
    else if byte_in c 97 122 || byte_in c 48 57 then Some (str1 c)
    else if byte_is c 45 || byte_is c 95 || byte_is c 46 then Some (str1 c)
    else None
  else utf8_encode <$> unicode_lower r.
(** [acc] is what the builder holds, [lastDash] whether a dash was just inserted. *)
Fixpoint sanitize_runes (fuel : nat) (s acc : string) (lastDash : bool) : string :=
  match fuel, s with
  | S fuel, String _ _ =>
      let '(r, n) := decode_rune s in
      match artifact_rune r with
      | Some t => sanitize_runes fuel (drop_str n s) (acc +:+ t) false
      | None => if negb lastDash && nonempty acc then sanitize_runes fuel (drop_str n s) (acc +:+ "-") true
                else sanitize_runes fuel (drop_str n s) acc lastDash
      end
  | _, _ => acc
  end.
Definition sanitizeArtifactComponent (value : string) : string :=
  let value := TrimSpace value in
  if bool_decide (value = EmptyString) then "agent"
  else
    let sanitized := TrimByte "-" (sanitize_runes (String.length value) value EmptyString false) in
    if nonempty sanitized then sanitized else "agent".
Definition artifact_name (issueNum : Z) (agentName : string) (now : Z) : string :=
  cat ["issue-"; itoa issueNum; "-"; sanitizeArtifactComponent agentName; "-"; itoa (now / second); ".md"].
End sanitize.

(** ** The verdict of a run *)

(** Status, error detail and infra reason, before the claims are verified. *)
Definition run_status (r : RunResult) : string :=
  if IsInfraFailure (Some r) then "infra-error"
  else if bool_decide (meta r "retry_limit" = "true") then "retry-limit"
  else if bool_decide (meta r "timeout" = "true") then "timeout"
  else if rn_ExitCode r =? 0 then "success" else "failure".
Definition run_error (r : RunResult) : string :=
  when (negb (rn_ExitCode r =? 0) || IsInfraFailure (Some r)) (rn_Stderr r).
Definition infra_reason (r : RunResult) : string := when (IsInfraFailure (Some r)) (meta r MetaInfraFailureReason).

Definition failed_claims (cs : list ClaimCheck) : string :=
  cat ("Claim verification failed:" :: LF ::
       map (λ c, cat ["- "; cc_Type c; ": claimed "; Quote (cc_Claim c); ", actual "; Quote (cc_Actual c); LF]) (List.filter (λ c, negb (cc_OK c)) cs)).
Definition report_text (r : RunResult) : string :=
  let output := reportOutput r in
  let output := if nonempty output then output else rn_Stderr r in
  let reason := meta r "agentm_failure_reason" in
  if nonempty reason then (if nonempty output then cat [output; LF; LF; "Failure reason: "; reason] else reason) else output.

Section reporter.
Context (E : REnv) (unicode_lower : N → option N).

Definition rcall (c : RCall) : St Rep unit := modS (λ s, mkRep (rp_trace s ++ [c]) (rp_dedup s)).
(** A call, its answer and the entry it leaves. *)
Definition ask {A} (f : list RCall → A) (c : A → RCall) : St Rep A :=
  λ s, let a := f (rp_trace s) in (a, mkRep (rp_trace s ++ [c a]) (rp_dedup s)).
Definition at_now : St Rep Z := getsS (λ s, en_now E (rp_trace s)).
Definition event_log (repo : string) (issueNum : Z) (e : LogEntry) : St Rep unit :=
  if en_eventlog E then rcall (PLog repo issueNum e) else mret tt.

Definition logRateLimit (source repo : string) (issueNum : Z) (err : string) : St Rep unit :=
  event_log repo issueNum (LRateLimit source (RedactTokens err)).

(** The wait ends with the context too: the next attempt finds it cancelled. *)
Fixpoint retry_loop (repo : string) (issueNum : Z) (source : string) (writeFn : St Rep (option string)) (delays : list Z) :
    St Rep (option error) :=
  cancelled ← getsS (λ s, en_cancelled E (rp_trace s));
  if (cancelled : bool) then mret (Some ErrContext)
  else
    err ← writeFn;
    match err with
    | None => event_log repo issueNum (LReport source);; mret None
    | Some e =>
        if negb (IsRateLimit e) then mret (Some (EMsg e))
        else
          logRateLimit source repo issueNum e;;
          match delays with
          | [] => mret (Some (EMsg e))
          | d :: delays => rcall (PSleep d);; retry_loop repo issueNum source writeFn delays
          end
    end.
Definition writeWithRateLimitRetry (repo : string) (issueNum : Z) (source : string) (writeFn : St Rep (option string)) : St Rep (option error) :=
  retry_loop repo issueNum source writeFn rateLimitRetryDelays.

Definition WriteComment (repo : string) (issueNum : Z) (body : string) : St Rep (option string) :=
  ask (en_write E) (PWrite repo issueNum body).
Definition post (repo : string) (issueNum : Z) (source body : string) : St Rep (option error) :=
  writeWithRateLimitRetry repo issueNum source (WriteComment repo issueNum body).

(** ** Repeated launcher errors *)

Definition clearInfraDedup (repo : string) (issueNum : Z) (agent : string) : St Rep unit :=
  modS (λ s, mkRep (rp_trace s) (delete (repo, issueNum, agent) (rp_dedup s))).

(** The entry that a report with this reason repeats. *)
Definition live_entry (key : infraDedupKey) (reason : string) (now : Z) (d : gmap infraDedupKey infraDedupState) : option infraDedupState :=
  st ← d !! key;
  if (dd_commentID st =? 0) || negb (bool_decide (dd_reason st = reason)) || (infraDedupTTL <? now - dd_lastSeen st) then None else Some st.

(** [Some] when the report was handled. *)
Definition tryDedupInfraComment (repo : string) (issueNum : Z) (agent reason body : string) : St Rep (option (option error)) :=
  if negb (en_editor E) then mret None
  else
    now ← at_now;
    entry ← getsS (λ s, live_entry (repo, issueNum, agent) reason now (rp_dedup s));
    match entry with
    | None => mret None
    | Some st =>
        let st := mkDedup (dd_commentID st) (dd_reason st) (dd_count st + 1) (dd_firstSeen st) now in
        modS (λ s, mkRep (rp_trace s) (<[(repo, issueNum, agent) := st]> (rp_dedup s)));;
        let editedBody := infraRepeatBadge (dd_count st) (dd_firstSeen st) (dd_lastSeen st) +:+ body in
        err ← writeWithRateLimitRetry repo issueNum "report_dedup" (ask (en_edit E) (PEdit repo (dd_commentID st) editedBody));
        mret (Some err)
    end.

Definition writeAndRecordInfraComment (repo : string) (issueNum : Z) (agent reason body : string) : St Rep (option string) :=
  if negb (en_editor E) then WriteComment repo issueNum body
  else
    r ← ask (en_writeID E) (PWriteID repo issueNum body);
    match r with
    | inr e => mret (Some e)
    | inl id =>
        now ← at_now;
        modS (λ s, mkRep (rp_trace s) (<[(repo, issueNum, agent) := mkDedup id reason 1 now now]> (rp_dedup s)));;
        mret None
    end.

(** ** Reports that are too large *)

Definition git_step (step : string) (args : list string) : St Rep (string + string) := ask (en_git E) (λ _, PGit step args).
Definition commitOverflowArtifact (workDir repo : string) (issueNum : Z) (agentName body : string) : St Rep (string + string) :=
  r ← git_step "stat" [workDir +:+ "/.git"];
  match r with inr e => mret (inr ("not a git repository: " +:+ e)) | inl _ =>
  r ← git_step "branch" ["--show-current"];
  match r with inr e => mret (inr ("determine branch: " +:+ e)) | inl out =>
  let branch := TrimSpace out in
  if bool_decide (branch = EmptyString) then mret (inr "determine branch: empty branch name") else
  r ← git_step "mkdir" [workDir +:+ "/" +:+ overflowReportsDir];
  match r with inr e => mret (inr ("mkdir: " +:+ e)) | inl _ =>
  now ← at_now;
  let filename := artifact_name unicode_lower issueNum agentName now in
  let path := workDir +:+ "/" +:+ overflowReportsDir +:+ "/" +:+ filename in
  r ← git_step "write" [path; body];
  match r with inr e => mret (inr ("write file: " +:+ e)) | inl _ =>
  r ← git_step "add" [path];
  match r with inr e => mret (inr ("git add: " +:+ e)) | inl _ =>
  r ← git_step "commit" ["workbuddy: overflow report for issue #" +:+ itoa issueNum];
  match (match r with inr e => if Contains e "nothing to commit" then None else Some e | inl _ => None end) with
  | Some e => mret (inr ("git commit: " +:+ e))
  | None =>
  r ← git_step "push" ["origin"; branch];
  match r with inr e => mret (inr ("git push: " +:+ e)) | inl _ =>
  mret (inl (cat ["https://github.com/"; repo; "/blob/"; branch; "/"; overflowReportsDir; "/"; filename]))
  end end end end end end end.

Definition reportWithOverflow (repo : string) (issueNum : Z) (agentName body workDir : string) : St Rep (option error) :=
  r ← (if bool_decide (workDir = EmptyString) then mret (inl EmptyString)
       else commitOverflowArtifact workDir repo issueNum agentName body);
  let url := match r with inl u => u | inr _ => EmptyString end in
  let commitErr := match r with inl _ => None | inr e => Some e end in
  event_log repo issueNum (LOverflow (String.length body) (bool_decide (commitErr = None) && nonempty url) url commitErr);;
  now ← at_now;
  post repo issueNum "report" (truncateReport body url now).

(** ** Reports *)

Definition verify_call (repo : string) (issueNum : Z) (r : RunResult) (f : list RCall → option VerificationResult + string) :
    St Rep (option VerificationResult + string) :=
  now ← at_now;
  ask f (λ _, PVerify repo issueNum (reportOutput r) (now - rn_Duration r) now).

Definition Verify (repo : string) (issueNum : Z) (result : option RunResult) : St Rep (option VerificationResult + string) :=
  match en_verifier E, result with
  | Some f, Some r => if rn_ExitCode r =? 0 then verify_call repo issueNum r f else mret (inl None)
  | _, _ => mret (inl None)
  end.

(** The claims of a successful run: status, error detail and verification. *)
Definition verified_status (repo : string) (issueNum : Z) (r : RunResult) (v : option VerificationResult) :
    St Rep (string * string * option VerificationResult) :=
  match v, en_verifier E with
  | None, Some f =>
      if bool_decide (run_status r = "success") then
        res ← verify_call repo issueNum r f;
        match res with
        | inr e => event_log repo issueNum (LVerifyError e);; mret ("success", run_error r, None)
        | inl (Some v) =>
            if vr_Partial v then
              mret ("partial", match vr_Checks v with [] => run_error r | cs => failed_claims cs end, Some v)
            else mret ("success", run_error r, Some v)
        | inl None => mret ("success", run_error r, None)
        end
      else mret (run_status r, run_error r, None)
  | _, _ => mret (run_status r, run_error r, v)
  end.

Record ReportInput := mkInput {
  ri_repo : string; ri_issueNum : Z; ri_agentName : string; ri_result : RunResult; ri_sessionID : string; ri_workerID : string;
  ri_retryCount : Z; ri_maxRetries : Z; ri_labelLine : string; ri_workDir : string; ri_syncFailure : option SyncFailure
}.
Definition sessionURL (sessionID workerID : string) : string := BuildURL (en_baseURL E) workerID sessionID.
Definition report_data (i : ReportInput) (status errorDetail : string) (v : option VerificationResult) : ReportData :=
  let r := ri_result i in
  mkReportData (ri_agentName i) status (rn_Duration r) (ri_sessionID i) (ri_workerID i) (ri_retryCount i) (ri_maxRetries i)
    (report_text r) (meta r "pr_url") errorDetail (sessionURL (ri_sessionID i) (ri_workerID i)) (ri_labelLine i) v
    (infra_reason r) (ri_syncFailure i).

(** Posting the body of a report that has the given status. *)
Definition post_report (i : ReportInput) (status body : string) : St Rep (option error) :=
  let repo := ri_repo i in
  let n := ri_issueNum i in
  let agent := ri_agentName i in
  let reason := infra_reason (ri_result i) in
  if (maxCommentBodyBytes <? String.length body)%nat then
    clearInfraDedup repo n agent;;
    reportWithOverflow repo n agent body (ri_workDir i)
  else if bool_decide (status = "infra-error") then
    posted ← tryDedupInfraComment repo n agent reason body;
    match posted with
    | Some err => mret err
    | None => writeWithRateLimitRetry repo n "report" (writeAndRecordInfraComment repo n agent reason body)
    end
  else
    clearInfraDedup repo n agent;;
    post repo n "report" body.

Definition report (i : ReportInput) (verification : option VerificationResult) : St Rep (option VerificationResult * option error) :=
  '(status, detail, v) ← verified_status (ri_repo i) (ri_issueNum i) (ri_result i) verification;
  now ← at_now;
  err ← post_report i status (FormatReportAt (report_data i status detail v) now);
  mret (v, err).
Definition Report (i : ReportInput) : St Rep (option error) := '(_, err) ← report i None; mret err.
Definition ReportVerified (i : ReportInput) (v : option VerificationResult) : St Rep (option error) := '(_, err) ← report i v; mret err.
Definition ReportWithVerification (i : ReportInput) : St Rep (option VerificationResult * option error) := report i None.

(** ** The other comments *)

Definition ReportStarted (repo : string) (issueNum : Z) (agentName sessionID workerID : string) : St Rep (option error) :=
  now ← at_now;
  post repo issueNum "report_started" (FormatStartedReport agentName sessionID workerID (sessionURL sessionID workerID) now).
Definition ReportNeedsHuman (repo : string) (issueNum : Z) (labelLine : string) : St Rep (option error) :=
  now ← at_now; post repo issueNum "needs_human" (FormatNeedsHumanReport labelLine now).
Definition ReportSynthesisNeedsHuman (repo : string) (issueNum : Z) (reason : string) : St Rep (option error) :=
  now ← at_now; post repo issueNum "synthesis_needs_human" (FormatSynthesisNeedsHumanReport reason now).
Definition verdict_body (failureReason : string) : string :=
  cat [reviewVerdictMarker; LF; "## Review Feedback"; LF; LF; failureReason].
Definition PostReviewVerdict (repo : string) (issueNum : Z) (failureReason : string) : St Rep (option error) :=
  if bool_decide (failureReason = EmptyString) then mret None
  else post repo issueNum "review_verdict" (verdict_body failureReason).
Definition ReportDevReviewCycleCap (repo : string) (issueNum : Z) (workflowName : string) (cycleCount maxReviewCycles hitAt : Z) : St Rep (option error) :=
  trail ← match en_trail E with
          | None => mret (inr EmptyString)
          | Some f => ask f (λ _, PTrail repo issueNum)
          end;
  let '(trail, prURL, branch) := match trail with inl t => t | inr _ => ([], EmptyString, EmptyString) end in
  post repo issueNum "dev_review_cycle_cap"
    (FormatCycleCapReport (mkCycleCap workflowName cycleCount maxReviewCycles hitAt trail prURL branch)).
End reporter.
