(* ===== verification/ReporterSpec.v ===== *)
(** * What the reporter promises

    A comment is posted at most once, within bounds; repeated launcher errors share
    one comment; the noise filter of the prompts knows every comment the reporter
    writes and lets its verdicts through. *)

From S2P Require Import Prelude Traces GoLib Json GoText GoFormat Types Dependency Worker ReportFormat Reporter.
From Stdlib Require Import Ascii.

(** ** Attempts *)

(** The target, the text and the outcome of a call that writes a comment. *)
Definition written (c : RCall) : option (string * Z * string) :=
  match c with
  | PWrite repo n b _ => Some (repo, n, b)
  | PWriteID repo n b _ => Some (repo, n, b)
  | PEdit repo id b _ => Some (repo, id, b)
  | _ => None
  end.
Definition outcome (c : RCall) : option (option string) :=
  match c with
  | PWrite _ _ _ e => Some e
  | PWriteID _ _ _ (inl _) => Some None
  | PWriteID _ _ _ (inr e) => Some (Some e)
  | PEdit _ _ _ e => Some e
  | _ => None
  end.
Definition writes (cs : list RCall) : list (option string) := omap outcome cs.
Definition nap (c : RCall) : Z := match c with PSleep d => d | _ => 0 end.
Definition naps (cs : list RCall) : Z := foldr (λ c n, nap c + n) 0 cs.

Lemma writes_app a b : writes (a ++ b) = writes a ++ writes b.
Proof. apply omap_app. Qed.
Lemma naps_app a b : naps (a ++ b) = naps a + naps b.
Proof. induction a as [|c a IH]; [done|]. cbn [app naps foldr]. unfold naps in IH. rewrite IH. unfold naps. lia. Qed.

(** What [n] attempts can come to. *)
Inductive attempts : nat → option error → list (option string) → Prop :=
  | att_cancelled n : attempts n (Some ErrContext) []
  | att_done n : attempts (S n) None [None]
  | att_failed n e : IsRateLimit e = false ∨ n = O → attempts (S n) (Some (EMsg e)) [Some e]
  | att_again n r e ws : IsRateLimit e = true → attempts n r ws → attempts (S n) r (Some e :: ws).

(** At most one write succeeds, the last one, exactly when no error is returned. *)
Lemma attempts_spec n r ws :
  attempts n r ws →
  (length ws ≤ n)%nat ∧ (r = None ↔ last ws = Some None) ∧
  (∀ l1 w l2, ws = l1 ++ w :: l2 → l2 ≠ [] → ∃ e, w = Some e ∧ IsRateLimit e = true).
Proof.
  induction 1 as [n|n|n e He|n r e ws He Ha (IH1 & IH2 & IH3)].
  - split_and!; [simpl; lia|done|]. by intros [|? ?] w l2.
  - split_and!; [simpl; lia|done|]. intros [|? l1] w l2 [= ? ?] Hl; [by subst|by destruct l1].
  - split_and!; [simpl; lia|done|]. intros [|? l1] w l2 [= ? ?] Hl; [by subst|by destruct l1].
  - split_and!; [simpl; lia| |].
    + rewrite IH2. destruct ws as [|w ws]; [done|]. by rewrite last_cons_cons.
    + intros [|? l1] w l2 [= ? Hw] Hl; [subst; eauto|]. by apply (IH3 l1 w l2).
Qed.

Section posting.
Context (E : REnv).

(** Entries that are not writes. *)
Definition quiet (cs : list RCall) : Prop := writes cs = [] ∧ naps cs = 0 ∧ Forall (λ c, written c = None) cs.
Lemma event_log_adds repo n e : adds rp_trace (λ _, quiet) (event_log E repo n e).
Proof.
  unfold event_log. destruct (en_eventlog E); [|apply adds_ret; by repeat constructor].
  intros s. eexists. split; [done|]. by repeat constructor.
Qed.

(** The loop, for a write that leaves one entry. *)
Definition one_write (t : string * Z * string) (writeFn : St Rep (option string)) : Prop :=
  adds rp_trace (λ e cs, ∃ c, cs = [c] ∧ outcome c = Some e ∧ written c = Some t) writeFn.

Definition posts (t : string * Z * string) (n : nat) (total : Z) (r : option error) (cs : list RCall) : Prop :=
  attempts n r (writes cs) ∧ 0 ≤ naps cs ≤ total ∧ Forall (λ c, written c = None ∨ written c = Some t) cs.

(** One attempt, and what follows an error that is worth a retry. *)
Lemma attempt_posts t k total repo n source writeFn (again : string → St Rep (option error)) :
  one_write t writeFn → 0 ≤ total →
  (∀ e, IsRateLimit e = true →
     adds rp_trace (λ r cs, attempts (S k) r (Some e :: writes cs) ∧ 0 ≤ naps cs ≤ total ∧ Forall (λ c, written c = None ∨ written c = Some t) cs) (again e)) →
  adds rp_trace (posts t (S k) total)
    (cancelled ← getsS (λ s, en_cancelled E (rp_trace s));
     if (cancelled : bool) then mret (Some ErrContext)
     else err ← writeFn;
          match err with
          | None => event_log E repo n (LReport source);; mret None
          | Some e => if negb (IsRateLimit e) then mret (Some (EMsg e)) else logRateLimit E source repo n e;; again e
          end).
Proof.
  intros Hw Ht Hagain. apply adds_skip; [done|]. intros [].
  { apply adds_ret. split_and!; [apply att_cancelled|simpl; lia|simpl; lia|constructor]. }
  assert (Hq : ∀ c cs1, written c = Some t → Forall (λ c, written c = None) cs1 → Forall (λ c, written c = None ∨ written c = Some t) (c :: cs1)).
  { intros c cs1 Hc Hf. constructor; [by right|]. eapply Forall_impl; [exact Hf|]. auto. }
  assert (Hn : ∀ c, written c = Some t → nap c = 0) by (by intros []).
  eapply adds_bind; [exact Hw|]. intros [e|].
  - destruct (IsRateLimit e) eqn:He; cbn [negb].
    + eapply adds_bind; [apply event_log_adds|]. intros []. eapply adds_mono; [apply (Hagain e He)|].
      intros r cs (Ha & Hnap & Hf) cs1 (Hw1 & Hn1 & Hf1) cs0 (c & -> & Ho & Hc).
      unfold posts. cbn [app naps foldr writes omap list_omap]. rewrite Ho. fold (writes (cs1 ++ cs)) (naps (cs1 ++ cs)).
      rewrite writes_app, naps_app, Hw1, Hn1, (Hn c Hc). split_and!; [done|lia|lia|].
      change (c :: cs1 ++ cs) with ((c :: cs1) ++ cs). apply Forall_app. split; [by apply Hq|done].
    + apply adds_ret. intros cs0 (c & -> & Ho & Hc). unfold posts. cbn. rewrite Ho, (Hn c Hc).
      split_and!; [by apply att_failed; left|lia|lia|]. by apply Hq.
  - eapply adds_bind; [apply event_log_adds|]. intros []. apply adds_ret. intros cs1 (Hw1 & Hn1 & Hf1) cs0 (c & -> & Ho & Hc).
    unfold posts. rewrite app_nil_r. cbn [app naps foldr writes omap list_omap]. rewrite Ho. fold (writes cs1) (naps cs1).
    rewrite Hw1, Hn1, (Hn c Hc). split_and!; [apply att_done|lia|lia|]. by apply Hq.
Qed.

Lemma retry_posts t repo n source writeFn delays :
  one_write t writeFn → Forall (λ d, 0 ≤ d) delays →
  adds rp_trace (posts t (S (length delays)) (foldr Z.add 0 delays)) (retry_loop E repo n source writeFn delays).
Proof.
  intros Hw Hd. induction Hd as [|d delays Hd Hds IH]; cbn [retry_loop].
  - apply attempt_posts; [done|done|]. intros e He. apply adds_ret. split_and!; [by apply att_failed; right|done..|constructor].
  - assert (0 ≤ foldr Z.add 0 delays) by (clear IH; induction Hds; cbn; lia).
    apply attempt_posts; [done|cbn; lia|]. intros e He. eapply (adds_bind (λ _ cs, cs = [PSleep d])); [by intros s; eexists|].
    intros []. eapply adds_mono; [exact IH|]. intros r cs (Ha & Hn & Hf) cs0 ->. cbn [app]. split_and!.
    + by apply att_again.
    + cbn. fold (naps cs). lia.
    + cbn. fold (naps cs). lia.
    + constructor; [by left|done].
Qed.

(** Four attempts, and three waits of three minutes in all. *)
Lemma write_posts t repo n source writeFn :
  one_write t writeFn → adds rp_trace (posts t 4 (180 * second)) (writeWithRateLimitRetry E repo n source writeFn).
Proof. intros Hw. apply (retry_posts t repo n source writeFn rateLimitRetryDelays Hw). by repeat constructor. Qed.
Lemma post_posts repo n source body : adds rp_trace (posts (repo, n, body) 4 (180 * second)) (post E repo n source body).
Proof. apply write_posts. intros s. eexists. split; [done|]. eexists. by split_and!. Qed.
End posting.

(** ** Texts the filter knows *)

Lemma Contains_HasPrefix s sub : HasPrefix s sub = true → Contains s sub = true.
Proof. intros H. destruct s; cbn [Contains]; by rewrite H. Qed.
Lemma Contains_app_r a b sub : Contains b sub = true → Contains (a +:+ b) sub = true.
Proof. intros H. induction a as [|c a IH]; [done|]. rewrite app_str_cons. cbn [Contains]. rewrite IH. apply orb_true_r. Qed.
Lemma Contains_app_l a b sub : HasPrefix a sub = true → Contains (a +:+ b) sub = true.
Proof. intros [t ->]%HasPrefix_inv. apply Contains_HasPrefix. rewrite app_str_assoc. apply HasPrefix_app. Qed.
Lemma cat_app l1 l2 : cat (l1 ++ l2) = cat l1 +:+ cat l2.
Proof. induction l1 as [|x l1 IH]; [done|]. cbn [app cat foldr]. fold (cat (l1 ++ l2)) (cat l1). by rewrite IH, app_str_assoc. Qed.
Lemma Contains_cat_last l x sub : last l = Some x → Contains x sub = true → Contains (cat l) sub = true.
Proof.
  intros [l' ->]%last_Some Hx. rewrite cat_app. apply Contains_app_r. cbn [cat foldr]. by rewrite app_str_nil.
Qed.
Lemma Contains_footer ts : Contains (footer ts) FooterMarkerPrefix = true.
Proof. unfold footer. do 2 apply Contains_app_r. apply Contains_HasPrefix, HasPrefix_app. Qed.
Lemma footer_automated l ts : last l = Some (footer ts) → IsAutomatedComment (cat l) = true.
Proof. intros Hl. unfold IsAutomatedComment. by rewrite (Contains_cat_last l _ _ Hl (Contains_footer ts)). Qed.

Lemma report_footer d ts : Contains (FormatReportAt d ts) FooterMarkerPrefix = true.
Proof. by eapply Contains_cat_last, Contains_footer. Qed.
Lemma needs_human_automated l ts : IsAutomatedComment (FormatNeedsHumanReport l ts) = true.
Proof. by eapply footer_automated. Qed.
Lemma synthesis_automated l ts : IsAutomatedComment (FormatSynthesisNeedsHumanReport l ts) = true.
Proof. by eapply footer_automated. Qed.
Lemma started_automated a s w u ts : IsAutomatedComment (FormatStartedReport a s w u ts) = true.
Proof. by eapply footer_automated. Qed.
Lemma cycle_cap_automated d : IsAutomatedComment (FormatCycleCapReport d) = true.
Proof. by eapply footer_automated. Qed.
Lemma Contains_cat_at l i x sub : l !! i = Some x → HasPrefix x sub = true → Contains (cat l) sub = true.
Proof.
  intros (l1 & l2 & -> & _)%list_elem_of_split_length Hx. rewrite cat_app. apply Contains_app_r. cbn [cat foldr]. by apply Contains_app_l.
Qed.
Lemma truncated_automated body url now : IsAutomatedComment (truncateReport body url now) = true.
Proof. unfold IsAutomatedComment, truncateReport. apply orb_true_iff. left. by eapply (Contains_cat_at _ 9). Qed.
Lemma repeat_automated badge body : Contains body FooterMarkerPrefix = true → IsAutomatedComment (badge +:+ body) = true.
Proof. intros H. unfold IsAutomatedComment. by rewrite Contains_app_r. Qed.

(** ** Every operation *)

Inductive RepOp :=
  | OReport (i : ReportInput) (v : option VerificationResult)
  | OStarted (repo : string) (issueNum : Z) (agentName sessionID workerID : string)
  | ONeedsHuman (repo : string) (issueNum : Z) (labelLine : string)
  | OSynthesis (repo : string) (issueNum : Z) (reason : string)
  | OVerdict (repo : string) (issueNum : Z) (reason : string)
  | OCycleCap (repo : string) (issueNum : Z) (workflow : string) (count max hitAt : Z).

Section operations.
Context (E : REnv) (unicode_lower : N → option N).

Definition run_op (op : RepOp) : St Rep (option error) :=
  match op with
  | OReport i v => ReportVerified E unicode_lower i v
  | OStarted repo n a s w => ReportStarted E repo n a s w
  | ONeedsHuman repo n l => ReportNeedsHuman E repo n l
  | OSynthesis repo n r => ReportSynthesisNeedsHuman E repo n r
  | OVerdict repo n r => PostReviewVerdict E repo n r
  | OCycleCap repo n w c m h => ReportDevReviewCycleCap E repo n w c m h
  end.

(** One comment, whose text satisfies [Q]. *)
Definition comment (Q : string → Prop) (r : option error) (cs : list RCall) : Prop :=
  ∃ t, posts t 4 (180 * second) r cs ∧ Q t.2.

Lemma quiet_first {A B} (Q : string → Prop) (m : St Rep A) (k : A → St Rep B) (res : B → option error) :
  adds rp_trace (λ _, quiet) m → (∀ a, adds rp_trace (λ b, comment Q (res b)) (k a)) → adds rp_trace (λ b, comment Q (res b)) (m ≫= k).
Proof.
  intros Hm Hk. eapply adds_bind; [exact Hm|]. intros a. eapply adds_mono; [apply Hk|].
  intros b cs (t & (Ha & Hn & Hf) & Ht) cs0 (Hw0 & Hn0 & Hf0). exists t. split; [|done]. unfold posts.
  rewrite writes_app, naps_app, Hw0, Hn0. split_and!; [done|lia|lia|]. apply Forall_app. split; [|done].
  eapply Forall_impl; [exact Hf0|]. auto.
Qed.
Lemma post_comment (Q : string → Prop) repo n source body : Q body → adds rp_trace (comment Q) (post E repo n source body).
Proof. intros HQ. eapply adds_mono; [apply post_posts|]. intros r cs H. by exists (repo, n, body). Qed.
Lemma ask_quiet {A} (f : list RCall → A) (c : A → RCall) :
  (∀ a, written (c a) = None ∧ outcome (c a) = None ∧ nap (c a) = 0) → adds rp_trace (λ _, quiet) (ask f c).
Proof.
  intros H s. exists [c (f (rp_trace s))]. split; [done|]. destruct (H (f (rp_trace s))) as (H1 & H2 & H3).
  unfold quiet, writes, naps. cbn. rewrite H2, H3. split_and!; [done|done|]. by repeat constructor.
Qed.
Lemma quiet_ret {A} (a : A) : adds rp_trace (λ _, quiet) (mret a).
Proof. apply adds_ret. by repeat constructor. Qed.
Lemma quiet_bind {A B} (m : St Rep A) (k : A → St Rep B) :
  adds rp_trace (λ _, quiet) m → (∀ a, adds rp_trace (λ _, quiet) (k a)) → adds rp_trace (λ _, quiet) (m ≫= k).
Proof.
  intros Hm Hk. eapply adds_bind; [exact Hm|]. intros a. eapply adds_mono; [apply Hk|].
  intros b cs (Hw & Hn & Hf) cs0 (Hw0 & Hn0 & Hf0). unfold quiet. rewrite writes_app, naps_app, Hw, Hn, Hw0, Hn0.
  split_and!; [done|done|]. by apply Forall_app.
Qed.
Lemma quiet_skip {A} (m : St Rep A) : (∀ s, rp_trace (m s).2 = rp_trace s) → adds rp_trace (λ _, quiet) m.
Proof. intros H. eapply adds_mono; [by apply adds_quiet|]. intros ? ? ->. by repeat constructor. Qed.

Lemma commit_quiet workDir repo n a body : adds rp_trace (λ _, quiet) (commitOverflowArtifact E unicode_lower workDir repo n a body).
Proof.
  assert (Hg : ∀ st args, adds rp_trace (λ _, quiet) (git_step E st args)) by (intros; apply ask_quiet; by intros).
  unfold commitOverflowArtifact.
  repeat first [apply quiet_ret | apply quiet_bind; [apply Hg|intros ?] | apply quiet_bind; [by apply quiet_skip|intros ?]
               | match goal with |- adds _ _ (match ?x with _ => _ end) => destruct x | |- adds _ _ (let _ := _ in _) => cbv zeta end].
Qed.
Definition automated (body : string) : Prop := IsAutomatedComment body = true.

Lemma overflow_comment repo n a body workDir : adds rp_trace (comment automated) (reportWithOverflow E unicode_lower repo n a body workDir).
Proof.
  unfold reportWithOverflow. apply (quiet_first automated _ _ id); [case_bool_decide; [apply quiet_ret|apply commit_quiet]|]. intros r.
  apply (quiet_first automated _ _ id); [apply event_log_adds|]. intros ?.
  apply (quiet_first automated _ _ id); [by apply quiet_skip|]. intros now. apply post_comment, truncated_automated.
Qed.

(** The comment of a report whose text has the footer. *)
Lemma dedup_comment repo n a reason body :
  Contains body FooterMarkerPrefix = true →
  adds rp_trace (λ r cs, match r with None => quiet cs | Some err => comment automated err cs end) (tryDedupInfraComment E repo n a reason body).
Proof.
  intros Hf. unfold tryDedupInfraComment. destruct (negb (en_editor E)); [apply adds_ret; by repeat constructor|].
  apply adds_skip; [done|]. intros now. apply adds_skip; [done|]. intros [st|]; [|apply adds_ret; by repeat constructor].
  apply adds_skip; [done|]. intros _. eapply adds_bind.
  { apply (write_posts E (repo, dd_commentID st, infraRepeatBadge (dd_count st + 1) (dd_firstSeen st) now +:+ body)).
    intros s. eexists. split; [done|]. eexists. by split_and!. }
  intros err. apply adds_ret. intros cs Hp. rewrite app_nil_r. eexists. split; [exact Hp|]. by apply repeat_automated.
Qed.
Lemma record_one_write repo n a reason body : one_write (repo, n, body) (writeAndRecordInfraComment E repo n a reason body).
Proof.
  unfold writeAndRecordInfraComment, one_write. destruct (negb (en_editor E)).
  { intros s. eexists. split; [done|]. eexists. by split_and!. }
  eapply (adds_bind (λ r cs, cs = [PWriteID repo n body r])); [by intros s; eexists|]. intros [id|e].
  - apply adds_skip; [done|]. intros now. apply adds_skip; [done|]. intros _. apply adds_ret. intros cs ->. eexists. by split_and!.
  - apply adds_ret. intros cs ->. eexists. by split_and!.
Qed.
Lemma report_comment i status body :
  Contains body FooterMarkerPrefix = true → adds rp_trace (comment automated) (post_report E unicode_lower i status body).
Proof.
  intros Hf. assert (automated body) as Hb by (unfold automated, IsAutomatedComment; by rewrite Hf).
  unfold post_report. cbv zeta. destruct (_ <? _)%nat.
  { apply (quiet_first automated _ _ id); [by apply quiet_skip|]. intros ?. apply overflow_comment. }
  case_bool_decide.
  2: { apply (quiet_first automated _ _ id); [by apply quiet_skip|]. intros ?. by apply post_comment. }
  eapply adds_bind; [by apply dedup_comment|]. intros [err|].
  - apply adds_ret. intros cs Hc. by rewrite app_nil_r.
  - eapply adds_mono; [apply write_posts, record_one_write|]. intros r cs Hp cs0 Hq.
    destruct Hq as (Hw0 & Hn0 & Hf0), Hp as (Ha & Hn & Hp). exists (ri_repo i, ri_issueNum i, body). split; [|exact Hb]. split_and!.
    + by rewrite writes_app, Hw0.
    + rewrite naps_app. lia.
    + rewrite naps_app. lia.
    + apply Forall_app. split; [|exact Hp]. eapply Forall_impl; [exact Hf0|]. auto.
Qed.
Lemma verified_quiet repo n r v : adds rp_trace (λ _, quiet) (verified_status E repo n r v).
Proof.
  unfold verified_status. destruct v as [v|]; [apply quiet_ret|]. destruct (en_verifier E) as [f|]; [|apply quiet_ret].
  case_bool_decide; [|apply quiet_ret]. apply quiet_bind.
  { apply quiet_bind; [by apply quiet_skip|]. intros now. apply ask_quiet. by intros. }
  intros [[v|]|e]; [destruct (vr_Partial v); apply quiet_ret|apply quiet_ret|]. apply quiet_bind; [apply event_log_adds|]. intros ?. apply quiet_ret.
Qed.

(** What an operation posts. *)
Definition says (op : RepOp) (body : string) : Prop :=
  match op with OVerdict _ _ r => body = verdict_body r | _ => automated body end.
Definition says_nothing (op : RepOp) : Prop := match op with OVerdict _ _ r => r = EmptyString | _ => False end.

Lemma run_op_comment op : ¬ says_nothing op → adds rp_trace (comment (says op)) (run_op op).
Proof.
  intros Hs. destruct op as [i v|repo n a sid w|repo n l|repo n r|repo n r|repo n wf c m h]; cbn [run_op].
  - unfold ReportVerified, report. eapply (adds_bind (λ b : option VerificationResult * option error, comment automated b.2)).
    + apply (quiet_first automated _ _ snd); [apply verified_quiet|]. intros [[status detail] v']. cbv beta iota.
      apply (quiet_first automated _ _ snd); [by apply quiet_skip|]. intros now.
      eapply adds_bind; [apply report_comment, report_footer|]. intros err. apply adds_ret. intros cs Hc. by rewrite app_nil_r.
    + intros [v' err]. apply adds_ret. intros cs Hc. by rewrite app_nil_r.
  - apply adds_skip; [done|]. intros now. apply post_comment, started_automated.
  - apply adds_skip; [done|]. intros now. apply post_comment, needs_human_automated.
  - apply adds_skip; [done|]. intros now. apply post_comment, synthesis_automated.
  - unfold PostReviewVerdict. rewrite bool_decide_eq_false_2 by done. by apply post_comment.
  - unfold ReportDevReviewCycleCap. apply (quiet_first (says (OCycleCap repo n wf c m h)) _ _ id).
    { destruct (en_trail E); [apply ask_quiet; by intros|apply quiet_ret]. }
    intros t. destruct (match t with inl t => t | inr _ => _ end) as [[trail pr] br]. apply post_comment, cycle_cap_automated.
Qed.
End operations.

(** The reporter posts a comment at most once and within bounds: an operation makes
    at most four attempts, all of the same text at the same place, sleeps three minutes
    at most in between, repeats only after an error that says rate limit, and returns
    no error exactly when its last attempt succeeded, an empty verdict apart, for
    which nothing is written; and what it writes is a comment that the prompts of the
    agents leave out as noise, a review verdict apart. *)
Theorem comments_are_posted_once E unicode_lower op s :
  let '(r, s') := run_op E unicode_lower op s in
  ∃ cs, rp_trace s' = rp_trace s ++ cs ∧
    (length (writes cs) ≤ 4)%nat ∧ 0 ≤ naps cs ≤ 180 * second ∧
    (r = None ↔ last (writes cs) = Some None ∨ says_nothing op) ∧
    (∀ l1 w l2, writes cs = l1 ++ w :: l2 → l2 ≠ [] → ∃ e, w = Some e ∧ IsRateLimit e = true) ∧
    ∃ t, says op t.2 ∧ Forall (λ c, written c = None ∨ written c = Some t) cs.
Proof.
  destruct (run_op E unicode_lower op s) as [r s'] eqn:Ho.
  assert (says_nothing op ∨ ¬ says_nothing op) as [Hn|Hn] by (destruct op as [| | | |? ? reason|]; cbn; try tauto; destruct (decide (reason = EmptyString)); auto).
  - destruct op; try done. cbn in Hn. subst. cbn in Ho. unfold PostReviewVerdict in Ho. rewrite bool_decide_eq_true_2 in Ho by done.
    injection Ho as <- <-. exists []. rewrite app_nil_r. split_and!; [done|simpl; lia|done|done|split; [by right|done]|by intros []|].
    exists (repo, issueNum, verdict_body EmptyString). done.
  - destruct (run_op_comment E unicode_lower op Hn s) as (cs & Ht & t & (Ha & Hnap & Hf) & HQ). rewrite Ho in *. cbn [fst snd] in *.
    destruct (attempts_spec _ _ _ Ha) as (H1 & H2 & H3). exists cs. split_and!; [done|lia|lia|lia| |done|by exists t]. rewrite H2. intuition.
Qed.

(** ** From the verdict to the prompt *)

#[local] Opaque maxVerdictBytes.

Lemma Contains_skip c p r sub :
  all_str (λ d, negb (Ascii.eqb c d)) p = true → Contains (p +:+ r) (String c sub) = Contains r (String c sub).
Proof.
  induction p as [|d p IH]; [done|]. rewrite app_str_cons. cbn [all_str Contains HasPrefix].
  intros [Hd Hp]%andb_true_iff. apply negb_true_iff in Hd. rewrite Hd. cbn. by apply IH.
Qed.
Lemma verdict_marker reason : Contains (verdict_body reason) FooterMarkerPrefix = Contains reason FooterMarkerPrefix.
Proof.
  unfold verdict_body, FooterMarkerPrefix, cat. cbn [foldr].
  do 5 (rewrite Contains_skip by (vm_compute; done)). by rewrite app_str_nil.
Qed.
Lemma verdict_kept reason : IsAutomatedComment (verdict_body reason) = Contains reason FooterMarkerPrefix.
Proof. unfold IsAutomatedComment. rewrite verdict_marker. unfold verdict_body, cat. cbn [foldr]. apply orb_false_r. Qed.
Lemma find_app_none {A} (f : A → bool) l1 x l2 : Forall (λ y, f y = false) l1 → f x = true → find f (l1 ++ x :: l2) = Some x.
Proof. intros H Hx. induction H as [|y l1 Hy _ IH]; cbn; [by rewrite Hx|by rewrite Hy]. Qed.

Lemma latest_is v k1 k2 :
  Contains (ic_Body v) reviewVerdictMarker = true →
  Forall (λ c, Contains (ic_Body c) reviewVerdictMarker = false) k2 → latest_verdict (k1 ++ v :: k2) = Some v.
Proof.
  intros Hv Hk. unfold latest_verdict. rewrite rev_app_distr. cbn [rev]. rewrite <-app_assoc. cbn [app].
  apply find_app_none; [|done]. by apply Forall_rev.
Qed.

(** What the prompt shows of a verdict, and the other comments it counts. *)
Definition shown_verdict (reason : string) : string :=
  if (String.length (verdict_body reason) <=? maxVerdictBytes)%nat then verdict_body reason else take_str maxVerdictBytes (verdict_body reason).
Definition counted (automated : bool) (cs : list IssueComment) : nat := length (List.filter (λ c, Bool.eqb (IsAutomatedComment (ic_Body c)) automated) cs).

Lemma counted_false cs : counted false cs = length (List.filter (λ c, negb (IsAutomatedComment (ic_Body c))) cs).
Proof. done. Qed.
Lemma counted_true cs : counted true cs = length (List.filter (λ c, IsAutomatedComment (ic_Body c)) cs).
Proof. unfold counted. f_equal. apply filter_ext. intros c. by destruct (IsAutomatedComment _). Qed.


(** ** Repeated launcher errors *)

#[local] Opaque maxCommentBodyBytes.

Definition same_dedup (s s' : Rep) : Prop := rp_dedup s' = rp_dedup s.
#[export] Instance same_dedup_po : PreOrder same_dedup.
Proof. split; [by intros ?|]. intros a b c. unfold same_dedup. congruence. Qed.
Definition same_but (key : infraDedupKey) (s s' : Rep) : Prop := ∀ k, k ≠ key → rp_dedup s' !! k = rp_dedup s !! k.
#[export] Instance same_but_po key : PreOrder (same_but key).
Proof. split; [by intros ? ? ?|]. intros a b c Hab Hbc k Hk. rewrite (Hbc k Hk). by apply Hab. Qed.

Definition key_of (i : ReportInput) : infraDedupKey := (ri_repo i, ri_issueNum i, ri_agentName i).

Section dedup.
Context (unicode_lower : N → option N).

Lemma log_keeps R `{!PreOrder R} E repo n e : (∀ s c, R s (mkRep (rp_trace s ++ [c]) (rp_dedup s))) → keeps R (event_log E repo n e).
Proof. intros Hc. unfold event_log. destruct (en_eventlog E); [|by apply keeps_ret]. apply keeps_modS. intros s. apply Hc. Qed.
Lemma retry_keeps R `{!PreOrder R} E repo n source w delays :
  (∀ s c, R s (mkRep (rp_trace s ++ [c]) (rp_dedup s))) → keeps R w → keeps R (retry_loop E repo n source w delays).
Proof.
  intros Hc Hw. induction delays as [|d delays IH]; cbn [retry_loop].
  all: apply keeps_bind; [done|by apply keeps_getsS|]; intros []; [by apply keeps_ret|].
  all: apply keeps_bind; [done|exact Hw|]; intros [e|]; [|apply keeps_bind; [done|by apply log_keeps|]; intros ?; by apply keeps_ret].
  all: destruct (negb (IsRateLimit e)); [by apply keeps_ret|]; apply keeps_bind; [done|by apply log_keeps|]; intros ?.
  - by apply keeps_ret.
  - apply keeps_bind; [done|apply keeps_modS; intros s; apply Hc|]. intros ?. exact IH.
Qed.
Lemma ask_keeps R `{!PreOrder R} {A} (f : list RCall → A) c :
  (∀ s c, R s (mkRep (rp_trace s ++ [c]) (rp_dedup s))) → keeps R (ask f c).
Proof. intros Hc s. apply Hc. Qed.

(** Follows the program text; [H] is what the table allows. *)
Ltac rep_keeps :=
  repeat first
    [ eassumption | apply keeps_ret; apply _ | apply keeps_getsS; apply _ | apply ask_keeps; [apply _|done]
    | apply log_keeps; [apply _|done] | apply retry_keeps; [apply _|done|] | apply keeps_bind; [apply _| |intros ?]
    | match goal with
      | |- keeps _ (match ?x with _ => _ end) => destruct x
      | |- keeps _ (let _ := _ in _) => cbv zeta
      | H : ∀ st, keeps _ (modS (λ s, mkRep (rp_trace s) (<[_ := st]> _))) |- _ => apply H
      end ].

(** Reports of one key leave the others alone. *)
Lemma post_report_keeps E i status body : keeps (same_but (key_of i)) (post_report E unicode_lower i status body).
Proof.
  assert (∀ st, keeps (same_but (key_of i)) (modS (λ s, mkRep (rp_trace s) (<[key_of i := st]> (rp_dedup s))))) as Hd.
  { intros st. apply keeps_modS. intros s k Hk. cbn. by rewrite lookup_insert_ne. }
  assert (keeps (same_but (key_of i)) (clearInfraDedup (ri_repo i) (ri_issueNum i) (ri_agentName i))) as Hx.
  { apply keeps_modS. intros s k Hk. cbn. by rewrite lookup_delete_ne. }
  unfold post_report, reportWithOverflow, commitOverflowArtifact, post, writeWithRateLimitRetry, WriteComment, tryDedupInfraComment,
    writeAndRecordInfraComment, writeWithRateLimitRetry, at_now, git_step, key_of in *.
  rep_keeps.
Qed.
Lemma verified_keeps E repo n r v : keeps same_dedup (verified_status E repo n r v).
Proof. unfold verified_status, verify_call, at_now. rep_keeps. Qed.
Lemma same_dedup_but key s s' : same_dedup s s' → same_but key s s'.
Proof. intros H k _. by rewrite H. Qed.
Lemma report_keeps E i v : keeps (same_but (key_of i)) (ReportVerified E unicode_lower i v).
Proof.
  unfold ReportVerified, report. apply keeps_bind; [apply _| |intros [? ?]; apply keeps_ret; apply _].
  apply keeps_bind; [apply _|intros s; apply same_dedup_but, verified_keeps|]. intros [[status detail] v'].
  apply keeps_bind; [apply _|apply keeps_getsS; apply _|]. intros now.
  apply keeps_bind; [apply _|apply post_report_keeps|]. intros err. apply keeps_ret; apply _.
Qed.

(** ** One report *)

Definition infra (i : ReportInput) : Prop := IsInfraFailure (Some (ri_result i)) = true.
Definition body_of (E : REnv) (i : ReportInput) (v : option VerificationResult) (s : Rep) : string :=
  FormatReportAt (report_data E i "infra-error" (run_error (ri_result i)) v) (en_now E (rp_trace s)).
Definition fits (body : string) : Prop := (String.length body ≤ maxCommentBodyBytes)%nat.

(** A report of a launcher error that fits. *)
Lemma report_infra E i v s :
  infra i → fits (body_of E i v s) →
  ReportVerified E unicode_lower i v s =
  (posted ← tryDedupInfraComment E (ri_repo i) (ri_issueNum i) (ri_agentName i) (infra_reason (ri_result i)) (body_of E i v s);
   match posted with
   | Some err => mret err
   | None => writeWithRateLimitRetry E (ri_repo i) (ri_issueNum i) "report"
               (writeAndRecordInfraComment E (ri_repo i) (ri_issueNum i) (ri_agentName i) (infra_reason (ri_result i)) (body_of E i v s))
   end) s.
Proof.
  intros Hi Hf. assert (Hs : run_status (ri_result i) = "infra-error") by (unfold run_status; by rewrite Hi).
  assert (Hv : verified_status E (ri_repo i) (ri_issueNum i) (ri_result i) v s = ((run_status (ri_result i), run_error (ri_result i), v), s)).
  { unfold verified_status. rewrite Hs. by destruct v, (en_verifier E). }
  unfold ReportVerified, report, mbind, St_bind. rewrite Hv, Hs. cbn [fst snd at_now getsS]. unfold at_now, getsS. cbn [fst snd].
  fold (body_of E i v s). unfold post_report. destruct (Nat.ltb_spec maxCommentBodyBytes (String.length (body_of E i v s))) as [Hl|_].
  { unfold fits in Hf. lia. }
  rewrite bool_decide_eq_true_2 by done. unfold mbind, St_bind, mret, St_ret.
  cbn [fst snd]. symmetry. apply surjective_pairing.
Qed.

(** The entry that is repeated, and the calls of a repetition. *)
Definition bumped (st : infraDedupState) (now : Z) : infraDedupState :=
  mkDedup (dd_commentID st) (dd_reason st) (dd_count st + 1) (dd_firstSeen st) now.
Definition edits_only (repo : string) (id : Z) (body : string) (c : RCall) : Prop :=
  match c with
  | PWrite _ _ _ _ | PWriteID _ _ _ _ => False
  | PEdit repo' id' body' _ => repo' = repo ∧ id' = id ∧ body' = body
  | _ => True
  end.
(** An edit is tried unless the context is cancelled, nothing else is written, and no
    error is returned exactly when an edit got through. *)
Definition edited (cancelled : bool) (repo : string) (id : Z) (body : string) (r : option error) (cs : list RCall) : Prop :=
  Forall (edits_only repo id body) cs ∧ (r = None ↔ PEdit repo id body None ∈ cs) ∧
  (cancelled = false → ∃ e, PEdit repo id body e ∈ cs).

Lemma log_trace E repo n e s : ∃ cs, rp_trace (event_log E repo n e s).2 = rp_trace s ++ cs ∧ Forall (λ c, written c = None) cs.
Proof. destruct (event_log_adds E repo n e s) as (cs & H & _ & _ & HF). by exists cs. Qed.
Lemma edited_app c repo id body r cs1 cs2 :
  Forall (λ c, written c = None) cs1 → edited c repo id body r cs2 → edited c repo id body r (cs1 ++ cs2).
Proof.
  intros H1 (HF & Hr & Hc). split_and!.
  - apply Forall_app. split; [|exact HF]. eapply Forall_impl; [exact H1|]. by intros [].
  - rewrite Hr, elem_of_app. split; [by right|]. intros [Hin|?]; [|done]. rewrite Forall_forall in H1. by specialize (H1 _ Hin).
  - intros [e He]%Hc. exists e. apply elem_of_app. by right.
Qed.
(** A failed edit in front of the rest. *)
Lemma edited_cons c c' repo id body e r cs :
  edited c repo id body r cs → edited c' repo id body r (PEdit repo id body (Some e) :: cs).
Proof.
  intros (HF & Hr & _). split_and!; [by constructor| |].
  - rewrite Hr, elem_of_cons. split; [by right|]. by intros [?|?].
  - intros _. exists (Some e). by left.
Qed.
Lemma edited_none repo id body r : r ≠ None → edited true repo id body r [].
Proof. intros Hr. split_and!; [constructor|split; [done|by intros ?%elem_of_nil]|done]. Qed.

Lemma retry_edits E repo n source id body delays s :
  let '(r, s') := retry_loop E repo n source (ask (en_edit E) (PEdit repo id body)) delays s in
  ∃ cs, rp_trace s' = rp_trace s ++ cs ∧ edited (en_cancelled E (rp_trace s)) repo id body r cs.
Proof.
  revert s. induction delays as [|d delays IH]; intros s; cbn [retry_loop].
  all: unfold mbind, St_bind, mret, St_ret, getsS, ask; cbn [fst snd].
  all: destruct (en_cancelled E (rp_trace s)); [exists []; rewrite app_nil_r; by split; [|apply edited_none]|].
  all: destruct (en_edit E (rp_trace s)) as [e|]; cbn [fst snd].
  2, 4: destruct (log_trace E repo n (LReport source) (mkRep (rp_trace s ++ [PEdit repo id body None]) (rp_dedup s))) as (cs & -> & HF);
    exists (PEdit repo id body None :: cs); cbn [rp_trace]; rewrite <-app_assoc; (split; [done|]); split_and!;
    [constructor; [done|]; (eapply Forall_impl; [exact HF|by intros []])|split; [by left|done]|intros _; exists None; by left].
  all: destruct (negb (IsRateLimit e)); [exists [PEdit repo id body (Some e)]; by split; [|apply (edited_cons true), edited_none]|].
  all: unfold logRateLimit; destruct (log_trace E repo n (LRateLimit source (RedactTokens e)) (mkRep (rp_trace s ++ [PEdit repo id body (Some e)]) (rp_dedup s))) as (cs & Hl & HF);
    destruct (event_log E repo n _ _) as [[] s1]; cbn [fst snd rp_trace] in *.
  - exists (PEdit repo id body (Some e) :: cs). rewrite Hl, <-app_assoc. split; [done|]. apply (edited_cons true).
    rewrite <-(app_nil_r cs). by apply edited_app, edited_none.
  - specialize (IH (rcall (PSleep d) s1).2). destruct (retry_loop _ _ _ _ _ _ _) as [r s']. destruct IH as (cs' & -> & He).
    exists (PEdit repo id body (Some e) :: (cs ++ [PSleep d]) ++ cs'). cbn [rcall modS snd rp_trace] in *. split; [by rewrite Hl, <-!app_assoc|].
    eapply edited_cons, edited_app; [|exact He]. apply Forall_app. split; [done|by repeat constructor].
Qed.

Lemma report_repeats E i v s st :
  en_editor E = true → infra i → fits (body_of E i v s) →
  live_entry (key_of i) (infra_reason (ri_result i)) (en_now E (rp_trace s)) (rp_dedup s) = Some st →
  let now := en_now E (rp_trace s) in
  let '(r, s') := ReportVerified E unicode_lower i v s in
  rp_dedup s' = <[key_of i := bumped st now]> (rp_dedup s) ∧
  ∃ cs, rp_trace s' = rp_trace s ++ cs ∧
    edited (en_cancelled E (rp_trace s)) (ri_repo i) (dd_commentID st)
      (infraRepeatBadge (dd_count st + 1) (dd_firstSeen st) now +:+ body_of E i v s) r cs.
Proof.
  intros He Hi Hf Hl now. rewrite (report_infra E i v s Hi Hf). unfold tryDedupInfraComment. rewrite He. cbn [negb].
  unfold mbind, St_bind, at_now, getsS, modS. cbn [fst snd]. change (ri_repo i, ri_issueNum i, ri_agentName i) with (key_of i).
  fold now in Hl |- *. rewrite Hl. cbn [fst snd dd_commentID dd_count dd_firstSeen dd_lastSeen]. set (s1 := mkRep _ _). set (w := ask _ _).
  unfold mret, St_ret. cbn [fst snd]. unfold writeWithRateLimitRetry.
  pose proof (retry_edits E (ri_repo i) (ri_issueNum i) "report_dedup" (dd_commentID st)
    (infraRepeatBadge (dd_count st + 1) (dd_firstSeen st) now +:+ body_of E i v s) rateLimitRetryDelays s1) as Hr.
  assert (keeps same_dedup (retry_loop E (ri_repo i) (ri_issueNum i) "report_dedup" w rateLimitRetryDelays)) as Hk.
  { apply retry_keeps; [apply _|done|]. apply ask_keeps; [apply _|done]. }
  specialize (Hk s1). fold w in Hr. destruct (retry_loop _ _ _ _ w _ s1) as [r s']. split; [exact Hk|exact Hr].
Qed.

(** What a write that succeeds establishes. *)
Lemma retry_done E (Q : Rep → Prop) repo n source w delays s :
  (∀ s, (w s).1 = None → Q (w s).2) → (∀ s c, Q s → Q (mkRep (rp_trace s ++ [c]) (rp_dedup s))) →
  (retry_loop E repo n source w delays s).1 = None → Q (retry_loop E repo n source w delays s).2.
Proof.
  intros Hw Hc. revert s. induction delays as [|d delays IH]; intros s; cbn [retry_loop].
  all: unfold mbind, St_bind, getsS; cbn [fst snd]; destruct (en_cancelled E (rp_trace s)); [done|].
  all: specialize (Hw s); destruct (w s) as [[e|] s1]; cbn [fst snd] in *.
  2, 4: intros _; unfold event_log, rcall, modS; destruct (en_eventlog E); cbn; auto.
  all: destruct (negb (IsRateLimit e)); [done|]; cbn [fst snd].
  { done. }
  apply IH.
Qed.

(** A first report, when it gets through, is the entry. *)
Lemma first_report E i v s :
  en_editor E = true → infra i → fits (body_of E i v s) →
  live_entry (key_of i) (infra_reason (ri_result i)) (en_now E (rp_trace s)) (rp_dedup s) = None →
  (ReportVerified E unicode_lower i v s).1 = None →
  let s' := (ReportVerified E unicode_lower i v s).2 in
  ∃ id now, rp_dedup s' !! key_of i = Some (mkDedup id (infra_reason (ri_result i)) 1 now now) ∧
    PWriteID (ri_repo i) (ri_issueNum i) (body_of E i v s) (inl id) ∈ rp_trace s'.
Proof.
  intros He Hi Hf Hl. rewrite (report_infra E i v s Hi Hf). unfold tryDedupInfraComment. rewrite He. cbn [negb].
  unfold mbind, St_bind, at_now, getsS, modS. cbn [fst snd]. change (ri_repo i, ri_issueNum i, ri_agentName i) with (key_of i).
  rewrite Hl. unfold mret, St_ret. cbn [fst snd]. unfold writeWithRateLimitRetry.
  apply (retry_done E (λ s', ∃ id now, rp_dedup s' !! key_of i = Some (mkDedup id (infra_reason (ri_result i)) 1 now now) ∧
    PWriteID (ri_repo i) (ri_issueNum i) (body_of E i v s) (inl id) ∈ rp_trace s')).
  - intros s0. unfold writeAndRecordInfraComment. rewrite He. cbn [negb]. unfold mbind, St_bind, ask. cbn [fst snd].
    destruct (en_writeID E (rp_trace s0)) as [id|e]; [|done]. intros _. cbn. eexists id, _. split; [apply lookup_insert_eq|].
    rewrite elem_of_app. right. by left.
  - intros s0 c (id & now & H1 & H2). exists id, now. split; [done|]. cbn. rewrite elem_of_app. by left.
Qed.

(** Any other report of the key ends the incident. *)
Lemma cleared {A} repo n a (m : St Rep A) s :
  keeps same_dedup m → rp_dedup ((clearInfraDedup repo n a;; m) s).2 !! (repo, n, a) = None.
Proof. intros Hm. unfold mbind, St_bind. rewrite (Hm _). apply lookup_delete_eq. Qed.
Lemma post_report_ends E i status body s :
  status ≠ "infra-error" ∨ ¬ fits body → rp_dedup (post_report E unicode_lower i status body s).2 !! key_of i = None.
Proof.
  intros Hs. unfold post_report. cbv zeta. destruct (Nat.ltb_spec maxCommentBodyBytes (String.length body)).
  - apply cleared. unfold reportWithOverflow, commitOverflowArtifact, post, writeWithRateLimitRetry, WriteComment, at_now, git_step. rep_keeps.
  - case_bool_decide; [destruct Hs; unfold fits in *; [done|lia]|]. apply cleared.
    unfold post, writeWithRateLimitRetry, WriteComment. rep_keeps.
Qed.
Lemma verified_not_infra E repo n r v s : IsInfraFailure (Some r) = false → (verified_status E repo n r v s).1.1.1 ≠ "infra-error".
Proof.
  intros Hi. assert (run_status r ≠ "infra-error") as Hr.
  { unfold run_status. rewrite Hi. repeat case_bool_decide; [done|done|]. by destruct (_ =? 0). }
  unfold verified_status. destruct v as [v|]; [done|]. destruct (en_verifier E) as [f|]; [|done]. case_bool_decide; [|done].
  unfold mbind, St_bind. destruct (verify_call E repo n r f s) as [[[v|]|e] s']; cbn; [|done|].
  - by destruct (vr_Partial v).
  - unfold event_log. by destruct (en_eventlog E).
Qed.
Lemma other_report_ends E i v s :
  ¬ infra i ∨ ¬ fits (body_of E i v s) → rp_dedup (ReportVerified E unicode_lower i v s).2 !! key_of i = None.
Proof.
  intros Hs. unfold ReportVerified, report, mbind, St_bind, at_now, getsS. cbn [fst snd].
  destruct (verified_status E (ri_repo i) (ri_issueNum i) (ri_result i) v s) as [[[status detail] v'] s1] eqn:Hv. cbn [fst snd].
  destruct (post_report E unicode_lower i status _ s1) as [err s2] eqn:Hp. cbn [fst snd mret St_ret].
  change s2 with ((err, s2).2). rewrite <-Hp. apply post_report_ends.
  destruct (IsInfraFailure (Some (ri_result i))) eqn:Hi.
  - destruct Hs as [Hs|Hs]; [by destruct Hs|]. right. intros Hf. apply Hs. revert Hf.
    unfold verified_status in Hv. unfold run_status in Hv. rewrite Hi in Hv. cbn in Hv.
    destruct v as [v|]; [|destruct (en_verifier E)]; injection Hv as <- <- <- <-; done.
  - left. pose proof (verified_not_infra E (ri_repo i) (ri_issueNum i) (ri_result i) v s Hi) as Hn. by rewrite Hv in Hn.
Qed.

(** ** An incident *)

Definition run_report (x : REnv * ReportInput * option VerificationResult) (s : Rep) : Rep :=
  let '(E, i, v) := x in (ReportVerified E unicode_lower i v s).2.
Definition reports (l : list (REnv * ReportInput * option VerificationResult)) (s : Rep) : Rep := foldl (λ s x, run_report x s) s l.
Definition about (key : infraDedupKey) (x : REnv * ReportInput * option VerificationResult) : bool := bool_decide (key_of x.1.2 = key).
Definition mine (key : infraDedupKey) (l : list (REnv * ReportInput * option VerificationResult)) : Z := Z.of_nat (length (List.filter (about key) l)).

(** Reports of which those about [key] repeat the launcher error [reason], each within
    the window of the one before; the others are arbitrary. *)
Fixpoint storm (key : infraDedupKey) (reason : string) (last : Z) (l : list (REnv * ReportInput * option VerificationResult)) (s : Rep) : Prop :=
  match l with
  | [] => True
  | (E, i, v) :: l =>
      let s' := (ReportVerified E unicode_lower i v s).2 in
      if about key (E, i, v) then
        let now := en_now E (rp_trace s) in
        en_editor E = true ∧ infra i ∧ infra_reason (ri_result i) = reason ∧ fits (body_of E i v s) ∧ now - last ≤ infraDedupTTL ∧
        storm key reason now l s'
      else storm key reason last l s'
  end.

Lemma storm_edits key reason st l s :
  rp_dedup s !! key = Some st → dd_commentID st ≠ 0 → dd_reason st = reason → storm key reason (dd_lastSeen st) l s →
  (∃ last, rp_dedup (reports l s) !! key = Some (mkDedup (dd_commentID st) reason (dd_count st + mine key l) (dd_firstSeen st) last)) ∧
  (∀ l1 E i v l2, l = l1 ++ (E, i, v) :: l2 → key_of i = key →
     let s1 := reports l1 s in
     let '(r, s2) := ReportVerified E unicode_lower i v s1 in
     ∃ cs, rp_trace s2 = rp_trace s1 ++ cs ∧
       edited (en_cancelled E (rp_trace s1)) (ri_repo i) (dd_commentID st)
         (infraRepeatBadge (dd_count st + mine key l1 + 1) (dd_firstSeen st) (en_now E (rp_trace s1)) +:+ body_of E i v s1) r cs).
Proof.
  revert st s. induction l as [|[[E i] v] l IH]; intros st s Hst Hid Hr Hs.
  { split; [|by intros []]. exists (dd_lastSeen st). cbn. rewrite Z.add_0_r, Hst. by destruct st; cbn in *; subst. }
  cbn [storm] in Hs. unfold about in Hs. cbn [fst snd] in Hs. case_bool_decide as Hk.
  - destruct Hs as (He & Hi & Hreason & Hf & Hw & Hs). set (now := en_now E (rp_trace s)) in *.
    assert (Hl : live_entry (key_of i) (infra_reason (ri_result i)) now (rp_dedup s) = Some st).
    { unfold live_entry. rewrite Hk, Hst. cbn. rewrite (bool_decide_eq_true_2 (_ = _)) by congruence.
      destruct (Z.eqb_spec (dd_commentID st) 0), (Z.ltb_spec infraDedupTTL (now - dd_lastSeen st)); cbn; [lia..|done]. }
    pose proof (report_repeats E i v s st He Hi Hf Hl) as Hrep. destruct (ReportVerified E unicode_lower i v s) as [r s2] eqn:Hrv.
    destruct Hrep as (Hd & cs & Hcs & Hall). cbn [snd] in Hs. assert (run_report (E, i, v) s = s2) as Hrun by (cbn; by rewrite Hrv).
    destruct (IH (bumped st now) s2) as [(last & Hlast) Hsteps]; [|done|done|exact Hs|].
    { rewrite Hd, Hk. apply lookup_insert_eq. }
    assert (Hm : ∀ l, mine key ((E, i, v) :: l) = 1 + mine key l).
    { intros l'. unfold mine. cbn [List.filter]. unfold about at 1. cbn [fst snd]. rewrite bool_decide_eq_true_2 by done. cbn [length]. lia. }
    split; [exists last; rewrite Hm; change (reports (_ :: l) s) with (reports l (run_report (E, i, v) s)); rewrite Hrun, Hlast; cbn; do 2 f_equal; lia|].
    intros [|x l1] E' i' v' l2 [= Hx Hl'] Hk'.
    + subst. cbn [reports foldl]. rewrite Hrv. exists cs. split; [exact Hcs|]. change (mine (key_of i') []) with 0. by rewrite Z.add_0_r.
    + subst x. specialize (Hsteps l1 E' i' v' l2 Hl' Hk'). change (reports (_ :: l1) s) with (reports l1 (run_report (E, i, v) s)). rewrite Hrun, Hm.
      cbn [bumped dd_commentID dd_count dd_firstSeen] in Hsteps.
      by replace (dd_count st + (1 + mine key l1) + 1) with (dd_count st + 1 + mine key l1 + 1) by lia.
  - destruct (IH st (run_report (E, i, v) s)) as [(last & Hlast) Hsteps]; [|done|done|exact Hs|].
    { cbn [run_report]. rewrite (report_keeps E i v s key) by done. exact Hst. }
    assert (Hm : ∀ l, mine key ((E, i, v) :: l) = mine key l).
    { intros l'. unfold mine. cbn [List.filter]. unfold about at 1. cbn [fst snd]. by rewrite bool_decide_eq_false_2. }
    split; [exists last; by rewrite Hm|]. intros [|x l1] E' i' v' l2 [= Hx Hl'] Hk'; [by subst|].
    subst x. rewrite Hm. exact (Hsteps l1 E' i' v' l2 Hl' Hk').
Qed.
End dedup.

(** C22: Repeated launcher errors of an agent on an issue are one comment: once the first
    report has got through, its comment and reason are remembered; every further
    report with that reason, within half an hour of the one before it and whatever is
    reported of other agents and issues in between, writes nothing but edits of that
    comment, with its number in the series and the new text: it tries one unless its
    context is cancelled, and returns no error exactly when one got through; and a report
    with another outcome, or one too large, ends the series, so that the next error is a
    comment of its own.  The writer can edit comments, the reports fit in a comment, and
    the id of the first comment is not 0. *)
Theorem launcher_errors_share_a_comment unicode_lower E0 i0 v0 s0 l :
  en_editor E0 = true → infra i0 → fits (body_of E0 i0 v0 s0) →
  let key := key_of i0 in
  let reason := infra_reason (ri_result i0) in
  live_entry key reason (en_now E0 (rp_trace s0)) (rp_dedup s0) = None →
  (ReportVerified E0 unicode_lower i0 v0 s0).1 = None →
  let s := (ReportVerified E0 unicode_lower i0 v0 s0).2 in
  ∃ id first, PWriteID (ri_repo i0) (ri_issueNum i0) (body_of E0 i0 v0 s0) (inl id) ∈ rp_trace s ∧
    rp_dedup s !! key = Some (mkDedup id reason 1 first first) ∧
    (id ≠ 0 → storm unicode_lower key reason first l s →
       (∃ last, rp_dedup (reports unicode_lower l s) !! key = Some (mkDedup id reason (1 + mine key l) first last)) ∧
       (∀ l1 E i v l2, l = l1 ++ (E, i, v) :: l2 → key_of i = key →
          let s1 := reports unicode_lower l1 s in
          let '(r, s2) := ReportVerified E unicode_lower i v s1 in
          ∃ cs, rp_trace s2 = rp_trace s1 ++ cs ∧
            edited (en_cancelled E (rp_trace s1)) (ri_repo i) id
              (infraRepeatBadge (2 + mine key l1) first (en_now E (rp_trace s1)) +:+ body_of E i v s1) r cs)) ∧
    (∀ E i v s', key_of i = key → ¬ infra i ∨ ¬ fits (body_of E i v s') →
       rp_dedup (run_report unicode_lower (E, i, v) s') !! key = None).
Proof.
  intros He Hi Hf key reason Hl Hr s. destruct (first_report unicode_lower E0 i0 v0 s0 He Hi Hf Hl Hr) as (id & first & Hd & Hw).
  exists id, first. split_and!; [exact Hw|exact Hd| |].
  - intros Hid Hs. destruct (storm_edits unicode_lower key reason _ l s Hd Hid eq_refl Hs) as [H1 H2]. split; [exact H1|].
    intros l1 E i v l2 Hl1 Hk. specialize (H2 l1 E i v l2 Hl1 Hk). cbn [dd_commentID dd_count dd_firstSeen] in H2.
    by replace (2 + mine key l1) with (1 + mine key l1 + 1) by lia.
  - intros E i v s' Hk Hx. rewrite <-Hk. by apply other_report_ends.
Qed.

(** ** Large reports *)

Lemma valid_cut_spec n s :
  (valid_cut n s ≤ n)%nat ∧ valid_utf8 (take_str (valid_cut n s) s) = true ∧
  (∀ k, (valid_cut n s < k ≤ n)%nat → valid_utf8 (take_str k s) = false).
Proof.
  induction n as [|n (IH1 & IH2 & IH3)]; [split_and!; [done|done|lia]|]. cbn [valid_cut].
  destruct (valid_utf8 (take_str (S n) s)) eqn:E; [split_and!; [done|done|lia]|]. split_and!; [lia|done|].
  intros k Hk. destruct (decide (k = S n)) as [->|]; [done|]. apply IH3. lia.
Qed.
Lemma length_take_str n s : String.length (take_str n s) = (n `min` String.length s)%nat.
Proof. revert s. induction n as [|n IH]; intros [|c s]; cbn; [done..|]. by rewrite IH. Qed.
Lemma length_cat l : String.length (cat l) = foldr (λ s n, String.length s + n)%nat O l.
Proof. induction l as [|s l IH]; [done|]. cbn [cat foldr]. fold (cat l). by rewrite length_app_str, IH. Qed.

(** A report that is too large becomes a comment of at most 2000 bytes of it, cut at
    the end of a line or else of a character, with a notice and the link. *)
Theorem truncated_report_is_short body url now :
  (String.length (truncateReport body url now) ≤ 2150 + String.length url + String.length (RFC3339 now))%nat ∧
  (2000 < String.length body → valid_utf8 (utf8Prefix body 2000) = true ∧
     ∀ k, (String.length (utf8Prefix body 2000) < k ≤ 2000 → valid_utf8 (take_str k body) = false))%nat.
Proof.
  assert (Hp : (String.length (utf8Prefix body 2000) ≤ 2000)%nat).
  { unfold utf8Prefix. destruct (_ || _); [cbn; lia|]. destruct (Nat.leb_spec (String.length body) 2000); [done|].
    rewrite length_take_str. pose proof (valid_cut_spec 2000 body) as (H1 & _). lia. }
  split.
  - unfold truncateReport. set (short := utf8Prefix body 2000) in *. cbv zeta. rewrite length_cat. cbn [foldr].
    assert (∀ k, (String.length (if (0 <? LastIndexByte short (chr 10))%Z then take_str k short else short) ≤ 2000)%nat) as Hs.
    { intros k. destruct (_ <? _); [rewrite length_take_str; lia|done]. }
    specialize (Hs (Z.to_nat (LastIndexByte short (chr 10)))). destruct (nonempty url); rewrite length_cat; cbn [foldr];
      change (String.length LF) with 1%nat; cbn [String.length]; lia.
  - intros Hl. unfold utf8Prefix. rewrite bool_decide_eq_false_2 by (by intros ->; cbn in Hl; lia).
    destruct (Nat.leb_spec (String.length body) 2000); [lia|]. cbn [orb Nat.eqb].
    destruct (valid_cut_spec 2000 body) as (H1 & H2 & H3). split; [exact H2|]. intros k. rewrite length_take_str. intros Hk. apply H3. lia.
Qed.

(** ** What the sources do not intend *)

(** With a verification of the caller's, a run whose claims failed is reported as a
    success; the reporter's own verification makes it partial. *)
Theorem partial_is_reported_as_success E i v s :
  run_status (ri_result i) = "success" → vr_Partial v = true →
  (verified_status E (ri_repo i) (ri_issueNum i) (ri_result i) (Some v) s).1.1.1 = "success" ∧
  (∀ f, en_verifier E = Some f → f (rp_trace s) = inl (Some v) →
     (verified_status E (ri_repo i) (ri_issueNum i) (ri_result i) None s).1.1.1 = "partial").
Proof.
  intros Hs Hv. split; [exact Hs|]. intros f Hf Hfv. unfold verified_status. rewrite Hf, bool_decide_eq_true_2 by done.
  unfold verify_call, mbind, St_bind, at_now, getsS, ask. cbn [fst snd]. rewrite Hfv. by rewrite Hv.
Qed.

(** A comment that somebody has deleted: no further error with the reason is shown, and
    each of them keeps the entry alive for another half hour. *)
Theorem deleted_comment_silences_errors unicode_lower E i v s st e :
  en_editor E = true → infra i → fits (body_of E i v s) →
  live_entry (key_of i) (infra_reason (ri_result i)) (en_now E (rp_trace s)) (rp_dedup s) = Some st →
  (∀ tr, en_edit E tr = Some e) → IsRateLimit e = false →
  let '(r, s') := ReportVerified E unicode_lower i v s in
  r ≠ None ∧ ∀ t, t - en_now E (rp_trace s) ≤ infraDedupTTL →
    live_entry (key_of i) (infra_reason (ri_result i)) t (rp_dedup s') = Some (bumped st (en_now E (rp_trace s))).
Proof.
  intros He Hi Hf Hl Hedit Hrl. pose proof (report_repeats unicode_lower E i v s st He Hi Hf Hl) as Hrr.
  destruct (ReportVerified E unicode_lower i v s) as [r s'] eqn:Hrep. destruct Hrr as [Hd _]. split.
  - rewrite (report_infra unicode_lower E i v s Hi Hf) in Hrep. revert Hrep. unfold tryDedupInfraComment. rewrite He. cbn [negb].
    unfold mbind, St_bind, at_now, getsS, modS. cbn [fst snd]. change (ri_repo i, ri_issueNum i, ri_agentName i) with (key_of i).
    rewrite Hl. unfold writeWithRateLimitRetry. cbn [retry_loop rateLimitRetryDelays]. unfold mbind, St_bind, getsS, ask. cbn [fst snd].
    destruct (en_cancelled E _); [by intros [= <- _]|]. cbn [fst snd]. rewrite Hedit, Hrl. by intros [= <- _].
  - intros t Ht. revert Hl. rewrite Hd. unfold live_entry. rewrite lookup_insert_eq. destruct (rp_dedup s !! key_of i) as [st0|]; [|done]. cbn [mbind option_bind].
    destruct (dd_commentID st0 =? 0) eqn:E0, (bool_decide (dd_reason st0 = infra_reason (ri_result i))) eqn:E1, (infraDedupTTL <? _); cbn [orb negb]; try done.
    intros [= <-]. cbn [bumped dd_commentID dd_reason dd_lastSeen]. rewrite E0, E1. cbn [orb negb].
    destruct (Z.ltb_spec infraDedupTTL (t - en_now E (rp_trace s))); [lia|done].
Qed.

(** The size of a comment is checked before the badge of a repetition is added. *)
Theorem edited_comment_exceeds_the_limit body count first last :
  String.length body = maxCommentBodyBytes → fits body ∧ ¬ fits (infraRepeatBadge count first last +:+ body).
Proof.
  intros Hl. unfold fits. rewrite length_app_str, Hl. split; [done|]. unfold infraRepeatBadge. rewrite length_cat. cbn [foldr String.length]. lia.
Qed.

(** A verdict that quotes a report is taken for one. *)
Theorem quoted_report_hides_the_verdict reason author created repo n :
  Contains reason FooterMarkerPrefix = true →
  FormatComments [mkComment author (verdict_body reason) created] repo n = "[1 reporter/bot comment(s) filtered as noise.]".
Proof. intros Hr. unfold FormatComments. cbn [List.filter ic_Body]. by rewrite verdict_kept, Hr. Qed.

(** ** Witnesses *)

Definition demo_infra : ReportInput :=
  mkInput "o/r" 7 "dev" (infraFailureResult "launcher Start() failed" "no such file") "s1" "w1" 0 3 EmptyString EmptyString None.
Definition demo_renv : REnv :=
  mkREnv true false EmptyString (λ _, None) (λ _, inl 11) (λ _, None) None (λ _, inl EmptyString) None (λ _, false) (λ _, 0).
Definition demo_reported : Rep := (ReportVerified demo_renv (λ _, None) demo_infra None (mkRep [] ∅)).2.

Lemma launcher_errors_share_a_comment_witness :
  rp_dedup demo_reported !! ("o/r", 7, "dev") = Some (mkDedup 11 "launcher Start() failed" 1 0 0) ∧
  ∃ last, rp_dedup (reports (λ _, None) [(demo_renv, demo_infra, None)] demo_reported) !! ("o/r", 7, "dev") =
    Some (mkDedup 11 "launcher Start() failed" 2 0 last).
Proof.
  assert (Hfit : ∀ s, fits (body_of demo_renv demo_infra None s)).
  { intros s. unfold fits. apply Nat.leb_le. by vm_compute. }
  destruct (launcher_errors_share_a_comment (λ _, None) demo_renv demo_infra None (mkRep [] ∅) [(demo_renv, demo_infra, None)])
    as (id & first & _ & Hd & Hs & _); [done|by vm_compute|apply Hfit|done|by vm_compute|].
  assert (Hd' : rp_dedup demo_reported !! ("o/r", 7, "dev") = Some (mkDedup 11 "launcher Start() failed" 1 0 0)) by (by vm_compute).
  split; [exact Hd'|]. assert (Hsame : Some (mkDedup 11 "launcher Start() failed" 1 0 0) = Some (mkDedup id "launcher Start() failed" 1 first first)).
  { rewrite <-Hd'. exact Hd. }
  injection Hsame as <- <-.
  destruct Hs as [[last Hlast] _]; [done| |].
  - cbn [storm]. unfold about. rewrite bool_decide_eq_true_2 by done. split_and!; [done|by vm_compute|done|apply Hfit|done|done].
  - exists last. exact Hlast.
Defined.

