(* ===== verification/RepoRuntime.v ===== *)
(** * The coordinator's runtime of repositories

    [internal/app/repo_runtime.go] ([PollerManager]), with [recover.go],
    [task_reaper.go] and [claim_id.go]: one state machine per registered
    repository over one store, the events of all pollers handled one at a time, the
    dependency pass once per poll cycle, and the sweeps that recover orphaned
    issues and reap dead tasks.

    [pm_world] holds what is shared; the memory of a state machine is kept with its
    runtime and put into the world while an operation of that machine runs.  The
    choice of a reader and its pre-check talk to the host and are a parameter, and
    so is whether a runtime stops in time.  Each operation takes place at one
    instant; the goroutines interleave at operations. *)

From S2P Require Import Prelude GoLib Json GoText GoFormat Types DB TaskQueue IssueClaim StoreIssue StoreAdmin World Security Dependency StateMachine Router Config Registration.

Record RepoRuntime := mkRuntime {
  rr_Registration : RepoRegistrationRecord;
  rr_Config : FullConfig;
  rr_SM : SMState;
  rr_depsResolvedThisCycle : bool;
  rr_depGraphVersion : Z
}.
Record PollerManager := mkManager {
  pm_world : World;
  pm_runtimes : gmap string RepoRuntime
}.
Definition upd_pm_world (g : World → World) (pm : PollerManager) : PollerManager :=
  mkManager (g (pm_world pm)) (pm_runtimes pm).
Definition upd_pm_runtimes (g : gmap string RepoRuntime → gmap string RepoRuntime) (pm : PollerManager) : PollerManager :=
  mkManager (pm_world pm) (g (pm_runtimes pm)).
Definition set_rr_SM (s : SMState) (rt : RepoRuntime) : RepoRuntime :=
  mkRuntime (rr_Registration rt) (rr_Config rt) s (rr_depsResolvedThisCycle rt) (rr_depGraphVersion rt).
Definition set_rr_deps (b : bool) (rt : RepoRuntime) : RepoRuntime :=
  mkRuntime (rr_Registration rt) (rr_Config rt) (rr_SM rt) b (rr_depGraphVersion rt).
Definition set_rr_version (v : Z) (rt : RepoRuntime) : RepoRuntime :=
  mkRuntime (rr_Registration rt) (rr_Config rt) (rr_SM rt) (rr_depsResolvedThisCycle rt) v.

(** ** Claimer identity ([claim_id.go]) *)

Definition HostnameOrUnknown (hostname : option string) : string :=
  match hostname with Some h => if is_blank h then "unknown" else h | None => "unknown" end.
Definition BuildIssueClaimerID (hostname : option string) (ownPid : Z) (base : string) (pid : Z) : string :=
  let base := TrimSpace base in
  let base := if bool_decide (base = EmptyString) then "coordinator-" +:+ HostnameOrUnknown hostname else base in
  let pid := if pid <=? 0 then ownPid else pid in
  base +:+ "-pid-" +:+ itoa pid.

(** ** Which issues can be recovered *)

Definition parseCachedLabels (raw : string) : res (list string) :=
  if is_blank raw then Ok []
  else match unmarshal_strings raw with
       | Some l => Ok (default [] l)
       | None => Err (EMsg "parse cached labels")
       end.

Definition recoverableStateAgents (s : State) : list string :=
  if (0 <? length (s_Agents s))%nat then s_Agents s
  else if is_blank (s_Agent s) then [] else [s_Agent s].

Definition recoverable_in (labels : list string) (wf : WorkflowConfig) : list (string * string * list string) :=
  let trigger := TrimSpace (wf_IssueLabel wf) in
  if bool_decide (trigger = EmptyString) || negb (bool_decide (trigger ∈ labels)) then []
  else (λ p, (wf_Name wf, p.1, recoverableStateAgents p.2)) <$>
       List.filter (λ p, negb (bool_decide (s_EnterLabel p.2 = EmptyString)) && bool_decide (s_EnterLabel p.2 ∈ labels)
                         && negb (bool_decide (recoverableStateAgents p.2 = []))) (wf_States wf).
(** [Ok None] when no state matches; an error when several do. *)
Definition recoverableActiveState (cfg : FullConfig) (labels : list string) : res (option (string * string * list string)) :=
  match mjoin ((λ p, recoverable_in labels p.2) <$> fc_Workflows cfg) with
  | [] => Ok None
  | [m] => Ok (Some m)
  | _ => Err (EMsg "multiple active workflow states match labels")
  end.

Section manager.
Context `{YamlLib} (E : Env).
(** What the state machines are built with, but for their workflows. *)
Context (base : SMConfig) (ctx_done : nat → bool).
(** The resolver's reader, map orders and cancellation. *)
Context (reader : IssueReader) (order1 order2 : list (Z * Issue) → list (Z * Issue)) (cancelled : Z → bool).
(** The allowlist, whether a reaction could be set, whether a runtime stopped in
    time, and the reader and pre-check of a registration. *)
Context (sec : option Snapshot) (reaction_ok : string → Z → bool → bool) (stops : string → bool).
Context (decode : RepoRegistrationRecord → res FullConfig) (probe : RepoRegistrationRecord → res unit).

Definition runtime_config (rt : RepoRuntime) : SMConfig :=
  mkConfig (fc_Workflows (rr_Config rt)) (c_alertBus base) (c_capReporter base) (c_synthReporter base)
    (c_claimerID base) (c_claimLease base) (c_stuckTimeout base).

(** An operation of the shared world. *)
Definition on_shared {A} (m : St World A) : St PollerManager A :=
  λ pm, let r := m (pm_world pm) in (r.1, upd_pm_world (λ _, r.2) pm).
(** An operation of the state machine of [repo], whose memory is [rr_SM]. *)
Definition in_runtime {A} (repo : string) (rt : RepoRuntime) (m : St World A) : St PollerManager A :=
  λ pm, let r := m (upd_wd_sm (λ _, rr_SM rt) (pm_world pm)) in
        (r.1, upd_pm_runtimes (alter (set_rr_SM (wd_sm r.2)) repo)
                (upd_pm_world (λ _, upd_wd_sm (λ _, wd_sm (pm_world pm)) r.2) pm)).
Definition get_runtime (repo : string) : St PollerManager (option RepoRuntime) := getsS (λ pm, pm_runtimes pm !! repo).

(** ** The dependency pass of a cycle *)

Definition set_reaction (cached : IssueCache) : St World unit :=
  if negb (bool_decide (ic_State cached = "open")) then mret tt
  else
    r ← lift (QueryIssueDependencyState E (ic_Repo cached) (ic_IssueNum cached));
    match r with
    | Ok (Some state) =>
        let wantBlocked := gated (ds_Verdict state) in
        if Bool.eqb wantBlocked (ds_LastReactionBlocked state) then mret tt
        else
          report (SetBlockedReaction (ic_Repo cached) (ic_IssueNum cached) wantBlocked);;
          if negb (reaction_ok (ic_Repo cached) (ic_IssueNum cached) wantBlocked) then mret tt
          else _ ← lift (MarkDependencyReactionApplied E (ic_Repo cached) (ic_IssueNum cached) wantBlocked); mret tt
    | _ => mret tt
    end.
(** The part of the pass on the shared world. *)
Definition dependency_pass (repo : string) (graphVersion : Z) : St World unit :=
  r ← EvaluateOpenIssues E reader (c_alertBus base) order1 order2 cancelled repo graphVersion;
  match r with
  | Err _ => mret tt
  | Ok unblocked =>
      forS unblocked (λ n, _ ← lift (DeleteIssueCache E repo n); mret tt);;
      caches ← lift (ListIssueCaches E repo);
      match caches with
      | Err _ => mret tt
      | Ok caches => forS caches set_reaction
      end
  end.
Definition runDependencyMaintenance (repo : string) (rt : RepoRuntime) : St PollerManager unit :=
  let v := rr_depGraphVersion rt + 1 in
  modS (upd_pm_runtimes (alter (set_rr_version v) repo));;
  on_shared (dependency_pass (rg_Repo (rr_Registration rt)) v).

(** ** Events of the pollers *)

Definition handleEvent (ev : ChangeEvent) : St PollerManager unit :=
  let repo := ce_Repo ev in
  rt ← get_runtime repo;
  match rt with
  | None => mret tt
  | Some rt =>
      if bool_decide (ce_Type ev = EventPollCycleDone) then
        on_shared (Log EventPollCycleDone repo 0 [("source", JS "poller")]);;
        (if rr_depsResolvedThisCycle rt then mret tt else runDependencyMaintenance repo rt);;
        modS (upd_pm_runtimes (alter (set_rr_deps false) repo));;
        in_runtime repo rt ResetDedup
      else if negb (AllowSecurityEvent sec ev) then mret tt
      else
        (if rr_depsResolvedThisCycle rt then mret tt
         else runDependencyMaintenance repo rt;; modS (upd_pm_runtimes (alter (set_rr_deps true) repo)));;
        _ ← in_runtime repo rt (HandleEvent E (runtime_config rt) ctx_done ev);
        mret tt
  end.

(** ** Recovery *)

Definition recovery_event (cached : IssueCache) (labels : list string) : ChangeEvent :=
  mkChange EventIssueCreated (ic_Repo cached) (ic_IssueNum cached) labels EmptyString EmptyString.

(** One cached issue: whether it was dispatched again. *)
Definition recover_one (cfg : FullConfig) (C : SMConfig) (cached : IssueCache) : St World bool :=
  if negb (bool_decide (ic_State cached = "open")) then mret false
  else match parseCachedLabels (ic_Labels cached) with
       | Err _ => mret false
       | Ok labels =>
           match recoverableActiveState cfg labels with
           | Ok (Some _) =>
               active ← lift (HasAnyActiveTask E (ic_Repo cached) (ic_IssueNum cached));
               match active with
               | Ok false =>
                   r ← HandleEvent E C ctx_done (recovery_event cached labels);
                   mret (negb (is_err r))
               | _ => mret false
               end
           | _ => mret false
           end
       end.
Fixpoint recover_loop (cfg : FullConfig) (C : SMConfig) (caches : list IssueCache) (n : Z) : St World Z :=
  match caches with
  | [] => mret n
  | c :: caches => ok ← recover_one cfg C c; recover_loop cfg C caches (if (ok : bool) then n + 1 else n)
  end.
Definition recover_world (rt : RepoRuntime) : St World (res Z) :=
  caches ←! wrapE "list issue cache" (lift (ListIssueCaches E (rg_Repo (rr_Registration rt))));
  n ← recover_loop (rr_Config rt) (runtime_config rt) caches 0;
  mret (Ok n).
Definition recoverOrphanedActiveStates (repo : string) : St PollerManager (res Z) :=
  rt ← get_runtime repo;
  match rt with
  | None => mret (Ok 0)
  | Some rt => in_runtime repo rt (recover_world rt)
  end.

Fixpoint recover_all (repos : list string) (swept redispatched : Z) : St PollerManager (Z * Z) :=
  match repos with
  | [] => mret (swept, redispatched)
  | repo :: repos =>
      r ← recoverOrphanedActiveStates repo;
      recover_all repos (swept + 1) (match r with Ok n => redispatched + n | Err _ => redispatched end)
  end.
Definition runPeriodicRecoveryOnce : St PollerManager unit :=
  repos ← getsS (λ pm, (map_to_list (pm_runtimes pm)).*1);
  p ← recover_all repos 0 0;
  on_shared (Log "periodic_recovery_tick" EmptyString 0 [("repos_swept", JI p.1); ("issues_redispatched", JI p.2)]).

(** ** Lifecycle of runtimes *)

Definition stopRepo (repo : string) : St PollerManager (res unit) :=
  rt ← get_runtime repo;
  match rt with
  | None => mret (Ok tt)
  | Some rt =>
      modS (upd_pm_runtimes (base.delete repo));;
      in_runtime repo rt (ReleaseAllIssueClaims E (runtime_config rt));;
      mret (if stops repo then Ok tt else Err (EMsg ("timed out stopping repo runtime " +:+ repo)))
  end.
Definition StartOrUpdate (rec : RepoRegistrationRecord) : St PollerManager (res unit) :=
  match decode rec with
  | Err e => mret (Err e)
  | Ok cfg =>
      match probe rec with
      | Err e => mret (Err e)
      | Ok _ =>
          _ ←! stopRepo (rg_Repo rec);
          modS (upd_pm_runtimes (<[rg_Repo rec := mkRuntime rec cfg empty_sm false 0]>));;
          _ ← recoverOrphanedActiveStates (rg_Repo rec);
          mret (Ok tt)
      end
  end.
Definition LoadExisting : St PollerManager (res unit) :=
  regs ←! on_shared (lift (ListRepoRegistrations E));
  forE (List.filter (λ r, bool_decide (rg_Status r = "active")) regs) StartOrUpdate.
Definition Deregister (repo : string) : St PollerManager (res unit) :=
  _ ←! stopRepo repo;
  _ ←! on_shared (lift (FailPendingTasksForRepo E repo));
  on_shared (lift (DeleteRepoRegistration E repo)).
Definition stopAll : St PollerManager unit :=
  repos ← getsS (λ pm, (map_to_list (pm_runtimes pm)).*1);
  forS repos (λ repo, _ ← stopRepo repo; mret tt).
Definition Shutdown : St PollerManager unit := stopAll.

Definition ListStatuses : St PollerManager (res (list (RepoRegistrationRecord * string))) :=
  regs ←! on_shared (lift (ListRepoRegistrations E));
  runtimes ← getsS pm_runtimes;
  mret (Ok ((λ r, (r, if bool_decide (is_Some (runtimes !! rg_Repo r)) then "running" else "stopped")) <$> regs)).
Definition IsRegistered (repo : string) : St PollerManager (res bool) :=
  r ←! on_shared (lift (GetRepoRegistration E repo));
  mret (Ok (match r with Some r => bool_decide (rg_Status r = "active") | None => false end)).

Definition MarkAgentCompletedWithDecision (repo : string) (issueNum : Z) (taskID agentName : string) (exitCode : Z)
    (currentLabels : option (list string)) (decision : option SynthesisDecision) : St PollerManager unit :=
  rt ← get_runtime repo;
  match rt with
  | None => mret tt
  | Some rt => in_runtime repo rt
      (StateMachine.MarkAgentCompletedWithDecision E (runtime_config rt) repo issueNum taskID agentName exitCode currentLabels decision)
  end.
Definition ResolveAgentConfig (repo agentName : string) : St PollerManager (option AgentSpec) :=
  rt ← get_runtime repo;
  mret (rt ← rt; assoc (fc_Agents (rr_Config rt)) agentName).
Definition ClearInflight (repo : string) (issueNum : Z) : St PollerManager (option InflightGroupSnapshot) :=
  rt ← get_runtime repo;
  match rt with
  | None => mret None
  | Some rt => in_runtime repo rt (StateMachine.ClearInflight E (runtime_config rt) repo issueNum)
  end.

(** ** Start-up and the reaper ([recover.go], [task_reaper.go]) *)

Definition RecoverTasks (bus : bool) : St World (res unit) :=
  running ←! wrapE "query running tasks" (lift (QueryTasks E TaskStatusRunning));
  forS running (λ t,
    _ ← lift (UpdateTaskStatus E (t_ID t) TaskStatusFailed);
    publishAlert E bus "orphaned_task" SeverityWarn (t_Repo t) (t_IssueNum t) (t_AgentName t)
      [("task_id", JS (t_ID t)); ("status", JS TaskStatusFailed)]);;
  _ ←! wrapE "query pending tasks" (lift (QueryTasks E TaskStatusPending));
  mret (Ok tt).
Definition RecoverCoordinatorIssueClaims (currentPID : Z) : St DB (res unit) :=
  _ ←! wrapE "sweep stale coordinator issue claims" (DeleteStaleCoordinatorIssueClaims E currentPID);
  mret (Ok tt).

Definition formatReapedTime (t : option Z) : string :=
  match t with None => EmptyString | Some t => RFC3339 t end.
Definition reaper_runOnce (grace : Z) : St World unit :=
  r ← lift (ReapStaleRunningTasks E grace);
  match r with
  | (_, Some _) => mret tt
  | (reaped, None) =>
      forS reaped (λ t, Log "task_reaped" (t_Repo t) (t_IssueNum t)
        [("task_id", JS (t_ID t)); ("repo", JS (t_Repo t)); ("issue_num", JI (t_IssueNum t)); ("agent", JS (t_AgentName t));
         ("worker_id", JS (default EmptyString (t_WorkerID t))); ("last_heartbeat_at", JS (formatReapedTime (t_HeartbeatAt t)));
         ("reason", JS "no_heartbeat")])
  end.
End manager.
