(* ===== verification/RepoRuntimeSpec.v ===== *)
(** * What the runtime of repositories guarantees

    The composition of the components in [PollerManager]: the security filter and
    the dependency pass run before the state machine sees an event, one pass per
    poll cycle, one repository never touching another's runtime; the recovery sweep
    starts agents only for open issues without an active task; and deregistration. *)

From S2P Require Import Prelude GoLib Json GoText GoFormat Types DB TaskQueue IssueClaim StoreIssue StoreAdmin World Security Dependency StateMachine Router Config Registration RepoRuntime Frames Demo TaskQueueSpec StateMachineSpec SMBehaviour DependencySpec.

(** ** The dependency pass sends nothing *)

Section pass.
Context `{YamlLib} (E : Env) (base : SMConfig) (reader : IssueReader).
Context (order1 order2 : list (Z * Issue) → list (Z * Issue)) (cancelled : Z → bool).
Context (reaction_ok : string → Z → bool → bool).

(** What the pass leaves alone: the requests sent and the queue. *)
Definition pass_view (w : World) : list DispatchRequest * list TaskRecord := (wd_dispatch w, db_tasks (wd_db w)).
Ltac sent_leaf := intros; first [reflexivity | repeat case_match; simplify_eq/=; reflexivity].

Lemma resolve_deps_view repo num issues deps a : keeps (same pass_view) (resolve_deps reader repo num issues deps a).
Proof.
  revert a. induction deps as [|d deps IH]; intros a; cbn [resolve_deps]; [apply keeps_ret; apply _|].
  apply keeps_bind; [apply _| |auto]. frame_auto sent_leaf.
Qed.
#[local] Hint Resolve resolve_deps_view : frame.

Lemma evaluate_loop_view bus repo v issues cycles l acc :
  keeps (same pass_view) (evaluate_loop E reader bus cancelled repo v issues cycles l acc).
Proof.
  revert acc. induction l as [|p l IH]; intros acc; cbn [evaluate_loop]; [apply keeps_ret; apply _|].
  apply keeps_bindE; [apply _| |auto]. frame_auto sent_leaf.
Qed.
#[local] Hint Resolve evaluate_loop_view : frame.

Lemma pass_keeps_view repo v :
  keeps (same pass_view) (dependency_pass E base reader order1 order2 cancelled reaction_ok repo v).
Proof. unfold dependency_pass, EvaluateOpenIssues. frame_auto sent_leaf. Qed.

Lemma pass_sent repo v :
  keeps (same wd_dispatch) (dependency_pass E base reader order1 order2 cancelled reaction_ok repo v).
Proof. intros w. pose proof (pass_keeps_view repo v w) as Hp. by injection Hp. Qed.
End pass.

(** ** Recovery *)

(** The issue has no task that is pending or running. *)
Definition idle_issue (k : string * Z) (d : DB) : Prop :=
  Forall (λ t, row_issue k.1 k.2 t && status_in active_status t = false) (db_tasks d).

(** What the sweep keeps: tasks and verdicts, and the requests for an issue unless
    [cached] holds of it, it is idle and its verdict lets it through. *)
Definition sweep_kept (cached : Prop) (k : string * Z) : relation World := λ w w',
  db_tasks (wd_db w') = db_tasks (wd_db w) ∧ db_depstate (wd_db w') = db_depstate (wd_db w) ∧
  (sent_for k w' = sent_for k w ∨ cached ∧ idle_issue k (wd_db w) ∧ ¬ verdict_gated k w).

#[export] Instance sweep_kept_preorder cached k : PreOrder (sweep_kept cached k).
Proof.
  split; [by intros w; split_and!; auto|]. intros w1 w2 w3 (Ht & Hd & H1) (Ht' & Hd' & H2).
  split_and!; [congruence..|]. destruct H1 as [H1|]; [|by right].
  destruct H2 as [H2|(Hc & Hi & Hg)]; [left; congruence|right]. unfold idle_issue, verdict_gated in *.
  by rewrite <-Ht, <-Hd.
Qed.

Section recovery.
Context `{YamlLib} (E : Env) (ctx_done : nat → bool) (k : string * Z).

Definition queue_view (w : World) : list TaskRecord := db_tasks (wd_db w).
Ltac queue_leaf := intros; first [reflexivity | repeat case_match; simplify_eq/=; reflexivity].

Lemma event_keeps_tasks C ev : keeps (same queue_view) (HandleEvent E C ctx_done ev).
Proof. frame_auto queue_leaf. Qed.

Lemma event_sweeps C ev cached w :
  ((ce_Repo ev, ce_IssueNum ev) = k → cached ∧ idle_issue k (wd_db w)) →
  sweep_kept cached k w (HandleEvent E C ctx_done ev w).2.
Proof.
  intros Hev. destruct (gate_event E C k ctx_done ev w) as [Hd Hs].
  split_and!; [apply event_keeps_tasks|exact Hd|].
  destruct (decide ((ce_Repo ev, ce_IssueNum ev) = k)) as [Heq|Hne].
  - destruct (Hev Heq) as [Hc Hi].
    destruct (decide (sent_for k (HandleEvent E C ctx_done ev w).2 = sent_for k w)) as [|Hn]; [by left|].
    right. split_and!; auto.
  - left. pose proof (view_event E C k _ _ Hne ctx_done ev eq_refl w) as Hv. unfold same, issue_view in Hv.
    cbv zeta in Hv. by injection Hv.
Qed.

Lemma active_idle repo num w :
  (lift (HasAnyActiveTask E repo num) w).1 = Ok false → idle_issue (repo, num) (wd_db w).
Proof.
  unfold lift, HasAnyActiveTask, wrapE, sql_query, sql, mbind, St_bind, mret, St_ret. cbn.
  destruct (e_fault E _); [done|]. cbn. intros [= Ha]. apply Forall_forall. intros t Ht.
  destruct (_ && _) eqn:Hf; [|done]. assert (existsb (λ t, row_issue repo num t && status_in active_status t)
    (db_tasks (wd_db w)) = true) as Hx by (apply existsb_elem; eauto). by rewrite Ha in Hx.
Qed.

Lemma recover_one_sweeps (cached : Prop) cfg C c :
  ((ic_Repo c, ic_IssueNum c) = k → ic_State c = "open" → cached) →
  keeps (sweep_kept cached k) (recover_one E ctx_done cfg C c).
Proof.
  intros Hc w. unfold recover_one. case_bool_decide as Ho; cbn [negb]; [|by apply keeps_ret, _].
  destruct (parseCachedLabels _); [|by apply keeps_ret, _].
  destruct (recoverableActiveState _ _) as [[m|]|]; [|by apply keeps_ret, _..].
  pose proof (active_idle (ic_Repo c) (ic_IssueNum c) w) as Ha.
  unfold mbind, St_bind. destruct (lift _ w) as [[[]|] w1] eqn:El.
  all: assert (wd_dispatch w1 = wd_dispatch w ∧ db_tasks (wd_db w1) = db_tasks (wd_db w)
         ∧ db_depstate (wd_db w1) = db_depstate (wd_db w)) as (Hw1 & Hw2 & Hw3).
  1,3,5: replace w1 with (lift (HasAnyActiveTask E (ic_Repo c) (ic_IssueNum c)) w).2 by (by rewrite El);
    unfold lift, HasAnyActiveTask, wrapE, sql_query, sql, mbind, St_bind; by destruct (e_fault E _).
  all: assert (sweep_kept cached k w w1) as Hk by (split_and!; [done..|left; unfold sent_for; by rewrite Hw1]).
  1,3: exact Hk.
  etrans; [exact Hk|]. apply event_sweeps. intros Heq. split; [by apply Hc|].
  unfold idle_issue. cbn [snd]. rewrite Hw2. rewrite <-Heq. by apply Ha.
Qed.

Lemma recover_loop_sweeps (cached : Prop) cfg C caches n :
  (∀ c, c ∈ caches → (ic_Repo c, ic_IssueNum c) = k → ic_State c = "open" → cached) →
  keeps (sweep_kept cached k) (recover_loop E ctx_done cfg C caches n).
Proof.
  revert n. induction caches as [|c caches IH]; intros n Hc; cbn [recover_loop]; [by apply keeps_ret, _|].
  apply keeps_bind; [apply _|apply recover_one_sweeps; intros; eapply Hc; [left|..]; eauto|].
  intros ok. apply IH. intros c' Hin. apply Hc. by right.
Qed.
End recovery.

(** An open issue of the cache. *)
Definition open_cached (k : string * Z) (d : DB) : Prop :=
  ∃ key c, db_cache d !! key = Some c ∧ (ic_Repo c, ic_IssueNum c) = k ∧ ic_State c = "open".

(** C14: The recovery sweep starts an agent only for an orphan: if the requests of
    an issue change, then the issue was cached as open, it had neither a pending
    nor a running task, and its dependency verdict did not hold it back.  Tasks and
    verdicts are left alone, whatever statements fail. *)
Theorem recovery_dispatches_orphans `{YamlLib} E base ctx_done rt k w :
  let w' := (recover_world E base ctx_done rt w).2 in
  db_tasks (wd_db w') = db_tasks (wd_db w) ∧ db_depstate (wd_db w') = db_depstate (wd_db w) ∧
  (sent_for k w' ≠ sent_for k w →
   open_cached k (wd_db w) ∧ idle_issue k (wd_db w) ∧ ¬ verdict_gated k w).
Proof.
  cbv zeta. assert (sweep_kept (open_cached k (wd_db w)) k w (recover_world E base ctx_done rt w).2) as (Ht & Hd & Hs).
  2:{ split_and!; [done..|]. intros Hn. by destruct Hs. }
  unfold recover_world, ListIssueCaches, bindE, lift, wrapE, sql_query, sql, mbind, St_bind, mret, St_ret. cbn.
  destruct (e_fault E _); cbn; [by split_and!; auto|].
  etrans; [|apply recover_loop_sweeps with (cached := open_cached k (wd_db w))]; [by split_and!; auto|].
  intros c Hc Hk Ho. rewrite sort_by_perm in Hc. apply list_elem_of_fmap in Hc as (c' & -> & Hc).
  apply list_elem_of_In, filter_In in Hc as [Hc _]. apply list_elem_of_In, list_elem_of_fmap in Hc as ([key c1] & -> & Hc).
  apply elem_of_map_to_list in Hc. by exists key, c1.
Qed.

(** ** Events *)

Section events.
Context `{YamlLib} (E : Env) (base : SMConfig) (ctx_done : nat → bool) (reader : IssueReader).
Context (order1 order2 : list (Z * Issue) → list (Z * Issue)) (cancelled : Z → bool).
Context (sec : option Snapshot) (reaction_ok : string → Z → bool → bool).

#[local] Notation handle := (handleEvent E base ctx_done reader order1 order2 cancelled sec reaction_ok).

(** The dependency bookkeeping of a repository's runtime. *)
Definition pass_state (repo : string) (pm : PollerManager) : option (bool * Z) :=
  (λ rt, (rr_depsResolvedThisCycle rt, rr_depGraphVersion rt)) <$> pm_runtimes pm !! repo.

Definition is_cycle_done (ev : ChangeEvent) : bool := bool_decide (ce_Type ev = EventPollCycleDone).
(** The events that reach the runtime. *)
Definition passes (ev : ChangeEvent) : bool := is_cycle_done ev || AllowSecurityEvent sec ev.

(** A pass counts once until the end of the cycle. *)
Definition next_pass (ev : ChangeEvent) (s : bool * Z) : bool * Z :=
  if passes ev then (negb (is_cycle_done ev), if s.1 then s.2 else s.2 + 1) else s.

Lemma runtime_alter {A} (m : St World A) repo rt pm r :
  pm_runtimes (in_runtime repo rt m pm).2 !! r =
    if bool_decide (r = repo) then set_rr_SM (wd_sm (m (upd_wd_sm (λ _, rr_SM rt) (pm_world pm))).2) <$> pm_runtimes pm !! repo
    else pm_runtimes pm !! r.
Proof.
  unfold in_runtime. cbn. case_bool_decide; subst; [by rewrite lookup_alter_eq|by rewrite lookup_alter_ne].
Qed.

Lemma handle_pass_state ev pm :
  pass_state (ce_Repo ev) (handle ev pm).2 = next_pass ev <$> pass_state (ce_Repo ev) pm.
Proof.
  unfold pass_state, next_pass, passes, is_cycle_done, handleEvent, get_runtime, getsS, mbind, St_bind. cbn [fst snd].
  destruct (pm_runtimes pm !! ce_Repo ev) as [rt|] eqn:Hrt; cbn [fmap option_fmap option_map]; [|by unfold mret, St_ret; cbn; rewrite Hrt].
  case_bool_decide as Hc; cbn [orb negb].
  - rewrite runtime_alter, bool_decide_true by done.
    unfold runDependencyMaintenance, on_shared, modS, mret, St_ret, mbind, St_bind.
    destruct (rr_depsResolvedThisCycle rt) eqn:Hf; cbn; by rewrite !lookup_alter_eq, Hrt.
  - destruct (AllowSecurityEvent sec ev); cbn [negb]; [|by unfold mret, St_ret; cbn; rewrite Hrt].
    unfold mret, St_ret. cbn [snd]. rewrite runtime_alter, bool_decide_true by done.
    unfold runDependencyMaintenance, on_shared, modS, mbind, St_bind.
    destruct (rr_depsResolvedThisCycle rt) eqn:Hf; cbn; rewrite ?lookup_alter_eq, Hrt; cbn; by rewrite ?Hf.
Qed.

(** Only the runtime of the event's repository changes. *)
Lemma handle_other ev pm r : r ≠ ce_Repo ev → pm_runtimes (handle ev pm).2 !! r = pm_runtimes pm !! r.
Proof.
  intros Hr. unfold handleEvent. rewrite run_bind. unfold get_runtime, getsS. cbn [fst snd].
  destruct (pm_runtimes pm !! ce_Repo ev) as [rt|]; [|done].
  assert (∀ v, keeps (same (λ pm, pm_runtimes pm !! r)) (modS (upd_pm_runtimes (alter v (ce_Repo ev))))) as Ha.
  { intros v. apply keeps_modS. intros s. unfold same. cbn. by rewrite lookup_alter_ne. }
  assert (∀ A (m : St World A), keeps (same (λ pm, pm_runtimes pm !! r)) (in_runtime (ce_Repo ev) rt m)) as Hin.
  { intros A m s. unfold same. by rewrite runtime_alter, bool_decide_false. }
  assert (∀ A (m : St World A), keeps (same (λ pm, pm_runtimes pm !! r)) (on_shared m)) as Hon by done.
  match goal with |- pm_runtimes (?m pm).2 !! r = _ =>
    assert (keeps (same (λ pm, pm_runtimes pm !! r)) m) as Hk; [|exact (Hk pm)] end.
  unfold runDependencyMaintenance. repeat first [apply Ha | apply Hin | apply Hon | keep_step].
Qed.

Lemma sent_dispatch k w w' : wd_dispatch w' = wd_dispatch w → sent_for k w' = sent_for k w.
Proof. unfold sent_for. by intros ->. Qed.

(** Nothing is sent for an issue that is held back when the event is done. *)
Lemma handle_gated ev pm k :
  verdict_gated k (pm_world (handle ev pm).2) → sent_for k (pm_world (handle ev pm).2) = sent_for k (pm_world pm).
Proof.
  unfold handleEvent, get_runtime, getsS, mbind, St_bind, mret, St_ret. cbn [fst snd].
  destruct (pm_runtimes pm !! ce_Repo ev) as [rt|]; [|done].
  pose proof (λ v, pass_sent E base reader order1 order2 cancelled reaction_ok (rg_Repo (rr_Registration rt)) v) as Hp.
  case_bool_decide; [|destruct (AllowSecurityEvent sec ev); [|done]].
  - intros _. apply sent_dispatch. destruct (rr_depsResolvedThisCycle rt); [done|].
    exact (Hp (rr_depGraphVersion rt + 1) (Log EventPollCycleDone (ce_Repo ev) 0 [("source", JS "poller")] (pm_world pm)).2).
  - cbn [negb]. match goal with |- context [in_runtime _ _ _ ?p] => set (pm1 := p) end. intros Hg.
    assert (wd_dispatch (pm_world pm1) = wd_dispatch (pm_world pm)) as H1.
    { unfold pm1. destruct (rr_depsResolvedThisCycle rt); [done|]. exact (Hp (rr_depGraphVersion rt + 1) (pm_world pm)). }
    transitivity (sent_for k (pm_world pm1)); [|by apply sent_dispatch].
    destruct (gate_event E (runtime_config base rt) k ctx_done ev (upd_wd_sm (λ _, rr_SM rt) (pm_world pm1))) as [Hd Hs].
    apply Hs. unfold verdict_gated in *. cbn in Hg. by rewrite Hd in Hg.
Qed.
End events.

(** The verdicts in the shared store. *)
Definition verdicts (w : World) : gmap (string * Z) string := ds_Verdict <$> depstates w.

Section verdicts.
Context `{YamlLib} (E : Env) (base : SMConfig) (reader : IssueReader) (order1 order2 : list (Z * Issue) → list (Z * Issue)).
Context (reaction_ok : string → Z → bool → bool).
Hypothesis HE : quiet E.
Hypothesis Ho1 : ∀ l, order1 l ≡ₚ l.
Hypothesis Ho2 : ∀ l, order2 l ≡ₚ l.

Lemma same_verdicts {A} (m : St World A) : keeps (same depstates) m → keeps (same verdicts) m.
Proof. intros Hm w. unfold same, verdicts. by rewrite (Hm w). Qed.
Lemma reaction_verdicts cached : keeps (same verdicts) (set_reaction E reaction_ok cached).
Proof.
  assert (∀ r n b, keeps (same verdicts) (lift (MarkDependencyReactionApplied E r n b))) as Hmark.
  { intros r n b w. unfold same, verdicts, depstates, lift, MarkDependencyReactionApplied, wrapE, mbind, St_bind. rewrite sql_quiet by done. cbn.
    apply map_eq. intros k. rewrite !lookup_fmap. destruct (decide (k = (r, n))) as [->|]; [|by rewrite lookup_alter_ne].
    rewrite lookup_alter_eq. by destruct (_ !! _). }
  assert (∀ r n, keeps (same verdicts) (lift (QueryIssueDependencyState E r n))) as Hq.
  { intros r n. apply same_verdicts. frame_auto depstates_leaf. }
  unfold set_reaction. repeat first [apply Hmark | apply Hq | done | keep_step].
Qed.

Lemma row_after_verdict repo issues cycles prev new new' n i :
  ds_Verdict <$> new = ds_Verdict <$> new' → row_after reader repo issues cycles prev new n i → row_after reader repo issues cycles prev new' n i.
Proof.
  unfold row_after. intros Hv. destruct (_ || _).
  - intros (s & -> & Hs). destruct new' as [s'|]; [|done]. injection Hv as Hv. exists s'. split; [done|]. congruence.
  - intros ->. by destruct new'.
Qed.

(** After the pass every open issue of the cache has the verdict its dependencies call for. *)
Definition resolved (repo : string) (w w' : World) : Prop :=
  ∃ caches, (lift (ListIssueCaches E repo) w).1 = Ok caches ∧
    let issues := open_issues caches in
    ∀ n i, issues !! n = Some i →
      row_after reader repo issues (default ∅ (detectCycles (issue_graph repo issues))) (depstates w !! (repo, n)) (depstates w' !! (repo, n)) n i.

Lemma pass_resolves repo v w : resolved repo w (dependency_pass E base reader order1 order2 (λ _, false) reaction_ok repo v w).2.
Proof.
  destruct (open_issues_pass E reader (c_alertBus base) order1 order2 repo v w HE Ho1 Ho2) as (caches & w1 & out & Hc & Hok & Hrows & _).
  exists caches. split; [by rewrite Hc|]. intros issues n i Hi. specialize (Hrows n i Hi).
  unfold dependency_pass. rewrite run_bind, Hok. set (w2 := (EvaluateOpenIssues _ _ _ _ _ _ _ _ w).2) in *.
  match goal with |- context [depstates (?m w2).2] => assert (keeps (same verdicts) m) as Hk end.
  { apply keeps_bind; [apply _| |intros _].
    - apply keeps_forS; [apply _|]. intros k. apply keeps_bind; [apply _| |intros; by apply keeps_ret, _]. apply same_verdicts. frame_auto depstates_leaf.
    - apply keeps_bind; [apply _|apply same_verdicts; frame_auto depstates_leaf|]. intros [l|e]; [|by apply keeps_ret, _].
      apply keeps_forS; [apply _|]. apply reaction_verdicts. }
  eapply row_after_verdict; [|exact Hrows]. specialize (Hk w2). unfold same, verdicts in Hk.
  apply (f_equal (λ m, m !! (repo, n))) in Hk. by rewrite !lookup_fmap in Hk.
Qed.
End verdicts.

(** C9: Before the state machine of a repository sees an event, the event has passed the
    allowlist and the dependency pass.  Events of repositories without a runtime, and new
    issues and label changes by authors who are not allowed, change nothing.  The first
    event of a cycle that is let through, with no statement failing and no cancellation,
    leaves every open issue of the repository with the verdict its dependencies call for;
    and an issue whose verdict holds it back once the event is handled is sent no request
    by it, so that the requests of the event obey these verdicts.  The runtimes of all
    other repositories are left as they were. *)
Theorem events_pass_the_gates `{YamlLib} E base ctx_done reader order1 order2 cancelled sec reaction_ok ev pm :
  let pm' := (handleEvent E base ctx_done reader order1 order2 cancelled sec reaction_ok ev pm).2 in
  (pm_runtimes pm !! ce_Repo ev = None ∨ passes sec ev = false → pm' = pm) ∧
  (∀ rt, pm_runtimes pm !! ce_Repo ev = Some rt → passes sec ev = true → rr_depsResolvedThisCycle rt = false →
     quiet E → (∀ l, order1 l ≡ₚ l) → (∀ l, order2 l ≡ₚ l) → cancelled = (λ _, false) →
     resolved E reader (rg_Repo (rr_Registration rt)) (pm_world pm) (pm_world pm')) ∧
  (∀ k, verdict_gated k (pm_world pm') → sent_for k (pm_world pm') = sent_for k (pm_world pm)) ∧
  (∀ r, r ≠ ce_Repo ev → pm_runtimes pm' !! r = pm_runtimes pm !! r).
Proof.
  cbv zeta. split_and!; [| |intros; by apply handle_gated|intros; by apply handle_other].
  - unfold handleEvent. rewrite run_bind. unfold get_runtime, getsS. cbn [fst snd].
    intros [->|Hp]; [done|]. unfold passes, is_cycle_done in Hp. apply orb_false_iff in Hp as [-> ->].
    by destruct (pm_runtimes pm !! ce_Repo ev).
  - intros rt Hrt Hp Hf HE H1 H2 ->. pose proof (pass_resolves E base reader order1 order2 reaction_ok HE H1 H2 (rg_Repo (rr_Registration rt)) (rr_depGraphVersion rt + 1)) as Hr.
    unfold handleEvent, get_runtime, getsS, mbind, St_bind, mret, St_ret. cbn [fst snd]. rewrite Hrt. unfold passes, is_cycle_done in Hp.
    case_bool_decide; cbn [orb] in Hp.
    + rewrite Hf. exact (Hr (Log EventPollCycleDone (ce_Repo ev) 0 [("source", JS "poller")] (pm_world pm)).2).
    + rewrite Hp, Hf. cbn [negb]. match goal with |- context [in_runtime _ _ _ ?p] => set (pm1 := p) end.
      destruct (gate_event E (runtime_config base rt) (EmptyString, 0) ctx_done ev (upd_wd_sm (λ _, rr_SM rt) (pm_world pm1))) as [Hd _].
      specialize (Hr (pm_world pm)). destruct Hr as (caches & Hc & Hrow). exists caches. split; [done|]. intros issues n i Hi.
      eapply row_after_verdict; [|exact (Hrow n i Hi)].
      exact (f_equal (λ m, ds_Verdict <$> m !! (rg_Repo (rr_Registration rt), n)) (eq_sym Hd)).
Qed.

Definition cycles_of (repo : string) (evs : list ChangeEvent) : Z :=
  Z.of_nat (length (List.filter (λ ev, bool_decide (ce_Repo ev = repo) && is_cycle_done ev) evs)).

Lemma next_pass_measure sec ev s :
  let s' := next_pass sec ev s in s'.2 - Z.b2z s'.1 = s.2 - Z.b2z s.1 + Z.b2z (is_cycle_done ev).
Proof.
  cbv zeta. unfold next_pass, passes. destruct (is_cycle_done ev); cbn [orb]; [destruct s as [[] v]; cbn; lia|].
  destruct (AllowSecurityEvent sec ev), s as [[] v]; cbn; lia.
Qed.

(** The dependencies of a repository are resolved exactly once per poll
    cycle.  Over any sequence of events of any repositories, the number of passes
    made for a repository is the number of its cycles that ended, and one more
    exactly when the current cycle has seen an event already. *)
Theorem one_pass_per_cycle `{YamlLib} E base ctx_done reader order1 order2 cancelled sec reaction_ok repo evs pm f v :
  pass_state repo pm = Some (f, v) →
  ∃ f' v', pass_state repo (forS evs (handleEvent E base ctx_done reader order1 order2 cancelled sec reaction_ok) pm).2
             = Some (f', v') ∧
           v' - Z.b2z f' = v - Z.b2z f + cycles_of repo evs.
Proof.
  revert pm f v. induction evs as [|ev evs IH]; intros pm f v Hs.
  { exists f, v. split; [done|]. unfold cycles_of. cbn. lia. }
  cbn [forS]. rewrite run_bind. set (pm1 := (handleEvent _ _ _ _ _ _ _ _ _ ev pm).2).
  destruct (decide (ce_Repo ev = repo)) as [<-|Hr].
  - assert (pass_state (ce_Repo ev) pm1 = Some (next_pass sec ev (f, v))) as H1.
    { unfold pm1. by rewrite handle_pass_state, Hs. }
    pose proof (next_pass_measure sec ev (f, v)) as Hm. cbv zeta in Hm.
    destruct (next_pass sec ev (f, v)) as [f1 v1]. destruct (IH pm1 f1 v1 H1) as (f' & v' & Hs' & Hv).
    exists f', v'. split; [done|]. rewrite Hv. cbn [fst snd] in Hm. rewrite Hm. unfold cycles_of. cbn [List.filter].
    rewrite bool_decide_true by done. destruct (is_cycle_done ev); cbn [andb length Z.b2z]; lia.
  - assert (pass_state repo pm1 = Some (f, v)) as H1.
    { unfold pm1, pass_state. rewrite handle_other by done. exact Hs. }
    destruct (IH pm1 f v H1) as (f' & v' & Hs' & Hv). exists f', v'. split; [done|]. rewrite Hv.
    unfold cycles_of. cbn [List.filter]. by rewrite (bool_decide_false (ce_Repo ev = repo)).
Qed.

(** ** Deregistration *)

Definition queue_and_repos (w : World) : list TaskRecord * gmap string RepoRegistrationRecord :=
  (db_tasks (wd_db w), db_repos (wd_db w)).
Ltac tables_leaf := intros; first [reflexivity | repeat case_match; simplify_eq/=; reflexivity].
Lemma release_keeps_tables E C : keeps (same queue_and_repos) (ReleaseAllIssueClaims E C).
Proof. frame_auto tables_leaf. Qed.

(** The row of a task after the repository it belongs to is gone. *)
Definition failed_with_repo (repo : string) (E : Env) (t : TaskRecord) : TaskRecord :=
  if bool_decide (t_Repo t = repo) && status_in active_status t
  then upd_t_Status (λ _, TaskStatusFailed) (upd_t_ExitCode (λ _, 1)
         (upd_t_CompletedAt (λ _, Some (sql_now E)) (upd_t_UpdatedAt (λ _, Some (sql_now E)) t)))
  else t.

Lemma fail_tasks_run E repo pm :
  quiet E →
  on_shared (lift (FailPendingTasksForRepo E repo)) pm
  = (Ok tt, upd_pm_world (upd_wd_db (λ d, upd_db_call (upd_db_tasks (fmap (failed_with_repo repo E)) d))) pm).
Proof.
  intros HE. unfold on_shared, lift, FailPendingTasksForRepo, bindE, wrapE, mbind, St_bind.
  rewrite sql_quiet by done. done.
Qed.

Lemma stop_spec E base stops repo pm :
  let r := stopRepo E base stops repo pm in
  r.1 = (if bool_decide (pm_runtimes pm !! repo = None) || stops repo then Ok tt
         else Err (EMsg ("timed out stopping repo runtime " +:+ repo))) ∧
  pm_runtimes r.2 = base.delete repo (pm_runtimes pm) ∧
  queue_and_repos (pm_world r.2) = queue_and_repos (pm_world pm).
Proof.
  cbv zeta. unfold stopRepo. rewrite run_bind. unfold get_runtime, getsS. cbn [fst snd].
  destruct (pm_runtimes pm !! repo) as [rt|] eqn:Hrt.
  - rewrite bool_decide_false by done. rewrite !run_bind. cbn [orb]. split_and!.
    + by destruct (stops repo).
    + cbn. apply map_eq. intros j. destruct (decide (j = repo)) as [->|Hj].
      * by rewrite lookup_alter_eq, lookup_delete_eq.
      * by rewrite lookup_alter_ne by done.
    + exact (release_keeps_tables E (runtime_config base rt) (upd_wd_sm (λ _, rr_SM rt) (pm_world pm))).
  - rewrite bool_decide_true by done. split_and!; [done| |done]. cbn. by rewrite delete_id.
Qed.

(** Deregistering a repository removes its runtime and its registration and
    fails its tasks that are pending or running, so that none is left active;
    runtimes and registrations of other repositories and their tasks stay.  When
    the runtime does not stop in time it is gone all the same, but the registration
    and the tasks are kept, for the next start to load. *)
Theorem deregister_forgets `{YamlLib} E base stops repo pm :
  quiet E →
  let r := Deregister E base stops repo pm in
  let pm' := r.2 in
  pm_runtimes pm' = base.delete repo (pm_runtimes pm) ∧
  if bool_decide (pm_runtimes pm !! repo = None) || stops repo then
    r.1 = Ok tt ∧ db_repos (wd_db (pm_world pm')) = base.delete repo (db_repos (wd_db (pm_world pm))) ∧
    db_tasks (wd_db (pm_world pm')) = failed_with_repo repo E <$> db_tasks (wd_db (pm_world pm)) ∧
    Forall (λ t, t_Repo t = repo → status_in active_status t = false) (db_tasks (wd_db (pm_world pm')))
  else
    is_err r.1 = true ∧ db_repos (wd_db (pm_world pm')) = db_repos (wd_db (pm_world pm)) ∧
    db_tasks (wd_db (pm_world pm')) = db_tasks (wd_db (pm_world pm)).
Proof.
  intros HE. cbv zeta. destruct (stop_spec E base stops repo pm) as (Hv & Hm & Hq). injection Hq as Ht Hr.
  destruct (stopRepo E base stops repo pm) as [v pm1] eqn:Hst. cbn [fst snd] in *. subst v.
  unfold Deregister. destruct (bool_decide _ || _).
  - rewrite !(run_bindE_ok _ _ _ _ _ Hst), !(run_bindE_ok _ _ _ _ _ (fail_tasks_run E repo pm1 HE)).
    unfold on_shared, lift, DeleteRepoRegistration, wrapE, mbind, St_bind. rewrite sql_quiet by done. cbn.
    rewrite Ht, Hr. split_and!; [done..|]. apply Forall_fmap, Forall_true. intros t.
    unfold failed_with_repo, compose. destruct (status_in active_status t) eqn:Hs; [|by rewrite andb_false_r, Hs].
    case_bool_decide; cbn [andb]; [by intros _|]. by intros ?.
  - unfold bindE. rewrite !run_bind, Hst. cbn [fst snd]. by split_and!.
Qed.

(** ** Concrete runs *)

Definition demo_full : FullConfig := mkFullConfig "o/r" "prod" 0 [] [("default", default_workflow)].
Definition demo_rec : RepoRegistrationRecord := mkRepoReg "o/r" "prod" "active" "{}" None None.
Definition demo_labels_json : string := marshal_list developing_labels.
Definition demo_cached (num : Z) : IssueCache := mkCache "o/r" num demo_labels_json EmptyString "open" None 0 "t".
(** Issue 7 has a pending task, issue 3 is an orphan. *)
Definition demo_manager : PollerManager :=
  mkManager (upd_wd_db (upd_db_repos (λ _, {[ "o/r" := demo_rec ]}))
               (upd_wd_db (upd_db_tasks (λ _, [demo_task "c" TaskStatusPending None None None]))
                 (upd_wd_db (upd_db_cache (λ _, {[ ("o/r", 7) := demo_cached 7; ("o/r", 3) := demo_cached 3 ]})) empty_world)))
    {[ "o/r" := mkRuntime demo_rec demo_full empty_sm false 0 ]}.
Definition demo_base : SMConfig := demo_config "coordinator-a".
Definition no_reader : IssueReader := λ _ _, inl "not found".
Definition demo_handle (sec : option Snapshot) : ChangeEvent → St PollerManager unit :=
  handleEvent (demo_env 0) demo_base (λ _, false) no_reader id id (λ _, false) sec (λ _ _ _, true).
Definition only_alice : Snapshot := newSnapshot ["alice"] SourceFlag.
Definition mallory_event : ChangeEvent :=
  mkChange EventIssueCreated "o/r" 3 developing_labels EmptyString "mallory".
Definition demo_done : ChangeEvent := mkChange EventPollCycleDone "o/r" 0 [] EmptyString EmptyString.

(** The sweep starts the orphan's agent and leaves the busy issue. *)
Example demo_recovery :
  let r := recoverOrphanedActiveStates (demo_env 0) demo_base (λ _, false) "o/r" demo_manager in
  r.1 = Ok 1 ∧
  wd_dispatch (pm_world r.2) = [mkDispatch "o/r" 3 "dev-agent" "default" "developing" "developing" 0 0 EmptyString].
Proof. vm_compute. done. Qed.

(** The recovery sweep does not ask the allowlist.  The event of an issue opened by
    somebody who is not allowed is dropped, but the poller has cached the issue by
    then, and the next sweep starts its agent. *)
Theorem recovery_ignores_the_allowlist :
  (demo_handle (Some only_alice) mallory_event demo_manager).2 = demo_manager ∧
  wd_dispatch (pm_world (recoverOrphanedActiveStates (demo_env 0) demo_base (λ _, false) "o/r" demo_manager).2)
    = [mkDispatch "o/r" 3 "dev-agent" "default" "developing" "developing" 0 0 EmptyString].
Proof. split; vm_compute; done. Qed.

Definition demo_events : list ChangeEvent := [mallory_event; demo_done; demo_event 3; demo_event 7; demo_done; demo_event 3].
Lemma demo_pass : pass_state "o/r" demo_manager = Some (false, 0).
Proof. vm_compute. reflexivity. Qed.

Lemma one_pass_per_cycle_witness :
  pass_state "o/r" demo_manager = Some (false, 0) ∧ cycles_of "o/r" demo_events = 2 ∧
  ∃ f' v', pass_state "o/r" (forS demo_events
             (handleEvent (demo_env 0) demo_base (λ _, false) no_reader id id (λ _, false) (Some only_alice) (λ _ _ _, true))
             demo_manager).2 = Some (f', v') ∧ v' - Z.b2z f' = 0 - Z.b2z false + cycles_of "o/r" demo_events.
Proof.
  split; [exact demo_pass|]. split; [vm_compute; reflexivity|].
  exact (one_pass_per_cycle _ _ _ _ _ _ _ _ _ "o/r" demo_events demo_manager false 0 demo_pass).
Defined.

Lemma deregister_forgets_witness :
  quiet (demo_env 0) ∧ pm_runtimes (Deregister (demo_env 0) demo_base (λ _, true) "o/r" demo_manager).2 = ∅.
Proof.
  split; [done|]. destruct (deregister_forgets (demo_env 0) demo_base (λ _, true) "o/r" demo_manager) as [-> _]; [done|].
  vm_compute. reflexivity.
Defined.
