(* ===== verification/Coordinator.v ===== *)
(** * The coordinator's control plane

    [internal/app/coordinator.go] and [internal/app/auth_handlers.go]: the handlers
    of [FullCoordinatorServer] for repositories, workers, tasks and sessions, bearer
    authentication and browser login.

    A request carries what the handlers read of it; a JSON body is [None] when it
    does not decode.  [url.Parse] of the audit URL, [time.ParseDuration] and the
    query escaping of the login redirect are parameters.  The state is the runtime
    of repositories ([PollerManager]), which holds the store, the completions
    published on the task hub and the number of membership notifications.  The
    worker tunnel, a web socket, and [/api/v1/config/reload] are left out, and so
    are the GitHub reads that fill a synthesis context. *)

From S2P Require Import Prelude GoLib Json GoText GoFormat Bus Types DB TaskQueue StoreIssue StoreAdmin World Dependency StateMachine Router Config Registration RepoRuntime.
From Stdlib Require Import Ascii.

(** ** Requests and responses *)

Record Request := mkRequest {
  rq_Method : string;
  rq_Path : string;
  rq_URI : string;
  rq_Authorization : string;
  rq_Accept : string;
  rq_Cookie : option string
}.
Record Cookie := mkCookie { ck_Name : string; ck_Value : string; ck_Secure : bool; ck_MaxAge : Z }.

Record WorkerRegisterRequest := mkWorkerReg {
  wq_WorkerID : string; wq_Repo : string; wq_Roles : list string; wq_Runtime : string; wq_Repos : list string;
  wq_Hostname : string; wq_MgmtBaseURL : string; wq_Tunnel : bool; wq_AuditURL : string;
  wq_OpenSessions : list (string * string * Z)
}.
Record TaskResultRequest := mkResult {
  rs_WorkerID : string; rs_Status : string; rs_CurrentLabels : option (list string); rs_InfraFailure : bool;
  rs_InfraReason : string; rs_SynthesisDecision : option SynthesisDecision
}.
(** What [taskprep.BuildSynthesisContext] is asked for. *)
Record SynthesisRequest := mkSynthesis {
  sy_Repo : string; sy_IssueNum : Z; sy_Workflow : string; sy_SourceState : string; sy_State : State;
  sy_Source : option State
}.

Section server.
Context {Syn : Type}.

Record TaskPollResponse := mkPoll {
  tp_TaskID : string; tp_Repo : string; tp_IssueNum : Z; tp_AgentName : string; tp_Workflow : string; tp_State : string;
  tp_RolloutIndex : Z; tp_RolloutsTotal : Z; tp_RolloutGroupID : string; tp_Roles : list string;
  tp_Synthesis : option Syn; tp_Agent : option AgentSpec
}.
Record RepoStatusResponse := mkRepoStatus {
  rp_Repo : string; rp_Environment : string; rp_Status : string; rp_PollerStatus : string;
  rp_RegisteredAt : option Z; rp_UpdatedAt : option Z
}.
Inductive Body :=
  | BNone
  | BError (msg : string)
  | BFailed (e : error)
  | BRollback (e rollback : error)
  | BStatus (status : string)
  | BHealth (repos : nat)
  | BRepos (l : list RepoStatusResponse)
  | BTask (t : TaskPollResponse)
  | BInflight (repo : string) (issueNum : Z) (group : InflightGroupSnapshot)
  | BLogin (next err : string)
  | BRedirect (target : string).
Record Response := mkResponse { re_Code : Z; re_Body : Body; re_Cookie : option Cookie }.

Definition reply (code : Z) (b : Body) : Response := mkResponse code b None.
Definition method_not_allowed : Response := reply 405 (BError "method not allowed").
Definition NotFound : Response := reply 404 (BError "404 page not found").

Record Server := mkServer {
  sv_pm : PollerManager;
  sv_published : list TaskEvent;
  sv_membership : nat
}.
Definition sv_db (s : Server) : DB := wd_db (pm_world (sv_pm s)).

Definition on_pollers {A} (m : St PollerManager A) : St Server A :=
  λ s, let r := m (sv_pm s) in (r.1, mkServer r.2 (sv_published s) (sv_membership s)).
Definition on_store {A} (m : St DB A) : St Server A := on_pollers (on_shared (lift m)).
Definition log_event (ty repo : string) (num : Z) (payload : list (string * jval)) : St Server unit :=
  on_pollers (on_shared (Log ty repo num payload)).
Definition OnWorkerMembershipChange : St Server unit :=
  modS (λ s, mkServer (sv_pm s) (sv_published s) (S (sv_membership s))).
Definition PublishTaskCompletion (taskID repo : string) (num : Z) (agent status : string) (exitCode : Z) : St Server unit :=
  modS (λ s, mkServer (sv_pm s) (sv_published s ++ [mkTaskEvent taskID repo num agent status exitCode]) (sv_membership s)).

(** ** Paths and values *)

Definition task_prefix : string := "/api/v1/tasks/".
Definition parseFullTaskActionPath (path : string) : option (string * string) :=
  match Split "/" (TrimByte "/" (TrimPrefix path task_prefix)) with
  | [id; action] => if bool_decide (id = EmptyString) || bool_decide (action = EmptyString) then None else Some (id, action)
  | _ => None
  end.

Definition issue_prefix : string := "/api/v1/admin/issues/".
Definition parseClearIssueInflightPath (path : string) : option (string * Z) :=
  let parts := Split "/" (TrimByte "/" (TrimPrefix path issue_prefix)) in
  if (length parts <? 4)%nat then None
  else match rev parts with
       | last :: num :: owner =>
           if negb (bool_decide (last = "clear-inflight")) then None
           else match atoi num with
                | None => None
                | Some n => if n <=? 0 then None
                            else let repo := join_str "/" (rev owner) in
                                 if is_blank repo then None else Some (repo, n)
                end
       | _ => None
       end.

Definition worker_prefix : string := "/api/v1/workers/".
Definition announce_suffix : string := "/sessions/announce".
Definition parseAnnounceSessionPath (path : string) : option string :=
  if negb (HasPrefix path worker_prefix) || negb (HasSuffix path announce_suffix) then None
  else let id := TrimSpace (TrimSuffix (TrimPrefix path worker_prefix) announce_suffix) in
       if bool_decide (id = EmptyString) || Contains id "/" then None else Some id.

Definition NormalizeTaskResultStatus (raw : string) : string :=
  let s := TrimSpace (ToLower raw) in
  if bool_decide (s ∈ [TaskStatusCompleted; TaskStatusFailed; TaskStatusTimeout]) then s else EmptyString.

Definition DefaultLongPollTimeout : Z := 30 * second.
Definition ParseLongPollTimeout (ParseDuration : string → option Z) (raw : string) : Z :=
  let raw := TrimSpace raw in
  if bool_decide (raw = EmptyString) then DefaultLongPollTimeout
  else match ParseDuration raw with
       | Some d => if 0 <? d then d else DefaultLongPollTimeout
       | None => DefaultLongPollTimeout
       end.

(** ** Handlers *)

Context `{YamlLib} (base : SMConfig) (ctx_done : nat → bool) (stops : string → bool).
Context (probe : RepoRegistrationRecord → res unit).
(** What [Registration] takes of the host: schema files and the JSON codec. *)
Context (resolve : string → string → string) (stat : string → bool).
Context (marshal : RepoRegistrationPayload → string) (unmarshal : string → option RepoRegistrationPayload).
(** Scheme and host of a URL that parses. *)
Context (url_Parse : string → option (string * string)).
(** The configuration of [s.Config], when there is one, and the synthesis context. *)
Context (config_dir : option FullConfig) (synthesis : SynthesisRequest → option Syn).

Definition HandleClearIssueInflight (E : Env) (rq : Request) : St Server Response :=
  if negb (bool_decide (rq_Method rq = "POST")) then mret method_not_allowed
  else match parseClearIssueInflightPath (rq_Path rq) with
       | None => mret (reply 400 (BError "invalid issue path; expect /api/v1/admin/issues/<owner>/<repo>/<num>/clear-inflight"))
       | Some (repo, n) =>
           snapshot ← on_pollers (ClearInflight E base repo n);
           mret (match snapshot with
                 | None => reply 404 (BError "no inflight entry for issue")
                 | Some g => reply 200 (BInflight repo n g)
                 end)
       end.

Definition HandleHealth (E : Env) : St Server Response :=
  r ← on_pollers (ListStatuses E);
  mret (match r with Ok l => reply 200 (BHealth (length l)) | Err e => reply 500 (BFailed e) end).

(** ** Repositories *)

Record RepoRegisterRequest := mkRepoRequest {
  rr_Repo : string; rr_Environment : string; rr_Agents : list (option AgentSpec); rr_Workflows : list (option WorkflowConfig)
}.

(** The record is put back, or removed when there was none. *)
Definition restore_registration (E : Env) (repo : string) (prev : option RepoRegistrationRecord) : St Server (res unit) :=
  match prev with
  | Some p => on_store (UpsertRepoRegistration E p)
  | None => on_store (DeleteRepoRegistration E repo)
  end.
Definition start_registered (E : Env) (rec : RepoRegistrationRecord) : St Server (res unit) :=
  on_pollers (StartOrUpdate E base ctx_done stops (DecodeRepoRegistrationConfig resolve stat unmarshal) probe rec).
Definition HandleRegisterRepo (E : Env) (rq : Request) (body : option RepoRegisterRequest) : St Server Response :=
  if negb (bool_decide (rq_Method rq = "POST")) then mret method_not_allowed
  else match body with
  | None => mret (reply 400 (BError "invalid JSON"))
  | Some req =>
      let repo := TrimSpace (rr_Repo req) in
      if bool_decide (repo = EmptyString) then mret (reply 400 (BError "repo is required"))
      else match BuildRepoRegistrationRecord resolve stat marshal unmarshal
                   (mkPayload repo (TrimSpace (rr_Environment req)) 0 (rr_Agents req) (rr_Workflows req)) with
           | Err e => mret (reply 400 (BFailed e))
           | Ok rec =>
               prev ← on_store (GetRepoRegistration E repo);
               match prev with
               | Err e => mret (reply 500 (BFailed e))
               | Ok prev =>
                   saved ← on_store (UpsertRepoRegistration E rec);
                   match saved with
                   | Err e => mret (reply 500 (BFailed e))
                   | Ok _ =>
                       started ← start_registered E rec;
                       match started with
                       | Ok _ => mret (reply 200 (BStatus "registered"))
                       | Err e =>
                           undone ← restore_registration E repo prev;
                           mret (match undone with
                                 | Err e' => reply 500 (BRollback e e')
                                 | Ok _ => reply 500 (BFailed e)
                                 end)
                       end
                   end
               end
           end
  end.

Definition HandleListRepos (E : Env) (rq : Request) : St Server Response :=
  if negb (bool_decide (rq_Method rq = "GET")) then mret method_not_allowed
  else
    r ← on_pollers (ListStatuses E);
    mret (match r with
          | Err e => reply 500 (BFailed e)
          | Ok l => reply 200 (BRepos ((λ p, mkRepoStatus (rg_Repo p.1) (rg_Environment p.1) (rg_Status p.1) p.2
                                               (rg_RegisteredAt p.1) (rg_UpdatedAt p.1)) <$> l))
          end).

Definition HandleRepoByPath (E : Env) (rq : Request) : St Server Response :=
  let repo := TrimSpace (TrimPrefix (rq_Path rq) "/api/v1/repos/") in
  if bool_decide (repo = EmptyString) then mret NotFound
  else if negb (bool_decide (rq_Method rq = "DELETE")) then mret method_not_allowed
  else
    r ← on_pollers (Deregister E base stops repo);
    mret (match r with Err e => reply 500 (BFailed e) | Ok _ => reply 200 (BStatus "deleted") end).

(** ** Workers *)

Definition HandleAnnounceSession (E : Env) (rq : Request) (body : option (string * string * Z)) : St Server Response :=
  if negb (bool_decide (rq_Method rq = "POST")) then mret method_not_allowed
  else match parseAnnounceSessionPath (rq_Path rq) with
  | None => mret (reply 400 (BError "invalid path; expect /api/v1/workers/<id>/sessions/announce"))
  | Some workerID =>
      match body with
      | None => mret (reply 400 (BError "invalid JSON"))
      | Some (sid, repo, num) =>
          let sid := TrimSpace sid in
          if bool_decide (sid = EmptyString) then mret (reply 400 (BError "session_id is required"))
          else
            w ← on_store (GetWorker E workerID);
            match w with
            | Err e => mret (reply 500 (BFailed e))
            | Ok None => mret (reply 404 (BError "worker not registered"))
            | Ok (Some _) =>
                r ← on_store (UpsertSessionRoute E (mkRoute sid workerID (TrimSpace repo) num None));
                mret (match r with Err e => reply 500 (BFailed e) | Ok _ => reply 201 (BStatus "announced") end)
            end
      end
  end.

Definition HandleWorkerByPath (E : Env) (rq : Request) (body : option (string * string * Z)) : St Server Response :=
  if HasSuffix (rq_Path rq) announce_suffix then HandleAnnounceSession E rq body
  else
    let workerID := TrimSpace (TrimPrefix (rq_Path rq) worker_prefix) in
    if bool_decide (workerID = EmptyString) then mret NotFound
    else if negb (bool_decide (rq_Method rq = "DELETE")) then mret method_not_allowed
    else
      r ← on_store (Registry.Unregister E workerID);
      match r with
      | Err e =>
          mret (if errors_Is e ErrWorkerNotFound then reply 404 (BError "worker not found")
                else if errors_Is e ErrWorkerHasRunningTask then reply 409 (BError "worker has a running task")
                else reply 500 (BFailed e))
      | Ok _ => OnWorkerMembershipChange;; mret (reply 200 (BStatus "unregistered"))
      end.

(** The request with blanks and defaults settled. *)
Definition normalize_worker (req : WorkerRegisterRequest) : WorkerRegisterRequest :=
  let repo := TrimSpace (wq_Repo req) in
  let repos := if bool_decide (wq_Repos req = []) && negb (bool_decide (repo = EmptyString)) then [repo] else wq_Repos req in
  let repo := if bool_decide (repo = EmptyString) then TrimSpace (default EmptyString (head repos)) else repo in
  let runtime := TrimSpace (wq_Runtime req) in
  mkWorkerReg (TrimSpace (wq_WorkerID req)) repo (wq_Roles req)
    (if bool_decide (runtime = EmptyString) then RuntimeClaudeCode else runtime) repos (wq_Hostname req)
    (let m := TrimRightByte "/" (TrimSpace (wq_MgmtBaseURL req)) in if wq_Tunnel req then TrimSpace m else m)
    (wq_Tunnel req) (TrimRightByte "/" (TrimSpace (wq_AuditURL req))) (wq_OpenSessions req).

Definition audit_url_ok (u : string) : bool :=
  bool_decide (u = EmptyString)
  || match url_Parse u with
     | None => false
     | Some (scheme, host) => (bool_decide (scheme = "http") || bool_decide (scheme = "https")) && negb (bool_decide (host = EmptyString))
     end.

(** The first repository that is not registered ends the request. *)
Fixpoint check_repos (E : Env) (repos : list string) : St Server (option Response) :=
  match repos with
  | [] => mret None
  | repo :: repos =>
      r ← on_pollers (IsRegistered E repo);
      match r with
      | Err e => mret (Some (reply 500 (BFailed e)))
      | Ok false => mret (Some (reply 400 (BError ("repo " +:+ Quote repo +:+ " is not registered"))))
      | Ok true => check_repos E repos
      end
  end.

Definition open_routes (req : WorkerRegisterRequest) : list SessionRoute :=
  (λ p : string * string * Z, mkRoute (TrimSpace p.1.1) (wq_WorkerID req) (TrimSpace p.1.2) p.2 None)
    <$> List.filter (λ p, negb (is_blank p.1.1)) (wq_OpenSessions req).

Definition HandleRegisterWorker (E : Env) (rq : Request) (body : option WorkerRegisterRequest) : St Server Response :=
  if negb (bool_decide (rq_Method rq = "POST")) then mret method_not_allowed
  else match body with
  | None => mret (reply 400 (BError "invalid JSON"))
  | Some req =>
      let req := normalize_worker req in
      if negb (audit_url_ok (wq_AuditURL req)) then mret (reply 400 (BError "audit_url must be an http or https URL with a host"))
      else if bool_decide (wq_WorkerID req = EmptyString) || bool_decide (wq_Repo req = EmptyString)
              || bool_decide (wq_Roles req = []) then mret (reply 400 (BError "worker_id, repo, and roles are required"))
      else
        refused ← check_repos E (wq_Repos req);
        match refused with
        | Some r => mret r
        | None =>
            saved ← on_store (Registry.RegisterWithReposTunnel E (wq_WorkerID req) (wq_Repo req) (Some (wq_Repos req))
                       (wq_Roles req) (wq_Runtime req) (wq_Hostname req) (wq_MgmtBaseURL req) (wq_AuditURL req) (wq_Tunnel req));
            match saved with
            | Err e => mret (reply 500 (BFailed e))
            | Ok _ =>
                (if bool_decide (wq_OpenSessions req = []) then mret tt
                 else _ ← on_store (BulkUpsertSessionRoutes E (open_routes req)); mret tt);;
                log_event "worker_registered" (wq_Repo req) 0
                  [("worker_id", JS (wq_WorkerID req)); ("roles", JL (wq_Roles req)); ("runtime", JS (wq_Runtime req));
                   ("repos", JL (wq_Repos req)); ("hostname", JS (wq_Hostname req)); ("mgmt_url", JS (wq_MgmtBaseURL req));
                   ("audit_url", JS (wq_AuditURL req)); ("tunnel", JB (wq_Tunnel req))];;
                OnWorkerMembershipChange;;
                mret (reply 201 (BStatus "registered"))
            end
        end
  end.

(** ** Tasks *)

(** The first state with a transition into the task's state, in the order the map
    is visited. *)
Definition buildSynthesisPayload (task : TaskRecord) : option Syn :=
  cfg ← config_dir;
  wf ← assoc (fc_Workflows cfg) (t_Workflow task);
  st ← assoc (wf_States wf) (t_State task);
  if negb (bool_decide (s_Mode st = StateModeSynth)) then None
  else
    let source := List.find (λ p, bool_decide (t_State task ∈ (s_Transitions p.2).*2)) (wf_States wf) in
    synthesis (mkSynthesis (t_Repo task) (t_IssueNum task) (t_Workflow task) (from_option fst EmptyString source) st (snd <$> source)).

(** The repositories a worker serves. *)
Definition worker_repos (worker : WorkerRecord) : list string :=
  match unmarshal_strings (w_ReposJSON worker) with
  | Some (Some (r :: l)) => r :: l
  | _ => [w_Repo worker]
  end.
Definition claimNextTask (E : Env) (worker : WorkerRecord) : St Server (res (option TaskPollResponse)) :=
  match unmarshal_strings (w_Roles worker) with
  | None => mret (Err (EMsg "unmarshal worker roles"))
  | Some roles =>
      let roles := default [] roles in
      task ← on_store (ClaimNextTask E (w_ID worker) roles (worker_repos worker) (w_Runtime worker) EmptyString DefaultLongPollTimeout);
      match task with
      | Err e => mret (Err e)
      | Ok None => mret (Ok None)
      | Ok (Some task) =>
          log_event "dispatch" (t_Repo task) (t_IssueNum task)
            [("task_id", JS (t_ID task)); ("worker_id", JS (w_ID worker)); ("agent_name", JS (t_AgentName task))];;
          agent ← on_pollers (ResolveAgentConfig (t_Repo task) (t_AgentName task));
          mret (Ok (Some (mkPoll (t_ID task) (t_Repo task) (t_IssueNum task) (t_AgentName task) (t_Workflow task) (t_State task)
            (t_RolloutIndex task) (t_RolloutsTotal task) (t_RolloutGroupID task) roles (buildSynthesisPayload task) agent)))
      end
  end.

(** [later] holds the attempts after the first, each with what the rest of the
    coordinator does before it; when they are used up the deadline has passed or a
    context is done. *)
Fixpoint poll_loop (E : Env) (later : list ((Server → Server) * Env)) (worker : WorkerRecord) : St Server Response :=
  r ← claimNextTask E worker;
  match r with
  | Ok (Some task) =>
      _ ← on_store (Registry.Heartbeat E (w_ID worker));
      mret (reply 200 (BTask task))
  | _ =>
      if match r with Err e => negb (errors_Is e ErrTaskClaimConflict) | Ok _ => false end
      then mret (reply 500 (match r with Err e => BFailed e | Ok _ => BNone end))
      else match later with
           | [] => mret (reply 204 BNone)
           | (others, E) :: later => modS others;; poll_loop E later worker
           end
  end.
Definition HandlePollTask (E : Env) (later : list ((Server → Server) * Env)) (rq : Request) (worker_id : string) : St Server Response :=
  if negb (bool_decide (rq_Method rq = "GET")) then mret method_not_allowed
  else
    let workerID := TrimSpace worker_id in
    if bool_decide (workerID = EmptyString) then mret (reply 400 (BError "worker_id is required"))
    else
      w ← on_store (GetWorker E workerID);
      match w with
      | Err e => mret (reply 500 (BFailed e))
      | Ok None => mret (reply 400 (BError "unknown worker"))
      | Ok (Some w) => _ ← on_store (Registry.Heartbeat E (w_ID w)); poll_loop E later w
      end.

(** [HandleTaskResult], up to the transition of the row: the answer to a request
    that is refused, or the task as it was read and its new status. *)
Definition result_check (E : Env) (taskID : string) (body : option TaskResultRequest) :
    St Server (Response + TaskResultRequest * TaskRecord * string) :=
  match body with
  | None => mret (inl (reply 400 (BError "invalid JSON")))
  | Some req =>
      task ← on_store (GetTask E taskID);
      mret (match task with
            | Err e => inl (reply 500 (BFailed e))
            | Ok task =>
                let worker := TrimSpace (rs_WorkerID req) in
                if bool_decide (worker = EmptyString) || negb (bool_decide (default EmptyString (t_WorkerID task) = worker))
                then inl (reply 400 (BError "worker_id does not match claimed task"))
                else let status := NormalizeTaskResultStatus (rs_Status req) in
                     if bool_decide (status = EmptyString)
                     then inl (reply 400 (BError "status must be completed, failed, or timeout"))
                     else inr (req, task, status)
            end)
  end.
(** What follows the transition of the row. *)
Definition result_effects (E : Env) (req : TaskResultRequest) (task : TaskRecord) (status : string) : St Server Response :=
  let worker := TrimSpace (rs_WorkerID req) in
  _ ← on_store (Registry.Heartbeat E worker);
  let exitCode := if bool_decide (status = TaskStatusCompleted) then 0 else 1 in
  PublishTaskCompletion (t_ID task) (t_Repo task) (t_IssueNum task) (t_AgentName task) status exitCode;;
  (if rs_InfraFailure req then
     log_event "infra_failure" (t_Repo task) (t_IssueNum task)
       [("task_id", JS (t_ID task)); ("worker_id", JS worker); ("agent_name", JS (t_AgentName task)); ("status", JS status);
        ("reason", JS (rs_InfraReason req)); ("source", JS "worker_submit")]
   else on_pollers (MarkAgentCompletedWithDecision E base (t_Repo task) (t_IssueNum task) (t_ID task) (t_AgentName task)
                      exitCode (rs_CurrentLabels req) (rs_SynthesisDecision req)));;
  log_event "completed" (t_Repo task) (t_IssueNum task)
    [("task_id", JS (t_ID task)); ("worker_id", JS worker); ("agent_name", JS (t_AgentName task)); ("status", JS status)];;
  mret (reply 200 (BStatus status)).
Definition result_settle (E : Env) (taskID : string) (req : TaskResultRequest) (task : TaskRecord) (status : string) :
    St Server Response :=
  r ← on_store (TransitionTaskStatusIfRunning E taskID status);
  match r with
  | Err e => mret (if errors_Is e ErrTaskStatusTerminal then reply 409 (BError "task already in terminal status")
                   else reply 500 (BFailed e))
  | Ok _ => result_effects E req task status
  end.
Definition HandleTaskResult (E : Env) (taskID : string) (body : option TaskResultRequest) : St Server Response :=
  c ← result_check E taskID body;
  match c with
  | inl r => mret r
  | inr (req, task, status) => result_settle E taskID req task status
  end.

Definition HandleTaskHeartbeat (E : Env) (taskID : string) (body : option string) : St Server Response :=
  match body with
  | None => mret (reply 400 (BError "invalid JSON"))
  | Some worker =>
      let worker := TrimSpace worker in
      if bool_decide (worker = EmptyString) then mret (reply 400 (BError "worker_id is required"))
      else
        task ← on_store (GetTask E taskID);
        match task with
        | Err e => mret (reply 500 (BFailed e))
        | Ok task =>
            if negb (bool_decide (default EmptyString (t_WorkerID task) = worker))
            then mret (reply 400 (BError "worker_id does not match claimed task"))
            else
              _ ← on_store (HeartbeatTask E taskID worker DefaultLongPollTimeout);
              r ← on_store (Registry.Heartbeat E worker);
              mret (match r with
                    | Ok _ => reply 204 BNone
                    | Err e => if errors_Is e ErrWorkerNotFound then reply 400 (BError "unknown worker") else reply 500 (BFailed e)
                    end)
        end
  end.

Definition HandleTaskRelease (E : Env) (taskID : string) (body : option string) : St Server Response :=
  match body with
  | None => mret (reply 400 (BError "invalid JSON"))
  | Some worker =>
      let worker := TrimSpace worker in
      if bool_decide (worker = EmptyString) then mret (reply 400 (BError "worker_id is required"))
      else
        r ← on_store (ReleaseTask E taskID worker);
        mret (match r with
              | Err e => reply 500 (BFailed e)
              | Ok false => reply 409 (BError "task is not claimable by this worker")
              | Ok true => reply 204 BNone
              end)
  end.

(** [result] and [worker] are the body as the handlers of the actions decode it. *)
Definition HandleTaskAction (E : Env) (rq : Request) (result : option TaskResultRequest) (worker : option string) :
    St Server Response :=
  match parseFullTaskActionPath (rq_Path rq) with
  | None => mret NotFound
  | Some (id, action) =>
      if bool_decide (rq_Method rq = "POST") && bool_decide (action = "result") then HandleTaskResult E id result
      else if bool_decide (rq_Method rq = "POST") && bool_decide (action = "heartbeat") then HandleTaskHeartbeat E id worker
      else if bool_decide (rq_Method rq = "POST") && bool_decide (action = "release") then HandleTaskRelease E id worker
      else mret method_not_allowed
  end.

(** ** Authentication *)

Context (AuthEnabled CookieInsecure : bool) (AuthToken : string) (QueryEscape : string → string).

Definition isAuthorizedBearer (E : Env) (token : string) : St Server bool :=
  let token := TrimSpace token in
  if bool_decide (token = EmptyString) then mret false
  else if negb (bool_decide (AuthToken = EmptyString)) && bool_decide (token = AuthToken) then mret true
  else r ← on_store (AuthenticateWorkerToken E token); mret (negb (is_err r)).

Definition requestAuthorized (E : Env) (rq : Request) : St Server bool :=
  bearer ← (if HasPrefix (rq_Authorization rq) "Bearer "
            then isAuthorizedBearer E (TrimSpace (TrimPrefix (rq_Authorization rq) "Bearer ")) else mret false);
  if (bearer : bool) then mret true
  else match rq_Cookie rq with
       | Some c => isAuthorizedBearer E (TrimSpace c)
       | None => mret false
       end.
Definition prefersHTML (rq : Request) : bool := Contains (rq_Accept rq) "text/html".
Definition redirectToLogin (rq : Request) : Response :=
  reply 302 (BRedirect (if negb (bool_decide (rq_URI rq = EmptyString)) && negb (bool_decide (rq_URI rq = "/login"))
                        then "/login?next=" +:+ QueryEscape (rq_URI rq) else "/login")).
Definition WrapAuth (E : Env) (next : Request → St Server Response) (rq : Request) : St Server Response :=
  if negb AuthEnabled then next rq
  else
    ok ← requestAuthorized E rq;
    if (ok : bool) then next rq
    else mret (if prefersHTML rq then redirectToLogin rq else reply 401 (BError "unauthorized")).

Definition SessionCookieName : string := "wb_session".
Definition SessionCookieMaxAge : Z := 8 * 60 * 60.
Definition buildSessionCookie (value : string) (maxAge : Z) : Cookie :=
  mkCookie SessionCookieName value (negb CookieInsecure) maxAge.

(** [url.Parse] of a reference that starts with one slash: no scheme and no host;
    it fails on a control byte before the fragment and on a bad escape. *)
Definition hex_byte (c : ascii) : bool := byte_in c 48 57 || byte_in c 97 102 || byte_in c 65 70.
Fixpoint escapes_ok (s : string) : bool :=
  match s with
  | EmptyString => true
  | String "%" s' => match s' with
                     | String a (String b s'') => hex_byte a && hex_byte b && escapes_ok s''
                     | _ => false
                     end
  | String _ s' => escapes_ok s'
  end.
Definition cut_byte (c : ascii) (s : string) : string * string :=
  match Split c s with
  | [] => (EmptyString, EmptyString)
  | a :: l => (a, join_str (str1 c) l)
  end.
Definition rooted_url_ok (raw : string) : bool :=
  let p := cut_byte "#" raw in
  all_str (λ c, negb (byte_in c 0 31 || byte_in c 127 127)) p.1
  && escapes_ok (cut_byte "?" p.1).1 && escapes_ok p.2.

Definition sanitizeNext (raw : string) : string :=
  let raw := TrimSpace raw in
  if bool_decide (raw = EmptyString) then "/"
  else if negb (HasPrefix raw "/") || HasPrefix raw "//" then "/"
  else if rooted_url_ok raw then raw else "/".

(** The form of a POST is [None] when it does not parse. *)
Definition HandleLogin (E : Env) (rq : Request) (query_next : string) (form : option (string * string)) : St Server Response :=
  if bool_decide (rq_Method rq = "GET") then mret (reply 200 (BLogin (sanitizeNext query_next) EmptyString))
  else if bool_decide (rq_Method rq = "POST") then
    match form with
    | None => mret (reply 400 (BLogin "/" "Could not parse form"))
    | Some (token, next) =>
        let token := TrimSpace token in
        let next := sanitizeNext next in
        ok ← isAuthorizedBearer E token;
        mret (if (ok : bool) then mkResponse 302 (BRedirect next) (Some (buildSessionCookie token SessionCookieMaxAge))
              else reply 200 (BLogin next "Invalid token"))
    end
  else mret (reply 405 (BError "method not allowed")).
Definition HandleLogout (rq : Request) : Response :=
  if negb (bool_decide (rq_Method rq = "POST")) then reply 405 (BError "method not allowed")
  else mkResponse 302 (BRedirect "/login") (Some (buildSessionCookie EmptyString (-1))).
End server.
