(* ===== verification/CoordinatorSpec.v ===== *)
(** * What the control plane guarantees

    Over every operation of the coordinator process (handlers, events, sweeps, the
    reaper and the dispatch loop): a result is accepted once, from the worker that
    holds the task; what a poll hands out; who is let in; registration that fails
    leaves the record of the repository; and the paths the handlers parse. *)

From S2P Require Import Prelude GoLib Json GoText GoFormat Bus Types DB TaskQueue IssueClaim StoreIssue StoreAdmin World Security Dependency StateMachine Router Config Registration RepoRuntime Coordinator Frames Demo TaskQueueSpec StateMachineSpec SMBehaviour DependencySpec RepoRuntimeSpec.
From Stdlib Require Import Ascii.

(** ** The life of a task under the whole coordinator *)

Definition pm_lifecycle : relation PollerManager := λ pm pm', on_db lifecycle (pm_world pm) (pm_world pm').
Definition sv_lifecycle : relation Server := λ s s', lifecycle (sv_db s) (sv_db s').

#[export] Instance pm_lifecycle_preorder : PreOrder pm_lifecycle.
Proof. unfold pm_lifecycle, on_db. split; [intros s; reflexivity|]. intros s1 s2 s3 H1 H2. by etrans. Qed.
#[export] Instance sv_lifecycle_preorder : PreOrder sv_lifecycle.
Proof. unfold sv_lifecycle. split; [intros s; reflexivity|]. intros s1 s2 s3 H1 H2. by etrans. Qed.

Lemma lifecycle_shared {A} (m : St World A) : keeps (on_db lifecycle) m → keeps pm_lifecycle (on_shared m).
Proof. intros H pm. apply H. Qed.
Lemma lifecycle_runtime {A} repo rt (m : St World A) : keeps (on_db lifecycle) m → keeps pm_lifecycle (in_runtime repo rt m).
Proof. intros H pm. exact (H (upd_wd_sm (λ _, rr_SM rt) (pm_world pm))). Qed.
Lemma lifecycle_pollers {A} (m : St PollerManager A) : keeps pm_lifecycle m → keeps sv_lifecycle (on_pollers m).
Proof. intros H s. apply H. Qed.
Lemma lifecycle_store {A} (m : St DB A) : keeps lifecycle m → keeps sv_lifecycle (on_store m).
Proof. intros H s. apply H. Qed.
Lemma lifecycle_log ty repo num l : keeps sv_lifecycle (log_event ty repo num l).
Proof. intros s. by apply lifecycle_same. Qed.
Lemma lifecycle_queue {A} (m : St World A) : keeps (same queue_view) m → keeps (on_db lifecycle) m.
Proof. intros H w. apply lifecycle_same. apply H. Qed.
Lemma lifecycle_runtimes f : keeps pm_lifecycle (modS (upd_pm_runtimes f)).
Proof. intros pm. by apply lifecycle_same. Qed.

Ltac queue_leaf := intros; first [reflexivity | repeat case_match; simplify_eq/=; reflexivity].
Ltac lc_leaf := intros; apply lifecycle_same; queue_leaf.

Create HintDb life.
#[export] Hint Resolve keeps_insert keeps_transition keeps_fail_repo keeps_claim_next keeps_release keeps_heartbeat keeps_reap
  lifecycle_log lifecycle_runtimes : life.

(** One step of a proof that an operation of the coordinator respects the life of
    tasks: down to the store, where an operation is known or leaves the queue alone. *)
Ltac life_step :=
  match goal with
  | |- keeps sv_lifecycle (on_store _) => apply lifecycle_store
  | |- keeps sv_lifecycle (on_pollers _) => apply lifecycle_pollers
  | |- keeps pm_lifecycle (on_shared _) => apply lifecycle_shared
  | |- keeps pm_lifecycle (in_runtime _ _ _) => apply lifecycle_runtime
  | |- keeps (on_db lifecycle) (lift _) => apply keeps_lift
  | |- keeps sv_lifecycle (modS _) => intros ?; by apply lifecycle_same
  | |- keeps (on_db lifecycle) (modS _) => intros ?; by apply lifecycle_same
  | |- _ => keep_step
  | |- keeps lifecycle (sql_query _ _) => apply keeps_sql_query, lifecycle_call
  | |- keeps lifecycle (sql _ _) => apply keeps_sql; lc_leaf
  | |- keeps lifecycle (sql_tx _ _) => apply keeps_sql_tx; lc_leaf
  | |- keeps _ ?m => let h := head_of m in unfold h
  end.
Ltac life_auto := repeat first [solve [auto with life frame nocore] | life_step].

Section machine_queue.
Context `{YamlLib} (E : Env) (C : SMConfig).

Lemma queue_completions wf repo num src labels : keeps (same queue_view) (evaluateCompletionTransitions E C repo num wf src labels).
Proof. frame_auto queue_leaf. Qed.
#[local] Hint Resolve queue_completions : frame.
Lemma queue_advance repo num grp g passed sum labels dec : keeps (same queue_view) (advance_group E C repo num grp g passed sum labels dec).
Proof. frame_auto queue_leaf. Qed.
#[local] Hint Resolve queue_advance : frame.
Lemma queue_join grp fresh code g : keeps (same queue_view) (join_group E grp fresh code g).
Proof. frame_auto queue_leaf. Qed.
#[local] Hint Resolve queue_join : frame.
Lemma queue_complete repo num task agent code labels dec :
  keeps (same queue_view) (StateMachine.MarkAgentCompletedWithDecision E C repo num task agent code labels dec).
Proof. frame_auto queue_leaf. Qed.
Lemma queue_clear repo num : keeps (same queue_view) (StateMachine.ClearInflight E C repo num).
Proof. frame_auto queue_leaf. Qed.
Lemma queue_release : keeps (same queue_view) (ReleaseAllIssueClaims E C).
Proof. frame_auto queue_leaf. Qed.
End machine_queue.

Lemma queue_recover `{YamlLib} E base ctx rt : keeps (same queue_view) (recover_world E base ctx rt).
Proof.
  unfold recover_world. apply keeps_bindE; [apply _|frame_auto queue_leaf|]. intros caches.
  apply keeps_bind; [apply _| |intros; by apply keeps_ret, _]. intros w.
  apply (recover_loop_sweeps E ctx (EmptyString, 0) True); auto.
Qed.
Lemma queue_pass `{YamlLib} E base reader o1 o2 cancelled reaction_ok repo v :
  keeps (same queue_view) (dependency_pass E base reader o1 o2 cancelled reaction_ok repo v).
Proof. intros w. pose proof (pass_keeps_view E base reader o1 o2 cancelled reaction_ok repo v w) as Hp. by injection Hp. Qed.

Section manager_life.
Context `{YamlLib} (E : Env) (base : SMConfig) (ctx_done : nat → bool).
Context (reader : IssueReader) (order1 order2 : list (Z * Issue) → list (Z * Issue)) (cancelled : Z → bool).
Context (sec : option Snapshot) (reaction_ok : string → Z → bool → bool) (stops : string → bool).
Context (decode : RepoRegistrationRecord → res FullConfig) (probe : RepoRegistrationRecord → res unit).

Lemma life_machine {A} (m : St World A) repo rt : keeps (same queue_view) m → keeps pm_lifecycle (in_runtime repo rt m).
Proof. intros Hm. by apply lifecycle_runtime, lifecycle_queue. Qed.

Lemma life_complete repo num task agent code labels dec :
  keeps pm_lifecycle (MarkAgentCompletedWithDecision E base repo num task agent code labels dec).
Proof. unfold MarkAgentCompletedWithDecision, get_runtime. keep_auto. apply life_machine, queue_complete. Qed.
Lemma life_clear repo num : keeps pm_lifecycle (ClearInflight E base repo num).
Proof. unfold ClearInflight, get_runtime. keep_auto. apply life_machine, queue_clear. Qed.
Lemma life_recover repo : keeps pm_lifecycle (recoverOrphanedActiveStates E base ctx_done repo).
Proof. unfold recoverOrphanedActiveStates, get_runtime. keep_auto. apply life_machine, queue_recover. Qed.
#[local] Hint Resolve life_recover : life.
Lemma life_stop repo : keeps pm_lifecycle (stopRepo E base stops repo).
Proof. unfold stopRepo, get_runtime. keep_auto; [apply lifecycle_runtimes|apply life_machine, queue_release]. Qed.
#[local] Hint Resolve life_stop : life.
Lemma life_start rec : keeps pm_lifecycle (StartOrUpdate E base ctx_done stops decode probe rec).
Proof. unfold StartOrUpdate. life_auto. Qed.
Lemma life_deregister repo : keeps pm_lifecycle (Deregister E base stops repo).
Proof. unfold Deregister. life_auto. Qed.
Lemma life_statuses : keeps pm_lifecycle (ListStatuses E).
Proof. life_auto. Qed.
Lemma life_registered repo : keeps pm_lifecycle (IsRegistered E repo).
Proof. life_auto. Qed.
Lemma life_recover_all repos a b : keeps pm_lifecycle (recover_all E base ctx_done repos a b).
Proof. revert a b. induction repos as [|r repos IH]; intros a b; cbn [recover_all]; life_auto. Qed.
#[local] Hint Resolve life_recover_all : life.
Lemma life_periodic : keeps pm_lifecycle (runPeriodicRecoveryOnce E base ctx_done).
Proof. unfold runPeriodicRecoveryOnce. life_auto. Qed.

Lemma life_pass repo v : keeps pm_lifecycle (on_shared (dependency_pass E base reader order1 order2 cancelled reaction_ok repo v)).
Proof. apply lifecycle_shared, lifecycle_queue, queue_pass. Qed.
#[local] Hint Resolve life_pass : life.
Lemma life_event ev : keeps pm_lifecycle (handleEvent E base ctx_done reader order1 order2 cancelled sec reaction_ok ev).
Proof.
  assert (∀ repo rt, keeps pm_lifecycle (in_runtime repo rt (HandleEvent E (runtime_config base rt) ctx_done ev))) as He.
  { intros repo rt. apply life_machine, event_keeps_tasks. }
  unfold handleEvent, runDependencyMaintenance, get_runtime. repeat keep_step.
  all: first [apply He | apply lifecycle_runtimes | apply life_pass | intros pm; by apply lifecycle_same].
Qed.
Lemma life_reaper grace : keeps pm_lifecycle (on_shared (reaper_runOnce E grace)).
Proof. unfold reaper_runOnce. life_auto. Qed.
Lemma life_dispatch R req : keeps pm_lifecycle (on_shared (handleDispatch E R req)).
Proof.
  assert (keeps lifecycle (random E)) as Hr by (intros d; by apply lifecycle_same).
  unfold handleDispatch. repeat first [solve [auto with life frame nocore] | apply Hr | life_step].
Qed.
End manager_life.
#[export] Hint Resolve life_complete life_clear life_start life_deregister life_statuses life_registered : life.

Section server_life.
Context {Syn : Type} `{YamlLib} (base : SMConfig) (ctx_done : nat → bool) (stops : string → bool).
Context (probe : RepoRegistrationRecord → res unit) (resolve : string → string → string) (stat : string → bool).
Context (marshal : RepoRegistrationPayload → string) (unmarshal : string → option RepoRegistrationPayload).
Context (url_Parse : string → option (string * string)).
Context (config_dir : option FullConfig) (synthesis : SynthesisRequest → option Syn).
Context (reader : IssueReader) (order1 order2 : list (Z * Issue) → list (Z * Issue)) (cancelled : Z → bool).
Context (sec : option Snapshot) (reaction_ok : string → Z → bool → bool) (R : Router).

(** An operation of the coordinator process, each at an instant of its own and with
    any of its statements failing.  The attempts of a long poll are steps of their
    own, since others come between them, and so are the two halves of a result: the
    check reads the row, and the row is settled by a request that has passed its check at
    any time before, whatever has happened since. *)
Inductive server_step (s : Server) : Server → Prop :=
  | ss_check E id body : server_step s (result_check (Syn:=Syn) E id body s).2
  | ss_settle E id req task status E0 body s0 :
      (result_check (Syn:=Syn) E0 id body s0).1 = inr (req, task, status) →
      server_step s (result_settle (Syn:=Syn) base E id req task status s).2
  | ss_task E rq result worker : server_step s (HandleTaskAction (Syn:=Syn) base E rq result worker s).2
  | ss_poll E rq id : server_step s (HandlePollTask config_dir synthesis E [] rq id s).2
  | ss_attempt E w : server_step s (poll_loop config_dir synthesis E [] w s).2
  | ss_worker E rq body : server_step s (HandleRegisterWorker (Syn:=Syn) url_Parse E rq body s).2
  | ss_worker_path E rq body : server_step s (HandleWorkerByPath (Syn:=Syn) E rq body s).2
  | ss_repo E rq body :
      server_step s (HandleRegisterRepo (Syn:=Syn) base ctx_done stops probe resolve stat marshal unmarshal E rq body s).2
  | ss_repo_path E rq : server_step s (HandleRepoByPath (Syn:=Syn) base stops E rq s).2
  | ss_inflight E rq : server_step s (HandleClearIssueInflight (Syn:=Syn) base E rq s).2
  | ss_event E ev :
      server_step s (on_pollers (handleEvent E base ctx_done reader order1 order2 cancelled sec reaction_ok ev) s).2
  | ss_periodic E : server_step s (on_pollers (runPeriodicRecoveryOnce E base ctx_done) s).2
  | ss_reaper E grace : server_step s (on_pollers (on_shared (reaper_runOnce E grace)) s).2
  | ss_dispatch E req : server_step s (on_pollers (on_shared (handleDispatch E R req)) s).2.

Lemma life_result E id body : keeps sv_lifecycle (HandleTaskResult (Syn:=Syn) base E id body).
Proof. unfold HandleTaskResult, result_check, result_settle, result_effects. life_auto. Qed.
Lemma life_check E id body : keeps sv_lifecycle (result_check (Syn:=Syn) E id body).
Proof. unfold result_check. life_auto. Qed.
Lemma life_settle E id req task status : keeps sv_lifecycle (result_settle (Syn:=Syn) base E id req task status).
Proof. unfold result_settle, result_effects. life_auto. Qed.
Lemma life_task_heartbeat E id body : keeps sv_lifecycle (HandleTaskHeartbeat (Syn:=Syn) E id body).
Proof. unfold HandleTaskHeartbeat. life_auto. Qed.
Lemma life_task_release E id body : keeps sv_lifecycle (HandleTaskRelease (Syn:=Syn) E id body).
Proof. unfold HandleTaskRelease. life_auto. Qed.
#[local] Hint Resolve life_result life_task_heartbeat life_task_release : life.

Lemma life_claim_next E w : keeps sv_lifecycle (claimNextTask config_dir synthesis E w).
Proof. unfold claimNextTask. life_auto. Qed.
#[local] Hint Resolve life_claim_next : life.
Lemma life_attempt E w : keeps sv_lifecycle (poll_loop config_dir synthesis E [] w).
Proof. cbn [poll_loop]. apply keeps_bind; [apply _|apply life_claim_next|]; intros [[t|]|e]; life_auto. Qed.
#[local] Hint Resolve life_attempt : life.
Lemma life_check_repos E repos : keeps sv_lifecycle (check_repos (Syn:=Syn) E repos).
Proof. induction repos as [|r repos IH]; cbn [check_repos]; life_auto. Qed.
#[local] Hint Resolve life_check_repos : life.

Lemma server_step_life s s' : server_step s s' → sv_lifecycle s s'.
Proof.
  intros [E id body|E id req task status E0 body s0 _|E rq result worker|E rq id|E w|E rq body|E rq body|E rq body|E rq|E rq|E ev|E|E grace|E req].
  - apply life_check.
  - apply life_settle.
  - assert (keeps sv_lifecycle (HandleTaskAction (Syn:=Syn) base E rq result worker)) as Hk; [|apply Hk].
    unfold HandleTaskAction. life_auto.
  - assert (keeps sv_lifecycle (HandlePollTask config_dir synthesis E [] rq id)) as Hk; [|apply Hk].
    unfold HandlePollTask. life_auto.
  - apply life_attempt.
  - assert (keeps sv_lifecycle (HandleRegisterWorker (Syn:=Syn) url_Parse E rq body)) as Hk; [|apply Hk].
    unfold HandleRegisterWorker. life_auto.
  - assert (keeps sv_lifecycle (HandleWorkerByPath (Syn:=Syn) E rq body)) as Hk; [|apply Hk].
    unfold HandleWorkerByPath. life_auto.
  - assert (keeps sv_lifecycle (HandleRegisterRepo (Syn:=Syn) base ctx_done stops probe resolve stat marshal unmarshal E rq body))
      as Hk; [|apply Hk]. unfold HandleRegisterRepo. life_auto.
  - assert (keeps sv_lifecycle (HandleRepoByPath (Syn:=Syn) base stops E rq)) as Hk; [|apply Hk].
    unfold HandleRepoByPath. life_auto.
  - assert (keeps sv_lifecycle (HandleClearIssueInflight (Syn:=Syn) base E rq)) as Hk; [|apply Hk].
    unfold HandleClearIssueInflight. life_auto.
  - apply lifecycle_pollers, life_event.
  - apply lifecycle_pollers, life_periodic.
  - apply lifecycle_pollers, life_reaper.
  - apply lifecycle_pollers, life_dispatch.
Qed.
End server_life.

(** ** Results *)

Lemma transition_spec E id st d :
  tasks_wf d →
  wp (TransitionTaskStatusIfRunning E id st) (λ r d',
    match r with
    | Err _ => db_tasks d' = db_tasks d
    | Ok _ => ∃ row, find_task id d = Some row ∧ status_in active_status row = true ∧
                     ∃ row', find_task id d' = Some row' ∧ t_Status row' = st
    end) d.
Proof.
  intros Hwf. unfold TransitionTaskStatusIfRunning. apply wp_bindE, wp_wrapE, wp_sql; [done|]. intros _.
  cbn [res_wrap]. destruct (_ =? 0)%nat eqn:En.
  - apply Nat.eqb_eq in En. cbn [update_where fst] in En. apply nil_length_inv in En.
    assert (db_tasks (upd_db_call (update_where (λ t, row_id id t && status_in active_status t)
      (λ t, upd_t_Status (λ _, st) (upd_t_UpdatedAt (λ _, Some (sql_now E)) t)) d).2) = db_tasks d) as Ht.
    { cbn. unfold update_rows. rewrite <-(list_fmap_id (db_tasks d)) at 2. apply list_fmap_ext. intros i t Hi.
      destruct (_ && _) eqn:Hp; [|done]. exfalso.
      assert (t ∈ List.filter (λ t, row_id id t && status_in active_status t) (db_tasks d)) as Hin.
      { apply elem_of_filter_bool. split; [by eapply list_elem_of_lookup_2|done]. }
      rewrite En in Hin. by apply elem_of_nil in Hin. }
    unfold explain_unmatched. apply wp_bindE, wp_wrapE, wp_sql_query; [intros; cbn; exact Ht|]. intros _. cbn [res_wrap].
    apply wp_ret. destruct (t_Status <$> _); [|exact Ht]. case_bool_decide; exact Ht.
  - apply wp_ret. apply Nat.eqb_neq in En. cbn [update_where fst] in En.
    destruct (List.filter _ (db_tasks d)) as [|u l] eqn:El; [done|].
    assert (u ∈ List.filter (λ t, row_id id t && status_in active_status t) (db_tasks d)) as Hu by (rewrite El; left).
    apply elem_of_filter_bool in Hu as [Hu [Hid Ha]%andb_prop]. unfold row_id in Hid. apply bool_decide_eq_true in Hid as <-.
    pose proof (find_task_unique _ _ Hwf Hu) as Hf. exists u. split_and!; [done..|]. eexists. split.
    + etrans; [apply find_update; done|]. rewrite Hf. cbn [fmap option_fmap option_map]. unfold row_id.
      rewrite bool_decide_true by done. rewrite Ha. reflexivity.
    + done.
Qed.

Section results.
Context {Syn : Type} (base : SMConfig) (E : Env).

(** What a refused request leaves as it was. *)
Definition refusal_view (s : Server) :=
  (db_tasks (sv_db s), sv_published s, pm_runtimes (sv_pm s), wd_dispatch (pm_world (sv_pm s))).

Lemma store_view {A} (m : St DB A) s :
  db_tasks (m (sv_db s)).2 = db_tasks (sv_db s) → refusal_view (on_store m s).2 = refusal_view s.
Proof. unfold refusal_view, sv_db. cbn. by intros ->. Qed.

Lemma normalize_terminal raw :
  NormalizeTaskResultStatus raw ≠ EmptyString → NormalizeTaskResultStatus raw ∈ terminal_status.
Proof. unfold NormalizeTaskResultStatus. case_bool_decide; done. Qed.

Lemma check_spec id body s :
  let c := result_check (Syn:=Syn) E id body s in
  refusal_view c.2 = refusal_view s ∧
  match c.1 with
  | inl r => re_Code r ≠ 200
  | inr (req, task, status) =>
      body = Some req ∧ status = NormalizeTaskResultStatus (rs_Status req) ∧ status ∈ terminal_status ∧
      ∃ row, find_task id (sv_db s) = Some row ∧ task = scanTaskRecord (sv_db s) row ∧
             t_WorkerID row = Some (TrimSpace (rs_WorkerID req))
  end.
Proof.
  cbv zeta. unfold result_check. destruct body as [req|]; [|done]. rewrite run_bind. cbn [fst snd].
  split.
  { apply store_view. unfold GetTask, mbind, St_bind, sql_query, sql. by repeat case_match. }
  cbv beta. unfold mret, St_ret. cbn [fst].
  assert ((on_store (GetTask E id) s).1 = (GetTask E id (sv_db s)).1) as -> by done.
  unfold GetTask, mbind, St_bind, sql_query, sql, mret, St_ret. destruct (e_fault E _); [done|]. cbn [fst snd].
  destruct (find_task id (sv_db s)) as [row|] eqn:Hf; cbn [fmap option_fmap option_map fst]; [|done].
  case_bool_decide as Hw; cbn [orb]; [done|]. case_bool_decide as Hm; cbn [negb]; [|done].
  case_bool_decide as Hs; [done|]. split_and!; [done..|by apply normalize_terminal|].
  exists row. split_and!; [done..|]. cbn in Hm. destruct (t_WorkerID row); cbn in Hm; [by f_equal|congruence].
Qed.

(** The completion that is published for a task. *)
Definition completion (task : TaskRecord) (status : string) : TaskEvent :=
  mkTaskEvent (t_ID task) (t_Repo task) (t_IssueNum task) (t_AgentName task) status
    (if bool_decide (status = TaskStatusCompleted) then 0 else 1).

Lemma effects_life req task status : keeps sv_lifecycle (result_effects (Syn:=Syn) base E req task status).
Proof. unfold result_effects. life_auto. Qed.

Lemma effects_spec req task status s :
  let r := result_effects (Syn:=Syn) base E req task status s in
  re_Code r.1 = 200 ∧ sv_published r.2 = sv_published s ++ [completion task status] ∧
  (rs_InfraFailure req = true →
   pm_runtimes (sv_pm r.2) = pm_runtimes (sv_pm s) ∧ wd_dispatch (pm_world (sv_pm r.2)) = wd_dispatch (pm_world (sv_pm s))).
Proof.
  cbv zeta. unfold result_effects. rewrite !run_bind. destruct (rs_InfraFailure req); split_and!; done.
Qed.

Lemma settle_spec id req task status s :
  tasks_wf (sv_db s) → status ∈ terminal_status →
  let r := result_settle (Syn:=Syn) base E id req task status s in
  if bool_decide (re_Code r.1 = 200) then
    (∃ row row', find_task id (sv_db s) = Some row ∧ status_in active_status row = true ∧
                 find_task id (sv_db r.2) = Some row' ∧ t_Status row' = status) ∧
    sv_published r.2 = sv_published s ++ [completion task status] ∧
    (rs_InfraFailure req = true →
     pm_runtimes (sv_pm r.2) = pm_runtimes (sv_pm s) ∧ wd_dispatch (pm_world (sv_pm r.2)) = wd_dispatch (pm_world (sv_pm s)))
  else refusal_view r.2 = refusal_view s.
Proof.
  intros Hwf Hst. cbv zeta. unfold result_settle. rewrite run_bind.
  pose proof (transition_spec E id status (sv_db s) Hwf) as Ht. pose proof (keeps_transition E id status (sv_db s) Hwf) as [Hwf1 _].
  unfold wp in Ht. set (s1 := (on_store (TransitionTaskStatusIfRunning E id status) s).2).
  assert (sv_db s1 = (TransitionTaskStatusIfRunning E id status (sv_db s)).2) as Hs1 by done. rewrite <-Hs1 in *.
  change ((on_store (TransitionTaskStatusIfRunning E id status) s).1) with (TransitionTaskStatusIfRunning E id status (sv_db s)).1.
  destruct (TransitionTaskStatusIfRunning E id status (sv_db s)).1 as [[]|e].
  - destruct Ht as (row & Hf & Ha & row' & Hf' & Hr'). destruct (effects_spec req task status s1) as (Hc & Hp & Hi).
    rewrite bool_decide_true by done. split_and!; [|done..].
    pose proof (find_task_elem _ _ _ Hf') as [Hin <-].
    destruct (evolve_lookup _ _ _ (effects_life req task status s1) Hwf1 Hin) as (row2 & Hf2 & He).
    assert (terminal row') as Hterm by (unfold terminal; by rewrite Hr').
    destruct (te_terminal _ _ He Hterm) as (Hs2 & _). exists row, row2. by rewrite Hs2.
  - unfold mret, St_ret. cbn [fst snd]. rewrite bool_decide_false by (by destruct (errors_Is e _)). by apply store_view.
Qed.
End results.

Section accepted.
Context {Syn : Type} (base : SMConfig).

Lemma result_spec E id body s :
  tasks_wf (sv_db s) →
  let r := HandleTaskResult (Syn:=Syn) base E id body s in
  if bool_decide (re_Code r.1 = 200) then
    ∃ req row row', body = Some req ∧ find_task id (sv_db s) = Some row ∧ status_in active_status row = true ∧
      t_WorkerID row = Some (TrimSpace (rs_WorkerID req)) ∧
      find_task id (sv_db r.2) = Some row' ∧ t_Status row' = NormalizeTaskResultStatus (rs_Status req) ∧ terminal row' ∧
      sv_published r.2 = sv_published s ++ [completion row (t_Status row')] ∧
      (rs_InfraFailure req = true →
       pm_runtimes (sv_pm r.2) = pm_runtimes (sv_pm s) ∧ wd_dispatch (pm_world (sv_pm r.2)) = wd_dispatch (pm_world (sv_pm s)))
  else refusal_view r.2 = refusal_view s.
Proof.
  intros Hwf. cbv zeta. unfold HandleTaskResult. rewrite run_bind.
  destruct (check_spec (Syn:=Syn) E id body s) as [Hv Hc]. destruct (result_check E id body s) as [[r|[[req task] status]] s1]; cbn [fst snd] in *.
  { by rewrite bool_decide_false. }
  destruct Hc as (-> & -> & Hst & row & Hf & -> & Hw). injection Hv as Hv1 Hv2 Hv3 Hv4.
  assert (tasks_wf (sv_db s1)) as Hwf1 by (unfold tasks_wf; by rewrite Hv1).
  pose proof (settle_spec (Syn:=Syn) base E id req (scanTaskRecord (sv_db s) row) _ s1 Hwf1 Hst) as Hs. cbv zeta in Hs.
  assert (find_task id (sv_db s1) = Some row) as Hf1 by (unfold find_task in *; by rewrite Hv1).
  case_bool_decide.
  - destruct Hs as ((row1 & row' & Hf1' & Ha & Hf' & Hr') & Hp & Hi). rewrite Hf1' in Hf1. injection Hf1 as ->.
    exists req, row, row'. split_and!; try done.
    + unfold terminal. by rewrite Hr'.
    + rewrite Hr', Hp, Hv2. done.
    + rewrite <-Hv3, <-Hv4. exact Hi.
  - rewrite Hs. unfold refusal_view. by rewrite Hv1, Hv2, Hv3, Hv4.
Qed.

Lemma settled_is_refused E id body s row :
  tasks_wf (sv_db s) → find_task id (sv_db s) = Some row → terminal row →
  re_Code (HandleTaskResult (Syn:=Syn) base E id body s).1 ≠ 200.
Proof.
  intros Hwf Hf Ht Hc. pose proof (result_spec E id body s Hwf) as Hr. cbv zeta in Hr.
  rewrite bool_decide_true in Hr by done. destruct Hr as (req & row0 & row' & _ & Hf0 & Ha & _).
  rewrite Hf in Hf0. injection Hf0 as <-. by eapply active_not_terminal.
Qed.
End accepted.

(** A request that has passed its check is refused once the row is terminal. *)
Lemma settled_is_closed {Syn : Type} base E id req task status s row :
  tasks_wf (sv_db s) → status ∈ terminal_status → find_task id (sv_db s) = Some row → terminal row →
  re_Code (result_settle (Syn:=Syn) base E id req task status s).1 ≠ 200.
Proof.
  intros Hwf Hst Hf Ht Hc. pose proof (settle_spec (Syn:=Syn) base E id req task status s Hwf Hst) as Hr. cbv zeta in Hr.
  rewrite bool_decide_true in Hr by done. destruct Hr as ((row0 & _ & Hf0 & Ha & _) & _).
  rewrite Hf in Hf0. injection Hf0 as <-. by eapply active_not_terminal.
Qed.

(** A result that is on its way: its check was passed in a state [s0]. *)
Definition checked {Syn : Type} (id : string) (req : TaskResultRequest) (task : TaskRecord) (status : string) (s0 : Server) : Prop :=
  ∃ E0 body, (result_check (Syn:=Syn) E0 id body s0).1 = inr (req, task, status).

Lemma checked_spec {Syn : Type} id req task status s0 : checked (Syn:=Syn) id req task status s0 →
  status = NormalizeTaskResultStatus (rs_Status req) ∧ status ∈ terminal_status ∧
  ∃ row, find_task id (sv_db s0) = Some row ∧ task = scanTaskRecord (sv_db s0) row ∧ t_WorkerID row = Some (TrimSpace (rs_WorkerID req)).
Proof. intros (E0 & body & Hc). destruct (check_spec (Syn:=Syn) E0 id body s0) as [_ H]. rewrite Hc in H. destruct H as (_ & ? & ? & ?). done. Qed.


(** A result that is refused changes neither the queue nor the runtimes nor
    the requests sent, and publishes nothing; and a result that reports a failure
    of the launcher never reaches the state machine. *)
Theorem refused_result_changes_nothing {Syn : Type} base E id body s :
  tasks_wf (sv_db s) →
  let r := HandleTaskResult (Syn:=Syn) base E id body s in
  (re_Code r.1 ≠ 200 → refusal_view r.2 = refusal_view s) ∧
  (∀ req, body = Some req → rs_InfraFailure req = true →
   pm_runtimes (sv_pm r.2) = pm_runtimes (sv_pm s) ∧ wd_dispatch (pm_world (sv_pm r.2)) = wd_dispatch (pm_world (sv_pm s))).
Proof.
  intros Hwf. cbv zeta. pose proof (result_spec (Syn:=Syn) base E id body s Hwf) as Hr. cbv zeta in Hr. case_bool_decide.
  - destruct Hr as (req & row & row' & -> & H1 & H2 & H3 & H4 & H5 & H6 & H7 & Hi). split; [done|].
    intros req' [= <-]. exact Hi.
  - split; [done|]. intros _ _ _. unfold refusal_view in Hr. by injection Hr.
Qed.

(** ** Polling *)

Section polling.
Context {Syn : Type} (config_dir : option FullConfig) (synthesis : SynthesisRequest → option Syn).

(** The tasks the worker may have at the instant [E]: active ones without a live lease,
    that it does not already run itself, of one of its roles if it has any, of one of its
    repositories, and for its runtime or for any. *)
Definition may_take (E : Env) (w : WorkerRecord) (roles : list string) (t : TaskRecord) : Prop :=
  (t_Status t = "pending" ∨ t_Status t = "running") ∧
  (∀ x, t_LeaseExpiresAt t = Some x → x < trunc_sec (e_now E)) ∧
  (t_Status t = "running" → ∃ v, t_WorkerID t = Some v ∧ v ≠ w_ID w) ∧
  (roles = [] ∨ t_Role t ∈ roles) ∧
  t_Repo t ∈ TrimSpace <$> worker_repos w ∧ t_Repo t ≠ EmptyString ∧
  (sql_blank (t_Runtime t) = true ∨ t_Runtime t = TrimSpace (w_Runtime w) ∧ t_Runtime t ≠ EmptyString).

(** The attempt of worker [w] at the instant [E] took [row], the oldest task it may
    have, and handed it out as [t]. *)
Definition handed_out (E : Env) (w : WorkerRecord) (d : DB) (row : TaskRecord) (t : TaskPollResponse (Syn:=Syn)) (d' : DB) : Prop :=
  ∃ roles, unmarshal_strings (w_Roles w) = Some roles ∧
  row ∈ db_tasks d ∧ may_take E w (default [] roles) row ∧
  (∀ u, u ∈ db_tasks d → may_take E w (default [] roles) u → created_le row u = true) ∧
  (tp_TaskID t, tp_Repo t, tp_IssueNum t, tp_AgentName t, tp_Workflow t, tp_State t)
    = (t_ID row, t_Repo row, t_IssueNum row, t_AgentName row, t_Workflow row, t_State row) ∧
  find_task (t_ID row) d' = Some (claim_row E (w_ID w) EmptyString (30 * second) row) ∧
  ∀ id, id ≠ t_ID row → find_task id d' = find_task id d.

Lemma elem_of_clean_repos r l : r ∈ clean_repos l ↔ r ∈ TrimSpace <$> l ∧ r ≠ EmptyString.
Proof. unfold clean_repos. by rewrite elem_of_filter_bool, negb_true_iff, bool_decide_eq_false. Qed.

Lemma may_take_eligible E w roles t : clean_repos (worker_repos w) ≠ [] →
  claim_eligible E (w_ID w) roles (clean_repos (worker_repos w)) (TrimSpace (w_Runtime w)) t = true ↔ may_take E w roles t.
Proof.
  intros Hne. unfold claim_eligible, may_take. rewrite !andb_true_iff.
  assert (status_in active_status t = true ↔ t_Status t = "pending" ∨ t_Status t = "running") as ->.
  { unfold status_in, active_status. rewrite bool_decide_eq_true, elem_of_cons, list_elem_of_singleton. done. }
  assert (lease_free E t = true ↔ ∀ x, t_LeaseExpiresAt t = Some x → x < trunc_sec (e_now E)) as ->.
  { unfold lease_free. destruct (t_LeaseExpiresAt t) as [x|]; [|done]. rewrite Z.ltb_lt. split; [by intros ? ? [= <-]|auto]. }
  assert (not_running_self (w_ID w) t = true ↔ (t_Status t = "running" → ∃ v, t_WorkerID t = Some v ∧ v ≠ w_ID w)) as ->.
  { unfold not_running_self, status_is. rewrite orb_true_iff, negb_true_iff, bool_decide_eq_false.
    destruct (t_WorkerID t) as [v|]; [rewrite negb_true_iff, bool_decide_eq_false|]; split.
    - intros [Hs|Hv] Hr; [done|eauto].
    - intros H. destruct (decide (t_Status t = "running")) as [Hs|]; [right|by left]. by destruct (H Hs) as (? & [= <-] & ?).
    - intros [Hs|?] Hr; done.
    - intros H. left. intros Hs. by destruct (H Hs) as (? & ? & _). }
  rewrite !orb_true_iff, !andb_true_iff, !negb_true_iff, !bool_decide_eq_true, !bool_decide_eq_false, elem_of_clean_repos.
  split; [intros (((((H1 & H2) & H3) & H4) & H5) & H6)|intros (H1 & H2 & H3 & H4 & H5 & H6 & H7)]; split_and!; try done.
  - by destruct H5 as [?|[? _]].
  - by destruct H5 as [?|[_ ?]].
  - destruct H6 as [?|[Hr Ht]]; [by left|right; split; congruence].
  - by right.
  - destruct H7 as [?|[Hr Ht]]; [by left|right; split; congruence].
Qed.

(** A worker without a repository is given nothing. *)
Lemma claim_needs_a_repo E w roles repos rt lease d task :
  repos ≠ [] → (ClaimNextTask E w roles repos rt EmptyString lease d).1 = Ok (Some task) → clean_repos repos ≠ [].
Proof.
  intros Hr Hok Hc. revert d Hok. unfold ClaimNextTask. generalize (defaultLease lease (30 * second)) as le. intros le.
  assert (∀ d, (claimNextTaskOnce E w roles repos rt EmptyString le d).1 ≠ Ok (Some task)) as Ho.
  { intros d. unfold claimNextTaskOnce, sql_tx. destruct (e_fault E (db_calls d)); [done|].
    rewrite (bool_decide_true (EmptyString = EmptyString)), Hc, (bool_decide_true ([] = [])), (bool_decide_false (repos = [])) by done. done. }
  generalize 5%nat as n. induction n as [|n IH]; intros d; cbn [retry_busy]; [apply Ho|].
  unfold mbind, St_bind. specialize (Ho d). destruct (claimNextTaskOnce _ _ _ _ _ _ _ d) as [[a|e] d1]; cbn [fst snd mret St_ret] in *; [done|].
  destruct (IsBusyError e); [apply IH|done].
Qed.

Lemma worker_repos_some w : worker_repos w ≠ [].
Proof. unfold worker_repos. by repeat case_match. Qed.

Lemma claim_spec E w s :
  tasks_wf (sv_db s) →
  let r := claimNextTask config_dir synthesis E w s in
  match r.1 with
  | Ok (Some t) => ∃ row, handed_out E w (sv_db s) row t (sv_db r.2)
  | _ => db_tasks (sv_db r.2) = db_tasks (sv_db s)
  end.
Proof.
  intros Hwf. cbv zeta. unfold claimNextTask. destruct (unmarshal_strings (w_Roles w)) as [roles|] eqn:Hr; [|done].
  rewrite run_bind.
  pose proof (claim_next_post E (w_ID w) (default [] roles) (worker_repos w) (w_Runtime w) EmptyString
    DefaultLongPollTimeout (sv_db s) Hwf) as Hp. unfold wp in Hp.
  pose proof (claim_needs_a_repo E (w_ID w) (default [] roles) (worker_repos w) (w_Runtime w) DefaultLongPollTimeout (sv_db s)) as Hn.
  set (m := ClaimNextTask _ _ _ _ _ _ _) in *. change ((on_store m s).1) with (m (sv_db s)).1.
  assert (sv_db (on_store m s).2 = (m (sv_db s)).2) as Hd by done.
  destruct (m (sv_db s)) as [[[task|]|e] d1]; cbn [fst snd] in *;
    [|unfold mret, St_ret; cbn [fst snd]; rewrite Hd; by destruct Hp|unfold mret, St_ret; cbn [fst snd]; by rewrite Hd].
  pose proof (may_take_eligible E w (default [] roles)) as Hm.
  assert (clean_repos (worker_repos w) ≠ []) as Hc by (apply (Hn task); [apply worker_repos_some|done]).
  destruct Hp as [[? _]|(row & Hin & He & Hmin & -> & Hf & Ho)]; [done|]. exists row, roles.
  split; [done|]. split_and!; [done|by apply Hm| |done| |].
  - intros u Hu Hu'. apply Hmin; [done|]. by apply Hm.
  - rewrite <-Hd in Hf. exact Hf.
  - intros id Hid. rewrite <-Hd in Ho. exact (Ho id Hid).
Qed.

(** When an attempt is made, and on which queue: the first on the queue as the poll finds
    it, and each further one on the queue the other operations have made of it, since an
    attempt that finds nothing leaves the queue alone. *)
Inductive attempt : Env → list ((Server → Server) * Env) → Server → Env → Server → Prop :=
  | at_first E later s x : db_tasks (sv_db x) = db_tasks (sv_db s) → attempt E later s E x
  | at_later E others E' later s x E1 s1 :
      db_tasks (sv_db x) = db_tasks (sv_db s) → attempt E' later (others x) E1 s1 → attempt E ((others, E') :: later) s E1 s1.

Lemma attempt_same E later s s' E1 s1 : db_tasks (sv_db s') = db_tasks (sv_db s) → attempt E later s' E1 s1 → attempt E later s E1 s1.
Proof. intros Hs Ha. inversion Ha; subst; [apply at_first|eapply at_later; [|done]]; congruence. Qed.

Lemma handed_tasks E w d d2 row t d' : db_tasks d' = db_tasks d2 → handed_out E w d row t d' → handed_out E w d row t d2.
Proof. unfold handed_out, find_task. by intros ->. Qed.

Lemma heartbeat_tasks E id d : db_tasks (Registry.Heartbeat E id d).2 = db_tasks d.
Proof.
  assert (keeps (same db_tasks) (Registry.Heartbeat E id)) as Hk; [|apply Hk].
  unfold Registry.Heartbeat. frame_auto queue_leaf.
Qed.

Lemma poll_loop_spec E later w s t :
  tasks_wf (sv_db s) → Forall (λ p, ∀ x, tasks_wf (sv_db x) → tasks_wf (sv_db (p.1 x))) later →
  re_Body (poll_loop config_dir synthesis E later w s).1 = BTask t →
  ∃ E1 s1 row, attempt E later s E1 s1 ∧ handed_out E1 w (sv_db s1) row t (sv_db (poll_loop config_dir synthesis E later w s).2).
Proof.
  revert E s. induction later as [|[others E'] later IH]; intros E s Hwf Hl; cbn [poll_loop]; rewrite run_bind;
    pose proof (claim_spec E w s Hwf) as Hc; pose proof (life_claim_next config_dir synthesis E w s Hwf) as [Hwf1 _];
    destruct (claimNextTask config_dir synthesis E w s) as [[[t'|]|e] s1]; cbn [fst snd] in *.
  - rewrite run_bind. intros [= ->]. destruct Hc as [row Hrow]. exists E, s, row. split; [by apply at_first|].
    eapply handed_tasks; [|exact Hrow]. symmetry. apply heartbeat_tasks.
  - done.
  - by destruct (errors_Is e ErrTaskClaimConflict).
  - rewrite run_bind. intros [= ->]. destruct Hc as [row Hrow]. exists E, s, row. split; [by apply at_first|].
    eapply handed_tasks; [|exact Hrow]. symmetry. apply heartbeat_tasks.
  - apply Forall_cons in Hl as [Ho Hl]. cbn [negb]. rewrite run_bind. intros Hb.
    edestruct IH as (E1 & s2 & row & Ha & Hrow); [| |exact Hb|]; [by apply Ho|done|]. exists E1, s2, row. split; [|done]. by eapply at_later.
  - apply Forall_cons in Hl as [Ho Hl]. destruct (errors_Is e ErrTaskClaimConflict); [|done]. cbn [negb].
    rewrite run_bind. intros Hb. edestruct IH as (E1 & s2 & row & Ha & Hrow); [| |exact Hb|]; [by apply Ho|done|].
    exists E1, s2, row. split; [|done]. by eapply at_later.
Qed.
End polling.


(** ** Who is let in *)

(** Everything of the server but the count of its statements. *)
Definition sv_content (s : Server) :=
  (upd_db_calls (λ _, O) (sv_db s), upd_wd_db (λ _, empty_db) (pm_world (sv_pm s)), pm_runtimes (sv_pm s),
   sv_published s, sv_membership s).

(** The token belongs to a worker and is not revoked. *)
Definition worker_token (t : string) (d : DB) : Prop :=
  ∃ a, ∀ E, quiet E → (AuthenticateWorkerToken E t d).1 = Ok a.

(** The token a request carries, in its header or in the session cookie. *)
Definition presented (rq : Request) (t : string) : Prop :=
  ∃ raw, (rq_Authorization rq = "Bearer " +:+ raw ∨ rq_Cookie rq = Some raw) ∧ t = TrimSpace raw.

Section auth.
Context (AuthToken : string) (E : Env).

Lemma authenticate_reads t d :
  let r := AuthenticateWorkerToken E t d in
  upd_db_calls (λ _, O) r.2 = upd_db_calls (λ _, O) d ∧ (∀ a, r.1 = Ok a → worker_token t d) ∧
  (quiet E → worker_token t d → ∃ a, r.1 = Ok a).
Proof.
  cbv zeta. split_and!; [| |intros HE [a Ha]; exists a; by apply Ha].
  - unfold AuthenticateWorkerToken, bindE, wrapE, sql_query, sql, mbind, St_bind, mret, St_ret.
    destruct (parseWorkerTokenKID t); [|done]. by destruct (e_fault E _).
  - intros a Ha. exists a. intros E' HE'. revert Ha.
    unfold AuthenticateWorkerToken, bindE, wrapE, sql_query, sql, mbind, St_bind, mret, St_ret.
    destruct (parseWorkerTokenKID t); [|done]. rewrite HE'. destruct (e_fault E _); [done|]. cbn. done.
Qed.

(** The credentials that open the door. *)
Definition credential (t : string) (s : Server) : Prop :=
  t ≠ EmptyString ∧ (t = AuthToken ∨ worker_token t (sv_db s)).

Lemma credential_content t s s' : sv_content s' = sv_content s → credential t s → credential t s'.
Proof.
  intros Hc [Hn [Ht|[a Ha]]]; split; auto. right. exists a. intros E' HE'. rewrite <-(Ha E' HE').
  assert (db_tokens (sv_db s') = db_tokens (sv_db s) ∧ db_workers (sv_db s') = db_workers (sv_db s)) as [Ht Hw] by by injection Hc.
  unfold AuthenticateWorkerToken, bindE, wrapE, sql_query, sql, mbind, St_bind, mret, St_ret.
  destruct (parseWorkerTokenKID t); [|done]. rewrite !HE'. cbn. by rewrite Ht, Hw.
Qed.

Lemma bearer_spec tok s :
  let r := isAuthorizedBearer AuthToken E tok s in
  sv_content r.2 = sv_content s ∧ (r.1 = true → credential (TrimSpace tok) s) ∧
  (quiet E → credential (TrimSpace tok) s → r.1 = true).
Proof.
  cbv zeta. unfold isAuthorizedBearer. case_bool_decide as Hn; [split_and!; [done..|]; intros _ [? _]; done|].
  destruct (negb _ && bool_decide (TrimSpace tok = AuthToken)) eqn:Ha.
  - apply andb_prop in Ha as [_ Ha%bool_decide_eq_true]. split_and!; [done| |done]. intros _. by split; auto.
  - rewrite run_bind. destruct (authenticate_reads (TrimSpace tok) (sv_db s)) as (Hd & Hok & Hall).
    change ((on_store (AuthenticateWorkerToken E (TrimSpace tok)) s).1) with (AuthenticateWorkerToken E (TrimSpace tok) (sv_db s)).1.
    split_and!.
    + unfold sv_content. change (sv_db _) with (AuthenticateWorkerToken E (TrimSpace tok) (sv_db s)).2 at 1. rewrite Hd. done.
    + unfold mret, St_ret. cbn [fst]. destruct (AuthenticateWorkerToken E _ _).1 as [a|e]; [|done]. intros _.
      split; [done|]. right. by eapply Hok.
    + intros HE [_ [Ht|Ht]].
      * rewrite (bool_decide_true (TrimSpace tok = AuthToken)), (bool_decide_false (AuthToken = EmptyString)) in Ha by congruence. done.
      * destruct (Hall HE Ht) as [a ->]. done.
Qed.
End auth.

Lemma has_prefix_split s p : HasPrefix s p = true → s = p +:+ TrimPrefix s p.
Proof.
  unfold TrimPrefix. intros Hp. rewrite Hp. revert s Hp. induction p as [|c p IH]; intros s; [done|].
  destruct s as [|d s]; [done|]. cbn. intros [Hd Hp]%andb_prop. apply Ascii.eqb_eq in Hd as ->. by rewrite (IH s Hp) at 1.
Qed.

Lemma request_spec AuthToken E rq s :
  let r := requestAuthorized AuthToken E rq s in
  sv_content r.2 = sv_content s ∧ (r.1 = true → ∃ t, presented rq t ∧ credential AuthToken t s) ∧
  (quiet E → (∃ t, presented rq t ∧ credential AuthToken t s) → r.1 = true).
Proof.
  cbv zeta. unfold requestAuthorized. rewrite run_bind.
  set (m := if HasPrefix (rq_Authorization rq) "Bearer " then _ else _).
  assert (sv_content (m s).2 = sv_content s ∧
    ((m s).1 = true → ∃ t, presented rq t ∧ credential AuthToken t s) ∧
    (quiet E → ∀ raw, rq_Authorization rq = "Bearer " +:+ raw → credential AuthToken (TrimSpace raw) s → (m s).1 = true))
    as (Hm1 & Hm2 & Hm3).
  { unfold m. destruct (HasPrefix _ _) eqn:Hp.
    - destruct (bearer_spec AuthToken E (TrimSpace (TrimPrefix (rq_Authorization rq) "Bearer ")) s) as (H1 & H2 & H3).
      rewrite TrimSpace_idem in H2, H3.
      split_and!; [done| |].
      + intros Ht. eexists. split; [|by apply H2]. eexists. split; [left; by apply has_prefix_split|done].
      + intros HE raw Hr Hc. apply H3; [done|]. by rewrite Hr, TrimPrefix_app.
    - split_and!; [done..|]. intros _ raw Hr. by rewrite Hr, HasPrefix_app in Hp. }
  destruct (m s) as [b s1]. cbn [fst snd] in *. destruct b; [split_and!; auto|].
  destruct (rq_Cookie rq) as [c|] eqn:Hck.
  - destruct (bearer_spec AuthToken E (TrimSpace c) s1) as (H1 & H2 & H3). rewrite TrimSpace_idem in H2, H3. split_and!; [congruence| |].
    + intros Ht. eexists. split; [eexists; split; [right; exact Hck|reflexivity]|]. eapply credential_content; [|by apply H2]. done.
    + intros HE (t & (raw & [Ha|Hr] & ->) & Hc); [by specialize (Hm3 HE _ Ha Hc)|]. rewrite Hck in Hr. injection Hr as <-.
      apply H3; [done|]. by eapply credential_content.
  - split_and!; [done..|]. intros HE (t & (raw & [Ha|Hr] & ->) & Hc); [by apply (Hm3 HE _ Ha)|congruence].
Qed.

(** C11: With authentication on, a handler runs only for a request that carries, in
    its header or its session cookie, the operator's token or the live token of a
    worker, and then on a store that was only read; every other request gets 401,
    or the redirect to the login page, and changes nothing.  When no statement
    fails, such a token is always enough. *)
Theorem requests_are_authorized {Syn : Type} AuthToken QueryEscape E next rq s :
  let r := WrapAuth (Syn:=Syn) true AuthToken QueryEscape E next rq s in
  ((∃ t s1, presented rq t ∧ credential AuthToken t s ∧ sv_content s1 = sv_content s ∧ r = next rq s1) ∨
   (re_Code r.1 ∈ [401; 302] ∧ sv_content r.2 = sv_content s)) ∧
  (quiet E → (∃ t, presented rq t ∧ credential AuthToken t s) → ∃ s1, sv_content s1 = sv_content s ∧ r = next rq s1).
Proof.
  cbv zeta. unfold WrapAuth. cbn [negb]. rewrite run_bind. destruct (request_spec AuthToken E rq s) as (H1 & H2 & H3).
  destruct (requestAuthorized AuthToken E rq s) as [[] s1]; cbn [fst snd] in *.
  - split; [|intros; by exists s1]. left. destruct (H2 eq_refl) as (t & Hp & Hc). by exists t, s1.
  - split; [right|intros HE Hc; by specialize (H3 HE Hc)]. split; [|done]. unfold mret, St_ret. cbn [fst].
    destruct (prefersHTML rq); set_solver.
Qed.

(** ** Registering a repository *)

Definition repos_view (w : World) : gmap string RepoRegistrationRecord := db_repos (wd_db w).

Lemma event_keeps_repos `{YamlLib} E C ctx ev : keeps (same repos_view) (HandleEvent E C ctx ev).
Proof. frame_auto queue_leaf. Qed.

Lemma recover_keeps_repos `{YamlLib} E base ctx rt : keeps (same repos_view) (recover_world E base ctx rt).
Proof.
  unfold recover_world. apply keeps_bindE; [apply _|frame_auto queue_leaf|]. intros caches.
  apply keeps_bind; [apply _| |intros; by apply keeps_ret, _].
  generalize 0 as n. induction caches as [|c caches IH]; intros n; cbn [recover_loop]; [by apply keeps_ret, _|].
  apply keeps_bind; [apply _| |auto]. unfold recover_one. repeat first [apply event_keeps_repos | frame_step queue_leaf].
Qed.

Definition pm_repos (pm : PollerManager) : gmap string RepoRegistrationRecord := repos_view (pm_world pm).

Section start.
Context `{YamlLib} (E : Env) (base : SMConfig) (ctx_done : nat → bool) (stops : string → bool).
Context (decode : RepoRegistrationRecord → res FullConfig) (probe : RepoRegistrationRecord → res unit).

Lemma stop_keeps_repos repo : keeps (same pm_repos) (stopRepo E base stops repo).
Proof. intros pm. destruct (stop_spec E base stops repo pm) as (_ & _ & Hq). by injection Hq. Qed.

(** The runtime and the registrations after a start, whether it succeeds or not. *)
Lemma start_spec rec pm :
  let r := StartOrUpdate E base ctx_done stops decode probe rec pm in
  pm_repos r.2 = pm_repos pm ∧
  match r.1 with
  | Ok _ => ∃ rt, pm_runtimes r.2 !! rg_Repo rec = Some rt ∧ rr_Registration rt = rec
  | Err _ => stops (rg_Repo rec) = true → pm_runtimes r.2 = pm_runtimes pm
  end.
Proof.
  cbv zeta. unfold StartOrUpdate. destruct (decode rec) as [cfg|e]; [|done]. destruct (probe rec) as [[]|e]; [|done].
  pose proof (stop_keeps_repos (rg_Repo rec) pm) as Hs. destruct (stop_spec E base stops (rg_Repo rec) pm) as (Hv & Hm & _).
  unfold bindE. rewrite run_bind. destruct (stopRepo E base stops (rg_Repo rec) pm) as [v pm1]. cbn [fst snd] in *. subst v.
  destruct (bool_decide _ || stops _) eqn:Hb.
  - rewrite !run_bind. unfold modS. cbn [fst snd]. unfold mret, St_ret. cbn [fst snd].
    unfold recoverOrphanedActiveStates. rewrite run_bind. unfold get_runtime, getsS. cbn [fst snd].
    cbn [upd_pm_runtimes pm_runtimes]. rewrite lookup_insert_eq. split.
    + rewrite <-Hs. exact (recover_keeps_repos E base ctx_done _ _).
    + eexists. rewrite runtime_alter, bool_decide_true by done. cbn [upd_pm_runtimes pm_runtimes].
      rewrite lookup_insert_eq. done.
  - split; [done|]. apply orb_false_iff in Hb as [_ ->]. done.
Qed.
End start.

(** The registrations as the store keeps them. *)
Definition regs_wf (d : DB) : Prop := ∀ repo row, db_repos d !! repo = Some row →
  rg_Repo row = repo ∧ is_blank (rg_Status row) = false ∧ is_blank (rg_ConfigJSON row) = false.
(** A registration but for the time of its last update. *)
Definition reg_content (row : RepoRegistrationRecord) : RepoRegistrationRecord :=
  mkRepoReg (rg_Repo row) (rg_Environment row) (rg_Status row) (rg_ConfigJSON row) (rg_RegisteredAt row) None.

Lemma build_fields resolve stat marshal unmarshal payload rec :
  BuildRepoRegistrationRecord resolve stat marshal unmarshal payload = Ok rec → rg_Repo rec = TrimSpace (pl_Repo payload).
Proof. unfold BuildRepoRegistrationRecord. cbv zeta. case_match; [|done]. by intros [= <-]. Qed.

Section register.
Context {Syn : Type} `{YamlLib} (E : Env) (base : SMConfig) (ctx_done : nat → bool) (stops : string → bool).
Context (probe : RepoRegistrationRecord → res unit) (resolve : string → string → string) (stat : string → bool).
Context (marshal : RepoRegistrationPayload → string) (unmarshal : string → option RepoRegistrationPayload).
Context (HE : quiet E).

(** Putting a registration back after another one was written over it. *)
Lemma restore_spec repo rec s s1 :
  regs_wf (sv_db s) → rg_Repo rec = repo →
  db_repos (sv_db s1) = db_repos (UpsertRepoRegistration E rec (sv_db s)).2 →
  let r := restore_registration E repo (db_repos (sv_db s) !! repo) s1 in
  r.1 = Ok tt ∧ pm_runtimes (sv_pm r.2) = pm_runtimes (sv_pm s1) ∧
  (∀ k, reg_content <$> db_repos (sv_db r.2) !! k = reg_content <$> db_repos (sv_db s) !! k).
Proof.
  intros Hwf Hr Hs1. revert Hs1. cbv zeta. unfold restore_registration, UpsertRepoRegistration, wrapE, mbind, St_bind.
  rewrite sql_quiet by done. cbn [fst snd mret St_ret upd_db_call upd_db_calls upd_db_repos db_repos]. rewrite Hr. intros Hs1.
  destruct (db_repos (sv_db s) !! repo) as [p|] eqn:Hp.
  - destruct (Hwf _ _ Hp) as (Hk & Hst & Hcf). unfold on_store, on_pollers, on_shared, lift. cbn [fst snd].
    rewrite !sql_quiet by done. rewrite Hst, Hcf, Hk. split_and!; [done..|]. intros k. cbn. fold (sv_db s1). rewrite !Hs1.
    rewrite lookup_insert_eq, insert_insert_eq. cbn. destruct (decide (repo = k)) as [<-|Hne].
    + rewrite lookup_insert_eq, Hp. cbn. unfold reg_content. cbn. by rewrite Hk.
    + by rewrite lookup_insert_ne.
  - unfold on_store, on_pollers, on_shared, lift, DeleteRepoRegistration, wrapE, mbind, St_bind. cbn [fst snd].
    rewrite !sql_quiet by done. split_and!; [done..|]. intros k. cbn. fold (sv_db s1). rewrite !Hs1, delete_insert_eq.
    by rewrite delete_id.
Qed.

(** What the handler leaves behind for [repo]. *)
Definition register_post (repo : string) (s : Server) (r : Response (Syn:=Syn) * Server) : Prop :=
  if bool_decide (re_Code r.1 = 200) then
    (∃ rt row, pm_runtimes (sv_pm r.2) !! repo = Some rt ∧ rg_Repo (rr_Registration rt) = repo ∧
               db_repos (sv_db r.2) !! repo = Some row ∧ rg_ConfigJSON row = rg_ConfigJSON (rr_Registration rt)) ∧
    ∀ k, k ≠ repo → db_repos (sv_db r.2) !! k = db_repos (sv_db s) !! k
  else
    (∀ k, reg_content <$> db_repos (sv_db r.2) !! k = reg_content <$> db_repos (sv_db s) !! k) ∧
    (stops repo = true → pm_runtimes (sv_pm r.2) = pm_runtimes (sv_pm s)).

Lemma start_registered_spec rec s :
  let r := start_registered base ctx_done stops probe resolve stat unmarshal E rec s in
  db_repos (sv_db r.2) = db_repos (sv_db s) ∧
  match r.1 with
  | Ok _ => ∃ rt, pm_runtimes (sv_pm r.2) !! rg_Repo rec = Some rt ∧ rr_Registration rt = rec
  | Err _ => stops (rg_Repo rec) = true → pm_runtimes (sv_pm r.2) = pm_runtimes (sv_pm s)
  end.
Proof. exact (start_spec E base ctx_done stops _ probe rec (sv_pm s)). Qed.

Lemma register_spec rq req s :
  regs_wf (sv_db s) → (∀ p, is_blank (marshal p) = false) →
  register_post (TrimSpace (rr_Repo req)) s
    (HandleRegisterRepo (Syn:=Syn) base ctx_done stops probe resolve stat marshal unmarshal E rq (Some req) s).
Proof.
  intros Hwf Hm. unfold HandleRegisterRepo. set (repo := TrimSpace (rr_Repo req)).
  case_bool_decide; cbn [negb]; [|done]. case_bool_decide; [done|].
  destruct (BuildRepoRegistrationRecord _ _ _ _ _) as [rec|e] eqn:Hb; [|done].
  assert (rg_Repo rec = repo) as Hr by (rewrite (build_fields _ _ _ _ _ _ Hb); apply TrimSpace_idem).
  assert (is_blank (rg_ConfigJSON rec) = false) as Hcf.
  { revert Hb. unfold BuildRepoRegistrationRecord. cbv zeta. case_match; [|done]. intros [= <-]. apply Hm. }
  rewrite run_bind. set (s1 := (on_store (GetRepoRegistration E repo) s).2).
  assert (GetRepoRegistration E repo (sv_db s) = (Ok (db_repos (sv_db s) !! repo), upd_db_call (sv_db s))) as Hget.
  { unfold GetRepoRegistration, wrapE, mbind, St_bind, sql_query. rewrite sql_quiet by done. done. }
  assert ((on_store (GetRepoRegistration E repo) s).1 = Ok (db_repos (sv_db s) !! repo)) as ->.
  { change ((on_store (GetRepoRegistration E repo) s).1) with (GetRepoRegistration E repo (sv_db s)).1. by rewrite Hget. }
  assert (sv_db s1 = upd_db_call (sv_db s) ∧ pm_runtimes (sv_pm s1) = pm_runtimes (sv_pm s)) as [Hs1 Hp1].
  { unfold s1. split; [|done]. transitivity (GetRepoRegistration E repo (sv_db s)).2; [done|by rewrite Hget]. }
  clearbody s1. rewrite run_bind. set (s2 := (on_store (UpsertRepoRegistration E rec) s1).2).
  assert (∀ d, (UpsertRepoRegistration E rec d).1 = Ok tt) as Hup.
  { intros d. unfold UpsertRepoRegistration, wrapE, mbind, St_bind. by rewrite sql_quiet. }
  change ((on_store (UpsertRepoRegistration E rec) s1).1) with (UpsertRepoRegistration E rec (sv_db s1)).1. rewrite Hup.
  assert (db_repos (sv_db s2) = db_repos (UpsertRepoRegistration E rec (sv_db s)).2) as Hs2.
  { change (sv_db s2) with (UpsertRepoRegistration E rec (sv_db s1)).2. rewrite Hs1.
    unfold UpsertRepoRegistration, wrapE, mbind, St_bind. by rewrite !sql_quiet. }
  assert (pm_runtimes (sv_pm s2) = pm_runtimes (sv_pm s)) as Hp2 by exact Hp1. clearbody s2.
  rewrite run_bind. destruct (start_registered_spec rec s2) as [Hs3 Hst].
  destruct (start_registered _ _ _ _ _ _ _ E rec s2) as [[[]|e] s3]; cbn [fst snd] in *.
  - unfold register_post. rewrite bool_decide_true by done. cbn [mret St_ret snd]. destruct Hst as (rt & Hrt & Hreg).
    revert Hs2. unfold UpsertRepoRegistration, wrapE, mbind, St_bind. rewrite sql_quiet by done. cbn. rewrite Hr, Hcf. intros Hs2.
    rewrite Hs3, Hs2. split.
    + exists rt. eexists. rewrite <-Hr at 1. rewrite Hreg, lookup_insert_eq. by split_and!.
    + intros k Hk. by rewrite lookup_insert_ne.
  - destruct (restore_spec repo rec s s3 Hwf Hr) as (Hu & Hp & Hc); [congruence|].
    rewrite run_bind. rewrite Hu. unfold register_post. rewrite bool_decide_false by done. cbn [mret St_ret snd].
    split; [done|]. intros Hstop. rewrite Hp. rewrite Hst by (by rewrite Hr). done.
Qed.
End register.

(** C39: Registering a repository is all or nothing.  When the handler answers 200
    the repository runs with the configuration that is stored for it, and no other
    registration has changed; with any other answer every registration is what it
    was (but for the time of its last update), and so are the runtimes, unless a
    runtime that had to be replaced did not stop in time. *)
Theorem registration_is_all_or_nothing {Syn : Type} `{YamlLib} E base ctx_done stops probe resolve stat marshal unmarshal rq req s :
  quiet E → regs_wf (sv_db s) → (∀ p, is_blank (marshal p) = false) →
  register_post (Syn:=Syn) stops (TrimSpace (rr_Repo req)) s
    (HandleRegisterRepo base ctx_done stops probe resolve stat marshal unmarshal E rq (Some req) s).
Proof. intros HE Hwf Hm. by apply register_spec. Qed.

(** ** Paths *)

(** A path segment: printable, without a slash. *)
Definition segment (s : string) : Prop :=
  s ≠ EmptyString ∧ all_str (λ c, graphic c && negb (Ascii.eqb "/" c)) s = true.

Lemma segment_graphic s : segment s → all_str graphic s = true.
Proof. intros [_ Hs]. eapply all_str_mono; [|exact Hs]. by intros c [? _]%andb_prop. Qed.
Lemma segment_no_slash s : segment s → all_str (λ d, negb (Ascii.eqb "/" d)) s = true.
Proof. intros [_ Hs]. eapply all_str_mono; [|exact Hs]. by intros c [_ ?]%andb_prop. Qed.

Lemma no_slash_contains s : all_str (λ d, negb (Ascii.eqb "/" d)) s = true → Contains s "/" = false.
Proof.
  induction s as [|c s IH]; [done|]. cbn [all_str]. intros [Hc Hs]%andb_prop. rewrite Ascii.eqb_sym in Hc.
  change (Contains (String c s) "/") with ((Ascii.eqb c "/" && HasPrefix s EmptyString) || Contains s "/").
  apply negb_true_iff in Hc. rewrite Hc. by apply IH.
Qed.

Lemma trim_left_segment s t : s ≠ EmptyString → all_str (λ d, negb (Ascii.eqb "/" d)) s = true → TrimLeftByte "/" (s +:+ t) = s +:+ t.
Proof.
  intros Hne Hn. destruct s as [|c s]; [done|]. cbn [all_str] in Hn. apply andb_prop in Hn as [Hc%negb_true_iff _].
  change (TrimLeftByte "/" (String c (s +:+ t)) = String c (s +:+ t)). cbn [TrimLeftByte]. by rewrite Hc.
Qed.
Lemma rev_str_nonempty s : s ≠ EmptyString → rev_str s EmptyString ≠ EmptyString.
Proof. intros Hn Hr. apply Hn. rewrite <-(rev_str_involutive s). by rewrite Hr. Qed.
Lemma trim_segments s t u : segment s → segment u → TrimByte "/" (s +:+ t +:+ u) = s +:+ t +:+ u.
Proof.
  intros Hs Hu. unfold TrimByte. rewrite trim_left_segment by (apply Hs || by apply segment_no_slash). unfold TrimRightByte.
  rewrite <-(app_str_assoc s t u), rev_str_app_str, trim_left_segment.
  - by rewrite <-rev_str_app_str, rev_str_involutive.
  - apply rev_str_nonempty, Hu.
  - rewrite all_str_rev. by apply segment_no_slash.
Qed.

Lemma itoa_segment n : 0 < n < 2 ^ 63 → segment (itoa n).
Proof.
  intros Hn. split.
  - intros He. assert (atoi (itoa n) = Some n) as Ha; [|by rewrite He in Ha].
    apply atoi_itoa. unfold int64_ok. apply andb_true_intro. split; [apply Z.leb_le; lia|apply Z.ltb_lt; lia].
  - eapply all_str_mono; [|apply itoa_bytes]. intros c. by destruct c as [[][][][][][][][]].
Qed.

Lemma segment_join a b : segment a → segment b → is_blank (a +:+ "/" +:+ b) = false.
Proof.
  intros Ha Hb. unfold is_blank. rewrite TrimSpace_graphic.
  - destruct a as [|c a]; [by destruct Ha|done].
  - rewrite !all_str_app, (segment_graphic a Ha), (segment_graphic b Hb). reflexivity.
Qed.

Lemma split_segment a s : segment a → Split "/" (a +:+ "/" +:+ s) = a :: Split "/" s.
Proof. intros Ha. apply Split_app. by apply segment_no_slash. Qed.

(** The paths of the control plane are read back as they are written: the task
    and its action, the repository and issue of a clear-inflight request, and the
    worker that announces a session. *)
Theorem control_paths_roundtrip id action owner name n :
  segment id → segment action → segment owner → segment name → 0 < n < 2 ^ 63 →
  parseFullTaskActionPath (task_prefix +:+ id +:+ "/" +:+ action) = Some (id, action) ∧
  parseClearIssueInflightPath (issue_prefix +:+ owner +:+ "/" +:+ name +:+ "/" +:+ itoa n +:+ "/clear-inflight")
    = Some (owner +:+ "/" +:+ name, n) ∧
  parseAnnounceSessionPath (worker_prefix +:+ id +:+ announce_suffix) = Some id.
Proof.
  intros Hid Hac How Hna Hn. pose proof (itoa_segment n Hn) as Hit. split_and!.
  - unfold parseFullTaskActionPath. rewrite TrimPrefix_app, trim_segments by done.
    rewrite split_segment, Split_last by (done || by apply segment_no_slash).
    rewrite !bool_decide_false by (apply Hid || apply Hac). done.
  - unfold parseClearIssueInflightPath. rewrite TrimPrefix_app.
    change (itoa n +:+ "/clear-inflight") with (itoa n +:+ "/" +:+ "clear-inflight").
    rewrite <-(app_str_assoc "/" name), <-(app_str_assoc ("/" +:+ name) "/"), <-(app_str_assoc (("/" +:+ name) +:+ "/") (itoa n)),
      <-(app_str_assoc ((("/" +:+ name) +:+ "/") +:+ itoa n) "/").
    rewrite trim_segments by (done || by vm_compute). rewrite !app_str_assoc.
    rewrite !split_segment, Split_last by (done || by apply segment_no_slash).
    cbn [length Nat.ltb Nat.leb rev app]. rewrite bool_decide_true by done. cbn [negb]. rewrite atoi_itoa.
    2:{ unfold int64_ok. apply andb_true_intro. split; [apply Z.leb_le; lia|apply Z.ltb_lt; lia]. }
    destruct (Z.leb_spec n 0); [lia|]. cbn [rev app join_str]. by rewrite segment_join.
  - unfold parseAnnounceSessionPath. rewrite HasPrefix_app, TrimPrefix_app, TrimSuffix_app. cbn [negb orb].
    rewrite <-(app_str_assoc worker_prefix id), HasSuffix_app. cbn [negb].
    rewrite (TrimSpace_graphic id) by (by apply segment_graphic). rewrite bool_decide_false by apply Hid.
    by rewrite no_slash_contains by (by apply segment_no_slash).
Qed.

(** ** Concrete runs *)

Definition demo_worker : WorkerRecord :=
  mkWorker "w2" "o/r" (marshal_list ["o/r"]) (marshal_list ["dev"]) EmptyString "host" EmptyString EmptyString false "online" None None.
(** Task b runs on w1, task c waits; worker w2 is registered. *)
Definition demo_server : Server :=
  mkServer (mkManager (upd_wd_db (λ _, upd_db_workers (λ _, {[ "w2" := demo_worker ]}) demo_queue) empty_world)
              {[ "o/r" := mkRuntime demo_rec demo_full empty_sm false 0 ]}) [] 0.
Definition demo_result (worker : string) : option TaskResultRequest :=
  Some (mkResult worker " Completed" None false EmptyString None).

Lemma demo_server_wf : tasks_wf (sv_db demo_server).
Proof. exact demo_wf. Qed.

Definition no_synthesis : SynthesisRequest → option unit := λ _, None.
Definition at20 : Env := demo_env (20 * second).
Definition get_request : Request := mkRequest "GET" "/api/v1/tasks/poll" EmptyString EmptyString EmptyString None.
Definition post_request : Request := mkRequest "POST" "/api/v1/repos/register" EmptyString EmptyString EmptyString None.

(** Worker w1 reports its task twice. *)
Definition demo_row_b : TaskRecord := scanTaskRecord (sv_db demo_server) (demo_task "b" TaskStatusRunning (Some "w1") (Some (90 * second)) (Some (10 * second))).
Definition demo_settle (s : Server) : Response * Server :=
  result_settle (Syn:=unit) demo_base at20 "b" (mkResult "w1" " Completed" None false EmptyString None)
    demo_row_b TaskStatusCompleted s.
Lemma demo_checked : checked (Syn:=unit) "b" (mkResult "w1" " Completed" None false EmptyString None)
    demo_row_b TaskStatusCompleted demo_server.
Proof. exists at20, (demo_result "w1"). vm_compute. reflexivity. Qed.
Lemma demo_accepts : re_Code (demo_settle demo_server).1 = 200.
Proof. vm_compute. reflexivity. Qed.


Lemma refused_result_changes_nothing_witness :
  tasks_wf (sv_db demo_server) ∧
  refusal_view (HandleTaskResult (Syn:=unit) demo_base at20 "b" (demo_result "w2") demo_server).2 = refusal_view demo_server.
Proof.
  split; [exact demo_server_wf|].
  apply (refused_result_changes_nothing (Syn:=unit) demo_base at20 "b" (demo_result "w2") demo_server demo_server_wf).
  vm_compute. done.
Defined.

Definition demo_polled : TaskPollResponse (Syn:=unit) :=
  mkPoll "c" "o/r" 7 "dev" "default" "developing" 0 1 "g" ["dev"] None None.

Definition empty_payload : RepoRegistrationPayload := mkPayload "o/q" "prod" 0 [] [].
Definition demo_register (stops : string → bool) (probe : RepoRegistrationRecord → res unit) (req : RepoRegisterRequest) :
    Server → Response (Syn:=unit) * Server :=
  HandleRegisterRepo demo_base (λ _, false) stops probe (λ a _, a) (λ _, true) (λ _, "x") (λ _, Some empty_payload) at20
    post_request (Some req).
Definition demo_request : RepoRegisterRequest := mkRepoRequest " o/q" "prod" [] [].
Lemma demo_regs_wf : regs_wf (sv_db demo_server).
Proof. intros repo row. cbn. by rewrite lookup_empty. Qed.
Lemma demo_marshal (p : RepoRegistrationPayload) : is_blank "x" = false.
Proof. reflexivity. Qed.
Lemma registration_is_all_or_nothing_witness :
  quiet at20 ∧ regs_wf (sv_db demo_server) ∧
  register_post (Syn:=unit) (λ _, true) (TrimSpace (rr_Repo demo_request)) demo_server
    (HandleRegisterRepo demo_base (λ _, false) (λ _, true) (λ _, Ok tt) (λ a _, a) (λ _, true) (λ _, "x")
       (λ _, Some empty_payload) at20 post_request (Some demo_request) demo_server).
Proof.
  split; [done|]. split; [exact demo_regs_wf|].
  exact (registration_is_all_or_nothing at20 demo_base (λ _, false) (λ _, true) (λ _, Ok tt) (λ a _, a) (λ _, true)
    (λ _, "x") (λ _, Some empty_payload) post_request demo_request demo_server (λ _, eq_refl) demo_regs_wf demo_marshal).
Defined.

Lemma control_paths_roundtrip_witness :
  parseFullTaskActionPath "/api/v1/tasks/t-1/result" = Some ("t-1", "result") ∧
  parseClearIssueInflightPath "/api/v1/admin/issues/o/r/7/clear-inflight" = Some ("o/r", 7) ∧
  parseAnnounceSessionPath "/api/v1/workers/t-1/sessions/announce" = Some "t-1".
Proof. apply (control_paths_roundtrip "t-1" "result" "o" "r" 7); (split; [done|by vm_compute]) || lia. Defined.

(** ** What the handlers do that they should not *)

(** A task that does not exist is answered with 500, for every request that
    decodes: the store reports it as an error, and the branch that answers 404 is
    never reached. *)
Theorem unknown_task_is_a_server_error {Syn : Type} base E id req s :
  quiet E → find_task id (sv_db s) = None →
  re_Code (HandleTaskResult (Syn:=Syn) base E id (Some req) s).1 = 500.
Proof.
  intros HE Hf. unfold HandleTaskResult, result_check. rewrite !run_bind.
  assert ((on_store (GetTask E id) s).1 = Err ErrTaskNotFound) as ->; [|done].
  change ((on_store (GetTask E id) s).1) with (GetTask E id (sv_db s)).1.
  unfold GetTask, mbind, St_bind, sql_query. rewrite sql_quiet by done. cbn. by rewrite Hf.
Qed.

(** The check of the worker and the transition of the row are two statements.  When
    the lease of w1 runs out between them and w2 takes the task over, the result of
    w1 is accepted and settles the task that w2 is running. *)
Theorem late_result_settles_anothers_task :
  ∃ (s1 s2 : Server) req task status,
    result_check (Syn:=unit) (demo_env (80 * second)) "b" (demo_result "w1") demo_server = (inr (req, task, status), s1) ∧
    (HandlePollTask None no_synthesis (demo_env (95 * second)) [] get_request "w2" s1).2 = s2 ∧
    (t_WorkerID <$> find_task "b" (sv_db s2)) = Some (Some "w2") ∧
    re_Code (result_settle (Syn:=unit) demo_base (demo_env (95 * second)) "b" req task status s2).1 = 200.
Proof. eexists _, _, _, _, _. split; [vm_compute; reflexivity|]. split; [reflexivity|]. by vm_compute. Qed.

(** A redirect target may start with a slash and a backslash, which browsers read
    as two slashes and so as another host. *)
Theorem login_redirect_leaves_the_site :
  let target := String "/" (String bslash "evil.example") in
  sanitizeNext target = target ∧
  re_Body (HandleLogin (Syn:=unit) false "tok" at20 post_request EmptyString (Some ("tok", target)) demo_server).1
    = BRedirect target.
Proof. by vm_compute. Qed.

(** An update of a repository whose old runtime does not stop in time puts the old
    registration back, but the repository has no runtime any more. *)
Theorem failed_update_leaves_no_runtime :
  let s := mkServer demo_manager [] 0 in
  let r := demo_register (λ _, false) (λ _, Ok tt) (mkRepoRequest "o/r" "prod" [] []) s in
  re_Code r.1 = 500 ∧ reg_content <$> db_repos (sv_db r.2) !! "o/r" = reg_content <$> db_repos (sv_db s) !! "o/r" ∧
  is_Some (pm_runtimes (sv_pm s) !! "o/r") ∧ pm_runtimes (sv_pm r.2) !! "o/r" = None.
Proof. vm_compute. split_and!; try done. by eexists. Qed.
