(* ===== verification/ConfigReload.v ===== *)
(** * Reloading the coordinator's configuration

    [internal/app/config_reload.go]: [Reload] reads the configuration directory again,
    validates the candidate, stores its registration, restarts the runtime of the
    repository, and applies poll interval and notifications; on an error the previous
    registration is put back.  Loading from disk is a parameter, and so is the text by
    which agents and workflows are compared; the deep copy through JSON keeps every
    field.  The environment variables of the notification channels are read twice, when
    the candidate is validated and when it is applied. *)

From S2P Require Import Prelude GoLib Json GoText GoFormat Types DB TaskQueue IssueClaim StoreIssue StoreAdmin World Security Dependency StateMachine Demo Router Config Registration ReportFormat Notifier RepoRuntime RepoRuntimeSpec Coordinator CoordinatorSpec.

Record CoordConfig := mkCoordConfig { cc_Full : FullConfig; cc_Port : Z; cc_Notifications : NotificationsConfig }.
Record ConfigReloadSummary := mkReloadSummary {
  sm_Trigger : string;
  sm_Repo : string;
  sm_PollInterval : Z;
  sm_AgentCount : nat;
  sm_WorkflowCount : nat;
  sm_Changed : list string;
  sm_Warnings : list string;
  sm_ReloadedAt : Z
}.
(** A registry or a notifier that is not there is [None]. *)
Record ConfigRuntime := mkConfigRuntime {
  cr_pm : PollerManager;
  cr_pollInterval : option Z;
  cr_notifier : option NotifierRuntime;
  cr_current : option CoordConfig
}.

Definition DefaultPollInterval : Z := 30 * second.
Definition set_interval (i : Z) (c : CoordConfig) : CoordConfig :=
  let f := cc_Full c in
  mkCoordConfig (mkFullConfig (fc_Repo f) (fc_Environment f) i (fc_Agents f) (fc_Workflows f)) (cc_Port c) (cc_Notifications c).
Definition set_repo (r : string) (c : CoordConfig) : CoordConfig :=
  let f := cc_Full c in
  mkCoordConfig (mkFullConfig r (fc_Environment f) (fc_PollInterval f) (fc_Agents f) (fc_Workflows f)) (cc_Port c) (cc_Notifications c).
Definition set_port (p : Z) (c : CoordConfig) : CoordConfig := mkCoordConfig (cc_Full c) p (cc_Notifications c).
Definition port_warning (old new : Z) : string :=
  "port change from " +:+ itoa old +:+ " to " +:+ itoa new +:+ " ignored until restart".

Definition normalizeReloadCandidate (current : option CoordConfig) (candidate : CoordConfig) (warnings : list string) : res (CoordConfig * list string) :=
  let out :=
    if fc_PollInterval (cc_Full candidate) <=? 0 then
      match current with
      | Some cur => if 0 <? fc_PollInterval (cc_Full cur) then set_interval (fc_PollInterval (cc_Full cur)) candidate
                    else set_interval DefaultPollInterval candidate
      | None => set_interval DefaultPollInterval candidate
      end
    else candidate in
  let checked : res (CoordConfig * list string) :=
    match current with
    | None => Ok (out, warnings)
    | Some cur =>
        let out := if is_blank (fc_Repo (cc_Full out)) then set_repo (fc_Repo (cc_Full cur)) out else out in
        if negb (bool_decide (fc_Repo (cc_Full out) = fc_Repo (cc_Full cur)))
        then Err (EMsg ("repo change from " +:+ Quote (fc_Repo (cc_Full cur)) +:+ " to " +:+ Quote (fc_Repo (cc_Full out)) +:+ " requires restart"))
        else
          let warnings := if negb (cc_Port out =? 0) && negb (cc_Port out =? cc_Port cur) then warnings ++ [port_warning (cc_Port cur) (cc_Port out)] else warnings in
          Ok (set_port (cc_Port cur) out, warnings)
    end in
  match checked with
  | Err e => Err e
  | Ok (out, w) => if is_blank (fc_Repo (cc_Full out)) then Err (EMsg "config must specify repo") else Ok (out, w)
  end.

(** The summary as the event log records it. *)
Definition summary_fields (s : ConfigReloadSummary) : list (string * jval) :=
  [("trigger", JS (sm_Trigger s)); ("repo", JS (sm_Repo s)); ("poll_interval", JS (Duration_String (sm_PollInterval s)));
   ("agent_count", JI (Z.of_nat (sm_AgentCount s))); ("workflow_count", JI (Z.of_nat (sm_WorkflowCount s))); ("changed", JL (sm_Changed s))]
  ++ (match sm_Warnings s with [] => [] | w => [("warnings", JL w)] end) ++ [("reloaded_at", JT (Some (sm_ReloadedAt s)))].

Section reload.
Context `{YamlLib} (E : Env) (base : SMConfig) (ctx_done : nat → bool) (stops : string → bool).
Context (probe : RepoRegistrationRecord → res unit) (resolve : string → string → string) (stat : string → bool).
Context (marshal : RepoRegistrationPayload → string) (unmarshal : string → option RepoRegistrationPayload).
(** The comparable text of agents and workflows (their JSON encodings), and the text of an error. *)
Context (agents_text : list (string * AgentSpec) → string) (workflows_text : list (string * WorkflowConfig) → string) (error_text : error → string).
(** [notifier.New] when the candidate is validated and when it is applied. *)
Context (new_before new_after : NotificationsConfig → res Settings).
(** [config.LoadConfig]. *)
Context (load : res (CoordConfig * list string)).

Definition diffConfigReload (prev : option CoordConfig) (next : CoordConfig) : list string :=
  match prev with
  | None => ["initial_load"]
  | Some prev =>
      let p := cc_Full prev in let n := cc_Full next in
      let changed :=
        (if fc_PollInterval p =? fc_PollInterval n then [] else ["poll_interval"])
        ++ (if bool_decide (cc_Notifications prev = cc_Notifications next) then [] else ["notifications"])
        ++ (if bool_decide (agents_text (fc_Agents p) = agents_text (fc_Agents n)) then [] else ["agents"])
        ++ (if bool_decide (workflows_text (fc_Workflows p) = workflows_text (fc_Workflows n)) then [] else ["workflows"]) in
      match changed with [] => ["no_effective_changes"] | _ => changed end
  end.

Definition on_manager {A} (m : St PollerManager A) : St ConfigRuntime A :=
  λ r, let x := m (cr_pm r) in (x.1, mkConfigRuntime x.2 (cr_pollInterval r) (cr_notifier r) (cr_current r)).
Definition on_db {A} (m : St DB A) : St ConfigRuntime A := on_manager (on_shared (lift m)).
Definition event_log (ty repo : string) (payload : list (string * jval)) : St ConfigRuntime unit := on_manager (on_shared (Log ty repo 0 payload)).
Definition SetPollInterval (i : Z) : St ConfigRuntime unit :=
  modS (λ r, mkConfigRuntime (cr_pm r) ((λ _, i) <$> cr_pollInterval r) (cr_notifier r) (cr_current r)).
Definition set_current (c : CoordConfig) : St ConfigRuntime unit :=
  modS (λ r, mkConfigRuntime (cr_pm r) (cr_pollInterval r) (cr_notifier r) (Some c)).
Definition apply_notifications (c : NotificationsConfig) : St ConfigRuntime (res unit) :=
  λ r, match cr_notifier r with
       | None => (Ok tt, r)
       | Some nt => let x := Apply (new_after c) nt in (x.1, mkConfigRuntime (cr_pm r) (cr_pollInterval r) (Some x.2) (cr_current r))
       end.

Definition decode_record : RepoRegistrationRecord → res FullConfig := DecodeRepoRegistrationConfig resolve stat unmarshal.
Definition start_runtime (rec : RepoRegistrationRecord) : St ConfigRuntime (res unit) :=
  on_manager (StartOrUpdate E base ctx_done stops decode_record probe rec).
Definition failReload (current : option CoordConfig) (trigger : string) (e : error) : St ConfigRuntime (res ConfigReloadSummary) :=
  event_log "config_reload_failed" (from_option (λ c, fc_Repo (cc_Full c)) EmptyString current) [("trigger", JS trigger); ("error", JS (error_text e))];;
  mret (Err e).
Definition rollbackRegistration (prev : option RepoRegistrationRecord) (repo : string) : St ConfigRuntime (res unit) :=
  match prev with
  | None => on_manager (Deregister E base stops repo)
  | Some p => _ ←! on_db (UpsertRepoRegistration E p); start_runtime p
  end.

(** The steps after the candidate has been stored. *)
Definition apply_candidate (current : option CoordConfig) (trigger : string) (cfg : CoordConfig) (warnings : list string)
    (prevRec : option RepoRegistrationRecord) (rec : RepoRegistrationRecord) : St ConfigRuntime (res ConfigReloadSummary) :=
  started ← start_runtime rec;
  match started with
  | Err e =>
      undone ← rollbackRegistration prevRec (rg_Repo rec);
      failReload current trigger (match undone with Err _ => EMsg "start updated runtime: rollback failed" | Ok _ => EWrap "start updated runtime" e end)
  | Ok _ =>
      SetPollInterval (fc_PollInterval (cc_Full cfg));;
      applied ← apply_notifications (cc_Notifications cfg);
      match applied with
      | Err e =>
          undone ← rollbackRegistration prevRec (rg_Repo rec);
          match undone with
          | Err _ => failReload current trigger (EMsg "apply notifications: rollback failed")
          | Ok _ =>
              (match current with Some cur => SetPollInterval (fc_PollInterval (cc_Full cur)) | None => mret tt end);;
              failReload current trigger (EWrap "apply notifications" e)
          end
      | Ok _ =>
          let summary := mkReloadSummary (TrimSpace trigger) (fc_Repo (cc_Full cfg)) (fc_PollInterval (cc_Full cfg))
                           (length (fc_Agents (cc_Full cfg))) (length (fc_Workflows (cc_Full cfg))) (diffConfigReload current cfg) warnings (e_now E) in
          set_current cfg;;
          event_log "config_reloaded" (fc_Repo (cc_Full cfg)) (summary_fields summary);;
          mret (Ok summary)
      end
  end.
Definition Reload (trigger : string) : St ConfigRuntime (res ConfigReloadSummary) :=
  current ← getsS cr_current;
  match load with
  | Err e => failReload current trigger (EWrap "load config" e)
  | Ok (candidate, warnings) =>
      match normalizeReloadCandidate current candidate warnings with
      | Err e => failReload current trigger e
      | Ok (cfg, warnings) =>
          match new_before (cc_Notifications cfg) with
          | Err e => failReload current trigger (EWrap "validate notifications" e)
          | Ok _ =>
              match BuildRepoRegistrationRecord resolve stat marshal unmarshal (BuildRepoRegistrationPayload (cc_Full cfg)) with
              | Err e => failReload current trigger (EWrap "build registration" e)
              | Ok rec =>
                  prev ← (match current with
                          | Some cur => if is_blank (fc_Repo (cc_Full cur)) then mret (Ok None) else on_db (GetRepoRegistration E (fc_Repo (cc_Full cur)))
                          | None => mret (Ok None)
                          end);
                  match prev with
                  | Err e => failReload current trigger (EWrap "lookup current registration" e)
                  | Ok prevRec =>
                      saved ← on_db (UpsertRepoRegistration E rec);
                      match saved with
                      | Err e => failReload current trigger (EWrap "persist registration" e)
                      | Ok _ => apply_candidate current trigger cfg warnings prevRec rec
                      end
                  end
              end
          end
      end
  end.

(** ** What a start and a rollback leave behind *)

Definition is_ok {A} (r : res A) : bool := match r with Ok _ => true | Err _ => false end.

Lemma start_runtime_spec rec r :
  let x := start_runtime rec r in
  pm_repos (cr_pm x.2) = pm_repos (cr_pm r) ∧ cr_pollInterval x.2 = cr_pollInterval r ∧ cr_notifier x.2 = cr_notifier r ∧ cr_current x.2 = cr_current r ∧
  (∀ k, k ≠ rg_Repo rec → pm_runtimes (cr_pm x.2) !! k = pm_runtimes (cr_pm r) !! k) ∧
  match x.1 with
  | Ok _ => ∃ rt, pm_runtimes (cr_pm x.2) !! rg_Repo rec = Some rt ∧ rr_Registration rt = rec
  | Err _ => stops (rg_Repo rec) = true → pm_runtimes (cr_pm x.2) = pm_runtimes (cr_pm r)
  end ∧
  (is_ok (decode_record rec) = true → is_ok (probe rec) = true → stops (rg_Repo rec) = true → x.1 = Ok tt).
Proof.
  cbv zeta. unfold start_runtime, on_manager. cbn [fst snd cr_pm cr_pollInterval cr_notifier cr_current].
  destruct (start_spec E base ctx_done stops decode_record probe rec (cr_pm r)) as [Hr Ho]. split_and!; try done.
  - intros k Hk. unfold StartOrUpdate. destruct (decode_record rec); [|done]. destruct (probe rec); [|done].
    destruct (stop_spec E base stops (rg_Repo rec) (cr_pm r)) as (_ & Hm & _). unfold bindE. rewrite run_bind.
    destruct (stopRepo E base stops (rg_Repo rec) (cr_pm r)) as [v pm1]. cbn [fst snd] in *.
    destruct v; [|cbn; rewrite Hm; by rewrite lookup_delete_ne].
    rewrite !run_bind. unfold modS. cbn [fst snd]. unfold recoverOrphanedActiveStates, get_runtime, getsS. rewrite run_bind. cbn [fst snd].
    cbn [upd_pm_runtimes pm_runtimes]. rewrite lookup_insert_eq. unfold mret, St_ret. cbn [snd].
    rewrite runtime_alter, bool_decide_false by done. cbn [upd_pm_runtimes pm_runtimes]. rewrite lookup_insert_ne by done. rewrite Hm. by rewrite lookup_delete_ne.
  - unfold StartOrUpdate. destruct (decode_record rec); [|done]. destruct (probe rec); [|done]. intros _ _ Hst.
    destruct (stop_spec E base stops (rg_Repo rec) (cr_pm r)) as (Hv & _ & _). unfold bindE. rewrite run_bind.
    destruct (stopRepo E base stops (rg_Repo rec) (cr_pm r)) as [v pm1]. cbn [fst snd] in *. rewrite Hst, orb_true_r in Hv. subst v.
    by rewrite !run_bind.
Qed.

Context (HE : quiet E).

(** The row that storing [rec] over [m] writes. *)
Definition stored (rec : RepoRegistrationRecord) (m : gmap string RepoRegistrationRecord) : RepoRegistrationRecord :=
  mkRepoReg (rg_Repo rec) (rg_Environment rec) (if is_blank (rg_Status rec) then "active" else rg_Status rec)
    (if is_blank (rg_ConfigJSON rec) then "{}" else rg_ConfigJSON rec) (from_option rg_RegisteredAt (Some (sql_now E)) (m !! rg_Repo rec)) (Some (sql_now E)).
Lemma upsert_run rec r :
  let x := on_db (UpsertRepoRegistration E rec) r in
  x.1 = Ok tt ∧ pm_repos (cr_pm x.2) = <[rg_Repo rec := stored rec (pm_repos (cr_pm r))]> (pm_repos (cr_pm r)) ∧
  pm_runtimes (cr_pm x.2) = pm_runtimes (cr_pm r) ∧ cr_pollInterval x.2 = cr_pollInterval r ∧ cr_notifier x.2 = cr_notifier r ∧ cr_current x.2 = cr_current r.
Proof.
  cbv zeta. unfold on_db, on_manager, on_shared, lift, UpsertRepoRegistration, wrapE, mbind, St_bind. cbn [fst snd]. rewrite !sql_quiet by done. done.
Qed.
Lemma lookup_run repo r :
  let x := on_db (GetRepoRegistration E repo) r in
  x.1 = Ok (pm_repos (cr_pm r) !! repo) ∧ pm_repos (cr_pm x.2) = pm_repos (cr_pm r) ∧
  pm_runtimes (cr_pm x.2) = pm_runtimes (cr_pm r) ∧ cr_pollInterval x.2 = cr_pollInterval r ∧ cr_notifier x.2 = cr_notifier r ∧ cr_current x.2 = cr_current r.
Proof.
  cbv zeta. unfold on_db, on_manager, on_shared, lift, GetRepoRegistration, wrapE, mbind, St_bind, sql_query. cbn [fst snd]. rewrite !sql_quiet by done. done.
Qed.

(** The stored registrations, as they were before. *)
Definition rows_wf (m : gmap string RepoRegistrationRecord) : Prop := ∀ repo row, m !! repo = Some row →
  rg_Repo row = repo ∧ is_blank (rg_Status row) = false ∧ is_blank (rg_ConfigJSON row) = false.
Lemma stored_back m repo p row :
  rows_wf m → m !! repo = Some p → rg_RegisteredAt row = rg_RegisteredAt p →
  ∀ k, reg_content <$> (<[repo := stored p (<[repo := row]> m)]> (<[repo := row]> m)) !! k = reg_content <$> m !! k.
Proof.
  intros Hwf Hp Hrow k. destruct (Hwf _ _ Hp) as (Hr & Hs & Hc). rewrite insert_insert_eq. destruct (decide (repo = k)) as [<-|Hne].
  - rewrite lookup_insert_eq, Hp. cbn. unfold stored, reg_content. cbn. rewrite Hr, lookup_insert_eq, Hs, Hc. cbn. by rewrite Hrow.
  - by rewrite lookup_insert_ne.
Qed.

(** When the previous registration can be started again, the rollback succeeds. *)
Definition restartable (repo : string) (prev : option RepoRegistrationRecord) : Prop :=
  stops repo = true ∧ ∀ p, prev = Some p → is_ok (decode_record p) = true ∧ is_ok (probe p) = true.
Lemma rollback_spec m repo row r :
  rows_wf m → restartable repo (m !! repo) → pm_repos (cr_pm r) = <[repo := row]> m →
  rg_RegisteredAt row = from_option rg_RegisteredAt (Some (sql_now E)) (m !! repo) →
  let x := rollbackRegistration (m !! repo) repo r in
  x.1 = Ok tt ∧ cr_pollInterval x.2 = cr_pollInterval r ∧ cr_notifier x.2 = cr_notifier r ∧ cr_current x.2 = cr_current r ∧
  (∀ k, reg_content <$> pm_repos (cr_pm x.2) !! k = reg_content <$> m !! k) ∧
  (∀ k, k ≠ repo → pm_runtimes (cr_pm x.2) !! k = pm_runtimes (cr_pm r) !! k) ∧
  rr_Registration <$> pm_runtimes (cr_pm x.2) !! repo = m !! repo.
Proof.
  intros Hwf [Hst Hgo] Hm Hrow. cbv zeta. unfold rollbackRegistration. destruct (m !! repo) as [p|] eqn:Hp.
  - destruct (Hwf _ _ Hp) as (Hr & _ & _). destruct (upsert_run p r) as (Hu & Hum & Hur & Hui & Hun & Huc).
    unfold bindE. rewrite run_bind. destruct (on_db (UpsertRepoRegistration E p) r) as [v r1]. cbn [fst snd] in *. subst v.
    destruct (start_runtime_spec p r1) as (H1 & H2 & H3 & H4 & H5 & H6 & H7). destruct (Hgo p eq_refl) as [Hd Hpr].
    rewrite Hr in *. specialize (H7 Hd Hpr Hst). rewrite H7 in H6. destruct H6 as (rt & Hrt & Hreg).
    split_and!; [done|congruence..| | |].
    + intros k. rewrite H1, Hum, Hm. by apply stored_back.
    + intros k Hk. rewrite H5 by done. by rewrite Hur.
    + rewrite Hrt. cbn. by rewrite Hreg.
  - unfold on_manager. cbn [fst snd cr_pollInterval cr_notifier cr_current cr_pm].
    destruct (deregister_forgets E base stops repo (cr_pm r) HE) as [Hrt Hd]. rewrite Hst, orb_true_r in Hd. destruct Hd as (Ho & Hrg & _).
    split_and!; try done.
    + intros k. unfold pm_repos, repos_view in *. rewrite Hrg, Hm, delete_insert_eq. by rewrite delete_id.
    + intros k Hk. rewrite Hrt. by rewrite lookup_delete_ne.
    + by rewrite Hrt, lookup_delete_eq.
Qed.

(** ** Reloading is all or nothing *)

(** The notifier runs the new settings from scratch, and the one that ran is cancelled. *)
Definition notifier_replaced (cfg : NotificationsConfig) (before after : option NotifierRuntime) : Prop :=
  match before with
  | None => after = None
  | Some nt => ∃ settings, new_after cfg = Ok settings ∧
      after = Some (mkNotifierRuntime (nr_cancelled nt ++ match nr_current nt with Some (s, n) => [(s, cancel_notifier n)] | None => [] end)
                      (Some (settings, NewNotifier)) None)
  end.
Definition reload_done (cur : CoordConfig) (r r' : ConfigRuntime) : Prop :=
  let repo := fc_Repo (cc_Full cur) in
  ∃ candidate warnings cfg warnings' rt row,
    load = Ok (candidate, warnings) ∧ normalizeReloadCandidate (Some cur) candidate warnings = Ok (cfg, warnings') ∧
    fc_Repo (cc_Full cfg) = repo ∧ cc_Port cfg = cc_Port cur ∧ cr_current r' = Some cfg ∧
    pm_runtimes (cr_pm r') !! repo = Some rt ∧ pm_repos (cr_pm r') !! repo = Some row ∧ rg_ConfigJSON row = rg_ConfigJSON (rr_Registration rt) ∧
    BuildRepoRegistrationRecord resolve stat marshal unmarshal (BuildRepoRegistrationPayload (cc_Full cfg)) = Ok (rr_Registration rt) ∧
    cr_pollInterval r' = (λ _, fc_PollInterval (cc_Full cfg)) <$> cr_pollInterval r ∧
    notifier_replaced (cc_Notifications cfg) (cr_notifier r) (cr_notifier r') ∧
    (∀ k, k ≠ repo → pm_repos (cr_pm r') !! k = pm_repos (cr_pm r) !! k ∧ pm_runtimes (cr_pm r') !! k = pm_runtimes (cr_pm r) !! k).
Definition reload_undone (cur : CoordConfig) (r r' : ConfigRuntime) : Prop :=
  let repo := fc_Repo (cc_Full cur) in
  cr_current r' = Some cur ∧ cr_pollInterval r' = cr_pollInterval r ∧ cr_notifier r' = cr_notifier r ∧
  (∀ k, reg_content <$> pm_repos (cr_pm r') !! k = reg_content <$> pm_repos (cr_pm r) !! k) ∧
  (∀ k, k ≠ repo → pm_runtimes (cr_pm r') !! k = pm_runtimes (cr_pm r) !! k) ∧
  (pm_runtimes (cr_pm r') !! repo = pm_runtimes (cr_pm r) !! repo ∨
   rr_Registration <$> pm_runtimes (cr_pm r') !! repo = pm_repos (cr_pm r) !! repo).

Lemma fail_run current trigger e r :
  (failReload current trigger e r).1 = Err e ∧ pm_repos (cr_pm (failReload current trigger e r).2) = pm_repos (cr_pm r) ∧
  pm_runtimes (cr_pm (failReload current trigger e r).2) = pm_runtimes (cr_pm r) ∧ cr_pollInterval (failReload current trigger e r).2 = cr_pollInterval r ∧
  cr_notifier (failReload current trigger e r).2 = cr_notifier r ∧ cr_current (failReload current trigger e r).2 = cr_current r.
Proof. done. Qed.
Lemma undone_fail cur current trigger e r r1 :
  reload_undone cur r r1 → (failReload current trigger e r1).1 = Err e ∧ reload_undone cur r (failReload current trigger e r1).2.
Proof. intros Hu. split; [done|]. exact Hu. Qed.
Lemma undone_refl cur r : cr_current r = Some cur → reload_undone cur r r.
Proof. intros Hc. split_and!; auto. Qed.

Lemma normalize_same cur candidate w cfg w' :
  normalizeReloadCandidate (Some cur) candidate w = Ok (cfg, w') → fc_Repo (cc_Full cfg) = fc_Repo (cc_Full cur) ∧ cc_Port cfg = cc_Port cur.
Proof.
  unfold normalizeReloadCandidate. cbv zeta. set (out := if _ <=? 0 then _ else _). set (out' := if is_blank _ then _ else _).
  destruct (bool_decide_reflect (fc_Repo (cc_Full out') = fc_Repo (cc_Full cur))) as [He|]; [|done]. cbn [negb].
  clearbody out'. destruct (is_blank _); [done|]. intros [= <- _]. done.
Qed.
Lemma apply_run c r :
  match (apply_notifications c r).1 with Ok _ => notifier_replaced c (cr_notifier r) (cr_notifier (apply_notifications c r).2) | Err _ => (apply_notifications c r).2 = r end ∧
  cr_pm (apply_notifications c r).2 = cr_pm r ∧ cr_pollInterval (apply_notifications c r).2 = cr_pollInterval r ∧ cr_current (apply_notifications c r).2 = cr_current r.
Proof.
  unfold apply_notifications. destruct (cr_notifier r) as [nt|] eqn:En; [|cbn; by rewrite En]. cbn [fst snd cr_pm cr_pollInterval cr_current].
  split_and!; try done. unfold Apply, apply_start. destruct (new_after c) eqn:Ec; [by eexists|]. cbn. destruct r. cbn in *. by subst.
Qed.

Lemma reload_spec trigger cur r :
  let repo := fc_Repo (cc_Full cur) in
  cr_current r = Some cur → TrimSpace repo = repo → is_blank repo = false → (∀ i, cr_pollInterval r = Some i → i = fc_PollInterval (cc_Full cur)) →
  rows_wf (pm_repos (cr_pm r)) → restartable repo (pm_repos (cr_pm r) !! repo) → (∀ p, is_blank (marshal p) = false) →
  match (Reload trigger r).1 with Ok _ => reload_done cur r (Reload trigger r).2 | Err _ => reload_undone cur r (Reload trigger r).2 end.
Proof.
  intros repo Hcur Htrim Hblank Hint Hwf Hgo Hm. unfold Reload. rewrite run_bind. unfold getsS. cbn [fst snd]. rewrite Hcur.
  pose proof (undone_refl cur r Hcur) as Hrefl.
  destruct load as [[candidate warnings]|e] eqn:Hload; [|exact Hrefl].
  destruct (normalizeReloadCandidate (Some cur) candidate warnings) as [[cfg w]|e] eqn:Hnorm; [|exact Hrefl].
  destruct (new_before (cc_Notifications cfg)) as [?|e]; [|exact Hrefl].
  destruct (BuildRepoRegistrationRecord _ _ _ _ _) as [rec|e] eqn:Hb; [|exact Hrefl].
  destruct (normalize_same _ _ _ _ _ Hnorm) as [Hrepo Hport]. fold repo in Hrepo.
  assert (rg_Repo rec = repo) as Hrr by (rewrite (build_fields _ _ _ _ _ _ Hb); cbn [BuildRepoRegistrationPayload pl_Repo]; by rewrite Hrepo, TrimSpace_idem).
  rewrite run_bind. fold repo. rewrite Hblank.
  destruct (lookup_run repo r) as (Hl & Hlm & Hlr & Hli & Hln & Hlc). destruct (on_db (GetRepoRegistration E repo) r) as [v r1]. cbn [fst snd] in *. subst v.
  rewrite run_bind. destruct (upsert_run rec r1) as (Hu & Hum & Hur & Hui & Hun & Huc).
  destruct (on_db (UpsertRepoRegistration E rec) r1) as [v r2]. cbn [fst snd] in *. subst v. rewrite Hrr, Hlm in Hum.
  unfold apply_candidate. rewrite run_bind. destruct (start_runtime_spec rec r2) as (H1 & H2 & H3 & H4 & H5 & H6 & H7).
  destruct (start_runtime rec r2) as [[[]|e] r3]; cbn [fst snd] in *; rewrite Hrr in *.
  2: { rewrite run_bind. destruct (rollback_spec (pm_repos (cr_pm r)) repo (stored rec (pm_repos (cr_pm r))) r3 Hwf Hgo) as (Hb1 & Hb2 & Hb3 & Hb4 & Hb5 & Hb6 & Hb7);
         [by rewrite H1|by cbn; rewrite Hrr|].
       destruct (rollbackRegistration _ repo r3) as [v r4]. cbn [fst snd] in *. subst v.
       assert (reload_undone cur r r4) as Hund; [|exact Hund].
       split_and!; [congruence..|exact Hb5| |by right]. intros k Hk. rewrite Hb6, H5, Hur, Hlr by done. done. }
  destruct H6 as (rt & Hrt & Hreg). rewrite run_bind.
  set (r4 := (SetPollInterval (fc_PollInterval (cc_Full cfg)) r3).2). rewrite run_bind. destruct (apply_run (cc_Notifications cfg) r4) as (Ha1 & Ha2 & Ha3 & Ha4).
  destruct (apply_notifications (cc_Notifications cfg) r4) as [[[]|e] r5]; cbn [fst snd] in *.
  - rewrite !run_bind. assert (reload_done cur r (mkConfigRuntime (cr_pm r5) (cr_pollInterval r5) (cr_notifier r5) (Some cfg))) as Hdone; [|exact Hdone].
    exists candidate, warnings, cfg, w, rt, (stored rec (pm_repos (cr_pm r))). fold repo.
    cbn [cr_pm cr_pollInterval cr_current]. rewrite Ha2, Ha3. unfold r4. cbn [SetPollInterval modS snd cr_pm cr_pollInterval]. split_and!; try done.
    + rewrite H1, Hum. by rewrite lookup_insert_eq.
    + cbn [stored rg_ConfigJSON]. rewrite Hreg. assert (is_blank (rg_ConfigJSON rec) = false) as ->; [|done].
      revert Hb. unfold BuildRepoRegistrationRecord. cbv zeta. case_match; [|done]. intros [= <-]. apply Hm.
    + by rewrite Hreg.
    + by rewrite H2, Hui, Hli.
    + cbn in Ha1. by rewrite H3, Hun, Hln in Ha1.
    + intros k Hk. rewrite H1, Hum, H5, Hur, Hlr by done. by rewrite lookup_insert_ne.
  - subst r5. rewrite run_bind.
    destruct (rollback_spec (pm_repos (cr_pm r)) repo (stored rec (pm_repos (cr_pm r))) r4 Hwf Hgo) as (Hb1 & Hb2 & Hb3 & Hb4 & Hb5 & Hb6 & Hb7);
      [by cbn; rewrite H1|by cbn; rewrite Hrr|].
    destruct (rollbackRegistration _ repo r4) as [v r5]. cbn [fst snd] in *. subst v.
    rewrite !run_bind. unfold SetPollInterval, modS. cbn [fst snd].
    match goal with |- context [failReload _ _ _ ?x] => assert (reload_undone cur r x) as Hund; [|exact Hund] end.
    split_and!; cbn [cr_current cr_pollInterval cr_notifier cr_pm]; [cbn in Hb4; congruence| |cbn in Hb3; congruence|exact Hb5| |by right].
    + rewrite Hb2. cbn. rewrite H2, Hui, Hli. destruct (cr_pollInterval r) as [i|] eqn:Ei; [|done]. cbn. by rewrite (Hint i eq_refl).
    + intros k Hk. rewrite Hb6 by done. cbn. rewrite H5, Hur, Hlr by done. done.
Qed.
End reload.


Definition no_notifications : NotificationsConfig := mkNotifications false EmptyString 0 0 false None None None None.
Definition demo_config (interval : Z) : CoordConfig := mkCoordConfig (mkFullConfig "o/q" "prod" interval [] []) 8080 no_notifications.
Definition demo_runtime : ConfigRuntime := mkConfigRuntime (sv_pm demo_server) (Some (30 * second)) (Some (mkNotifierRuntime [] None None)) (Some (demo_config (30 * second))).
Definition demo_reload : St ConfigRuntime (res ConfigReloadSummary) :=
  Reload at20 demo_base (λ _, false) (λ _, true) (λ _, Ok tt) (λ a _, a) (λ _, true) (λ _, "x") (λ _, Some empty_payload)
    (λ _, EmptyString) (λ _, EmptyString) (λ _, "failed") (New (λ _, None) (λ _, None) (λ _, true)) (New (λ _, None) (λ _, None) (λ _, true))
    (Ok (demo_config (60 * second), [])) "manual".
