(* ===== verification/GoUrl.v ===== *)
(** * Queries of URLs

    What the sources use of [net/url] on queries: [QueryEscape], [QueryUnescape], [Query]
    and [Values.Encode], and that a query that was encoded is read back. *)

From S2P Require Import Prelude GoLib Json GoText Types.
From Stdlib Require Import Ascii.

(** A query: the values of each key. *)
Definition Query : Type := list (string * list string).
Definition query_get (q : Query) (key : string) : string := match assoc q key with Some (v :: _) => v | _ => EmptyString end.

(** ** Escaping *)

Definition unreserved (c : ascii) : bool :=
  is_digit c || byte_in c 65 90 || byte_in c 97 122 || byte_is c 45 || byte_is c 46 || byte_is c 95 || byte_is c 126.
Definition hex_digit (n : N) : ascii := ascii_of_N (if (n <? 10)%N then 48 + n else 55 + n).
Definition escape_char (c : ascii) : string :=
  if unreserved c then str1 c
  else if byte_is c 32 then "+" else String "%" (String (hex_digit (N_of_ascii c / 16)) (str1 (hex_digit (N_of_ascii c mod 16)))).
Fixpoint QueryEscape (s : string) : string := match s with EmptyString => EmptyString | String c s => escape_char c +:+ QueryEscape s end.
Fixpoint QueryUnescape (s : string) : option string :=
  match s with
  | EmptyString => Some EmptyString
  | String c r =>
      if byte_is c 37 then
        match r with
        | String a (String b r) => x ← hex_val a; y ← hex_val b; t ← QueryUnescape r; Some (String (ascii_of_N (16 * x + y)) t)
        | _ => None
        end
      else t ← QueryUnescape r; Some (String (if byte_is c 43 then " "%char else c) t)
  end.

(** ** Reading a query *)

Fixpoint cut_byte (c : ascii) (s : string) : string * option string :=
  match s with
  | EmptyString => (EmptyString, None)
  | String d s => if Ascii.eqb c d then (EmptyString, Some s) else let x := cut_byte c s in (String d x.1, x.2)
  end.
(** The part of a URL that holds the query. *)
Definition url_query (url : string) : string := default EmptyString (cut_byte "?" (cut_byte "#" url).1).2.
Definition parse_pair (s : string) : option (string * string) :=
  if bool_decide (s = EmptyString) || negb (all_str (λ d, negb (byte_is d 59)) s) then None
  else let x := cut_byte "=" s in k ← QueryUnescape x.1; v ← QueryUnescape (default EmptyString x.2); Some (k, v).
Definition query_pairs (s : string) : list (string * string) := omap parse_pair (Split "&" s).
Definition ParseQuery (s : string) : Query :=
  let ps := query_pairs s in map (λ k, (k, map snd (List.filter (λ p, bool_decide (p.1 = k)) ps))) (remove_dups ps.*1).
(** [Values.Encode] of values that are single: the pairs in the order of the keys. *)
Definition Encode (ps : list (string * string)) : string :=
  join_str "&" (map (λ kv, QueryEscape kv.1 +:+ "=" +:+ QueryEscape kv.2) (sort_by (λ a b, String.leb a.1 b.1) ps)).

Example query_samples :
  ParseQuery "repo=o%2Fr&agent=a+b&x=%zz&repo=2&y;z=1&&e" = [("agent", ["a b"]); ("repo", ["o/r"; "2"]); ("e", [EmptyString])] ∧
  url_query "http://h:1/p?a=b#c?d" = "a=b" ∧ Encode [("repo", "o/r"); ("agent", "a&b c%")] = "agent=a%26b+c%25&repo=o%2Fr".
Proof. vm_compute. done. Qed.

(** ** Round trip *)

Lemma char_cases (P : ascii → bool) : forallb P (map (λ n, ascii_of_nat n) (seq 0 256)) = true → ∀ c, P c = true.
Proof.
  rewrite forallb_forall. intros H c. apply H. rewrite <-(ascii_nat_embedding c). apply in_map, in_seq.
  pose proof (nat_ascii_bounded c). lia.
Qed.
Definition escaped (c : ascii) : bool := unreserved c || byte_is c 43 || byte_is c 37.
Lemma escape_char_bytes c : all_str escaped (escape_char c) = true.
Proof. revert c. apply (char_cases (λ c, all_str escaped (escape_char c))). by vm_compute. Qed.
Lemma QueryEscape_bytes s : all_str escaped (QueryEscape s) = true.
Proof. induction s as [|c s IH]; [done|]. cbn [QueryEscape]. by rewrite all_str_app, escape_char_bytes. Qed.
Lemma unescape_char c t : QueryUnescape (escape_char c +:+ t) = (t ← QueryUnescape t; Some (String c t)).
Proof.
  unfold escape_char. destruct (unreserved c) eqn:Hu.
  - assert (byte_is c 37 = false ∧ byte_is c 43 = false) as [H1 H2].
    { pose proof (char_cases (λ c, negb (unreserved c) || (negb (byte_is c 37) && negb (byte_is c 43))) ltac:(by vm_compute) c) as H.
      cbv beta in H. rewrite Hu in H. cbn in H. apply andb_prop in H as [H1 H2]. by destruct (byte_is c 37), (byte_is c 43). }
    change (str1 c +:+ t) with (String c t). cbn [QueryUnescape]. by rewrite H1, H2.
  - destruct (byte_is c 32) eqn:H32.
    + cbn. apply N.eqb_eq in H32. by rewrite <-(ascii_N_embedding c), H32.
    + pose proof (char_cases (λ c, match hex_val (hex_digit (N_of_ascii c / 16)), hex_val (hex_digit (N_of_ascii c mod 16)) with
        Some x, Some y => Ascii.eqb (ascii_of_N (16 * x + y)) c | _, _ => false end) ltac:(by vm_compute) c) as H. cbv beta in H.
      change (String "%" (String (hex_digit (N_of_ascii c / 16)) (str1 (hex_digit (N_of_ascii c mod 16)))) +:+ t)
        with (String "%" (String (hex_digit (N_of_ascii c / 16)) (String (hex_digit (N_of_ascii c mod 16)) t))).
      cbn [QueryUnescape]. change (byte_is "%" 37) with true. cbv iota.
      destruct (hex_val _) as [x|]; [|done]. destruct (hex_val _) as [y|]; [|done]. apply Ascii.eqb_eq in H. cbn. by rewrite H.
Qed.
Lemma QueryUnescape_escape s : QueryUnescape (QueryEscape s) = Some s.
Proof. induction s as [|c s IH]; [done|]. cbn [QueryEscape]. by rewrite unescape_char, IH. Qed.

(** Bytes that need no escaping: a text of them is what it stands for. *)
Definition plain (c : ascii) : bool := graphic c && negb (byte_is c 35 || byte_is c 37 || byte_is c 38 || byte_is c 43 || byte_is c 59).
Lemma QueryUnescape_plain s : all_str plain s = true → QueryUnescape s = Some s.
Proof.
  induction s as [|c s IH]; [done|]. cbn [QueryUnescape all_str]. intros [Hc Hs]%andb_prop. rewrite IH by done.
  pose proof (char_cases (λ c, negb (plain c) || (negb (byte_is c 37) && negb (byte_is c 43))) ltac:(by vm_compute) c) as H.
  cbv beta in H. rewrite Hc in H. cbn in H. apply andb_prop in H as [H1 H2]. by destruct (byte_is c 37), (byte_is c 43).
Qed.

Lemma cut_byte_app c a s : all_str (λ d, negb (Ascii.eqb c d)) a = true → cut_byte c (a +:+ String c s) = (a, Some s).
Proof.
  induction a as [|d a IH]; [simpl; by rewrite Ascii.eqb_refl|]. simpl. intros [Hd Ha]%andb_prop. destruct (Ascii.eqb c d); [done|]. by rewrite IH.
Qed.
Lemma cut_byte_none c a : all_str (λ d, negb (Ascii.eqb c d)) a = true → cut_byte c a = (a, None).
Proof. induction a as [|d a IH]; [done|]. simpl. intros [Hd Ha]%andb_prop. destruct (Ascii.eqb c d); [done|]. by rewrite IH. Qed.
Lemma Split_join c es : forallb (all_str (λ d, negb (Ascii.eqb c d))) es = true → es ≠ [] → Split c (join_str (str1 c) es) = es.
Proof.
  induction es as [|x es IH]; [done|]. cbn [forallb]. intros [Hx Hes]%andb_prop _. destruct es as [|y es]; [by apply Split_last|].
  change (Split c (x +:+ String c (join_str (str1 c) (y :: es))) = x :: y :: es). rewrite Split_app by done. by rewrite IH.
Qed.

(** A pair written with [f] for the texts of keys and values is read back when [f] keeps
    clear of the separators. *)
Definition pair_text (f : string → string) (kv : string * string) : string := f kv.1 +:+ "=" +:+ f kv.2.
Definition key_byte (c : ascii) : bool := negb (byte_is c 38 || byte_is c 59 || byte_is c 61).
Definition value_byte (c : ascii) : bool := negb (byte_is c 38 || byte_is c 59).
Definition readable (f : string → string) (kv : string * string) : Prop :=
  all_str key_byte (f kv.1) = true ∧ all_str value_byte (f kv.2) = true ∧ QueryUnescape (f kv.1) = Some kv.1 ∧ QueryUnescape (f kv.2) = Some kv.2.
Lemma byte_is_eqb c d : byte_is c (N_of_ascii d) = Ascii.eqb d c.
Proof.
  unfold byte_is. destruct (Ascii.eqb_spec d c) as [->|Hne]; [by apply N.eqb_refl|]. apply N.eqb_neq. intros He. apply Hne.
  by rewrite <-(ascii_N_embedding c), He, ascii_N_embedding.
Qed.
Lemma pair_text_bytes f kv : readable f kv → all_str value_byte (pair_text f kv) = true.
Proof.
  intros (Hk & Hv & _). unfold pair_text. rewrite !all_str_app, Hv. change (all_str value_byte "=") with true. rewrite ?andb_true_r.
  eapply all_str_mono; [|exact Hk]. intros c. unfold key_byte, value_byte. by destruct (byte_is c 38), (byte_is c 59).
Qed.
Lemma parse_pair_text f kv : readable f kv → parse_pair (pair_text f kv) = Some kv.
Proof.
  intros Hr. pose proof (pair_text_bytes f kv Hr) as Hb. destruct Hr as (Hk & Hv & Huk & Huv). unfold parse_pair.
  rewrite bool_decide_false by (unfold pair_text; by destruct (f kv.1)).
  rewrite (all_str_mono value_byte _ _) by (done || intros c; unfold value_byte; by destruct (byte_is c 38), (byte_is c 59)). cbn [orb negb].
  unfold pair_text. change ("=" +:+ f kv.2) with (String "=" (f kv.2)). rewrite cut_byte_app.
  - cbn. rewrite Huk. cbn. rewrite Huv. by destruct kv.
  - eapply all_str_mono; [|exact Hk]. intros c. unfold key_byte. rewrite <-(byte_is_eqb c "="). change (N_of_ascii "=") with 61%N.
    by destruct (byte_is c 38), (byte_is c 59), (byte_is c 61).
Qed.
Lemma query_pairs_text f ps : Forall (readable f) ps → query_pairs (join_str "&" (map (pair_text f) ps)) = ps.
Proof.
  intros Hps. unfold query_pairs. destruct ps as [|kv ps]; [done|]. change "&" with (str1 "&") at 1. rewrite Split_join; [| |done].
  - generalize dependent (kv :: ps). clear. induction 1 as [|x l Hx _ IH]; [done|]. cbn [map omap list_omap]. rewrite parse_pair_text by done. by f_equal.
  - rewrite forallb_forall. intros t (x & <- & Hx)%in_map_iff. apply list_elem_of_In in Hx. rewrite Forall_forall in Hps.
    eapply all_str_mono; [|exact (pair_text_bytes f x (Hps _ Hx))]. intros c. unfold value_byte. rewrite <-(byte_is_eqb c "&").
    change (N_of_ascii "&") with 38%N. by destruct (byte_is c 38).
Qed.

Lemma assoc_keyed {V} (f : string → V) l k : assoc (map (λ k, (k, f k)) l) k = if bool_decide (k ∈ l) then Some (f k) else None.
Proof.
  induction l as [|x l IH]; [done|]. cbn. rewrite IH. destruct (decide (k = x)) as [->|Hne].
  - by rewrite bool_decide_true, (bool_decide_true (x ∈ _)) by (done || left).
  - rewrite bool_decide_false by done. destruct (decide (k ∈ l)) as [H|H].
    + by rewrite !bool_decide_true by (done || by right).
    + by rewrite !bool_decide_false by (done || by intros [?|?]%elem_of_cons).
Qed.
Lemma assoc_filter (ps : list (string * string)) k :
  match map snd (List.filter (λ p, bool_decide (p.1 = k)) ps) with v :: _ => v | [] => EmptyString end = default EmptyString (assoc ps k).
Proof. induction ps as [|[k' v] ps IH]; [done|]. cbn. destruct (decide (k' = k)) as [->|]; [by rewrite !bool_decide_true|]. by rewrite !bool_decide_false. Qed.
Lemma query_get_parse s k : query_get (ParseQuery s) k = default EmptyString (assoc (query_pairs s) k).
Proof.
  unfold query_get, ParseQuery. rewrite (assoc_keyed (λ k, map snd (List.filter (λ p, bool_decide (p.1 = k)) (query_pairs s)))). case_bool_decide as Hk; [apply assoc_filter|].
  destruct (assoc (query_pairs s) k) eqn:Ha; [|done]. exfalso. apply Hk. rewrite elem_of_remove_dups. apply assoc_elem in Ha. by apply (list_elem_of_fmap_2 fst) in Ha.
Qed.

(** ** Encoded queries are read back *)

Lemma escape_readable kv : readable QueryEscape kv.
Proof.
  split_and!; [| |apply QueryUnescape_escape..]; (eapply all_str_mono; [|apply QueryEscape_bytes]); intros c Hc; [unfold key_byte|unfold value_byte];
    [pose proof (char_cases (λ c, negb (escaped c) || negb (byte_is c 38 || byte_is c 59 || byte_is c 61)) ltac:(by vm_compute) c) as H
    |pose proof (char_cases (λ c, negb (escaped c) || negb (byte_is c 38 || byte_is c 59)) ltac:(by vm_compute) c) as H]; cbv beta in H; by rewrite Hc in H.
Qed.
Lemma Encode_parse ps k : NoDup ps.*1 → query_get (ParseQuery (Encode ps)) k = default EmptyString (assoc ps k).
Proof.
  intros Hnd. rewrite query_get_parse. unfold Encode.
  change (λ kv : string * string, QueryEscape kv.1 +:+ "=" +:+ QueryEscape kv.2) with (pair_text QueryEscape).
  rewrite query_pairs_text by (apply Forall_true; intros; apply escape_readable). f_equal. symmetry. apply assoc_perm; [done|]. symmetry. apply sort_by_perm.
Qed.
Lemma plain_readable kv : all_str plain kv.1 = true → all_str key_byte kv.1 = true → all_str plain kv.2 = true → readable id kv.
Proof.
  intros Hk Hb Hv. split_and!; [done| |by apply QueryUnescape_plain..]. eapply all_str_mono; [|exact Hv]. intros c. unfold plain, value_byte.
  destruct (graphic c), (byte_is c 38), (byte_is c 59); cbn; rewrite ?orb_true_r; cbn; rewrite ?orb_true_r; done.
Qed.
