(* ===== verification/GoTime.v ===== *)
(** * Reading timestamps

    [time.Parse] with the layout of RFC 3339, and that it reads what [Time.Format] with the
    same layout writes ([GoFormat]). *)

From S2P Require Import Prelude GoLib Json JsonValue GoText GoFormat Types.
From Stdlib Require Import Ascii Decimal DecimalString DecimalPos DecimalZ.

(** [time.Parse] with the layout of RFC 3339, fractions of a second allowed. *)
Definition digit_val (c : ascii) : option Z := if is_digit c then Some (Z.of_N (N_of_ascii c) - 48) else None.
Fixpoint digits (n : nat) (acc : Z) (s : string) : option (Z * string) :=
  match n, s with
  | O, _ => Some (acc, s)
  | S n, String c s => match digit_val c with Some v => digits n (acc * 10 + v) s | None => None end
  | S _, EmptyString => None
  end.
Definition field (n : nat) (lo hi : Z) (s : string) : option (Z * string) :=
  match digits n 0 s with Some (v, r) => if (lo <=? v) && (v <=? hi) then Some (v, r) else None | None => None end.
Definition expect (c : ascii) (s : string) : option string := match s with String d r => if Ascii.eqb c d then Some r else None | EmptyString => None end.
(** A fraction in nanoseconds; digits after the ninth do not count. *)
Fixpoint fraction (room : nat) (acc : Z) (s : string) : Z * string :=
  match s with
  | String c r =>
      match digit_val c, room with
      | Some v, S room => fraction room (acc * 10 + v) r
      | Some _, O => fraction O acc r
      | None, _ => (acc * 10 ^ Z.of_nat room, s)
      end
  | EmptyString => (acc * 10 ^ Z.of_nat room, s)
  end.
Definition days_of_civil (y m d : Z) : Z :=
  let y := if m <=? 2 then y - 1 else y in
  let era := y / 400 in
  let yoe := y - era * 400 in
  let doy := (153 * (if 2 <? m then m - 3 else m + 9) + 2) / 5 + d - 1 in
  era * 146097 + (yoe * 365 + yoe / 4 - yoe / 100 + doy) - 719468.
Definition days_in (y m : Z) : Z :=
  if m =? 2 then (if (y mod 4 =? 0) && (negb (y mod 100 =? 0) || (y mod 400 =? 0)) then 29 else 28)
  else if bool_decide (m ∈ [4; 6; 9; 11]) then 30 else 31.
Definition zone_offset (s : string) : option Z :=
  match s with
  | String c r =>
      if Ascii.eqb c "Z" then (if bool_decide (r = EmptyString) then Some 0 else None)
      else if Ascii.eqb c "+" || Ascii.eqb c "-" then
        '(h, r) ← field 2 0 23 r; r ← expect ":" r; '(mi, r) ← field 2 0 59 r;
        if bool_decide (r = EmptyString) then Some ((if Ascii.eqb c "+" then 1 else -1) * (h * 3600 + mi * 60)) else None
      else None
  | EmptyString => None
  end.
Definition fraction_part (s : string) : Z * string :=
  match s with
  | String c (String x _ as r) => if (Ascii.eqb c "." || Ascii.eqb c ",") && is_digit x then fraction 9 0 r else (0, s)
  | _ => (0, s)
  end.
Definition parse_rfc3339 (s : string) : option Z :=
  '(y, s) ← field 4 0 9999 s; s ← expect "-" s; '(m, s) ← field 2 1 12 s; s ← expect "-" s; '(d, s) ← field 2 1 (days_in y m) s; s ← expect "T" s;
  '(h, s) ← field 2 0 23 s; s ← expect ":" s; '(mi, s) ← field 2 0 59 s; s ← expect ":" s; '(sec, s) ← field 2 0 59 s;
  let '(ns, s) := fraction_part s in
  off ← zone_offset s;
  Some (((days_of_civil y m d * 86400 + h * 3600 + mi * 60 + sec) - off) * second + ns).
Example parse_samples :
  map parse_rfc3339 ["1970-01-01T00:00:00Z"; "2024-04-30T23:59:59.12Z"; "2000-02-29T01:00:00+01:00"; "2001-02-29T00:00:00Z"; "2024-04-30 23:59:59Z"]
  = [Some 0; Some 1714521599120000000; Some 951782400000000000; None; None].
Proof. vm_compute. reflexivity. Qed.


(** [now.Sub(t)]: a time that is not set lies further back than a duration can tell. *)
Definition maxDuration : Z := 2 ^ 63 - 1.
Definition since (now : Z) (t : option Z) : Z := match t with Some t => now - t | None => maxDuration end.

(** The zero time, the first of January of the year 1. *)
Definition zero_time : Z := -62135596800 * second.

(** ** Round trip *)

Lemma range_check (P : Z → bool) n : forallb P (map Z.of_nat (seq 0 n)) = true → ∀ z, 0 ≤ z < Z.of_nat n → P z = true.
Proof. rewrite forallb_forall. intros H z Hz. apply H. rewrite <-(Z2Nat.id z) by lia. apply in_map, in_seq. lia. Qed.
Lemma digits_app n acc s v r t : digits n acc s = Some (v, r) → digits n acc (s +:+ t) = Some (v, r +:+ t).
Proof.
  revert acc s. induction n as [|n IH]; intros acc s; cbn [digits]; [destruct s; by intros [= -> <-]|].
  destruct s as [|c s]; [done|]. change (String c s +:+ t) with (String c (s +:+ t)). cbn [digits]. destruct (digit_val c); [apply IH|done].
Qed.
Lemma digits_uint u : ∀ acc, digits (String.length (NilEmpty.string_of_uint u)) (Z.pos acc) (NilEmpty.string_of_uint u) = Some (Z.pos (Pos.of_uint_acc u acc), EmptyString).
Proof.
  induction u as [|u IH|u IH|u IH|u IH|u IH|u IH|u IH|u IH|u IH|u IH]; intros acc; [done|..]; cbn [NilEmpty.string_of_uint String.length digits digit_val Pos.of_uint_acc];
    (etransitivity; [|apply IH]); f_equal; cbn; lia.
Qed.
Lemma of_uint_acc_ge u : ∀ acc, Z.pos acc * 10 ^ Z.of_nat (String.length (NilEmpty.string_of_uint u)) ≤ Z.pos (Pos.of_uint_acc u acc).
Proof.
  induction u as [|u IH|u IH|u IH|u IH|u IH|u IH|u IH|u IH|u IH|u IH]; intros acc; [cbn; lia|..]; cbn [NilEmpty.string_of_uint String.length Pos.of_uint_acc];
    (etransitivity; [|apply IH]); rewrite Nat2Z.inj_succ, Z.pow_succ_r by lia; nia.
Qed.
Lemma itoa_digits_pos p : digits (String.length (itoa (Z.pos p))) 0 (itoa (Z.pos p)) = Some (Z.pos p, EmptyString) ∧
  10 ^ (Z.of_nat (String.length (itoa (Z.pos p))) - 1) ≤ Z.pos p.
Proof.
  change (itoa (Z.pos p)) with (NilZero.string_of_uint (Pos.to_uint p)). pose proof (DecimalPos.Unsigned.of_to p) as Hp.
  pose proof (to_uint_no_zero p) as Hz. pose proof (DecimalPos.Unsigned.to_uint_nonnil p) as Hn.
  assert (∀ c u k, digit_val c = Some (Z.pos k) → Pos.of_uint_acc u k = p →
    digits (String.length (String c (NilEmpty.string_of_uint u))) 0 (String c (NilEmpty.string_of_uint u)) = Some (Z.pos p, EmptyString) ∧
    10 ^ (Z.of_nat (String.length (String c (NilEmpty.string_of_uint u))) - 1) ≤ Z.pos p) as H.
  { intros c u k Hc Hk. cbn [String.length digits]. rewrite Hc. change (0 * 10 + Z.pos k) with (Z.pos k). rewrite digits_uint, Hk. split; [done|].
    pose proof (of_uint_acc_ge u k) as Hge. rewrite Hk in Hge. replace (Z.of_nat (S _) - 1) with (Z.of_nat (String.length (NilEmpty.string_of_uint u))) by lia. nia. }
  destruct (Pos.to_uint p) as [|u|u|u|u|u|u|u|u|u|u]; [done|by destruct (Hz u)|..]; cbn in Hp; injection Hp as Hp; eapply H; try exact Hp; reflexivity.
Qed.
Lemma digits_zeros k n s : digits (k + n) 0 (zeros k +:+ s) = digits n 0 s.
Proof. induction k as [|k IH]; [done|]. exact IH. Qed.
Lemma itoa_short w z : 0 ≤ z < 10 ^ Z.of_nat w → (0 < w)%nat →
  (String.length (itoa z) ≤ w)%nat ∧ digits (String.length (itoa z)) 0 (itoa z) = Some (z, EmptyString).
Proof.
  intros Hz Hw. destruct z as [|p|p]; [split; [exact Hw|done]| |lia]. destruct (itoa_digits_pos p) as [Hd Hb]. split; [|exact Hd].
  destruct (decide (String.length (itoa (Z.pos p)) ≤ w)%nat) as [|Hgt]; [done|]. exfalso.
  assert (10 ^ Z.of_nat w ≤ 10 ^ (Z.of_nat (String.length (itoa (Z.pos p))) - 1)) by (apply Z.pow_le_mono_r; lia). lia.
Qed.
Lemma length_zeros k : String.length (zeros k) = k.
Proof. induction k; cbn; congruence. Qed.
Lemma read_pad w z : 0 ≤ z < 10 ^ Z.of_nat w → (0 < w)%nat → digits w 0 (pad w z) = Some (z, EmptyString).
Proof.
  intros Hz Hw. destruct (itoa_short w z Hz Hw) as [Hle Hd]. unfold pad. set (n := String.length (itoa z)) in *.
  replace w with (w - n + n)%nat at 1 by lia. rewrite digits_zeros. exact Hd.
Qed.
Lemma pad_length w z : 0 ≤ z < 10 ^ Z.of_nat w → (0 < w)%nat → String.length (pad w z) = w.
Proof. intros Hz Hw. destruct (itoa_short w z Hz Hw) as [Hle _]. unfold pad. rewrite length_app_str, length_zeros. lia. Qed.
Lemma read_pad2 z : 0 ≤ z < 100 → digits 2 0 (pad 2 z) = Some (z, EmptyString).
Proof. intros Hz. apply read_pad; [done|lia]. Qed.
Lemma read_pad4 z : 0 ≤ z < 10000 → digits 4 0 (pad 4 z) = Some (z, EmptyString).
Proof. intros Hz. apply read_pad; [done|lia]. Qed.
Lemma field_pad w z lo hi t : digits w 0 (pad w z) = Some (z, EmptyString) → lo ≤ z ≤ hi → field w lo hi (pad w z +:+ t) = Some (z, t).
Proof.
  intros Hd Hz. unfold field. rewrite (digits_app w 0 _ z EmptyString t Hd). by rewrite (proj2 (Z.leb_le lo z)), (proj2 (Z.leb_le z hi)) by lia.
Qed.
Lemma expect_app c t : expect c (str1 c +:+ t) = Some t.
Proof. change (str1 c +:+ t) with (String c t). unfold expect. by rewrite Ascii.eqb_refl. Qed.
(** The date of a day and the day of a date, by the year and the day in an era of 400
    years that start in March. *)
Definition year_of_era (doe : Z) : Z := (doe - doe / 1460 + doe / 36524 - doe / 146096) / 365.
Definition day_of_year (doe : Z) : Z := doe - (365 * year_of_era doe + year_of_era doe / 4 - year_of_era doe / 100).
Lemma year_of_era_bounds doe : 0 ≤ doe < 146097 →
  0 ≤ year_of_era doe < 400 ∧ 0 ≤ day_of_year doe ≤ 365 ∧
  (day_of_year doe = 365 → (year_of_era doe + 1) mod 4 = 0 ∧ ((year_of_era doe + 1) mod 100 ≠ 0 ∨ (year_of_era doe + 1) mod 400 = 0)).
Proof.
  intros Hd. unfold day_of_year, year_of_era. set (y := _ / 365).
  assert (0 ≤ y < 400) by (unfold y; Z.to_euclidean_division_equations; lia).
  split; [done|]. assert (365 * y + y / 4 - y / 100 ≤ doe) by (unfold y; Z.to_euclidean_division_equations; lia).
  assert (doe ≤ 365 * y + y / 4 - y / 100 + 365) by (unfold y; Z.to_euclidean_division_equations; lia).
  split; [lia|]. intros He. unfold y in *. Z.to_euclidean_division_equations; lia.
Qed.
Definition month_index (doy : Z) : Z := (5 * doy + 2) / 153.
Definition month_of (mp : Z) : Z := if mp <? 10 then mp + 3 else mp - 9.
(** The months from March have 31, 30, 31, 30, 31, 31, 30, 31, 30, 31, 31 days; what is
    left is February. *)
Definition day_check (doy : Z) : bool :=
  let mp := month_index doy in
  let d := doy - (153 * mp + 2) / 5 + 1 in
  (0 <=? mp) && (mp <=? 11) && (1 <=? d)
  && (if mp =? 11 then d <=? (if doy =? 365 then 29 else 28) else d <=? days_in 0 (month_of mp)).
Lemma day_check_ok doy : 0 ≤ doy ≤ 365 → day_check doy = true.
Proof. intros Hd. apply (range_check day_check 366); [by vm_compute|lia]. Qed.
Lemma days_in_other y m : m ≠ 2 → days_in y m = days_in 0 m.
Proof. intros Hm. unfold days_in. by rewrite (proj2 (Z.eqb_neq m 2)). Qed.
Lemma civil_days z : days_of_civil (civil z).1.1 (civil z).1.2 (civil z).2 = z ∧
  1 ≤ (civil z).1.2 ≤ 12 ∧ 1 ≤ (civil z).2 ≤ days_in (civil z).1.1 (civil z).1.2.
Proof.
  unfold civil. set (era := (z + 719468) / 146097). set (doe := z + 719468 - era * 146097). cbn [fst snd].
  assert (0 ≤ doe < 146097) as Hdoe by (unfold doe, era; Z.to_euclidean_division_equations; lia).
  fold (year_of_era doe). fold (day_of_year doe). fold (month_index (day_of_year doe)). fold (month_of (month_index (day_of_year doe))).
  pose proof (year_of_era_bounds doe Hdoe) as (Hy & Hdoy & Hleap). pose proof (day_check_ok (day_of_year doe) ltac:(lia)) as Hc.
  unfold day_check in Hc. set (mp := month_index (day_of_year doe)) in *. cbv zeta in Hc.
  rewrite !andb_true_iff, !Z.leb_le in Hc. destruct Hc as [[[Hm0 Hm1] Hd1] Hd2].
  assert (month_of mp ≤ 2 ↔ 10 ≤ mp) as Hm. { unfold month_of. destruct (Z.ltb_spec mp 10); lia. }
  assert ((if month_of mp <=? 2 then 1 else 0) = (if 10 <=? mp then 1 else 0)) as Hadj.
  { destruct (Z.leb_spec (month_of mp) 2), (Z.leb_spec 10 mp); lia. }
  set (d := day_of_year doe - (153 * mp + 2) / 5 + 1) in *. set (y := year_of_era doe) in *.
  split_and!; [|destruct (Z.ltb_spec mp 10); unfold month_of; destruct (Z.ltb_spec mp 10); lia|unfold month_of; destruct (Z.ltb_spec mp 10); lia|done|].
  - unfold days_of_civil. rewrite Hadj.
    assert ((if month_of mp <=? 2 then y + era * 400 + (if 10 <=? mp then 1 else 0) - 1 else y + era * 400 + (if 10 <=? mp then 1 else 0)) = y + era * 400) as ->.
    { destruct (Z.leb_spec (month_of mp) 2), (Z.leb_spec 10 mp); lia. }
    assert ((if 2 <? month_of mp then month_of mp - 3 else month_of mp + 9) = mp) as ->.
    { unfold month_of in *. destruct (Z.ltb_spec mp 10); [destruct (Z.ltb_spec 2 (mp + 3))|destruct (Z.ltb_spec 2 (mp - 9))]; lia. }
    assert ((y + era * 400) / 400 = era) as -> by (Z.to_euclidean_division_equations; lia).
    replace (y + era * 400 - era * 400) with y by lia. unfold d.
    assert (day_of_year doe = doe - (365 * y + y / 4 - y / 100)) as Hdy by done. assert (doe = z + 719468 - era * 146097) as Hde by done.
    clearbody doe y mp era. lia.
  - rewrite Hadj. revert Hd2. destruct (Z.eqb_spec mp 11) as [Hmp|Hmp]; intros Hd2.
    + rewrite Hmp. change (month_of 11) with 2. unfold days_in. change (2 =? 2) with true. change (10 <=? 11) with true. cbv iota.
      apply Z.leb_le in Hd2. revert Hd2. destruct (Z.eqb_spec (day_of_year doe) 365) as [He|He]; intros Hd2; [|destruct (_ && _); lia].
      destruct (Hleap He) as [H4 H]. assert (((y + era * 400 + 1) mod 4 =? 0) && (negb ((y + era * 400 + 1) mod 100 =? 0) || ((y + era * 400 + 1) mod 400 =? 0)) = true) as ->; [|lia].
      replace (y + era * 400 + 1) with (y + 1 + era * 100 * 4) at 1 by lia. rewrite Z.mod_add, H4 by lia. cbn [andb Z.eqb].
      replace (y + era * 400 + 1) with (y + 1 + era * 4 * 100) at 1 by lia. rewrite Z.mod_add by lia.
      replace (y + era * 400 + 1) with (y + 1 + era * 400) by lia. rewrite Z.mod_add by lia.
      destruct H as [H|H]; [by rewrite (proj2 (Z.eqb_neq _ _) H)|rewrite H; apply orb_true_r].
    + rewrite days_in_other; [by apply Z.leb_le in Hd2|]. unfold month_of. destruct (Z.ltb_spec mp 10); lia.
Qed.

(** The end of the year 9999, in days and in seconds. *)
Definition last_day : Z := 2932896.
Definition last_second : Z := 253402300799.
Lemma civil_year z : 0 ≤ z ≤ last_day → 0 ≤ (civil z).1.1 < 10000.
Proof.
  intros Hz. unfold last_day in Hz. unfold civil. set (era := (z + 719468) / 146097). set (doe := z + 719468 - era * 146097). cbn [fst snd].
  fold (year_of_era doe). fold (day_of_year doe). fold (month_index (day_of_year doe)). fold (month_of (month_index (day_of_year doe))).
  assert (0 ≤ doe < 146097) as Hdoe by (unfold doe, era; Z.to_euclidean_division_equations; lia).
  assert (4 ≤ era ≤ 24) as Hera by (unfold era; Z.to_euclidean_division_equations; lia).
  pose proof (year_of_era_bounds doe Hdoe) as (Hy & Hdoy & _).
  destruct (Z.leb_spec (month_of (month_index (day_of_year doe))) 2) as [Hm|Hm]; [|lia].
  assert (306 ≤ day_of_year doe) as H306.
  { unfold month_of, month_index in Hm. destruct (Z.ltb_spec ((5 * day_of_year doe + 2) / 153) 10); [Z.to_euclidean_division_equations; lia|].
    clear Hm. Z.to_euclidean_division_equations; lia. }
  destruct (decide (era = 24 ∧ year_of_era doe = 399)) as [[He Hye]|Hn]; [|lia]. exfalso.
  unfold day_of_year in H306. rewrite Hye in H306. change (399 / 4) with 99 in H306. change (399 / 100) with 3 in H306. unfold doe in H306. rewrite He in H306. lia.
Qed.
Lemma rfc3339_prefix t tail : 0 ≤ t / second ≤ last_second → parse_rfc3339 (rfc3339 t +:+ tail) =
  (let '(ns, r) := fraction_part tail in off ← zone_offset r; Some ((t / second - off) * second + ns)).
Proof.
  intros Hs. unfold rfc3339. change 1000000000 with second. set (s := t / second) in *. unfold last_second in Hs.
  assert (0 ≤ s / 86400 ≤ last_day) as Hd by (unfold last_day; Z.to_euclidean_division_equations; lia).
  assert (0 ≤ s mod 86400 < 86400) as Ht by (Z.to_euclidean_division_equations; lia).
  pose proof (civil_year _ Hd) as Hy. pose proof (civil_days (s / 86400)) as (Hc & Hm & Hdy). destruct (civil (s / 86400)) as [[y m] d] eqn:Hciv. cbn [fst snd] in *.
  assert (days_in y m ≤ 31) by (unfold days_in; repeat case_match; lia).
  assert (s / 86400 * 86400 + (s mod 86400) / 3600 * 3600 + (s mod 86400) / 60 mod 60 * 60 + (s mod 86400) mod 60 = s) as Hsum by (clear; Z.to_euclidean_division_equations; lia).
  set (u := s mod 86400) in *. clearbody u.
  rewrite !app_str_assoc. unfold parse_rfc3339.
  rewrite (field_pad 4 y) by (try apply read_pad4; lia). cbn [mbind option_bind]. rewrite (expect_app "-"). cbn [mbind option_bind].
  rewrite (field_pad 2 m) by (try apply read_pad2; lia). cbn [mbind option_bind]. rewrite (expect_app "-"). cbn [mbind option_bind].
  rewrite (field_pad 2 d) by (try apply read_pad2; lia). cbn [mbind option_bind]. rewrite (expect_app "T"). cbn [mbind option_bind].
  rewrite (field_pad 2 (u / 3600)) by (try apply read_pad2; Z.to_euclidean_division_equations; lia). cbn [mbind option_bind]. rewrite (expect_app ":"). cbn [mbind option_bind].
  rewrite (field_pad 2 (u / 60 mod 60)) by (try apply read_pad2; Z.to_euclidean_division_equations; lia). cbn [mbind option_bind]. rewrite (expect_app ":"). cbn [mbind option_bind].
  rewrite (field_pad 2 (u mod 60)) by (try apply read_pad2; Z.to_euclidean_division_equations; lia). cbn [mbind option_bind].
  destruct (fraction_part tail) as [ns r]. destruct (zone_offset r) as [off|]; [|done]. cbn [mbind option_bind]. by rewrite Hc, Hsum.
Qed.

(** A fraction is written without its last zeros. *)
Lemma digits_split a k acc b : digits (String.length a + k) acc (a +:+ b) = match digits (String.length a) acc a with Some (v, _) => digits k v b | None => None end.
Proof. revert acc. induction a as [|c a IH]; intros acc; [by destruct k|]. change (String c a +:+ b) with (String c (a +:+ b)). cbn [String.length Nat.add digits]. destruct (digit_val c); [apply IH|done]. Qed.
Lemma digits_rest a acc v r : digits (String.length a) acc a = Some (v, r) → r = EmptyString.
Proof. revert acc. induction a as [|c a IH]; intros acc; cbn [String.length digits]; [by intros [= _ <-]|]. destruct (digit_val c); [apply IH|done]. Qed.
Lemma digits_all_zeros k v : digits k v (zeros k) = Some (v * 10 ^ Z.of_nat k, EmptyString).
Proof.
  revert v. induction k as [|k IH]; intros v; [cbn; by rewrite Z.mul_1_r|]. cbn [digits zeros]. change (digit_val "0") with (Some 0). cbv iota beta. rewrite IH. do 2 f_equal.
  rewrite Nat2Z.inj_succ, Z.pow_succ_r by lia. lia.
Qed.
Lemma fraction_digits a room acc v : digits (String.length a) acc a = Some (v, EmptyString) → (String.length a ≤ room)%nat →
  fraction room acc (a +:+ "Z") = (v * 10 ^ Z.of_nat (room - String.length a), "Z").
Proof.
  revert room acc. induction a as [|c a IH]; intros room acc; cbn [String.length digits].
  - intros [= ->] _. by rewrite Nat.sub_0_r.
  - intros Hd Hr. change (String c a +:+ "Z") with (String c (a +:+ "Z")). cbn [fraction]. destruct (digit_val c) as [x|]; [|done]. destruct room as [|room]; [lia|].
    rewrite (IH room) by (done || lia). by rewrite Nat.sub_succ.
Qed.
Lemma trim_zeros_split s : ∃ k, s = zeros k +:+ trim_zeros s.
Proof.
  induction s as [|c s IH]; [by exists O|]. destruct (decide (c = "0"%char)) as [->|Hne].
  - destruct IH as [k Hk]. exists (S k). change (String "0" s = String "0" (zeros k +:+ trim_zeros s)). by rewrite <-Hk.
  - exists O. change (String c s = trim_zeros (String c s)). by destruct c as [[][][][][][][][]].
Qed.
Lemma zeros_snoc k : zeros k +:+ "0" = zeros (S k).
Proof. induction k as [|k IH]; [done|]. change (String "0" (zeros k +:+ "0") = String "0" (zeros (S k))). by rewrite IH. Qed.
Lemma rev_zeros k : rev_str (zeros k) EmptyString = zeros k.
Proof. induction k as [|k IH]; [done|]. cbn [zeros]. rewrite rev_str_cons, IH. apply zeros_snoc. Qed.
Lemma rfc3339nano_read t : 0 ≤ t / second ≤ last_second → parse_rfc3339 (RFC3339Nano t) = Some t.
Proof.
  intros Ht. unfold RFC3339Nano. change 1000000000 with second. rewrite rfc3339_prefix by done.
  assert (0 ≤ t mod second < 10 ^ Z.of_nat 9) as Hf by (change (10 ^ Z.of_nat 9) with second; apply Z.mod_pos_bound; done).
  assert (t = t / second * second + t mod second) as Hsplit by (rewrite (Z.div_mod t second) at 1; [lia|done]).
  destruct (Z.eqb_spec (t mod second) 0) as [H0|H0].
  - change (fraction_part (EmptyString +:+ "Z")) with (0, "Z"). cbv iota beta. change (zone_offset "Z") with (Some 0). cbn [mbind option_bind]. f_equal. lia.
  - set (f := t mod second) in *. set (a := rev_str (trim_zeros (rev_str (pad 9 f) EmptyString)) EmptyString).
    destruct (trim_zeros_split (rev_str (pad 9 f) EmptyString)) as [k Hk].
    assert (pad 9 f = a +:+ zeros k) as Hpad. { rewrite <-(rev_str_involutive (pad 9 f)), Hk, rev_str_app_str, rev_zeros. done. }
    pose proof (pad_length 9 f Hf ltac:(lia)) as Hlen. rewrite Hpad, length_app_str in Hlen.
    rewrite length_zeros in Hlen.
    pose proof (read_pad 9 f Hf ltac:(lia)) as Hd. rewrite Hpad in Hd. rewrite <-Hlen, digits_split in Hd.
    destruct (digits (String.length a) 0 a) as [[v r]|] eqn:Ha; [|done]. pose proof (digits_rest _ _ _ _ Ha) as ->. rewrite digits_all_zeros in Hd. injection Hd as Hv.
    assert (fraction_part (String "." a +:+ "Z") = (f, "Z")) as ->.
    { change (String "." a +:+ "Z") with (String "." (a +:+ "Z")). destruct a as [|c a']; [cbn in Ha; injection Ha as <-; lia|].
      change (String c a' +:+ "Z") with (String c (a' +:+ "Z")). unfold fraction_part. change (Ascii.eqb "." "." || Ascii.eqb "." ",") with true. cbn [andb].
      assert (is_digit c = true) as ->. { cbn [String.length digits] in Ha. unfold digit_val in Ha. by destruct (is_digit c). }
      change (String c (a' +:+ "Z")) with (String c a' +:+ "Z"). rewrite (fraction_digits _ 9 0 v Ha) by lia. f_equal. rewrite <-Hv. do 2 f_equal. lia. }
    cbv iota beta. change (zone_offset "Z") with (Some 0). cbn [mbind option_bind]. f_equal. lia.
Qed.
