(* ===== verification/SessionAudit.v ===== *)
(** * The session listing of a worker

    The part of [internal/auditapi/handler.go] that serves [/api/v1/sessions]: the query
    parameters, the rows of the sessions with the figures of their tasks and the state of
    their issues, and the JSON of the answer.

    [stat] is [os.Stat]: whether a path is a directory, and its size. *)

From S2P Require Import Prelude GoLib Json JsonValue GoText GoPath GoFormat GoUrl Types DB TaskQueue StoreIssue StoreAdmin ReportFormat.
From Stdlib Require Import Ascii.

(** ** Query parameters *)

(** The error text on the left. *)
Definition query_number (q : Query) (key : string) (dflt : Z) (msg : string) : string + Z :=
  let raw := TrimSpace (query_get q key) in
  if bool_decide (raw = EmptyString) then inr dflt
  else match atoi raw with Some v => if v <? 0 then inl msg else inr v | None => inl msg end.
Definition parseLimitOffset (q : Query) : string + (Z * Z) :=
  match query_number q "limit" 50 "invalid limit query parameter" with
  | inl e => inl e
  | inr limit => match query_number q "offset" 0 "invalid offset query parameter" with inl e => inl e | inr offset => inr (limit, offset) end
  end.

(** ** Rows *)

Record sessionListResponse := mkSessionRow {
  sn_SessionID : string; sn_TaskID : string; sn_Repo : string; sn_IssueNum : Z; sn_AgentName : string; sn_Runtime : string;
  sn_WorkerID : string; sn_Attempt : Z; sn_Status : string; sn_TaskStatus : string; sn_Workflow : string; sn_CurrentState : string;
  sn_RolloutIndex : Z; sn_RolloutsTotal : Z; sn_RolloutGroupID : string; sn_ExitCode : Z; sn_Duration : Z;
  sn_CreatedAt : option Z; sn_FinishedAt : option Z; sn_Summary : string; sn_Degraded : bool; sn_DegradedReason : string
}.
Definition degradedReasonNoEventsFile : string := "no_events_file".
Definition hasRolloutMetadata (index total : Z) (groupID : string) : bool :=
  if negb (bool_decide (TrimSpace groupID = EmptyString)) then true else if 0 <? index then true else 1 <? total.
Definition currentLabel (labels : list string) : string := default EmptyString (List.find (λ l, HasPrefix l "status:") labels).
Definition labelToState (label : string) : string := if HasPrefix label "status:" then TrimPrefix label "status:" else label.
Definition decodeLabels (raw : string) : list string :=
  if bool_decide (raw = EmptyString) then [] else match unmarshal_strings raw with Some (Some l) => l | _ => [] end.
Definition isTerminalSessionStatus (status : string) : bool :=
  bool_decide (ToLower (TrimSpace status) ∈ [TaskStatusCompleted; TaskStatusFailed; TaskStatusTimeout]).
Definition sessionDuration (createdAt finishedAt : option Z) : Z :=
  match createdAt, finishedAt with Some c, Some f => Z.quot (f - c) 1000000 | _, _ => 0 end.

Section listing.
Context (mode : bool) (stat : string → option (bool * Z)) (sessionsDir : string) (E : Env).

Definition eventsFileHasContent (path : string) : bool :=
  if bool_decide (path = EmptyString) then false else match stat path with None => false | Some (isdir, size) => if isdir then false else 0 <? size end.
(** The exit code, the status and the end of a session. *)
Definition sessionTaskStats (record : SessionRecord) : St DB (res (Z * string * option Z)) :=
  if bool_decide (ss_TaskID record = EmptyString) then mret (Ok (0, ss_Status record, ss_ClosedAt record))
  else
    r ← GetTask E (ss_TaskID record);
    mret match r with
         | Ok task => Ok (t_ExitCode task, t_Status task, match ss_ClosedAt record with Some t => Some t | None => t_CompletedAt task end)
         | Err ErrTaskNotFound => Ok (0, ss_Status record, ss_ClosedAt record)
         | Err e => Err (EWrap ("get task " +:+ ss_TaskID record) e)
         end.
Definition events_path_of (record : SessionRecord) : string :=
  let dir := if bool_decide (ss_Dir record = EmptyString) && negb (bool_decide (sessionsDir = EmptyString)) then Join [sessionsDir; ss_SessionID record] else ss_Dir record in
  if bool_decide (dir = EmptyString) then dir else Join [dir; "events-v1.jsonl"].
(** What the task, read a second time, adds to a row; errors are ignored. *)
Definition with_task (record : SessionRecord) (task : option TaskRecord) (exitCode : Z) (finishedAt : option Z) : sessionListResponse :=
  let rollout := match task with Some t => hasRolloutMetadata (t_RolloutIndex t) (t_RolloutsTotal t) (t_RolloutGroupID t) | None => false end in
  mkSessionRow (ss_SessionID record) (ss_TaskID record) (ss_Repo record) (ss_IssueNum record) (ss_AgentName record) (ss_Runtime record)
    (ss_WorkerID record) (ss_Attempt record) (ss_Status record) (from_option t_Status EmptyString task) (from_option t_Workflow EmptyString task)
    (from_option t_State EmptyString task)
    (if rollout then from_option t_RolloutIndex 0 task else 0) (if rollout then from_option t_RolloutsTotal 0 task else 0)
    (if rollout then from_option t_RolloutGroupID EmptyString task else EmptyString)
    exitCode (sessionDuration (ss_CreatedAt record) finishedAt) (ss_CreatedAt record) finishedAt (ss_Summary record) false EmptyString.
Definition set_CurrentState (s : string) (r : sessionListResponse) : sessionListResponse :=
  mkSessionRow (sn_SessionID r) (sn_TaskID r) (sn_Repo r) (sn_IssueNum r) (sn_AgentName r) (sn_Runtime r) (sn_WorkerID r) (sn_Attempt r) (sn_Status r)
    (sn_TaskStatus r) (sn_Workflow r) s (sn_RolloutIndex r) (sn_RolloutsTotal r) (sn_RolloutGroupID r) (sn_ExitCode r) (sn_Duration r) (sn_CreatedAt r)
    (sn_FinishedAt r) (sn_Summary r) (sn_Degraded r) (sn_DegradedReason r).
Definition set_Degraded (reason : string) (r : sessionListResponse) : sessionListResponse :=
  mkSessionRow (sn_SessionID r) (sn_TaskID r) (sn_Repo r) (sn_IssueNum r) (sn_AgentName r) (sn_Runtime r) (sn_WorkerID r) (sn_Attempt r) (sn_Status r)
    (sn_TaskStatus r) (sn_Workflow r) (sn_CurrentState r) (sn_RolloutIndex r) (sn_RolloutsTotal r) (sn_RolloutGroupID r) (sn_ExitCode r) (sn_Duration r)
    (sn_CreatedAt r) (sn_FinishedAt r) (sn_Summary r) true reason.
Definition with_degraded (record : SessionRecord) (row : sessionListResponse) : sessionListResponse :=
  if isTerminalSessionStatus (sn_TaskStatus row) || isTerminalSessionStatus (sn_Status row) then
    let path := events_path_of record in
    if negb (bool_decide (path = EmptyString)) && negb (eventsFileHasContent path) then set_Degraded degradedReasonNoEventsFile row else row
  else row.
Definition ok_of {A} (r : res A) : option A := match r with Ok a => Some a | Err _ => None end.
Definition session_row (record : SessionRecord) : St DB (res sessionListResponse) :=
  '(exitCode, _, finishedAt) ←! sessionTaskStats record;
  task ← (if bool_decide (ss_TaskID record = EmptyString) then mret None else r ← GetTask E (ss_TaskID record); mret (ok_of r));
  let row := with_task record task exitCode finishedAt in
  row ← (if bool_decide (sn_CurrentState row = EmptyString) then
           r ← QueryIssueCache E (ss_Repo record) (ss_IssueNum record);
           mret match r with Ok (Some cache) => set_CurrentState (labelToState (currentLabel (decodeLabels (ic_Labels cache)))) row | _ => row end
         else mret row);
  mret (Ok (with_degraded record row)).
Fixpoint session_rows (records : list SessionRecord) : St DB (res (list sessionListResponse)) :=
  match records with
  | [] => mret (Ok [])
  | r :: records => row ←! session_row r; rows ←! session_rows records; mret (Ok (row :: rows))
  end.
Definition listSessions (p : SessionListFilter) : St DB (res (list sessionListResponse)) :=
  records ←! wrapE "list sessions" (ListSessionsForAPI mode E p); session_rows records.

(** ** The answer *)

Definition str_opt (k v : string) : list (string * json) := if bool_decide (v = EmptyString) then [] else [(k, JStr v)].
Definition int_opt (k : string) (v : Z) : list (string * json) := if v =? 0 then [] else [(k, JNum (itoa v))].
(** [time.Time] and [*time.Time] in JSON. *)
Definition time_json (t : option Z) : json := JStr match t with Some t => RFC3339Nano t | None => "0001-01-01T00:00:00Z" end.
Definition time_ptr_json (t : option Z) : json := match t with Some t => JStr (RFC3339Nano t) | None => JNull end.
Definition Row : Type := list (string * json).
Definition row_json (r : sessionListResponse) : Row :=
  [("session_id", JStr (sn_SessionID r))] ++ str_opt "task_id" (sn_TaskID r)
  ++ [("repo", JStr (sn_Repo r)); ("issue_num", JNum (itoa (sn_IssueNum r))); ("agent_name", JStr (sn_AgentName r))]
  ++ str_opt "runtime" (sn_Runtime r) ++ str_opt "worker_id" (sn_WorkerID r)
  ++ [("attempt", JNum (itoa (sn_Attempt r))); ("status", JStr (sn_Status r))]
  ++ str_opt "task_status" (sn_TaskStatus r) ++ str_opt "workflow" (sn_Workflow r) ++ str_opt "current_state" (sn_CurrentState r)
  ++ int_opt "rollout_index" (sn_RolloutIndex r) ++ int_opt "rollouts_total" (sn_RolloutsTotal r) ++ str_opt "rollout_group_id" (sn_RolloutGroupID r)
  ++ [("exit_code", JNum (itoa (sn_ExitCode r))); ("duration", JNum (itoa (sn_Duration r))); ("created_at", time_json (sn_CreatedAt r));
      ("finished_at", time_ptr_json (sn_FinishedAt r))]
  ++ str_opt "summary" (sn_Summary r) ++ (if sn_Degraded r then [("degraded", JBool true)] else []) ++ str_opt "degraded_reason" (sn_DegradedReason r).

(** Answers: status, content type and body. *)
Record Resp := mkResp { rs_Status : Z; rs_ContentType : string; rs_Body : string }.
Definition json_type : string := "application/json".
Definition writeJSON (status : Z) (v : json) : Resp := mkResp status json_type (print_json v +:+ LF).
Definition writeError (status : Z) (msg : string) : Resp := writeJSON status (JObj [("error", JStr msg)]).
Definition issue_param (q : Query) : option Z :=
  let raw := TrimSpace (query_get q "issue") in
  if bool_decide (raw = EmptyString) then Some 0 else match atoi raw with Some v => if v <=? 0 then None else Some v | None => None end.
Definition handleAPISessions (method : string) (q : Query) : St DB Resp :=
  if negb (bool_decide (method = "GET")) then mret (writeError 405 "method not allowed")
  else match parseLimitOffset q with
       | inl e => mret (writeError 400 e)
       | inr (limit, offset) =>
           match issue_param q with
           | None => mret (writeError 400 "invalid issue parameter")
           | Some issue =>
               r ← listSessions (mkSessionList (query_get q "repo") (query_get q "agent") issue limit offset);
               mret match r with
                    | Ok rows => writeJSON 200 (JArr (map (λ r, JObj (row_json r)) rows))
                    | Err _ => writeError 500 "failed to query sessions"
                    end
           end
       end.
End listing.
