(* ===== verification/SessionProxy.v ===== *)
(** * The session proxy

    [internal/sessionproxy]: the coordinator's front for the sessions that workers own.
    [resolver.go] finds the worker of a session and how to reach it, [handler.go] forwards
    the requests for one session, and lists the sessions of all workers: it asks every
    worker, merges the rows, sorts and pages them and keeps complete answers for a few
    seconds.

    What is sent over the network is answered by the environment, which also chooses the
    order in which the answers arrive; [url_host] is [url.Parse] with [Hostname] ([None]
    on a parse error) and [loopback] is [net.ParseIP] with [IsLoopback]. *)

From S2P Require Import Prelude GoLib Json JsonValue GoText GoFormat GoUrl GoTime Supervisor Types DB TaskQueue StoreIssue StoreAdmin Dependency ReportFormat SessionAudit.
From Stdlib Require Import Ascii.

(** ** The worker of a session *)

Record Resolution := mkResolution { re_WorkerID : string; re_AuditURL : string; re_Tunnel : bool; re_Local : bool }.
(** [rv_tunnels] is absent without a tunnel registry. *)
Record Resolver := mkResolver { rv_localAuditFallback : bool; rv_localHosts : list string; rv_tunnels : option (string → bool) }.
Definition NewResolver : Resolver := mkResolver false ["127.0.0.1"; "::1"; "localhost"; "0.0.0.0"] None.
Definition WithTunnels (t : option (string → bool)) (r : Resolver) : Resolver := mkResolver (rv_localAuditFallback r) (rv_localHosts r) t.
Definition WithLocalAuditFallback (enabled : bool) (r : Resolver) : Resolver := mkResolver enabled (rv_localHosts r) (rv_tunnels r).
Definition WithLocalHost (host : string) (r : Resolver) : Resolver :=
  let host := ToLower (TrimSpace host) in
  if bool_decide (host = EmptyString) then r else mkResolver (rv_localAuditFallback r) (rv_localHosts r ++ [host]) (rv_tunnels r).
Definition connected (t : option (string → bool)) (workerID : string) : bool := match t with Some f => f workerID | None => false end.

Section proxy.
Context (url_host : string → option string) (loopback : string → bool) (mode : bool) (E : Env).

Definition isLocalURL (r : Resolver) (raw : string) : bool :=
  if negb (rv_localAuditFallback r) then false
  else match url_host raw with
       | None => false
       | Some host =>
           let host := ToLower host in
           if bool_decide (host = EmptyString) then false else bool_decide (host ∈ rv_localHosts r) || loopback host
       end.
Definition IsLocalAuditURL (r : Resolver) (auditURL : string) : bool := isLocalURL r (TrimSpace auditURL).
Definition audit_base (w : WorkerRecord) : string := TrimRightByte "/" (TrimSpace (w_AuditURL w)).

(** [Ok None] is [ErrSessionNotRouted]. *)
Definition Resolve (r : Resolver) (sessionID : string) : St DB (res (option Resolution)) :=
  let sessionID := TrimSpace sessionID in
  if bool_decide (sessionID = EmptyString) then mret (Ok None)
  else
    route ←! wrapE "sessionproxy: get session route" (GetSessionRoute E sessionID);
    owner ←! match route with
             | Some route => mret (Ok (Some (TrimSpace (sr_WorkerID route))))
             | None => rec ←! wrapE "sessionproxy: get session" (GetSession mode E sessionID); mret (Ok ((λ s, TrimSpace (ss_WorkerID s)) <$> rec))
             end;
    match owner with
    | None => mret (Ok None)
    | Some workerID =>
        if bool_decide (workerID = EmptyString) then mret (Ok (Some (mkResolution EmptyString EmptyString false true)))
        else
          worker ←! wrapE "sessionproxy: get worker" (GetWorker E workerID);
          mret (Ok (Some match worker with
                         | None => mkResolution workerID EmptyString false true
                         | Some w =>
                             if connected (rv_tunnels r) workerID then mkResolution workerID EmptyString true false
                             else
                               let auditURL := audit_base w in
                               if bool_decide (auditURL = EmptyString) then mkResolution workerID EmptyString false true
                               else mkResolution workerID auditURL false (isLocalURL r auditURL)
                         end))
    end.
Definition CandidateWorkers (repo : string) : St DB (res (list WorkerRecord)) :=
  wrapE "sessionproxy: query workers" (QueryWorkers E (TrimSpace repo)).

(** ** The handler *)

(** A request to a worker, what comes of it ([Unsent] with the error text of
    [http.NewRequest], [Failed] without an answer), and the answer to the browser. *)
Record Request := mkRequest { rq_Tunnel : bool; rq_Worker : string; rq_URL : string; rq_Headers : list (string * string) }.
Inductive Outcome := Unsent (e : string) | Failed | Answered (r : Resp).
Record Reply := mkReply { rp_Status : Z; rp_Headers : list (string * string); rp_Body : string }.

(** [cfg_Tunnels]: the transport of the tunnels, with its connectivity when it reports
    one; [cfg_Local]: the local handler, from the target of a request to its answer. *)
Definition Connectivity : Type := string → bool.
Record HandlerConfig := mkHandlerConfig {
  cfg_Resolver : Resolver; cfg_Local : option (string → Resp); cfg_AuthToken : string; cfg_CacheTTL : Z;
  cfg_Tunnels : option (option Connectivity); cfg_Connectivity : option Connectivity; cfg_EventEmit : bool
}.
Record Handler := mkHandler {
  hd_resolver : Resolver; hd_local : option (string → Resp); hd_authToken : string; hd_cacheTTL : Z;
  hd_tunnels : bool; hd_connectivity : option Connectivity; hd_emit : bool
}.
Definition NewHandler (cfg : HandlerConfig) : Handler :=
  mkHandler (cfg_Resolver cfg) (cfg_Local cfg) (TrimSpace (cfg_AuthToken cfg)) (if cfg_CacheTTL cfg <=? 0 then 5 * second else cfg_CacheTTL cfg)
    (bool_decide (is_Some (cfg_Tunnels cfg)))
    (match cfg_Connectivity cfg with Some c => Some c | None => mjoin (cfg_Tunnels cfg) end) (cfg_EventEmit cfg).
Definition authorization (h : Handler) : list (string * string) :=
  if bool_decide (hd_authToken h = EmptyString) then [] else [("Authorization", "Bearer " +:+ hd_authToken h)].

(** ** One session *)

Definition sse_type : string := "text/event-stream".
Definition content_type (ct : string) : string * string := ("Content-Type", ct).
Definition degraded (reason workerID : string) : json := JObj ([("degraded_reason", JStr reason)] ++ str_opt "worker_id" workerID).
Definition writeJSONError (status : Z) (reason workerID : string) : Reply :=
  mkReply status [content_type json_type] (print_json (degraded reason workerID) +:+ LF).
Definition streamError (reason workerID : string) : Reply :=
  mkReply 200 [content_type sse_type; ("Cache-Control", "no-cache")] (cat ["event: error"; LF; "data: "; print_json (degraded reason workerID); LF; LF]).

(** Headers are looked up by name; the browser's are passed on without blanks. *)
Definition header_get (hs : list (string * string)) (k : string) : string := TrimSpace (default EmptyString (assoc hs k)).
Definition pass_header (hs : list (string * string)) (k : string) : list (string * string) :=
  let v := header_get hs k in if bool_decide (v = EmptyString) then [] else [(k, v)].
Definition browser_headers (accept : string) (hs : list (string * string)) : list (string * string) :=
  pass_header hs "Last-Event-ID" ++ pass_header hs "Cache-Control"
  ++ (if bool_decide (header_get hs "Accept" = EmptyString) then [("Accept", accept)] else pass_header hs "Accept").
Definition copyBrowserHeaders : list (string * string) → list (string * string) := browser_headers "application/json".

Definition copied (workerID : string) (x : Resp) : Reply :=
  mkReply (rs_Status x) ((if bool_decide (rs_ContentType x = EmptyString) then [] else [content_type (rs_ContentType x)]) ++ [("X-Workbuddy-Origin-Worker", workerID)]) (rs_Body x).
Definition streamed (workerID : string) (x : Resp) : Reply :=
  if rs_Status x =? 200 then
    mkReply 200 [content_type sse_type; ("Cache-Control", "no-cache"); ("X-Accel-Buffering", "no"); ("X-Workbuddy-Origin-Worker", workerID)] (rs_Body x)
  else streamError ("upstream status " +:+ itoa (rs_Status x)) workerID.
Definition proxyJSON (h : Handler) (send : Request → Outcome) (workerID target : string) : Reply :=
  match send (mkRequest false workerID target (authorization h)) with
  | Unsent _ => writeJSONError 502 "build upstream request failed" workerID
  | Failed => writeJSONError 503 "worker_offline" workerID
  | Answered x => copied workerID x
  end.
Definition proxyTunnelJSON (h : Handler) (send : Request → Outcome) (hs : list (string * string)) (workerID target : string) : Reply :=
  if negb (hd_tunnels h) then writeJSONError 502 "worker_offline" workerID
  else match send (mkRequest true workerID target (copyBrowserHeaders hs ++ authorization h)) with
       | Unsent _ => writeJSONError 502 "build upstream request failed" workerID
       | Failed => writeJSONError 502 "worker_offline" workerID
       | Answered x => copied workerID x
       end.
Definition stream_reply (workerID : string) (o : Outcome) : Reply :=
  match o with
  | Unsent _ => streamError "build upstream request failed" workerID
  | Failed => streamError "worker_offline" workerID
  | Answered x => streamed workerID x
  end.
Definition proxyStream (h : Handler) (send : Request → Outcome) (hs : list (string * string)) (workerID target : string) : Reply :=
  stream_reply workerID (send (mkRequest false workerID target (authorization h ++ browser_headers sse_type hs))).
Definition proxyTunnelStream (h : Handler) (send : Request → Outcome) (hs : list (string * string)) (workerID target : string) : Reply :=
  if negb (hd_tunnels h) then streamError "worker_offline" workerID
  else stream_reply workerID (send (mkRequest true workerID target (copyBrowserHeaders hs ++ authorization h))).

Definition with_query (base query : string) : string := if bool_decide (query = EmptyString) then base else base +:+ "?" +:+ query.
Definition of_local (x : Resp) : Reply := mkReply (rs_Status x) [content_type (rs_ContentType x)] (rs_Body x).
Definition serveLocal (h : Handler) (path rawQuery : string) : Reply :=
  match hd_local h with None => writeJSONError 404 "session not found" EmptyString | Some serve => of_local (serve (with_query path rawQuery)) end.
Definition cut_slash (s : string) : string * string := match split_at "/" s with Some (a, b) => (a, b) | None => (s, EmptyString) end.
Definition handleDetail (h : Handler) (send : Request → Outcome) (method path rawQuery : string) (hs : list (string * string)) : St DB Reply :=
  if negb (bool_decide (method = "GET")) then mret (writeJSONError 405 "method not allowed" EmptyString)
  else
    let '(id, suffix) := cut_slash (TrimPrefix path "/api/v1/sessions/") in
    let sessionID := TrimSpace id in
    if bool_decide (sessionID = EmptyString) then mret (writeJSONError 404 "session not found" EmptyString)
    else
      found ← Resolve (hd_resolver h) sessionID;
      mret match found with
           | Err _ => writeJSONError 500 "session lookup failed" EmptyString
           | Ok None => serveLocal h path rawQuery
           | Ok (Some res) =>
               if re_Local res then serveLocal h path rawQuery
               else
                 let target := with_query (cat [re_AuditURL res; "/api/v1/sessions/"; sessionID; (if bool_decide (suffix = EmptyString) then EmptyString else "/" +:+ suffix)]) rawQuery in
                 let stream := bool_decide (suffix = "stream") in
                 if re_Tunnel res then (if stream then proxyTunnelStream h send hs (re_WorkerID res) target else proxyTunnelJSON h send hs (re_WorkerID res) target)
                 else if stream then proxyStream h send hs (re_WorkerID res) target else proxyJSON h send (re_WorkerID res) target
           end.

(** ** Rows *)

(** The rows are objects decoded into maps: the last value of a key counts. *)
Definition row_get (row : Row) (k : string) : option json := assoc (reverse row) k.
Definition session_row_id (row : Row) : string := match row_get row "session_id" with Some (JStr s) => s | _ => EmptyString end.

(** The zero time when there is none. *)
Definition rowCreatedAt (row : Row) : Z := match row_get row "created_at" with Some (JStr raw) => default zero_time (parse_rfc3339 raw) | _ => zero_time end.
(** The newer row first; rows of the same time keep their order. *)
Definition row_le (a b : Row) : bool := negb (rowCreatedAt a <? rowCreatedAt b).
Definition sort_rows (rows : list Row) : list Row := sort_by row_le rows.

(** ** The listing of all workers *)

Definition firstQueryValue (q : Query) (key : string) : string := TrimSpace (query_get q key).
Definition parseIntOr (raw : string) (fallback : Z) : Z :=
  if bool_decide (raw = EmptyString) then fallback
  else match atoi raw with Some v => if v <? 0 then fallback else v | None => fallback end.
Definition set_key (k v : string) (q : Query) : Query := List.filter (λ kv, negb (bool_decide (kv.1 = k))) q ++ [(k, [v])].
(** Workers are asked for everything up to the end of the page. *)
Definition downstream (q : Query) : Query :=
  let q' := set_key "offset" "0" q in
  let limit := parseIntOr (firstQueryValue q "limit") 0 in
  if 0 <? limit then set_key "limit" (itoa (int64 (limit + parseIntOr (firstQueryValue q "offset") 0))) q' else q'.

(** The query of the request to a worker: as it is for an address, escaped and in the
    order of the keys for a tunnel and for the local handler. *)
Definition listing_keys : list string := ["repo"; "agent"; "issue"; "limit"; "offset"].
Definition listing_values (q : Query) : list (string * string) :=
  omap (λ key, let v := query_get q key in if bool_decide (v = EmptyString) then None else Some (key, v)) listing_keys.
Definition raw_query (q : Query) : string := join_str "&" (map (λ kv, kv.1 +:+ "=" +:+ kv.2) (listing_values q)).
Definition encoded_query (q : Query) : string := Encode (listing_values q).

(** How a worker is asked: through its tunnel, at its address, or here, because it has no
    address or because its address is this host. *)
Inductive Route := RouteTunnel (url : string) | RouteAudit (base url : string) | RouteNoAudit | RouteLoopback.
Definition route_of (h : Handler) (q : Query) (w : WorkerRecord) : Route :=
  if connected (hd_connectivity h) (w_ID w) then RouteTunnel (with_query "http://worker.local/api/v1/sessions" (encoded_query q))
  else
    let auditURL := audit_base w in
    if bool_decide (auditURL = EmptyString) then RouteNoAudit
    else if IsLocalAuditURL (hd_resolver h) auditURL then RouteLoopback
    else RouteAudit auditURL (with_query (auditURL +:+ "/api/v1/sessions") (raw_query q)).

(** The rows of an answer, or the text of the error.  [json_error] is the text of the
    decoder's error.  The decoder of a worker's answer stops after the first value. *)
Context (json_error : string → string).
Definition ErrWorkerOffline : string := "sessionproxy: worker offline".
Definition ErrAuditURLMissing : string := "sessionproxy: worker has no audit_url".
Definition as_rows (v : json) : option (list Row) :=
  match v with
  | JArr l => mapM (λ v, match v with JObj fields => Some fields | JNull => Some [] | _ => None end) l
  | JNull => Some []
  | _ => None
  end.
Definition decode_first (body : string) : option (list Row) := x ← parse_val (S (String.length body)) 0 body; as_rows x.1.
Definition rows_of (prefix : string) (decode : string → option (list Row)) (x : Resp) : string + list Row :=
  if rs_Status x =? 200 then match decode (rs_Body x) with Some l => inr l | None => inl (cat [prefix; ": decode body: "; json_error (rs_Body x)]) end
  else inl (cat [prefix; ": status "; itoa (rs_Status x); ": "; ErrWorkerOffline]).
Definition fetch_rows (workerID : string) (o : Outcome) : string + list Row :=
  let prefix := "worker " +:+ workerID in
  match o with
  | Unsent e => inl (cat [prefix; ": build request: "; e])
  | Failed => inl (cat [prefix; ": "; ErrWorkerOffline])
  | Answered x => rows_of prefix decode_first x
  end.
Definition fetchWorkerListing (h : Handler) (send : Request → Outcome) (workerID url : string) : string + list Row :=
  fetch_rows workerID (send (mkRequest false workerID url (authorization h))).
Definition fetchTunnelListing (h : Handler) (send : Request → Outcome) (workerID url : string) : string + list Row :=
  if negb (hd_tunnels h) then inl (cat ["worker "; workerID; ": "; ErrWorkerOffline])
  else fetch_rows workerID (send (mkRequest true workerID url (authorization h))).
Definition fetchLocalListing (serve : string → Resp) (q : Query) : string + list Row :=
  rows_of "local listing" (λ body, if bool_decide (TrimSpace body = EmptyString) then Some [] else parse_json body ≫= as_rows)
    (serve (with_query "/api/v1/sessions" (encoded_query q))).

(** The answers of a fan-out.  The workers served from here share one answer, under the
    name of the first of them, or are offline when there is no local handler. *)
Record Answer := mkAnswer { an_Worker : string; an_Route : Route; an_Result : string + list Row }.
Definition asked (h : Handler) (send : Request → Outcome) (w : string * Route) : option Answer :=
  match w.2 with
  | RouteTunnel url => Some (mkAnswer w.1 w.2 (fetchTunnelListing h send w.1 url))
  | RouteAudit _ url => Some (mkAnswer w.1 w.2 (fetchWorkerListing h send w.1 url))
  | _ => None
  end.
Definition served_here (plan : list (string * Route)) : list (string * Route) :=
  List.filter (λ w, match w.2 with RouteNoAudit | RouteLoopback => true | _ => false end) plan.
Definition answers (h : Handler) (send : Request → Outcome) (q : Query) (plan : list (string * Route)) : list Answer :=
  omap (asked h send) plan
  ++ match served_here plan, hd_local h with
     | [], _ => []
     | (id, rt) :: _, Some serve => [mkAnswer id rt (fetchLocalListing serve q)]
     | here, None => map (λ w, mkAnswer w.1 w.2 (inl ErrAuditURLMissing)) here
     end.

(** The events of a fan-out: the type, the repository and the payload. *)
Definition ProxyEvent : Type := string * string * json.
Definition rows_json (rows : list Row) : json := JNum (itoa (Z.of_nat (length rows))).
Definition emitTunnelFanout (workerID repo : string) (r : string + list Row) : ProxyEvent :=
  match r with
  | inl e => ("sessionproxy_fanout_tunnel_error", repo, JObj [("error", JStr e); ("repo", JStr repo); ("worker_id", JStr workerID)])
  | inr rows => ("sessionproxy_fanout_tunnel_ok", repo, JObj [("repo", JStr repo); ("rows", rows_json rows); ("worker_id", JStr workerID)])
  end.
Definition emitAuditFanout (workerID repo auditURL : string) (r : string + list Row) : ProxyEvent :=
  match r with
  | inl e => ("sessionproxy_fanout_audit_error", repo, JObj [("audit_url", JStr auditURL); ("error", JStr e); ("repo", JStr repo); ("worker_id", JStr workerID)])
  | inr rows => ("sessionproxy_fanout_audit_ok", repo, JObj [("audit_url", JStr auditURL); ("repo", JStr repo); ("rows", rows_json rows); ("worker_id", JStr workerID)])
  end.
Definition emitOfflineNoAudit (workerID repo : string) : ProxyEvent :=
  ("sessionproxy_fanout_offline_no_audit", repo, JObj [("repo", JStr repo); ("worker_id", JStr workerID)]).
Definition no_audit_events (repo : string) (plan : list (string * Route)) : list ProxyEvent :=
  omap (λ w, match w.2 with RouteNoAudit => Some (emitOfflineNoAudit w.1 repo) | _ => None end) plan.
Definition answer_events (repo : string) (l : list Answer) : list ProxyEvent :=
  omap (λ a, match an_Route a with
             | RouteTunnel _ => Some (emitTunnelFanout (an_Worker a) repo (an_Result a))
             | RouteAudit base _ => Some (emitAuditFanout (an_Worker a) repo base (an_Result a))
             | _ => None
             end) l.

(** Merging the answers in the order of their arrival: a session is listed once. *)
Fixpoint merge_rows (seen : list string) (rows : list Row) : list string * list Row :=
  match rows with
  | [] => (seen, [])
  | row :: rows =>
      let id := session_row_id row in
      if bool_decide (id = EmptyString) then let x := merge_rows seen rows in (x.1, row :: x.2)
      else if bool_decide (id ∈ seen) then merge_rows seen rows
      else let x := merge_rows (id :: seen) rows in (x.1, row :: x.2)
  end.
Fixpoint merge_answers (seen : list string) (l : list Answer) : list Row :=
  match l with
  | [] => []
  | a :: l => match an_Result a with
              | inl _ => merge_answers seen l
              | inr rows => let x := merge_rows seen rows in x.2 ++ merge_answers x.1 l
              end
  end.
Definition offline_of (l : list Answer) : list string := omap (λ a, match an_Result a with inl _ => Some (an_Worker a) | inr _ => None end) l.
Definition page (limit offset : Z) (rows : list Row) : list Row :=
  let rows := if 0 <? offset then drop (Z.to_nat offset) rows else rows in
  if (0 <? limit) && (limit <? Z.of_nat (length rows)) then take (Z.to_nat limit) rows else rows.

(** ** The cache of listings *)

(** The body is kept as the rows it encodes. *)
Record Listing := mkListing { ls_rows : list Row; ls_expiresAt : Z; ls_offline : list string }.
Definition Listings : Type := gmap string Listing.
Definition fanoutCacheKey (parts : list string) : string := join_str "|" parts.
Definition cache_key (q : Query) : string := fanoutCacheKey (map (firstQueryValue q) listing_keys).
Definition cacheGet (now : Z) (key : string) : St Listings (option Listing) := λ m,
  match m !! key with
  | None => (None, m)
  | Some e => if ls_expiresAt e <? now then (None, base.delete key m) else (Some e, m)
  end.
Definition cacheSet (key : string) (e : Listing) : St Listings unit := modS <[key := e]>.
Definition InvalidateCache : St Listings unit := modS (λ _, ∅).

(** ** The fan-out *)

(** What the handler works on, with the events it emitted. *)
Record Proxy := mkProxy { px_db : DB; px_listings : Listings; px_events : list ProxyEvent }.
Definition on_px_db {A} (m : St DB A) : St Proxy A := λ s, let x := m (px_db s) in (x.1, mkProxy x.2 (px_listings s) (px_events s)).
Definition on_listings {A} (m : St Listings A) : St Proxy A := λ s, let x := m (px_listings s) in (x.1, mkProxy (px_db s) x.2 (px_events s)).
Definition emit (h : Handler) (l : list ProxyEvent) : St Proxy unit :=
  modS (λ s, if hd_emit h then mkProxy (px_db s) (px_listings s) (px_events s ++ l) else s).

(** The rows, the workers that are offline and whether the answer comes from the cache.
    [now] is the time of the lookup and [done] that of the store; [order] is the order in
    which the answers arrive, and in which their events are logged. *)
Record Net := mkNet { nt_send : Request → Outcome; nt_order : list Answer → list Answer; nt_now : Z; nt_done : Z }.
Definition fanOutListing (h : Handler) (net : Net) (q : Query) : St Proxy (res (list Row * list string * bool)) :=
  hit ← on_listings (cacheGet (nt_now net) (cache_key q));
  match hit with
  | Some e => mret (Ok (ls_rows e, ls_offline e, true))
  | None =>
      let repo := firstQueryValue q "repo" in
      workers ←! on_px_db (CandidateWorkers repo);
      let plan := map (λ w, (w_ID w, route_of h (downstream q) w)) workers in
      emit h (no_audit_events repo plan);;
      let arrivals := nt_order net (answers h (nt_send net) (downstream q) plan) in
      emit h (answer_events repo arrivals);;
      let limit := parseIntOr (firstQueryValue q "limit") 0 in
      let offset := parseIntOr (firstQueryValue q "offset") 0 in
      let rows := page limit offset (sort_rows (merge_answers [] arrivals)) in
      let offline := sort_strings (offline_of arrivals) in
      (match offline with [] => on_listings (cacheSet (cache_key q) (mkListing rows (nt_done net + hd_cacheTTL h) offline)) | _ => mret tt end);;
      mret (Ok (rows, offline, false))
  end.
Definition ListSessionsForRepoIssue (h : Handler) (net : Net) (repo : string) (issueNum : Z) : St Proxy (res (list Row * list string)) :=
  x ←! fanOutListing h net ([("repo", [repo])] ++ (if 0 <? issueNum then [("issue", [itoa issueNum])] else []));
  mret (Ok (x.1.1, x.1.2)).

(** The reply to the browser; a row is encoded with its keys in order. *)
Definition sorted_row (row : Row) : json := JObj (map (λ k, (k, default JNull (row_get row k))) (sort_strings (remove_dups row.*1))).
Definition handleList (h : Handler) (net : Net) (method : string) (q : Query) : St Proxy Reply :=
  if negb (bool_decide (method = "GET")) then mret (writeJSONError 405 "method not allowed" EmptyString)
  else
    r ← fanOutListing h net q;
    mret match r with
         | Err _ => writeJSONError 500 "candidate workers lookup failed" EmptyString
         | Ok (rows, offline, fromCache) =>
             mkReply 200 ([content_type json_type] ++ (if fromCache : bool then [("X-Workbuddy-Cache", "hit")] else [])
                          ++ (match offline with [] => [] | _ => [("X-Workbuddy-Worker-Offline", join_str "," offline)] end))
               (print_json (JArr (map sorted_row rows)))
         end.
Definition ServeHTTP (h : Handler) (net : Net) (method path rawQuery : string) (q : Query) (hs : list (string * string)) : St Proxy Reply :=
  if bool_decide (path = "/api/v1/sessions") then handleList h net method q
  else if HasPrefix path "/api/v1/sessions/" then on_px_db (handleDetail h (nt_send net) method path rawQuery hs)
  else mret (mkReply 404 [content_type "text/plain; charset=utf-8"; ("X-Content-Type-Options", "nosniff")] ("404 page not found" +:+ LF)).
End proxy.
