(* ===== verification/SessionProxySpec.v ===== *)
(** * Listing the sessions of all workers

    The coordinator asks every worker for the sessions up to the end of the page only; the
    page it cuts out of the merged answers is the page of the sessions of all workers. *)

From S2P Require Import Prelude GoLib Json JsonValue GoText GoFormat GoUrl GoTime Supervisor Types DB TaskQueue StoreIssue StoreAdmin Dependency ReportFormat SessionAudit SessionProxy.
From Stdlib Require Import Ascii.

(** ** Removing an element before sorting *)

Section sorting.
Context {A : Type} (le : A → A → bool).
Hypothesis le_total : ∀ x y, le x y = true ∨ le y x = true.
Hypothesis le_trans : ∀ x y z, le x y = true → le y z = true → le x z = true.

Lemma insert_app y u w : insert_by le y (u ++ w) = if existsb (le y) u then insert_by le y u ++ w else u ++ insert_by le y w.
Proof. induction u as [|z u IH]; cbn; [done|]. destruct (le y z); [done|]. cbn. rewrite IH. by destruct (existsb (le y) u). Qed.
Lemma insert_length y (u : list A) : length (insert_by le y u) = S (length u).
Proof. by rewrite insert_by_perm. Qed.
Lemma insert_sorted y u : StronglySorted (λ a b, le a b = true) u → StronglySorted (λ a b, le a b = true) (insert_by le y u).
Proof.
  induction 1 as [|z u Hu IH Hz]; cbn; [by repeat constructor|]. destruct (le y z) eqn:Hyz.
  - constructor; [by constructor|]. constructor; [done|]. eapply Forall_impl; [exact Hz|]. intros v Hv. by eapply le_trans.
  - constructor; [done|]. rewrite insert_by_perm. constructor; [|done]. destruct (le_total y z); [congruence|done].
Qed.
Lemma sort_sorted (l : list A) : StronglySorted (λ a b, le a b = true) (sort_by le l).
Proof. induction l as [|x l IH]; [constructor|]. by apply insert_sorted. Qed.

(** An element comes after those that precede it and are not greater. *)
Lemma sort_remove (a : list A) x b :
  ∃ u v, sort_by le (a ++ b) = u ++ v ∧ sort_by le (a ++ x :: b) = u ++ x :: v ∧ (length (List.filter (λ y, le y x) a) ≤ length u)%nat.
Proof.
  induction a as [|y a (u & v & H1 & H2 & Hl)].
  - change (sort_by le ([] ++ x :: b)) with (insert_by le x (sort_by le b)). change ([] ++ b) with b. generalize (sort_by le b) as l.
    induction l as [|z l IH]; cbn; [exists [], []; split_and!; cbn; [done|done|lia]|].
    destruct (le x z); [exists [], (z :: l); split_and!; cbn; [done|done|lia]|]. destruct IH as (u & v & -> & -> & _). exists (z :: u), v. split; [done|]. split; [done|cbn; lia].
  - pose proof (sort_sorted (a ++ x :: b)) as Hs. rewrite H2 in Hs. cbn [app sort_by foldr]. fold (sort_by le (a ++ b)). fold (sort_by le (a ++ x :: b)). rewrite H1, H2.
    rewrite !insert_app. cbn [List.filter]. destruct (existsb (le y) u) eqn:Hex.
    + exists (insert_by le y u), v. split; [done|]. split; [done|]. rewrite insert_length. destruct (le y x); cbn; lia.
    + cbn [insert_by]. destruct (le y x) eqn:Hyx.
      * assert (insert_by le y v = y :: v) as ->.
        { destruct v as [|z v]; [done|]. cbn. assert (le x z = true) as Hxz; [|by rewrite (le_trans y x z)].
          apply StronglySorted_app in Hs as (_ & _ & Hs). apply StronglySorted_inv in Hs as [_ Hs]. by apply Forall_cons in Hs as [? _]. }
        exists (u ++ [y]), v. rewrite <-!app_assoc. split; [done|]. split; [done|]. rewrite length_app. cbn. lia.
      * exists u, (insert_by le y v). done.
Qed.
Lemma take_remove k (a : list A) x b : (k ≤ length (List.filter (λ y, le y x) a))%nat → take k (sort_by le (a ++ x :: b)) = take k (sort_by le (a ++ b)).
Proof.
  intros Hk. destruct (sort_remove a x b) as (u & v & -> & -> & Hl). by rewrite !take_app_le by lia.
Qed.
Lemma take_remove_all k (p l ds rest : list A) : (k ≤ length l)%nat → (∀ x y, x ∈ ds → y ∈ l → le y x = true) →
  take k (sort_by le (p ++ l ++ ds ++ rest)) = take k (sort_by le (p ++ l ++ rest)).
Proof.
  intros Hk. induction ds as [|x ds IH]; intros Hle; [done|]. rewrite <-IH by (intros; apply Hle; [by right|done]).
  rewrite (app_assoc p l), (app_assoc p l). cbn [app]. apply take_remove. rewrite List.filter_app, length_app.
  assert (List.filter (λ y, le y x) l = l) as ->; [|lia].
  assert (∀ y, y ∈ l → le y x = true) as Hl by (intros y Hy; apply Hle; [left|done]). clear -Hl.
  induction l as [|y l IH]; [done|]. cbn. rewrite Hl by left. f_equal. apply IH. intros z Hz. apply Hl. by right.
Qed.
Lemma take_cut k (p l rest : list A) : StronglySorted (λ a b, le a b = true) l → take k (sort_by le (p ++ l ++ rest)) = take k (sort_by le (p ++ take k l ++ rest)).
Proof.
  intros Hs. destruct (decide (length l ≤ k)%nat) as [Hl|Hl]; [by rewrite (take_ge l k)|].
  rewrite <-(take_drop k l) at 1. rewrite <-app_assoc. apply take_remove_all; [rewrite length_take; lia|].
  rewrite <-(take_drop k l) in Hs. apply StronglySorted_app in Hs as (Hc & _ & _). intros x y Hx Hy. by apply Hc.
Qed.
Lemma take_cut_all k (p : list A) ls : Forall (StronglySorted (λ a b, le a b = true)) ls →
  take k (sort_by le (p ++ concat ls)) = take k (sort_by le (p ++ concat (map (take k) ls))).
Proof.
  intros Hs. revert p. induction Hs as [|l ls Hl _ IH]; intros p; [done|]. cbn [concat map]. rewrite take_cut by done. rewrite (app_assoc p), IH. by rewrite <-app_assoc.
Qed.
End sorting.

(** ** Rows *)

Lemma row_le_total a b : row_le a b = true ∨ row_le b a = true.
Proof. unfold row_le. destruct (Z.ltb_spec (rowCreatedAt a) (rowCreatedAt b)), (Z.ltb_spec (rowCreatedAt b) (rowCreatedAt a)); cbn; auto. lia. Qed.
Lemma row_le_trans a b c : row_le a b = true → row_le b c = true → row_le a c = true.
Proof. unfold row_le. rewrite !negb_true_iff, !Z.ltb_ge. lia. Qed.

(** Rows of different sessions are all kept. *)
Definition ids (rows : list Row) : list string := List.filter (λ i, negb (bool_decide (i = EmptyString))) (map session_row_id rows).
Lemma ids_cons row rows : ids (row :: rows) = (if bool_decide (session_row_id row = EmptyString) then [] else [session_row_id row]) ++ ids rows.
Proof. unfold ids. cbn. by destruct (bool_decide _). Qed.
Lemma ids_app l1 l2 : ids (l1 ++ l2) = ids l1 ++ ids l2.
Proof. unfold ids. by rewrite map_app, List.filter_app. Qed.
Lemma ids_sublist l1 l2 : l1 `sublist_of` l2 → ids l1 `sublist_of` ids l2.
Proof.
  induction 1 as [|x l1 l2 _ IH|x l1 l2 _ IH]; [done| |]; rewrite ?ids_cons.
  - by apply sublist_app.
  - by apply sublist_inserts_l.
Qed.
Lemma ids_perm l1 l2 : l1 ≡ₚ l2 → ids l1 ≡ₚ ids l2.
Proof.
  induction 1 as [|x l1 l2 _ IH|x y l|l1 l2 l3 _ IH1 _ IH2]; [done| | |by rewrite IH1]; rewrite !ids_cons; [by rewrite IH|].
  rewrite !app_assoc. by rewrite (Permutation_app_comm (if bool_decide (session_row_id y = EmptyString) then [] else _)).
Qed.
Lemma merge_rows_distinct seen rows : NoDup (seen ++ ids rows) → (merge_rows seen rows).2 = rows ∧ (merge_rows seen rows).1 ≡ₚ seen ++ ids rows.
Proof.
  revert seen. induction rows as [|row rows IH]; intros seen Hnd; [by rewrite app_nil_r|]. rewrite ids_cons in *. cbn [merge_rows].
  case_bool_decide as He; cbn [app] in *.
  - destruct (IH seen Hnd) as [-> ->]. done.
  - assert (session_row_id row ∉ seen) as Hn. { apply NoDup_app in Hnd as (_ & Hd & _). intros Hin. apply (Hd _ Hin). left. }
    rewrite bool_decide_false by done. destruct (IH (session_row_id row :: seen)) as [-> ->]; [|split; [done|apply Permutation_middle]].
    cbn. by rewrite Permutation_middle.
Qed.
Lemma merge_distinct seen (l : list Answer) sites : map an_Result l = map inr sites → NoDup (seen ++ ids (concat sites)) → merge_answers seen l = concat sites.
Proof.
  revert seen sites. induction l as [|a l IH]; intros seen [|rows sites] Hm Hnd; [done..|]. cbn [map concat merge_answers] in *. injection Hm as Ha Hm. rewrite Ha.
  rewrite ids_app, (app_assoc seen) in Hnd. destruct (merge_rows_distinct seen rows) as [-> Hp]; [by apply NoDup_app in Hnd as [? _]|]. f_equal. apply IH; [done|]. by rewrite Hp.
Qed.
Lemma concat_take_sublist {A} k (ls : list (list A)) : concat (map (take k) ls) `sublist_of` concat ls.
Proof. induction ls as [|l ls IH]; [done|]. cbn. apply sublist_app; [apply sublist_take|done]. Qed.

(** ** Pages *)

Lemma page_take limit offset rows : 0 < limit → 0 ≤ offset →
  page limit offset rows = drop (Z.to_nat offset) (take (Z.to_nat (limit + offset)) rows).
Proof.
  intros Hl Ho. unfold page. rewrite (proj2 (Z.ltb_lt 0 limit)) by done. cbn [andb].
  assert ((if 0 <? offset then drop (Z.to_nat offset) rows else rows) = drop (Z.to_nat offset) rows) as ->.
  { destruct (Z.ltb_spec 0 offset); [done|]. by replace offset with 0 by lia. }
  rewrite Z2Nat.inj_add, Nat.add_comm, <-take_drop_commute by lia. destruct (Z.ltb_spec limit (Z.of_nat (length (drop (Z.to_nat offset) rows)))); [done|].
  by rewrite take_ge by lia.
Qed.
Lemma page_of_cut limit offset ls : 0 < limit → 0 ≤ offset → Forall (StronglySorted (λ a b, row_le a b = true)) ls →
  page limit offset (sort_rows (concat (map (take (Z.to_nat (limit + offset))) ls))) = page limit offset (sort_rows (concat ls)).
Proof.
  intros Hl Ho Hs. rewrite !page_take by done. f_equal. symmetry. apply (take_cut_all row_le row_le_total row_le_trans _ []). done.
Qed.

(** ** The rows of a worker *)

Section node.
Context (mode : bool) (stat : string → option (bool * Z)) (sessionsDir : string) (E : Env).

(** The task of a session and the row that shows both. *)
Definition task_of (d : DB) (r : SessionRecord) : option TaskRecord :=
  if bool_decide (ss_TaskID r = EmptyString) then None else scanTaskRecord d <$> find_task (ss_TaskID r) d.
Definition finished_of (d : DB) (r : SessionRecord) : option Z :=
  match ss_ClosedAt r with Some t => Some t | None => task_of d r ≫= t_CompletedAt end.
Definition with_state (d : DB) (r : SessionRecord) (row : sessionListResponse) : sessionListResponse :=
  if bool_decide (sn_CurrentState row = EmptyString) then
    match scan_cache <$> db_cache d !! (ss_Repo r, ss_IssueNum r) with
    | Some cache => set_CurrentState (labelToState (currentLabel (decodeLabels (ic_Labels cache)))) row
    | None => row
    end
  else row.
Definition row_value (d : DB) (r : SessionRecord) : sessionListResponse :=
  with_degraded stat sessionsDir r (with_state d r (with_task r (task_of d r) (from_option t_ExitCode 0 (task_of d r)) (finished_of d r))).
Definition selected (p : SessionListFilter) (d : DB) : list SessionRecord :=
  if mode then []
  else reverse (List.filter (λ s, str_filter (TrimSpace (sl_Repo p)) (ss_Repo s) && str_filter (TrimSpace (sl_AgentName p)) (ss_AgentName s)
                  && negb ((0 <? sl_IssueNum p) && negb (ss_IssueNum s =? sl_IssueNum p))) (scanSessionRow d <$> db_sessions d)).

Hypothesis HE : quiet E.
Lemma reads_GetTask id : reads (GetTask E id) (λ d, match scanTaskRecord d <$> find_task id d with Some t => Ok t | None => Err ErrTaskNotFound end).
Proof.
  unfold GetTask. refine (reads_bind _ _ _ (λ r _, match r with Ok (Some t) => Ok t | Ok None => Err ErrTaskNotFound | Err e => Err (EWrap "store: get task" e) end) (reads_query E _ HE _) _); [done|].
  intros [[t|]|e]; apply reads_ret.
Qed.
Lemma reads_stats r : readsE (sessionTaskStats E r)
  (λ d, (from_option t_ExitCode 0 (task_of d r), from_option t_Status (ss_Status r) (task_of d r), finished_of d r)).
Proof.
  unfold sessionTaskStats, task_of, finished_of, task_of. case_bool_decide as Ht; [apply (reads_ext _ _ _ (reads_ret _)); intros d; by destruct (ss_ClosedAt r)|].
  refine (reads_ext _ _ _ (reads_bind _ _ _ (λ x _, match x with
    | Ok task => Ok (t_ExitCode task, t_Status task, match ss_ClosedAt r with Some t => Some t | None => t_CompletedAt task end)
    | Err ErrTaskNotFound => Ok (0, ss_Status r, ss_ClosedAt r)
    | Err e => Err (EWrap ("get task " +:+ ss_TaskID r) e) end) (reads_GetTask _) (λ x, reads_ret _)) _).
  intros d. cbv beta. destruct (scanTaskRecord d <$> find_task (ss_TaskID r) d) as [t|]; cbn; [done|]. by destruct (ss_ClosedAt r).
Qed.
Lemma reads_row r : readsE (session_row stat sessionsDir E r) (λ d, row_value d r).
Proof.
  unfold session_row. refine (reads_ext _ _ _ (reads_bindE _ _ _
    (λ x d, with_degraded stat sessionsDir r (with_state d r (with_task r (task_of d r) x.1.1 x.2))) (reads_stats r) _) _); [|done].
  intros [[code st] fin].
  refine (reads_bind _ (λ d, task_of d r) _ (λ task d, Ok (with_degraded stat sessionsDir r (with_state d r (with_task r task code fin)))) _ _).
  - unfold task_of. case_bool_decide; [apply reads_ret|].
    refine (reads_ext _ _ _ (reads_bind _ _ _ (λ x _, ok_of x) (reads_GetTask _) (λ x, reads_ret _)) _). intros d. by destruct (scanTaskRecord d <$> _).
  - intros task. set (row := with_task r task code fin).
    refine (reads_bind _ (λ d, with_state d r row) _ (λ row _, Ok (with_degraded stat sessionsDir r row)) _ (λ row, reads_ret _)).
    unfold with_state. case_bool_decide; [|apply reads_ret].
    refine (reads_ext _ _ _ (reads_bind _ _ _ (λ x _, match x with
      | Ok (Some cache) => set_CurrentState (labelToState (currentLabel (decodeLabels (ic_Labels cache)))) row | _ => row end)
      (reads_wrap _ _ _ (reads_query E _ HE _)) (λ x, reads_ret _)) _); [done|]. intros d. by destruct (scan_cache <$> _).
Qed.
Lemma reads_rows records : readsE (session_rows stat sessionsDir E records) (λ d, map (row_value d) records).
Proof.
  induction records as [|r records IH]; [exact (readsE_ret [])|]. cbn [session_rows map].
  refine (reads_bindE _ _ _ (λ row d, row :: map (row_value d) records) (reads_row r) _). intros row.
  refine (reads_bindE _ _ _ (λ rows _, row :: rows) IH _). intros rows. apply readsE_ret.
Qed.
Lemma reads_list p : 0 ≤ sl_Limit p → sl_Offset p = 0 →
  readsE (listSessions mode stat sessionsDir E p) (λ d, map (row_value d) (take (Z.to_nat (sl_Limit p)) (selected p d))).
Proof.
  intros Hl Ho. unfold listSessions. refine (reads_bindE _ (λ d, take (Z.to_nat (sl_Limit p)) (selected p d)) _ (λ l d, map (row_value d) l) _ reads_rows).
  apply reads_wrap. unfold ListSessionsForAPI, selected. destruct mode; [apply (reads_ext _ _ _ (readsE_ret [])); intros d; by rewrite take_nil|].
  apply reads_wrap. rewrite Ho. destruct (Z.ltb_spec (sl_Limit p) 0); [lia|]. split; [done|]. intros d. exists 1%nat. unfold session_query, session_sql. by rewrite sql_tx_quiet.
Qed.

(** *** What a listing depends on *)

Lemma handle_ext q q' : (∀ k, k ∈ listing_keys → query_get q k = query_get q' k) →
  handleAPISessions mode stat sessionsDir E "GET" q = handleAPISessions mode stat sessionsDir E "GET" q'.
Proof.
  intros Hq. unfold handleAPISessions, parseLimitOffset, query_number, issue_param.
  by rewrite (Hq "limit"), (Hq "offset"), (Hq "issue"), (Hq "repo"), (Hq "agent") by (repeat (try left; right)).
Qed.
(** The sessions a query asks for, and their rows. *)
Definition filter_of (q : Query) (issue : Z) (limit : Z) : SessionListFilter := mkSessionList (query_get q "repo") (query_get q "agent") issue limit 0.
Definition site_rows (q : Query) (issue : Z) (d : DB) : list Row := map (λ r, row_json (row_value d r)) (selected (filter_of q issue 0) d).
Lemma handle_value q issue limit d : 0 ≤ limit → parseLimitOffset q = inr (limit, 0) → issue_param q = Some issue →
  (handleAPISessions mode stat sessionsDir E "GET" q d).1 = writeJSON 200 (JArr (map JObj (take (Z.to_nat limit) (site_rows q issue d)))).
Proof.
  intros Hl Hp Hi. unfold handleAPISessions. rewrite Hp, Hi. change (negb (bool_decide ("GET" = "GET"))) with false. cbv iota.
  destruct (reads_list (filter_of q issue limit) Hl eq_refl) as [_ Hr]. destruct (Hr d) as [n Hn]. unfold mbind, St_bind.
  change (mkSessionList (query_get q "repo") (query_get q "agent") issue limit 0) with (filter_of q issue limit). rewrite Hn. cbn [fst snd mret St_ret].
  unfold site_rows. rewrite firstn_map, !map_map. done.
Qed.
End node.

(** ** The query the workers get *)

Section query.
Context (q : Query).
Definition limit_of : Z := parseIntOr (firstQueryValue q "limit") 0.
Definition offset_of : Z := parseIntOr (firstQueryValue q "offset") 0.

Lemma query_set_same k v (q' : Query) : query_get (set_key k v q') k = v.
Proof.
  unfold set_key, query_get. assert (assoc (List.filter (λ kv : string * list string, negb (bool_decide (kv.1 = k))) q' ++ [(k, [v])]) k = Some [v]) as ->; [|done].
  induction q' as [|[k' v'] q' IH]; cbn; [by rewrite bool_decide_true|]. case_bool_decide as Hk; cbn; [done|]. by rewrite bool_decide_false by congruence.
Qed.
Lemma query_set_other k k' v (q' : Query) : k ≠ k' → query_get (set_key k v q') k' = query_get q' k'.
Proof.
  intros Hne. unfold set_key, query_get. assert (assoc (List.filter (λ kv : string * list string, negb (bool_decide (kv.1 = k))) q' ++ [(k, [v])]) k' = assoc q' k') as ->; [|done].
  induction q' as [|[x v'] q' IH]; cbn; [by rewrite bool_decide_false by congruence|].
  case_bool_decide as Hk; cbn; [subst; by rewrite (bool_decide_false (k' = k)) by congruence|]. by destruct (bool_decide (k' = x)).
Qed.
Lemma offset_nonneg : 0 ≤ offset_of.
Proof. unfold offset_of, parseIntOr. case_bool_decide; [done|]. destruct (atoi _) as [v|]; [|done]. destruct (Z.ltb_spec v 0); [done|lia]. Qed.
Lemma itoa_graphic z : all_str graphic (itoa z) = true.
Proof.
  eapply all_str_mono; [|apply itoa_bytes]. intros c Hc.
  pose proof (char_cases (λ c, negb (is_digit c || byte_is c 45) || graphic c) ltac:(by vm_compute) c) as H. cbv beta in H. by rewrite Hc in H.
Qed.
Hypothesis Hlimit : 0 < limit_of.
Hypothesis Hfit : limit_of + offset_of < 2 ^ 63.
Lemma downstream_value : downstream q = set_key "limit" (itoa (limit_of + offset_of)) (set_key "offset" "0" q).
Proof.
  unfold downstream. fold limit_of offset_of. rewrite (proj2 (Z.ltb_lt 0 limit_of)) by done. pose proof offset_nonneg.
  unfold int64. by rewrite Z.mod_small, Z.add_simpl_r by lia.
Qed.
Lemma downstream_limit : parseLimitOffset (downstream q) = inr (limit_of + offset_of, 0).
Proof.
  rewrite downstream_value. pose proof offset_nonneg. unfold parseLimitOffset, query_number.
  rewrite query_set_same, (query_set_other "limit" "offset"), query_set_same by done. rewrite TrimSpace_graphic by apply itoa_graphic.
  assert (atoi (itoa (limit_of + offset_of)) = Some (limit_of + offset_of)) as Ha by (apply atoi_itoa; unfold int64_ok; lia).
  rewrite bool_decide_false by (intros He; by rewrite He in Ha). rewrite Ha. destruct (Z.ltb_spec (limit_of + offset_of) 0); [lia|]. done.
Qed.
Lemma downstream_key k : k ≠ "limit" → k ≠ "offset" → query_get (downstream q) k = query_get q k.
Proof. intros H1 H2. by rewrite downstream_value, !query_set_other by congruence. Qed.
End query.

(** The values survive the way to the worker. *)
Lemma listing_assoc q k : k ∈ listing_keys → default EmptyString (assoc (listing_values q) k) = query_get q k.
Proof.
  intros Hk. unfold listing_values.
  assert (∀ l, k ∈ l → default EmptyString (assoc (omap (λ key, let v := query_get q key in if bool_decide (v = EmptyString) then None else Some (key, v)) l) k) = query_get q k) as H; [|by apply H].
  induction l as [|x l IH]; [by intros ?%elem_of_nil|]. intros Hin. cbn. destruct (decide (k = x)) as [<-|Hne].
  - case_bool_decide as He; [|cbn; by rewrite bool_decide_true]. rewrite He. clear -He.
    induction l as [|y l IH]; [done|]. cbn. case_bool_decide; [done|]. cbn. rewrite bool_decide_false; [done|]. by intros <-.
  - apply elem_of_cons in Hin as [|Hin]; [done|]. case_bool_decide; [by apply IH|]. cbn. rewrite bool_decide_false by done. by apply IH.
Qed.
Lemma listing_keys_distinct q : NoDup (listing_values q).*1.
Proof.
  assert ((listing_values q).*1 `sublist_of` listing_keys) as H; [|eapply sublist_NoDup; [|exact H]; apply (bool_decide_unpack _); by vm_compute].
  unfold listing_values. generalize listing_keys as l. induction l as [|x l IH]; [done|]. cbn. case_bool_decide; cbn; by constructor.
Qed.
Lemma encoded_read q k : k ∈ listing_keys → query_get (ParseQuery (encoded_query q)) k = query_get q k.
Proof. intros Hk. unfold encoded_query. rewrite Encode_parse by apply listing_keys_distinct. by apply listing_assoc. Qed.
Definition plain_values (q : Query) : Prop := ∀ k, k ∈ listing_keys → all_str plain (query_get q k) = true.
Lemma listing_values_in q k v : (k, v) ∈ listing_values q → k ∈ listing_keys ∧ v = query_get q k.
Proof. unfold listing_values. intros (x & Hx & Hin)%list_elem_of_omap. cbn in Hin. case_bool_decide; [done|]. by injection Hin as -> <-. Qed.
Lemma listing_key_bytes k : k ∈ listing_keys → all_str plain k = true ∧ all_str key_byte k = true.
Proof.
  intros Hk. assert (Forall (λ k, all_str plain k = true ∧ all_str key_byte k = true) listing_keys) as H by (repeat (constructor; [by vm_compute|]); constructor).
  rewrite Forall_forall in H. by apply H.
Qed.
Lemma raw_readable q : plain_values q → Forall (readable id) (listing_values q).
Proof.
  intros Hp. apply Forall_forall. intros [k v] [Hk ->]%listing_values_in. destruct (listing_key_bytes k Hk) as [Hkp Hkb].
  apply plain_readable; [done|done|by apply Hp].
Qed.
Lemma raw_read q k : plain_values q → k ∈ listing_keys → query_get (ParseQuery (raw_query q)) k = query_get q k.
Proof.
  intros Hp Hk. rewrite query_get_parse. change (raw_query q) with (join_str "&" (map (pair_text id) (listing_values q))).
  rewrite query_pairs_text by by apply raw_readable. by apply listing_assoc.
Qed.
Lemma join_bytes (P : ascii → bool) l : P "&"%char = true → Forall (λ t, all_str P t = true) l → all_str P (join_str "&" l) = true.
Proof.
  intros Hs Hl. induction Hl as [|x l Hx Hl IH]; [done|]. destruct l as [|y l]; [done|].
  change (join_str "&" (x :: y :: l)) with (x +:+ "&" +:+ join_str "&" (y :: l)). rewrite !all_str_app, Hx, IH. cbn. by rewrite Hs.
Qed.
Definition no_hash (c : ascii) : bool := negb (Ascii.eqb "#" c).
Definition no_mark (c : ascii) : bool := negb (Ascii.eqb "?" c).
Lemma encoded_no_hash q : all_str no_hash (encoded_query q) = true.
Proof.
  unfold encoded_query, Encode. apply join_bytes; [done|]. apply Forall_forall. intros t (kv & -> & _)%list_elem_of_fmap.
  assert (∀ s, all_str no_hash (QueryEscape s) = true) as H.
  { intros s. eapply all_str_mono; [|apply QueryEscape_bytes]. intros c Hc.
    pose proof (char_cases (λ c, negb (escaped c) || no_hash c) ltac:(by vm_compute) c) as H. cbv beta in H. by rewrite Hc in H. }
  by rewrite !all_str_app, !H.
Qed.
Lemma plain_no_hash s : all_str plain s = true → all_str no_hash s = true.
Proof.
  apply all_str_mono. intros c Hc. pose proof (char_cases (λ c, negb (plain c) || no_hash c) ltac:(by vm_compute) c) as H. cbv beta in H. by rewrite Hc in H.
Qed.
Lemma raw_no_hash q : plain_values q → all_str no_hash (raw_query q) = true.
Proof.
  intros Hp. unfold raw_query. apply join_bytes; [done|]. apply Forall_forall. intros t ([k v] & -> & [Hk ->]%listing_values_in)%list_elem_of_fmap.
  cbn [fst snd]. rewrite !all_str_app, (plain_no_hash k), (plain_no_hash (query_get q k)); [done|by apply Hp|by apply listing_key_bytes].
Qed.
Lemma url_query_with base query : all_str no_hash base = true → all_str no_mark base = true → all_str no_hash query = true →
  url_query (with_query base query) = query.
Proof.
  intros Hb Hm Hq. unfold with_query, url_query. case_bool_decide as He.
  - rewrite (cut_byte_none "#" base) by done. cbn [fst]. by rewrite (cut_byte_none "?").
  - change ("?" +:+ query) with (String "?" query). rewrite (cut_byte_none "#").
    + cbn [fst]. by rewrite cut_byte_app.
    + change (all_str no_hash (base +:+ String "?" query) = true). rewrite all_str_app, Hb. done.
Qed.

(** ** The body of an answer *)

Lemma as_rows_objects rows : as_rows (JArr (map JObj rows)) = Some rows.
Proof. unfold as_rows. induction rows as [|r rows IH]; [done|]. cbn. by rewrite IH. Qed.
Lemma row_json_flat r : Forall (λ kv, height kv.2 = 0%N) (row_json r).
Proof.
  assert (∀ k v, Forall (λ kv : string * json, height kv.2 = 0%N) (str_opt k v)) as Hs by (intros; unfold str_opt; case_bool_decide; by repeat constructor).
  assert (∀ k v, Forall (λ kv : string * json, height kv.2 = 0%N) (int_opt k v)) as Hi by (intros; unfold int_opt; destruct (_ =? _); by repeat constructor).
  unfold row_json. repeat apply Forall_app_2; try apply Hs; try apply Hi; try (by repeat constructor); [|by destruct (sn_Degraded r); repeat constructor].
  repeat constructor. cbn. by destruct (sn_FinishedAt r).
Qed.
Lemma rows_height rows : Forall (λ row : Row, Forall (λ kv, height kv.2 = 0%N) row) rows → (height (JArr (map JObj rows)) ≤ 2)%N.
Proof.
  intros Hr. cbn [height]. assert (foldr (λ v n, N.max (height v) n) 0%N (map JObj rows) ≤ 1)%N; [|lia].
  induction Hr as [|row rows Hrow _ IH]; [done|]. cbn [map foldr]. apply N.max_lub; [|done]. cbn [height].
  assert (foldr (λ (kv : string * json) n, N.max (height kv.2) n) 0%N row = 0%N) as ->; [|done].
  induction Hrow as [|kv row Hkv _ IH']; [done|]. cbn [foldr]. by rewrite Hkv, IH'.
Qed.
Definition rows_ok (rows : list Row) : Prop := Forall (λ row, json_ok (JObj row) = true ∧ Forall (λ kv, height kv.2 = 0%N) row) rows.
Lemma rows_ok_json rows : rows_ok rows → json_ok (JArr (map JObj rows)) = true ∧ (height (JArr (map JObj rows)) ≤ 2)%N.
Proof.
  intros Hr. split; [|apply rows_height; eapply Forall_impl; [exact Hr|]; by intros row [_ ?]].
  change (forallb json_ok (map JObj rows) = true). induction Hr as [|row rows [Hrow _] _ IH]; [done|]. cbn [map forallb]. by rewrite Hrow.
Qed.
Lemma parse_body rows n : rows_ok rows → (String.length (print_json (JArr (map JObj rows))) ≤ n)%nat →
  parse_val n 0 (print_json (JArr (map JObj rows)) +:+ LF) = Some (JArr (map JObj rows), LF).
Proof.
  intros [Hj Hh]%rows_ok_json Hn. apply parse_print_n; [done| |unfold maxNestingDepth; lia|done]. pose proof (need_length _ Hj). lia.
Qed.
Lemma length_body v : String.length (print_json v +:+ LF) = S (String.length (print_json v)).
Proof. rewrite length_app_str. change (String.length LF) with 1%nat. lia. Qed.
Lemma decode_body rows : rows_ok rows → decode_first (print_json (JArr (map JObj rows)) +:+ LF) = Some rows.
Proof. intros Hr. unfold decode_first. rewrite parse_body by (done || rewrite length_body; lia). cbn [mbind option_bind fst]. apply as_rows_objects. Qed.
Lemma decode_local rows : rows_ok rows → parse_json (print_json (JArr (map JObj rows)) +:+ LF) ≫= as_rows = Some rows.
Proof.
  intros Hr. unfold parse_json. rewrite parse_body by (done || rewrite length_body; lia). cbn [mbind option_bind].
  change (skip_ws LF) with EmptyString. rewrite bool_decide_true by done. cbn [mbind option_bind]. apply as_rows_objects.
Qed.
Lemma body_not_blank l : TrimSpace (print_json (JArr l) +:+ LF) ≠ EmptyString.
Proof.
  cbn [print_json]. set (m := join_str "," (map print_json l)). unfold TrimSpace.
  rewrite (trim_front_id _ space_front) by exact (space_front_graphic "[" ((m +:+ str1 "]") +:+ LF) eq_refl).
  assert (rev_str ((str1 "[" +:+ m +:+ str1 "]") +:+ LF) EmptyString = String (chr 10) (String "]" (rev_str (str1 "[" +:+ m) EmptyString))) as ->.
  { unfold LF. rewrite rev_str_snoc. f_equal. rewrite <-app_str_assoc. apply rev_str_snoc. }
  set (y := rev_str (str1 "[" +:+ m) EmptyString). change (rev_str (trim_front (S (String.length y)) space_back (String "]" y)) EmptyString ≠ EmptyString).
  rewrite trim_front_id by by apply space_back_graphic. rewrite rev_str_cons. by destruct (rev_str y EmptyString).
Qed.

(** ** Rows in the order of creation *)

Lemma row_get_app a b k : row_get (a ++ b) k = match row_get b k with Some v => Some v | None => row_get a k end.
Proof.
  unfold row_get. rewrite reverse_app. generalize (reverse b) as l. induction l as [|[x v] l IH]; [done|]. cbn. by case_bool_decide.
Qed.
Lemma row_get_str_opt k x v : k ≠ x → row_get (str_opt x v) k = None.
Proof. intros Hne. unfold str_opt. case_bool_decide; [done|]. cbn. by rewrite bool_decide_false. Qed.
Lemma row_get_int_opt k x v : k ≠ x → row_get (int_opt x v) k = None.
Proof. intros Hne. unfold int_opt. destruct (v =? 0); [done|]. cbn. by rewrite bool_decide_false. Qed.
Lemma row_id r : session_row_id (row_json r) = sn_SessionID r.
Proof.
  unfold session_row_id, row_json. rewrite !row_get_app, !row_get_str_opt, !row_get_int_opt by done. by destruct (sn_Degraded r).
Qed.
Lemma row_created r : rowCreatedAt (row_json r) = match sn_CreatedAt r with Some t => default zero_time (parse_rfc3339 (RFC3339Nano t)) | None => zero_time end.
Proof.
  unfold rowCreatedAt, row_json. rewrite !row_get_app, !row_get_str_opt, !row_get_int_opt by done. destruct (sn_Degraded r); cbn; by destruct (sn_CreatedAt r).
Qed.
Lemma row_value_fields stat dir d r : sn_SessionID (row_value stat dir d r) = ss_SessionID r ∧ sn_CreatedAt (row_value stat dir d r) = ss_CreatedAt r.
Proof.
  unfold row_value, with_degraded, with_state. repeat (case_match || case_bool_decide); done.
Qed.

(** The store stamps sessions with the second of their creation, one after the other. *)
Definition created_before (a b : SessionRecord) : Prop :=
  ∃ s t, ss_CreatedAt a = Some (s * second) ∧ ss_CreatedAt b = Some (t * second) ∧ 0 ≤ s ∧ s ≤ t ∧ t ≤ last_second.
Definition dated (d : DB) : Prop := StronglySorted created_before (db_sessions d).
Lemma sorted_filter {A} (R : relation A) (p : A → bool) l : StronglySorted R l → StronglySorted R (List.filter p l).
Proof.
  induction 1 as [|x l _ IH Hx]; [constructor|]. cbn. destruct (p x); [|done]. constructor; [done|]. rewrite Forall_forall in *. intros y Hy. apply Hx.
  apply list_elem_of_In in Hy. apply list_elem_of_In. by apply filter_In in Hy as [? _].
Qed.
Lemma sorted_reverse {A} (R : relation A) l : StronglySorted R l → StronglySorted (flip R) (reverse l).
Proof.
  induction 1 as [|x l _ IH Hx]; [constructor|]. rewrite reverse_cons. apply StronglySorted_app_2; [|done|by repeat constructor].
  intros a b Ha ->%list_elem_of_singleton. rewrite Forall_forall in Hx. apply Hx. by rewrite elem_of_reverse in Ha.
Qed.
Lemma created_seconds stat dir d r s : ss_CreatedAt r = Some (s * second) → 0 ≤ s ≤ last_second → rowCreatedAt (row_json (row_value stat dir d r)) = s * second.
Proof. intros Hr Hs. rewrite row_created. rewrite (proj2 (row_value_fields stat dir d r)), Hr. by rewrite rfc3339nano_read by (by rewrite Z.div_mul). Qed.
Lemma site_sorted mode stat dir q issue d : dated d → StronglySorted (λ a b, row_le a b = true) (site_rows mode stat dir q issue d).
Proof.
  intros Hd. unfold site_rows, selected. destruct mode; [constructor|]. apply (StronglySorted_fmap _ (flip created_before)).
  - intros a b (s & t & Ha & Hb & H0 & Hst & Ht). unfold row_le. rewrite (created_seconds _ _ _ a t), (created_seconds _ _ _ b s) by (done || lia).
    apply negb_true_iff, Z.ltb_ge. unfold second. lia.
  - apply sorted_reverse, sorted_filter. revert Hd. unfold dated. apply StronglySorted_fmap. done.
Qed.

(** ** The page of all sessions *)

Section fanout.
Context (url_host : string → option string) (loopback : string → bool) (json_error : string → string).
Context (stat : string → option (bool * Z)) (sessionsDir : string) (E : Env) (h : Handler) (lmode : bool) (here : DB) (node : string → DB).

(** The answer of a worker, or of the local handler, to a request for the listing. *)
Definition serve (mode : bool) (d : DB) (url : string) : Resp := (handleAPISessions mode stat sessionsDir E "GET" (ParseQuery (url_query url)) d).1.
(** The rows of every site that a fan-out asks. *)
Definition sites (q : Query) (issue : Z) (plan : list (string * Route)) : list (list Row) :=
  omap (λ w, match w.2 with RouteTunnel _ | RouteAudit _ _ => Some (site_rows false stat sessionsDir q issue (node w.1)) | _ => None end) plan
  ++ match served_here plan with [] => [] | _ => [site_rows lmode stat sessionsDir q issue here] end.
Definition plan_of (q : Query) (workers : list WorkerRecord) : list (string * Route) :=
  map (λ w, (w_ID w, route_of url_host loopback h (downstream q) w)) workers.

Context (q : Query) (issue : Z) (net : Net).
Definition cut_at : nat := Z.to_nat (limit_of q + offset_of q).
Hypothesis HE : quiet E.
Hypothesis Hlimit : 0 < limit_of q.
Hypothesis Hfit : limit_of q + offset_of q < 2 ^ 63.
Hypothesis Hissue : issue_param q = Some issue.
Lemma serve_value mode d url : (∀ k, k ∈ listing_keys → query_get (ParseQuery (url_query url)) k = query_get (downstream q) k) →
  serve mode d url = writeJSON 200 (JArr (map JObj (take cut_at (site_rows mode stat sessionsDir q issue d)))).
Proof.
  intros Hu. unfold serve. rewrite (handle_ext mode stat sessionsDir E _ (downstream q) Hu).
  rewrite (handle_value mode stat sessionsDir E HE (downstream q) issue (limit_of q + offset_of q)).
  - unfold site_rows, filter_of. by rewrite !(downstream_key q Hlimit Hfit) by done.
  - pose proof (offset_nonneg q). lia.
  - by apply downstream_limit.
  - unfold issue_param. by rewrite (downstream_key q Hlimit Hfit) by done.
Qed.
Lemma rows_ok_take k rows : rows_ok rows → rows_ok (take k rows).
Proof. apply Forall_take. Qed.
Lemma fetched_value w mode d url : (∀ k, k ∈ listing_keys → query_get (ParseQuery (url_query url)) k = query_get (downstream q) k) →
  rows_ok (site_rows mode stat sessionsDir q issue d) →
  fetch_rows json_error w (Answered (serve mode d url)) = inr (take cut_at (site_rows mode stat sessionsDir q issue d)).
Proof. intros Hu Hok. unfold fetch_rows, rows_of. rewrite serve_value by done. cbn [rs_Status rs_Body writeJSON]. by rewrite Z.eqb_refl, decode_body by by apply rows_ok_take. Qed.

Hypothesis Hplain : ∀ k, k ∈ ["repo"; "agent"; "issue"] → all_str plain (query_get q k) = true.
Hypothesis Hsend : ∀ rq, nt_send net rq = Answered (serve false (node (rq_Worker rq)) (rq_URL rq)).
Hypothesis Htunnels : hd_tunnels h = true.
Hypothesis Hlocal : hd_local h = Some (serve lmode here).
Lemma downstream_plain : plain_values (downstream q).
Proof.
  intros k Hk. rewrite (downstream_value q Hlimit Hfit).
  assert (k = "limit" ∨ k = "offset" ∨ k ∈ ["repo"; "agent"; "issue"]) as [->|[->|Hk']].
  { unfold listing_keys in Hk. rewrite !elem_of_cons in *. naive_solver. }
  - rewrite query_set_same. eapply all_str_mono; [|apply itoa_bytes]. intros c Hc.
    pose proof (char_cases (λ c, negb (is_digit c || byte_is c 45) || plain c) ltac:(by vm_compute) c) as H. cbv beta in H. by rewrite Hc in H.
  - by rewrite query_set_other, query_set_same.
  - assert (k ≠ "limit" ∧ k ≠ "offset") as [H1 H2] by (rewrite !elem_of_cons, elem_of_nil in Hk'; naive_solver).
    rewrite !query_set_other by congruence. by apply Hplain.
Qed.
(** A worker's address has neither a query nor a fragment. *)
Definition url_ok (w : WorkerRecord) : Prop := all_str no_hash (audit_base w) = true ∧ all_str no_mark (audit_base w) = true.
Definition remote (w : string * Route) : option (list Row) :=
  match w.2 with RouteTunnel _ | RouteAudit _ _ => Some (site_rows false stat sessionsDir q issue (node w.1)) | _ => None end.
Lemma asked_value w : url_ok w → let x := (w_ID w, route_of url_host loopback h (downstream q) w) in
  from_option rows_ok True (remote x) → an_Result <$> asked json_error h (nt_send net) x = (λ rows, inr (take cut_at rows)) <$> remote x.
Proof.
  intros [Hh Hm]. unfold remote, asked, route_of. destruct (connected _ _); [|case_bool_decide; [done|]; destruct (IsLocalAuditURL _ _ _ _); [done|]]; cbn [fst snd from_option fmap option_fmap option_map an_Result]; intros Hok.
  - unfold fetchTunnelListing. rewrite Htunnels. cbn [negb]. rewrite Hsend. cbn [rq_Worker rq_URL]. rewrite fetched_value; [done| |done].
    intros k Hk. rewrite url_query_with by (done || apply encoded_no_hash). by apply encoded_read.
  - unfold fetchWorkerListing. rewrite Hsend. cbn [rq_Worker rq_URL]. rewrite fetched_value; [done| |done].
    intros k Hk. rewrite url_query_with; [apply raw_read; [apply downstream_plain|done]| | |apply raw_no_hash, downstream_plain].
    + by rewrite all_str_app, Hh.
    + by rewrite all_str_app, Hm.
Qed.
Lemma asked_values ws : Forall url_ok ws → Forall rows_ok (omap remote (plan_of q ws)) →
  map an_Result (omap (asked json_error h (nt_send net)) (plan_of q ws)) = map (λ rows, inr (take cut_at rows)) (omap remote (plan_of q ws)).
Proof.
  induction 1 as [|w ws Hw _ IH]; [done|]. cbn [plan_of map omap list_omap]. fold (plan_of q ws). intros Hok. pose proof (asked_value w Hw) as Ha. cbv zeta in Ha.
  destruct (remote _) as [rows|]; cbn in Ha, Hok.
  - apply Forall_cons in Hok as [Hr Hok]. specialize (Ha Hr). destruct (asked _ _ _ _) as [a|]; [|done]. injection Ha as Ha. cbn [map]. rewrite Ha. by rewrite <-IH.
  - specialize (Ha I). destruct (asked _ _ _ _); [done|]. by apply IH.
Qed.
Lemma local_value : rows_ok (site_rows lmode stat sessionsDir q issue here) →
  fetchLocalListing json_error (serve lmode here) (downstream q) = inr (take cut_at (site_rows lmode stat sessionsDir q issue here)).
Proof.
  intros Hok. unfold fetchLocalListing, rows_of. rewrite serve_value.
  - cbn [rs_Status rs_Body writeJSON]. rewrite Z.eqb_refl, bool_decide_false by apply body_not_blank. by rewrite decode_local by by apply rows_ok_take.
  - intros k Hk. rewrite url_query_with by (done || apply encoded_no_hash). by apply encoded_read.
Qed.
Lemma answers_value ws : Forall url_ok ws → Forall rows_ok (sites q issue (plan_of q ws)) →
  map an_Result (answers json_error h (nt_send net) (downstream q) (plan_of q ws)) = map inr (map (take cut_at) (sites q issue (plan_of q ws))).
Proof.
  intros Hw. unfold sites, answers. fold remote. intros [Hr Hl]%Forall_app. rewrite !map_app, asked_values by done. rewrite map_map. f_equal.
  rewrite Hlocal. destruct (served_here _) as [|[id rt] l]; [done|]. apply Forall_cons in Hl as [Hl _]. cbn [map an_Result]. by rewrite local_value.
Qed.
Lemma no_offline l rs : map an_Result l = map inr rs → offline_of l = [].
Proof.
  revert rs. induction l as [|a l IH]; intros [|r rs] H; [done..|]. cbn [map] in H. injection H as Ha H. unfold offline_of. cbn [omap list_omap]. rewrite Ha. by eapply IH.
Qed.
Lemma site_rows_flat mode d : Forall (λ row, json_ok (JObj row) = true) (site_rows mode stat sessionsDir q issue d) → rows_ok (site_rows mode stat sessionsDir q issue d).
Proof.
  unfold rows_ok. rewrite !Forall_forall. intros Hj row Hrow. split; [by apply Hj|]. unfold site_rows in Hrow.
  apply list_elem_of_fmap in Hrow as (r & -> & _). apply row_json_flat.
Qed.
Definition is_site (ws : list WorkerRecord) (rows : list Row) : Prop :=
  (∃ w, w ∈ ws ∧ rows = site_rows false stat sessionsDir q issue (node (w_ID w))) ∨ rows = site_rows lmode stat sessionsDir q issue here.
Lemma sites_are ws : Forall (is_site ws) (sites q issue (plan_of q ws)).
Proof.
  unfold sites. fold remote. apply Forall_app. split.
  - apply Forall_forall. intros rows (x & (w & -> & Hw)%list_elem_of_fmap & Hx)%list_elem_of_omap. left. exists w. split; [done|].
    unfold remote in Hx. cbn [fst snd] in Hx. destruct (route_of _ _ _ _ _); by simplify_eq.
  - destruct (served_here _); [constructor|]. constructor; [by right|constructor].
Qed.
(** The cache after a complete answer. *)
Lemma cached_listing s rows done net' : nt_now net' ≤ done + hd_cacheTTL h →
  px_listings s !! cache_key q = Some (mkListing rows (done + hd_cacheTTL h) []) →
  (fanOutListing url_host loopback E json_error h net' q s).1 = Ok (rows, [], true).
Proof.
  intros Hn Hc. unfold fanOutListing, mbind, St_bind, on_listings, cacheGet. rewrite Hc. cbn [ls_expiresAt ls_rows ls_offline fst snd].
  destruct (Z.ltb_spec (done + hd_cacheTTL h) (nt_now net')); [lia|]. done.
Qed.
Lemma fanout_run s workers : (cacheGet (nt_now net) (cache_key q) (px_listings s)).1 = None →
  (CandidateWorkers E (firstQueryValue q "repo") (px_db s)).1 = Ok workers →
  let arrivals := nt_order net (answers json_error h (nt_send net) (downstream q) (plan_of q workers)) in
  let rows := page (limit_of q) (offset_of q) (sort_rows (merge_answers [] arrivals)) in
  offline_of arrivals = [] →
  let r := fanOutListing url_host loopback E json_error h net q s in
  r.1 = Ok (rows, [], false) ∧ px_listings r.2 !! cache_key q = Some (mkListing rows (nt_done net + hd_cacheTTL h) []).
Proof.
  cbv zeta. intros Hm Hw Ho. unfold fanOutListing, mbind, St_bind, bindE, on_listings, on_px_db. unfold mbind, St_bind.
  destruct (cacheGet _ _ _) as [hit l]. cbn [fst snd] in *. subst hit. cbn [px_db px_listings px_events].
  destruct (CandidateWorkers _ _ _) as [[ws|e] d]; cbn [fst snd] in *; [|done]. injection Hw as ->.
  fold (plan_of q workers). rewrite Ho. change (sort_strings []) with (@nil string). fold (limit_of q) (offset_of q).
  unfold emit, cacheSet, modS. destruct (hd_emit h); cbn; split; try done; apply lookup_insert_eq.
Qed.

End fanout.

(** ** Evaluated *)

Definition proxy_env : Env := mkEnv 0 (λ _, None) (λ _, EmptyString).
Definition proxy_session (id worker : string) (created : Z) : SessionRecord :=
  mkSession 0 id EmptyString "o/r" 7 "dev" "codex" worker 1 "running" EmptyString EmptyString EmptyString EmptyString EmptyString EmptyString EmptyString
    (Some (created * second)) None.
Definition site_db (worker : string) (l : list (string * Z)) : DB := upd_db_sessions (λ _, map (λ x, proxy_session x.1 worker x.2) l) empty_db.
(** Three workers: one with a tunnel, one with an address, one with neither. *)
Definition proxy_worker (id audit : string) : WorkerRecord :=
  mkWorker id "o/r" EmptyString EmptyString EmptyString EmptyString EmptyString audit false "online" None None.
Definition proxy_workers : list WorkerRecord := [proxy_worker "a" EmptyString; proxy_worker "b" "http://b:1"; proxy_worker "c" EmptyString].
Definition proxy_nodes (id : string) : DB :=
  if bool_decide (id = "a") then site_db "a" [("a1", 10); ("a2", 40); ("a3", 70)] else site_db "b" [("b1", 20); ("b2", 60)].
Definition proxy_here : DB := site_db "c" [("c1", 50)].
Definition proxy_stat : string → option (bool * Z) := λ _, None.
Definition proxy_handler : Handler :=
  NewHandler (mkHandlerConfig NewResolver (Some (serve proxy_stat EmptyString proxy_env false proxy_here)) "token" 0 (Some (Some (λ w, bool_decide (w = "a")))) None true).
Definition proxy_net (now : Z) : Net :=
  mkNet (λ rq, Answered (serve proxy_stat EmptyString proxy_env false (proxy_nodes (rq_Worker rq)) (rq_URL rq))) (@rev _) now now.
Definition proxy_state : Proxy := mkProxy (upd_db_workers (λ _, list_to_map (map (λ w, (w_ID w, w)) proxy_workers)) empty_db) ∅ [].
Definition proxy_list (now : Z) (q : Query) : St Proxy (res (list Row * list string * bool)) :=
  fanOutListing (λ _, None) (λ _, false) proxy_env (λ _, "bad json") proxy_handler (proxy_net now) q.
Definition page_query : Query := [("repo", ["o/r"]); ("limit", ["2"]); ("offset", ["1"])].
Definition listed (r : res (list Row * list string * bool)) : list string * list string :=
  match r with Ok (rows, offline, _) => (map session_row_id rows, offline) | Err _ => ([], []) end.
Example proxy_page : listed (proxy_list 0 page_query proxy_state).1 = (["b2"; "c1"], []).
Proof. vm_compute. reflexivity. Qed.

(** Sessions in the order of their seconds are dated. *)
Lemma site_db_dated worker l : StronglySorted Z.le l.*2 → Forall (λ x, 0 ≤ x.2 ≤ last_second) l → dated (site_db worker l).
Proof.
  unfold dated, site_db. cbn [db_sessions upd_db_sessions]. induction l as [|x l IH]; intros Hs Hb; [constructor|]. cbn in *.
  apply StronglySorted_inv in Hs as [Hs Hx]. apply Forall_cons in Hb as [Hb Hbs]. constructor; [by apply IH|].
  apply Forall_forall. intros y (z & -> & Hz)%list_elem_of_fmap. pose proof (proj1 (Forall_forall _ _) Hbs z Hz) as Hzb. cbv beta in Hzb.
  exists x.2, z.2. split_and!; [done|done|lia| |lia]. apply (proj1 (Forall_forall _ _) Hx). by apply list_elem_of_fmap_2.
Qed.
Ltac dated_site := apply site_db_dated; [apply (bool_decide_unpack _); vm_compute; exact I|repeat constructor; vm_compute; discriminate].
Lemma dated_here : dated proxy_here.
Proof. dated_site. Qed.
Lemma dated_node id : dated (proxy_nodes id).
Proof. unfold proxy_nodes. case_bool_decide; dated_site. Qed.
Definition proxy_sites : list (list Row) :=
  sites proxy_stat EmptyString false proxy_here proxy_nodes page_query 0 (plan_of (λ _, None) (λ _, false) proxy_handler page_query proxy_workers).
Lemma proxy_candidates : (CandidateWorkers proxy_env (firstQueryValue page_query "repo") (px_db proxy_state)).1 = Ok proxy_workers.
Proof. vm_compute. reflexivity. Qed.
Lemma proxy_plain k : k ∈ ["repo"; "agent"; "issue"] → all_str plain (query_get page_query k) = true.
Proof. intros Hk. repeat (apply elem_of_cons in Hk as [->|Hk]; [vm_compute; reflexivity|]). by apply elem_of_nil in Hk. Qed.
Lemma proxy_urls : Forall url_ok proxy_workers.
Proof. repeat constructor. Qed.
Lemma proxy_json : Forall (Forall (λ row, json_ok (JObj row) = true)) proxy_sites.
Proof.
  assert (forallb (forallb (λ row, json_ok (JObj row))) proxy_sites = true) as H by (vm_compute; reflexivity).
  apply Forall_forall. intros rows Hr. apply Forall_forall. intros row Hrow. rewrite forallb_forall in H. specialize (H rows ltac:(by apply list_elem_of_In)).
  rewrite forallb_forall in H. apply H. by apply list_elem_of_In.
Qed.
Lemma proxy_distinct : NoDup (ids (concat proxy_sites)).
Proof. apply (bool_decide_unpack _). vm_compute. exact I. Qed.
Lemma proxy_order (l : list Answer) : nt_order (proxy_net 0) l ≡ₚ l.
Proof. symmetry. apply Permutation_rev. Qed.
Lemma proxy_limit : 0 < limit_of page_query ∧ limit_of page_query + offset_of page_query < 2 ^ 63 ∧ issue_param page_query = Some 0.
Proof. vm_compute. done. Qed.

(** An offset without a limit: a worker is asked for its default of 50 rows, and what a
    single worker answers is cut off entirely. *)
Lemma offset_without_limit_is_empty :
  parseLimitOffset (downstream [("offset", ["50"])]) = inr (50, 0) ∧ ∀ rows, (length rows ≤ 50)%nat → page 0 50 rows = [].
Proof. split; [vm_compute; reflexivity|]. intros rows Hr. unfold page. cbn [Z.ltb Z.compare andb]. by apply drop_ge. Qed.
(** A parameter the workers refuse is reported as workers that are offline. *)
Lemma bad_parameter_reads_as_offline : listed (proxy_list 0 [("issue", ["x"])] proxy_state).1 = ([], ["a"; "b"; "c"]).
Proof. vm_compute. reflexivity. Qed.
(** The query for an address is not escaped: an agent's name can set the limit of the
    worker at an address, and not of the one with a tunnel. *)
Lemma unescaped_value_changes_the_query :
  query_get (ParseQuery (raw_query [("agent", ["x&limit=1"])])) "limit" = "1" ∧
  query_get (ParseQuery (encoded_query [("agent", ["x&limit=1"])])) "limit" = EmptyString.
Proof. vm_compute. done. Qed.
(** Different requests share an entry of the cache. *)
Lemma cache_keys_collide : cache_key [("repo", ["o/r"]); ("agent", ["x|7"])] = cache_key [("repo", ["o/r|x"]); ("agent", ["7"])].
Proof. vm_compute. reflexivity. Qed.
(** A configured lifetime of zero is five seconds. *)
Lemma zero_lifetime_is_the_default r l t c b : hd_cacheTTL (NewHandler (mkHandlerConfig r l t 0 c None b)) = 5 * second.
Proof. reflexivity. Qed.
