(* ===== verification/Diagnose.v ===== *)
(** * Diagnosis of the pipeline

    [internal/diagnose/diagnose.go] and the command [workbuddy diagnose]
    ([cmd/diagnose.go], with [runCacheInvalidateStore] of [cmd/cache_invalidate.go]): the
    report on stuck issues, orphaned tasks, pipeline hazards, repeated failures and
    unreachable workers, and the repairs of [--fix].  The report reads the tables of the
    store, the processes of the host and the session files; the output of [ps], the working
    directories under [/proc] and [os.Stat] are parameters. *)

From S2P Require Import Prelude GoLib GoText GoPath GoFormat GoTime Json Types DB TaskQueue StoreIssue StoreAdmin Liveness Dependency ReportFormat StateMachine Supervisor.
From Stdlib Require Import Ascii.

(** ** Constants *)

Module Diag.
Definition SeverityWarn : string := "warn".
Definition SeverityError : string := "error".
Definition KindStuckIssue : string := "stuck_issue".
Definition KindMissedRedispatch : string := "missed_redispatch".
Definition KindOrphanedTask : string := "orphaned_task".
Definition KindRepeatedFailure : string := "repeated_failure".
Definition KindPipelineHazard : string := "pipeline_hazard".
Definition KindWorkerTunnelDown : string := "worker_tunnel_down".
End Diag.

Definition stuckThreshold : Z := lv_StuckIssueThreshold Default.
Definition defaultAgentTimeout : Z := lv_AgentTimeout Default.
Definition defaultIdleThreshold : Z := lv_IdleKill Default.
Definition noChildGracePeriod : Z := lv_NoChildGracePeriod Default.
Definition TunnelHeartbeatStaleAfter : Z := WorkerHeartbeatStaleAfter Default (15 * second).

(** [d.Round(time.Minute)]. *)
Definition round_minute (d : Z) : Z :=
  let r := Z.rem d minute in
  if d <? 0 then (if - r - r <? minute then d - r else Z.max (- 2 ^ 63) (d - minute - r))
  else if r + r <? minute then d - r else Z.min maxDuration (d + minute - r).

Record DiagFinding := mkFinding {
  fi_Kind : string;
  fi_Repo : string;
  fi_IssueNum : Z;
  fi_AgentName : string;
  fi_Severity : string;
  fi_Diagnosis : string;
  fi_SuggestedFix : string;
  fi_AutoFixable : bool;
  fi_TaskID : string;
  fi_FixAction : string
}.

(** ** Workers *)

Definition IsHealthyTunneledWorker (now : Z) (w : WorkerRecord) : bool :=
  if negb (bool_decide (w_Status w = "online")) then false
  else match w_LastHeartbeat w with
       | None => false
       | Some _ => since now (w_LastHeartbeat w) <=? TunnelHeartbeatStaleAfter
       end.
Definition hasHealthyTunneledWorker (workers : list WorkerRecord) (now : Z) : bool := existsb (IsHealthyTunneledWorker now) workers.

(** ** Processes *)

Record Process := mkProcess { pr_PID : Z; pr_PPID : Z; pr_ElapsedSeconds : Z; pr_Command : string; pr_Args : list string }.
Definition maxScanTokenSize : Z := 65536.
Fixpoint parse_ps_lines (lines : list string) : res (list Process) :=
  match lines with
  | [] => Ok []
  | raw :: lines =>
      if maxScanTokenSize <=? Z.of_nat (String.length raw) then Err (EMsg "recover: scan ps output: token too long")
      else
        let line := TrimSpace raw in
        if bool_decide (line = EmptyString) then parse_ps_lines lines
        else
          match Fields line with
          | pid :: ppid :: elapsed :: arg :: args =>
              match atoi pid, atoi ppid, atoi elapsed with
              | None, _, _ => Err (EMsg ("recover: parse pid from " +:+ Quote line))
              | _, None, _ => Err (EMsg ("recover: parse ppid from " +:+ Quote line))
              | _, _, None => Err (EMsg ("recover: parse etimes from " +:+ Quote line))
              | Some pid, Some ppid, Some elapsed =>
                  match parse_ps_lines lines with
                  | Ok l => Ok (mkProcess pid ppid elapsed (join_str " " (arg :: args)) (arg :: args) :: l)
                  | Err e => Err e
                  end
              end
          | _ => Err (EMsg ("recover: malformed ps line " +:+ Quote line))
          end
  end.
Definition ParseProcessList (raw : string) : res (list Process) := parse_ps_lines (Split (chr 10) raw).

Record taskProcess := mkTaskProcess { tp_PID : Z; tp_Base : string; tp_Command : string; tp_CWD : string; tp_Elapsed : Z }.
Definition task_process (cwd : Z → option string) (p : Process) : option taskProcess :=
  match pr_Args p with
  | [] => None
  | arg :: _ =>
      let base := Base arg in
      if bool_decide (base = "codex") || bool_decide (base = "claude") then
        (λ dir, mkTaskProcess (pr_PID p) base (pr_Command p) dir (pr_ElapsedSeconds p * second)) <$> cwd (pr_PID p)
      else None
  end.
(** [ps] is the output of the command, [cwd] the link [/proc/<pid>/cwd]. *)
Definition listTaskProcesses (ps : res string) (cwd : Z → option string) : res (list taskProcess) :=
  match ps with
  | Err e => Err (EWrap "diagnose: ps" e)
  | Ok out => match ParseProcessList out with Ok l => Ok (omap (task_process cwd) l) | Err e => Err e end
  end.

Definition isWithinRoot (root path : string) : bool :=
  if bool_decide (root = EmptyString) || bool_decide (path = EmptyString) then false
  else match Rel root path with
       | None => false
       | Some rel => bool_decide (rel = ".") || (negb (bool_decide (rel = "..")) && negb (HasPrefix rel "../"))
       end.
Definition taskProcessMatchesRuntime (runtimeName procBase : string) : bool :=
  let name := TrimSpace runtimeName in
  if bool_decide (name = "claude-code") || bool_decide (name = "claude") then bool_decide (procBase = "claude")
  else if bool_decide (name = "codex") then bool_decide (procBase = "codex")
  else bool_decide (procBase = "claude") || bool_decide (procBase = "codex").
Definition taskMissingChildProcess (task : TaskRecord) (worktreeRoot : string) (now : Z) (processes : list taskProcess) : bool :=
  if is_blank worktreeRoot then false
  else
    let startedAt := match t_AckedAt task with Some t => Some t | None => t_CreatedAt task end in
    match startedAt with
    | None => false
    | Some _ =>
        if since now startedAt <? noChildGracePeriod then false
        else negb (existsb (λ p, taskProcessMatchesRuntime (t_Runtime task) (tp_Base p) && isWithinRoot worktreeRoot (tp_CWD p)) processes)
    end.

(** ** Sessions *)

Inductive Stat := StatFile (mtime : Z) | StatMissing | StatFailed (e : error).
Definition stat_ok (s : Stat) : bool := match s with StatFile _ => true | _ => false end.

Fixpoint first_existing (stat : string → Stat) (fallback : string) (candidates : list string) : string :=
  match candidates with
  | [] => fallback
  | c :: candidates =>
      if is_blank c then first_existing stat fallback candidates
      else
        let fallback := if bool_decide (fallback = EmptyString) then c else fallback in
        if stat_ok (stat c) then c else first_existing stat fallback candidates
  end.
Definition sessionArtifactPath (stat : string → Stat) (record : SessionRecord) : string :=
  first_existing stat EmptyString [Join [ss_Dir record; "events-v1.jsonl"]; Join [ss_Dir record; "codex-exec.jsonl"]; ss_RawPath record].

(** The loop ends because the parent of a clean path is shorter. *)
Fixpoint worktree_root (fuel : nat) (dir : string) : string :=
  match fuel with
  | O => EmptyString
  | S fuel =>
      if bool_decide (dir = EmptyString) || bool_decide (dir = "/") || bool_decide (dir = ".") then EmptyString
      else if bool_decide (Base dir = ".workbuddy") then Dir dir
      else if bool_decide (Dir dir = dir) then EmptyString else worktree_root fuel (Dir dir)
  end.
Definition sessionWorktreeRoot (sessionDir : string) : string :=
  let dir := Clean sessionDir in worktree_root (String.length dir) dir.

Definition latestSessionForTask (mode : bool) (E : Env) (task : TaskRecord) : St DB (res (option SessionRecord)) :=
  records ←! wrapE "diagnose: list sessions" (ListSessions mode E (mkSessionFilter (t_Repo task) (t_IssueNum task) (t_AgentName task) EmptyString EmptyString));
  mret (Ok (List.find (λ r, bool_decide (ss_TaskID r = t_ID task)) records)).

(** The worktree of the task, how long its session file has not changed, and whether that
    is too long. *)
Definition session_signal (stat : string → Stat) (now idleThreshold : Z) (record : option SessionRecord) : res (string * Z * bool) :=
  match record with
  | None => Ok (EmptyString, 0, false)
  | Some record =>
      let root := sessionWorktreeRoot (ss_Dir record) in
      let artifactPath := sessionArtifactPath stat record in
      if bool_decide (artifactPath = EmptyString) then Ok (root, 0, false)
      else match stat artifactPath with
           | StatMissing => Ok (root, 0, false)
           | StatFailed e => Err (EWrap "diagnose: stat session artifact" e)
           | StatFile mtime => let idleFor := now - mtime in Ok (root, idleFor, 2 * idleThreshold <? idleFor)
           end
  end.
Definition taskSessionSignal (mode : bool) (stat : string → Stat) (E : Env) (task : TaskRecord) (now idleThreshold : Z) : St DB (res (string * Z * bool)) :=
  record ←! latestSessionForTask mode E task;
  mret (session_signal stat now idleThreshold record).

(** ** States of issues *)

Definition currentState (labelsJSON fallback : string) : string :=
  let labels := match unmarshal_strings labelsJSON with Some (Some l) => l | _ => [] end in
  default fallback (List.find (λ l, bool_decide (l = "status:developing") || bool_decide (l = "status:reviewing")) labels).
Definition isIntermediateState (state : string) : bool := bool_decide (state = "status:developing") || bool_decide (state = "status:reviewing").

(** The last event of every issue, and the states its labels show. *)
Definition note_event (m : gmap string Z) (e : EventRow) : gmap string Z :=
  let key := issueKey (er_Repo e) (er_IssueNum e) in
  match m !! key with
  | Some ts => if ts <? er_TS e then <[key := er_TS e]> m else m
  | None => <[key := er_TS e]> m
  end.
Definition latest_events (events : list EventRow) : gmap string Z := foldl note_event ∅ events.
Definition issue_states (caches : list IssueCache) : gmap string string :=
  foldl (λ m c, let cur := TrimPrefix (currentState (ic_Labels c) (ic_State c)) "status:" in
                if bool_decide (cur = EmptyString) then m else <[issueKey (ic_Repo c) (ic_IssueNum c) := cur]> m) ∅ caches.

Definition taskAdvancedPastIssueState (task : TaskRecord) (issueCurrentState : gmap string string) : bool * string :=
  if is_blank (t_State task) then (false, EmptyString)
  else match issueCurrentState !! issueKey (t_Repo task) (t_IssueNum task) with
       | None => (false, EmptyString)
       | Some cur => (negb (bool_decide (cur = EmptyString)) && negb (bool_decide (cur = t_State task)), cur)
       end.
Definition orphanedTaskFixAction (advanced : bool) : string := if advanced then "mark_completed" else "mark_failed".
Definition orphanedTaskSuggestedFix (advanced : bool) : string :=
  if advanced then "mark task completed so slot is released; worker heartbeat should stop once it observes terminal status"
  else "mark task failed so coordinator can redispatch cleanly; inspect worker/session artifacts for the zombie source".
Definition orphanedThresholdForTask (task : TaskRecord) (agentTimeouts : gmap string Z) : Z :=
  let timeout := match agentTimeouts !! t_AgentName task with Some d => if 0 <? d then d else defaultAgentTimeout | None => defaultAgentTimeout end in
  ForensicOrphanedAfterFor Default timeout.

(** ** Findings of an issue and of a task *)

Definition issue_findings (now : Z) (cache : IssueCache) (active : bool) (dep : option IssueDependencyState) (lastEventAt : option Z) : list DiagFinding :=
  let state := currentState (ic_Labels cache) (ic_State cache) in
  let finding kind text := mkFinding kind (ic_Repo cache) (ic_IssueNum cache) EmptyString Diag.SeverityWarn text "cache-invalidate" true EmptyString EmptyString in
  (match lastEventAt with
   | Some at_ => if negb active && (stuckThreshold <? now - at_)
                 then [finding Diag.KindStuckIssue (cat ["issue is stuck in "; state; " with no active task for "; Duration_String (round_minute (now - at_))])] else []
   | None => []
   end)
  ++ (match dep with
      | Some s => if bool_decide (ds_Verdict s = DependencyVerdictReady) && negb active
                  then [finding Diag.KindMissedRedispatch (cat ["dependency verdict is ready but "; state; " has no active task"])] else []
      | None => []
      end).

Definition orphan_finding (task : TaskRecord) (text fix_ : string) (auto : bool) (taskID action : string) : DiagFinding :=
  mkFinding Diag.KindOrphanedTask (t_Repo task) (t_IssueNum task) (t_AgentName task) Diag.SeverityError text fix_ auto taskID action.
(** A running task whose row has been updated within its threshold. *)
Definition zombie_findings (now : Z) (task : TaskRecord) (signal : string * Z * bool) (processes : list taskProcess) (states : gmap string string) : list DiagFinding :=
  let '(worktreeRoot, sessionIdle, sessionStale) := signal in
  let '(advanced, cur) := taskAdvancedPastIssueState task states in
  let zombie text := [orphan_finding task text (orphanedTaskSuggestedFix advanced) true (t_ID task) (orphanedTaskFixAction advanced)] in
  if sessionStale then zombie (cat ["heartbeat-only zombie (session log static for "; Duration_String (round_minute sessionIdle); ")"])
  else if taskMissingChildProcess task worktreeRoot now processes then zombie "heartbeat-only zombie (no child process)"
  else if advanced then
    [orphan_finding task
       (cat ["task "; t_ID task; " ("; t_AgentName task; ") is running for state "; Quote (t_State task); " but issue is now in "; Quote cur; " — agent already done"])
       "mark task completed so slot is released; restart worker if heartbeat is stuck" false EmptyString EmptyString]
  else [].

(** ** Repeated failures *)

(** Newest first; equal times by descending id. *)
Definition newest_le (a b : TaskRecord) : bool :=
  if bool_decide (t_CreatedAt a = t_CreatedAt b) then String.leb (t_ID b) (t_ID a) else time_le (t_CreatedAt b) (t_CreatedAt a).
Definition failure_key (task : TaskRecord) : string := cat [t_Repo task; "|"; itoa (t_IssueNum task); "|"; t_AgentName task].
Definition count_failure (repo : string) (m : gmap string Z * gset string) (task : TaskRecord) : gmap string Z * gset string :=
  let '(counts, closed) := m in
  if negb (bool_decide (repo = EmptyString)) && negb (bool_decide (t_Repo task = repo)) then m
  else
    let key := failure_key task in
    if bool_decide (key ∈ closed) then m
    else if status_is TaskStatusFailed task then (<[key := default 0 (counts !! key) + 1]> counts, closed)
    else (counts, {[key]} ∪ closed).
Definition consecutiveFailureCounts (tasks : list TaskRecord) (repo : string) : gmap string Z :=
  (foldl (count_failure repo) (∅, ∅) (sort_by newest_le tasks)).1.
Definition parseFailureKey (raw : string) : string * Z * string :=
  match Split "|" raw with
  | [repo; num; agent] => (repo, default 0 (atoi num), agent)
  | _ => (raw, 0, EmptyString)
  end.
Definition failure_finding (kc : string * Z) : option DiagFinding :=
  if kc.2 <? 3 then None
  else
    let '(repo, num, agent) := parseFailureKey kc.1 in
    Some (mkFinding Diag.KindRepeatedFailure repo num agent Diag.SeverityError (cat [agent; " has failed "; itoa kc.2; " times in a row"])
            "escalate to operator; inspect runtime/session logs" false EmptyString EmptyString).

(** ** The analysis *)

Record diagnoseConfig := mkDiagnoseConfig { dc_AgentTimeouts : gmap string Z; dc_IdleThreshold : Z }.
(** The agents' timeouts and the idle threshold of the configuration. *)
Definition diagnose_config (timeouts : list (string * Z)) (idleThreshold : Z) : diagnoseConfig :=
  mkDiagnoseConfig (list_to_map (List.filter (λ kv, 0 <? kv.2) timeouts)) (if idleThreshold <=? 0 then defaultIdleThreshold else idleThreshold).

(** A loop that collects what its body returns. *)
Fixpoint collectE {A B} (body : A → St DB (res (list B))) (xs : list A) : St DB (res (list B)) :=
  match xs with
  | [] => mret (Ok [])
  | x :: xs => a ←! body x; b ←! collectE body xs; mret (Ok (a ++ b))
  end.

Section diagnose.
Context `{YamlLib} (mode : bool) (E : Env) (stat : string → Stat) (ps : res string) (cwd : Z → option string).

Definition firstInvalidDependency (repo : string) (issueNum : Z) : St DB (option ParsedDependency) :=
  cache ← QueryIssueCache E repo issueNum;
  mret match cache with
       | Ok (Some c) => List.find (λ d, bool_decide (pd_Status d = DependencyStatusInvalid)) (decl_Dependencies (ParseDeclaration repo (Types.ic_Body c)))
       | _ => None
       end.
Definition pipelineHazardDiagnosis (repo : string) (issueNum : Z) (kind : string) : St DB string :=
  if bool_decide (kind = HazardKindNoWorkflowMatch)
  then mret "issue carries a status:* label but no workflow trigger label matched, so the state machine cannot enter it"
  else if bool_decide (kind = HazardKindAwaitingStatusLabel)
  then mret "issue declares depends_on but has no status:* label, so the state machine cannot enter it and the dependency gate cannot release downstream work"
  else if bool_decide (kind = HazardKindMalformedDependencyRef) then
    dep ← firstInvalidDependency repo issueNum;
    mret match dep with
         | Some dep =>
             if 0 <? pd_Line dep
             then cat ["issue declares an unparseable depends_on ref at line "; itoa (pd_Line dep); " ("; Quote (pd_Raw dep);
                       "), so the resolver dropped it and dependency gating may stay stuck"]
             else cat ["issue declares an unparseable depends_on ref ("; Quote (pd_Raw dep); "), so the resolver dropped it and dependency gating may stay stuck"]
         | None => "issue declares an unparseable depends_on ref, so the resolver dropped it and dependency gating may stay stuck"
         end
  else mret ("pipeline hazard: " +:+ kind).
Definition pipelineHazardSuggestedFix (repo : string) (issueNum : Z) (kind : string) : St DB string :=
  let invalidate := cat ["then run `workbuddy cache invalidate --repo "; repo; " --issue "; itoa issueNum; "`"] in
  if bool_decide (kind = HazardKindNoWorkflowMatch) then mret "add the workflow trigger label, e.g. `workbuddy`"
  else if bool_decide (kind = HazardKindAwaitingStatusLabel)
  then mret "add `status:blocked` so the gate can evaluate, or `status:developing` if the deps are already satisfied"
  else if bool_decide (kind = HazardKindMalformedDependencyRef) then
    dep ← firstInvalidDependency repo issueNum;
    mret match dep with
         | Some dep =>
             if 0 <? pd_Line dep
             then cat ["edit issue body line "; itoa (pd_Line dep); " under `workbuddy.depends_on`: replace `"; pd_Raw dep; "` with `#<int>` or `owner/repo#<int>`, "; invalidate]
             else cat ["edit the malformed `workbuddy.depends_on` entry `"; pd_Raw dep; "` so it uses `#<int>` or `owner/repo#<int>`, "; invalidate]
         | None => "fix the malformed `workbuddy.depends_on` entry so it uses `#<int>` or `owner/repo#<int>`, " +:+ invalidate
         end
  else mret "inspect issue labels and body; clear the hazard once the configuration is complete".
Definition hazard_finding (h : (string * Z) * PipelineHazard) : St DB (res (list DiagFinding)) :=
  text ← pipelineHazardDiagnosis h.1.1 h.1.2 (hz_Kind h.2);
  fix_ ← pipelineHazardSuggestedFix h.1.1 h.1.2 (hz_Kind h.2);
  mret (Ok [mkFinding Diag.KindPipelineHazard h.1.1 h.1.2 EmptyString Diag.SeverityWarn text fix_ false EmptyString EmptyString]).

Definition tunnel_finding (repo : string) (now : Z) (reg : RepoRegistrationRecord) : St DB (res (list DiagFinding)) :=
  if negb (bool_decide (rg_Status reg = "active")) then mret (Ok [])
  else if negb (bool_decide (repo = EmptyString)) && negb (bool_decide (rg_Repo reg = repo)) then mret (Ok [])
  else
    workers ←! wrapE "diagnose: query workers" (QueryWorkers E (rg_Repo reg));
    mret (Ok (if hasHealthyTunneledWorker workers now then []
              else [mkFinding Diag.KindWorkerTunnelDown (rg_Repo reg) 0 EmptyString Diag.SeverityError
                      "no online tunneled worker with a fresh heartbeat is registered for this repo; coordinator cannot dispatch agent tasks"
                      "start or restart the worker bound to this repo; ensure --tunnel is enabled and the worker reaches the coordinator"
                      false EmptyString EmptyString])).
Definition workerTunnelFindings (repo : string) (now : Z) : St DB (res (list DiagFinding)) :=
  regs ←! wrapE "diagnose: list repo registrations" (ListRepoRegistrations E);
  collectE (tunnel_finding repo now) regs.

(** Without a repository, those of the events and of the tasks that are listed; the
    order in which a map is ranged over is not fixed. *)
Definition repos_of (events : list EventRow) (tasks : list TaskRecord) : list string :=
  elements (list_to_set (List.filter (λ r, negb (bool_decide (r = EmptyString))) (map er_Repo events ++ map t_Repo tasks)) : gset string).
Definition listIssueCaches (repo : string) : St DB (res (list IssueCache)) :=
  if negb (bool_decide (repo = EmptyString)) then wrapE "diagnose: list issue caches" (ListIssueCaches E repo)
  else
    allEvents ←! wrapE "diagnose: query all events" (QueryEvents E EmptyString);
    allTasks ←! wrapE "diagnose: query all tasks" (QueryTasks E EmptyString);
    collectE (λ r, wrapE "diagnose: list issue caches" (ListIssueCaches E r)) (repos_of allEvents allTasks).

Definition analyze_issue (now : Z) (latest : gmap string Z) (cache : IssueCache) : St DB (res (list DiagFinding)) :=
  if negb (isIntermediateState (currentState (ic_Labels cache) (ic_State cache))) then mret (Ok [])
  else
    active ←! wrapE "diagnose: active task lookup" (HasAnyActiveTask E (ic_Repo cache) (ic_IssueNum cache));
    depState ←! wrapE "diagnose: dependency state lookup" (QueryIssueDependencyState E (ic_Repo cache) (ic_IssueNum cache));
    mret (Ok (issue_findings now cache active depState (latest !! issueKey (ic_Repo cache) (ic_IssueNum cache)))).
Definition analyze_task (repo : string) (now : Z) (cfg : diagnoseConfig) (processes : list taskProcess) (states : gmap string string) (task : TaskRecord) : St DB (res (list DiagFinding)) :=
  if negb (bool_decide (repo = EmptyString)) && negb (bool_decide (t_Repo task = repo)) then mret (Ok [])
  else if status_is TaskStatusRunning task && (orphanedThresholdForTask task (dc_AgentTimeouts cfg) <? since now (t_UpdatedAt task)) then
    mret (Ok [orphan_finding task
                (cat ["task "; t_ID task; " has been running without updates for "; Duration_String (round_minute (since now (t_UpdatedAt task)))])
                "escalate to operator; inspect worker or restart serve" false EmptyString EmptyString])
  else if negb (status_is TaskStatusRunning task) then mret (Ok [])
  else
    signal ←! taskSessionSignal mode stat E task now (dc_IdleThreshold cfg);
    mret (Ok (zombie_findings now task signal processes states)).

(** [sort.Slice]: findings that compare equal may come in any order. *)
Definition finding_le (a b : DiagFinding) : bool :=
  if negb (bool_decide (fi_Repo a = fi_Repo b)) then String.leb (fi_Repo a) (fi_Repo b)
  else if negb (bool_decide (fi_IssueNum a = fi_IssueNum b)) then fi_IssueNum a <=? fi_IssueNum b
  else if negb (bool_decide (fi_Severity a = fi_Severity b)) then String.leb (fi_Severity b) (fi_Severity a)
  else String.leb (fi_Kind a) (fi_Kind b).

Definition analyzeWithConfig (repo : string) (now : Z) (cfg : diagnoseConfig) : St DB (res (list DiagFinding)) :=
  caches ←! listIssueCaches repo;
  events ←! wrapE "diagnose: query events" (QueryEvents E repo);
  tasks ←! wrapE "diagnose: query tasks" (QueryTasks E EmptyString);
  processes ←! mret (listTaskProcesses ps cwd);
  issues ←! collectE (analyze_issue now (latest_events events)) caches;
  zombies ←! collectE (analyze_task repo now cfg processes (issue_states caches)) tasks;
  hazards ←! wrapE "diagnose: list pipeline hazards" (ListIssuePipelineHazards E repo);
  hazardous ←! collectE hazard_finding hazards;
  let failing := omap failure_finding (map_to_list (consecutiveFailureCounts tasks repo)) in
  tunnels ←! workerTunnelFindings repo now;
  mret (Ok (sort_by finding_le (issues ++ zombies ++ hazardous ++ failing ++ tunnels))).

(** ** The command *)

(** [runCacheInvalidateStore] of one issue, not a dry run: whether a row was deleted and
    whether a verdict was. *)
Definition quoted_fields (l : list (string * string)) : string := cat ["{"; join_str "," (map (λ kv, Quote kv.1 +:+ ":" +:+ kv.2) l); "}"].
Definition runCacheInvalidateStore (repo : string) (issueNum : Z) (source : string) : St DB (res (bool * bool)) :=
  cached ←! wrapE "cache-invalidate: query issue cache" (QueryIssueCache E repo issueNum);
  _ ←! match cached with
       | Some _ => wrapE "cache-invalidate: delete issue cache" (DeleteIssueCache E repo issueNum)
       | None => mret (Ok tt)
       end;
  deleted ←! wrapE "cache-invalidate: reset dependency state" (DeleteIssueDependencyState E repo issueNum);
  _ ←! wrapE "cache-invalidate: log event"
         (InsertEvent E "cache_invalidated" repo issueNum (quoted_fields [("repo", Quote repo); ("issue_num", itoa issueNum); ("source", Quote source)]));
  mret (Ok (bool_decide (is_Some cached), deleted)).
Definition applyDiagnoseFindingFix (f : DiagFinding) : St DB (res unit) :=
  if bool_decide (fi_FixAction f = EmptyString) || bool_decide (fi_FixAction f = "cache_invalidate") then
    _ ←! runCacheInvalidateStore (fi_Repo f) (fi_IssueNum f) "cli:diagnose --fix"; mret (Ok tt)
  else if bool_decide (fi_FixAction f = "mark_completed") then FinalizeTaskForOperator E (fi_TaskID f) TaskStatusCompleted 0
  else if bool_decide (fi_FixAction f = "mark_failed") then FinalizeTaskForOperator E (fi_TaskID f) TaskStatusFailed 1
  else mret (Err (EMsg ("unsupported fix action " +:+ Quote (fi_FixAction f)))).
Definition fix_one (f : DiagFinding) : St DB (res unit) :=
  if fi_AutoFixable f then
    _ ←! wrapE "diagnose: apply fix" (applyDiagnoseFindingFix f);
    _ ←! wrapE "diagnose: log auto_fix"
           (InsertEvent E "auto_fix" (fi_Repo f) (fi_IssueNum f)
              (quoted_fields [("repo", Quote (fi_Repo f)); ("issue_num", itoa (fi_IssueNum f)); ("kind", Quote (fi_Kind f))]));
    mret (Ok tt)
  else mret (Ok tt).
(** The findings, with what [--fix] has repaired; the exit code is 1 when there are any. *)
Definition runDiagnoseWithOpts (repo : string) (now : Z) (cfg : diagnoseConfig) (fix_ : bool) : St DB (res (list (DiagFinding * bool))) :=
  findings ←! analyzeWithConfig repo now cfg;
  _ ←! (if fix_ then forE findings fix_one else mret (Ok tt));
  mret (Ok (map (λ f, (f, fix_ && fi_AutoFixable f)) findings)).

(** The line on the tunnel that follows the table. *)
Definition formatTunnelHandshake (t : option Z) : string := match t with None => "unknown" | Some t => RFC3339 t end.
Definition time_after (a b : option Z) : bool := match a, b with Some a, Some b => b <? a | Some _, None => true | None, _ => false end.
Fixpoint tunnel_line (now : Z) (latest : option WorkerRecord) (workers : list WorkerRecord) : string :=
  match workers with
  | [] => cat ["tunnel: disconnected (last_handshake="; formatTunnelHandshake (latest ≫= w_LastHeartbeat); ")"]
  | w :: workers =>
      let latest := if match latest with None => true | Some l => bool_decide (w_ID l = EmptyString) || time_after (w_LastHeartbeat w) (w_LastHeartbeat l) end
                    then Some w else latest in
      if IsHealthyTunneledWorker now w
      then cat ["tunnel: connected (worker="; w_ID w; " last_handshake="; formatTunnelHandshake (w_LastHeartbeat w); ")"]
      else tunnel_line now latest workers
  end.
Definition findingsIncludeTunnelDown (results : list (DiagFinding * bool)) : bool := existsb (λ r, bool_decide (fi_Kind r.1 = Diag.KindWorkerTunnelDown)) results.
Definition renderDiagnoseTunnelStatus (error_text : error → string) (now : Z) : St DB string :=
  workers ← QueryWorkers E EmptyString;
  mret match workers with
       | Err e => cat ["tunnel: disconnected (last_handshake=unknown; status_error="; error_text e; ")"]
       | Ok workers => tunnel_line now None workers
       end.
End diagnose.
