(* ===== verification/DiagnoseSpec.v ===== *)
(** * What the diagnosis reports and repairs

    The analysis only reads; the repairs of [--fix] touch no task that is alive and no
    cache entry of an issue that is being worked on, and after two runs nothing is left
    to repair. *)

From S2P Require Import Prelude GoLib GoText GoPath GoFormat GoTime Json Types DB TaskQueue StoreIssue StoreAdmin Liveness Dependency ReportFormat StateMachine Supervisor Demo SMBehaviour Diagnose.
From Stdlib Require Import Ascii.

(** ** Computations that only read *)

Lemma reads_collect {A B} (body : A → St DB (res (list B))) (g : A → DB → list B) xs :
  (∀ x, readsE (body x) (g x)) → readsE (collectE body xs) (λ d, concat (map (λ x, g x d) xs)).
Proof.
  intros Hb. induction xs as [|x xs IH]; [exact (readsE_ret [])|]. cbn [collectE map concat].
  apply (reads_bindE _ (g x) _ (λ a d, a ++ concat (map (λ x, g x d) xs)) (Hb x)). intros a.
  apply (reads_bindE _ _ _ (λ b _, a ++ b) IH). intros b. apply readsE_ret.
Qed.

(** ** The analysis as a function of the database *)

Section spec.
Context `{YamlLib} (mode : bool) (E : Env) (stat : string → Stat) (ps : res string) (cwd : Z → option string).
Context (repo : string) (now : Z) (cfg : diagnoseConfig) (processes : list taskProcess).
Hypothesis HE : quiet E.
Hypothesis Hps : listTaskProcesses ps cwd = Ok processes.
Hypothesis Hstat : ∀ p e, stat p ≠ StatFailed e.

Definition has_active (k : string * Z) (d : DB) : bool := existsb (λ t, row_issue k.1 k.2 t && status_in active_status t) (db_tasks d).
Definition sessions_of (t : TaskRecord) (d : DB) : list SessionRecord :=
  if mode then [] else reverse (List.filter (session_matches (mkSessionFilter (t_Repo t) (t_IssueNum t) (t_AgentName t) EmptyString EmptyString))
                                  (scanSessionRow d <$> db_sessions d)).
Definition signal_of (t : TaskRecord) (d : DB) : string * Z * bool :=
  match session_signal stat now (dc_IdleThreshold cfg) (List.find (λ r, bool_decide (ss_TaskID r = t_ID t)) (sessions_of t d)) with
  | Ok s => s
  | Err _ => (EmptyString, 0, false)
  end.
Definition all_tasks (d : DB) : list TaskRecord :=
  scanTaskRecord d <$> sort_by (λ a b, time_le (t_CreatedAt a) (t_CreatedAt b)) (List.filter (task_matches (mkTaskFilter EmptyString EmptyString)) (db_tasks d)).
Definition events_of (r : string) (d : DB) : list EventRow := List.filter (λ e, bool_decide (r = EmptyString) || bool_decide (er_Repo e = r)) (db_events d).
Definition caches_of (r : string) (d : DB) : list IssueCache :=
  sort_by cache_le (scan_cache <$> List.filter (λ ic, (bool_decide (r = EmptyString) || bool_decide (ic_Repo ic = r)) && negb (is_pr_state (ic_State ic)))
                                     (map_to_list (db_cache d)).*2).
Definition listed_caches (d : DB) : list IssueCache :=
  if bool_decide (repo = EmptyString) then concat (map (λ r, caches_of r d) (repos_of (events_of EmptyString d) (all_tasks d))) else caches_of repo d.

Definition out_of_scope (r : string) : bool := negb (bool_decide (repo = EmptyString)) && negb (bool_decide (r = repo)).
Definition issue_report (d : DB) (c : IssueCache) : list DiagFinding :=
  if isIntermediateState (currentState (ic_Labels c) (ic_State c))
  then issue_findings now c (has_active (ic_Repo c, ic_IssueNum c) d) (db_depstate d !! (ic_Repo c, ic_IssueNum c))
         (latest_events (events_of repo d) !! issueKey (ic_Repo c) (ic_IssueNum c))
  else [].
Definition task_report (d : DB) (states : gmap string string) (t : TaskRecord) : list DiagFinding :=
  if out_of_scope (t_Repo t) then []
  else if status_is TaskStatusRunning t && (orphanedThresholdForTask t (dc_AgentTimeouts cfg) <? since now (t_UpdatedAt t)) then
    [orphan_finding t (cat ["task "; t_ID t; " has been running without updates for "; Duration_String (round_minute (since now (t_UpdatedAt t)))])
       "escalate to operator; inspect worker or restart serve" false EmptyString EmptyString]
  else if negb (status_is TaskStatusRunning t) then []
  else zombie_findings now t (signal_of t d) processes states.

Lemma reads_session t : readsE (taskSessionSignal mode stat E t now (dc_IdleThreshold cfg)) (signal_of t).
Proof.
  unfold taskSessionSignal, latestSessionForTask, signal_of.
  assert (readsE (wrapE "diagnose: list sessions" (ListSessions mode E (mkSessionFilter (t_Repo t) (t_IssueNum t) (t_AgentName t) EmptyString EmptyString))) (sessions_of t)) as Hl.
  { apply reads_wrap. unfold ListSessions, sessions_of. destruct mode; [exact (readsE_ret [])|]. apply reads_wrap.
    split; [done|]. intros d. exists 1%nat. unfold session_query, session_sql. by rewrite sql_tx_quiet. }
  refine (reads_bindE _ (λ d, List.find (λ r, bool_decide (ss_TaskID r = t_ID t)) (sessions_of t d)) _
    (λ r _, match session_signal stat now (dc_IdleThreshold cfg) r with Ok s => s | Err _ => (EmptyString, 0, false) end) _ _).
  - apply (reads_bindE _ _ _ (λ l _, List.find (λ r, bool_decide (ss_TaskID r = t_ID t)) l) Hl). intros l. apply readsE_ret.
  - intros r. unfold session_signal. destruct r as [r|]; [|apply readsE_ret]. case_bool_decide; [apply readsE_ret|].
    destruct (stat (sessionArtifactPath stat r)) eqn:Hs; [apply readsE_ret|apply readsE_ret|]. by apply Hstat in Hs.
Qed.
Ltac query := repeat apply reads_wrap; apply reads_query; [done|try done].
Lemma reads_caches : readsE (listIssueCaches E repo) listed_caches.
Proof.
  assert (∀ r, readsE (wrapE "diagnose: list issue caches" (ListIssueCaches E r)) (caches_of r)) as Hc by (intros r; query).
  unfold listIssueCaches, listed_caches. case_bool_decide; cbn [negb]; [|done].
  apply (reads_bindE _ (events_of EmptyString) _ (λ ev d, concat (map (λ r, caches_of r d) (repos_of ev (all_tasks d))))); [query|]. intros ev.
  apply (reads_bindE _ all_tasks _ (λ ts d, concat (map (λ r, caches_of r d) (repos_of ev ts)))); [query|]. intros ts. by apply reads_collect.
Qed.
Lemma reads_issue latest c :
  readsE (analyze_issue E now latest c) (λ d, if isIntermediateState (currentState (ic_Labels c) (ic_State c))
    then issue_findings now c (has_active (ic_Repo c, ic_IssueNum c) d) (db_depstate d !! (ic_Repo c, ic_IssueNum c)) (latest !! issueKey (ic_Repo c) (ic_IssueNum c)) else []).
Proof.
  unfold analyze_issue. destruct (isIntermediateState _); cbn [negb]; [|apply readsE_ret].
  apply (reads_bindE _ (has_active (ic_Repo c, ic_IssueNum c)) _ (λ a d, issue_findings now c a (db_depstate d !! (ic_Repo c, ic_IssueNum c)) (latest !! _))); [query|]. intros a.
  apply (reads_bindE _ (λ d, db_depstate d !! (ic_Repo c, ic_IssueNum c)) _ (λ s _, issue_findings now c a s (latest !! _))); [query|]. intros s. apply readsE_ret.
Qed.
Lemma reads_task states t : readsE (analyze_task mode E stat repo now cfg processes states t) (λ d, task_report d states t).
Proof.
  unfold analyze_task, task_report, out_of_scope. destruct (negb _ && _); [apply readsE_ret|]. destruct (_ && _); [apply readsE_ret|].
  destruct (negb _); [apply readsE_ret|]. apply (reads_bindE _ _ _ (λ s _, zombie_findings now t s processes states) (reads_session t)). intros s. apply readsE_ret.
Qed.

(** The other findings are not repaired. *)
Definition manual (l : list DiagFinding) : Prop := Forall (λ f, fi_AutoFixable f = false) l.
Definition reads_manual (m : St DB (res (list DiagFinding))) : Prop := ∃ v, readsE m v ∧ ∀ d, manual (v d).
Lemma manual_nil : reads_manual (mret (Ok [])).
Proof. exists (λ _, []). split; [apply readsE_ret|intros d; constructor]. Qed.
Lemma manual_collect {A} (body : A → St DB (res (list DiagFinding))) xs : (∀ x, reads_manual (body x)) → reads_manual (collectE body xs).
Proof.
  intros Hb. induction xs as [|x xs (w & Hw & Hm)]; [exact manual_nil|].
  destruct (Hb x) as (v & Hv & Hvm). exists (λ d, v d ++ w d). split.
  - apply (reads_bindE _ v _ (λ a d, a ++ w d) Hv). intros a. apply (reads_bindE _ w _ (λ b _, a ++ b) Hw). intros b. apply readsE_ret.
  - intros d. apply Forall_app_2; [apply Hvm|apply Hm].
Qed.
Lemma hazard_manual h : reads_manual (hazard_finding E h).
Proof.
  assert (∀ r n, ∃ v, reads (firstInvalidDependency E r n) v) as Hd.
  { intros r n. eexists. apply (reads_bind _ (λ d, Ok (scan_cache <$> db_cache d !! (r, n))) _ (λ c _, match c with
      | Ok (Some c) => List.find (λ d, bool_decide (pd_Status d = DependencyStatusInvalid)) (decl_Dependencies (ParseDeclaration r (Types.ic_Body c)))
      | _ => None end)); [query|]. intros c. apply reads_ret. }
  assert (∀ r n (f : option ParsedDependency → string), ∃ v, reads (firstInvalidDependency E r n ≫= λ dep, mret (f dep)) v) as Ht.
  { intros r n f. destruct (Hd r n) as [v Hv]. eexists. apply (reads_bind _ v _ (λ x _, f x) Hv). intros x. apply reads_ret. }
  assert (∀ r n k, ∃ v, reads (pipelineHazardDiagnosis E r n k) v) as H1.
  { intros r n k. unfold pipelineHazardDiagnosis. repeat case_bool_decide; first [apply Ht | eexists; apply reads_ret]. }
  assert (∀ r n k, ∃ v, reads (pipelineHazardSuggestedFix E r n k) v) as H2.
  { intros r n k. unfold pipelineHazardSuggestedFix. repeat case_bool_decide; first [apply Ht | eexists; apply reads_ret]. }
  destruct (H1 h.1.1 h.1.2 (hz_Kind h.2)) as [v Hv]. destruct (H2 h.1.1 h.1.2 (hz_Kind h.2)) as [w Hw].
  exists (λ d, [mkFinding Diag.KindPipelineHazard h.1.1 h.1.2 EmptyString Diag.SeverityWarn (v d) (w d) false EmptyString EmptyString]). split; [|by intros d; constructor].
  apply (reads_bind _ v _ (λ x d, Ok [mkFinding Diag.KindPipelineHazard h.1.1 h.1.2 EmptyString Diag.SeverityWarn x (w d) false EmptyString EmptyString]) Hv). intros x.
  apply (reads_bind _ w _ (λ y d, Ok [mkFinding Diag.KindPipelineHazard h.1.1 h.1.2 EmptyString Diag.SeverityWarn x y false EmptyString EmptyString]) Hw). intros y. apply reads_ret.
Qed.
Lemma tunnel_manual reg : reads_manual (tunnel_finding E repo now reg).
Proof.
  unfold tunnel_finding. destruct (negb _); [exact manual_nil|].
  destruct (_ && _); [exact manual_nil|]. eexists. split.
  - eapply reads_bindE; [query|]. intros ws. apply readsE_ret.
  - intros d. cbn beta. destruct (hasHealthyTunneledWorker _ _); [constructor|by repeat constructor].
Qed.
(** The analysis: what issues and tasks contribute, and findings that are not repaired. *)
Definition issue_reports (d : DB) : list DiagFinding := concat (map (issue_report d) (listed_caches d)).
Definition task_reports (d : DB) : list DiagFinding := concat (map (task_report d (issue_states (listed_caches d))) (all_tasks d)).
Definition val {A} (m : St DB (res (list A))) (d : DB) : list A := match (m d).1 with Ok l => l | Err _ => [] end.
Lemma manual_val m : reads_manual m → readsE m (val m) ∧ ∀ d, manual (val m d).
Proof.
  intros (v & [Hv Hm] & Hvm). assert (∀ d, val m d = v d) as Hval by (intros d; unfold val; by destruct (Hm d) as [n ->]).
  split; [split|].
  - intros d. rewrite !Hval. apply Hv.
  - intros d. rewrite Hval. apply Hm.
  - intros d. rewrite Hval. apply Hvm.
Qed.
Definition hazards_of (d : DB) : list ((string * Z) * PipelineHazard) :=
  sort_by hazard_le (List.filter (λ h, bool_decide (repo = EmptyString) || bool_decide (h.1.1 = repo)) (map_to_list (db_hazards d))).
Definition failures_of (tasks : list TaskRecord) : list DiagFinding := omap failure_finding (map_to_list (consecutiveFailureCounts tasks repo)).
Definition other_reports (d : DB) : list DiagFinding :=
  val (collectE (hazard_finding E) (hazards_of d)) d ++ failures_of (all_tasks d) ++ val (workerTunnelFindings E repo now) d.
Lemma failures_manual tasks : manual (failures_of tasks).
Proof.
  apply Forall_forall. intros f (kc & _ & Hf)%list_elem_of_omap. unfold failure_finding in Hf. destruct (kc.2 <? 3); [done|].
  destruct (parseFailureKey kc.1) as [[r n] a]. by simplify_eq.
Qed.
Lemma tunnels_manual : reads_manual (workerTunnelFindings E repo now).
Proof.
  assert (∀ regs, readsE (collectE (tunnel_finding E repo now) regs) (val (collectE (tunnel_finding E repo now) regs)) ∧
    ∀ d, manual (val (collectE (tunnel_finding E repo now) regs) d)) as Hc by (intros regs; apply manual_val, manual_collect, tunnel_manual).
  eexists. split; [eapply reads_bindE; [query|intros regs; apply Hc]|]. intros d. apply Hc.
Qed.
Lemma others_manual d : manual (other_reports d).
Proof.
  unfold manual, other_reports. rewrite !Forall_app. split_and!; [|apply failures_manual|].
  - by apply manual_val, manual_collect, hazard_manual.
  - apply manual_val, tunnels_manual.
Qed.
Definition reports (d : DB) : list DiagFinding := sort_by finding_le (issue_reports d ++ task_reports d ++ other_reports d).
Lemma analysis_reads : readsE (analyzeWithConfig mode E stat ps cwd repo now cfg) reports.
Proof.
  unfold analyzeWithConfig, reports, issue_reports, task_reports, other_reports.
  set (tl := λ i z ts d, sort_by finding_le (i ++ z ++ val (collectE (hazard_finding E) (hazards_of d)) d ++ failures_of ts ++ val (workerTunnelFindings E repo now) d)).
  set (isr := λ cs ev d, concat (map (λ c, if isIntermediateState (currentState (ic_Labels c) (ic_State c))
    then issue_findings now c (has_active (ic_Repo c, ic_IssueNum c) d) (db_depstate d !! (ic_Repo c, ic_IssueNum c)) (latest_events ev !! issueKey (ic_Repo c) (ic_IssueNum c))
    else []) cs)).
  set (zs := λ cs ts d, concat (map (task_report d (issue_states cs)) ts)).
  apply (reads_bindE _ _ _ (λ cs d, tl (isr cs (events_of repo d) d) (zs cs (all_tasks d) d) (all_tasks d) d) reads_caches). intros cs.
  apply (reads_bindE _ (events_of repo) _ (λ ev d, tl (isr cs ev d) (zs cs (all_tasks d) d) (all_tasks d) d)); [query|]. intros ev.
  apply (reads_bindE _ all_tasks _ (λ ts d, tl (isr cs ev d) (zs cs ts d) ts d)); [query|]. intros ts.
  rewrite Hps. apply readsE_bind_ret.
  apply (reads_bindE _ (isr cs ev) _ (λ i d, tl i (zs cs ts d) ts d)); [by apply reads_collect; intros c; apply reads_issue|]. intros i.
  apply (reads_bindE _ (zs cs ts) _ (λ z d, tl i z ts d)); [by apply reads_collect; intros t; apply reads_task|]. intros z.
  apply (reads_bindE _ hazards_of _ (λ hs d, sort_by finding_le (i ++ z ++ val (collectE (hazard_finding E) hs) d ++ failures_of ts ++ val (workerTunnelFindings E repo now) d))); [query|].
  intros hs. apply (reads_bindE _ _ _ (λ hz d, sort_by finding_le (i ++ z ++ hz ++ failures_of ts ++ val (workerTunnelFindings E repo now) d))
    (proj1 (manual_val _ (manual_collect _ hs hazard_manual)))). intros hz.
  apply (reads_bindE _ _ _ (λ tu _, sort_by finding_le (i ++ z ++ hz ++ failures_of ts ++ tu)) (proj1 (manual_val _ tunnels_manual))). intros tu. apply readsE_ret.
Qed.
(** ** The repairs *)

Definition marks (f : DiagFinding) : bool := fi_AutoFixable f && negb (bool_decide (fi_FixAction f = EmptyString)).
Definition resets (f : DiagFinding) : bool := fi_AutoFixable f && bool_decide (fi_FixAction f = EmptyString).
Definition issue_of (f : DiagFinding) : string * Z := (fi_Repo f, fi_IssueNum f).
Definition reset_keys (L : list DiagFinding) : list (string * Z) := issue_of <$> List.filter resets L.
(** A row that the operator has settled. *)
Definition finalised (f : DiagFinding) (t : TaskRecord) : TaskRecord :=
  let done := bool_decide (fi_FixAction f = "mark_completed") in
  upd_t_Status (λ _, if done then TaskStatusCompleted else TaskStatusFailed) (upd_t_ExitCode (λ _, if done then 0 else 1)
    (upd_t_CompletedAt (λ _, Some (sql_now E)) (upd_t_HeartbeatAt (λ _, Some (sql_now E))
    (upd_t_LeaseExpiresAt (λ _, None) (upd_t_UpdatedAt (λ _, Some (sql_now E)) t))))).
Definition settle (L : list DiagFinding) (t : TaskRecord) : TaskRecord :=
  match List.find (λ f, marks f && bool_decide (fi_TaskID f = t_ID t)) L with Some f => finalised f t | None => t end.
(** What a mark needs. *)
Definition fixable (d : DB) (f : DiagFinding) : Prop := marks f = true →
  (fi_FixAction f = "mark_completed" ∨ fi_FixAction f = "mark_failed") ∧ ∃ t, t ∈ db_tasks d ∧ t_ID t = fi_TaskID f ∧ t_Status t = TaskStatusRunning.

Definition others_of (d : DB) := (db_sessions d, db_hazards d, db_repos d, db_workers d).
Record fixed (L : list DiagFinding) (d d' : DB) : Prop := {
  fx_tasks : db_tasks d' = settle L <$> db_tasks d;
  fx_cache : ∀ k, db_cache d' !! k = if bool_decide (k ∈ reset_keys L) then None else db_cache d !! k;
  fx_dep : ∀ k, db_depstate d' !! k = if bool_decide (k ∈ reset_keys L) then None else db_depstate d !! k;
  fx_events : ∃ new, db_events d' = db_events d ++ new ∧ Forall (λ e, ∃ f, f ∈ L ∧ fi_AutoFixable f = true ∧ issue_of f = (er_Repo e, er_IssueNum e)) new;
  fx_rest : others_of d' = others_of d
}.

Lemma event_run ty r n p d :
  ∃ id d', InsertEvent E ty r n p d = (Ok id, d') ∧ db_tasks d' = db_tasks d ∧ db_cache d' = db_cache d ∧ db_depstate d' = db_depstate d ∧ others_of d' = others_of d ∧
    ∃ e, db_events d' = db_events d ++ [e] ∧ er_Repo e = r ∧ er_IssueNum e = n.
Proof.
  exists (insert_event_row E ty r n p d).1, (upd_db_call (insert_event_row E ty r n p d).2). split.
  - unfold InsertEvent, wrapE, mbind, St_bind. cbn [insert_event_loop]. unfold mbind, St_bind. by rewrite (sql_quiet E (insert_event_row E ty r n p) d HE).
  - split_and!; try done. eexists. by split_and!.
Qed.
Lemma reset_run f d : fi_FixAction f = EmptyString → ∃ d', applyDiagnoseFindingFix E f d = (Ok tt, d') ∧ db_tasks d' = db_tasks d ∧
  db_cache d' = base.delete (issue_of f) (db_cache d) ∧ db_depstate d' = base.delete (issue_of f) (db_depstate d) ∧ others_of d' = others_of d ∧
  ∃ e, db_events d' = db_events d ++ [e] ∧ issue_of f = (er_Repo e, er_IssueNum e).
Proof.
  intros Hf. unfold applyDiagnoseFindingFix. rewrite Hf, bool_decide_true by done. cbn [orb]. unfold runCacheInvalidateStore.
  set (q := quoted_fields _).
  set (d1 := upd_db_call d).
  set (d2 := match db_cache d !! issue_of f with Some _ => upd_db_call (upd_db_cache (base.delete (issue_of f)) d1) | None => d1 end).
  set (d3 := upd_db_call (upd_db_depstate (base.delete (issue_of f)) d2)).
  destruct (event_run "cache_invalidated" (fi_Repo f) (fi_IssueNum f) q d3) as (id & d4 & Hrun & Ht & Hc & Hd & Ho & e & Hev & Her & Hei).
  exists d4. split_and!.
  - assert (∀ (A : Type) (op : DB → A * DB) x, sql E op x = (Ok (op x).1, upd_db_call (op x).2)) as Hsql by (intros; by apply sql_quiet).
    erewrite run_bindE_ok; [reflexivity|]. unfold runCacheInvalidateStore.
    erewrite run_bindE_ok; [|do 2 eapply run_wrap_ok; apply Hsql]. cbn [fst snd]. fold (issue_of f).
    erewrite (run_bindE_ok _ _ _ tt d2); cycle 1.
    { unfold d2. destruct (db_cache d !! issue_of f) eqn:Hk; cbn; [|done]. do 2 eapply run_wrap_ok. apply Hsql. }
    erewrite run_bindE_ok; [|do 2 eapply run_wrap_ok; apply Hsql]. cbn [fst snd]. fold (issue_of f). fold d3.
    erewrite run_bindE_ok; [reflexivity|]. eapply run_wrap_ok. exact Hrun.
  - rewrite Ht. unfold d3, d2. by destruct (db_cache d !! issue_of f).
  - rewrite Hc. unfold d3, d2. destruct (db_cache d !! issue_of f) eqn:Hk; [done|]. cbn. by rewrite delete_id.
  - rewrite Hd. unfold d3, d2. by destruct (db_cache d !! issue_of f).
  - rewrite Ho. unfold d3, d2. by destruct (db_cache d !! issue_of f).
  - exists e. rewrite Hev. unfold d3, d2, issue_of. rewrite Her, Hei. split; [|done]. by destruct (db_cache d !! (fi_Repo f, fi_IssueNum f)).
Qed.
Lemma mark_run f d : fixable d f → marks f = true →
  ∃ d', applyDiagnoseFindingFix E f d = (Ok tt, d') ∧ db_tasks d' = update_rows (λ t, row_id (fi_TaskID f) t && status_in active_status t) (finalised f) (db_tasks d) ∧
    db_cache d' = db_cache d ∧ db_depstate d' = db_depstate d ∧ db_events d' = db_events d ∧ others_of d' = others_of d.
Proof.
  intros Hf Hm. destruct (Hf Hm) as [Hact (t & Ht & Hid & Hrun)]. clear Hf. unfold applyDiagnoseFindingFix.
  set (p := λ t, row_id (fi_TaskID f) t && status_in active_status t).
  assert (length (List.filter p (db_tasks d)) ≠ 0%nat) as Hn.
  { assert (t ∈ List.filter p (db_tasks d)) as Hin.
    { apply list_elem_of_In, filter_In. split; [by apply list_elem_of_In|]. unfold p, row_id, status_in. rewrite Hid, Hrun. by rewrite bool_decide_true. }
    destruct (List.filter p (db_tasks d)); [by apply elem_of_nil in Hin|done]. }
  exists (upd_db_call (upd_db_tasks (update_rows p (finalised f)) d)).
  split; [|done]. unfold finalised. apply Nat.eqb_neq in Hn.
  destruct Hact as [Ha|Ha]; rewrite Ha; cbn [bool_decide]; repeat first [rewrite bool_decide_false by done | rewrite bool_decide_true by done]; cbn [orb];
    unfold FinalizeTaskForOperator; (rewrite bool_decide_true by set_solver); cbn [negb];
    (erewrite run_bindE_ok; [|eapply run_wrap_ok; by apply sql_quiet]); cbn [update_where fst snd]; fold p; by rewrite Hn.
Qed.
Lemma finalised_id f t : t_ID (finalised f t) = t_ID t.
Proof. done. Qed.
Lemma settle_id L t : t_ID (settle L t) = t_ID t.
Proof. unfold settle. by destruct (List.find _ L). Qed.
Lemma settle_wf L d d' : tasks_wf d → db_tasks d' = settle L <$> db_tasks d → tasks_wf d'.
Proof.
  intros Hwf Hd. unfold tasks_wf. rewrite Hd, <-list_fmap_compose. erewrite list_fmap_ext; [exact Hwf|]. intros i t _. apply settle_id.
Qed.

Lemma settle_none L (l : list TaskRecord) : Forall (λ f, marks f = false) L → settle L <$> l = l.
Proof.
  intros HL. rewrite <-(list_fmap_id l) at 2. apply list_fmap_ext. intros i t _. unfold settle.
  destruct (List.find _ L) as [f|] eqn:Hf; [|done]. apply find_some in Hf as [Hin [Hm _]%andb_prop]. rewrite Forall_forall in HL.
  apply list_elem_of_In in Hin. by rewrite (HL f Hin) in Hm.
Qed.
Lemma keys_cons f L : reset_keys (f :: L) = (if resets f then [issue_of f] else []) ++ reset_keys L.
Proof. unfold reset_keys. cbn. by destruct (resets f). Qed.
Lemma keys_split f L k : bool_decide (k ∈ reset_keys (f :: L)) = bool_decide (k ∈ reset_keys [f]) || bool_decide (k ∈ reset_keys L).
Proof.
  rewrite (keys_cons f L), (keys_cons f []). unfold reset_keys at 2. cbn. rewrite app_nil_r.
  rewrite <-bool_decide_or. apply bool_decide_ext. apply elem_of_app.
Qed.
Lemma delete_one {V} (m : gmap (string * Z) V) f k : resets f = true → base.delete (issue_of f) m !! k = if bool_decide (k ∈ reset_keys [f]) then None else m !! k.
Proof.
  intros Hf. rewrite keys_cons, Hf. cbn. case_bool_decide as Hin.
  - apply list_elem_of_singleton in Hin as ->. by rewrite lookup_delete_eq.
  - rewrite lookup_delete_ne; [done|]. intros <-. apply Hin. by apply list_elem_of_singleton.
Qed.
Lemma no_keys f k : resets f = false → bool_decide (k ∈ reset_keys [f]) = false.
Proof. intros Hf. rewrite keys_cons, Hf. cbn. by apply bool_decide_false; intros ?%elem_of_nil. Qed.
Lemma mark_rows f d : tasks_wf d → fixable d f → marks f = true →
  update_rows (λ t, row_id (fi_TaskID f) t && status_in active_status t) (finalised f) (db_tasks d) = settle [f] <$> db_tasks d.
Proof.
  intros Hwf Hf Hm. destruct (Hf Hm) as [_ (t0 & Ht0 & Hid & Hrun)]. apply list_fmap_ext. intros i t Hi%list_elem_of_lookup_2.
  unfold settle, row_id. cbn. rewrite Hm. cbn [andb]. rewrite (bool_decide_ext (t_ID t = fi_TaskID f) (fi_TaskID f = t_ID t)) by done.
  case_bool_decide as Hd; [|done]. cbn [andb].
  assert (t = t0) as ->; [|unfold status_in; by rewrite Hrun].
  pose proof (find_task_unique d t Hwf Hi) as H1. pose proof (find_task_unique d t0 Hwf Ht0) as H2. rewrite Hid, Hd in H2. congruence.
Qed.

Lemma fix_one_run f d : tasks_wf d → fixable d f → ∃ d', fix_one E f d = (Ok tt, d') ∧ fixed [f] d d'.
Proof.
  intros Hwf Hf. unfold fix_one. destruct (fi_AutoFixable f) eqn:Hauto.
  - set (q := quoted_fields _). destruct (marks f) eqn:Hm.
    + destruct (mark_run f d Hf Hm) as (d1 & Hrun & Ht & Hc & Hd & He & Ho).
      destruct (event_run "auto_fix" (fi_Repo f) (fi_IssueNum f) q d1) as (id & d2 & Hrun2 & Ht2 & Hc2 & Hd2 & Ho2 & e2 & He2 & Hr2 & Hi2).
      assert (resets f = false) as Hrs. { unfold marks, resets in *. rewrite Hauto in *. cbn in *. by destruct (bool_decide _). }
      exists d2. split.
      * erewrite run_bindE_ok; [|by eapply run_wrap_ok]. erewrite run_bindE_ok; [done|]. by eapply run_wrap_ok.
      * split; [|intros k; by rewrite no_keys, Hc2, Hc|intros k; by rewrite no_keys, Hd2, Hd| |by rewrite Ho2, Ho].
        -- by rewrite Ht2, Ht, mark_rows.
        -- exists [e2]. rewrite He2, He. split; [done|]. repeat constructor. exists f. rewrite Hr2, Hi2. split; [by apply list_elem_of_singleton|done].
    + assert (resets f = true) as Hrs. { unfold marks, resets in *. rewrite Hauto in *. cbn in *. by destruct (bool_decide _). }
      assert (fi_FixAction f = EmptyString) as Hact. { unfold resets in Hrs. by apply andb_prop in Hrs as [_ ?%bool_decide_eq_true]. }
      destruct (reset_run f d Hact) as (d1 & Hrun & Ht & Hc & Hd & Ho & e & He & Hie).
      destruct (event_run "auto_fix" (fi_Repo f) (fi_IssueNum f) q d1) as (id & d2 & Hrun2 & Ht2 & Hc2 & Hd2 & Ho2 & e2 & He2 & Hr2 & Hi2).
      exists d2. split.
      * erewrite run_bindE_ok; [|by eapply run_wrap_ok]. erewrite run_bindE_ok; [done|]. by eapply run_wrap_ok.
      * split; [|intros k; rewrite Hc2, Hc; by apply delete_one|intros k; rewrite Hd2, Hd; by apply delete_one| |by rewrite Ho2, Ho].
        -- rewrite Ht2, Ht, settle_none; [done|by repeat constructor].
        -- exists [e; e2]. rewrite He2, He, <-app_assoc. split; [done|].
           repeat constructor; exists f; (split; [by apply list_elem_of_singleton|]); split; try done; by rewrite Hr2, Hi2.
  - assert (marks f = false ∧ resets f = false) as [Hm Hrs] by (unfold marks, resets; by rewrite Hauto).
    exists d. split; [done|]. split; [|intros k; by rewrite no_keys|intros k; by rewrite no_keys|exists []; by rewrite app_nil_r|done].
    rewrite settle_none; [done|by repeat constructor].
Qed.

(** Repairs one after the other. *)
Definition mark_ids (L : list DiagFinding) : list string := fi_TaskID <$> List.filter marks L.
Lemma fixed_cons f L d d1 d2 : NoDup (mark_ids (f :: L)) → fixed [f] d d1 → fixed L d1 d2 → fixed (f :: L) d d2.
Proof.
  intros Hnd [Ht1 Hc1 Hd1 (n1 & He1 & Hn1) Ho1] [Ht2 Hc2 Hd2 (n2 & He2 & Hn2) Ho2]. split.
  - rewrite Ht2, Ht1, <-list_fmap_compose. apply list_fmap_ext. intros i t _. cbn. unfold settle. cbn [List.find].
    destruct (marks f) eqn:Hm; cbn [andb]; [|done]. case_bool_decide as Hid; [|done]. rewrite finalised_id.
    destruct (List.find _ L) as [g|] eqn:Hg; [|done]. apply find_some in Hg as [Hin [Hgm Hgi%bool_decide_eq_true]%andb_prop].
    unfold mark_ids in Hnd. cbn in Hnd. rewrite Hm in Hnd. cbn in Hnd. apply NoDup_cons in Hnd as [Hnin _]. exfalso. apply Hnin.
    rewrite Hid, <-Hgi. apply list_elem_of_fmap_2, list_elem_of_In, filter_In. done.
  - intros k. rewrite Hc2, Hc1, (keys_split f L). by destruct (bool_decide (k ∈ reset_keys [f])), (bool_decide (k ∈ reset_keys L)).
  - intros k. rewrite Hd2, Hd1, (keys_split f L). by destruct (bool_decide (k ∈ reset_keys [f])), (bool_decide (k ∈ reset_keys L)).
  - exists (n1 ++ n2). rewrite He2, He1, app_assoc. split; [done|]. apply Forall_app_2; eapply Forall_impl; try done; cbn; intros e (g & Hg & ?); exists g; (split; [|done]).
    + apply list_elem_of_singleton in Hg as ->. left.
    + by right.
  - by rewrite Ho2, Ho1.
Qed.
Lemma fixed_nil d : fixed [] d d.
Proof. split; [by rewrite settle_none|done|done|exists []; by rewrite app_nil_r|done]. Qed.
Lemma fix_run L d : tasks_wf d → Forall (fixable d) L → NoDup (mark_ids L) → ∃ d', forE L (fix_one E) d = (Ok tt, d') ∧ fixed L d d'.
Proof.
  revert d. induction L as [|f L IH]; intros d Hwf Hf Hnd; [exists d; split; [done|apply fixed_nil]|].
  apply Forall_cons in Hf as [Hf HL]. destruct (fix_one_run f d Hwf Hf) as (d1 & Hrun & Hfx). cbn [forE].
  erewrite run_bindE_ok by exact Hrun.
  assert (NoDup (mark_ids L)) as Hnd'. { unfold mark_ids in Hnd. cbn in Hnd. destruct (marks f); [by apply NoDup_cons in Hnd as [_ ?]|done]. }
  destruct (IH d1) as (d2 & Hrun2 & Hfx2); [by eapply settle_wf; [|apply Hfx]| |done|].
  - rewrite Forall_forall in HL |- *. intros g Hg Hgm. destruct (HL g Hg Hgm) as [Ha (t & Ht & Hid & Hst)]. split; [done|].
    exists t. split; [|done]. rewrite (fx_tasks _ _ _ Hfx). apply list_elem_of_fmap. exists t. split; [|done]. unfold settle. cbn.
    destruct (marks f) eqn:Hm; cbn [andb]; [|done]. case_bool_decide as Heq; [|done]. exfalso.
    unfold mark_ids in Hnd. cbn in Hnd. rewrite Hm in Hnd. cbn in Hnd. apply NoDup_cons in Hnd as [Hnin _]. apply Hnin.
    rewrite Heq, Hid. apply list_elem_of_fmap_2, list_elem_of_In, filter_In. split; [by apply list_elem_of_In|done].
  - exists d2. split; [done|]. by eapply fixed_cons.
Qed.
(** ** Which findings are repaired *)

(** A running task whose row is fresh while its session file has not changed for twice
    the idle threshold, or whose worktree no process of its runtime works in. *)
Definition zombie (d : DB) (t : TaskRecord) : bool :=
  negb (out_of_scope (t_Repo t)) && status_is TaskStatusRunning t && (since now (t_UpdatedAt t) <=? orphanedThresholdForTask t (dc_AgentTimeouts cfg))
  && ((signal_of t d).2 || taskMissingChildProcess t (signal_of t d).1.1 now processes).
Definition advanced (d : DB) (t : TaskRecord) : bool := (taskAdvancedPastIssueState t (issue_states (listed_caches d))).1.

Lemma issue_report_shape d c f : f ∈ issue_report d c →
  resets f = true ∧ issue_of f = (ic_Repo c, ic_IssueNum c) ∧ isIntermediateState (currentState (ic_Labels c) (ic_State c)) = true ∧ has_active (ic_Repo c, ic_IssueNum c) d = false.
Proof.
  unfold issue_report. destruct (isIntermediateState _); [|by intros ?%elem_of_nil]. unfold issue_findings. rewrite elem_of_app. intros [Hf|Hf].
  - destruct (latest_events _ !! _); [|by apply elem_of_nil in Hf]. destruct (has_active _ d); cbn [negb andb] in Hf; [by apply elem_of_nil in Hf|].
    destruct (_ <? _); [|by apply elem_of_nil in Hf]. by apply list_elem_of_singleton in Hf as ->.
  - destruct (db_depstate d !! _); [|by apply elem_of_nil in Hf]. destruct (has_active _ d); [rewrite andb_false_r in Hf; by apply elem_of_nil in Hf|].
    destruct (_ && _); [|by apply elem_of_nil in Hf]. by apply list_elem_of_singleton in Hf as ->.
Qed.
Lemma fix_action_some b : bool_decide (orphanedTaskFixAction b = EmptyString) = false.
Proof. by destruct b. Qed.
Lemma task_report_cases d st t :
  (zombie d t = true ∧ ∃ f, task_report d st t = [f] ∧ marks f = true ∧ fi_TaskID f = t_ID t ∧ fi_FixAction f = orphanedTaskFixAction (taskAdvancedPastIssueState t st).1) ∨
  (zombie d t = false ∧ manual (task_report d st t)).
Proof.
  unfold task_report, zombie. destruct (out_of_scope (t_Repo t)); [right; split; [done|constructor]|]. cbn [negb andb].
  destruct (status_is TaskStatusRunning t); cbn [negb andb]; [|right; split; [done|constructor]].
  rewrite Z.ltb_antisym. destruct (_ <=? _); cbn [negb andb]; [|right; split; [done|by repeat constructor]].
  unfold zombie_findings. destruct (signal_of t d) as [[root idle] stale]. destruct (taskAdvancedPastIssueState t st) as [adv cur]. cbn [fst snd].
  destruct stale; cbn [orb]; [|destruct (taskMissingChildProcess t root now processes)].
  - left. split; [done|]. eexists. split; [reflexivity|]. unfold marks. cbn. by rewrite fix_action_some.
  - left. split; [done|]. eexists. split; [reflexivity|]. unfold marks. cbn. by rewrite fix_action_some.
  - right. split; [done|]. destruct adv; by repeat constructor.
Qed.
Lemma reset_not_mark f : resets f = true → marks f = false.
Proof. unfold resets, marks. by intros [-> ->]%andb_prop. Qed.
Lemma manual_not f : fi_AutoFixable f = false → marks f = false ∧ resets f = false.
Proof. unfold resets, marks. by intros ->. Qed.

Lemma elem_reports d f : f ∈ reports d ↔ f ∈ issue_reports d ∨ f ∈ task_reports d ∨ f ∈ other_reports d.
Proof. unfold reports. by rewrite sort_by_perm, !elem_of_app. Qed.
Lemma elem_concat_map {A B} (g : A → list B) xs b : b ∈ concat (map g xs) ↔ ∃ x, x ∈ xs ∧ b ∈ g x.
Proof.
  induction xs as [|x xs IH]; cbn; [split; [by intros ?%elem_of_nil|by intros (? & ?%elem_of_nil & _)]|].
  rewrite elem_of_app, IH. split.
  - intros [?|(y & ? & ?)]; [exists x; split; [left|done]|exists y; split; [by right|done]].
  - intros (y & [->|Hy]%elem_of_cons & ?); [by left|right; by exists y].
Qed.
(** A finding that is repaired belongs to an issue or to a zombie. *)
Lemma auto_cases d f : f ∈ reports d → fi_AutoFixable f = true →
  (resets f = true ∧ ∃ c, c ∈ listed_caches d ∧ f ∈ issue_report d c) ∨
  (marks f = true ∧ ∃ t, t ∈ db_tasks d ∧ zombie d t = true ∧ fi_TaskID f = t_ID t ∧ fi_FixAction f = orphanedTaskFixAction (advanced d t)).
Proof.
  intros [Hf|[Hf|Hf]]%elem_reports Ha.
  - left. apply elem_concat_map in Hf as (c & Hc & Hf). destruct (issue_report_shape d c f Hf) as [Hr _]. split; [done|]. by exists c.
  - right. apply elem_concat_map in Hf as (t & Ht & Hf). apply list_elem_of_fmap in Ht as (t0 & -> & Ht0). rewrite sort_by_perm in Ht0.
    apply list_elem_of_In, filter_In in Ht0 as [Ht0%list_elem_of_In _].
    destruct (task_report_cases d (issue_states (listed_caches d)) (scanTaskRecord d t0)) as [(Hz & g & Hg & Hm & Hid & Hact)|[_ Hman]].
    + rewrite Hg in Hf. apply list_elem_of_singleton in Hf as ->. split; [done|]. by exists t0.
    + unfold manual in Hman. rewrite Forall_forall in Hman. by rewrite (Hman f Hf) in Ha.
  - pose proof (others_manual d) as Hman. unfold manual in Hman. rewrite Forall_forall in Hman. by rewrite (Hman f Hf) in Ha.
Qed.
Lemma auto_split f : fi_AutoFixable f = true → marks f = true ∨ resets f = true.
Proof. unfold marks, resets. intros ->. cbn. destruct (bool_decide _); auto. Qed.
Lemma reports_fixable d : Forall (fixable d) (reports d).
Proof.
  apply Forall_forall. intros f Hf Hm. assert (fi_AutoFixable f = true) as Ha by (unfold marks in Hm; by apply andb_prop in Hm as [? _]).
  destruct (auto_cases d f Hf Ha) as [[Hr _]|[_ (t & Ht & Hz & Hid & Hact)]]; [apply reset_not_mark in Hr; congruence|].
  split; [rewrite Hact; destruct (advanced d t); auto|]. exists t. split_and!; [done|done|].
  unfold zombie in Hz. split_andb. unfold status_is in *. by repeat match goal with H : bool_decide _ = true |- _ => apply bool_decide_eq_true in H end.
Qed.
Lemma filter_bool_perm {A} (p : A → bool) l l' : l ≡ₚ l' → List.filter p l ≡ₚ List.filter p l'.
Proof.
  induction 1 as [|x l l' _ IH|x y l|]; cbn; [done|by destruct (p x); rewrite ?IH|by destruct (p x), (p y); rewrite ?(Permutation_swap x y)|by etrans].
Qed.
Lemma mark_ids_none L : Forall (λ f, marks f = false) L → mark_ids L = [].
Proof. unfold mark_ids. induction 1 as [|f L Hf _ IH]; [done|]. cbn. by rewrite Hf. Qed.
Lemma mark_ids_app L L' : mark_ids (L ++ L') = mark_ids L ++ mark_ids L'.
Proof. unfold mark_ids. by rewrite List.filter_app, fmap_app. Qed.
Lemma mark_ids_tasks d st ts : mark_ids (concat (map (task_report d st) ts)) `sublist_of` (t_ID <$> ts).
Proof.
  induction ts as [|t ts IH]; [done|]. cbn [map concat]. rewrite mark_ids_app.
  destruct (task_report_cases d st t) as [(_ & f & -> & Hm & Hid & _)|[_ Hman]].
  - unfold mark_ids at 1. cbn. rewrite Hm. cbn. rewrite Hid. by apply sublist_skip.
  - rewrite mark_ids_none; [by apply sublist_cons|]. eapply Forall_impl; [exact Hman|]. intros f Hf. by apply manual_not.
Qed.
Lemma reports_nodup d : tasks_wf d → NoDup (mark_ids (reports d)).
Proof.
  intros Hwf. assert (mark_ids (reports d) ≡ₚ mark_ids (task_reports d)) as ->.
  { transitivity (mark_ids (issue_reports d ++ task_reports d ++ other_reports d)).
    - unfold mark_ids. apply fmap_Permutation, filter_bool_perm, sort_by_perm.
    - rewrite !mark_ids_app, (mark_ids_none (issue_reports d)), (mark_ids_none (other_reports d)); [by rewrite app_nil_r| |].
      + eapply Forall_impl; [apply others_manual|]. intros f Hf. by apply manual_not.
      + apply Forall_forall. intros f (c & _ & Hf)%elem_concat_map. by apply reset_not_mark, (issue_report_shape d c f). }
  eapply sublist_NoDup; [|apply mark_ids_tasks]. unfold all_tasks. rewrite <-list_fmap_compose.
  change (t_ID ∘ scanTaskRecord d) with t_ID. rewrite sort_by_perm.
  unfold tasks_wf in Hwf. revert Hwf. generalize (db_tasks d) as l. intros l Hl.
  eapply sublist_NoDup; [exact Hl|]. clear Hl. induction l as [|t l IH]; [done|]. cbn. destruct (task_matches _ t); cbn; [by apply sublist_skip|by apply sublist_cons].
Qed.

Lemma fixed_calls L n d d' : fixed L (Nat.iter n upd_db_call d) d' → fixed L d d'.
Proof.
  intros [H1 H2 H3 H4 H5]. rewrite (iter_calls db_tasks) in H1 by done. rewrite (iter_calls db_events) in H4 by done.
  rewrite (iter_calls others_of) in H5 by done. split; [done| | |done|done].
  - intros k. rewrite H2. by rewrite (iter_calls db_cache).
  - intros k. rewrite H3. by rewrite (iter_calls db_depstate).
Qed.
(** One run of the command with [--fix]. *)
Lemma diagnose_run d : tasks_wf d →
  ∃ d', runDiagnoseWithOpts mode E stat ps cwd repo now cfg true d = (Ok (map (λ f, (f, fi_AutoFixable f)) (reports d)), d') ∧ fixed (reports d) d d'.
Proof.
  intros Hwf. destruct (proj2 analysis_reads d) as [n Hn]. destruct (fix_run (reports d) (Nat.iter n upd_db_call d)) as (d' & Hrun & Hfx).
  - unfold tasks_wf. by rewrite (iter_calls db_tasks).
  - eapply Forall_impl; [apply reports_fixable|]. intros f Hf. unfold fixable. by rewrite (iter_calls db_tasks).
  - by apply reports_nodup.
  - exists d'. split; [|by eapply fixed_calls]. unfold runDiagnoseWithOpts. erewrite run_bindE_ok by exact Hn. by erewrite run_bindE_ok by exact Hrun.
Qed.
(** ** What is left after a run *)

Lemma filter_map_bool {A B} (p : B → bool) (g : A → B) l : List.filter p (g <$> l) = g <$> List.filter (p ∘ g) l.
Proof. induction l as [|x l IH]; [done|]. cbn. unfold compose. destruct (p (g x)); cbn; by rewrite IH. Qed.
Lemma find_map_bool {A B} (p : B → bool) (g : A → B) l : List.find p (g <$> l) = g <$> List.find (p ∘ g) l.
Proof. induction l as [|x l IH]; [done|]. cbn. unfold compose. by destruct (p (g x)). Qed.
(** The status that the join puts into a session has no part in the signal. *)
Lemma signal_sessions t d d' : db_sessions d' = db_sessions d → signal_of t d' = signal_of t d.
Proof.
  intros Hs. unfold signal_of, sessions_of. destruct mode; [done|]. rewrite Hs.
  set (p := session_matches _). set (l := db_sessions d).
  assert (∀ x, p ∘ scanSessionRow x = p) as Hp by (intros x; reflexivity).
  rewrite !filter_map_bool, !Hp, <-!fmap_reverse, !find_map_bool.
  change ((λ r, bool_decide (ss_TaskID r = t_ID t)) ∘ scanSessionRow d') with (λ r, bool_decide (ss_TaskID r = t_ID t)).
  change ((λ r, bool_decide (ss_TaskID r = t_ID t)) ∘ scanSessionRow d) with (λ r, bool_decide (ss_TaskID r = t_ID t)).
  by destruct (List.find _ (reverse (List.filter p l))).
Qed.
Lemma zombie_sessions t d d' : db_sessions d' = db_sessions d → zombie d' t = zombie d t.
Proof. intros Hs. unfold zombie. by rewrite (signal_sessions t d d' Hs). Qed.
Lemma fixed_sessions L d d' : fixed L d d' → db_sessions d' = db_sessions d.
Proof. intros Hfx. pose proof (fx_rest _ _ _ Hfx) as Hr. unfold others_of in Hr. congruence. Qed.

Lemma zombie_listed d t : t ∈ db_tasks d → zombie d t = true → ∃ f, f ∈ reports d ∧ marks f = true ∧ fi_TaskID f = t_ID t.
Proof.
  intros Ht Hz. assert (status_is TaskStatusRunning t = true) as Hst by (unfold zombie in Hz; by split_andb).
  destruct (task_report_cases d (issue_states (listed_caches d)) (scanTaskRecord d t)) as [(_ & f & Hf & Hm & Hid & _)|[Hn _]]; [|by change (zombie d t = false) in Hn; rewrite Hz in Hn].
  exists f. split; [|done]. apply elem_reports. right. left. apply elem_concat_map. exists (scanTaskRecord d t). split; [|rewrite Hf; by apply list_elem_of_singleton].
  apply list_elem_of_fmap_2. rewrite sort_by_perm. apply list_elem_of_In, filter_In. split; [by apply list_elem_of_In|].
  unfold task_matches. cbn. unfold status_is in *. apply bool_decide_eq_true in Hst. by rewrite Hst.
Qed.
Lemma settle_cases d t : t ∈ db_tasks d → tasks_wf d →
  (zombie d t = false ∧ settle (reports d) t = t) ∨
  (zombie d t = true ∧ t_Status (settle (reports d) t) = if advanced d t then TaskStatusCompleted else TaskStatusFailed).
Proof.
  intros Ht Hwf. unfold settle. destruct (List.find _ (reports d)) as [f|] eqn:Hf.
  - apply find_some in Hf as [Hin%list_elem_of_In [Hm Hid%bool_decide_eq_true]%andb_prop].
    assert (fi_AutoFixable f = true) as Ha by (unfold marks in Hm; by apply andb_prop in Hm as [? _]).
    destruct (auto_cases d f Hin Ha) as [[Hr _]|[_ (t0 & Ht0 & Hz & Hid0 & Hact)]]; [apply reset_not_mark in Hr; congruence|].
    assert (t0 = t) as ->. { pose proof (find_task_unique d t Hwf Ht). pose proof (find_task_unique d t0 Hwf Ht0). rewrite <-Hid0, Hid in *. congruence. }
    right. split; [done|]. cbn. rewrite Hact. by destruct (advanced d t).
  - left. split; [|done]. destruct (zombie d t) eqn:Hz; [|done]. destruct (zombie_listed d t Ht Hz) as (f & Hin & Hm & Hid).
    apply list_elem_of_In in Hin. pose proof (find_none _ _ Hf f Hin) as Hn. cbn in Hn. rewrite Hm, Hid, bool_decide_true in Hn by done. done.
Qed.
Lemma no_zombies d d' : tasks_wf d → fixed (reports d) d d' → ∀ t, t ∈ db_tasks d' → zombie d' t = false.
Proof.
  intros Hwf Hfx t Ht. rewrite (fx_tasks _ _ _ Hfx) in Ht. apply list_elem_of_fmap in Ht as (t0 & -> & Ht0).
  rewrite (zombie_sessions _ d d') by by eapply fixed_sessions.
  destruct (settle_cases d t0 Ht0 Hwf) as [[Hz ->]|[Hz Hst]]; [done|]. unfold zombie, status_is. rewrite Hst.
  destruct (negb _); [|done]. by destruct (advanced d t0).
Qed.
(** Events of other issues do not move the last event of an issue. *)
Lemma latest_app evs new k : Forall (λ e, issueKey (er_Repo e) (er_IssueNum e) ≠ k) new → latest_events (evs ++ new) !! k = latest_events evs !! k.
Proof.
  unfold latest_events. rewrite foldl_app. generalize (foldl note_event ∅ evs) as m.
  intros m Hn. revert m. induction Hn as [|e new He _ IH]; intros m; [done|]. cbn [foldl]. rewrite IH. unfold note_event. cbv zeta.
  destruct (m !! issueKey _ _); [destruct (_ <? _); [|done]|]; by rewrite lookup_insert_ne.
Qed.
Lemma elem_caches r c d : c ∈ caches_of r d ↔ ∃ k row, db_cache d !! k = Some row ∧ c = scan_cache row ∧ (r = EmptyString ∨ ic_Repo c = r) ∧ is_pr_state (ic_State c) = false.
Proof.
  unfold caches_of. rewrite sort_by_perm, list_elem_of_fmap. split.
  - intros (row & -> & Hrow%list_elem_of_In%filter_In). destruct Hrow as [Hin Hp]. apply list_elem_of_In, list_elem_of_fmap in Hin as ([k row'] & -> & Hin).
    apply elem_of_map_to_list in Hin. exists k, row'. apply andb_prop in Hp as [Hp1 Hp2%negb_true_iff]. split_and!; [done|done| |done].
    apply orb_prop in Hp1 as [?%bool_decide_eq_true|?%bool_decide_eq_true]; auto.
  - intros (k & row & Hk & -> & Hr & Hp). exists row. split; [done|]. apply list_elem_of_In, filter_In. split.
    + apply list_elem_of_In, list_elem_of_fmap. exists (k, row). split; [done|]. by apply elem_of_map_to_list.
    + change (is_pr_state (ic_State row) = false) in Hp. change (r = EmptyString ∨ ic_Repo row = r) in Hr. rewrite Hp, andb_true_r. destruct Hr as [->|Hr]; [by rewrite bool_decide_true|]. by rewrite (bool_decide_true (ic_Repo row = r)), orb_true_r.
Qed.
Definition cache_wf (d : DB) : Prop := ∀ k row, db_cache d !! k = Some row → k = (ic_Repo row, ic_IssueNum row).
Lemma elem_repos r evs ts : r ∈ repos_of evs ts ↔ r ≠ EmptyString ∧ ((∃ e, e ∈ evs ∧ er_Repo e = r) ∨ ∃ t, t ∈ ts ∧ t_Repo t = r).
Proof.
  unfold repos_of. rewrite elem_of_elements, elem_of_list_to_set, list_elem_of_In, filter_In, <-list_elem_of_In, elem_of_app, negb_true_iff, bool_decide_eq_false.
  rewrite !list_elem_of_fmap. naive_solver.
Qed.
Lemma listed_row d c : c ∈ listed_caches d → ∃ k row, db_cache d !! k = Some row ∧ c = scan_cache row.
Proof.
  unfold listed_caches. case_bool_decide.
  - intros (r & _ & (k & row & ? & ? & _)%elem_caches)%elem_concat_map. by exists k, row.
  - intros (k & row & ? & ? & _)%elem_caches. by exists k, row.
Qed.
(** The repositories a run without a filter looks at. *)
Definition scanned (d : DB) : list string := repos_of (events_of EmptyString d) (all_tasks d).
Lemma listed_mono d d' c : (∀ k row, db_cache d' !! k = Some row → db_cache d !! k = Some row) → (repo = EmptyString → ∀ r, r ∈ scanned d' → r ∈ scanned d) →
  c ∈ listed_caches d' → c ∈ listed_caches d.
Proof.
  intros Hrows Hrepos. unfold listed_caches. fold (scanned d) (scanned d'). case_bool_decide as Hr.
  - intros (r & Hin & Hc)%elem_concat_map. apply elem_concat_map. exists r. split; [by apply Hrepos|]. rewrite elem_caches in Hc |- *. naive_solver.
  - rewrite !elem_caches. naive_solver.
Qed.
Lemma listed_repo d c : repo = EmptyString → c ∈ listed_caches d → ic_Repo c ∈ scanned d.
Proof.
  intros Hr. unfold listed_caches. rewrite bool_decide_true by done. intros (r & Hin & (k & row & _ & _ & Hrc & _)%elem_caches)%elem_concat_map.
  assert (r ≠ EmptyString) as Hne by (by apply elem_repos in Hin as [? _]). destruct Hrc as [?|Hrc]; [done|]. unfold scanned. by rewrite Hrc.
Qed.

(** *** Whether an issue has moved on

    The labels show developing or reviewing, whichever comes first; when they show neither,
    the state that is read is what GitHub says of the issue (open or closed). *)
Definition stored_labels (row : IssueCache) : list string := match unmarshal_strings (ic_Labels row) with Some (Some l) => l | _ => [] end.
Definition shown (row : IssueCache) (st : string) : Prop :=
  (∃ l1 l2, stored_labels row = l1 ++ ("status:" +:+ st) :: l2 ∧ (st = "developing" ∨ st = "reviewing") ∧
     "status:developing" ∉ l1 ∧ "status:reviewing" ∉ l1) ∨
  ("status:developing" ∉ stored_labels row ∧ "status:reviewing" ∉ stored_labels row ∧ st = TrimPrefix (ic_State row) "status:").
(** The issue of the task is cached and shows a state that is not the one of the task. *)
Definition moved_on (d : DB) (t : TaskRecord) : Prop :=
  is_blank (t_State t) = false ∧ t_Repo t ≠ EmptyString ∧
  ∃ row st, db_cache d !! (t_Repo t, t_IssueNum t) = Some row ∧ is_pr_state (ic_State row) = false ∧
    shown row st ∧ st ≠ EmptyString ∧ st ≠ t_State t.

Definition cur_state (c : IssueCache) : string := TrimPrefix (currentState (ic_Labels c) (ic_State c)) "status:".
Lemma shown_iff row st : shown row st ↔ cur_state row = st.
Proof.
  unfold shown, cur_state, currentState. fold (stored_labels row). generalize (stored_labels row) as labels. generalize (ic_State row) as fb. intros fb labels.
  induction labels as [|l labels IH].
  - cbn. split; [intros [(l1 & l2 & Hl & _)|(_ & _ & ->)]; [by destruct l1|done]|]. intros <-. right. set_solver.
  - cbn [List.find]. destruct (bool_decide (l = "status:developing") || bool_decide (l = "status:reviewing")) eqn:Hl.
    + assert (l = "status:developing" ∨ l = "status:reviewing") as Hl2 by (apply orb_prop in Hl as [?%bool_decide_eq_true|?%bool_decide_eq_true]; auto).
      cbn [default from_option id]. split.
      * intros [([|x l1] & l2 & [= Hx Hl1] & Hst & H1 & H2)|(H1 & H2 & _)]; [rewrite Hx; by destruct Hst as [-> | ->]| |]; subst; set_solver.
      * intros <-. left. exists [], labels. destruct Hl2 as [-> | ->]; (split_and!; [reflexivity|cbn; auto|set_solver|set_solver]).
    + apply orb_false_iff in Hl as [Hl1%bool_decide_eq_false Hl2%bool_decide_eq_false]. rewrite <-IH. split.
      * intros [([|x l1] & l2 & [= Hx Hr] & Hst & H1 & H2)|(H1 & H2 & ->)]; [exfalso; subst; destruct Hst as [-> | ->]; [by apply Hl1|by apply Hl2]|left|right; set_solver].
        exists l1, l2. set_solver.
      * intros [(l1 & l2 & Hr & Hst & H1 & H2)|(H1 & H2 & ->)]; [left|right; set_solver]. exists (l :: l1), l2. rewrite Hr. set_solver.
Qed.
Lemma issue_states_spec l k cur :
  (∀ c c', c ∈ l → c' ∈ l → issueKey (ic_Repo c) (ic_IssueNum c) = k → issueKey (ic_Repo c') (ic_IssueNum c') = k → cur_state c = cur_state c') →
  issue_states l !! k = Some cur ↔ cur ≠ EmptyString ∧ ∃ c, c ∈ l ∧ issueKey (ic_Repo c) (ic_IssueNum c) = k ∧ cur_state c = cur.
Proof.
  induction l as [|c l IH] using rev_ind; intros Hu; [split; [done|by intros (_ & c & ?%elem_of_nil & _)]|].
  unfold issue_states. rewrite foldl_app. fold (issue_states l). cbn [foldl]. fold (cur_state c).
  assert (issue_states l !! k = Some cur ↔ cur ≠ EmptyString ∧ ∃ c, c ∈ l ∧ issueKey (ic_Repo c) (ic_IssueNum c) = k ∧ cur_state c = cur) as IH'
    by (apply IH; intros c1 c2 H1 H2; apply Hu; set_solver).
  case_bool_decide as Hc; [|destruct (decide (issueKey (ic_Repo c) (ic_IssueNum c) = k)) as [Hk|Hk]].
  - rewrite IH'. split; [set_solver|]. intros (Hne & c' & [Hin|Hin%list_elem_of_singleton]%elem_of_app & Hk & Hcur); [eauto|congruence].
  - rewrite Hk, lookup_insert_eq. split.
    + intros [= <-]. split; [done|]. exists c. set_solver.
    + intros (Hne & c' & Hin & Hk' & Hcur). f_equal. rewrite <-Hcur. apply Hu; set_solver.
  - rewrite lookup_insert_ne, IH' by done. split; [set_solver|]. intros (Hne & c' & [Hin|Hin%list_elem_of_singleton]%elem_of_app & Hk' & Hcur); [eauto|congruence].
Qed.
Lemma listed_iff d t c :
  cache_wf d → t ∈ db_tasks d → zombie d t = true →
  c ∈ listed_caches d ∧ ic_Repo c = t_Repo t ∧ ic_IssueNum c = t_IssueNum t ↔
  t_Repo t ≠ EmptyString ∧ ∃ row, db_cache d !! (t_Repo t, t_IssueNum t) = Some row ∧ is_pr_state (ic_State row) = false ∧ c = scan_cache row.
Proof.
  intros Hwf Ht Hz. unfold zombie in Hz. apply andb_prop in Hz as [[[Hsc%negb_true_iff Hrun]%andb_prop _]%andb_prop _].
  assert (scanTaskRecord d t ∈ all_tasks d) as Hall.
  { apply list_elem_of_fmap_2. rewrite sort_by_perm. apply list_elem_of_In, filter_In. split; [by apply list_elem_of_In|].
    unfold task_matches. cbn. unfold status_is in *. apply bool_decide_eq_true in Hrun. by rewrite Hrun. }
  assert (Hrow : ∀ k row r n, db_cache d !! k = Some row → ic_Repo (scan_cache row) = r → ic_IssueNum (scan_cache row) = n → db_cache d !! (r, n) = Some row).
  { intros k row r n Hk <- <-. pose proof (Hwf k row Hk) as ->. exact Hk. }
  unfold listed_caches. case_bool_decide as Hr; fold (scanned d).
  - split.
    + intros ((r & Hin & (k & row & Hk & -> & Hrc & Hp)%elem_caches)%elem_concat_map & H1 & H2). apply elem_repos in Hin as [Hne _].
      destruct Hrc as [?|Hrc]; [done|]. split; [congruence|]. exists row. split_and!; [by eapply Hrow|exact Hp|done].
    + intros (Hne & row & Hk & Hp & ->). pose proof (Hwf _ _ Hk) as [= H1 H2]. split; [|done]. apply elem_concat_map. exists (t_Repo t). split.
      * apply elem_repos. split; [done|]. right. by exists (scanTaskRecord d t).
      * apply elem_caches. exists (t_Repo t, t_IssueNum t), row. split_and!; [done|done|right; by rewrite H1|done].
  - unfold out_of_scope in Hsc. rewrite bool_decide_false in Hsc by done. cbn in Hsc. apply negb_false_iff, bool_decide_eq_true in Hsc. split.
    + intros ((k & row & Hk & -> & Hrc & Hp)%elem_caches & H1 & H2). split; [congruence|]. exists row. split_and!; [by eapply Hrow|exact Hp|done].
    + intros (Hne & row & Hk & Hp & ->). pose proof (Hwf _ _ Hk) as [= H1 H2]. split; [|done]. apply elem_caches.
      exists (t_Repo t, t_IssueNum t), row. split_and!; [done|done|right; cbn; congruence|done].
Qed.
Lemma advanced_iff d t :
  cache_wf d → t ∈ db_tasks d → zombie d t = true → (advanced d t = true ↔ moved_on d t).
Proof.
  intros Hwf Ht Hz. unfold advanced, taskAdvancedPastIssueState, moved_on. destruct (is_blank (t_State t)); [by split; [|intros [? _]]|].
  pose proof (listed_iff d t) as Hlist.
  assert (Hst : ∀ cur, issue_states (listed_caches d) !! issueKey (t_Repo t) (t_IssueNum t) = Some cur ↔
    cur ≠ EmptyString ∧ t_Repo t ≠ EmptyString ∧ ∃ row, db_cache d !! (t_Repo t, t_IssueNum t) = Some row ∧ is_pr_state (ic_State row) = false ∧ shown row cur).
  { intros cur. rewrite issue_states_spec.
    - split.
      + intros (Hne & c & Hin & [H1 H2]%issueKey_inj & Hcur). destruct (proj1 (Hlist c Hwf Ht Hz)) as (Hr & row & Hk & Hp & ->); [done|].
        split_and!; [done|done|]. exists row. split_and!; [done|done|]. by apply shown_iff.
      + intros (Hne & Hr & row & Hk & Hp & Hs%shown_iff). destruct (proj2 (Hlist (scan_cache row) Hwf Ht Hz)) as (Hin & H1 & H2); [by eauto|].
        split; [done|]. exists (scan_cache row). split_and!; [done|by rewrite H1, H2|exact Hs].
    - intros c c' Hc Hc' [H1 H2]%issueKey_inj [H3 H4]%issueKey_inj.
      destruct (proj1 (Hlist c Hwf Ht Hz)) as (_ & row & Hk & _ & ->); [done|]. destruct (proj1 (Hlist c' Hwf Ht Hz)) as (_ & row' & Hk' & _ & ->); [done|]. congruence. }
  destruct (issue_states (listed_caches d) !! _) as [cur|] eqn:Hcur; cbn [fst].
  - destruct (proj1 (Hst cur) eq_refl) as (Hne & Hr & row & Hk & Hp & Hs). rewrite andb_true_iff, !negb_true_iff, !bool_decide_eq_false. split.
    + intros [_ Hd]. split_and!; [done|done|]. by exists row, cur.
    + intros (_ & _ & row' & st & Hk' & _ & Hs' & _ & Hd). rewrite Hk in Hk'. injection Hk' as <-. apply shown_iff in Hs, Hs'. split; congruence.
  - split; [done|]. intros (_ & Hr & row & st & Hk & Hp & Hs & Hne & _). assert (None = Some st) as [=]. apply Hst. eauto 10.
Qed.

Section settled.
Context (d d' : DB).
Hypothesis Hnz : ∀ t, t ∈ db_tasks d → zombie d t = false.
Hypothesis Hfx : fixed (reports d) d d'.
Lemma settled_auto f : f ∈ reports d → fi_AutoFixable f = true → resets f = true ∧ ∃ c, c ∈ listed_caches d ∧ f ∈ issue_report d c.
Proof. intros Hf Ha. destruct (auto_cases d f Hf Ha) as [?|[_ (t & Ht & Hz & _)]]; [done|]. by rewrite Hnz in Hz. Qed.
Lemma settled_tasks : db_tasks d' = db_tasks d.
Proof.
  rewrite (fx_tasks _ _ _ Hfx). apply settle_none, Forall_forall. intros f Hf. destruct (fi_AutoFixable f) eqn:Ha; [|by apply manual_not].
  by apply reset_not_mark, settled_auto.
Qed.
Lemma settled_rows k row : db_cache d' !! k = Some row → db_cache d !! k = Some row ∧ k ∉ reset_keys (reports d).
Proof. rewrite (fx_cache _ _ _ Hfx). by case_bool_decide. Qed.
Lemma settled_repos : repo = EmptyString → ∀ r, r ∈ scanned d' → r ∈ scanned d.
Proof.
  intros Hr r. unfold scanned. rewrite !elem_repos. intros [Hne Hin]. split; [done|]. destruct Hin as [(e & He & Her)|(t & Ht & Htr)].
  - unfold events_of in He. destruct (fx_events _ _ _ Hfx) as (new & Hev & Hnew). rewrite Hev in He.
    apply list_elem_of_In, filter_In in He as [He%list_elem_of_In _]. apply elem_of_app in He as [He|He].
    + left. exists e. split; [|done]. apply list_elem_of_In, filter_In. split; [by apply list_elem_of_In|done].
    + rewrite Forall_forall in Hnew. destruct (Hnew e He) as (f & Hf & Ha & Hi). destruct (settled_auto f Hf Ha) as [_ (c & Hc & Hfc)].
      destruct (issue_report_shape d c f Hfc) as (_ & Hi' & _). rewrite Hi in Hi'. simplify_eq. pose proof (listed_repo d c Hr Hc) as Hs.
      unfold scanned in Hs. rewrite elem_repos in Hs. destruct Hs as [_ Hs]. by rewrite <-H0 in Hs.
  - right. unfold all_tasks in Ht. rewrite settled_tasks in Ht. apply list_elem_of_fmap in Ht as (t0 & -> & Ht0).
    exists (scanTaskRecord d t0). split; [by apply list_elem_of_fmap_2|done].
Qed.
Lemma settled_report c : (ic_Repo c, ic_IssueNum c) ∉ reset_keys (reports d) → issue_report d' c = issue_report d c.
Proof.
  intros Hk. unfold issue_report. destruct (isIntermediateState _); [|done].
  assert (has_active (ic_Repo c, ic_IssueNum c) d' = has_active (ic_Repo c, ic_IssueNum c) d) as -> by (unfold has_active; by rewrite settled_tasks).
  rewrite (fx_dep _ _ _ Hfx), bool_decide_false by done. f_equal. destruct (fx_events _ _ _ Hfx) as (new & Hev & Hnew).
  unfold events_of. rewrite Hev, List.filter_app. apply latest_app, Forall_forall. intros e He Heq.
  apply list_elem_of_In, filter_In in He as [He%list_elem_of_In _]. rewrite Forall_forall in Hnew. destruct (Hnew e He) as (f & Hf & Ha & Hi).
  apply issueKey_inj in Heq as [H1 H2]. apply Hk. rewrite <-H1, <-H2, <-Hi. apply list_elem_of_fmap_2, list_elem_of_In, filter_In.
  split; [by apply list_elem_of_In|]. by apply settled_auto.
Qed.
Lemma settled_manual : cache_wf d → manual (reports d').
Proof.
  intros Hwf. apply Forall_forall. intros f Hf. destruct (fi_AutoFixable f) eqn:Ha; [|done]. exfalso.
  destruct (auto_cases d' f Hf Ha) as [[Hr (c & Hc & Hfc)]|[_ (t & Ht & Hz & _)]].
  - destruct (listed_row d' c Hc) as (k & row & Hk & ->). destruct (settled_rows k row Hk) as [Hk' Hnin]. rewrite (Hwf _ _ Hk') in Hnin.
    rewrite settled_report in Hfc by done. apply Hnin. destruct (issue_report_shape d _ f Hfc) as (_ & Hi & _). change (ic_Repo row, ic_IssueNum row) with (ic_Repo (scan_cache row), ic_IssueNum (scan_cache row)).
    rewrite <-Hi. apply list_elem_of_fmap_2, list_elem_of_In, filter_In. split; [|done]. apply list_elem_of_In, elem_reports. left. apply elem_concat_map.
    exists (scan_cache row). split; [|done]. eapply listed_mono; [|exact settled_repos|exact Hc]. intros k' row' Hk2. by apply settled_rows.
  - rewrite settled_tasks in Ht. rewrite (zombie_sessions t d d') in Hz by by eapply fixed_sessions. by rewrite Hnz in Hz.
Qed.
End settled.
End spec.

(** ** Which process belongs to a worktree *)

Lemma names_join x l : name x = true → forallb name l = true → join_str "/" (x :: l) ≠ ".." ∧ HasPrefix (join_str "/" (x :: l)) "../" = false.
Proof.
  intros Hx Hl. assert (Split slash (join_str "/" (x :: l)) = x :: l) as Hs by (apply split_join; [apply names_split; cbn; by rewrite Hx|done]).
  assert (x ≠ "..") as Hne. { unfold name in Hx. apply andb_prop in Hx as [Hx _]. apply andb_prop in Hx as [_ Hx]. by apply negb_true_iff, bool_decide_eq_false in Hx. }
  split.
  - intros Heq. rewrite Heq in Hs. by injection Hs as <- _.
  - destruct (HasPrefix _ _) eqn:Hp; [|done]. apply HasPrefix_inv in Hp as [r Hr]. rewrite Hr in Hs. change ("../" +:+ r) with (".." +:+ String slash r) in Hs.
    rewrite Split_app in Hs by done. by injection Hs as <- _.
Qed.
(** On absolute clean paths [isWithinRoot] is the prefix order of their elements. *)
Lemma within_abs root path : forallb name root = true → forallb name path = true → isWithinRoot (abs root) (abs path) = true ↔ root `prefix_of` path.
Proof.
  intros Hr Hp. unfold isWithinRoot, Rel. rewrite !Clean_abs, !rooted_abs, !cleaned_abs by done. cbn [Bool.eqb negb].
  rewrite (bool_decide_false (abs root = EmptyString)), (bool_decide_false (abs path = EmptyString)) by done. cbn [orb].
  case_bool_decide as Heq; [apply abs_inj in Heq as ->; [|done|done]; by split|].
  destruct (strip_common root path) as [b t] eqn:Hsc. destruct b as [|x b].
  - destruct (strip_common_inv root path) as (c & -> & Hc); [by rewrite Hsc|]. rewrite Hsc in Hc. cbn in Hc. subst t.
    destruct c as [|x c]; [by rewrite app_nil_r in Heq|]. rewrite forallb_app in Hp. apply andb_prop in Hp as [_ [Hx Hc]%andb_prop].
    destruct (names_join x c Hx Hc) as [H1 H2]. cbn [length replicate app]. rewrite H2, (bool_decide_false _ H1). cbn. rewrite orb_true_r. split; [intros _; by eexists|done].
  - split; [|intros [c ->]; rewrite strip_common_app in Hsc; done]. intros Hin. exfalso. revert Hin.
    case_bool_decide; [done|]. cbn [length replicate app].
    destruct (replicate (length b) ".." ++ t) as [|y l]; [done|].
    change (join_str "/" (".." :: y :: l)) with ("../" +:+ join_str "/" (y :: l)). rewrite HasPrefix_app. cbn [negb]. rewrite andb_false_r, orb_false_r.
    by intros ?%bool_decide_eq_true.
Qed.

(** The worktree of a session is what precedes the last [.workbuddy] of its directory. *)
Lemma worktree_root_abs fuel es fs : forallb name (es ++ ".workbuddy" :: fs) = true → ".workbuddy" ∉ fs → (length fs < fuel)%nat →
  worktree_root fuel (abs (es ++ ".workbuddy" :: fs)) = abs es.
Proof.
  revert fuel. induction fs as [|f fs IH] using rev_ind; intros fuel Hn Hnin Hlt; (destruct fuel as [|fuel]; [cbn in Hlt; lia|]); cbn [worktree_root].
  - rewrite Base_abs, Dir_abs by done.
    assert (bool_decide (abs (es ++ [".workbuddy"]) = "/") = false) as ->.
    { apply bool_decide_false. intros Heq. change "/" with (abs []) in Heq. apply abs_inj in Heq; [by destruct es|done|done]. }
    by rewrite (bool_decide_false (abs _ = EmptyString)), (bool_decide_false (abs _ = ".")) by done.
  - assert (es ++ ".workbuddy" :: fs ++ [f] = (es ++ ".workbuddy" :: fs) ++ [f]) as Hassoc by by rewrite <-app_assoc. rewrite Hassoc in *.
    assert (forallb name (es ++ ".workbuddy" :: fs) = true) as Hn' by (rewrite forallb_app in Hn; by apply andb_prop in Hn as [? _]).
    rewrite Base_abs, Dir_abs by done.
    assert (bool_decide (abs ((es ++ ".workbuddy" :: fs) ++ [f]) = "/") = false) as ->.
    { apply bool_decide_false. intros Heq. change "/" with (abs []) in Heq. apply abs_inj in Heq; [by destruct es|done|done]. }
    rewrite (bool_decide_false (abs _ = EmptyString)), (bool_decide_false (abs _ = ".")) by done. cbn [orb].
    rewrite bool_decide_false by set_solver. rewrite bool_decide_false.
    + apply IH; [done|set_solver|]. rewrite length_app in Hlt. cbn in Hlt. lia.
    + intros Heq. apply abs_inj in Heq; [|done|done]. apply (f_equal length) in Heq. rewrite !length_app in Heq. cbn in Heq. lia.
Qed.
Lemma length_join es : forallb name es = true → (length es ≤ String.length (join_str "/" es))%nat.
Proof.
  induction es as [|x es IH]; [done|]. cbn [forallb]. intros [Hx Hes]%andb_prop. specialize (IH Hes).
  assert (1 ≤ String.length x)%nat as H1. { destruct x; [done|cbn; lia]. }
  destruct es as [|y es]; [cbn in *; lia|]. change (join_str "/" (x :: y :: es)) with (x +:+ "/" +:+ join_str "/" (y :: es)). rewrite !length_app_str. cbn in *. lia.
Qed.
Lemma sessionWorktreeRoot_abs es fs : forallb name (es ++ ".workbuddy" :: fs) = true → ".workbuddy" ∉ fs →
  sessionWorktreeRoot (abs (es ++ ".workbuddy" :: fs)) = abs es.
Proof.
  intros Hn Hnin. unfold sessionWorktreeRoot. rewrite Clean_abs by done. apply worktree_root_abs; [done|done|].
  pose proof (length_join _ Hn) as Hl. unfold abs, render. rewrite length_app_str. rewrite length_app in Hl. cbn in *. lia.
Qed.

(** An agent at work, its process somewhere below the worktree and its session file fresh,
    is no zombie. *)
Lemma live_agent_is_no_zombie mode stat repo now cfg processes d t wt fs below proc r mtime :
  List.find (λ r, bool_decide (ss_TaskID r = t_ID t)) (sessions_of mode t d) = Some r →
  ss_Dir r = abs (wt ++ ".workbuddy" :: fs) → forallb name (wt ++ ".workbuddy" :: fs) = true → ".workbuddy" ∉ fs →
  stat (sessionArtifactPath stat r) = StatFile mtime → sessionArtifactPath stat r ≠ EmptyString → now - mtime ≤ 2 * dc_IdleThreshold cfg →
  proc ∈ processes → taskProcessMatchesRuntime (t_Runtime t) (tp_Base proc) = true → tp_CWD proc = abs (wt ++ below) → forallb name (wt ++ below) = true →
  zombie mode stat repo now cfg processes d t = false.
Proof.
  intros Hr Hdir Hn Hnin Hst Hne Hidle Hp Hrt Hcwd Hbn. unfold zombie, signal_of. rewrite Hr. unfold session_signal.
  rewrite bool_decide_false, Hst, Hdir, sessionWorktreeRoot_abs by done. cbn [fst snd].
  assert (2 * dc_IdleThreshold cfg <? now - mtime = false) as -> by (apply Z.ltb_ge; lia). cbn [orb].
  assert (taskMissingChildProcess t (abs wt) now processes = false) as ->; [|by rewrite andb_false_r].
  unfold taskMissingChildProcess. destruct (is_blank _); [done|]. destruct (match t_AckedAt t with Some _ => _ | None => _ end); [|done].
  destruct (_ <? _); [done|]. apply negb_false_iff, existsb_elem. exists proc. split; [done|]. rewrite Hrt, Hcwd. cbn [andb].
  apply within_abs; [|done|by eexists]. rewrite forallb_app in Hn. by apply andb_prop in Hn as [? _].
Qed.

(** ** The command *)


(** *** Runs on a small database *)

Definition diag_env (t : Z) : Env := mkEnv t (λ _, None) (λ _, EmptyString).
Definition diag_task (id state status : string) (created updated : Z) : TaskRecord :=
  mkTask id "o/r" 7 "dev-agent" EmptyString "dev" "codex" "default" state (Some "w1") None status None (Some created) None None 0 "[]" 0 1 EmptyString EmptyString
    (Some created) (Some updated).
Definition diag_session : SessionRecord :=
  mkSession 1 "s1" "t1" "o/r" 7 "dev-agent" "codex" "w1" 1 "running" "/w/wt/.workbuddy/sessions/s1" EmptyString EmptyString EmptyString EmptyString EmptyString EmptyString None None.
Definition diag_db (labels : string) (tasks : list TaskRecord) : DB :=
  upd_db_tasks (λ _, tasks)
    (upd_db_sessions (λ _, [diag_session])
       (upd_db_depstate (λ _, {[("o/r", 7) := mkDepState "o/r" 7 DependencyVerdictReady EmptyString EmptyString false 0 false None]})
          (upd_db_cache (λ _, {[("o/r", 7) := mkCache "o/r" 7 labels EmptyString "open" None 0 EmptyString]}) empty_db))).
Definition label_list (l : string) : string := marshal_strings (Some [l]).
(** The session file was written an hour before [diag_now]. *)
Definition diag_now : Z := 100 * hour.
Definition diag_stat (path : string) : Stat := if bool_decide (path = "/w/wt/.workbuddy/sessions/s1/events-v1.jsonl") then StatFile (99 * hour) else StatMissing.
Definition diag_cfg : diagnoseConfig := diagnose_config [] 0.
Definition zombie_db : DB := diag_db (label_list "status:developing") [diag_task "t1" "developing" TaskStatusRunning (98 * hour) diag_now].
Lemma zombie_db_wf : tasks_wf zombie_db ∧ cache_wf zombie_db.
Proof.
  split; [apply NoDup_cons; split; [by intros ?%elem_of_nil|constructor]|].
  intros k row Hk. unfold zombie_db, diag_db in Hk. cbn in Hk. apply lookup_singleton_Some in Hk as [<- <-]. done.
Qed.

(** ** What the report gets wrong *)

Definition diagnose_report (d : DB) : list DiagFinding :=
  match (analyzeWithConfig false (diag_env diag_now) diag_stat (Ok EmptyString) (λ _, None) EmptyString diag_now diag_cfg d).1 with Ok l => l | Err _ => [] end.
Definition says (kind text : string) (f : DiagFinding) : bool := bool_decide (fi_Kind f = kind) && bool_decide (fi_Diagnosis f = text).

(** The tasks are read without the completed ones, so a success does not end a series of
    failures: an agent that failed, succeeded, and failed twice is said to have failed
    three times in a row, while the counter that holds back its dispatch stands at two. *)
Theorem success_does_not_end_the_series :
  let d := diag_db (label_list "status:developing")
             [diag_task "t1" "developing" TaskStatusFailed hour hour; diag_task "t2" "developing" TaskStatusCompleted (2 * hour) (2 * hour);
              diag_task "t3" "developing" TaskStatusFailed (3 * hour) (3 * hour); diag_task "t4" "developing" TaskStatusFailed (4 * hour) (4 * hour)] in
  existsb (says Diag.KindRepeatedFailure "dev-agent has failed 3 times in a row") (diagnose_report d) = true ∧
  (CountConsecutiveAgentFailures (diag_env diag_now) "o/r" 7 "dev-agent" d).1 = Ok 2.
Proof. split; vm_compute; reflexivity. Qed.

(** Only the labels of developing and reviewing are read as states; for any other label the
    state is what GitHub says of the issue.  A merging task on an issue labelled
    status:merging counts as overtaken, and its zombie is marked completed. *)
Theorem merging_task_counts_as_done :
  let d := diag_db (label_list "status:merging") [diag_task "t1" "merging" TaskStatusRunning (98 * hour) diag_now] in
  map fi_FixAction (diagnose_report d) = ["mark_completed"] ∧
  map t_Status (db_tasks (runDiagnoseWithOpts false (diag_env diag_now) diag_stat (Ok EmptyString) (λ _, None) EmptyString diag_now diag_cfg true d).2) = [TaskStatusCompleted].
Proof. split; vm_compute; reflexivity. Qed.

(** The threshold of the report is checked against the grace of the reaper for the default
    timeout only: an agent with a timeout of two minutes is reported as orphaned while its
    task still has a minute left. *)
Theorem short_timeout_is_reported_early :
  let cfg := diagnose_config [("dev-agent", 2 * minute)] 0 in
  let task := diag_task "t1" "developing" TaskStatusRunning (98 * hour) (diag_now - (4 * minute + second)) in
  Validate Default = Ok tt ∧
  orphanedThresholdForTask task (dc_AgentTimeouts cfg) < since diag_now (t_UpdatedAt task) < lv_OrphanReaperGrace Default.
Proof. vm_compute. done. Qed.
