(* ===== verification/Sha1.v ===== *)
(** * SHA-1

    [crypto/sha1], which the names of alerts use, on the words of [Sha256]. *)

From S2P Require Import Prelude GoLib Sha256.
From Stdlib Require Import Ascii.
From Stdlib Require String.

Definition rotl (n x : Z) : Z := rotr (32 - n) x.
Definition sha1_h0 : list Z := [1732584193; 4023233417; 2562383102; 271733878; 3285377520].
(** The message schedule, newest word first. *)
Fixpoint sha1_schedule (n : nat) (w : list Z) : list Z :=
  match n with
  | O => w
  | S n =>
      let t (i : nat) := nth (i - 1) w 0%Z in
      sha1_schedule n (rotl 1 (Z.lxor (Z.lxor (t 3) (t 8)) (Z.lxor (t 14) (t 16))) :: w)
  end%nat.
Definition sha1_f (i b c d : Z) : Z :=
  if i <? 20 then ch b c d else if i <? 40 then Z.lxor (Z.lxor b c) d else if i <? 60 then maj b c d else Z.lxor (Z.lxor b c) d.
Definition sha1_k (i : Z) : Z := if i <? 20 then 1518500249 else if i <? 40 then 1859775393 else if i <? 60 then 2400959708 else 3395469782.
Definition sha1_round (st : list Z) (iw : Z * Z) : list Z :=
  match st with
  | [a; b; c; d; e] => [add32 (add32 (rotl 5 a) (sha1_f iw.1 b c d)) (add32 e (add32 (sha1_k iw.1) iw.2)); a; rotl 30 b; c; d]
  | _ => st
  end.
Definition sha1_compress (st block : list Z) : list Z :=
  let w := reverse (sha1_schedule 64 (reverse block)) in
  zip_with add32 st (foldl sha1_round st (zip (map Z.of_nat (seq 0 80)) w)).
Fixpoint sha1_blocks (fuel : nat) (st ws : list Z) : list Z :=
  match fuel, ws with
  | S fuel, _ :: _ => sha1_blocks fuel (sha1_compress st (take 16 ws)) (drop 16 ws)
  | _, _ => st
  end.
Definition sha1_hex (s : string) : string :=
  let ws := words (Sha256.pad (bytes_of s)) in
  String.string_of_list_ascii (mjoin (hex_word <$> sha1_blocks (length ws) sha1_h0 ws)).

Example sha1_samples :
  sha1_hex "abc" = "a9993e364706816aba3e25717850c26c9cd0d89d" ∧
  sha1_hex "abcdbcdecdefdefgefghfghighijhijkijkljklmklmnlmnomnopnopq" = "84983e441c3bd26ebaae4aa1f95129e5e54670f1".
Proof. vm_compute. done. Qed.
