(* ===== verification/Operator.v ===== *)
(** * The operator's detector

    [internal/operator/detector.go]: the passes over tasks, issue caches and workers, the
    alerts they raise, and the emission of an alert, which is written to the event log, to
    a file of the inbox and to the alert bus unless one of the last alerts says the same.

    The output of [ps], the home directory and the failures of the file system are the
    environment's. *)

From S2P Require Import Prelude GoLib Json Sha256 Sha1 JsonValue GoText GoPath GoFormat GoTime Types Liveness DB TaskQueue StoreIssue StoreAdmin Tunnel ReportFormat.
From Stdlib Require Import Ascii.

(** ** Alerts *)

Definition KindLeaseExpired : string := "lease_expired".
Definition KindTaskStuck : string := "task_stuck".
Definition KindMissingLabel : string := "missing_label".
Definition KindCacheStale : string := "cache_stale".
Definition KindWorkerMissing : string := "worker_missing".
Definition KindCoordinatorRestartGap : string := "coordinator_restart_gap".
Definition SeverityInfo : string := "info".
Definition SeverityWarn : string := "warn".
Definition SeverityError : string := "error".
Definition leaseExpiredGrace : Z := lv_LeaseExpiredGrace Default.
Definition taskStuckAfter : Z := lv_PendingTaskStuckAfter Default.
Definition missingLabelAfter : Z := lv_MissingLabelAfter Default.

(** Values of [map[string]any]: what the detector puts in, and what a decoded payload
    holds; the keys are in order. *)
Definition Object : Type := list (string * json).
Record Alert := mkAlertRec {
  aa_ID : string; aa_Kind : string; aa_Severity : string; aa_Ts : option Z; aa_Resource : Object; aa_Detail : string; aa_Snapshot : Object
}.
Definition sorted_object (o : Object) : Object := sort_by (λ a b, String.leb a.1 b.1) o.

(** [int64] of the [float64] of a number literal: the nearest double, ties to even, cut off
    at the point; a literal out of the range of [float64] is an error, and one out of the
    range of [int64] gives what the conversion gives on amd64. *)
Definition half_even (p q : Z) : Z :=
  let d := p / q in
  let r := 2 * (p mod q) in
  if r <? q then d else if q <? r then d + 1 else if Z.even d then d else d + 1.
Definition double_int (p q : Z) : Z :=
  let k := if p <? q then -53 else Z.log2 (p / q) - 52 in
  if 0 <=? k then half_even p (q * 2 ^ k) * 2 ^ k else half_even (p * 2 ^ (- k)) q / 2 ^ (- k).
Fixpoint decimal (s : string) (acc scale : Z) (point : bool) : Z * Z :=
  match s with
  | EmptyString => (acc, scale)
  | String c r =>
      if is_digit c then decimal r (acc * 10 + (Z.of_N (N_of_ascii c) - 48)) (if point then scale - 1 else scale) point
      else if byte_is c 46 then decimal r acc scale true
      else (acc, scale + default 0 (atoi r))
  end.
Definition fraction_of (lit : string) : Z * Z * Z :=
  match atoi lit with
  | Some z => (Z.sgn z, Z.abs z, 1)
  | None =>
      let neg := HasPrefix lit "-" in
      let '(m, e) := decimal (TrimPrefix lit "-") 0 0 false in
      (if neg then -1 else 1, if 0 <=? e then m * 10 ^ e else m, if 0 <=? e then 1 else 10 ^ (- e))
  end.
Definition float_ok (lit : string) : bool := let '(_, p, q) := fraction_of lit in p <? q * 2 ^ 1024.
Definition float_int (lit : string) : Z :=
  let '(sgn, p, q) := fraction_of lit in
  let z := sgn * double_int p q in
  if int64_ok z then z else - 2 ^ 63.
Fixpoint floats_ok (v : json) : bool :=
  match v with
  | JNum x => float_ok x
  | JArr l => forallb floats_ok l
  | JObj l => forallb (λ kv, floats_ok kv.2) l
  | _ => true
  end.

(** The text of a value: of one that was just made, where numbers are integers, and of one
    that was decoded.  The keys of an object are sorted. *)
Definition stable_key (f : json → string) (o : Object) : string :=
  join_str "," (map (λ kv, kv.1 +:+ "=" +:+ f kv.2) (sorted_object o)).
Definition fresh_value (v : json) : string := match v with JStr s => s | JNum x => x | _ => EmptyString end.
Fixpoint canonicalValue (fuel : nat) (v : json) : string :=
  match fuel, v with
  | S fuel, JStr s => s
  | S fuel, JNum x => itoa (float_int x)
  | S fuel, JBool b => if b then "true" else "false"
  | S fuel, JArr l => join_str "|" (map (canonicalValue fuel) l)
  | S fuel, JObj o => stable_key (canonicalValue fuel) o
  | _, _ => EmptyString
  end.
Definition value_depth (v : json) : nat := S (N.to_nat (height v)).
Definition decoded_value (v : json) : string := canonicalValue (value_depth v) v.
Definition stableResourceKey (o : Object) : string := stable_key fresh_value o.
Definition alert_key (kind : string) (key : string) : string := kind +:+ "|" +:+ key.

Definition compact_time (ns : Z) : string :=
  let sec := ns / second in
  let '(y, m, d) := civil (sec / 86400) in
  let t := sec mod 86400 in
  cat [pad 4 y; pad 2 m; pad 2 d; "T"; pad 2 (t / 3600); pad 2 (t / 60 mod 60); pad 2 (t mod 60); "Z"].
Definition alertID (ts : Z) (kind : string) (resource : Object) : string :=
  cat [compact_time ts; "-"; kind; "-"; take_str 8 (sha1_hex (alert_key kind (stableResourceKey resource)))].
Definition newAlert (now : Z) (kind severity : string) (resource : Object) (detail : string) (snapshot : Object) : Alert :=
  mkAlertRec (alertID now kind resource) kind severity (Some now) resource detail snapshot.

(** [json.Marshal] and [json.Unmarshal] of an alert. *)
Definition time_text (t : option Z) : string := match t with Some t => RFC3339Nano t | None => "0001-01-01T00:00:00Z" end.
Definition alert_json (a : Alert) : json :=
  JObj ([("id", JStr (aa_ID a)); ("kind", JStr (aa_Kind a)); ("severity", JStr (aa_Severity a)); ("ts", JStr (time_text (aa_Ts a)))]
     ++ omit (bool_decide (aa_Resource a = [])) "resource" (JObj (sorted_object (aa_Resource a)))
     ++ [("detail", JStr (aa_Detail a))]
     ++ omit (bool_decide (aa_Snapshot a = [])) "snapshot" (JObj (sorted_object (aa_Snapshot a)))).
Definition into_time (v : json) (old : option Z) : option (option Z) :=
  match v with
  | JStr s => if all_str (λ c, negb (byte_is c 44)) s then Some <$> parse_rfc3339 s else None
  | JNull => Some old
  | _ => None
  end.
Definition put (k : string) (v : json) (o : Object) : Object := List.filter (λ kv, negb (bool_decide (kv.1 = k))) o ++ [(k, v)].
Definition into_object (v : json) (old : Object) : option Object :=
  match v with
  | JObj l => if floats_ok v then Some (foldl (λ o kv, put kv.1 kv.2 o) old l) else None
  | JNull => Some []
  | _ => None
  end.
Definition into_alert (a : Alert) (k : string) (v : json) : option Alert :=
  let 'mkAlertRec i ki se ts re de sn := a in
  if is_field k "id" then i ← into_string v i; Some (mkAlertRec i ki se ts re de sn)
  else if is_field k "kind" then ki ← into_string v ki; Some (mkAlertRec i ki se ts re de sn)
  else if is_field k "severity" then se ← into_string v se; Some (mkAlertRec i ki se ts re de sn)
  else if is_field k "ts" then ts ← into_time v ts; Some (mkAlertRec i ki se ts re de sn)
  else if is_field k "resource" then re ← into_object v re; Some (mkAlertRec i ki se ts re de sn)
  else if is_field k "detail" then de ← into_string v de; Some (mkAlertRec i ki se ts re de sn)
  else if is_field k "snapshot" then sn ← into_object v sn; Some (mkAlertRec i ki se ts re de sn)
  else Some a.
Definition zero_alert : Alert := mkAlertRec EmptyString EmptyString EmptyString None [] EmptyString [].
Fixpoint into_alerts (l : Object) (a : Alert) : option Alert :=
  match l with [] => Some a | (k, v) :: l => a ← into_alert a k v; into_alerts l a end.
Definition unmarshal_alert (s : string) : option Alert :=
  v ← parse_json s; match v with JObj l => into_alerts l zero_alert | JNull => Some zero_alert | _ => None end.

(** ** The detector *)

Record OperatorConfig := mkOperatorConfig { oc_Enabled : bool; oc_CheckInterval : Z; oc_DedupWindow : Z; oc_InboxDir : string }.
Record DetectorOptions := mkDetectorOptions {
  do_Config : OperatorConfig; do_Bus : bool; do_DefaultRepo : string; do_DefaultPollInterval : Z; do_WorkerHeartbeatInterval : Z
}.
Record Detector := mkDetector {
  de_cfg : OperatorConfig; de_bus : bool; de_defaultRepo : string; de_defaultPollInterval : Z; de_workerHeartbeatInterval : Z
}.
Definition or_default (v d : Z) : Z := if v <=? 0 then d else v.
Definition NewDetector (o : DetectorOptions) : Detector :=
  let c := do_Config o in
  mkDetector
    (mkOperatorConfig (oc_Enabled c) (or_default (oc_CheckInterval c) (lv_AlertCheckInterval Default)) (or_default (oc_DedupWindow c) (5 * minute))
       (if is_blank (oc_InboxDir c) then "~/.workbuddy/operator/inbox" else oc_InboxDir c))
    (do_Bus o) (TrimSpace (do_DefaultRepo o)) (or_default (do_DefaultPollInterval o) (30 * second)) (or_default (do_WorkerHeartbeatInterval o) (15 * second)).

(** What the environment decides in a pass: the time, the output of [ps], the home
    directory, and the error of writing to a path of the file system. *)
Record Host := mkHost { ho_now : Z; ho_ps : res string; ho_home : res string; ho_write : string → option error }.
(** What the detector works on: the database, the files of the inbox and what it gave to
    the alert bus. *)
Record BusAlert := mkBusAlert { ba_Kind : string; ba_Severity : string; ba_Repo : string; ba_IssueNum : Z; ba_Timestamp : Z; ba_Payload : Object }.
Record Op := mkOp { op_db : DB; op_inbox : gmap string string; op_bus : list BusAlert }.
Definition on_op_db {A} (m : St DB A) : St Op A := λ s, let x := m (op_db s) in (x.1, mkOp x.2 (op_inbox s) (op_bus s)).

Definition CodexProcessCount (ps : res string) : res Z :=
  match ps with
  | Err e => Err e
  | Ok out => Ok (Z.of_nat (length (List.filter (λ line, let line := TrimSpace line in
                    negb (bool_decide (line = EmptyString)) && Contains (ToLower line) "codex") (Split (chr 10) out))))
  end.

(** *** Labels and states *)

Definition containsLabel (labels : list string) (want : string) : bool := existsb (λ l, bool_decide (l = want)) labels.
Definition firstStatusLabel (labels : list string) : string := default EmptyString (List.find (λ l, HasPrefix l "status:") labels).
Definition inferCurrentState (labels : list string) (issueState : string) : string :=
  let status := firstStatusLabel labels in if bool_decide (status = EmptyString) then issueState else status.
Definition isIntermediateState (state : string) : bool :=
  if bool_decide (state ∈ [EmptyString; "closed"; "status:blocked"; "status:done"; "status:failed"]) then false else HasPrefix state "status:".
(** The error of the decoder is ignored: elements that are not strings are empty, and the
    nil slice is what anything but a list gives. *)
Definition decodeLabels (raw : string) : option (list string) :=
  if is_blank raw then None
  else match parse_json raw with Some (JArr l) => Some (map (λ v, match v with JStr s => s | _ => EmptyString end) l) | _ => None end.
Definition labels_json (labels : option (list string)) : json := match labels with Some l => JArr (map JStr l) | None => JNull end.

(** *** The alerts of a repository *)

Section detect.
Context (E : Env) (d : Detector) (host : Host).
Definition stamp (t : option Z) : string := match t with Some t => RFC3339 t | None => "0001-01-01T00:00:00Z" end.
Definition for_task (repo : string) (task : TaskRecord) : Object :=
  [("repo", JStr repo); ("issue_num", JNum (itoa (t_IssueNum task))); ("task_id", JStr (t_ID task))].
Definition for_issue (repo : string) (num : Z) : Object := [("repo", JStr repo); ("issue_num", JNum (itoa num))].
Definition lease_alert (repo : string) (task : TaskRecord) (lease : Z) : Alert :=
  newAlert (ho_now host) KindLeaseExpired SeverityWarn (for_task repo task)
    (cat ["task "; t_ID task; " lease expired at "; RFC3339 lease; " and no codex process is running"])
    [("status", JStr (t_Status task)); ("worker_id", JStr (default EmptyString (t_WorkerID task))); ("lease_expires_at", JStr (RFC3339 lease))].
Definition stuck_alert (repo : string) (task : TaskRecord) : Alert :=
  newAlert (ho_now host) KindTaskStuck SeverityWarn (for_task repo task)
    (cat ["pending task "; t_ID task; " has been stuck since "; stamp (t_CreatedAt task); " and repo has no online worker"])
    [("created_at", JStr (stamp (t_CreatedAt task))); ("status", JStr (t_Status task))].
(** The count of processes is taken at most once in a pass; it is negative before. *)
Fixpoint task_alerts (repo : string) (online : bool) (tasks : list TaskRecord) (codex : Z) : res (list Alert * Z) :=
  match tasks with
  | [] => Ok ([], codex)
  | task :: tasks =>
      let rest := task_alerts repo online tasks in
      match status_is TaskStatusRunning task, t_LeaseExpiresAt task with
      | true, Some lease =>
          if lease + leaseExpiredGrace <? ho_now host then
            match (if codex <? 0 then CodexProcessCount (ho_ps host) else Ok codex) with
            | Err e => Err (EWrap "operator: count codex processes" e)
            | Ok codex =>
                match rest codex with
                | Err e => Err e
                | Ok (l, c) => Ok (if codex =? 0 then lease_alert repo task lease :: l else l, c)
                end
            end
          else rest codex
      | _, _ =>
          if status_is TaskStatusPending task && (taskStuckAfter <? since (ho_now host) (t_CreatedAt task)) && negb online then
            match rest codex with Err e => Err e | Ok (l, c) => Ok (stuck_alert repo task :: l, c) end
          else rest codex
      end
  end.
Definition cache_snapshot (cache : IssueCache) : Object :=
  [("labels", labels_json (decodeLabels (ic_Labels cache))); ("updated_at", JStr (stamp (ic_UpdatedAt cache))); ("issue_state", JStr (ic_State cache))].
Definition missing_label (repo : string) (cache : IssueCache) : list Alert :=
  let labels := default [] (decodeLabels (ic_Labels cache)) in
  if containsLabel labels "workbuddy" && bool_decide (firstStatusLabel labels = EmptyString) && (missingLabelAfter <? since (ho_now host) (ic_UpdatedAt cache)) then
    [newAlert (ho_now host) KindMissingLabel SeverityInfo (for_issue repo (ic_IssueNum cache))
       "issue has workbuddy label but no status:* label for more than 5 minutes" (cache_snapshot cache)]
  else [].
Definition cache_stale (repo : string) (cache : IssueCache) : list Alert :=
  let poll := de_defaultPollInterval d in
  let age := since (ho_now host) (ic_UpdatedAt cache) in
  if (0 <? poll) && (2 * poll <? age) then
    [newAlert (ho_now host) KindCacheStale SeverityWarn (for_issue repo (ic_IssueNum cache))
       (cat ["issue cache has not been refreshed for "; Duration_String (round_second age)])
       [("updated_at", JStr (stamp (ic_UpdatedAt cache))); ("poll_interval", JStr (Duration_String poll))]]
  else [].
Definition countTasksForIssue (repo : string) (num : Z) : St DB (res Z) := CountTasksByIssue E repo num.
Definition restart_gap (repo : string) (startup : bool) (cache : IssueCache) : St DB (res (list Alert)) :=
  if startup && isIntermediateState (inferCurrentState (default [] (decodeLabels (ic_Labels cache))) (ic_State cache)) then
    count ←! countTasksForIssue repo (ic_IssueNum cache);
    mret (Ok (if count =? 0 then
                [newAlert (ho_now host) KindCoordinatorRestartGap SeverityWarn (for_issue repo (ic_IssueNum cache))
                   "issue has an active status label but no corresponding task rows after coordinator startup" (cache_snapshot cache)]
              else []))
  else mret (Ok []).
Fixpoint cache_alerts (repo : string) (startup : bool) (caches : list IssueCache) : St DB (res (list Alert)) :=
  match caches with
  | [] => mret (Ok [])
  | cache :: caches =>
      gap ←! restart_gap repo startup cache;
      rest ←! cache_alerts repo startup caches;
      mret (Ok (missing_label repo cache ++ cache_stale repo cache ++ gap ++ rest))
  end.
Definition worker_alerts (repo : string) (w : WorkerRecord) : list Alert :=
  let age := since (ho_now host) (w_LastHeartbeat w) in
  if bool_decide (w_Status w = "online") && (WorkerHeartbeatStaleAfter Default (de_workerHeartbeatInterval d) <? age) then
    [newAlert (ho_now host) KindWorkerMissing SeverityError [("repo", JStr repo); ("worker_id", JStr (w_ID w))]
       (cat ["worker heartbeat is stale by "; Duration_String (round_second age)])
       [("last_heartbeat", JStr (stamp (w_LastHeartbeat w))); ("heartbeat_interval", JStr (Duration_String (de_workerHeartbeatInterval d)));
        ("registered_at", JStr (stamp (w_RegisteredAt w))); ("worker_status", JStr (w_Status w)); ("worker_primary_repo", JStr (w_Repo w))]]
  else [].
Definition detectRepoAlerts (repo : string) (startup : bool) (codex : Z) : St DB (res (list Alert * Z)) :=
  caches ←! wrapE ("operator: list issue caches for " +:+ repo) (ListIssueCaches E repo);
  tasks ←! wrapE ("operator: list tasks for " +:+ repo) (QueryTasksFiltered E (mkTaskFilter repo EmptyString));
  workers ←! wrapE ("operator: list workers for " +:+ repo) (QueryWorkers E repo);
  match task_alerts repo (existsb (λ w, bool_decide (w_Status w = "online")) workers) tasks codex with
  | Err e => mret (Err e)
  | Ok (l, codex) =>
      of_caches ←! cache_alerts repo startup caches;
      mret (Ok (l ++ of_caches ++ concat (map (worker_alerts repo) workers), codex))
  end.

(** *** Emission *)

Definition TypeAlert : string := "alert".
Definition intValue (v : option json) : Z := match v with Some (JNum x) => default 0 (atoi x) | _ => 0 end.
Definition alertRepoIssue (a : Alert) : string * Z :=
  (match assoc (aa_Resource a) "repo" with Some (JStr s) => s | _ => EmptyString end, intValue (assoc (aa_Resource a) "issue_num")).
Definition toBusSeverity (severity : string) : string :=
  if bool_decide (severity = SeverityInfo) then "info" else if bool_decide (severity = SeverityError) then "error" else "warning".
Definition same_alert (window : Z) (candidate existing : Alert) : bool :=
  negb (default zero_time (aa_Ts existing) <? default zero_time (aa_Ts candidate) - window)
  && bool_decide (alert_key (aa_Kind existing) (stable_key decoded_value (aa_Resource existing))
                  = alert_key (aa_Kind candidate) (stableResourceKey (aa_Resource candidate))).
Definition isDuplicate (candidate : Alert) : St DB (res bool) :=
  payloads ←! wrapE "operator" (RecentAlertPayloads E TypeAlert 256);
  mret (Ok (existsb (λ p, match unmarshal_alert p with Some existing => same_alert (oc_DedupWindow (de_cfg d)) candidate existing | None => false end) payloads)).
Definition expandPath (path : string) : res string :=
  let path := TrimSpace path in
  if bool_decide (path = EmptyString) then Ok EmptyString
  else if bool_decide (path = "~") || HasPrefix path "~/" then
    match ho_home host with
    | Err e => Err e
    | Ok home => Ok (if bool_decide (path = "~") then home else Clean (Join [home; TrimPrefix path "~/"]))
    end
  else Ok (Clean path).
Definition writeInbox (a : Alert) (payload : string) : St Op (res unit) :=
  match expandPath (oc_InboxDir (de_cfg d)) with
  | Err e => mret (Err (EWrap "operator: resolve inbox dir" e))
  | Ok dir =>
      match ho_write host dir with
      | Some e => mret (Err (EWrap "operator: create inbox dir" e))
      | None =>
          let path := Join [dir; aa_ID a +:+ ".json"] in
          match ho_write host path with
          | Some e => mret (Err (EWrap "operator: write inbox alert" e))
          | None => modS (λ s, mkOp (op_db s) (<[path := payload]> (op_inbox s)) (op_bus s));; mret (Ok tt)
          end
      end
  end.
Definition bus_alert (a : Alert) : BusAlert :=
  mkBusAlert (aa_Kind a) (toBusSeverity (aa_Severity a)) (alertRepoIssue a).1 (alertRepoIssue a).2 (default zero_time (aa_Ts a) / second)
    [("alert_id", JStr (aa_ID a)); ("detail", JStr (aa_Detail a)); ("resource", JObj (sorted_object (aa_Resource a))); ("snapshot", JObj (sorted_object (aa_Snapshot a)))].
Definition emit (a : Alert) : St Op (res bool) :=
  suppressed ←! on_op_db (isDuplicate a);
  if suppressed : bool then mret (Ok false)
  else
    let payload := print_json (alert_json a) in
    _ ←! on_op_db (wrapE "operator: persist alert" (InsertEvent E TypeAlert (alertRepoIssue a).1 (alertRepoIssue a).2 payload));
    _ ←! writeInbox a payload;
    (if de_bus d then modS (λ s, mkOp (op_db s) (op_inbox s) (op_bus s ++ [bus_alert a])) else mret tt);;
    mret (Ok true).

(** *** Passes *)

Definition repoContexts : St DB (res (list string)) :=
  registrations ←! wrapE "operator: list repo registrations" (ListRepoRegistrations E);
  let repos := List.filter (λ r, negb (bool_decide (r = EmptyString))) (de_defaultRepo d :: map (λ r, TrimSpace (rg_Repo r)) registrations) in
  mret (Ok (sort_strings (remove_dups repos))).
Fixpoint detect_all (repos : list string) (startup : bool) (codex : Z) : St DB (res (list Alert)) :=
  match repos with
  | [] => mret (Ok [])
  | repo :: repos =>
      x ←! detectRepoAlerts repo startup codex;
      rest ←! detect_all repos startup x.2;
      mret (Ok (x.1 ++ rest))
  end.
(** The alerts that were emitted, and the error that ended the emission. *)
Fixpoint emit_all (alerts : list Alert) : St Op (list Alert * option error) :=
  match alerts with
  | [] => mret ([], None)
  | a :: alerts =>
      ok ← emit a;
      match ok with
      | Err e => mret ([], Some e)
      | Ok sent => rest ← emit_all alerts; mret ((if sent : bool then [a] else []) ++ rest.1, rest.2)
      end
  end.
Definition runPass (startup : bool) : St Op (list Alert * option error) :=
  repos ← on_op_db repoContexts;
  match repos with
  | Err e => mret ([], Some e)
  | Ok repos =>
      alerts ← on_op_db (detect_all repos startup (-1));
      match alerts with Err e => mret ([], Some e) | Ok alerts => emit_all alerts end
  end.
End detect.

(** [Run]: a first pass at the start and one at each tick, until one fails; the hosts are
    those of the passes until the context ends. *)
Fixpoint run_ticks (E : Host → Env) (d : Detector) (startup : bool) (hosts : list Host) : St Op (option error) :=
  match hosts with
  | [] => mret None
  | host :: hosts =>
      r ← runPass (E host) d host startup;
      match r.2 with Some e => mret (Some e) | None => run_ticks E d false hosts end
  end.
Definition Run (E : Host → Env) (d : Detector) (hosts : list Host) : St Op (option error) :=
  if oc_Enabled (de_cfg d) then run_ticks E d true hosts else mret None.
