(* ===== verification/OperatorSpec.v ===== *)
(** * The alerts of the detector are spaced

    An alert that was written to the event log is not written again within the window,
    across passes, restarts and whatever else is logged, unless 256 other alerts lie in
    between: only so many are compared. *)

From S2P Require Import Prelude GoLib Json Sha256 Sha1 JsonValue GoText GoPath GoFormat GoTime Types Liveness DB TaskQueue StoreIssue StoreAdmin Tunnel TunnelFrames ReportFormat Operator.
From Stdlib Require Import Ascii.

(** ** What a payload says after it was stored *)

(** Issue numbers are integers that [float64] holds. *)
Lemma half_even_1 p : half_even p 1 = p.
Proof. unfold half_even. by rewrite Z.div_1_r, Z.mod_1_r. Qed.
Lemma float_int_itoa n : 0 ≤ n < 2 ^ 53 → float_int (itoa n) = n.
Proof.
  intros Hn. unfold float_int, fraction_of. rewrite atoi_itoa by (unfold int64_ok; lia).
  assert (double_int (Z.abs n) 1 = n) as ->.
  { rewrite Z.abs_eq by lia. unfold double_int. rewrite Z.div_1_r. destruct (Z.ltb_spec n 1) as [H1|H1].
    - change (0 <=? -53) with false. cbv iota. rewrite half_even_1. apply Z.div_mul. done.
    - destruct (Z.leb_spec 0 (Z.log2 n - 52)) as [Hk|Hk].
      + assert (Z.log2 n < 53) by (apply Z.log2_lt_pow2; lia). replace (Z.log2 n - 52) with 0 by lia. cbn [Z.pow Z.mul]. rewrite Z.mul_1_r. apply half_even_1.
      + rewrite half_even_1. apply Z.div_mul. apply Z.pow_nonzero; lia. }
  destruct (decide (n = 0)) as [->|Hz]; [done|]. rewrite Z.sgn_pos, Z.mul_1_l by lia. destruct (int64_ok n) eqn:Hi; [done|]. unfold int64_ok in Hi. lia.
Qed.

(** The resources the detector names. *)
Inductive shape : Object → Z → Prop :=
  | shape_task repo n id : shape [("repo", JStr repo); ("issue_num", JNum (itoa n)); ("task_id", JStr id)] n
  | shape_issue repo n : shape [("repo", JStr repo); ("issue_num", JNum (itoa n))] n
  | shape_worker repo id : shape [("repo", JStr repo); ("worker_id", JStr id)] 0.
Lemma shape_key o n : shape o n → 0 ≤ n < 2 ^ 53 → stable_key decoded_value (sorted_object o) = stableResourceKey o.
Proof.
  intros Hs Hn. unfold stableResourceKey, stable_key. destruct Hs as [repo n id|repo n|repo id].
  - change (sorted_object [("repo", JStr repo); ("issue_num", JNum (itoa n)); ("task_id", JStr id)]) with
      [("issue_num", JNum (itoa n)); ("repo", JStr repo); ("task_id", JStr id)].
    change (sorted_object [("issue_num", JNum (itoa n)); ("repo", JStr repo); ("task_id", JStr id)]) with
      [("issue_num", JNum (itoa n)); ("repo", JStr repo); ("task_id", JStr id)].
    cbn [map fst snd]. change (decoded_value (JNum (itoa n))) with (itoa (float_int (itoa n))). by rewrite float_int_itoa.
  - change (sorted_object [("repo", JStr repo); ("issue_num", JNum (itoa n))]) with [("issue_num", JNum (itoa n)); ("repo", JStr repo)].
    change (sorted_object [("issue_num", JNum (itoa n)); ("repo", JStr repo)]) with [("issue_num", JNum (itoa n)); ("repo", JStr repo)].
    cbn [map fst snd]. change (decoded_value (JNum (itoa n))) with (itoa (float_int (itoa n))). by rewrite float_int_itoa.
  - reflexivity.
Qed.

Ltac fields := repeat match goal with |- context [is_field ?a ?b] => let x := eval vm_compute in (is_field a b) in change (is_field a b) with x end.
Definition flat (o : Object) : Prop := Forall (λ kv, floats_ok kv.2 = true ∧ (height kv.2 ≤ 1)%N) o.
Definition payload_of (a : Alert) : string := print_json (alert_json a).
Definition dated_at (a : Alert) (t : Z) : Prop := aa_Ts a = Some t ∧ 0 ≤ t / second ≤ last_second.
(** An alert whose payload can be read again. *)
Definition storable (a : Alert) : Prop :=
  (∃ n, shape (aa_Resource a) n ∧ 0 ≤ n < 2 ^ 53) ∧ (∃ t, dated_at a t) ∧ flat (aa_Snapshot a) ∧ json_ok (alert_json a) = true.

Lemma shape_sorted o n : shape o n → 0 ≤ n < 2 ^ 53 →
  into_object (JObj (sorted_object o)) [] = Some (sorted_object o) ∧ (height (JObj (sorted_object o)) ≤ 2)%N ∧ o ≠ [].
Proof.
  intros Hs Hn.
  assert (float_ok (itoa n) = true) as Hf.
  { unfold float_ok, fraction_of. rewrite atoi_itoa by (unfold int64_ok; lia). apply Z.ltb_lt. rewrite Z.mul_1_l, Z.abs_eq by lia.
    etransitivity; [apply Hn|]. apply Z.pow_lt_mono_r; lia. }
  assert (∀ l, floats_ok (JObj l) = forallb (λ kv, floats_ok kv.2) l) as He by done.
  destruct Hs as [repo n id|repo n|repo id].
  - change (sorted_object [("repo", JStr repo); ("issue_num", JNum (itoa n)); ("task_id", JStr id)]) with
      [("issue_num", JNum (itoa n)); ("repo", JStr repo); ("task_id", JStr id)]. split; [|done]. unfold into_object. rewrite He. cbn [forallb snd floats_ok]. rewrite Hf. reflexivity.
  - change (sorted_object [("repo", JStr repo); ("issue_num", JNum (itoa n))]) with [("issue_num", JNum (itoa n)); ("repo", JStr repo)].
    split; [|done]. unfold into_object. rewrite He. cbn [forallb snd floats_ok]. rewrite Hf. reflexivity.
  - by split.
Qed.
Lemma sorted_flat o : flat o → flat (sorted_object o).
Proof. intros Ho. unfold flat, sorted_object. by rewrite sort_by_perm. Qed.
Lemma flat_object o old : flat o → (∃ o', into_object (JObj o) old = Some o') ∧ (height (JObj o) ≤ 2)%N.
Proof.
  intros Ho. split.
  - unfold into_object. assert (floats_ok (JObj o) = true) as ->; [|by eexists]. change (forallb (λ kv : string * json, floats_ok kv.2) o = true).
    induction Ho as [|kv o [Hk _] _ IH]; [done|]. cbn. by rewrite Hk.
  - cbn [height]. assert (foldr (λ (kv : string * json) n, N.max (height kv.2) n) 0%N o ≤ 1)%N; [|lia].
    induction Ho as [|kv o [_ Hh] _ IH]; [done|]. cbn [foldr]. lia.
Qed.

(** The text of a time holds no comma. *)
Definition no_comma (c : ascii) : bool := negb (byte_is c 44).
Lemma pad_no_comma w z : all_str no_comma (pad w z) = true.
Proof.
  unfold pad. rewrite all_str_app. apply andb_true_intro. split; [induction (w - _)%nat; by cbn|].
  eapply all_str_mono; [|apply itoa_bytes]. intros c Hc. unfold no_comma, is_digit, byte_in, byte_is in *. destruct (N.eqb_spec (N_of_ascii c) 44) as [He|]; [|done].
  rewrite He in Hc. done.
Qed.
Lemma trim_zeros_all P s : all_str P s = true → all_str P (trim_zeros s) = true.
Proof. destruct (trim_zeros_split s) as [k Hk]. rewrite Hk at 1. rewrite all_str_app. by intros [_ ?]%andb_prop. Qed.
Lemma nano_no_comma t : all_str no_comma (RFC3339Nano t) = true.
Proof.
  unfold RFC3339Nano, rfc3339. destruct (civil _) as [[y m] d]. rewrite !all_str_app, !pad_no_comma. cbn [andb].
  destruct (_ =? 0); [done|].
  assert (all_str no_comma (rev_str (trim_zeros (rev_str (pad 9 (t mod 1000000000)) EmptyString)) EmptyString) = true) as H.
  { rewrite all_str_rev. apply trim_zeros_all. rewrite all_str_rev. apply pad_no_comma. }
  cbn [all_str]. by rewrite H.
Qed.

Lemma into_nano t old : 0 ≤ t / second ≤ last_second → into_time (JStr (RFC3339Nano t)) old = Some (Some t).
Proof. intros Ht. unfold into_time. fold no_comma. by rewrite nano_no_comma, rfc3339nano_read. Qed.
Ltac field_step := cbn [into_alert zero_alert]; fields; cbv iota; cbn [into_string mbind option_bind].
Lemma stored_alert a t : storable a → dated_at a t → ∃ sn,
  unmarshal_alert (payload_of a) = Some (mkAlertRec (aa_ID a) (aa_Kind a) (aa_Severity a) (Some t) (sorted_object (aa_Resource a)) (aa_Detail a) sn).
Proof.
  intros ((n & Hs & Hn) & _ & Hf & Hj) [Ht Hd]. unfold unmarshal_alert, payload_of.
  destruct (shape_sorted _ _ Hs Hn) as (Hr & Hhr & Hne). destruct (flat_object _ [] (sorted_flat _ Hf)) as [[sn Hsn] Hhs].
  assert (height (alert_json a) ≤ maxNestingDepth)%N as Hh.
  { unfold maxNestingDepth. transitivity 3%N; [|done]. unfold alert_json, omit. repeat case_bool_decide; [done|..];
      change (height (JObj ?l)) with (1 + foldr (λ kv n, N.max (height kv.2) n) 0 l)%N; cbn [app foldr fst snd]; change (height (JStr _)) with 0%N; lia. }
  rewrite parse_print by done. cbn [mbind option_bind]. unfold alert_json. rewrite (bool_decide_false (aa_Resource a = [])) by done. unfold omit at 1. rewrite Ht.
  cbn [app into_alerts zero_alert time_text]. do 3 field_step. field_step. rewrite into_nano by done. cbn [mbind option_bind].
  field_step. rewrite Hr. cbn [mbind option_bind]. field_step. unfold omit. case_bool_decide; cbn [into_alerts]; [by eexists|].
  field_step. rewrite Hsn. by eexists.
Qed.

(** ** The alerts of a pass *)

Lemma returns_then {S A B} (P : A → Prop) (Q : B → Prop) (m : St S (res A)) (k : A → St S (res B)) :
  returns (on_ok P) m → (∀ a, P a → returns (on_ok Q) (k a)) → returns (on_ok Q) (bindE m k).
Proof. intros Hm Hk s. unfold bindE, mbind, St_bind. specialize (Hm s). destruct (m s) as [[a|e] s']; [by apply Hk|done]. Qed.

Section pass.
Context (E : Env) (d : Detector) (host : Host).
(** Alerts of this pass: of its time, about a task, an issue or a worker. *)
Definition made (a : Alert) : Prop := aa_Ts a = Some (ho_now host) ∧ (∃ n, shape (aa_Resource a) n) ∧ flat (aa_Snapshot a).
Lemma made_alert kind severity o n detail snapshot : shape o n → flat snapshot → made (newAlert (ho_now host) kind severity o detail snapshot).
Proof. intros Hs Hf. split; [done|]. split; [by exists n|done]. Qed.
Lemma flat_texts l : Forall (λ kv : string * json, match kv.2 with JStr _ => True | _ => False end) l → flat l.
Proof. intros H. eapply Forall_impl; [exact H|]. intros [k []]; done. Qed.
Lemma flat_cache c : flat (cache_snapshot c).
Proof.
  unfold cache_snapshot, labels_json. constructor; [|apply flat_texts; by repeat constructor]. cbn [snd]. destruct (decodeLabels _) as [l|]; [|done]. split.
  - change (forallb floats_ok (map JStr l) = true). by induction l.
  - change (1 + foldr (λ v n, N.max (height v) n) 0 (map JStr l) ≤ 1)%N. assert (foldr (λ v n, N.max (height v) n) 0 (map JStr l) = 0)%N as ->; [|done].
    induction l as [|x l IH]; [done|]. cbn [map foldr height]. by rewrite IH.
Qed.
Ltac texts := apply flat_texts; by repeat constructor.

Lemma tasks_made repo online tasks codex : on_ok (λ x, Forall made x.1) (task_alerts host repo online tasks codex).
Proof.
  revert codex. induction tasks as [|task tasks IH]; intros codex; [constructor|]. cbn [task_alerts].
  assert (∀ lease, made (lease_alert host repo task lease)) as Hl by (intros; apply made_alert with (t_IssueNum task); [constructor|texts]).
  assert (made (stuck_alert host repo task)) as Hs by (apply made_alert with (t_IssueNum task); [constructor|texts]).
  assert (∀ c a b, made a → on_ok (λ x, Forall made x.1) (match task_alerts host repo online tasks c with Err e => Err e | Ok (l, c) => Ok (if b : bool then a :: l else l, c) end)) as Hrest.
  { intros c a b Ha. specialize (IH c). destruct (task_alerts host repo online tasks c) as [[l c']|]; [|done]. cbn in *. destruct b; [by constructor|done]. }
  destruct (status_is TaskStatusRunning task); [destruct (t_LeaseExpiresAt task) as [lease|]|].
  - destruct (_ <? ho_now host); [|apply IH]. destruct (if codex <? 0 then _ else _) as [c|e]; [by apply Hrest|done].
  - destruct (_ && _); [|apply IH]. by apply (Hrest codex _ true).
  - destruct (_ && _); [|apply IH]. by apply (Hrest codex _ true).
Qed.
Lemma caches_made repo startup caches : returns (on_ok (Forall made)) (cache_alerts E d host repo startup caches).
Proof.
  induction caches as [|c caches IH]; [apply returns_ret; constructor|]. cbn [cache_alerts].
  apply (returns_then (Forall made)).
  - unfold restart_gap. destruct (_ && _); [|apply returns_ret; constructor]. apply returns_bindE. intros count. apply returns_ret. cbn [on_ok].
    destruct (count =? 0); [|constructor]. constructor; [|constructor]. apply made_alert with (ic_IssueNum c); [constructor|apply flat_cache].
  - intros gap Hg. apply (returns_then (Forall made)); [done|]. intros rest Hr. apply returns_ret. cbn [on_ok]. repeat apply Forall_app_2; [| |done|done].
    + unfold missing_label. destruct (_ && _); [|constructor]. constructor; [|constructor]. apply made_alert with (ic_IssueNum c); [constructor|apply flat_cache].
    + unfold cache_stale. destruct (_ && _); [|constructor]. constructor; [|constructor]. apply made_alert with (ic_IssueNum c); [constructor|texts].
Qed.
Lemma workers_made repo ws : Forall made (concat (map (worker_alerts d host repo) ws)).
Proof.
  induction ws as [|w ws IH]; [constructor|]. cbn [map concat]. apply Forall_app_2; [|done]. unfold worker_alerts. destruct (_ && _); [|constructor].
  constructor; [|constructor]. apply made_alert with 0; [constructor|texts].
Qed.
Lemma repo_made repo startup codex : returns (on_ok (λ x, Forall made x.1)) (detectRepoAlerts E d host repo startup codex).
Proof.
  unfold detectRepoAlerts. apply returns_bindE. intros caches. apply returns_bindE. intros tasks. apply returns_bindE. intros workers.
  pose proof (tasks_made repo (existsb (λ w, bool_decide (w_Status w = "online")) workers) tasks codex) as Ht.
  destruct (task_alerts _ _ _ _ _) as [[l c]|e]; [|by apply returns_ret]. apply (returns_then (Forall made)); [apply caches_made|].
  intros of_caches Hc. apply returns_ret. cbn in *. repeat apply Forall_app_2; [done|done|apply workers_made].
Qed.
Lemma all_made repos startup codex : returns (on_ok (Forall made)) (detect_all E d host repos startup codex).
Proof.
  revert codex. induction repos as [|repo repos IH]; intros codex; [apply returns_ret; constructor|]. cbn [detect_all].
  apply (returns_then (λ x, Forall made x.1)); [apply repo_made|]. intros x Hx. apply (returns_then (Forall made)); [apply IH|]. intros rest Hr.
  apply returns_ret. by apply Forall_app_2.
Qed.
End pass.

(** ** Emission *)

(** The payloads of the alerts in the event log, and whether one of the last 256 says what
    a new alert says. *)
Definition alert_rows (d : DB) : list string := er_Payload <$> List.filter (λ e, bool_decide (er_Type e = TypeAlert)) (db_events d).
Definition said (window : Z) (a : Alert) (rows : list string) : bool :=
  existsb (λ p, match unmarshal_alert p with Some old => same_alert window a old | None => false end) (take 256 (reverse rows)).

Section emission.
Context (E : Env) (d : Detector) (host : Host).
Hypothesis HE : quiet E.
Definition window_of : Z := oc_DedupWindow (de_cfg d).
Lemma reads_duplicate a : readsE (isDuplicate E d a) (λ x, said window_of a (alert_rows x)).
Proof.
  unfold isDuplicate, RecentAlertPayloads. change (256 <=? 0) with false. cbv zeta iota.
  refine (reads_bindE _ (λ x, take 256 (reverse (alert_rows x))) _ (λ l _, existsb (λ p, match unmarshal_alert p with Some old => same_alert window_of a old | None => false end) l) _ (λ l, readsE_ret _)).
  apply reads_wrap, reads_wrap. eapply reads_ext; [apply reads_query; done|]. intros x. unfold alert_rows. rewrite <-fmap_reverse, <-fmap_take. done.
Qed.
Lemma writeInbox_db a p s : op_db (writeInbox d host a p s).2 = op_db s.
Proof. unfold writeInbox. repeat case_match; done. Qed.
Lemma emit_log a s : let s' := (emit E d host a s).2 in
  alert_rows (op_db s') = alert_rows (op_db s) ∨
  (said window_of a (alert_rows (op_db s)) = false ∧ alert_rows (op_db s') = alert_rows (op_db s) ++ [payload_of a]).
Proof.
  cbv zeta. destruct (reads_duplicate a) as [Hv Hm]. destruct (Hm (op_db s)) as [n Hn].
  unfold emit. unfold bindE, mbind, St_bind, on_op_db. rewrite Hn. cbn [fst snd op_db op_inbox op_bus].
  assert (alert_rows (Nat.iter n upd_db_call (op_db s)) = alert_rows (op_db s)) as Hr by by apply iter_calls.
  destruct (said _ _ _) eqn:Hs; [by left|]. right. split; [done|].
  unfold InsertEvent, wrapE, mbind, St_bind. cbn [insert_event_loop]. unfold mbind, St_bind. rewrite sql_quiet by done. cbn [fst snd res_wrap mret St_ret insert_event_row].
  set (dd := upd_db_call _). assert (alert_rows dd = alert_rows (op_db s) ++ [payload_of a]) as Hd.
  { rewrite <-Hr. unfold dd, alert_rows. cbn [db_events upd_db_call upd_db_events upd_db_calls]. rewrite List.filter_app, fmap_app. done. }
  rewrite <-Hd. pose proof (writeInbox_db a (print_json (alert_json a)) (mkOp dd (op_inbox s) (op_bus s))) as Hw.
  destruct (writeInbox _ _ _ _ _) as [[u|e] s1]; cbn [fst snd op_db] in Hw |- *; [destruct (de_bus d)|]; cbn [fst snd mret St_ret modS op_db]; congruence.
Qed.

(** *** A log that grows by emissions *)

Inductive grows : list string → list Alert → list string → Prop :=
  | grows_nil rows : grows rows [] rows
  | grows_snoc rows l rows' a : grows rows l rows' → storable a → said window_of a rows' = false → grows rows (l ++ [a]) (rows' ++ [payload_of a]).
Lemma grows_trans r1 l1 r2 l2 r3 : grows r1 l1 r2 → grows r2 l2 r3 → grows r1 (l1 ++ l2) r3.
Proof. intros H1 H2. induction H2 as [|r l r' a _ IH Ha Hs]; [by rewrite app_nil_r|]. rewrite app_assoc. constructor; [by apply IH|done|done]. Qed.
Lemma grows_rows r l r' : grows r l r' → r' = r ++ map payload_of l ∧ Forall storable l.
Proof.
  induction 1 as [|r l r' a _ [-> IH] Ha _]; [by rewrite app_nil_r|]. rewrite map_app, app_assoc. split; [done|]. apply Forall_app_2; [done|]. constructor; [done|constructor].
Qed.
Lemma emit_grows a s : storable a → ∃ l, grows (alert_rows (op_db s)) l (alert_rows (op_db (emit E d host a s).2)).
Proof.
  intros Ha. destruct (emit_log a s) as [->|[Hs ->]]; [exists []; constructor|]. exists [a]. apply (grows_snoc _ []); [constructor|done|done].
Qed.
Lemma emit_all_grows alerts s : Forall storable alerts → ∃ l, grows (alert_rows (op_db s)) l (alert_rows (op_db (emit_all E d host alerts s).2)).
Proof.
  intros Ha. revert s. induction Ha as [|a alerts Ha _ IH]; intros s; [exists []; constructor|]. cbn [emit_all]. unfold mbind, St_bind.
  destruct (emit_grows a s Ha) as [l Hl]. destruct (emit E d host a s) as [[sent|e] s1]; cbn [fst snd] in *; [|by exists l].
  destruct (IH s1) as [l' Hl']. destruct (emit_all E d host alerts s1) as [x s2]. cbn [fst snd] in *. exists (l ++ l'). by eapply grows_trans.
Qed.
End emission.

(** ** Histories *)

(** What the detector finds in a pass. *)
Definition detected (E : Env) (d : Detector) (host : Host) (startup : bool) (x : DB) : res (list Alert) :=
  (bindE (repoContexts E d) (λ repos, detect_all E d host repos startup (-1)) x).1.
(** Texts are valid UTF-8 and issue numbers below 2^53. *)
Definition plain_alert (a : Alert) : Prop := json_ok (alert_json a) = true ∧ ∀ n, shape (aa_Resource a) n → 0 ≤ n < 2 ^ 53.
Lemma detected_storable E d host startup x alerts : 0 ≤ ho_now host / second ≤ last_second → detected E d host startup x = Ok alerts → Forall plain_alert alerts → Forall storable alerts.
Proof.
  intros Hnow Hd Hp. assert (Forall (made host) alerts) as Hm.
  { pose proof (returns_bindE (Forall (made host)) (repoContexts E d) (λ repos, detect_all E d host repos startup (-1)) (λ repos, all_made E d host repos startup (-1)) x) as H.
    unfold detected in Hd. by rewrite Hd in H. }
  apply Forall_forall. intros a Ha. destruct (proj1 (Forall_forall _ _) Hp a Ha) as [Hj Hn]. destruct (proj1 (Forall_forall _ _) Hm a Ha) as (Ht & [n Hs] & Hf).
  split; [exists n; auto|]. split; [by exists (ho_now host)|]. done.
Qed.
(** Detection only reads. *)
Ltac only_reads := unfold repoContexts, ListRepoRegistrations, restart_gap, countTasksForIssue, CountTasksByIssue, ListIssueCaches, QueryTasksFiltered, QueryWorkers;
  repeat first [apply keeps_sql_query; done | keep_step].
Lemma contexts_read E d : keeps (same alert_rows) (repoContexts E d).
Proof. only_reads. Qed.
Lemma repo_reads E d host repo startup codex : keeps (same alert_rows) (detectRepoAlerts E d host repo startup codex).
Proof.
  assert (∀ caches, keeps (same alert_rows) (cache_alerts E d host repo startup caches)) as Hc.
  { induction caches as [|c caches IH]; [apply keeps_ret; tc_solve|]. cbn [cache_alerts]. apply keeps_bindE; [tc_solve|only_reads|intros gap]. apply keeps_bindE; [tc_solve|done|intros rest]. apply keeps_ret; tc_solve. }
  unfold detectRepoAlerts. do 3 (apply keeps_bindE; [tc_solve|only_reads|intros ?]). destruct (task_alerts _ _ _ _ _) as [[l c]|e]; [|apply keeps_ret; tc_solve].
  apply keeps_bindE; [tc_solve|apply Hc|intros ?]. apply keeps_ret; tc_solve.
Qed.
Lemma all_reads E d host repos startup codex : keeps (same alert_rows) (detect_all E d host repos startup codex).
Proof.
  revert codex. induction repos as [|repo repos IH]; intros codex; [apply keeps_ret; tc_solve|]. cbn [detect_all].
  apply keeps_bindE; [tc_solve|apply repo_reads|intros x]. apply keeps_bindE; [tc_solve|apply IH|intros ?]. apply keeps_ret; tc_solve.
Qed.
Lemma pass_grows E d host startup s : quiet E → 0 ≤ ho_now host / second ≤ last_second →
  (∀ alerts, detected E d host startup (op_db s) = Ok alerts → Forall plain_alert alerts) →
  ∃ l, grows d (alert_rows (op_db s)) l (alert_rows (op_db (runPass E d host startup s).2)).
Proof.
  intros HE Hnow Hp. pose proof (detected_storable E d host startup (op_db s)) as Hst. unfold detected, bindE, mbind, St_bind in Hp, Hst.
  unfold runPass, mbind, St_bind, on_op_db. pose proof (contexts_read E d (op_db s)) as H1. unfold same in H1.
  destruct (repoContexts E d (op_db s)) as [[repos|e] x1]; cbn [fst snd op_db op_inbox op_bus mret St_ret] in *; [|rewrite H1; exists []; constructor].
  pose proof (all_reads E d host repos startup (-1) x1) as H2. unfold same in H2. destruct (detect_all _ _ _ _ _ _ _) as [[alerts|e] x2] eqn:Hd; cbn [fst snd op_db op_inbox op_bus mret St_ret] in *.
  - rewrite <-H1, <-H2. apply (emit_all_grows E d host HE alerts (mkOp x2 (op_inbox s) (op_bus s))). auto.
  - rewrite H2, H1. exists []. constructor.
Qed.

(** Passes of the detector, by any process, with everything else that is logged in between. *)
Inductive history (E : Host → Env) (d : Detector) : Op → Op → Prop :=
  | history_refl s : history E d s s
  | history_pass s host startup s' :
      quiet (E host) → 0 ≤ ho_now host / second ≤ last_second →
      (∀ alerts, detected (E host) d host startup (op_db s) = Ok alerts → Forall plain_alert alerts) →
      history E d (runPass (E host) d host startup s).2 s' → history E d s s'
  | history_other s more s1 s' :
      db_events (op_db s1) = db_events (op_db s) ++ more → Forall (λ e, er_Type e ≠ TypeAlert) more → history E d s1 s' → history E d s s'.
Lemma history_grows E d s s' : history E d s s' → ∃ l, grows d (alert_rows (op_db s)) l (alert_rows (op_db s')).
Proof.
  induction 1 as [s|s host startup s' HE Hnow Hp _ (l' & IH)|s more s1 s' He Hm _ (l & IH)]; [exists []; constructor| |].
  - destruct (pass_grows (E host) d host startup s HE Hnow Hp) as [l Hl]. exists (l ++ l'). by eapply grows_trans.
  - exists l. assert (alert_rows (op_db s1) = alert_rows (op_db s)) as <-; [|done]. unfold alert_rows. rewrite He, List.filter_app, fmap_app.
    assert (List.filter (λ e, bool_decide (er_Type e = TypeAlert)) more = []) as ->; [|by rewrite app_nil_r].
    clear -Hm. induction Hm as [|e more Hne _ IH]; [done|]. cbn. by rewrite bool_decide_false.
Qed.

(** Rows that were said within the window keep an alert from being logged. *)
Lemma said_before w a b rows i : storable a → storable b → aa_Kind a = aa_Kind b → aa_Resource a = aa_Resource b →
  rows !! i = Some (payload_of a) → (length rows - i ≤ 256)%nat → said w b rows = false →
  default zero_time (aa_Ts a) + w < default zero_time (aa_Ts b).
Proof.
  intros Ha Hb Hk Hr Hi Hlen Hs. destruct (Ha) as ((n & Hsh & Hn) & (t & Ht) & _). destruct (stored_alert a t Ha Ht) as [sn Hst].
  unfold said in Hs. rewrite <-not_true_iff_false, existsb_elem in Hs. destruct (decide (default zero_time (aa_Ts a) + w < default zero_time (aa_Ts b))) as [|Hge]; [done|].
  exfalso. apply Hs. exists (payload_of a). split.
  - apply list_elem_of_lookup. exists (length rows - 1 - i)%nat. pose proof (lookup_lt_Some _ _ _ Hi). rewrite lookup_take_lt by lia.
    rewrite reverse_lookup_Some. split; [|lia]. replace (length rows - S (length rows - 1 - i))%nat with i by lia. done.
  - rewrite Hst. unfold same_alert. cbn [aa_Ts aa_Kind aa_Resource default from_option]. destruct Ht as [Ht _]. rewrite Ht in Hge. cbn [default from_option] in Hge.
    rewrite (shape_key _ _ Hsh Hn), Hk, Hr. rewrite bool_decide_true by done. rewrite andb_true_r. apply negb_true_iff, Z.ltb_ge. lia.
Qed.

(** C31: Over any history of passes, by one detector after another, with whatever else is
    logged in between, where the statements of the passes succeed, the clock is between
    1970 and 9999, and the alerts hold only text that JSON keeps and issue numbers that a
    double holds: the alert rows that are added to the event log are the payloads of a list
    of alerts, and two of these of the same kind about the same task, issue or worker lie
    further apart than the window, unless 256 or more alert rows lie between them.  Writing
    to the inbox may fail at any time. *)
Theorem alerts_are_not_repeated E d s s' : history E d s s' →
  ∃ l, alert_rows (op_db s') = alert_rows (op_db s) ++ map payload_of l ∧
    ∀ i j a b, l !! i = Some a → l !! j = Some b → (i < j)%nat → (j - i ≤ 256)%nat →
      aa_Kind a = aa_Kind b → aa_Resource a = aa_Resource b →
      default zero_time (aa_Ts a) + oc_DedupWindow (de_cfg d) < default zero_time (aa_Ts b).
Proof.
  intros Hh. destruct (history_grows _ _ _ _ Hh) as [l Hl]. exists l. destruct (grows_rows _ _ _ _ Hl) as [Hr Hst]. split; [done|]. clear Hh Hr.
  induction Hl as [rows|rows l rows' c Hl IH Hc Hs]; [intros i j a b; by rewrite lookup_nil|]. apply Forall_app in Hst as [Hst _]. specialize (IH Hst).
  destruct (grows_rows _ _ _ _ Hl) as [-> _]. intros i j a b Hi Hj Hij Hd Hk Hres. apply lookup_app_Some in Hj as [Hj|[Hge Hj]].
  - rewrite lookup_app_l in Hi by (apply lookup_lt_Some in Hj; lia). by eapply IH.
  - apply list_lookup_singleton_Some in Hj as [Hj <-]. rewrite lookup_app_l in Hi by lia.
    apply (said_before _ a c (rows ++ map payload_of l) (length rows + i)); [by eapply Forall_lookup_1|done|done|done| | |done].
    + rewrite lookup_app_r by lia. replace (length rows + i - length rows)%nat with i by lia. by rewrite (list_lookup_fmap payload_of), Hi.
    + rewrite length_app, length_map. lia.
Qed.

(** ** Evaluated *)

Definition op_env (host : Host) : Env := mkEnv (ho_now host) (λ _, None) (λ _, EmptyString).
(** An online worker that was last heard of long ago. *)
Definition op_start : Op :=
  mkOp (upd_db_workers (λ _, {["w1" := mkWorker "w1" "o/r" EmptyString EmptyString EmptyString EmptyString EmptyString EmptyString false "online" (Some 0) (Some 0)]}) empty_db) ∅ [].
Definition op_detector : Detector :=
  NewDetector (mkDetectorOptions (mkOperatorConfig true 0 0 "/inbox") true "o/r" 0 0).
Definition op_host (t : Z) (fails : bool) : Host :=
  mkHost (t * second) (Ok EmptyString) (Ok "/home/op") (λ _, if fails then Some (EMsg "no space left") else None).
Definition op_pass (t : Z) (fails startup : bool) (s : Op) : Op := (runPass (op_env (op_host t fails)) op_detector (op_host t fails) startup s).2.
Definition op_end : Op := op_pass 500 false false (op_pass 160 false false (op_pass 100 false true op_start)).
Example op_end_log : length (alert_rows (op_db op_end)) = 2%nat ∧ length (op_bus op_end) = 2%nat ∧ size (op_inbox op_end) = 2%nat.
Proof. vm_compute. done. Qed.
Ltac plain_alerts := intros alerts H; vm_compute in H; injection H as <-; constructor; [split; [vm_compute; reflexivity|intros n Hs; inversion Hs; subst; lia]|constructor].
Lemma op_history : history op_env op_detector op_start op_end.
Proof.
  unfold op_end, op_pass. apply history_pass with (op_host 100 false) true; [done|vm_compute; split; discriminate|plain_alerts|].
  apply history_pass with (op_host 160 false) false; [done|vm_compute; split; discriminate|plain_alerts|].
  apply history_pass with (op_host 500 false) false; [done|vm_compute; split; discriminate|plain_alerts|]. apply history_refl.
Qed.
Lemma alerts_are_not_repeated_witness :
  ∃ l, alert_rows (op_db op_end) = map payload_of l ∧ length l = 2%nat ∧
    ∀ i j a b, l !! i = Some a → l !! j = Some b → (i < j)%nat → (j - i ≤ 256)%nat →
      aa_Kind a = aa_Kind b → aa_Resource a = aa_Resource b → default zero_time (aa_Ts a) + 5 * minute < default zero_time (aa_Ts b).
Proof.
  destruct (alerts_are_not_repeated op_env op_detector op_start op_end op_history) as (l & Hl & Hs). exists l.
  split; [exact Hl|]. split; [|exact Hs]. rewrite <-(length_map payload_of l). change (map payload_of l) with (alert_rows (op_db op_start) ++ map payload_of l).
  rewrite <-Hl. exact (proj1 op_end_log).
Defined.

(** The alert is logged before it is written to the inbox and published: when the inbox
    cannot be written, it reaches neither, and the following passes take it for said. *)
Lemma failed_inbox_swallows_the_alert :
  let s := op_pass 160 false false (op_pass 100 true true op_start) in
  length (alert_rows (op_db s)) = 1%nat ∧ op_inbox s = ∅ ∧ op_bus s = [].
Proof. vm_compute. done. Qed.
(** A pass that fails is the last one. *)
Lemma one_error_ends_the_detector :
  let s := (Run op_env op_detector [op_host 100 true; op_host 500 false] op_start).2 in
  (Run op_env op_detector [op_host 100 true; op_host 500 false] op_start).1 ≠ None ∧ length (alert_rows (op_db s)) = 1%nat ∧
  length (alert_rows (op_db (op_pass 500 false false s))) = 2%nat.
Proof. vm_compute. done. Qed.
