(* ===== verification/RestartIssue.v ===== *)
(** * Restarting an issue

    [cmd/admin_restart_issue.go] and [cmd/destructive.go]: the command that forces an issue
    back through the poller.  It removes the issue's cached row, its dependency verdict, its
    claim and its cycle counters, logs the restart and asks the coordinator to drop the
    inflight group.

    What the operator types and the coordinator's answer are the environment's. *)

From S2P Require Import Prelude GoLib Json JsonValue GoText GoFormat GoUrl Types DB TaskQueue TaskQueueSpec IssueClaim StoreIssue StoreAdmin World Poller PollerSpec Tunnel ReportFormat.
From Stdlib Require Import Ascii.

Record restartIssueResult := mkRestart {
  ri_Repo : string; ri_IssueNum : Z; ri_CacheCleared : bool; ri_DependencyStateCleared : bool; ri_ClaimCleared : bool; ri_CycleStateCleared : bool;
  ri_InflightCleared : bool; ri_ClaimOwner : string; ri_EventLogged : bool
}.
Definition upd_ri_ClaimCleared (b : bool) (r : restartIssueResult) : restartIssueResult :=
  mkRestart (ri_Repo r) (ri_IssueNum r) (ri_CacheCleared r) (ri_DependencyStateCleared r) b (ri_CycleStateCleared r) (ri_InflightCleared r) (ri_ClaimOwner r) (ri_EventLogged r).
Definition upd_ri_InflightCleared (b : bool) (r : restartIssueResult) : restartIssueResult :=
  mkRestart (ri_Repo r) (ri_IssueNum r) (ri_CacheCleared r) (ri_DependencyStateCleared r) (ri_ClaimCleared r) (ri_CycleStateCleared r) b (ri_ClaimOwner r) (ri_EventLogged r).
Definition upd_ri_EventLogged (b : bool) (r : restartIssueResult) : restartIssueResult :=
  mkRestart (ri_Repo r) (ri_IssueNum r) (ri_CacheCleared r) (ri_DependencyStateCleared r) (ri_ClaimCleared r) (ri_CycleStateCleared r) (ri_InflightCleared r) (ri_ClaimOwner r) b.

(** ** The store *)

Section store.
Context (E : Env) (repo : string) (issueNum : Z).
Definition op_name (what : string) : string := cat ["restart-issue: "; what; " #"; itoa issueNum].
Definition some {A} (x : option A) : bool := match x with Some _ => true | None => false end.
Definition inspectRestartIssueStore : St DB (res restartIssueResult) :=
  cached ←! wrapE (op_name "query issue cache") (QueryIssueCache E repo issueNum);
  depState ←! wrapE (op_name "query dependency state") (QueryIssueDependencyState E repo issueNum);
  claim ←! wrapE (op_name "query issue claim") (QueryIssueClaim E repo issueNum);
  cycleState ←! wrapE (op_name "query cycle state") (QueryIssueCycleState E repo issueNum);
  mret (Ok (mkRestart repo issueNum (some cached) (some depState) (some claim) (some cycleState) false (from_option cl_WorkerID EmptyString claim) false)).
Definition TypeIssueRestarted : string := "issue_restarted".
(** The keys of the payload are in order. *)
Definition restart_payload (source : string) (r : restartIssueResult) : string :=
  print_json (JObj [("cache_cleared", JBool (ri_CacheCleared r)); ("claim_cleared", JBool (ri_ClaimCleared r)); ("claim_owner", JStr (ri_ClaimOwner r));
                    ("cycle_state_cleared", JBool (ri_CycleStateCleared r)); ("dependency_state_cleared", JBool (ri_DependencyStateCleared r));
                    ("issue_num", JNum (itoa issueNum)); ("repo", JStr repo); ("source", JStr source)]).
Definition run_if {S} (b : bool) (m : St S (res unit)) : St S (res unit) := if b then m else mret (Ok tt).
Definition runRestartIssueStore (source : string) : St DB (res restartIssueResult) :=
  result ←! inspectRestartIssueStore;
  _ ←! run_if (ri_CacheCleared result) (wrapE (op_name "delete issue cache") (DeleteIssueCache E repo issueNum));
  _ ←! run_if (ri_DependencyStateCleared result) (wrapE (op_name "reset dependency state") (_ ←! DeleteIssueDependencyState E repo issueNum; mret (Ok tt)));
  result ←! (if ri_ClaimCleared result then
               deleted ←! wrapE (op_name "delete issue claim") (DeleteIssueClaim E repo issueNum); mret (Ok (upd_ri_ClaimCleared deleted result))
             else mret (Ok result));
  _ ←! run_if (ri_CycleStateCleared result) (wrapE (op_name "reset cycle state") (ResetIssueCycleState E repo issueNum));
  _ ←! wrapE (op_name "log event") (InsertEvent E TypeIssueRestarted repo issueNum (restart_payload source result));
  mret (Ok (upd_ri_EventLogged true result)).
End store.

(** ** The coordinator *)

Definition escapeRepoPath (repo : string) : string :=
  join_str "/" (map PathEscape (List.filter (λ p, negb (bool_decide (p = EmptyString))) (map TrimSpace (Split "/" (TrimSpace repo))))).
(** The answer to a POST: an error, or the status with its text. *)
Definition Post : Type := string → list (string * string) → res (Z * string).
Definition clearCoordinatorInflight (post : Post) (coordinatorURL token repo : string) (issueNum : Z) : res bool :=
  let path := cat [TrimRightByte "/" (TrimSpace coordinatorURL); "/api/v1/admin/issues/"; escapeRepoPath repo; "/"; itoa issueNum; "/clear-inflight"] in
  let token := TrimSpace token in
  match post path (if bool_decide (token = EmptyString) then [] else [("Authorization", "Bearer " +:+ token)]) with
  | Err e => Err (EWrap "restart-issue: clear coordinator inflight" e)
  | Ok (200, _) => Ok true
  | Ok (404, _) => Ok false
  | Ok (401, _) => Err (EMsg "restart-issue: coordinator clear-inflight unauthorized")
  | Ok (_, text) => Err (EMsg ("restart-issue: coordinator clear-inflight returned " +:+ text))
  end.

(** ** The command *)

(** Whether to go on, and what is written before. *)
Definition confirmDestructiveAction (op : string) (answer : res string) (interactive force dryRun : bool) (prompt : string) (details : list string) : res bool * string :=
  if dryRun || force then (Ok true, EmptyString)
  else if negb interactive then (Err (EMsg (op +:+ ": --force is required in non-interactive mode; re-run with --force or use a TTY to confirm")), EmptyString)
  else
    let shown := cat (map (λ d, cat [" - "; d; LF]) (List.filter (λ d, negb (bool_decide (d = EmptyString))) (map TrimSpace details))) in
    let text := cat [(if bool_decide (prompt = EmptyString) then EmptyString else prompt +:+ LF); shown; "Type 'yes' to continue: "] in
    match answer with
    | Err e => (Err (EWrap (op +:+ ": read confirmation") e), text)
    | Ok a => if bool_decide (fold_name (TrimSpace a) = fold_name "yes") then (Ok true, text) else (Ok false, text +:+ "Canceled." +:+ LF)
    end.
Definition bool_text (b : bool) : string := if b then "true" else "false".
(** [Encoder.SetIndent] on an object without nested values. *)
Definition indented (fields : list (string * json)) : string :=
  cat ["{"; LF; join_str ("," +:+ LF) (map (λ kv, cat ["  "; enc_string kv.1; ": "; print_json kv.2]) fields); LF; "}"; LF].
Definition writeRestartIssueResult (r : restartIssueResult) (dryRun jsonOut : bool) : string :=
  if jsonOut then
    indented ([("repo", JStr (ri_Repo r)); ("issue_num", JNum (itoa (ri_IssueNum r))); ("cache_cleared", JBool (ri_CacheCleared r));
               ("dependency_state_cleared", JBool (ri_DependencyStateCleared r)); ("claim_cleared", JBool (ri_ClaimCleared r));
               ("cycle_state_cleared", JBool (ri_CycleStateCleared r)); ("inflight_cleared", JBool (ri_InflightCleared r))]
              ++ omit (bool_decide (ri_ClaimOwner r = EmptyString)) "claim_owner" (JStr (ri_ClaimOwner r))
              ++ [("event_logged", JBool (ri_EventLogged r))] ++ (if dryRun then [("dry_run", JBool true)] else []))
  else
    cat [(if dryRun then "dry-run: " else EmptyString); ri_Repo r; "#"; itoa (ri_IssueNum r); ": cache="; bool_text (ri_CacheCleared r);
         " dependency_state="; bool_text (ri_DependencyStateCleared r); " claim="; bool_text (ri_ClaimCleared r);
         " cycle_state="; bool_text (ri_CycleStateCleared r); " inflight="; bool_text (ri_InflightCleared r);
         (if bool_decide (ri_ClaimOwner r = EmptyString) then EmptyString else " held_by=" +:+ ri_ClaimOwner r); (if dryRun then " event=true" else EmptyString); LF].

Record restartIssueOpts := mkRestartOpts {
  ro_repo : string; ro_issue : Z; ro_coordinator : string; ro_token : string; ro_source : string; ro_jsonOut : bool; ro_force : bool; ro_dryRun : bool; ro_interactive : bool
}.
(** The command on an opened store: its error and what it writes. *)
Definition runRestartIssueWithOpts (E : Env) (post : Post) (answer : res string) (o : restartIssueOpts) : St DB (res unit * string) :=
  preview ← inspectRestartIssueStore E (ro_repo o) (ro_issue o);
  match preview with
  | Err e => mret (Err e, EmptyString)
  | Ok preview =>
      if ro_dryRun o then mret (Ok tt, writeRestartIssueResult preview true (ro_jsonOut o))
      else
        let '(go, text) := confirmDestructiveAction "restart-issue" answer (ro_interactive o) (ro_force o) (ro_dryRun o)
          (cat ["Restart "; ri_Repo preview; "#"; itoa (ri_IssueNum preview); "?"])
          ["clear issue cache: " +:+ bool_text (ri_CacheCleared preview); "clear dependency state: " +:+ bool_text (ri_DependencyStateCleared preview);
           "clear issue claim: " +:+ bool_text (ri_ClaimCleared preview); "clear dev↔review cycle state: " +:+ bool_text (ri_CycleStateCleared preview); "log issue_restarted event"] in
        match go with
        | Err e => mret (Err e, text)
        | Ok false => mret (Ok tt, text)
        | Ok true =>
            result ← runRestartIssueStore E (ro_repo o) (ro_issue o) (ro_source o);
            mret match result with
                 | Err e => (Err e, text)
                 | Ok result =>
                     if bool_decide (ro_coordinator o = EmptyString) then (Ok tt, text +:+ writeRestartIssueResult result false (ro_jsonOut o))
                     else match clearCoordinatorInflight post (ro_coordinator o) (ro_token o) (ro_repo o) (ro_issue o) with
                          | Err e => (Err e, text)
                          | Ok cleared => (Ok tt, text +:+ writeRestartIssueResult (upd_ri_InflightCleared cleared result) false (ro_jsonOut o))
                          end
                 end
        end
  end.

(** ** What a restart does *)

(** The database but for the number of statements run on it. *)
Definition contents (d : DB) : DB := upd_db_calls (λ _, O) d.
Definition cleared (repo : string) (n : Z) (d : DB) : DB :=
  upd_db_cycles (base.delete (repo, n)) (upd_db_claims (base.delete (repo, n)) (upd_db_depstate (base.delete (repo, n)) (upd_db_cache (base.delete (repo, n)) d))).
Definition found (repo : string) (n : Z) (d : DB) : restartIssueResult :=
  mkRestart repo n (some (scan_cache <$> db_cache d !! (repo, n))) (some (db_depstate d !! (repo, n))) (some (db_claims d !! (repo, n)))
    (some (db_cycles d !! (repo, n))) false (from_option cl_WorkerID EmptyString (db_claims d !! (repo, n))) false.
Definition restart_row (E : Env) (source repo : string) (n : Z) (d : DB) : EventRow :=
  mkEventRow (Z.of_nat (length (db_events d)) + 1) (sql_now E) TypeIssueRestarted repo n (restart_payload repo n source (found repo n d)).
(** The operator has agreed: by a flag, or by an answer typed at a terminal. *)
Definition agreed (o : restartIssueOpts) (answer : res string) : bool :=
  negb (ro_dryRun o) && (ro_force o || ro_interactive o && match answer with Ok a => bool_decide (fold_name (TrimSpace a) = fold_name "yes") | Err _ => false end).

Section restart.
Context (E : Env) (HE : quiet E).

(** A statement under the names of its callers. *)
Lemma named_sql {A} c1 c2 (op : DB → A * DB) d : wrapE c1 (wrapE c2 (sql E op)) d = (Ok (op d).1, upd_db_call (op d).2).
Proof. unfold wrapE, mbind, St_bind. by rewrite (sql_quiet E op d HE). Qed.
Lemma bindE_ok {A B} (m : St DB (res A)) (k : A → St DB (res B)) d a d' : m d = (Ok a, d') → bindE m k d = k a d'.
Proof. intros H. unfold bindE, mbind, St_bind. by rewrite H. Qed.
Lemma inspect_ok repo n d : inspectRestartIssueStore E repo n d = (Ok (found repo n d), upd_db_calls (Nat.add 4) d).
Proof. unfold inspectRestartIssueStore. do 4 (erewrite bindE_ok by apply named_sql). done. Qed.
Lemma deleted_absent {A} (m : gmap (string * Z) A) k : m !! k = None → base.delete k m = m.
Proof. apply delete_id. Qed.
(** The deletions, each where there is a row. *)
Lemma cache_gone repo n d : ∃ k, run_if (some (scan_cache <$> db_cache d !! (repo, n))) (wrapE (op_name n "delete issue cache") (DeleteIssueCache E repo n)) d =
  (Ok tt, upd_db_calls (Nat.add k) (upd_db_cache (base.delete (repo, n)) d)).
Proof.
  destruct (db_cache d !! (repo, n)) eqn:Hl; cbn [some fmap option_fmap option_map run_if]; [exists 1%nat; apply named_sql|exists O].
  unfold upd_db_cache. by rewrite (deleted_absent _ _ Hl); destruct d.
Qed.
Lemma verdict_gone repo n d : ∃ k, run_if (some (db_depstate d !! (repo, n)))
    (wrapE (op_name n "reset dependency state") (_ ←! DeleteIssueDependencyState E repo n; mret (Ok tt))) d =
  (Ok tt, upd_db_calls (Nat.add k) (upd_db_depstate (base.delete (repo, n)) d)).
Proof.
  destruct (db_depstate d !! (repo, n)) eqn:Hl; cbn [some run_if]; [exists 1%nat|exists O; unfold upd_db_depstate; by rewrite (deleted_absent _ _ Hl); destruct d].
  unfold wrapE at 1, bindE, DeleteIssueDependencyState, wrapE, mbind, St_bind. by rewrite (sql_quiet E _ _ HE).
Qed.
Lemma claim_gone repo n r d : ri_ClaimCleared r = some (db_claims d !! (repo, n)) → ∃ k,
  (if ri_ClaimCleared r then deleted ←! wrapE (op_name n "delete issue claim") (DeleteIssueClaim E repo n); mret (Ok (upd_ri_ClaimCleared deleted r))
   else mret (Ok r)) d = (Ok r, upd_db_calls (Nat.add k) (upd_db_claims (base.delete (repo, n)) d)).
Proof.
  intros Hr. destruct (db_claims d !! (repo, n)) eqn:Hl; cbn [some] in Hr; rewrite Hr; [exists 1%nat|exists O; unfold upd_db_claims; by rewrite (deleted_absent _ _ Hl); destruct d].
  erewrite bindE_ok by apply named_sql. cbn [fst snd]. rewrite Hl. destruct r. cbn in Hr. by subst.
Qed.
Lemma cycles_gone repo n d : ∃ k, run_if (some (db_cycles d !! (repo, n))) (wrapE (op_name n "reset cycle state") (ResetIssueCycleState E repo n)) d =
  (Ok tt, upd_db_calls (Nat.add k) (upd_db_cycles (base.delete (repo, n)) d)).
Proof.
  destruct (db_cycles d !! (repo, n)) eqn:Hl; cbn [some run_if]; [exists 1%nat; apply named_sql|exists O].
  unfold upd_db_cycles. by rewrite (deleted_absent _ _ Hl); destruct d.
Qed.
Lemma event_added c ty repo n payload d : ∃ id, wrapE c (InsertEvent E ty repo n payload) d =
  (Ok id, upd_db_call (insert_event_row E ty repo n payload d).2).
Proof. unfold InsertEvent, wrapE, mbind, St_bind. cbn [insert_event_loop]. unfold mbind, St_bind. rewrite (sql_quiet E _ _ HE). cbn. by eexists. Qed.

Lemma store_restart repo n source d :
  ∃ d', runRestartIssueStore E repo n source d = (Ok (upd_ri_EventLogged true (found repo n d)), d') ∧
    contents d' = contents (upd_db_events (λ l, l ++ [restart_row E source repo n d]) (cleared repo n d)).
Proof.
  unfold runRestartIssueStore. erewrite bindE_ok by apply inspect_ok.
  destruct (cache_gone repo n (upd_db_calls (Nat.add 4) d)) as [k1 H1]. erewrite bindE_ok by exact H1. clear H1.
  match goal with |- context [bindE _ _ ?x] => destruct (verdict_gone repo n x) as [k2 H2] end. erewrite bindE_ok by exact H2. clear H2.
  match goal with |- context [bindE _ _ ?x] => destruct (claim_gone repo n (found repo n d) x eq_refl) as [k3 H3] end. erewrite bindE_ok by exact H3. clear H3.
  match goal with |- context [bindE _ _ ?x] => destruct (cycles_gone repo n x) as [k4 H4] end. erewrite bindE_ok by exact H4. clear H4.
  match goal with |- context [bindE (wrapE ?c (InsertEvent _ ?ty _ _ ?p)) _ ?x] => destruct (event_added c ty repo n p x) as [id H5] end. erewrite bindE_ok by exact H5.
  by eexists.
Qed.

(** The confirmation lets the command go on exactly when the operator has agreed. *)
Lemma confirmed_agreed op o answer prompt details : ro_dryRun o = false →
  agreed o answer = true ↔ (confirmDestructiveAction op answer (ro_interactive o) (ro_force o) (ro_dryRun o) prompt details).1 = Ok true.
Proof.
  intros Hd. unfold agreed, confirmDestructiveAction. rewrite Hd. cbn [negb andb orb]. destruct (ro_force o); [done|].
  destruct (ro_interactive o); cbn [negb andb orb]; [|done]. destruct answer; [|done]. by case_bool_decide.
Qed.
Lemma command_restart post answer o d :
  contents (runRestartIssueWithOpts E post answer o d).2 =
  contents (if agreed o answer then upd_db_events (λ l, l ++ [restart_row E (ro_source o) (ro_repo o) (ro_issue o) d]) (cleared (ro_repo o) (ro_issue o) d) else d).
Proof.
  unfold runRestartIssueWithOpts, mbind, St_bind. rewrite inspect_ok. cbn [fst snd].
  destruct (ro_dryRun o) eqn:Hd; [by unfold agreed; rewrite Hd|].
  pose proof (confirmed_agreed "restart-issue" o answer) as Hc. rewrite Hd in Hc.
  match goal with |- context [confirmDestructiveAction _ _ _ _ _ ?p ?l] => specialize (Hc p l eq_refl) end.
  destruct (confirmDestructiveAction _ _ _ _ _ _ _) as [[[|]|e] text] eqn:Hgo; cbn [fst] in Hc.
  - rewrite (proj2 Hc eq_refl). destruct (store_restart (ro_repo o) (ro_issue o) (ro_source o) (upd_db_calls (Nat.add 4) d)) as (d' & Hr & Ht).
    rewrite Hr. cbn [fst snd mret St_ret]. exact Ht.
  - destruct (agreed o answer); [by discriminate (proj1 Hc eq_refl)|done].
  - destruct (agreed o answer); [by discriminate (proj1 Hc eq_refl)|done].
Qed.
End restart.

(** C32: Restarting an issue does what it is for.  When the operator has agreed, by the
    flag or by typing the answer at a terminal, the issue has no cached row, no dependency
    verdict, no claim and no cycle counters, one event is appended that says which of them
    there were, and nothing else of the database has changed; and the next complete poll
    whose listing carries the issue reports it as created, whatever its labels were before.
    On a dry run and when the operator has not agreed, the database is unchanged. *)
Theorem restart_reenters_the_poll E post answer o d : quiet E →
  let d' := (runRestartIssueWithOpts E post answer o d).2 in
  if agreed o answer then
    contents d' = contents (upd_db_events (λ l, l ++ [restart_row E (ro_source o) (ro_repo o) (ro_issue o) d]) (cleared (ro_repo o) (ro_issue o) d)) ∧
    ∀ E' cancelled interval issues prs s iss, quiet E' → (∀ n, cancelled n = false) → distinct issues prs → wd_db (po_world s) = d' →
      iss ∈ issues → is_Number iss = ro_issue o →
      ∃ evs, po_events (poll E' (mkReader (inr issues) (inr prs)) cancelled (ro_repo o) interval s).2 = po_events s ++ evs ∧
        issue_event (ro_repo o) EventIssueCreated iss (is_Title iss) ∈ evs
  else contents d' = contents d.
Proof.
  intros HE d'. pose proof (command_restart E HE post answer o d) as Ht. fold d' in Ht. destruct (agreed o answer); [|done].
  split; [done|]. intros E' cancelled interval issues prs s iss HE' Hc Hd Hs Hi Hn.
  destruct (poll_ok E' cancelled (ro_repo o) interval HE' Hc issues prs s (updates_agree E' (ro_repo o) interval s issues prs Hd)) as (He & _).
  eexists. split; [exact He|]. apply elem_of_app. left. apply elem_of_reported. left. exists iss. split; [done|].
  assert (cached (ro_repo o) s (is_Number iss) = None) as ->; [|left].
  unfold cached. rewrite Hs, Hn. apply (f_equal db_cache) in Ht. cbn in Ht. rewrite Ht. apply lookup_delete_eq.
Qed.

(** ** Evaluated: a claimed issue whose labels the cache already has *)

Definition stuck_db : DB := upd_db_claims (λ _, {[("o/r", 1) := mkClaim "w1" "tok" 0 100]}) (wd_db (po_world demo_poll)).
Definition stuck_opts : restartIssueOpts := mkRestartOpts "o/r" 1 EmptyString EmptyString "cli" false false false true.
Lemma restart_reenters_the_poll_witness :
  let d' := (runRestartIssueWithOpts (demo_env 0) (λ _ _, Err (EMsg "offline")) (Ok "Yes") stuck_opts stuck_db).2 in
  db_claims d' = ∅ ∧ length (db_events d') = 1%nat ∧
  ∃ evs, po_events (poll (demo_env 0) (mkReader (inr demo_issues) (inr demo_prs)) (λ _, false) "o/r" minute (upd_po_world (upd_wd_db (λ _, d')) demo_poll)).2 = evs ∧
    issue_event "o/r" EventIssueCreated (mkIssue 1 "title" "OPEN" ["workbuddy"; "status:developing"] "body" "author") "title" ∈ evs.
Proof.
  intros d'. split; [vm_compute; reflexivity|]. split; [vm_compute; reflexivity|].
  destruct (restart_reenters_the_poll (demo_env 0) (λ _ _, Err (EMsg "offline")) (Ok "Yes") stuck_opts stuck_db (λ _, eq_refl)) as [_ Hp].
  apply (Hp (demo_env 0) (λ _, false) minute demo_issues demo_prs (upd_po_world (upd_wd_db (λ _, d')) demo_poll)); try done; [apply demo_distinct|left].
Defined.
